(* ===== verification/_CoqProject ===== *)
-Q . S2P
Prelude.v
RocksDB.v
DB.v
Bitcoin.v
Fees.v
HeaderList.v
Rows.v
Fetch.v
Indexer.v
IndexerSync.v
Iter.v
ChainQuery.v
ChainView.v
ChainBlocks.v
ChainHistory.v
ScriptStats.v
ScriptUtxo.v
Merkle.v
Mempool.v
MempoolIndex.v
MempoolUpdate.v
MempoolQueries.v
Query.v
QueryFacts.v
Text.v
Json.v
Electrum.v
ElectrumFacts.v
ElectrumAnswers.v
ElectrumServer.v
ElectrumReader.v
ElectrumServerFacts.v
Auth.v
Queue.v
QueueFacts.v
Sigops.v
RestValues.v
Rest.v
RestFacts.v
Mwck.v
MwckFacts.v
MwckTip.v
RestServer.v
RestServerFacts.v
Front.v
FrontFacts.v
DaemonRpc.v
DaemonFacts.v
Precache.v
Popular.v
Server.v
ServerFacts.v
Discovery.v
DiscoveryFacts.v
Calculator.v
CalculatorFacts.v
ClientWire.v
ClientParse.v
ClientWireFacts.v
Registry.v
RegistryFacts.v
Assets.v
AssetsFacts.v
SharedPaths.v
WebPaths.v
ClientFacts.v
