(* ===== verification/Prelude.v ===== *)
(** * A verification library for splora, an Esplora-style chain indexer

    ** The program

    Splora follows a bitcoind node, keeps an index of the best chain in three RocksDB
    databases, mirrors bitcoind's mempool, and answers queries about blocks,
    transactions, scripts and fees; beside it run an approval queue and an allowlist
    for its users.  Its parts, and the files here that model them (sources are under
    [src/src]):

    - [new_index/db.rs], over RocksDB: [RocksDB] is the interface of the ordered
      key-value store (a class with its laws, and a finite-map instance); [DB] has the
      scans, the merge of reverse scans, batched writes and the version check.
    - The [bitcoin] crate ([Bitcoin]): transactions and blocks as records; hashing,
      consensus encoding and script classification are an interface with laws and an
      instance that evaluates.
    - [util/block.rs] ([HeaderList]): the list of headers of the best chain, how new
      headers are ordered and spliced in, median times.
    - The key and row formats of [new_index/schema.rs] ([Rows]), byte by byte; the
      values that the serializer crate encodes are an interface ([Wincode]).
    - [new_index/fetch.rs] and the header download of [daemon.rs] ([Fetch]).
    - [Store] and [Indexer] of [new_index/schema.rs]: definitions in [Indexer], the
      refinement proofs in [IndexerSync].
    - [ChainQuery] of [new_index/schema.rs]: definitions in [ChainQuery] over the lazy
      iterators of [Iter]; what a query sees of a synced store in [ChainView]; blocks,
      transactions and spends in [ChainBlocks]; histories and their pages in
      [ChainHistory]; statistics in [ScriptStats]; unspent outputs in [ScriptUtxo].
    - [util/electrum_merkle.rs] ([Merkle]) and [util/fees.rs] ([Fees], in binary32
      arithmetic from the Standard Library's [SpecFloat]).
    - [new_index/mempool.rs]: definitions in [Mempool]; the representation invariant and
      [add] in [MempoolIndex]; [remove], [update] and the interleaving of threads in
      [MempoolUpdate]; queries in [MempoolQueries].
    - [new_index/query.rs] ([Query], [QueryFacts]): the chain and the mempool together,
      broadcasting, and the caches of fee estimates.
    - [electrum/mod.rs] and [electrum/server.rs]: the methods of the protocol,
      subscriptions, dispatch and the HTTP adapter in [Electrum], what a client can rely
      on in [ElectrumFacts], that every request is answered in [ElectrumAnswers]; the reader of a stream, the handling of messages and the
      server as a transition system over all connections in [ElectrumServer], with the
      reader's delivery in [ElectrumReader] and the invariants in [ElectrumServerFacts].
    - [auth.rs] ([Auth]) and [queue.rs] ([Queue], [QueueFacts]).  Texts, decimal numbers
      and UTF-8 are in [Text], JSON values in [Json].
    - [util/transaction.rs] and [util/script.rs], signature operations and inner scripts
      ([Sigops]).
    - [rest.rs]: the values of the API and their JSON in [RestValues], the handlers and
      the routing in [Rest], what they answer in [RestFacts]; the gate in front of them,
      the upgrade to a websocket and the loop of a websocket in [RestServer], who is
      served and for how long in [RestServerFacts].
    - [mwck.rs], the watcher behind the websockets: subscriptions, events and the hub in
      [Mwck]; what the hub keeps and what an event says in [MwckFacts]; what happens
      when the tip moves in [MwckTip].
    - [http_front/mod.rs], the public front, with the prefixes and the signing of the web
      client ([frontend/splora-api], [frontend/web/src/auth.rs]) in [Front]; the way of a
      signed request from the client to the indexer in [FrontFacts].
    - [daemon.rs] and [signal.rs], the client of bitcoind, down to the lines of its
      connection, in [DaemonRpc]; batches, retries and what it fetches from a node in
      [DaemonFacts].
    - [new_index/precache.rs] ([Precache]), and the tool that finds the scripts to fill the
      caches for, [bin/popular-scripts.rs] ([Popular]).
    - [bin/electrs.rs], the loop that drives all of this and the shutdown, in [Server] and
      [ServerFacts].
    - [electrum/discovery.rs] and [electrum/client.rs], the search for other Electrum
      servers, in [Discovery] and [DiscoveryFacts].
    - [elements/], compiled only with the [liquid] feature: the asset registry in
      [Registry] and [RegistryFacts], pegs, issuances, the asset index and its statistics
      in [Assets] and [AssetsFacts].
    - The clients' library ([frontend/shared]): the paths and calls in [SharedPaths], the
      structs that read the indexer's replies in [ClientWire] and the parsers in
      [ClientParse], with what they read in [ClientWireFacts]; the calculator
      ([calculator.rs], [fiat.rs], [form.rs]) in [Calculator] and [CalculatorFacts].  The
      paths and the search box of the web client ([frontend/web/src/paths.rs],
      [search.rs]) are in [WebPaths]; what both ask of the indexer in [ClientFacts].

    ** How code is modelled

    A Rust computation is a [result]: a value, an [Err], a panic, or [Diverge] when a
    loop uses up the bound its model has; code that changes state is a function
    [S -> S * result A] ([SR]) with the notations of this file, so what was changed
    before an error stays changed.  Machine integers are [Z] with their wrap-around
    written out ([wrap64], [as_u32], [as_u16]); lengths and heights that the code keeps
    in [usize] and that index lists are [nat].  Hash maps and sets are [gmap] and
    [gset]; no theorem depends on their iteration order.  A REST handler is a function
    [H] from the query to a new query and a response, an HTTP error or a crash.  The
    order in which a thread pool delivers the items of a page is an argument
    ([par_order]), any permutation.  Bitcoind's answers, the file
    system's failures and the clock are arguments.  The [liquid] feature is off, as in
    the default build, except in the files of [elements/], whose rows are decoded values
    behind an interface of the store ([AssetChain]).

    ** What is proved

    - Refinement of the index ([IndexerSync], [HeaderList], [Fetch]): [synced] says that
      the databases are the image of a chain, the address-search rows apart; [update]
      takes a synced store over any reorganisation that attaches to its chain to the
      header list and the transaction store of bitcoind's chain, and to the history rows
      of its blocks except those found indexed at start-up, a set that the code does not
      maintain; a second theorem shows that blocks of this set which are rolled back and
      return have no history rows.  What happens to the address-search rows is stated
      apart.  Reopening the databases loses nothing.
    - The row formats decode what they encode, their byte order is the order the scans
      need, and the seek keys cut where they should ([Rows]).
    - On a synced store every query answers for the best chain ([ChainBlocks],
      [ChainHistory], [ScriptStats], [ScriptUtxo]); the caches are transparent.
    - The mempool ([refines]): its indexes are those of a set of accepted transactions,
      through every interleaving of updates with additions by other threads.
    - The combined queries ([QueryFacts]), proved against the lemmas of the two sides.
    - The Electrum server: however reads are cut, the lines of a stream become requests
      once and in order; over a synced index and a bitcoind that replies no handler panics
      and every request is answered under its id; an update tells a
      client exactly what changed; histories are complete or refused, and a status
      determines the history it stands for; over every interleaving of the threads the
      gauges, the table of clients and the limits are exact.
    - REST: a transaction is shown with its status, inputs, outputs and fee exactly when
      all it spends is known; the pages of a script's history continue each other
      without loss or repetition; lists of blocks descend the chain.  No request reaches
      a handler or a websocket without passing the gate, and a websocket whose key is
      revoked is closed within a poll of the allowlist.
    - The watcher: subscriptions are well formed whatever a client sends; an event names
      exactly the transactions that touch a tracked key, and a shown transaction touches
      a script exactly when it pays it or spends from it; when the tip moves, orphaned
      transactions are told as removed and then the new ones as confirmed, and the hub
      remembers blocks of the current chain only, all the recent ones if it did before;
      the cache of bodies is bounded, its
      queue is not.
    - From the web client through the front to the gate: over HTTP/1.1 the URL that is
      signed, for a GET or a POST, is the one the indexer rebuilds, over HTTP/2 and HTTP/3
      it is not; no path reaches the socket of another network or of the Electrum server.
    - The client of bitcoind: over any network every result of a batch is that of a reply
      to this call, failures are counted over all chunks, lost connections are retried
      until another outcome or a signal; over a node that answers it gives the node's
      data, so that the fetcher of the indexer, asking through it, gets the node's blocks.
    - Filling the caches ahead of time changes no answer; the tool prints exactly the scripts
      with enough rows when its sections are all entered and a row follows them.
    - The server as a whole: a turn of its loop over a bitcoind that answers, with one tip
      throughout the turn, ends with the index of bitcoind's chain, bitcoind's mempool and a
      well-formed hub; what happens when the tip moves within the turn; which changes
      of the mempool the watchers are told; the databases are flushed before an exit.
    - Discovery keeps a bounded number of health checks, each for an address its client may
      add, and as long as no service is checked twice its table is exactly the services
      that passed last.
    - Every call of the clients' library reaches the handler it is for, through the front
      of its network; the wallet's requests are the addresses that were entered; and the
      JSON values of the indexer, fee estimates and test results apart, are read back field
      by field, but for the first block.
    - Amounts in the calculator convert, round and return exactly.
    - A search of the registry does not depend on the order of the hash map; the mempool's
      asset maps and their statistics are those of its transactions through any arrivals and
      departures; over a store that keeps the laws of [AssetChainLaws], looking an asset up
      gives the numbers of all its rows with any sound cache.
    - Merkle branches against a tree given by its nodes, fee histograms, signature
      operations against Bitcoin Core's rule, authorization, the queue's limits and files.

    ** Bounds

    Loops whose recursion is not structural take fuel: the walk of [HeaderList::new]
    one round per stored header and one more, [parse_blocks] one round per byte,
    scans one round per row; for each it is proved that the fuel is not used up.
    [get_new_headers] takes its fuel as an argument, one round per header of the new
    branch.  The reader of a connection takes one round per byte and one more.  The loop
    of a websocket is a recursion on the list of what its [select!] yields.  The client of
    bitcoind reads, waits and retries for as long as the outside world makes it; its
    loops take a common fuel, and the theorems say how much is enough.  Heights
    are below 2^32 where the code stores them in 32 bits.

    ** Not modelled

    Sockets and threads as such, TLS, the framing of HTTP and the WebSocket protocol (the
    listeners of [rest.rs] and [http_front/]), the files of bitcoind, command lines and
    start-up ([config.rs], [app.rs], the other programs of [bin/]), metrics, the Liquid
    variants of the index outside [elements/] and the asset routes of [rest.rs] other than
    the search, the rendering and layout of the frontends (the screens, rows and views of
    [frontend/web] and [frontend/native], the labels of [frontend/shared]), and the tuning of RocksDB.  Parallel
    iterators of the index are modelled in their sequential order.  A
    step of the Electrum server is the handling of one message: the locks of the query
    it takes on the way, and the gauges it updates one after the other, are not separate
    steps.  A panic inside a batch of the indexer gives no state, since the process ends,
    and a fetcher gives all its batches or none.  The objects of an event of the watcher
    have the order of the client's list where the code's map orders them by key. *)

From Stdlib Require Export ZArith Lia.
From stdpp Require Export base numbers option gmap fin_maps sets strings sorting countable.
From stdpp Require Export list.

#[export] Set Default Goal Selector "!".

(** ** Scope, results and errors *)

Declare Scope splora_scope.
Delimit Scope splora_scope with splora.
Open Scope splora_scope.

(** [errors.rs]: the error kinds the modelled code constructs. *)
Inductive ErrorKind :=
  | Msg (s : string)
  | Connection (msg : string)
  | Interrupt (sig : Z)
  | TooManyUtxos (limit : Z)
  | TooManyTxs (limit : Z)
  | DaemonBusy (msg : string)
  | DaemonUnavailable (msg : string).

(** A Rust computation: a value, an [Err] that is returned to the caller, or a
    panic ([unwrap] on [None], a failed [assert!], an index out of range).
    [Diverge] is the value of a loop that used up the bound its model has; the
    theorems about such loops show that it does not occur. *)
Inductive result (A : Type) :=
  | Ok (a : A)
  | Err (e : ErrorKind)
  | Panic
  | Diverge.
Arguments Ok {A} a.
Arguments Err {A} e.
Arguments Panic {A}.
Arguments Diverge {A}.

#[export] Instance result_ret : MRet result := fun A a => Ok a.
#[export] Instance result_bind : MBind result := fun A B f m =>
  match m with Ok a => f a | Err e => Err e | Panic => Panic | Diverge => Diverge end.
#[export] Instance result_fmap : FMap result := fun A B f m =>
  match m with Ok a => Ok (f a) | Err e => Err e | Panic => Panic | Diverge => Diverge end.

(** [x.unwrap()] / [x.expect(..)] and [assert!(b)]. *)
Definition unwrap {A} (o : option A) : result A :=
  match o with Some a => Ok a | None => Panic end.
Definition rassert (b : bool) : result unit := if b then Ok tt else Panic.
(** [r.expect(..)] on a [Result]. *)
Definition expect {A} (r : result A) : result A :=
  match r with Err _ => Panic | r => r end.
Definition ok_or {A} (e : ErrorKind) (o : option A) : result A :=
  match o with Some a => Ok a | None => Err e end.

(** [r.chain_err(|| msg)] of error_chain: the error becomes the cause of a new one. *)
Definition chain_err {A} (msg : string) (r : result A) : result A :=
  match r with Err _ => Err (Msg msg) | r => r end.

(** Sequential [map] with early exit, the shape of
    [iter().map(f).collect::<Result<Vec<_>>>()]. *)
Fixpoint rmap {A B} (f : A -> result B) (l : list A) : result (list B) :=
  match l with
  | [] => Ok []
  | x :: l => y ← f x; ys ← rmap f l; Ok (y :: ys)
  end.

Definition is_ok {A} (r : result A) : Prop := exists a, r = Ok a.

#[export] Instance ErrorKind_eq_dec : EqDecision ErrorKind.
Proof. solve_decision. Defined.

Lemma bind_Ok {A B} (f : A -> result B) m b :
  (m ≫= f) = Ok b <-> exists a, m = Ok a /\ f a = Ok b.
Proof. destruct m; cbn; naive_solver. Qed.
Lemma unwrap_Ok {A} (o : option A) a : unwrap o = Ok a <-> o = Some a.
Proof. destruct o; cbn; naive_solver. Qed.
Lemma rassert_Ok b u : rassert b = Ok u <-> b = true.
Proof. destruct b, u; cbn; naive_solver. Qed.

Lemma rmap_Ok {A B} (f : A -> result B) (g : A -> B) l :
  (forall x, x ∈ l -> f x = Ok (g x)) -> rmap f l = Ok (map g l).
Proof.
  induction l as [|x l IH]; intros H; [done|]. cbn.
  rewrite (H x) by set_solver. cbn. rewrite IH; [done|set_solver].
Qed.

Create HintDb splora.
#[export] Hint Resolve rmap_Ok : splora.

(** [rsimp] unpacks hypotheses of the form [m ≫= f = Ok b]. *)
Ltac rsimp :=
  repeat (cbn in *; match goal with
    | H : (_ ≫= _) = Ok _ |- _ => apply bind_Ok in H; destruct H as (? & ? & ?)
    | H : unwrap _ = Ok _ |- _ => apply unwrap_Ok in H
    | H : rassert _ = Ok _ |- _ => apply rassert_Ok in H
    | H : Ok _ = Ok _ |- _ => injection H as H
    | H : exists _, _ |- _ => destruct H
    | H : _ /\ _ |- _ => destruct H
    end); simplify_eq.

(** [vm_decide] proves a decidable closed goal by evaluating its decision. *)
Ltac vm_decide := apply (bool_decide_unpack _); vm_compute; exact I.

(** Code that changes a state and may fail part-way: what it changed before an
    [Err] stays changed. *)
Definition SR (S A : Type) : Type := S -> S * result A.
#[export] Instance SR_ret S : MRet (SR S) := fun A a s => (s, Ok a).
#[export] Instance SR_bind S : MBind (SR S) := fun A B f m s =>
  match m s with
  | (s', Ok a) => f a s'
  | (s', Err e) => (s', Err e)
  | (s', Panic) => (s', Panic)
  | (s', Diverge) => (s', Diverge)
  end.
Definition lift {S A} (r : result A) : SR S A := fun s => (s, r).
Definition gets {S A} (f : S -> A) : SR S A := fun s => (s, Ok (f s)).
Definition modify {S} (f : S -> S) : SR S unit := fun s => (f s, Ok tt).

(** A state change that is all or nothing. *)
Definition transition {S} (f : S -> result S) : SR S unit := fun s =>
  match f s with
  | Ok s' => (s', Ok tt)
  | Err e => (s, Err e)
  | Panic => (s, Panic)
  | Diverge => (s, Diverge)
  end.

(** [for x in l { f(x)?; }] *)
Fixpoint sr_iter {S A} (f : A -> SR S unit) (l : list A) : SR S unit :=
  match l with
  | [] => mret tt
  | x :: l => _ ← f x; sr_iter f l
  end.

(** ** Bytes and the byte order of RocksDB and of [Ord for [u8]] *)

Abbreviation Bytes := (list Z).

(** [Ord::cmp] on byte slices: lexicographic, a proper prefix first. *)
Fixpoint bcmp (a b : Bytes) : comparison :=
  match a, b with
  | [], [] => Eq
  | [], _ :: _ => Lt
  | _ :: _, [] => Gt
  | x :: a, y :: b => match (x ?= y)%Z with Eq => bcmp a b | c => c end
  end.
Definition bytes_lt (a b : Bytes) : Prop := bcmp a b = Lt.
Definition bytes_le (a b : Bytes) : Prop := bcmp a b <> Gt.

#[export] Instance bytes_lt_dec : RelDecision bytes_lt.
Proof. intros a b. unfold bytes_lt. solve_decision. Defined.
#[export] Instance bytes_le_dec : RelDecision bytes_le.
Proof. intros a b. unfold bytes_le. solve_decision. Defined.

(** [slice.starts_with(prefix)] *)
Fixpoint starts_with (l p : Bytes) : bool :=
  match p, l with
  | [], _ => true
  | x :: p, y :: l => Z.eqb x y && starts_with l p
  | _ :: _, [] => false
  end.

Section byte_order.
Implicit Types a b c p : Bytes.

Lemma bcmp_refl a : bcmp a a = Eq.
Proof. induction a as [|x a IH]; cbn; [done|]. by rewrite Z.compare_refl. Qed.
Lemma bcmp_eq a b : bcmp a b = Eq <-> a = b.
Proof.
  split; [|intros ->; apply bcmp_refl]. revert b.
  induction a as [|x a IH]; intros [|y b]; cbn; try done.
  destruct (Z.compare_spec x y); intros H1; try done. subst. f_equal. by apply IH.
Qed.
Lemma bcmp_antisym a b : bcmp b a = CompOpp (bcmp a b).
Proof.
  revert b. induction a as [|x a IH]; intros [|y b]; cbn; try done.
  rewrite (Z.compare_antisym x y). destruct (x ?= y)%Z; cbn; auto.
Qed.
Lemma bcmp_lt_trans a b c : bcmp a b = Lt -> bcmp b c = Lt -> bcmp a c = Lt.
Proof.
  revert b c. induction a as [|x a IH]; intros [|y b] [|z c]; cbn; try done.
  destruct (Z.compare_spec x y), (Z.compare_spec y z); intros H1 H2; try done; subst.
  - rewrite Z.compare_refl. eauto.
  - by rewrite (proj2 (Z.compare_lt_iff y z)).
  - by rewrite (proj2 (Z.compare_lt_iff x z)).
  - rewrite (proj2 (Z.compare_lt_iff x z)); [done|lia].
Qed.

#[export] Instance bytes_lt_trans : Transitive bytes_lt.
Proof. intros a b c. apply bcmp_lt_trans. Qed.
#[export] Instance bytes_lt_irrefl : Irreflexive bytes_lt.
Proof. intros a H. unfold bytes_lt in H. by rewrite bcmp_refl in H. Qed.

Lemma bytes_le_lteq a b : bytes_le a b <-> bytes_lt a b \/ a = b.
Proof.
  unfold bytes_le, bytes_lt. rewrite <- bcmp_eq. destruct (bcmp a b); naive_solver.
Qed.
Lemma bytes_not_le a b : ~ bytes_le a b <-> bytes_lt b a.
Proof.
  unfold bytes_le, bytes_lt. rewrite (bcmp_antisym a b).
  destruct (bcmp a b); cbn; naive_solver.
Qed.
Lemma bytes_not_lt a b : ~ bytes_lt a b <-> bytes_le b a.
Proof.
  unfold bytes_le, bytes_lt. rewrite (bcmp_antisym b a).
  destruct (bcmp b a); cbn; naive_solver.
Qed.

#[export] Instance bytes_le_refl : Reflexive bytes_le.
Proof. intros a. rewrite bytes_le_lteq. by right. Qed.
#[export] Instance bytes_le_trans : Transitive bytes_le.
Proof.
  intros a b c. rewrite !bytes_le_lteq. intros [H1| ->] [H2| ->]; auto.
  left. by transitivity b.
Qed.
#[export] Instance bytes_le_antisymm : AntiSymm (=) bytes_le.
Proof.
  intros a b. rewrite !bytes_le_lteq. intros [H1|] [H2|]; auto.
  destruct (irreflexivity bytes_lt a). by transitivity b.
Qed.
#[export] Instance bytes_le_total : Total bytes_le.
Proof.
  intros a b. destruct (decide (bytes_le a b)) as [|H]; [by left|right].
  apply bytes_not_le in H. apply bytes_le_lteq. by left.
Qed.
Lemma bytes_lt_le a b : bytes_lt a b -> bytes_le a b.
Proof. rewrite bytes_le_lteq. by left. Qed.
Lemma bytes_le_lt_trans a b c : bytes_le a b -> bytes_lt b c -> bytes_lt a c.
Proof. rewrite bytes_le_lteq. intros [H| ->] ?; [by transitivity b|done]. Qed.
Lemma bytes_lt_le_trans a b c : bytes_lt a b -> bytes_le b c -> bytes_lt a c.
Proof. rewrite bytes_le_lteq. intros ? [H| ->]; [by transitivity b|done]. Qed.

Lemma bcmp_app p a b : bcmp (p ++ a) (p ++ b) = bcmp a b.
Proof. induction p as [|x p IH]; cbn; [done|]. by rewrite Z.compare_refl. Qed.
Lemma bcmp_app_r a b p q :
  length a = length b ->
  bcmp (a ++ p) (b ++ q) = match bcmp a b with Eq => bcmp p q | c => c end.
Proof.
  revert b. induction a as [|x a IH]; intros [|y b]; cbn; intros H; try done.
  destruct (x ?= y)%Z; auto.
Qed.

Lemma starts_with_spec a p : starts_with a p = true <-> exists r, a = p ++ r.
Proof.
  revert a. induction p as [|x p IH]; intros [|y a]; cbn.
  - naive_solver.
  - naive_solver.
  - naive_solver.
  - rewrite andb_true_iff, Z.eqb_eq, IH. naive_solver.
Qed.
Lemma starts_with_app p r : starts_with (p ++ r) p = true.
Proof. apply starts_with_spec. by exists r. Qed.
Lemma starts_with_refl p : starts_with p p = true.
Proof. apply starts_with_spec. exists []. by rewrite app_nil_r. Qed.
Lemma bytes_prefix_le p r : bytes_le p (p ++ r).
Proof.
  unfold bytes_le. rewrite <- (app_nil_r p) at 1. rewrite bcmp_app. by destruct r.
Qed.
Lemma starts_with_le a p : starts_with a p = true -> bytes_le p a.
Proof. rewrite starts_with_spec. intros [r ->]. apply bytes_prefix_le. Qed.

(** A prefix range is convex, so a scan may stop at the first miss. *)
Lemma starts_with_convex p a b c :
  bytes_le a b -> bytes_le b c ->
  starts_with a p = true -> starts_with c p = true -> starts_with b p = true.
Proof.
  rewrite !starts_with_spec. intros Hab Hbc [ra ->] [rc ->]. revert b Hab Hbc.
  induction p as [|x p IH]; intros b Hab Hbc; [by exists b|].
  destruct b as [|y b]; [by destruct Hab|].
  unfold bytes_le in *. cbn in *. rewrite Z.compare_antisym in Hbc.
  destruct (Z.compare_spec x y); cbn in *; try done. subst.
  destruct (IH b) as [r ->]; [done..|]. by exists r.
Qed.
End byte_order.

#[export] Hint Resolve bytes_lt_le starts_with_app starts_with_refl bytes_prefix_le : splora.

(** ** Machine integers *)

Definition u16_mod : Z := 65536.
Definition u32_mod : Z := 4294967296.
Definition u64_mod : Z := 18446744073709551616.
Definition i64_max : Z := 9223372036854775807.
Definition i64_min : Z := -9223372036854775808.
(** [x as u16], [x as u32] truncate. *)
Definition as_u16 (x : Z) : Z := (x mod u16_mod)%Z.
Definition as_u32 (x : Z) : Z := (x mod u32_mod)%Z.
(** Release-profile [usize]/[u64] arithmetic wraps (no [overflow-checks]). *)
Definition wrap64 (x : Z) : Z := (x mod u64_mod)%Z.
Definition is_u16 (x : Z) : Prop := (0 <= x < u16_mod)%Z.
Definition is_u32 (x : Z) : Prop := (0 <= x < u32_mod)%Z.
Definition is_u64 (x : Z) : Prop := (0 <= x < u64_mod)%Z.
(** [i64::saturating_add] / [saturating_sub]. *)
Definition clamp_i64 (x : Z) : Z := Z.max i64_min (Z.min i64_max x).

Lemma as_u32_range x : is_u32 (as_u32 x).
Proof. unfold is_u32, as_u32, u32_mod. apply Z.mod_pos_bound. lia. Qed.
Lemma as_u16_range x : is_u16 (as_u16 x).
Proof. unfold is_u16, as_u16, u16_mod. apply Z.mod_pos_bound. lia. Qed.
Lemma as_u32_id x : is_u32 x -> as_u32 x = x.
Proof. unfold is_u32, as_u32. intros. by apply Z.mod_small. Qed.
Lemma as_u16_id x : is_u16 x -> as_u16 x = x.
Proof. unfold is_u16, as_u16. intros. by apply Z.mod_small. Qed.
Lemma wrap64_id x : is_u64 x -> wrap64 x = x.
Proof. unfold is_u64, wrap64. intros. by apply Z.mod_small. Qed.
#[export] Hint Resolve as_u32_range as_u16_range as_u32_id as_u16_id : splora.

(** [to_le_bytes] / [from_le_bytes] of a [w]-byte integer. *)
Fixpoint le_bytes (w : nat) (x : Z) : Bytes :=
  match w with 0 => [] | S w => (x mod 256)%Z :: le_bytes w (x / 256) end.
Fixpoint le_num (b : Bytes) : Z :=
  match b with [] => 0%Z | x :: b => (x mod 256 + 256 * le_num b)%Z end.

Lemma le_bytes_length w x : length (le_bytes w x) = w.
Proof. revert x. induction w as [|w IH]; intros x; cbn; [done|]. by rewrite IH. Qed.

Lemma pow256_S w : (256 ^ Z.of_nat (S w) = 256 * 256 ^ Z.of_nat w)%Z.
Proof. rewrite Nat2Z.inj_succ, Z.pow_succ_r by lia. done. Qed.

Lemma div256_range w x :
  (0 <= x < 256 ^ Z.of_nat (S w))%Z -> (0 <= x / 256 < 256 ^ Z.of_nat w)%Z.
Proof.
  rewrite pow256_S. intros H. split; [apply Z.div_pos; lia|].
  apply Z.div_lt_upper_bound; lia.
Qed.

Lemma le_num_le_bytes w x : (0 <= x < 256 ^ Z.of_nat w)%Z -> le_num (le_bytes w x) = x.
Proof.
  revert x. induction w as [|w IH]; intros x Hx; cbn -[Z.mul]; [cbn in Hx; lia|].
  rewrite Z.mod_mod, IH by first [lia|by apply div256_range].
  pose proof (Z.div_mod x 256). lia.
Qed.

Lemma le_num_range b : (0 <= le_num b < 256 ^ Z.of_nat (length b))%Z.
Proof.
  induction b as [|x b IH]; cbn [le_num length]; [lia|]. rewrite pow256_S.
  pose proof (Z.mod_pos_bound x 256). lia.
Qed.

(** ** 32-byte arrays: [FullHash], [Txid], [BlockHash] *)

(** [[u8; 32]] as the byte lists of length 32; its Leibniz equality is the
    equality of the bytes, so it is a key of maps and sets. *)
Definition FullHash : Type := dsig (fun b : Bytes => length b = 32).
#[export] Instance FullHash_eq_dec : EqDecision FullHash.
Proof. unfold FullHash, dsig. apply _. Defined.
#[export] Instance FullHash_countable : Countable FullHash.
Proof. unfold FullHash, dsig. apply _. Defined.
Definition as_bytes (h : FullHash) : Bytes := `h.

(** [Hash::from_byte_array(b)] for a slice known to have 32 bytes. *)
Definition mk_hash (b : Bytes) : option FullHash :=
  match decide (length b = 32) with left H => Some (dexist b H) | right _ => None end.

Lemma as_bytes_length h : length (as_bytes h) = 32.
Proof. unfold as_bytes. exact (proj2_dsig h). Qed.
Lemma as_bytes_inj h h' : as_bytes h = as_bytes h' -> h = h'.
Proof. apply dsig_eq. Qed.
Lemma mk_hash_as_bytes h : mk_hash (as_bytes h) = Some h.
Proof.
  unfold mk_hash. destruct (decide _) as [H|H].
  - f_equal. by apply dsig_eq.
  - by rewrite as_bytes_length in H.
Qed.
Lemma mk_hash_Some b h : mk_hash b = Some h <-> b = as_bytes h.
Proof.
  split; [|intros ->; apply mk_hash_as_bytes].
  unfold mk_hash. destruct (decide _); [|done]. by intros [= <-].
Qed.
#[export] Hint Resolve as_bytes_length mk_hash_as_bytes : splora.

Lemma repeat_hash_len (b : Z) : length (replicate 32 b) = 32.
Proof. by rewrite length_replicate. Qed.
(** [[b; 32]], e.g. [BlockHash::from_byte_array([0u8; 32])]. *)
Definition hash_repeat (b : Z) : FullHash := dexist (replicate 32 b) (repeat_hash_len b).
Definition null_hash : FullHash := hash_repeat 0.

(** Concatenations that start with hashes are injective in them. *)
Lemma hash_app_inj h h' a b :
  as_bytes h ++ a = as_bytes h' ++ b -> h = h' /\ a = b.
Proof.
  intros H. apply app_inj_1 in H; [|by rewrite !as_bytes_length].
  destruct H as [H ->]. split; [|done]. by apply as_bytes_inj.
Qed.

(** ** Iterator adaptors *)

Section adaptors.
Context {A : Type}.

Fixpoint take_while (p : A -> bool) (l : list A) : list A :=
  match l with [] => [] | x :: l => if p x then x :: take_while p l else [] end.
Fixpoint skip_while (p : A -> bool) (l : list A) : list A :=
  match l with [] => [] | x :: l' => if p x then skip_while p l' else l end.

Context {K : Type} `{EqDecision K}.

(** [itertools::unique_by]: the first element of every key. *)
Fixpoint unique_by_go (f : A -> K) (seen : list K) (l : list A) : list A :=
  match l with
  | [] => []
  | x :: l =>
      if decide (f x ∈ seen) then unique_by_go f seen l
      else x :: unique_by_go f (f x :: seen) l
  end.
Definition unique_by (f : A -> K) (l : list A) : list A := unique_by_go f [] l.

Lemma unique_by_go_elem f seen l x :
  x ∈ unique_by_go f seen l -> x ∈ l /\ f x ∉ seen.
Proof.
  revert seen. induction l as [|y l IH]; intros seen; cbn; [set_solver|].
  case_decide as Hd; [|rewrite elem_of_cons; intros [->|Hx]].
  - intros Hx. apply IH in Hx. set_solver.
  - set_solver.
  - apply IH in Hx. set_solver.
Qed.
Lemma unique_by_go_cover f seen l x :
  x ∈ l -> f x ∉ seen -> exists y, y ∈ unique_by_go f seen l /\ f y = f x.
Proof.
  revert seen. induction l as [|y l IH]; intros seen; cbn; [set_solver|].
  rewrite elem_of_cons. intros [->|Hx] Hs.
  - rewrite decide_False by done. exists y. set_solver.
  - case_decide as Hd; [by apply IH|].
    destruct (decide (f x = f y)) as [He|He]; [exists y; set_solver|].
    destruct (IH (f y :: seen)) as (z & Hz & Hfz); [done|set_solver|].
    exists z. set_solver.
Qed.
Lemma unique_by_go_NoDup f seen l : NoDup (f <$> unique_by_go f seen l).
Proof.
  revert seen. induction l as [|y l IH]; intros seen; cbn; [constructor|].
  case_decide; [done|]. cbn. constructor; [|done].
  intros (z & Hz & Hin)%list_elem_of_fmap.
  apply unique_by_go_elem in Hin as [_ Hin]. set_solver.
Qed.

Lemma unique_by_elem f l x : x ∈ unique_by f l -> x ∈ l.
Proof. intros H. by apply (unique_by_go_elem f []) in H as [? _]. Qed.
Lemma unique_by_cover f l x : x ∈ l -> exists y, y ∈ unique_by f l /\ f y = f x.
Proof. intros H. apply unique_by_go_cover; [done|set_solver]. Qed.
Lemma unique_by_NoDup f l : NoDup (f <$> unique_by f l).
Proof. apply unique_by_go_NoDup. Qed.
Lemma unique_by_sorted (R : relation A) f l : StronglySorted R l -> StronglySorted R (unique_by f l).
Proof.
  unfold unique_by. generalize (@nil K) as seen. intros seen H. revert seen.
  induction H as [|x l Hs IH Hf]; intros seen; cbn; [constructor|]. case_decide; [done|].
  constructor; [done|]. rewrite Forall_forall in *. intros y [Hy _]%unique_by_go_elem. auto.
Qed.

(** Paging: [.skip_while(|x| f(x) != last).skip(1)], or everything without a [last]. *)
Definition after_key (f : A -> K) (L : list A) (last : option K) : list A :=
  match last with
  | None => L
  | Some x => match list_find (fun t => t = x) (f <$> L) with Some (k, _) => drop (S k) L | None => [] end
  end.
Lemma skip_while_lookup (f : A -> K) (L : list A) k x :
  NoDup (f <$> L) -> (f <$> L) !! k = Some x ->
  skip_while (fun t => bool_decide (x <> f t)) L = drop k L.
Proof.
  revert k. induction L as [|y L IH]; intros k Hnd Hk; [done|]. apply NoDup_cons in Hnd as [Hnin Hnd].
  destruct k as [|k]; cbn [lookup list_lookup fmap list_fmap] in Hk; cbn [skip_while drop].
  - injection Hk as ->. by rewrite bool_decide_eq_false_2 by tauto.
  - rewrite bool_decide_eq_true_2; [by apply IH|]. intros ->.
    by apply list_elem_of_lookup_2 in Hk.
Qed.
Lemma skip_while_none (f : A -> K) (L : list A) x :
  x ∉ f <$> L -> skip_while (fun t => bool_decide (x <> f t)) L = [].
Proof.
  induction L as [|y L IH]; intros Hx; [done|]. cbn in *. rewrite bool_decide_eq_true_2 by set_solver.
  apply IH. set_solver.
Qed.
Lemma skip_past (f : A -> K) (L : list A) last :
  NoDup (f <$> L) ->
  drop (match last with Some _ => 1 | None => 0 end)
    (skip_while (fun a => match last with Some t => bool_decide (t <> f a) | None => false end) L)
  = after_key f L last.
Proof.
  intros Hnd. destruct last as [x|]; [|by destruct L]. cbn [after_key].
  destruct (list_find (fun t => t = x) (f <$> L)) as [[k y]|] eqn:E.
  - apply list_find_Some in E as (Hk & -> & _). rewrite (skip_while_lookup f L k x Hnd Hk).
    rewrite drop_drop. f_equal. lia.
  - apply list_find_None in E. rewrite skip_while_none; [done|]. rewrite Forall_forall in E.
    intros Hx. by apply (E x).
Qed.
Lemma after_key_sub (f : A -> K) (L : list A) last x : x ∈ after_key f L last -> x ∈ L.
Proof.
  unfold after_key. destruct last; [|done].
  destruct (list_find _ _) as [[j y]|]; [apply subseteq_drop|by intros ?%elem_of_nil].
Qed.
End adaptors.

Lemma after_key_Forall2 {A B K} `{EqDecision K} (R : A -> B -> Prop) (f : A -> K) (g : B -> K) l L last :
  Forall2 R l L -> f <$> l = g <$> L -> Forall2 R (after_key f l last) (after_key g L last).
Proof.
  intros H He. unfold after_key. destruct last; [|done]. rewrite He.
  destruct (list_find _ _) as [[j y]|]; [by apply Forall2_drop|constructor].
Qed.
Lemma unique_by_map {A B K} `{EqDecision K} (g : A -> B) (f : B -> K) l :
  unique_by f (map g l) = map g (unique_by (fun x => f (g x)) l).
Proof.
  unfold unique_by. generalize (@nil K) as seen. induction l as [|x l IH]; intros seen; cbn; [done|].
  case_decide; [done|]. cbn. by rewrite IH.
Qed.
Lemma Forall2_choose {A B} (R : A -> B -> Prop) l :
  Forall (fun x => exists y, R x y) l -> exists L, Forall2 R l L.
Proof.
  induction 1 as [|x l [y Hy] _ [L IH]]; [exists []; constructor|]. exists (y :: L). by constructor.
Qed.

(** [slice.chunks(n)]; the fuel is the length, enough because a chunk of a
    non-empty slice is non-empty for [n > 0]. *)
Fixpoint chunks_go {A} (fuel n : nat) (l : list A) : list (list A) :=
  match fuel, l with
  | _, [] => []
  | 0, _ => []
  | S fuel, _ => take n l :: chunks_go fuel n (drop n l)
  end.
Definition chunks {A} (n : nat) (l : list A) : list (list A) := chunks_go (length l) n l.

Lemma chunks_go_concat {A} fuel n (l : list A) :
  0 < n -> length l <= fuel -> concat (chunks_go fuel n l) = l.
Proof.
  intros Hn. revert l. induction fuel as [|fuel IH]; intros [|x l] Hl; cbn in *; try done; [lia|].
  destruct n as [|n]; [lia|]. cbn. f_equal. rewrite IH.
  - by rewrite take_drop.
  - rewrite length_drop. lia.
Qed.
Lemma chunks_concat {A} n (l : list A) : 0 < n -> concat (chunks n l) = l.
Proof. intros Hn. by apply chunks_go_concat. Qed.
Lemma chunks_nonempty {A} n (l : list A) c : 0 < n -> c ∈ chunks n l -> c <> [].
Proof.
  intros Hn. unfold chunks. generalize (length l). intros fuel. revert l.
  induction fuel as [|fuel IH]; intros [|x l]; cbn; try set_solver.
  rewrite elem_of_cons. intros [->|Hc]; [|by eapply IH].
  destruct n; [lia|done].
Qed.

(** Filtering a sorted list by a property that fails for good once it failed is
    taking its longest satisfying prefix. *)
Lemma take_while_filter {A} (p : A -> bool) (R : relation A) l :
  StronglySorted R l ->
  (forall x y, x ∈ l -> y ∈ l -> R x y -> p x = false -> p y = false) ->
  take_while p l = filter (fun x => p x = true) l.
Proof.
  induction 1 as [|x l Hs IH Hf]; intros Hp; [done|].
  rewrite filter_cons. cbn [take_while]. destruct (p x) eqn:Hx.
  - rewrite decide_True by done. f_equal. apply IH. intros. eapply Hp; set_solver.
  - rewrite decide_False by congruence. symmetry.
    apply elem_of_nil_inv. intros y [Hpy Hy]%list_elem_of_filter.
    rewrite Forall_forall in Hf.
    rewrite (Hp x y) in Hpy; [done|by left|by right|by apply Hf|done].
Qed.

Lemma elem_of_concat {A} (x : A) (L : list (list A)) :
  x ∈ concat L <-> exists l, l ∈ L /\ x ∈ l.
Proof.
  induction L as [|l L IH]; cbn; [set_solver|].
  rewrite elem_of_app, IH. setoid_rewrite elem_of_cons. naive_solver.
Qed.

Lemma filter_all {A} (P : A -> Prop) `{forall x, Decision (P x)} (l : list A) :
  (forall x, x ∈ l -> P x) -> filter P l = l.
Proof.
  induction l as [|x l IH]; intros Hl; [done|]. rewrite filter_cons.
  rewrite decide_True by (apply Hl; by left). f_equal. apply IH. intros y Hy. apply Hl. by right.
Qed.
Lemma filter_none {A} (P : A -> Prop) `{forall x, Decision (P x)} (l : list A) :
  (forall x, x ∈ l -> ~ P x) -> filter P l = [].
Proof. intros Hl. apply elem_of_nil_inv. intros x [Hp Hx]%list_elem_of_filter. by apply (Hl x). Qed.

Lemma elem_of_map {A B} (f : A -> B) (l : list A) y : y ∈ map f l <-> exists x, y = f x /\ x ∈ l.
Proof. exact (list_elem_of_fmap f l y). Qed.
Lemma elem_of_concat_map {A B} (f : A -> list B) (l : list A) y :
  y ∈ concat (map f l) <-> exists x, x ∈ l /\ y ∈ f x.
Proof.
  rewrite elem_of_concat. setoid_rewrite elem_of_map. naive_solver.
Qed.

Lemma rmap_Ok_Forall2 {A B} (f : A -> result B) l ys :
  rmap f l = Ok ys <-> Forall2 (fun x y => f x = Ok y) l ys.
Proof.
  revert ys. induction l as [|x l IH]; intros ys; cbn.
  - split; [intros [= <-]; constructor|by inversion 1].
  - split.
    + intros H. rsimp. constructor; [done|]. by apply IH.
    + inversion 1 as [|? y ? ys' Hx Hl]; subst. rewrite Hx. cbn.
      apply IH in Hl. by rewrite Hl.
Qed.
Lemma rmap_total {A B} (f : A -> result B) l :
  (forall x, x ∈ l -> is_ok (f x)) -> is_ok (rmap f l).
Proof.
  induction l as [|x l IH]; intros H; [by exists []|]. cbn.
  destruct (H x ltac:(by left)) as [y ->]. destruct IH as [ys ->]; [intros; apply H; by right|].
  cbn. by eexists.
Qed.
(** The concatenated outputs of a successful sequential [map]. *)
Lemma rmap_concat_elem {A B C} (f : A -> result B) (g : B -> list C) l ys c :
  rmap f l = Ok ys ->
  c ∈ concat (map g ys) <-> exists x y, x ∈ l /\ f x = Ok y /\ c ∈ g y.
Proof.
  rewrite rmap_Ok_Forall2. intros HF. rewrite elem_of_concat_map. split.
  - intros (y & [i Hi]%list_elem_of_lookup & Hc).
    destruct (Forall2_lookup_r _ _ _ _ _ HF Hi) as (x & Hx & Hfx).
    exists x, y. split; [by eapply list_elem_of_lookup_2|done].
  - intros (x & y & [i Hi]%list_elem_of_lookup & Hfx & Hc).
    destruct (Forall2_lookup_l _ _ _ _ _ HF Hi) as (y' & Hy & Hfx').
    exists y'. split; [by eapply list_elem_of_lookup_2|]. congruence.
Qed.

(** [keys.filter_map(|k| f(k).map(|v| (k, v))).collect::<HashMap<_, _>>()] *)
Lemma list_to_map_omap_lookup {K V} `{Countable K} (f : K -> option V) (l : list K) (k : K) :
  (list_to_map (omap (fun k => v ← f k; Some (k, v)) l) : gmap K V) !! k =
  if decide (k ∈ l) then f k else None.
Proof.
  induction l as [|x l IH]; [by rewrite decide_False by set_solver|]. cbn.
  destruct (f x) as [v|] eqn:E; cbn.
  - destruct (decide (x = k)) as [->|Hne].
    + by rewrite lookup_insert_eq, decide_True by set_solver.
    + rewrite lookup_insert_ne, IH by done. repeat case_decide; set_solver.
  - rewrite IH. destruct (decide (k = x)) as [->|Hne]; repeat case_decide; set_solver.
Qed.

Lemma filter_map_comm {A B} (P : B -> Prop) `{!forall x, Decision (P x)} (f : A -> B) (l : list A) :
  filter P (map f l) = map f (filter (fun x => P (f x)) l).
Proof.
  induction l as [|x l IH]; [done|]. cbn [map]. rewrite !filter_cons.
  case_decide; cbn [map]; by rewrite IH.
Qed.

(** ** Sums *)

Definition sum_Z (l : list Z) : Z := fold_right Z.add 0%Z l.
Lemma sum_Z_cons x l : sum_Z (x :: l) = (x + sum_Z l)%Z.
Proof. done. Qed.
Lemma sum_Z_app l1 l2 : sum_Z (l1 ++ l2) = (sum_Z l1 + sum_Z l2)%Z.
Proof.
  induction l1 as [|x l1 IH]; [done|]. rewrite <- app_comm_cons, !sum_Z_cons, IH. lia.
Qed.
Lemma sum_Z_snoc l x : sum_Z (l ++ [x]) = (sum_Z l + x)%Z.
Proof. rewrite sum_Z_app. cbn. lia. Qed.
Lemma sum_Z_nonneg l : Forall (fun x => 0 <= x)%Z l -> (0 <= sum_Z l)%Z.
Proof. induction 1; rewrite ?sum_Z_cons; [done|lia]. Qed.
#[export] Instance sum_Z_perm : Proper ((≡ₚ) ==> (=)) sum_Z.
Proof. induction 1; rewrite ?sum_Z_cons; lia. Qed.
