(* ===== verification/RocksDB.v ===== *)
(** * The storage engine as an interface

    RocksDB is a third-party crate: its contents are not part of this
    repository.  [RocksDB] lists the operations [src/src/new_index/db.rs] calls
    and [RocksDBLaws] the documented behaviour the indexer relies on: point
    reads see the last write, and an iterator over a database yields its
    entries in the order of the default bytewise comparator.  I/O errors, which
    the callers turn into panics or ignore, are outside the interface.
    [KvMap] is an instance, so every theorem proved against the laws can be
    evaluated on concrete databases. *)

From S2P Require Import Prelude.

Class RocksDB (D : Type) := {
  rdb_empty : D;
  rdb_get : D -> Bytes -> option Bytes;
  rdb_put : D -> Bytes -> Bytes -> D;
  rdb_delete : D -> Bytes -> D;
  (** the entries an iterator opened with [IteratorMode::From(k, Forward)], or
      with [prefix_iterator(k)] when no prefix extractor is set, yields *)
  rdb_iter_from : D -> Bytes -> list (Bytes * Bytes);
  (** the entries a raw iterator visits with [prev] after [seek_for_prev(k)] *)
  rdb_seek_for_prev : D -> Bytes -> list (Bytes * Bytes);
}.

(** Order of the entries of a forward and of a backward iterator. *)
Definition key_lt (x y : Bytes * Bytes) : Prop := bytes_lt x.1 y.1.
Definition key_gt (x y : Bytes * Bytes) : Prop := bytes_lt y.1 x.1.

Class RocksDBLaws (D : Type) `{!RocksDB D} : Prop := {
  get_empty k : rdb_get (rdb_empty : D) k = None;
  get_put (d : D) k v k' :
    rdb_get (rdb_put d k v) k' = if decide (k = k') then Some v else rdb_get d k';
  get_delete (d : D) k k' :
    rdb_get (rdb_delete d k) k' = if decide (k = k') then None else rdb_get d k';
  iter_from_sorted (d : D) s : StronglySorted key_lt (rdb_iter_from d s);
  iter_from_elem (d : D) s k v :
    (k, v) ∈ rdb_iter_from d s <-> rdb_get d k = Some v /\ bytes_le s k;
  seek_for_prev_sorted (d : D) s : StronglySorted key_gt (rdb_seek_for_prev d s);
  seek_for_prev_elem (d : D) s k v :
    (k, v) ∈ rdb_seek_for_prev d s <-> rdb_get d k = Some v /\ bytes_le k s;
}.

(** ** An instance: finite maps, iterated in key order *)

Definition key_le (x y : Bytes * Bytes) : Prop := bytes_le x.1 y.1.
#[export] Instance key_le_dec : RelDecision key_le.
Proof. intros x y. unfold key_le. apply _. Defined.
#[export] Instance key_le_total : Total key_le.
Proof. intros x y. unfold key_le. apply (total bytes_le). Qed.
#[export] Instance key_le_trans : Transitive key_le.
Proof. intros x y z. unfold key_le. apply (transitivity (R := bytes_le)). Qed.

Definition KvMap : Type := gmap Bytes Bytes.

Definition kv_entries (d : KvMap) : list (Bytes * Bytes) :=
  merge_sort key_le (map_to_list d).

#[export] Instance KvMap_RocksDB : RocksDB KvMap := {
  rdb_empty := (∅ : gmap Bytes Bytes);
  rdb_get d k := (d : gmap Bytes Bytes) !! k;
  rdb_put d k v := <[k := v]> (d : gmap Bytes Bytes);
  rdb_delete d k := delete k (d : gmap Bytes Bytes);
  rdb_iter_from d s := filter (fun x => bytes_le s x.1) (kv_entries d);
  rdb_seek_for_prev d s := reverse (filter (fun x => bytes_le x.1 s) (kv_entries d));
}.

Lemma kv_entries_elem (d : KvMap) k v : (k, v) ∈ kv_entries d <-> d !! k = Some v.
Proof.
  unfold kv_entries. rewrite (merge_sort_Permutation key_le). apply elem_of_map_to_list.
Qed.

Lemma StronglySorted_filter {A} (R : relation A) (P : A -> Prop) `{forall x, Decision (P x)} l :
  StronglySorted R l -> StronglySorted R (filter P l).
Proof.
  induction 1 as [|x l Hs IH Hf]; [constructor|].
  rewrite filter_cons. case_decide; [|done]. constructor; [done|].
  rewrite Forall_forall in Hf |- *. intros y [_ Hy]%list_elem_of_filter. by apply Hf.
Qed.

Lemma StronglySorted_impl_NoDup_fst (l : list (Bytes * Bytes)) :
  NoDup l.*1 -> StronglySorted key_le l -> StronglySorted key_lt l.
Proof.
  induction l as [|x l IH]; intros Hn Hs; [constructor|].
  cbn in Hn. apply NoDup_cons in Hn as [Hx Hn].
  apply StronglySorted_cons in Hs as [Hf Hs].
  constructor; [by apply IH|]. rewrite Forall_forall in Hf |- *. intros y Hy.
  specialize (Hf y Hy). unfold key_le, key_lt in *.
  apply bytes_le_lteq in Hf as [Hf|Hf]; [done|]. destruct Hx. rewrite Hf.
  by apply list_elem_of_fmap_2.
Qed.

Lemma kv_entries_sorted (d : KvMap) : StronglySorted key_lt (kv_entries d).
Proof.
  apply StronglySorted_impl_NoDup_fst.
  - unfold kv_entries. rewrite (merge_sort_Permutation key_le). apply NoDup_fst_map_to_list.
  - apply (StronglySorted_merge_sort key_le).
Qed.

Lemma StronglySorted_reverse_flip {A} (R : relation A) l :
  StronglySorted R l -> StronglySorted (flip R) (reverse l).
Proof.
  induction 1 as [|x l Hs IH Hf]; [constructor|].
  rewrite reverse_cons. apply StronglySorted_app_2; [|done|repeat constructor].
  intros y z Hy Hz. rewrite list_elem_of_singleton in Hz. subst z.
  rewrite Forall_forall in Hf. apply Hf. by rewrite elem_of_reverse in Hy.
Qed.

#[export] Instance KvMap_laws : RocksDBLaws KvMap.
Proof.
  split; cbn.
  - intros k. apply lookup_empty.
  - intros d k v k'. apply lookup_insert.
  - intros d k k'. apply lookup_delete.
  - intros d s. apply StronglySorted_filter, kv_entries_sorted.
  - intros d s k v. rewrite list_elem_of_filter, kv_entries_elem. cbn. tauto.
  - intros d s. apply (StronglySorted_reverse_flip key_lt).
    apply StronglySorted_filter, kv_entries_sorted.
  - intros d s k v. rewrite elem_of_reverse, list_elem_of_filter, kv_entries_elem. cbn. tauto.
Qed.
