(* ===== verification/DB.v ===== *)
(** * [new_index/db.rs]: rows, prefix scans and batched writes

    The wrapper the indexer puts around RocksDB.  Iterators are modelled as the
    Rust structs are, with their [next] methods; [drain] is the [for] loop that
    consumes one.  The theorems say what a whole scan returns. *)

From S2P Require Import Prelude RocksDB.

(** ** Rows and iterators *)

Record DBRow := mkDBRow { dbr_key : Bytes; dbr_value : Bytes }.
#[export] Instance DBRow_eq_dec : EqDecision DBRow.
Proof. solve_decision. Defined.
Definition row_of (e : Bytes * Bytes) : DBRow := mkDBRow e.1 e.2.

Record ScanIterator := mkScan {
  si_prefix : Bytes; si_iter : list (Bytes * Bytes); si_done : bool }.

Definition scan_next (it : ScanIterator) : option DBRow * ScanIterator :=
  if si_done it then (None, it)
  else match si_iter it with
  | [] => (None, it)
  | (k, v) :: rest =>
      if negb (starts_with k (si_prefix it))
      then (None, mkScan (si_prefix it) rest true)
      else (Some (mkDBRow k v), mkScan (si_prefix it) rest false)
  end.

Record ReverseScanIterator := mkRevScan {
  rsi_prefix : Bytes; rsi_iter : list (Bytes * Bytes); rsi_done : bool }.

Definition rev_scan_next (it : ReverseScanIterator) : option DBRow * ReverseScanIterator :=
  if rsi_done it then (None, it)
  else match rsi_iter it with
  | [] => (None, it)                       (* [!self.iter.valid()] *)
  | (k, v) :: rest =>
      if negb (starts_with k (rsi_prefix it))
      then (None, mkRevScan (rsi_prefix it) (rsi_iter it) true)
      else (Some (mkDBRow k v), mkRevScan (rsi_prefix it) rest false)
  end.

(** [for row in iter { .. }]: run [next] until it returns [None]. *)
Fixpoint drain {S A} (next : S -> option A * S) (fuel : nat) (s : S) : list A :=
  match fuel with
  | 0 => []
  | Datatypes.S fuel =>
      match next s with
      | (None, _) => []
      | (Some a, s') => a :: drain next fuel s'
      end
  end.
Definition scan_rows (it : ScanIterator) : list DBRow :=
  drain scan_next (S (length (si_iter it))) it.
Definition rev_scan_rows (it : ReverseScanIterator) : list DBRow :=
  drain rev_scan_next (S (length (rsi_iter it))) it.

(** ** The k-way merge of reverse scans *)

Record ReverseScanGroupIterator := mkGroup {
  iters : list ReverseScanIterator;
  next_rows : list (option DBRow);
  value_offset : nat;
  group_done : bool }.

Definition all_none (l : list (option DBRow)) : bool :=
  forallb (fun r => match r with None => true | Some _ => false end) l.

Definition group_new (its : list ReverseScanIterator) (value_offset : nat)
    : ReverseScanGroupIterator :=
  let stepped := map rev_scan_next its in
  let next_rows := map fst stepped in
  mkGroup (map snd stepped) next_rows value_offset (all_none next_rows).

(** The comparison closure passed to [max_by]. *)
Definition group_cmp (off : nat) (a b : nat * option DBRow) : comparison :=
  match a.2, b.2 with
  | None, None => Nat.compare a.1 b.1
  | Some _, None => Gt
  | None, Some _ => Lt
  | Some ra, Some rb => bcmp (drop off (dbr_key ra)) (drop off (dbr_key rb))
  end.

(** [Iterator::max_by]: the last of the maximal elements. *)
Definition max_by {A} (cmp : A -> A -> comparison) (l : list A) : option A :=
  match l with
  | [] => None
  | x :: l => Some (fold_left (fun m y => match cmp m y with Gt => m | _ => y end) l x)
  end.

Definition best_index (off : nat) (rows : list (option DBRow)) : nat :=
  match max_by (group_cmp off) (imap pair rows) with
  | Some (i, _) => i
  | None => 0
  end.

Definition group_next (g : ReverseScanGroupIterator)
    : option DBRow * ReverseScanGroupIterator :=
  if group_done g then (None, g)
  else
    let i := best_index (value_offset g) (next_rows g) in
    match next_rows g !! i, iters g !! i with
    | Some best, Some it =>
        let '(r, it') := rev_scan_next it in
        let rows' := <[i := r]> (next_rows g) in
        (best, mkGroup (<[i := it']> (iters g)) rows' (value_offset g)
                 (group_done g || all_none rows'))
    | _, _ => (None, g)
    end.

Definition group_pending (g : ReverseScanGroupIterator) : nat :=
  sum_list (map (fun it => length (rsi_iter it)) (iters g)) + length (next_rows g).
Definition group_rows (g : ReverseScanGroupIterator) : list DBRow :=
  drain group_next (S (group_pending g)) g.

(** ** The database handle *)

Definition DB_VERSION : Z := 2.
(** [bincode_util::serialize_little(&DB_VERSION)], plus the light-mode byte. *)
Definition compatibility_bytes (light_mode : bool) : Bytes :=
  [DB_VERSION; 0; 0; 0]%Z ++ (if light_mode then [1%Z] else []).
Definition key_V : Bytes := [86%Z].

Section db_ops.
Context {D : Type} `{!RocksDB D}.

Definition iter_scan (db : D) (prefix : Bytes) : ScanIterator :=
  mkScan prefix (rdb_iter_from db prefix) false.
Definition iter_scan_from (db : D) (prefix start_at : Bytes) : ScanIterator :=
  mkScan prefix (rdb_iter_from db start_at) false.
Definition iter_scan_reverse (db : D) (prefix prefix_max : Bytes) : ReverseScanIterator :=
  mkRevScan prefix (rdb_seek_for_prev db prefix_max) false.
Definition iter_scan_group_reverse (db : D) (prefixes : list (Bytes * Bytes))
    (value_offset : nat) : ReverseScanGroupIterator :=
  group_new (map (fun '(p, pm) => iter_scan_reverse db p pm) prefixes) value_offset.

(** [rows.sort_unstable_by(|a, b| a.key.cmp(&b.key))] leaves the order of rows
    with equal keys open; a merge sort is one of its outcomes. *)
Definition row_le (a b : DBRow) : Prop := bytes_le (dbr_key a) (dbr_key b).
#[export] Instance row_le_dec : RelDecision row_le.
Proof. intros a b. unfold row_le. apply _. Defined.
Definition put_rows (db : D) (rows : list DBRow) : D :=
  fold_left (fun d r => rdb_put d (dbr_key r) (dbr_value r)) rows db.
Definition db_write (db : D) (rows : list DBRow) : D := put_rows db (merge_sort row_le rows).
Definition db_delete (db : D) (keys : list Bytes) : D := fold_left rdb_delete keys db.
Definition db_put (db : D) (k v : Bytes) : D := rdb_put db k v.
Definition db_put_sync (db : D) (k v : Bytes) : D := rdb_put db k v.
Definition db_get (db : D) (k : Bytes) : option Bytes := rdb_get db k.

Definition verify_compatibility (db : D) (light_mode : bool) : result D :=
  match db_get db key_V with
  | None => Ok (db_put db key_V (compatibility_bytes light_mode))
  | Some x => if decide (x = compatibility_bytes light_mode) then Ok db else Panic
  end.
End db_ops.

(** ** What a scan returns *)

Lemma scan_rows_eq it :
  si_done it = false ->
  scan_rows it = map row_of (take_while (fun e => starts_with e.1 (si_prefix it)) (si_iter it)).
Proof.
  destruct it as [p l d]. cbn. intros ->. unfold scan_rows. cbn [si_iter].
  generalize (Nat.le_refl (length l)). generalize (length l) at 2 3. intros fuel. revert fuel.
  induction l as [|[k v] l IH]; intros [|fuel] Hf; cbn in *; try done; [lia|].
  unfold scan_next. cbn. destruct (starts_with k p); cbn; [|done].
  f_equal. apply IH. lia.
Qed.

Lemma rev_scan_rows_eq it :
  rsi_done it = false ->
  rev_scan_rows it =
    map row_of (take_while (fun e => starts_with e.1 (rsi_prefix it)) (rsi_iter it)).
Proof.
  destruct it as [p l d]. cbn. intros ->. unfold rev_scan_rows. cbn [rsi_iter].
  generalize (Nat.le_refl (length l)). generalize (length l) at 2 3. intros fuel. revert fuel.
  induction l as [|[k v] l IH]; intros [|fuel] Hf; cbn in *; try done; [lia|].
  unfold rev_scan_next. cbn. destruct (starts_with k p); cbn; [|done].
  f_equal. apply IH. lia.
Qed.

(** Order of the rows of a forward and of a backward scan. *)
Definition row_lt (a b : DBRow) : Prop := bytes_lt (dbr_key a) (dbr_key b).
Definition row_gt (a b : DBRow) : Prop := bytes_lt (dbr_key b) (dbr_key a).

Lemma sorted_map_row_of (R : relation (Bytes * Bytes)) (R' : relation DBRow) l :
  (forall x y, R x y -> R' (row_of x) (row_of y)) ->
  StronglySorted R l -> StronglySorted R' (map row_of l).
Proof.
  intros HR. induction 1 as [|x l Hs IH Hf]; cbn; [constructor|]. constructor; [done|].
  apply Forall_map. eapply Forall_impl; [exact Hf|]. auto.
Qed.

Section scans.
Context {D : Type} `{!RocksDB D} `{!RocksDBLaws D}.

(** A scan yields exactly the stored rows with its prefix at or after its
    start, in key order. *)
Lemma iter_scan_from_rows (db : D) prefix start :
  starts_with start prefix = true ->
  StronglySorted row_lt (scan_rows (iter_scan_from db prefix start)) /\
  forall r, r ∈ scan_rows (iter_scan_from db prefix start) <->
    rdb_get db (dbr_key r) = Some (dbr_value r) /\
    starts_with (dbr_key r) prefix = true /\ bytes_le start (dbr_key r).
Proof.
  intros Hst. rewrite scan_rows_eq by done. cbn.
  rewrite (take_while_filter _ key_lt); [|apply iter_from_sorted|].
  - split.
    + apply sorted_map_row_of with key_lt; [done|].
      apply StronglySorted_filter, iter_from_sorted.
    + intros [k v]. rewrite list_elem_of_fmap. cbn. split.
      * intros ([k' v'] & [= -> ->] & [Hp Hin]%list_elem_of_filter).
        apply iter_from_elem in Hin. naive_solver.
      * intros (Hg & Hp & Hle). exists (k, v). split; [done|].
        apply list_elem_of_filter. split; [done|]. by apply iter_from_elem.
  - intros [k v] [k' v'] [_ Hx]%iter_from_elem _ Hlt. cbn.
    rewrite <- !not_true_iff_false. intros Hn Hy. apply Hn.
    eapply starts_with_convex; [exact Hx|apply bytes_lt_le; exact Hlt|done|done].
Qed.

Lemma iter_scan_rows (db : D) prefix r :
  r ∈ scan_rows (iter_scan db prefix) <->
    rdb_get db (dbr_key r) = Some (dbr_value r) /\ starts_with (dbr_key r) prefix = true.
Proof.
  change (iter_scan db prefix) with (iter_scan_from db prefix prefix).
  rewrite (proj2 (iter_scan_from_rows db prefix prefix (starts_with_refl _)) r).
  naive_solver auto using starts_with_le.
Qed.

Lemma iter_scan_reverse_rows (db : D) prefix prefix_max :
  starts_with prefix_max prefix = true ->
  StronglySorted row_gt (rev_scan_rows (iter_scan_reverse db prefix prefix_max)) /\
  forall r, r ∈ rev_scan_rows (iter_scan_reverse db prefix prefix_max) <->
    rdb_get db (dbr_key r) = Some (dbr_value r) /\
    starts_with (dbr_key r) prefix = true /\ bytes_le (dbr_key r) prefix_max.
Proof.
  intros Hst. rewrite rev_scan_rows_eq by done. cbn.
  rewrite (take_while_filter _ key_gt); [|apply seek_for_prev_sorted|].
  - split.
    + apply sorted_map_row_of with key_gt; [done|].
      apply StronglySorted_filter, seek_for_prev_sorted.
    + intros [k v]. rewrite list_elem_of_fmap. cbn. split.
      * intros ([k' v'] & [= -> ->] & [Hp Hin]%list_elem_of_filter).
        apply seek_for_prev_elem in Hin. naive_solver.
      * intros (Hg & Hp & Hle). exists (k, v). split; [done|].
        apply list_elem_of_filter. split; [done|]. by apply seek_for_prev_elem.
  - intros [k v] [k' v'] [_ Hx]%seek_for_prev_elem _ Hlt. cbn.
    rewrite <- !not_true_iff_false. intros Hn Hy. apply Hn.
    eapply starts_with_convex; [apply bytes_lt_le; exact Hlt|exact Hx|done|done].
Qed.

(** ** Point reads after batched writes *)

Lemma get_put_rows_other (db : D) rows k :
  (forall r, r ∈ rows -> dbr_key r <> k) -> rdb_get (put_rows db rows) k = rdb_get db k.
Proof.
  revert db. induction rows as [|r rows IH]; intros db Hk; [done|].
  cbn. change (fold_left _ rows ?d) with (put_rows d rows).
  rewrite IH by set_solver. rewrite get_put, decide_False; [done|]. apply Hk. by left.
Qed.
Lemma get_put_rows_in (db : D) rows r :
  r ∈ rows -> (forall r', r' ∈ rows -> dbr_key r' = dbr_key r -> r' = r) ->
  rdb_get (put_rows db rows) (dbr_key r) = Some (dbr_value r).
Proof.
  revert db. induction rows as [|x rows IH]; intros db Hin Hf; [by apply elem_of_nil in Hin|].
  cbn. change (fold_left _ rows ?d) with (put_rows d rows).
  destruct (decide (r ∈ rows)) as [Hr|Hr]; [apply IH; set_solver|].
  assert (x = r) as -> by set_solver.
  rewrite get_put_rows_other.
  - by rewrite get_put, decide_True.
  - intros r' Hr' Hk. destruct Hr. by rewrite <- (Hf r') by set_solver.
Qed.

(** Rows are consistent when no key is given two values. *)
Definition rows_consistent (rows : list DBRow) : Prop :=
  forall r r', r ∈ rows -> r' ∈ rows -> dbr_key r = dbr_key r' -> r = r'.

Lemma get_db_write_in (db : D) rows r :
  rows_consistent rows -> r ∈ rows -> rdb_get (db_write db rows) (dbr_key r) = Some (dbr_value r).
Proof.
  intros Hc Hr. apply get_put_rows_in.
  - by rewrite (merge_sort_Permutation row_le).
  - intros r'. rewrite (merge_sort_Permutation row_le). auto.
Qed.
Lemma get_db_write_one (db : D) r : rdb_get (db_write db [r]) (dbr_key r) = Some (dbr_value r).
Proof.
  apply get_db_write_in; [|by left].
  by intros x y ->%list_elem_of_singleton ->%list_elem_of_singleton.
Qed.
Lemma get_db_write_other (db : D) rows k :
  (forall r, r ∈ rows -> dbr_key r <> k) -> rdb_get (db_write db rows) k = rdb_get db k.
Proof.
  intros H. apply get_put_rows_other. intros r. rewrite (merge_sort_Permutation row_le). auto.
Qed.
Lemma get_db_delete (db : D) keys k :
  rdb_get (db_delete db keys) k = if decide (k ∈ keys) then None else rdb_get db k.
Proof.
  revert db. induction keys as [|x keys IH]; intros db; [done|].
  cbn. change (fold_left _ keys ?d) with (db_delete d keys). rewrite IH, get_delete.
  repeat case_decide; set_solver.
Qed.
End scans.

(** ** The merge of reverse scans *)

(** What an iterator still has to yield. *)
Definition rev_remaining (it : ReverseScanIterator) : list DBRow :=
  if rsi_done it then []
  else map row_of (take_while (fun e => starts_with e.1 (rsi_prefix it)) (rsi_iter it)).

Lemma rev_scan_next_spec it :
  exists it', rev_scan_next it = (head (rev_remaining it), it') /\
    rev_remaining it' = tail (rev_remaining it).
Proof.
  destruct it as [p l []]; unfold rev_scan_next, rev_remaining; cbn; [by eexists|].
  destruct l as [|[k v] l]; cbn; [by eexists|].
  destruct (starts_with k p); cbn; by eexists.
Qed.
Lemma rev_remaining_length it : length (rev_remaining it) <= length (rsi_iter it).
Proof.
  unfold rev_remaining. destruct (rsi_done it); cbn; [lia|]. rewrite length_map.
  induction (rsi_iter it) as [|e l IH]; cbn; [lia|]. destruct (starts_with _ _); cbn; lia.
Qed.

(** The streams a group iterator merges: per source, the buffered row followed
    by what its iterator still yields. *)
Definition stream (r : option DBRow) (it : ReverseScanIterator) : list DBRow :=
  match r with None => [] | Some r => r :: rev_remaining it end.
Definition streams (g : ReverseScanGroupIterator) : list (list DBRow) :=
  zip_with stream (next_rows g) (iters g).

Record group_ok (g : ReverseScanGroupIterator) : Prop := {
  gok_length : length (next_rows g) = length (iters g);
  gok_done : group_done g = all_none (next_rows g);
}.

Lemma group_new_ok its off : group_ok (group_new its off).
Proof. split; cbn; [by rewrite !length_map|done]. Qed.
Lemma group_new_streams its off : streams (group_new its off) = map rev_remaining its.
Proof.
  unfold streams, group_new. cbn. induction its as [|it its IH]; cbn; [done|].
  destruct (rev_scan_next_spec it) as (it' & -> & Hr). cbn. rewrite IH. f_equal.
  destruct (rev_remaining it); cbn in *; congruence.
Qed.

Section merge.
Variable off : nat.
Definition suffix_ge (a b : DBRow) : Prop :=
  bytes_le (drop off (dbr_key b)) (drop off (dbr_key a)).

(** [dominates m y]: [m] is at least [y] for [group_cmp], rows above [None]. *)
Definition dominates (m y : nat * option DBRow) : Prop :=
  match y.2 with
  | None => True
  | Some ry => exists rm, m.2 = Some rm /\ suffix_ge rm ry
  end.
Lemma dominates_trans a b c : dominates a b -> dominates b c -> dominates a c.
Proof.
  unfold dominates. destruct c as [i [rc|]]; cbn; [|done].
  intros Hab (rb & Hb & Hbc). rewrite Hb in Hab. destruct Hab as (ra & Ha & Hab).
  exists ra. split; [done|]. unfold suffix_ge in *. by etransitivity.
Qed.
Lemma dominates_refl a : dominates a a.
Proof. unfold dominates. destruct a as [i [r|]]; cbn; [|done]. exists r. split; [done|]. unfold suffix_ge. reflexivity. Qed.
Lemma group_cmp_dominates m y :
  match group_cmp off m y with Gt => dominates m y | _ => dominates y m end.
Proof.
  destruct m as [i [rm|]], y as [j [ry|]]; unfold group_cmp, dominates; cbn.
  - destruct (bcmp _ _) eqn:E.
    + exists ry. split; [done|]. apply bytes_le_lteq. right. by apply bcmp_eq.
    + exists ry. split; [done|]. by apply bytes_lt_le.
    + exists rm. split; [done|]. apply bytes_lt_le. unfold bytes_lt.
      by rewrite bcmp_antisym, E.
  - done.
  - done.
  - by destruct (Nat.compare i j).
Qed.

Lemma max_by_dominates l m :
  max_by (group_cmp off) l = Some m -> m ∈ l /\ forall y, y ∈ l -> dominates m y.
Proof.
  destruct l as [|x l]; cbn; [done|]. intros [= <-]. revert x.
  induction l as [|y l IH]; intros x; cbn.
  - split; [set_solver|]. intros y. rewrite list_elem_of_singleton. intros ->. apply dominates_refl.
  - pose proof (group_cmp_dominates x y) as Hd.
    destruct (group_cmp off x y); cbn in *;
      match goal with |- context [fold_left _ l ?m] => destruct (IH m) as [Hin Hmax] end;
      (split; [set_solver|]; intros z; rewrite !elem_of_cons; intros [->|[->|Hz]]);
      try (apply Hmax; set_solver);
      (eapply dominates_trans; [apply Hmax; by left|done]).
Qed.

Lemma best_index_spec rows :
  all_none rows = false ->
  exists r, rows !! best_index off rows = Some (Some r) /\
    forall j r', rows !! j = Some (Some r') -> suffix_ge r r'.
Proof.
  intros Hn. unfold best_index.
  destruct (max_by (group_cmp off) (imap pair rows)) as [[i o]|] eqn:Hm.
  2: { destruct rows as [|x rows]; [done|]. cbn in Hm. done. }
  apply max_by_dominates in Hm as [Hin Hmax].
  assert (forall j o', rows !! j = Some o' -> (j, o') ∈ imap pair rows) as Hin'.
  { intros j o' Hj. apply list_elem_of_lookup. exists j. by rewrite list_lookup_imap, Hj. }
  apply list_elem_of_lookup in Hin as [j Hj].
  rewrite list_lookup_imap in Hj. destruct (rows !! j) as [o'|] eqn:Hjo; cbn in Hj; [|done].
  injection Hj as <- <-. rewrite Hjo.
  assert (exists j' r', rows !! j' = Some (Some r')) as (j' & r' & Hj').
  { unfold all_none in Hn. clear -Hn. induction rows as [|[r|] rows IH]; cbn in *; [done| |].
    - by exists 0, r.
    - destruct (IH Hn) as (j & r & Hj). by exists (S j), r. }
  pose proof (Hmax _ (Hin' _ _ Hj')) as (r & Hr & _). cbn in Hr. subst o'.
  exists r. split; [done|]. intros j2 r2 H2.
  destruct (Hmax _ (Hin' _ _ H2)) as (r3 & [= <-] & H3). done.
Qed.

Lemma group_next_step g :
  group_ok g -> value_offset g = off -> group_done g = false ->
  exists r g' i rest, group_next g = (Some r, g') /\ group_ok g' /\ value_offset g' = off /\
    streams g !! i = Some (r :: rest) /\ streams g' = <[i := rest]> (streams g) /\
    forall j r' rest', streams g !! j = Some (r' :: rest') -> suffix_ge r r'.
Proof.
  intros [Hlen Hd] Ho Hnd. rewrite Hnd in Hd. symmetry in Hd. rewrite <- Ho in *.
  destruct (best_index_spec (next_rows g)) as (r & Hr & Hmax); [done|].
  set (i := best_index off (next_rows g)) in *.
  assert (i < length (iters g)) as Hi by (rewrite <- Hlen; by eapply lookup_lt_Some).
  destruct (lookup_lt_is_Some_2 _ _ Hi) as [it Hit].
  destruct (rev_scan_next_spec it) as (it' & Hn & Hrem).
  unfold group_next. rewrite Hnd, Ho. fold i. rewrite Hr, Hit, Hn. cbn.
  eexists r, _, i, (rev_remaining it). split; [done|]. repeat split; cbn.
  - by rewrite !length_insert.
  - unfold streams. by rewrite lookup_zip_with, Hr; cbn; rewrite Hit.
  - unfold streams. cbn. rewrite <- insert_zip_with. f_equal.
    destruct (rev_remaining it); cbn in *; congruence.
  - intros j r' rest' Hj. unfold streams in Hj.
    rewrite lookup_zip_with in Hj. destruct (next_rows g !! j) as [[r2|]|] eqn:E; cbn in Hj;
      [| |done]; destruct (iters g !! j); cbn in Hj; simplify_eq; eauto.
Qed.

Lemma all_none_streams rows its :
  all_none rows = true -> concat (zip_with stream rows its) = [].
Proof.
  revert its. induction rows as [|[r|] rows IH]; intros [|it its]; cbn; try done. auto.
Qed.

Lemma concat_insert_Permutation {A} (L : list (list A)) i x rest :
  L !! i = Some (x :: rest) -> x :: concat (<[i := rest]> L) ≡ₚ concat L.
Proof.
  revert i. induction L as [|l L IH]; intros [|i]; cbn; intros H; try done.
  - by injection H as ->.
  - rewrite <- (IH i H). by rewrite Permutation_middle.
Qed.

Lemma drain_group fuel g :
  group_ok g -> value_offset g = off -> length (concat (streams g)) < fuel ->
  drain group_next fuel g ≡ₚ concat (streams g) /\
  (Forall (StronglySorted suffix_ge) (streams g) -> StronglySorted suffix_ge (drain group_next fuel g)).
Proof.
  revert g. induction fuel as [|fuel IH]; intros g Hok Ho Hf; [lia|]. cbn.
  destruct (group_done g) eqn:Hd.
  { unfold group_next. rewrite Hd. destruct Hok as [_ Hd']. rewrite Hd' in Hd.
    unfold streams. rewrite all_none_streams by done. split; [done|constructor]. }
  destruct (group_next_step g Hok Ho Hd) as (r & g' & i & rest & Hn & Hok' & Ho' & Hi & Hs & Hmax).
  rewrite Hn. pose proof (concat_insert_Permutation _ _ _ _ Hi) as Hp. rewrite <- Hs in Hp.
  destruct (IH g' Hok' Ho') as [IHp IHs].
  { rewrite <- Hp in Hf. cbn in Hf. lia. }
  split; [by rewrite IHp|]. intros Hsort.
  pose proof (proj1 (Forall_lookup _ _) Hsort) as Hl.
  constructor.
  - apply IHs. rewrite Hs. apply Forall_insert; [done|].
    by destruct (proj1 (StronglySorted_cons _ _ _) (Hl _ _ Hi)).
  - rewrite IHp. apply Forall_forall. intros y Hy.
    assert (y ∈ concat (streams g)) as Hy' by (rewrite <- Hp; by right).
    apply elem_of_concat in Hy' as (l & [j Hj]%list_elem_of_lookup & Hyl).
    destruct l as [|x l]; [by apply elem_of_nil in Hyl|].
    pose proof (Hmax _ _ _ Hj) as Hx. apply elem_of_cons in Hyl as [->|Hyl]; [done|].
    pose proof (Hl _ _ Hj) as [Hf' _]%StronglySorted_cons.
    rewrite Forall_forall in Hf'. specialize (Hf' _ Hyl).
    unfold suffix_ge in *. by etransitivity.
Qed.
End merge.

Lemma streams_pending g :
  length (concat (streams g)) <= group_pending g.
Proof.
  unfold streams, group_pending. generalize (next_rows g) as rows. induction (iters g) as [|it its IH];
    intros [|[r|] rows]; cbn; try lia.
  - specialize (IH rows). rewrite length_app. pose proof (rev_remaining_length it). lia.
  - specialize (IH rows). lia.
Qed.

(** The group iterator yields a sorted interleaving of its sources. *)
Lemma group_rows_merge its off :
  let g := group_new its off in
  group_rows g ≡ₚ concat (map rev_remaining its) /\
  (Forall (StronglySorted (suffix_ge off)) (map rev_remaining its) ->
   StronglySorted (suffix_ge off) (group_rows g)).
Proof.
  intros g. unfold group_rows. subst g. rewrite <- (group_new_streams its off).
  apply drain_group; [apply group_new_ok|done|].
  pose proof (streams_pending (group_new its off)). lia.
Qed.
