(* ===== verification/Bitcoin.v ===== *)
(** * Chain data and the bitcoin library interface

    The records are the structs of the [bitcoin] crate as far as the indexer
    reads them ([src/src/chain.rs] re-exports them; the build without the
    [liquid] feature is modelled).  Hashing, consensus encoding, weights, opcode
    classes and addresses are computed by that crate: they are the parameters
    [BitcoinLib], with the round-trip laws [BitcoinLaws].  The rest of the file
    is [src/src/util/transaction.rs], [util/script.rs] and [util/fees.rs]. *)

From S2P Require Import Prelude.

(** ** Data *)

Abbreviation Txid := FullHash.
Abbreviation BlockHash := FullHash.
Abbreviation Script := Bytes.

Record OutPoint := mkOutPoint { op_txid : Txid; op_vout : Z }.
Record TxIn := mkTxIn {
  previous_output : OutPoint; script_sig : Script; sequence : Z; witness : list Bytes }.
Record TxOut := mkTxOut { txo_value : Z; script_pubkey : Script }.
Record Transaction := mkTx {
  tx_version : Z; lock_time : Z; tx_input : list TxIn; tx_output : list TxOut }.
Record BlockHeader := mkHeader {
  bh_version : Z; prev_blockhash : BlockHash; merkle_root : FullHash;
  bh_time : Z; bits : Z; nonce : Z }.
Record Block := mkBlock { block_header : BlockHeader; txdata : list Transaction }.

#[export] Instance OutPoint_eq_dec : EqDecision OutPoint.
Proof. solve_decision. Defined.
#[export] Instance OutPoint_countable : Countable OutPoint :=
  inj_countable' (fun o => (op_txid o, op_vout o)) (fun p => mkOutPoint p.1 p.2)
    (fun o => match o with mkOutPoint _ _ => eq_refl end).
#[export] Instance TxIn_eq_dec : EqDecision TxIn.
Proof. solve_decision. Defined.
#[export] Instance TxIn_countable : Countable TxIn :=
  inj_countable' (fun i => (previous_output i, script_sig i, sequence i, witness i))
    (fun '(a, b, c, d) => mkTxIn a b c d)
    (fun i => match i with mkTxIn _ _ _ _ => eq_refl end).
#[export] Instance TxOut_eq_dec : EqDecision TxOut.
Proof. solve_decision. Defined.
#[export] Instance TxOut_countable : Countable TxOut :=
  inj_countable' (fun o => (txo_value o, script_pubkey o)) (fun p => mkTxOut p.1 p.2)
    (fun o => match o with mkTxOut _ _ => eq_refl end).
#[export] Instance Transaction_eq_dec : EqDecision Transaction.
Proof. solve_decision. Defined.
#[export] Instance Transaction_countable : Countable Transaction :=
  inj_countable' (fun t => (tx_version t, lock_time t, tx_input t, tx_output t))
    (fun '(a, b, c, d) => mkTx a b c d)
    (fun t => match t with mkTx _ _ _ _ => eq_refl end).
#[export] Instance BlockHeader_eq_dec : EqDecision BlockHeader.
Proof. solve_decision. Defined.
#[export] Instance BlockHeader_countable : Countable BlockHeader :=
  inj_countable'
    (fun h => (bh_version h, prev_blockhash h, merkle_root h, bh_time h, bits h, nonce h))
    (fun '(a, b, c, d, e, f) => mkHeader a b c d e f)
    (fun h => match h with mkHeader _ _ _ _ _ _ => eq_refl end).

#[export] Instance Block_eq_dec : EqDecision Block.
Proof. solve_decision. Defined.
#[export] Instance Block_countable : Countable Block :=
  inj_countable' (fun b => (block_header b, txdata b)) (fun p => mkBlock p.1 p.2)
    (fun b => match b with mkBlock _ _ => eq_refl end).

(** [chain.rs]: the networks of the build without the [liquid] feature. *)
Inductive Network := Bitcoin | Testnet | Testnet4 | Regtest | Signet.
#[export] Instance Network_eq_dec : EqDecision Network.
Proof. solve_decision. Defined.
Definition is_regtest (n : Network) : bool := match n with Regtest => true | _ => false end.

(** ** The bitcoin crate *)

(** Classes of opcodes, [Opcode::classify(ClassifyContext::Legacy)]. *)
Inductive OpClass := ReturnOp | IllegalOp | OtherOp.
#[export] Instance OpClass_eq_dec : EqDecision OpClass.
Proof. solve_decision. Defined.

Class BitcoinLib := {
  compute_txid : Transaction -> Txid;
  block_hash : BlockHeader -> BlockHash;
  sha256 : Bytes -> FullHash;
  serialize_tx : Transaction -> Bytes;
  deserialize_tx : Bytes -> option Transaction;
  serialize_txout : TxOut -> Bytes;
  deserialize_txout : Bytes -> option TxOut;
  serialize_header : BlockHeader -> Bytes;
  deserialize_header : Bytes -> option BlockHeader;
  serialize_block : Block -> Bytes;
  deserialize_block : Bytes -> option Block;
  serialize_u32 : Z -> Bytes;
  decode_u32 : Bytes -> option Z;
  serialize_varint : Z -> Bytes;
  outpoint_is_null : OutPoint -> bool;
  tx_is_coinbase : Transaction -> bool;
  tx_weight : Transaction -> Z;
  block_weight : Block -> Z;
  block_total_size : Block -> Z;
  classify_legacy : Z -> OpClass;
  address_from_script : Script -> Network -> option Bytes;
}.

(** Consensus encoding round trips; a [u32] takes four bytes and decoding one
    fails at the end of the input only. *)
Class BitcoinLaws `{!BitcoinLib} : Prop := {
  de_ser_tx t : deserialize_tx (serialize_tx t) = Some t;
  de_ser_txout o : deserialize_txout (serialize_txout o) = Some o;
  de_ser_header h : deserialize_header (serialize_header h) = Some h;
  de_ser_block b : deserialize_block (serialize_block b) = Some b;
  serialize_u32_length x : length (serialize_u32 x) = 4;
  decode_u32_ser x r : is_u32 x -> decode_u32 (serialize_u32 x ++ r) = Some x;
  decode_u32_eof b : decode_u32 b = None <-> length b < 4;
  decode_u32_app a r : 4 <= length a -> decode_u32 (a ++ r) = decode_u32 a;
}.

Section transaction.
Context `{!BitcoinLib}.

(** ** [util/transaction.rs], [util/script.rs] *)

Definition get_txid (tx : Transaction) : Txid := compute_txid tx.
Definition get_block_size (b : Block) : Z := block_total_size b.

Definition is_coinbase (txin : TxIn) : bool := outpoint_is_null (previous_output txin).
Definition has_prevout (txin : TxIn) : bool := negb (outpoint_is_null (previous_output txin)).

Definition is_provably_unspendable_ (s : Script) : bool :=
  match s with
  | b :: _ =>
      let class := classify_legacy b in
      bool_decide (class = ReturnOp) || bool_decide (class = IllegalOp)
  | [] => false
  end.
Definition is_spendable (txout : TxOut) : bool :=
  negb (is_provably_unspendable_ (script_pubkey txout)).

Definition to_address_str (s : Script) (network : Network) : option Bytes :=
  address_from_script s network.

Definition compute_script_hash (script : Script) : FullHash := sha256 script.

(** Inputs and outputs with their position. *)
Definition enumerate {A} (l : list A) : list (nat * A) := imap pair l.

(** [extract_tx_prevouts]: the previous outputs of the inputs that have one, by
    input index, or an error naming a missing outpoint. *)
Definition extract_tx_prevouts (tx : Transaction) (txos : gmap OutPoint TxOut)
    : result (gmap Z TxOut) :=
  pairs ← rmap (fun '(index, txi) =>
      match txos !! previous_output txi with
      | Some txo => Ok (as_u32 (Z.of_nat index), txo)
      | None => Err (Msg "missing outpoint")
      end)
    (filter (fun '(_, txi) => has_prevout txi = true) (enumerate (tx_input tx)));
  Ok (fold_left (fun m '(i, o) => <[i := o]> m) pairs (∅ : gmap Z TxOut)).
End transaction.

Lemma enumerate_elem {A} (l : list A) i x : (i, x) ∈ enumerate l <-> l !! i = Some x.
Proof.
  unfold enumerate. rewrite list_elem_of_lookup. split.
  - intros [j Hj]. rewrite list_lookup_imap in Hj.
    destruct (l !! j) eqn:E; cbn in Hj; simplify_eq. done.
  - intros H. exists i. by rewrite list_lookup_imap, H.
Qed.

(** ** An instance, for evaluation *)

(** A stand-in for the crate's functions on which concrete states can be
    evaluated.  It satisfies the laws; its hashes are distinct on the examples. *)
Lemma pack_len (p : Z) : length (p :: replicate 31 0%Z) = 32.
Proof. done. Qed.
Definition pack_hash (p : Z) : FullHash := dexist (p :: replicate 31 0%Z) (pack_len p).

Definition code_of {A} `{Countable A} (a : A) : Bytes := [Zpos (encode a)].
Definition of_code {A} `{Countable A} (b : Bytes) : option A :=
  match b with [Zpos p] => decode p | _ => None end.
Lemma of_code_code_of {A} `{Countable A} (a : A) : of_code (code_of a) = Some a.
Proof. cbn. apply decode_encode. Qed.

Definition header_bytes (h : BlockHeader) : Bytes :=
  bh_version h :: as_bytes (prev_blockhash h) ++ as_bytes (merkle_root h)
    ++ [bh_time h; bits h; nonce h].
Definition bytes_header (b : Bytes) : option BlockHeader :=
  match b with
  | v :: r =>
      p ← mk_hash (take 32 r);
      m ← mk_hash (take 32 (drop 32 r));
      match drop 64 r with
      | [t; bi; n] => Some (mkHeader v p m t bi n)
      | _ => None
      end
  | [] => None
  end.
Lemma bytes_header_bytes h : bytes_header (header_bytes h) = Some h.
Proof.
  destruct h as [v p m t b n]. unfold header_bytes, bytes_header. cbn -[take drop].
  assert (forall (h : FullHash) r, take 32 (as_bytes h ++ r) = as_bytes h) as Ht.
  { intros h r. apply take_app_length'. by rewrite as_bytes_length. }
  assert (forall (h : FullHash) r, drop 32 (as_bytes h ++ r) = r) as Hd.
  { intros h r. apply drop_app_length'. by rewrite as_bytes_length. }
  rewrite Ht, mk_hash_as_bytes. cbn -[take drop].
  rewrite Hd, Ht, mk_hash_as_bytes. cbn -[take drop].
  change 64 with (32 + 32). by rewrite <- drop_drop, !Hd.
Qed.

Definition ExampleLib : BitcoinLib := {|
  compute_txid t := pack_hash (lock_time t);
  block_hash h := pack_hash (nonce h);
  sha256 b := pack_hash (fold_left (fun a x => a * 257 + x + 1)%Z b 1%Z);
  serialize_tx := code_of;
  deserialize_tx := of_code;
  serialize_txout o := txo_value o :: script_pubkey o;
  deserialize_txout b := match b with v :: s => Some (mkTxOut v s) | [] => None end;
  serialize_header := header_bytes;
  deserialize_header := bytes_header;
  serialize_block b := replicate 4 0%Z ++ code_of b;
  deserialize_block b := of_code (drop 4 b);
  serialize_u32 := le_bytes 4;
  decode_u32 b := if decide (length b < 4) then None else Some (le_num (take 4 b));
  serialize_varint n := [n];
  outpoint_is_null o := bool_decide (o = mkOutPoint null_hash (u32_mod - 1)%Z);
  tx_is_coinbase t :=
    match tx_input t with
    | [i] => bool_decide (previous_output i = mkOutPoint null_hash (u32_mod - 1)%Z)
    | _ => false
    end;
  tx_weight t := (400 + 4 * Z.of_nat (length (tx_input t)))%Z;
  block_weight b := (1000 + Z.of_nat (length (txdata b)))%Z;
  block_total_size b := (250 + Z.of_nat (length (txdata b)))%Z;
  classify_legacy b := if decide (b = 106)%Z then ReturnOp else OtherOp;
  address_from_script s n := match s with 118%Z :: _ => Some s | _ => None end;
|}.

Lemma ExampleLib_laws : @BitcoinLaws ExampleLib.
Proof.
  split; intros; cbn.
  - apply of_code_code_of.
  - by destruct o.
  - apply bytes_header_bytes.
  - apply (of_code_code_of b).
  - done.
  - rewrite decide_False by (cbn; lia). f_equal.
    change (le_num (take 4 (le_bytes 4 x ++ r)) = x). rewrite take_app_length' by done.
    apply le_num_le_bytes. done.
  - case_decide; split; done || lia.
  - rewrite !decide_False by (rewrite ?length_app; lia). by rewrite take_app_le by lia.
Qed.
