(* ===== verification/Fees.v ===== *)
(** * [util/fees.rs]: fees, fee rates and the backlog histogram

    A fee rate is an [f32].  It is modelled by the Standard Library's executable
    specification of IEEE 754 arithmetic with 24 bits of precision, so rounding,
    infinities and NaN are those of the source.  The theorems show that the
    histogram never panics on the rates [TxFeeInfo::new] computes and that each bin
    says how much virtual size pays at least its rate. *)

From Stdlib Require Import SpecFloat.
From S2P Require Import Prelude Bitcoin.

Definition VSIZE_BIN_WIDTH : Z := 50000.

(** ** [f32] *)

Abbreviation f32 := spec_float.
Definition f32_zero : f32 := S754_zero false.
(** [x as f32], to nearest, ties to even. *)
Definition u64_as_f32 (x : Z) : f32 := binary_normalize 24 128 x 0 false.
Definition f32_div (a b : f32) : f32 := SFdiv 24 128 a b.
Definition partial_cmp (a b : f32) : option comparison := SFcompare a b.
(** [a != b] *)
Definition f32_ne (a b : f32) : bool := negb (SFeqb a b).

Record TxFeeInfo := mkFeeInfo { fi_fee : Z; fi_vsize : Z; fee_per_vbyte : f32 }.

Section fees.
Context `{!BitcoinLib}.

Definition get_tx_fee (tx : Transaction) (prevouts : gmap Z TxOut) : Z :=
  if tx_is_coinbase tx then 0%Z
  else
    let total_in := wrap64 (sum_Z (map (fun p => txo_value p.2) (map_to_list prevouts))) in
    let total_out := wrap64 (sum_Z (map txo_value (tx_output tx))) in
    wrap64 (total_in - total_out).

Definition TxFeeInfo_new (tx : Transaction) (prevouts : gmap Z TxOut) : TxFeeInfo :=
  let fee := get_tx_fee tx prevouts in
  let vsize := (tx_weight tx / 4)%Z in
  mkFeeInfo fee (as_u32 vsize) (f32_div (u64_as_f32 fee) (u64_as_f32 vsize)).
End fees.

(** ** The histogram *)

Definition rate_le (e1 e2 : TxFeeInfo) : Prop :=
  partial_cmp (fee_per_vbyte e1) (fee_per_vbyte e2) <> Some Gt.
#[export] Instance rate_le_dec : RelDecision rate_le.
Proof. intros a b. unfold rate_le. apply _. Defined.
Definition is_nan (x : f32) : bool := match x with S754_nan => true | _ => false end.

(** [sort_unstable_by(|a, b| a.partial_cmp(b).unwrap())]: sorting two or more
    entries compares every entry, and a comparison with a NaN panics. *)
Definition sort_entries (entries : list TxFeeInfo) : result (list TxFeeInfo) :=
  if decide (2 <= length entries) then
    if existsb (fun e => is_nan (fee_per_vbyte e)) entries then Panic
    else Ok (merge_sort rate_le entries)
  else Ok entries.

Fixpoint histogram_loop (bin_size : Z) (last_fee_rate : f32) (entries : list TxFeeInfo)
    : list (f32 * Z) :=
  match entries with
  | [] => if decide (0 < bin_size)%Z then [(last_fee_rate, bin_size)] else []
  | e :: entries =>
      if bool_decide (VSIZE_BIN_WIDTH < bin_size)%Z && f32_ne last_fee_rate (fee_per_vbyte e)
      then (last_fee_rate, bin_size) :: histogram_loop (as_u32 (fi_vsize e)) (fee_per_vbyte e) entries
      else histogram_loop (as_u32 (bin_size + fi_vsize e)) (fee_per_vbyte e) entries
  end.
Definition make_fee_histogram (entries : list TxFeeInfo) : result (list (f32 * Z)) :=
  sorted ← sort_entries entries; Ok (histogram_loop 0 f32_zero (reverse sorted)).

(** ** [BacklogStats] of [new_index/mempool.rs] *)

Record BacklogStats := mkBacklog {
  bl_count : Z; bl_vsize : Z; bl_total_fee : Z; fee_histogram : list (f32 * Z) }.
Definition backlog_default : BacklogStats := mkBacklog 0 0 0 [(f32_zero, 0%Z)].
Definition backlog_new (feeinfo : gmap Txid TxFeeInfo) : result BacklogStats :=
  let values := map snd (map_to_list feeinfo) in
  let '(count, vsize, total_fee) :=
    fold_left (fun '(count, vsize, fee) f =>
        (as_u32 (count + 1), as_u32 (vsize + fi_vsize f), wrap64 (fee + fi_fee f))%Z)
      values (0, 0, 0)%Z in
  histogram ← make_fee_histogram values;
  Ok (mkBacklog count vsize total_fee histogram).

(** ** Rates are ordered *)

(** The rates that occur: not negative and not NaN. *)
Definition rate_ok (r : f32) : Prop :=
  match r with
  | S754_zero false | S754_infinity false | S754_finite false _ _ => True | _ => False
  end.
#[export] Instance rate_ok_dec r : Decision (rate_ok r).
Proof. destruct r as [[]|[]| |[] m e]; cbn; apply _. Defined.

(** [a >= b] on such rates. *)
Definition f32_ge (a b : f32) : Prop := partial_cmp b a <> Some Gt.
#[export] Instance f32_ge_dec : RelDecision f32_ge.
Proof. intros a b. unfold f32_ge. apply _. Defined.

(** Compare two rates by cases on their exponents and mantissas. *)
Ltac cmp_cases :=
  repeat match goal with
  | H : context [match (?a ?= ?b)%Z with _ => _ end] |- _ => destruct (Z.compare_spec a b); subst
  | |- context [match (?a ?= ?b)%Z with _ => _ end] => destruct (Z.compare_spec a b); subst
  | H : context [Pos.compare_cont Eq ?a ?b] |- _ =>
      change (Pos.compare_cont Eq a b) with (Pos.compare a b) in H; destruct (Pos.compare_spec a b); subst
  | |- context [Pos.compare_cont Eq ?a ?b] =>
      change (Pos.compare_cont Eq a b) with (Pos.compare a b); destruct (Pos.compare_spec a b); subst
  end.

Lemma f32_ge_refl r : rate_ok r -> f32_ge r r.
Proof.
  unfold f32_ge, partial_cmp. destruct r as [[]|[]| |[] m e]; cbn; try done. intros _.
  cmp_cases; try done; lia.
Qed.
Lemma f32_ge_trans a b c : rate_ok a -> rate_ok b -> rate_ok c -> f32_ge a b -> f32_ge b c -> f32_ge a c.
Proof.
  unfold f32_ge, partial_cmp.
  destruct a as [[]|[]| |[] m e], b as [[]|[]| |[] m' e'], c as [[]|[]| |[] m'' e'']; cbn; try done.
  intros _ _ _ H1 H2. cmp_cases; try done; try lia.
Qed.
Lemma f32_ne_gt a b : rate_ok a -> rate_ok b -> f32_ge a b -> f32_ne a b = true -> ~ f32_ge b a.
Proof.
  unfold f32_ge, f32_ne, SFeqb, partial_cmp.
  destruct a as [[]|[]| |[] m e], b as [[]|[]| |[] m' e']; cbn; try done; try tauto.
  intros _ _ H1 H2 H3. cmp_cases; try done; try lia.
Qed.
Lemma f32_eq_ge a b : rate_ok a -> rate_ok b -> f32_ne a b = false -> a = b.
Proof.
  unfold f32_ne, SFeqb.
  destruct a as [[]|[]| |[] m e], b as [[]|[]| |[] m' e']; cbn; try done.
  intros _ _ H. cmp_cases; try done.
Qed.
#[export] Instance rate_le_total : Total rate_le.
Proof.
  intros [f v a] [f' v' b]. unfold rate_le, partial_cmp. cbn.
  destruct a as [[]|[]| |[] m e], b as [[]|[]| |[] m' e']; cbn; try (by left); try (by right);
    cmp_cases; first [by left|by right|exfalso; lia].
Qed.

(** ** [TxFeeInfo::new] computes comparable rates *)

Lemma iter_pos_iter {A} (f : A -> A) p x : SpecFloat.iter_pos f p x = Nat.iter (Pos.to_nat p) f x.
Proof.
  revert x. induction p as [p IH|p IH|]; intros x; cbn [SpecFloat.iter_pos].
  - rewrite !IH, Pos2Nat.inj_xI, <- Nat.iter_add, <- Nat.iter_succ_r. f_equal. lia.
  - rewrite !IH, Pos2Nat.inj_xO, <- Nat.iter_add. f_equal. lia.
  - done.
Qed.
Lemma shr_1_m r : (0 <= shr_m r)%Z -> shr_m (shr_1 r) = (shr_m r / 2)%Z.
Proof.
  destruct r as [m rr s]. cbn. destruct m as [|[p|p|]|p]; cbn; try lia; intros _; try done.
  - apply (Z.div_unique_pos _ 2 _ 1); lia.
  - apply (Z.div_unique_pos _ 2 _ 0); lia.
Qed.
Lemma shr_m_iter n r : (0 <= shr_m r)%Z -> shr_m (Nat.iter n shr_1 r) = (shr_m r / 2 ^ Z.of_nat n)%Z.
Proof.
  intros Hr. induction n as [|n IH]; cbn [Nat.iter nat_rect]; [by rewrite Z.div_1_r|].
  change (shr_m (shr_1 (Nat.iter n shr_1 r)) = (shr_m r / 2 ^ Z.of_nat (S n))%Z).
  rewrite shr_1_m, IH.
  - rewrite Nat2Z.inj_succ, Z.pow_succ_r, Z.div_div by lia. f_equal. lia.
  - rewrite IH. apply Z.div_pos; lia.
Qed.
Lemma shr_record_of_loc_m m l : shr_m (shr_record_of_loc m l) = m.
Proof. by destruct l as [|[]]. Qed.
Lemma shr_fexp_m prec emax m e l :
  (0 <= m)%Z -> shr_m (shr_fexp prec emax m e l).1 =
    (m / 2 ^ Z.max 0 (fexp prec emax (Zdigits2 m + e) - e))%Z.
Proof.
  intros Hm. unfold shr_fexp, shr. set (n := (fexp prec emax _ - e)%Z).
  destruct n as [|p|p] eqn:E; cbn [fst].
  - by rewrite shr_record_of_loc_m, Z.div_1_r.
  - rewrite iter_pos_iter, shr_m_iter; rewrite shr_record_of_loc_m; [|done].
    by rewrite positive_nat_Z.
  - by rewrite shr_record_of_loc_m, Z.div_1_r.
Qed.
Lemma round_nearest_even_ge m l : (m <= round_nearest_even m l)%Z.
Proof. destruct l as [|[]]; cbn; try lia. destruct (Z.even m); lia. Qed.

(** Rounding a non-negative number gives a number of the given sign. *)
Lemma binary_round_aux_ok prec emax m e l :
  (0 <= m)%Z -> rate_ok (binary_round_aux prec emax false m e l).
Proof.
  intros Hm. unfold binary_round_aux.
  destruct (shr_fexp prec emax m e l) as [r1 e1] eqn:E1.
  pose proof (shr_fexp_m prec emax m e l Hm) as H1. rewrite E1 in H1. cbn [fst] in H1.
  destruct (shr_fexp prec emax (round_nearest_even (shr_m r1) (loc_of_shr_record r1)) e1 loc_Exact)
    as [r2 e2] eqn:E2.
  pose proof (round_nearest_even_ge (shr_m r1) (loc_of_shr_record r1)) as Hge.
  assert (0 <= shr_m r1)%Z by (rewrite H1; apply Z.div_pos; [done|apply Z.pow_pos_nonneg; lia]).
  pose proof (shr_fexp_m prec emax (round_nearest_even (shr_m r1) (loc_of_shr_record r1)) e1 loc_Exact
    ltac:(lia)) as H2. rewrite E2 in H2. cbn [fst] in H2.
  assert (0 <= shr_m r2)%Z by (rewrite H2; apply Z.div_pos; [lia|apply Z.pow_pos_nonneg; lia]).
  destruct (shr_m r2); [done| |lia]. by destruct (Z.leb _ _).
Qed.

Lemma digits2_pos_bounds p : (2 ^ (Z.pos (digits2_pos p) - 1) <= Z.pos p < 2 ^ Z.pos (digits2_pos p))%Z.
Proof.
  induction p as [p IH|p IH|]; cbn [digits2_pos]; [| |done];
    rewrite Pos2Z.inj_succ; replace (Z.succ (Z.pos (digits2_pos p)) - 1)%Z
      with (Z.succ (Z.pos (digits2_pos p) - 1)) by lia; rewrite !Z.pow_succ_r by lia; lia.
Qed.

(** A positive number with at least [prec] digits is not rounded to zero. *)
Lemma shr_fexp_pos m e :
  (0 < m)%Z -> (-200 < e)%Z -> (24 <= Zdigits2 m)%Z -> (-149 <= Zdigits2 m + e - 24)%Z ->
  (2 ^ 23 <= m / 2 ^ Z.max 0 (fexp 24 128 (Zdigits2 m + e) - e))%Z.
Proof.
  intros Hm He Hd Hb. destruct m as [|p|p]; try lia. cbn [Zdigits2] in *.
  pose proof (digits2_pos_bounds p) as [Hlo _].
  unfold fexp, emin. set (d := Z.pos (digits2_pos p)) in *.
  replace (Z.max 0 _) with (d - 24)%Z by lia.
  apply Z.div_le_lower_bound; [apply Z.pow_pos_nonneg; lia|].
  rewrite <- Z.pow_add_r by lia. replace (d - 24 + 23)%Z with (d - 1)%Z by lia. done.
Qed.

Lemma shr_fexp_e prec emax m e l :
  (shr_fexp prec emax m e l).2 = (e + Z.max 0 (fexp prec emax (Zdigits2 m + e) - e))%Z.
Proof. unfold shr_fexp, shr. destruct (fexp prec emax _ - e)%Z; cbn; lia. Qed.
Lemma Zdigits2_ge k m : (0 <= k)%Z -> (2 ^ k <= m)%Z -> (k < Zdigits2 m)%Z.
Proof.
  intros Hk Hm. assert (0 < 2 ^ k)%Z by (apply Z.pow_pos_nonneg; lia).
  destruct m as [|p|p]; try lia. cbn. pose proof (digits2_pos_bounds p) as [_ Hhi].
  apply (Z.pow_lt_mono_r_iff 2); lia.
Qed.
Lemma Zdigits2_le k m : (0 <= m < 2 ^ k)%Z -> (0 <= k)%Z -> (Zdigits2 m <= k)%Z.
Proof.
  intros Hm Hk. destruct m as [|p|p]; cbn; try lia. pose proof (digits2_pos_bounds p) as [Hlo _].
  assert (Z.pos (digits2_pos p) - 1 < k)%Z; [|lia]. apply (Z.pow_lt_mono_r_iff 2); lia.
Qed.
Lemma round_nearest_even_le m l : (round_nearest_even m l <= m + 1)%Z.
Proof. destruct l as [|[]]; cbn; try lia. destruct (Z.even m); lia. Qed.

(** Numbers of 24 to 64 digits round to finite numbers other than zero. *)
Lemma binary_round_aux_finite m e :
  (0 < m)%Z -> (24 <= Zdigits2 m <= 64)%Z -> (-100 < e <= 0)%Z ->
  exists m' e', binary_round_aux 24 128 false m e loc_Exact = S754_finite false m' e'.
Proof.
  intros Hm Hd He. unfold binary_round_aux.
  pose proof (shr_fexp_m 24 128 m e loc_Exact ltac:(lia)) as H1.
  pose proof (shr_fexp_e 24 128 m e loc_Exact) as H1e.
  pose proof (shr_fexp_pos m e ltac:(lia) ltac:(lia) ltac:(lia) ltac:(lia)) as Hp.
  destruct (shr_fexp 24 128 m e loc_Exact) as [r1 e1]. cbn [fst snd] in *. rewrite <- H1 in Hp.
  assert (shr_m r1 < 2 ^ 24)%Z as Hr1.
  { rewrite H1. destruct m as [|p|p]; try lia. cbn [Zdigits2] in *.
    pose proof (digits2_pos_bounds p) as [_ Hhi]. unfold fexp, emin.
    set (d := Z.pos (digits2_pos p)) in *. replace (Z.max 0 _) with (d - 24)%Z by lia.
    apply Z.div_lt_upper_bound; [apply Z.pow_pos_nonneg; lia|].
    rewrite <- Z.pow_add_r by lia. by replace (d - 24 + 24)%Z with d by lia. }
  set (r := round_nearest_even (shr_m r1) (loc_of_shr_record r1)).
  pose proof (round_nearest_even_ge (shr_m r1) (loc_of_shr_record r1)) as Hge.
  pose proof (round_nearest_even_le (shr_m r1) (loc_of_shr_record r1)) as Hle. fold r in Hge, Hle.
  pose proof (Zdigits2_ge 23 r ltac:(lia) ltac:(lia)) as Hdr.
  pose proof (Zdigits2_le 25 r ltac:(lia) ltac:(lia)) as Hdr'.
  unfold fexp, emin in H1e.
  pose proof (shr_fexp_m 24 128 r e1 loc_Exact ltac:(lia)) as H2.
  pose proof (shr_fexp_e 24 128 r e1 loc_Exact) as H2e. 
  pose proof (shr_fexp_pos r e1 ltac:(lia) ltac:(lia) ltac:(lia) ltac:(lia)) as Hp2.
  unfold fexp, emin in H2e. destruct (shr_fexp 24 128 r e1 loc_Exact) as [r2 e2]. cbn [fst snd] in *.
  rewrite <- H2 in Hp2. destruct (shr_m r2) as [|p|p]; try lia.
  rewrite (proj2 (Z.leb_le _ _)) by lia. by eexists _, _.
Qed.

Lemma pos_iter_xO p d : Z.pos (Pos.iter xO p d) = (Z.pos p * 2 ^ Z.pos d)%Z.
Proof.
  induction d as [|d IH] using Pos.peano_ind; [cbn; lia|].
  rewrite Pos.iter_succ, Pos2Z.inj_succ, Z.pow_succ_r by lia. lia.
Qed.
Lemma u64_as_f32_pos x : (0 < x < u64_mod)%Z -> exists m e, u64_as_f32 x = S754_finite false m e.
Proof.
  intros Hx. destruct x as [|p|p]; try lia. unfold u64_as_f32. cbn [binary_normalize].
  unfold binary_round. pose proof (digits2_pos_bounds p) as Hb.
  pose proof (Zdigits2_le 64 (Z.pos p) ltac:(split; [lia|apply Hx]) ltac:(lia)) as Hd. cbn [Zdigits2] in Hd.
  set (d := Z.pos (digits2_pos p)) in *. assert (1 <= d)%Z by lia.
  assert (fexp 24 128 (d + 0) = d - 24)%Z as -> by (unfold fexp, emin; lia).
  unfold shl_align. replace (d - 24 - 0)%Z with (d - 24)%Z by lia.
  destruct (d - 24)%Z as [|k|k] eqn:E.
  1-2: apply binary_round_aux_finite; cbn [Zdigits2]; fold d; lia.
  pose proof (pos_iter_xO p k) as Hk. set (p' := Pos.iter xO p k) in *.
  assert (0 < 2 ^ Z.pos k)%Z by (apply Z.pow_pos_nonneg; lia).
  assert (2 ^ 23 = 2 ^ (d - 1) * 2 ^ Z.pos k)%Z as H23 by (rewrite <- Z.pow_add_r by lia; f_equal; lia).
  assert (2 ^ 24 = 2 ^ d * 2 ^ Z.pos k)%Z as H24 by (rewrite <- Z.pow_add_r by lia; f_equal; lia).
  apply binary_round_aux_finite; [lia| |lia]. split.
  - apply Z.lt_pred_le. apply (Zdigits2_ge 23); [lia|]. rewrite H23, Hk. nia.
  - etransitivity; [apply (Zdigits2_le 24); [rewrite H24, Hk; nia|lia]|lia].
Qed.

Lemma rate_computed_ok fee vsize :
  is_u64 fee -> (0 < vsize < u64_mod)%Z -> rate_ok (f32_div (u64_as_f32 fee) (u64_as_f32 vsize)).
Proof.
  intros Hf Hv. destruct (u64_as_f32_pos vsize Hv) as (m & e & ->).
  destruct (decide (fee = 0)%Z) as [->|Hz]; [done|].
  destruct (u64_as_f32_pos fee) as (m' & e' & ->); [unfold is_u64 in Hf; lia|].
  unfold f32_div, SFdiv. destruct (SFdiv_core_binary _ _ _ _ _ _) as [[q ez] lz] eqn:E.
  apply binary_round_aux_ok. unfold SFdiv_core_binary in E.
  match type of E with context [Z.div_eucl ?a ?b] =>
    assert (0 <= a)%Z as Ha; [|pose proof (Z.div_pos a b Ha) as Hq; unfold Z.div in Hq;
      destruct (Z.div_eucl a b); injection E as <- _ _; lia] end.
  destruct (_ - Z.min _ _)%Z; [lia| |lia]. apply Z.shiftl_nonneg. lia.
Qed.

Section new_feeinfo.
Context `{!BitcoinLib}.

Lemma get_tx_fee_u64 tx prevouts : is_u64 (get_tx_fee tx prevouts).
Proof.
  unfold get_tx_fee. destruct (tx_is_coinbase tx); [done|].
  unfold wrap64 at 1. apply Z.mod_pos_bound. done.
Qed.
Lemma new_rate_ok tx prevouts :
  (4 <= tx_weight tx < u64_mod)%Z -> rate_ok (fee_per_vbyte (TxFeeInfo_new tx prevouts)).
Proof.
  intros Hw. apply rate_computed_ok; [apply get_tx_fee_u64|]. split.
  - apply Z.div_str_pos. lia.
  - apply Z.div_lt_upper_bound; lia.
Qed.
End new_feeinfo.

(** ** What a bin counts *)

Definition vsize_sum (l : list TxFeeInfo) : Z := sum_Z (map fi_vsize l).
(** The virtual size that pays [rate] or more. *)
Definition vsize_paying (rate : f32) (l : list TxFeeInfo) : Z :=
  vsize_sum (filter (fun e => f32_ge (fee_per_vbyte e) rate) l).
Definition info_ok (e : TxFeeInfo) : Prop := rate_ok (fee_per_vbyte e) /\ (0 <= fi_vsize e)%Z.

#[export] Instance vsize_sum_perm : Proper ((≡ₚ) ==> (=)) vsize_sum.
Proof. intros l l' H. unfold vsize_sum. apply sum_Z_perm. by apply Permutation_map. Qed.
#[export] Instance vsize_paying_perm rate : Proper ((≡ₚ) ==> (=)) (vsize_paying rate).
Proof. intros l l' H. unfold vsize_paying. by rewrite H. Qed.
Lemma vsize_sum_cons e l : vsize_sum (e :: l) = (fi_vsize e + vsize_sum l)%Z.
Proof. done. Qed.
Lemma vsize_sum_nonneg l : Forall info_ok l -> (0 <= vsize_sum l)%Z.
Proof. induction 1 as [|e l [_ He] ? IH]; [done|]. rewrite vsize_sum_cons. lia. Qed.
Lemma vsize_paying_in rate e l :
  f32_ge (fee_per_vbyte e) rate -> vsize_paying rate (e :: l) = (fi_vsize e + vsize_paying rate l)%Z.
Proof. intros H. unfold vsize_paying. by rewrite filter_cons_True. Qed.
Lemma vsize_paying_none rate l :
  (forall e, e ∈ l -> ~ f32_ge (fee_per_vbyte e) rate) -> vsize_paying rate l = 0%Z.
Proof. intros H. unfold vsize_paying. by rewrite filter_none. Qed.

(** Sorting gives a descending list in the order of rates. *)
Definition desc (l : list TxFeeInfo) : Prop :=
  StronglySorted (fun e e' => f32_ge (fee_per_vbyte e) (fee_per_vbyte e')) l.
Lemma Sorted_StronglySorted_on {A} (P : A -> Prop) (R : relation A) l :
  (forall x y z, P x -> P y -> P z -> R x y -> R y z -> R x z) ->
  Forall P l -> Sorted R l -> StronglySorted R l.
Proof.
  intros Ht. induction 2 as [|x l Hs IH Hh]; [constructor|].
  rewrite Forall_cons in H. destruct H as [Hx Hl]. specialize (IH Hl). constructor; [done|].
  destruct Hh as [|y l Hxy]; [constructor|]. inversion IH; subst. rewrite Forall_cons in Hl.
  destruct Hl as [Hy Hl]. constructor; [done|]. rewrite Forall_forall in *. intros z Hz.
  apply (Ht x y z); auto.
Qed.
Lemma StronglySorted_reverse {A} (R : relation A) l :
  StronglySorted R l -> StronglySorted (fun x y => R y x) (reverse l).
Proof.
  induction 1 as [|x l Hs IH Hf]; [constructor|]. rewrite reverse_cons.
  apply StronglySorted_app_2; [|done|repeat constructor].
  intros y z Hy ->%list_elem_of_singleton. rewrite Forall_forall in Hf. rewrite elem_of_reverse in Hy. exact (Hf _ Hy).
Qed.
Lemma sort_entries_desc entries :
  Forall info_ok entries ->
  exists sorted, sort_entries entries = Ok sorted /\ sorted ≡ₚ entries /\ desc (reverse sorted).
Proof.
  intros Hok. unfold sort_entries. case_decide as Hl.
  - destruct (existsb _ entries) eqn:E.
    { apply existsb_exists in E as (e & He & Hn). rewrite Forall_forall in Hok.
      apply list_elem_of_In, Hok in He as [He _]. by destruct (fee_per_vbyte e). }
    eexists. split; [done|]. split; [apply merge_sort_Permutation|].
    apply (StronglySorted_reverse rate_le), (Sorted_StronglySorted_on info_ok);
      [|by rewrite merge_sort_Permutation|apply Sorted_merge_sort, _].
    intros x y z [Hx _] [Hy _] [Hz _]. unfold rate_le. intros H1 H2.
    exact (f32_ge_trans _ _ _ Hz Hy Hx H2 H1).
  - eexists. split; [done|]. split; [done|]. destruct entries as [|e [|e' l]]; cbn in Hl; try lia;
      repeat constructor.
Qed.

(** The bins of the loop: what they sum to, what each counts, that they descend
    and are wide enough. *)
Record bins_ok (b : Z) (last : f32) (l : list TxFeeInfo) (h : list (f32 * Z)) : Prop := {
  bins_total : sum_Z (map snd h) = (b + vsize_sum l)%Z;
  bins_below : Forall (fun p => rate_ok p.1 /\ f32_ge last p.1) h;
  bins_count : forall i p, h !! i = Some p ->
    sum_Z (map snd (take (S i) h)) = (b + vsize_paying p.1 l)%Z;
  bins_desc : StronglySorted (fun p p' => f32_ge p.1 p'.1 /\ ~ f32_ge p'.1 p.1) h;
  bins_wide : forall i p, h !! i = Some p -> S i < length h -> (VSIZE_BIN_WIDTH < p.2)%Z;
}.

Lemma histogram_loop_bins l : forall b last,
  Forall info_ok l -> rate_ok last -> (0 <= b)%Z -> (b + vsize_sum l < u32_mod)%Z ->
  Forall (fun e => f32_ge last (fee_per_vbyte e)) l -> desc l ->
  bins_ok b last l (histogram_loop b last l).
Proof.
  induction l as [|e l IH]; intros b last Hok Hlast Hb Hsum Hle Hd; cbn [histogram_loop].
  - unfold vsize_sum in Hsum. cbn in Hsum. case_decide as Hpos; split; cbn.
    + lia.
    + repeat constructor; [done|]. by apply f32_ge_refl.
    + intros [|i] p; cbn; [|done]. intros [= <-]. unfold vsize_paying. cbn. lia.
    + repeat constructor.
    + intros [|i] p; cbn; [lia|done].
    + unfold vsize_sum; cbn; lia.
    + constructor.
    + done.
    + constructor.
    + done.
  - apply Forall_cons in Hok as [[Her Hev] Hok]. apply Forall_cons in Hle as [Hge Hle].
    apply StronglySorted_inv in Hd as [Hd Hfirst]. rewrite vsize_sum_cons in Hsum.
    pose proof (vsize_sum_nonneg l Hok) as Hnn.
    destruct (bool_decide (VSIZE_BIN_WIDTH < b)%Z && f32_ne last (fee_per_vbyte e)) eqn:E.
    + apply andb_true_iff in E as [Hw%bool_decide_eq_true Hne].
      rewrite as_u32_id by (unfold is_u32; lia).
      pose proof (IH (fi_vsize e) (fee_per_vbyte e) Hok Her Hev ltac:(lia) Hfirst Hd) as [I1 I2 I3 I4 I5].
      pose proof (f32_ne_gt _ _ Hlast Her Hge Hne) as Hgt.
      assert (forall r, rate_ok r -> f32_ge (fee_per_vbyte e) r -> f32_ge last r /\ ~ f32_ge r last) as Hbelow.
      { intros r Hr Her'. split; [by apply (f32_ge_trans _ (fee_per_vbyte e))|].
        intros Hrl. apply Hgt. by apply (f32_ge_trans _ r). }
      rewrite Forall_forall in I2. split.
      * cbn [map snd]. rewrite sum_Z_cons, I1, vsize_sum_cons. lia.
      * constructor; cbn; [split; [done|by apply f32_ge_refl]|].
        rewrite Forall_forall. intros p Hp. destruct (I2 p Hp). split; [done|]. by apply Hbelow.
      * intros [|i] p Hi.
        -- injection Hi as <-. cbn [fst take map snd]. rewrite firstn_O. cbn [map]. rewrite vsize_paying_none; [rewrite sum_Z_cons; change (sum_Z []) with 0%Z; lia|].
           rewrite Forall_forall in Hfirst. rewrite Forall_forall in Hok.
           intros e' [->|He']%elem_of_cons; [done|].
           apply Hbelow; [by apply Hok|by apply Hfirst].
        -- cbn [lookup list_lookup] in Hi. pose proof (list_elem_of_lookup_2 _ _ _ Hi) as Hp.
           destruct (I2 _ Hp). cbn [take map snd]. rewrite sum_Z_cons, vsize_paying_in by done.
           rewrite (I3 i p Hi). lia.
      * constructor; [done|]. rewrite Forall_forall. intros p Hp. destruct (I2 p Hp). by apply Hbelow.
      * intros [|i] p Hi; cbn [length]; [by injection Hi as <-|]. intros Hl. apply (I5 i p Hi). lia.
    + rewrite as_u32_id by (unfold is_u32; lia).
      pose proof (IH (b + fi_vsize e)%Z (fee_per_vbyte e) Hok Her ltac:(lia) ltac:(lia) Hfirst Hd)
        as [I1 I2 I3 I4 I5].
      rewrite Forall_forall in I2. split; [rewrite I1, vsize_sum_cons; lia| | |done|done].
      * rewrite Forall_forall. intros p Hp. destruct (I2 p Hp). split; [done|].
        by apply (f32_ge_trans _ (fee_per_vbyte e)).
      * intros i p Hi. destruct (I2 p); [by eapply list_elem_of_lookup_2|].
        rewrite vsize_paying_in by done. rewrite (I3 i p Hi). lia.
Qed.

(** The first entry never closes a bin, so the initial rate [0.0] is never reported. *)
Lemma make_fee_histogram_bins entries :
  Forall info_ok entries -> (vsize_sum entries < u32_mod)%Z ->
  exists h last, make_fee_histogram entries = Ok h /\ bins_ok 0 last entries h.
Proof.
  intros Hok Hsum. destruct (sort_entries_desc entries Hok) as (sorted & Hs & Hperm & Hd).
  unfold make_fee_histogram. rewrite Hs. cbn [mbind result_bind].
  assert (reverse sorted ≡ₚ entries) as Hp by (by rewrite reverse_Permutation).
  rewrite <- Hp in Hok, Hsum. exists (histogram_loop 0 f32_zero (reverse sorted)).
  assert (exists last, bins_ok 0 last (reverse sorted) (histogram_loop 0 f32_zero (reverse sorted)))
    as [last [B1 B2 B3 B4 B5]].
  { destruct (reverse sorted) as [|e l]; [exists f32_zero; by apply histogram_loop_bins|].
    apply Forall_cons in Hok as [[Her Hev] Hok]. apply StronglySorted_inv in Hd as [Hd Hf].
    rewrite vsize_sum_cons in Hsum. pose proof (vsize_sum_nonneg l Hok).
    exists (fee_per_vbyte e). cbn [histogram_loop].
    rewrite bool_decide_eq_false_2 by done. cbn [andb]. rewrite as_u32_id by (unfold is_u32; lia).
    destruct (histogram_loop_bins l (0 + fi_vsize e) (fee_per_vbyte e)) as [C1 C2 C3 C4 C5]; auto; try lia.
    rewrite Forall_forall in C2.
    split; [rewrite C1, vsize_sum_cons; lia| | |done|done].
    - by apply Forall_forall.
    - intros i p Hi. rewrite (C3 i p Hi), vsize_paying_in; [lia|].
      apply C2. by eapply list_elem_of_lookup_2. }
  exists last. split; [done|]. split; [by rewrite B1, Hp|done| |done|done].
  intros i p Hi. rewrite (B3 i p Hi). by rewrite Hp.
Qed.

(** ** Properties *)

(** Whatever the fee, a transaction of at least four weight units gets a rate
    that can be compared with every other, so the histogram of such rates is
    computed without a panic.  Its bins descend strictly in rate, sum to the total
    virtual size, the sizes of the bins down to a rate sum to the virtual size paying
    at least that rate, and every bin but the last is wider than the bin width. *)
Lemma fee_histogram_counts `{!BitcoinLib} (txs : list (Transaction * gmap Z TxOut)) :
  Forall (fun p => 4 <= tx_weight p.1 < u64_mod)%Z txs ->
  let entries := map (fun p => TxFeeInfo_new p.1 p.2) txs in
  (vsize_sum entries < u32_mod)%Z ->
  exists h, make_fee_histogram entries = Ok h /\
    sum_Z (map snd h) = vsize_sum entries /\
    (forall i p, h !! i = Some p -> sum_Z (map snd (take (S i) h)) = vsize_paying p.1 entries) /\
    StronglySorted (fun p p' => f32_ge p.1 p'.1 /\ ~ f32_ge p'.1 p.1) h /\
    (forall i p, h !! i = Some p -> S i < length h -> (VSIZE_BIN_WIDTH < p.2)%Z).
Proof.
  intros Hw entries Hsum.
  destruct (make_fee_histogram_bins entries) as (h & last & Hh & [B1 B2 B3 B4 B5]); [|done|].
  - unfold entries. rewrite Forall_map. eapply Forall_impl; [exact Hw|].
    intros [tx prevouts] Hp. split; [by apply new_rate_ok|]. apply as_u32_range.
  - exists h. split_and!; [done|by rewrite B1| |done|done]. intros i p Hi. by rewrite (B3 i p Hi).
Qed.

Definition ex_fee_tx (weight_in : nat) (out : Z) : Transaction :=
  mkTx 2 0 (replicate weight_in (mkTxIn (mkOutPoint null_hash 0) [] 0 [])) [mkTxOut out []].
Definition ex_fee_txs : list (Transaction * gmap Z TxOut) :=
  [(ex_fee_tx 1 1000, {[0%Z := mkTxOut 3000 []]}); (ex_fee_tx 2 1000, {[0%Z := mkTxOut 9000 []]})].
Lemma fee_histogram_counts_witness :
  let entries := map (fun p => @TxFeeInfo_new ExampleLib p.1 p.2) ex_fee_txs in
  exists h, make_fee_histogram entries = Ok h /\ sum_Z (map snd h) = vsize_sum entries.
Proof.
  intros entries. destruct (@fee_histogram_counts ExampleLib ex_fee_txs) as (h & Hh & Hs & _).
  - repeat constructor; vm_decide.
  - vm_decide.
  - exists h. done.
Defined.

(** The fee is the difference of inputs and outputs when the transaction does
    not create value, and it is reported modulo 2^64 when it does. *)
Lemma get_tx_fee_value `{!BitcoinLib} tx prevouts :
  tx_is_coinbase tx = false ->
  let total_in := sum_Z (map (fun p => txo_value p.2) (map_to_list prevouts)) in
  let total_out := sum_Z (map txo_value (tx_output tx)) in
  is_u64 total_in -> is_u64 total_out ->
  get_tx_fee tx prevouts =
    (if decide (total_out <= total_in) then total_in - total_out else u64_mod + total_in - total_out)%Z.
Proof.
  intros Hc total_in total_out Hi Ho. unfold get_tx_fee. rewrite Hc.
  fold total_in total_out. rewrite (wrap64_id total_in), (wrap64_id total_out) by done.
  unfold is_u64, wrap64 in *. case_decide.
  - apply Z.mod_small. lia.
  - symmetry. apply (Z.mod_unique_pos _ _ (-1)); lia.
Qed.
