(* ===== verification/HeaderList.v ===== *)
(** * [util/block.rs]: the in-memory best chain

    [HeaderList] keeps the headers of the best chain by height, an index from
    block hash to height that is never purged, and the tip.  [order] places new
    headers on the chain, [apply] splits the chain off at the fork point and
    extends it, [new] rebuilds the list from the stored header rows. *)

From S2P Require Import Prelude Bitcoin.

(** ** Data *)

Record BlockId := mkBlockId { bid_height : nat; bid_hash : BlockHash; bid_time : Z }.
#[export] Instance BlockId_eq_dec : EqDecision BlockId.
Proof. solve_decision. Defined.

Record HeaderEntry := mkEntry {
  he_height : nat; he_hash : BlockHash; he_header : BlockHeader }.
#[export] Instance HeaderEntry_eq_dec : EqDecision HeaderEntry.
Proof. solve_decision. Defined.

Definition BlockId_from (e : HeaderEntry) : BlockId :=
  mkBlockId (he_height e) (he_hash e) (bh_time (he_header e)).

Record HeaderList := mkHeaderList {
  headers : list HeaderEntry; heights : gmap BlockHash nat; tip_hash : BlockHash }.

Definition MTP_SPAN : nat := 11.

Record BlockStatus := mkBlockStatus {
  in_best_chain : bool; status_height : option nat; next_best : option BlockHash }.
Definition status_confirmed (height : nat) (next : option BlockHash) : BlockStatus :=
  mkBlockStatus true (Some height) next.
Definition status_orphaned : BlockStatus := mkBlockStatus false None None.

(** ** Operations *)

Definition hl_empty : HeaderList := mkHeaderList [] ∅ null_hash.

(** [for i in 1..l.len() { assert!(p(l[i - 1], l[i])) }] *)
Fixpoint adjacent {A} (p : A -> A -> bool) (l : list A) : bool :=
  match l with
  | x :: ((y :: _) as t) => p x y && adjacent p t
  | _ => true
  end.

Section header_list.
Context {BL : BitcoinLib}.

Definition header_by_blockhash (hl : HeaderList) (blockhash : BlockHash)
    : option HeaderEntry :=
  height ← heights hl !! blockhash;
  header ← headers hl !! height;
  if decide (blockhash = he_hash header) then Some header else None.

Definition header_by_height (hl : HeaderList) (height : nat) : result (option HeaderEntry) :=
  match headers hl !! height with
  | None => Ok None
  | Some e => _ ← rassert (bool_decide (he_height e = height)); Ok (Some e)
  end.

(** [tip()] asserts that the field agrees with the last header. *)
Definition last_hash (l : list HeaderEntry) : BlockHash :=
  match last l with Some e => he_hash e | None => null_hash end.
Definition hl_tip (hl : HeaderList) : result BlockHash :=
  _ ← rassert (bool_decide (tip_hash hl = last_hash (headers hl))); Ok (tip_hash hl).
Definition hl_len (hl : HeaderList) : nat := length (headers hl).
Definition hl_equals (a b : HeaderList) : bool :=
  bool_decide (last (headers a) = last (headers b)).

Definition hl_order (hl : HeaderList) (new_headers : list BlockHeader)
    : result (list HeaderEntry) :=
  let hashed := map (fun h => (block_hash h, h)) new_headers in
  _ ← rassert (adjacent (fun a b => bool_decide (prev_blockhash b.2 = a.1)) hashed);
  match hashed with
  | [] => Ok []
  | (_, first) :: _ =>
      let prev := prev_blockhash first in
      new_height ←
        (if decide (prev = null_hash) then Ok 0
         else e ← unwrap (header_by_blockhash hl prev); Ok (he_height e + 1));
      Ok (imap (fun i '(bh, h) => mkEntry (new_height + i) bh h) hashed)
  end.

Fixpoint push_headers (hl : HeaderList) (new_headers : list HeaderEntry) : result HeaderList :=
  match new_headers with
  | [] => Ok hl
  | h :: rest =>
      _ ← rassert (bool_decide (he_height h = length (headers hl)));
      push_headers
        (mkHeaderList (headers hl ++ [h]) (<[he_hash h := he_height h]> (heights hl)) (he_hash h))
        rest
  end.

(** Returns the new list, the rolled back entries (old tip first) and the tip
    after the roll-back. *)
Definition hl_apply (hl : HeaderList) (new_headers : list HeaderEntry)
    : result (HeaderList * (list HeaderEntry * option BlockHash)) :=
  _ ← rassert (adjacent (fun a b => bool_decide (he_height a + 1 = he_height b) &&
                bool_decide (he_hash a = prev_blockhash (he_header b))) new_headers);
  match new_headers with
  | [] => Ok (hl, ([], None))
  | entry :: _ =>
      let height := he_height entry in
      expected ← (match height with
                  | 0 => Ok null_hash
                  | S h => e ← unwrap (headers hl !! h); Ok (he_hash e)
                  end);
      _ ← rassert (bool_decide (prev_blockhash (he_header entry) = expected));
      _ ← rassert (bool_decide (height <= length (headers hl)));      (* [split_off] *)
      let kept := take height (headers hl) in
      let removed := drop height (headers hl) in
      let reorged_tip :=
        match removed with [] => None | _ => he_hash <$> last kept end in
      hl' ← push_headers (mkHeaderList kept (heights hl) (tip_hash hl)) new_headers;
      Ok (hl', (reverse removed, reorged_tip))
  end.

(** The [while blockhash != null_hash] loop of [new]: every round removes an
    entry of the map, so [S (size headers_map)] rounds are enough. *)
Fixpoint walk_back (fuel : nat) (headers_map : gmap BlockHash BlockHeader)
    (blockhash : BlockHash) (chain : list BlockHeader) : result (list BlockHeader) :=
  match fuel with
  | 0 => Diverge
  | S fuel =>
      if decide (blockhash = null_hash) then Ok chain
      else
        header ← unwrap (headers_map !! blockhash);
        walk_back fuel (delete blockhash headers_map) (prev_blockhash header) (chain ++ [header])
  end.

Definition hl_new (headers_map : gmap BlockHash BlockHeader) (tip : BlockHash)
    : result HeaderList :=
  chain ← walk_back (S (size headers_map)) headers_map tip [];
  ordered ← hl_order hl_empty (reverse chain);
  r ← hl_apply hl_empty ordered;
  Ok r.1.

(** Median time past: the genesis time, 0 above the tip, otherwise the middle of
    the sorted times of the last eleven blocks. *)
Definition mtp_window (hl : HeaderList) (height : nat) : result (list Z) :=
  rmap (fun h => e ← unwrap (headers hl !! h); Ok (bh_time (he_header e)))
    (seq (height - (MTP_SPAN - 1)) (height - (height - (MTP_SPAN - 1)) + 1)).
Definition get_mtp (hl : HeaderList) (height : nat) : result Z :=
  match height with
  | 0 => e ← unwrap (head (headers hl)); Ok (bh_time (he_header e))
  | _ =>
      if decide (hl_len hl = 0) then Panic
      else if decide (hl_len hl - 1 < height) then Ok 0%Z
      else
        timestamps ← mtp_window hl height;
        let sorted := merge_sort Z.le timestamps in
        unwrap (sorted !! (length sorted / 2))
  end.
End header_list.

(** ** Well-formedness *)

Lemma adjacent_spec {A} (p : A -> A -> bool) l :
  adjacent p l = true <->
  forall i x y, l !! i = Some x -> l !! S i = Some y -> p x y = true.
Proof.
  induction l as [|x l IH]; [done|]. destruct l as [|y l].
  - cbn. split; [|done]. by intros _ [|i] a b; cbn.
  - change (adjacent p (x :: y :: l)) with (p x y && adjacent p (y :: l)).
    rewrite andb_true_iff, IH. split.
    + intros [Hxy H] [|i] a b; cbn; [naive_solver|apply H].
    + intros H. split; [by apply (H 0)|]. intros i. apply (H (S i)).
Qed.

Section wf.
Context {BL : BitcoinLib}.

(** A list of entries is a chain from a genesis: heights are positions, hashes
    are the headers' hashes, every header points to its predecessor. *)
Record chain_ok (l : list HeaderEntry) : Prop := {
  ck_height i e : l !! i = Some e -> he_height e = i;
  ck_hash e : e ∈ l -> he_hash e = block_hash (he_header e);
  ck_genesis e : l !! 0 = Some e -> prev_blockhash (he_header e) = null_hash;
  ck_link i e e' : l !! i = Some e -> l !! S i = Some e' ->
    prev_blockhash (he_header e') = he_hash e;
}.

(** No two of the headers collide, and none hashes to the null hash.  This is
    what block hashes provide; it is asked of the headers at hand only. *)
Record hashes_distinct (l : list HeaderEntry) : Prop := {
  hd_inj e e' : e ∈ l -> e' ∈ l -> he_hash e = he_hash e' -> he_header e = he_header e';
  hd_null e : e ∈ l -> he_hash e <> null_hash;
}.

Record hl_wf (hl : HeaderList) : Prop := {
  wf_chain : chain_ok (headers hl);
  wf_index i e : headers hl !! i = Some e -> heights hl !! he_hash e = Some i;
  wf_tip : tip_hash hl = last_hash (headers hl);
}.

Lemma hl_empty_wf : hl_wf hl_empty.
Proof. split; [split|..]; cbn; set_solver. Qed.

(** A chain of distinct hashes has no repeated block: a repetition would walk
    back to a block that has a predecessor and none. *)
Lemma chain_index_inj l i j e e' :
  chain_ok l -> hashes_distinct l ->
  l !! i = Some e -> l !! j = Some e' -> he_hash e = he_hash e' -> i = j.
Proof.
  intros Hc Hd. revert j e e'. induction i as [|i IH]; intros [|j] e e' Hi Hj He; [done|..].
  - destruct (lookup_lt_is_Some_2 l j) as [p Hp]; [apply lookup_lt_Some in Hj; lia|].
    pose proof (ck_link _ Hc _ _ _ Hp Hj) as Hl.
    rewrite <- (hd_inj _ Hd e e') in Hl by eauto using list_elem_of_lookup_2.
    rewrite (ck_genesis _ Hc _ Hi) in Hl.
    exfalso. apply (hd_null _ Hd p); [by eapply list_elem_of_lookup_2|done].
  - destruct (lookup_lt_is_Some_2 l i) as [p Hp]; [apply lookup_lt_Some in Hi; lia|].
    pose proof (ck_link _ Hc _ _ _ Hp Hi) as Hl.
    rewrite (hd_inj _ Hd e e') in Hl by eauto using list_elem_of_lookup_2.
    rewrite (ck_genesis _ Hc _ Hj) in Hl.
    exfalso. apply (hd_null _ Hd p); [by eapply list_elem_of_lookup_2|done].
  - destruct (lookup_lt_is_Some_2 l i) as [p Hp]; [apply lookup_lt_Some in Hi; lia|].
    destruct (lookup_lt_is_Some_2 l j) as [q Hq]; [apply lookup_lt_Some in Hj; lia|].
    f_equal. apply (IH j p q Hp Hq).
    rewrite <- (ck_link _ Hc _ _ _ Hp Hi), <- (ck_link _ Hc _ _ _ Hq Hj).
    f_equal. apply (hd_inj _ Hd); eauto using list_elem_of_lookup_2.
Qed.

Lemma header_by_blockhash_Some hl h e :
  hl_wf hl ->
  header_by_blockhash hl h = Some e <-> e ∈ headers hl /\ he_hash e = h.
Proof.
  intros Hw. unfold header_by_blockhash. split.
  - destruct (heights hl !! h) as [i|]; cbn; [|done].
    destruct (headers hl !! i) as [e'|] eqn:E; cbn; [|done].
    case_decide; [|done]. intros [= <-]. split; [by eapply list_elem_of_lookup_2|done].
  - intros [[i Hi]%list_elem_of_lookup <-].
    rewrite (wf_index _ Hw _ _ Hi). cbn. rewrite Hi. cbn. by rewrite decide_True.
Qed.

Lemma header_by_height_wf hl h :
  hl_wf hl -> header_by_height hl h = Ok (headers hl !! h).
Proof.
  intros Hw. unfold header_by_height. destruct (headers hl !! h) as [e|] eqn:E; [|done].
  by rewrite (ck_height _ (wf_chain _ Hw) _ _ E), bool_decide_eq_true_2.
Qed.

(** ** [apply] *)

Lemma push_headers_eq hl new :
  (forall i e, new !! i = Some e -> he_height e = length (headers hl) + i) ->
  push_headers hl new = Ok (mkHeaderList (headers hl ++ new)
    (fold_left (fun m e => <[he_hash e := he_height e]> m) new (heights hl))
    (match last new with Some e => he_hash e | None => tip_hash hl end)).
Proof.
  revert hl. induction new as [|h new IH]; intros hl Hh.
  { destruct hl. cbn. by rewrite app_nil_r. }
  cbn [push_headers fold_left]. rewrite last_cons.
  rewrite bool_decide_eq_true_2 by (rewrite (Hh 0 h); [lia|done]).
  cbn -[last]. rewrite IH; cbn -[last].
  - rewrite <- app_assoc. by destruct (last new).
  - intros i e He. rewrite length_app. cbn. rewrite (Hh (S i) e He). lia.
Qed.

Lemma fold_heights_notin (new : list HeaderEntry) (m : gmap BlockHash nat) h :
  (forall e, e ∈ new -> he_hash e <> h) ->
  fold_left (fun m e => <[he_hash e := he_height e]> m) new m !! h = m !! h.
Proof.
  revert m. induction new as [|e new IH]; intros m Hn; cbn; [done|].
  rewrite IH by set_solver. rewrite lookup_insert_ne; [done|]. apply Hn. by left.
Qed.
Lemma fold_heights_in (new : list HeaderEntry) (m : gmap BlockHash nat) e :
  e ∈ new -> (forall e', e' ∈ new -> he_hash e' = he_hash e -> e' = e) ->
  fold_left (fun m e => <[he_hash e := he_height e]> m) new m !! he_hash e = Some (he_height e).
Proof.
  revert m. induction new as [|x new IH]; intros m Hin Hu; cbn; [by apply elem_of_nil in Hin|].
  destruct (decide (e ∈ new)) as [He|He]; [apply IH; set_solver|].
  assert (x = e) as -> by set_solver. rewrite fold_heights_notin.
  - by rewrite lookup_insert_eq.
  - intros e' He' Hh. destruct He. by rewrite <- (Hu e') by set_solver.
Qed.

(** The chain that [apply] builds: the kept prefix and the new headers. *)
Definition spliced (hl : HeaderList) (new : list HeaderEntry) : list HeaderEntry :=
  match new with
  | [] => headers hl
  | e :: _ => take (he_height e) (headers hl) ++ new
  end.

Lemma hl_apply_eq hl new e0 :
  head new = Some e0 -> he_height e0 <= length (headers hl) -> chain_ok (spliced hl new) ->
  hl_apply hl new = Ok (mkHeaderList (spliced hl new)
      (fold_left (fun m e => <[he_hash e := he_height e]> m) new (heights hl))
      (last_hash new),
    (reverse (drop (he_height e0) (headers hl)),
     match drop (he_height e0) (headers hl) with
     | [] => None | _ => he_hash <$> last (take (he_height e0) (headers hl)) end)).
Proof.
  destruct new as [|e new]; [done|]. intros [= ->] Hle Hc. cbn [spliced] in *.
  set (kept := take (he_height e0) (headers hl)) in *.
  assert (length kept = he_height e0) as Hk by (subst kept; rewrite length_take; lia).
  assert (forall i x, (e0 :: new) !! i = Some x -> (kept ++ e0 :: new) !! (length kept + i) = Some x)
    as Hlk by (intros i x; by rewrite lookup_app_r, Nat.add_comm, Nat.add_sub by lia).
  unfold hl_apply.
  rewrite (proj2 (adjacent_spec _ _)).
  2: { intros i x y Hx Hy. pose proof (Hlk _ _ Hx) as Hx'. pose proof (Hlk _ _ Hy) as Hy'.
       rewrite Nat.add_succ_r in Hy'.
       rewrite (ck_height _ Hc _ _ Hx'), (ck_height _ Hc _ _ Hy'), (ck_link _ Hc _ _ _ Hx' Hy').
       rewrite !bool_decide_eq_true_2; done || lia. }
  cbn -[take drop push_headers]. fold kept.
  assert ((match he_height e0 with
           | 0 => Ok null_hash
           | S h => e ← unwrap (headers hl !! h); Ok (he_hash e)
           end) = Ok (prev_blockhash (he_header e0))) as ->.
  { pose proof (Hlk 0 e0 eq_refl) as H0. rewrite Nat.add_0_r, Hk in H0.
    destruct (he_height e0) as [|h] eqn:Hh; [by rewrite (ck_genesis _ Hc _ H0)|].
    destruct (lookup_lt_is_Some_2 (headers hl) h) as [p Hp]; [lia|]. rewrite Hp. cbn.
    f_equal. symmetry. apply (ck_link _ Hc h p e0); [|done].
    rewrite lookup_app_l by lia. subst kept. by rewrite lookup_take_lt by lia. }
  cbn -[take drop push_headers]. rewrite !bool_decide_eq_true_2 by done. cbn -[take drop push_headers].
  rewrite push_headers_eq; cbn -[take drop last].
  - fold kept. unfold last_hash. destruct (last (e0 :: new)) eqn:E; [done|].
    by apply last_None in E.
  - fold kept. intros i x Hx. apply (ck_height _ Hc). by apply Hlk.
Qed.

(** Applying a chain keeps the list well-formed. *)
Lemma hl_apply_wf hl new e0 hl' out :
  hl_wf hl -> head new = Some e0 -> he_height e0 <= length (headers hl) ->
  chain_ok (spliced hl new) -> hashes_distinct (spliced hl new) ->
  hl_apply hl new = Ok (hl', out) -> hl_wf hl'.
Proof.
  intros Hw H0 Hle Hc Hd. rewrite (hl_apply_eq hl new e0) by done. intros [= <- <-].
  split; cbn; [done| |].
  - intros i e Hi. destruct (decide (e ∈ new)) as [He|He].
    + rewrite fold_heights_in; [by rewrite (ck_height _ Hc _ _ Hi)|done|].
      intros e' He' Hh.
      assert (e' ∈ spliced hl new) as [j Hj]%list_elem_of_lookup.
      { destruct new; [done|]. cbn. set_solver. }
      assert (j = i) as -> by (by eapply chain_index_inj). congruence.
    + assert (headers hl !! i = Some e) as Hold.
      { destruct new as [|e1 new]; [done|]. cbn in Hi, H0. simplify_eq.
        apply lookup_app_Some in Hi as [Hi|[_ Hi]].
        - by apply lookup_take_Some in Hi as [? _].
        - destruct He. by eapply list_elem_of_lookup_2. }
      rewrite fold_heights_notin; [by apply (wf_index _ Hw)|].
      intros e' He' Hh. assert (e' ∈ spliced hl new) as [j Hj]%list_elem_of_lookup.
      { destruct new; [done|]. cbn. set_solver. }
      assert (j = i) as -> by (by eapply chain_index_inj). congruence.
  - destruct new as [|e new]; [done|]. unfold last_hash. cbn [spliced]. by rewrite last_app_cons.
Qed.
End wf.

(** ** [order] followed by [apply] *)

Section order_apply.
Context {BL : BitcoinLib}.

Definition linked (hs : list BlockHeader) : Prop :=
  forall i h h', hs !! i = Some h -> hs !! S i = Some h' -> prev_blockhash h' = block_hash h.

(** [hs] attaches to the chain at height [n]. *)
Definition attaches (hl : HeaderList) (hs : list BlockHeader) (n : nat) : Prop :=
  exists h0, head hs = Some h0 /\
    ((prev_blockhash h0 = null_hash /\ n = 0) \/
     (prev_blockhash h0 <> null_hash /\
      exists p, p ∈ headers hl /\ he_hash p = prev_blockhash h0 /\ n = S (he_height p))).

Definition entries_from (n : nat) (hs : list BlockHeader) : list HeaderEntry :=
  imap (fun i h => mkEntry (n + i) (block_hash h) h) hs.

Lemma entries_from_lookup n hs i e :
  entries_from n hs !! i = Some e <->
  exists h, hs !! i = Some h /\ e = mkEntry (n + i) (block_hash h) h.
Proof.
  unfold entries_from. rewrite list_lookup_imap. destruct (hs !! i); cbn; naive_solver.
Qed.

Lemma attaches_le hl hs n : hl_wf hl -> attaches hl hs n -> n <= length (headers hl).
Proof.
  intros Hw (h0 & _ & [[_ ->]|(_ & p & [i Hi]%list_elem_of_lookup & _ & ->)]); [lia|].
  rewrite (ck_height _ (wf_chain _ Hw) _ _ Hi). apply lookup_lt_Some in Hi. lia.
Qed.

Lemma hl_order_eq hl hs n :
  hl_wf hl -> linked hs -> attaches hl hs n -> hl_order hl hs = Ok (entries_from n hs).
Proof.
  intros Hw Hl (h0 & H0 & Hat). unfold hl_order.
  rewrite (proj2 (adjacent_spec _ _)).
  2: { change (map ?f ?l) with (f <$> l). intros i x y. rewrite !list_lookup_fmap.
       destruct (hs !! i) as [h|] eqn:Hh, (hs !! S i) as [h'|] eqn:Hh'; cbn; try done.
       intros [= <-] [= <-]. apply bool_decide_eq_true_2. by eapply Hl. }
  destruct hs as [|h hs]; [done|]. injection H0 as ->. cbn -[imap].
  assert ((if decide (prev_blockhash h0 = null_hash) then Ok 0
           else e ← unwrap (header_by_blockhash hl (prev_blockhash h0)); Ok (he_height e + 1))
          = Ok n) as ->.
  { destruct Hat as [[Hn ->]|(Hn & p & Hp & Hh & ->)].
    - by rewrite decide_True.
    - rewrite decide_False by done.
      rewrite (proj2 (header_by_blockhash_Some hl _ p Hw)) by done. cbn. f_equal. lia. }
  cbn -[imap]. f_equal. change (_ :: map _ hs) with ((fun h => (block_hash h, h)) <$> (h0 :: hs)).
  unfold entries_from. rewrite imap_fmap. apply imap_ext. done.
Qed.

Lemma spliced_chain_ok hl hs n :
  hl_wf hl -> linked hs -> attaches hl hs n ->
  spliced hl (entries_from n hs) = take n (headers hl) ++ entries_from n hs /\
  chain_ok (spliced hl (entries_from n hs)).
Proof.
  intros Hw Hl Hat. pose proof (attaches_le _ _ _ Hw Hat) as Hle.
  assert (spliced hl (entries_from n hs) = take n (headers hl) ++ entries_from n hs) as Heq.
  { destruct Hat as (h0 & H0 & _). destruct hs; [done|]. cbn. by rewrite Nat.add_0_r. }
  split; [done|]. rewrite Heq.
  assert (length (take n (headers hl)) = n) as Hlen by (rewrite length_take; lia).
  pose proof (wf_chain _ Hw) as Hc.
  assert (forall i e, (take n (headers hl) ++ entries_from n hs) !! i = Some e ->
    (i < n /\ headers hl !! i = Some e) \/
    (n <= i /\ exists h, hs !! (i - n) = Some h /\ e = mkEntry i (block_hash h) h)) as Hlk.
  { intros i e Hi. apply lookup_app_Some in Hi as [Hi|[Hi He]].
    - left. by apply lookup_take_Some in Hi as [? ?].
    - right. rewrite Hlen in *. split; [done|]. apply entries_from_lookup in He as (h & Hh & ->).
      exists h. split; [done|]. f_equal. lia. }
  split.
  - intros i e [[_ Hi]|(_ & h & _ & ->)]%Hlk; [by apply (ck_height _ Hc)|done].
  - intros e [i [[_ Hi]|(_ & h & _ & ->)]%Hlk]%list_elem_of_lookup; [|done].
    apply (ck_hash _ Hc). by eapply list_elem_of_lookup_2.
  - intros e [[_ Hi]|(Hn & h & Hh & ->)]%Hlk; [by apply (ck_genesis _ Hc)|].
    cbn in *. destruct Hat as (h0 & H0 & [[? ->]|(_ & p & _ & _ & ->)]); [|lia].
    destruct hs; naive_solver.
  - intros i e e' [[Hi He]|(Hi & h & Hh & ->)]%Hlk [[Hi' He']|(Hi' & h' & Hh' & ->)]%Hlk.
    + by apply (ck_link _ Hc i).
    + assert (n = S i) as -> by lia. cbn. rewrite Nat.sub_diag in Hh'.
      destruct Hat as (h0 & H0 & [[_ ?]|(_ & p & [j Hj]%list_elem_of_lookup & Hph & Hn)]); [lia|].
      assert (h' = h0) as -> by (destruct hs; naive_solver).
      rewrite <- Hph. f_equal. rewrite (ck_height _ Hc _ _ Hj) in Hn. congruence.
    + lia.
    + cbn. apply (Hl (i - n)); [done|]. by rewrite <- Nat.sub_succ_l by lia.
Qed.

(** [HeaderList] states the program can reach: start empty and repeatedly apply
    what [order] returns for a batch of daemon headers. *)
Inductive hl_reachable : HeaderList -> Prop :=
  | hlr_empty : hl_reachable hl_empty
  | hlr_apply hl hs new hl' out :
      hl_reachable hl -> hl_order hl hs = Ok new -> hl_apply hl new = Ok (hl', out) ->
      hashes_distinct (spliced hl new) -> hl_reachable hl'.

Lemma hl_order_inv hl hs new :
  hl_wf hl -> hl_order hl hs = Ok new -> hs = [] /\ new = [] \/ linked hs /\ exists n, attaches hl hs n.
Proof.
  intros Hw Ho. unfold hl_order in Ho. rsimp.
  match goal with Ha : adjacent _ _ = true |- _ => pose proof (proj1 (adjacent_spec _ _) Ha) as Hadj end.
  destruct hs as [|h0 hs]; [left; by rsimp|right].
  split.
  - intros i a b Ha Hb. specialize (Hadj i (block_hash a, a) (block_hash b, b)).
    change (map ?f ?l) with (f <$> l) in Hadj. rewrite !list_lookup_fmap, Ha, Hb in Hadj.
    cbn in Hadj. apply (bool_decide_eq_true_1 _ (Hadj eq_refl eq_refl)).
  - rsimp. case_decide as Hd.
    + exists 0, h0. split; [done|]. by left.
    + rsimp. match goal with He : header_by_blockhash _ _ = Some ?p |- _ =>
        apply header_by_blockhash_Some in He as [Hp Hph]; [|done]; exists (S (he_height p)), h0 end.
      split; [done|]. right. eauto.
Qed.

Lemma hl_reachable_wf hl : hl_reachable hl -> hl_wf hl.
Proof.
  induction 1 as [|hl hs new hl' out Hr IH Ho Ha Hd]; [apply hl_empty_wf|].
  destruct (hl_order_inv _ _ _ IH Ho) as [[-> ->]|(Hl & n & Hat)].
  { cbn in Ha. by simplify_eq. }
  rewrite (hl_order_eq _ _ n) in Ho by done. injection Ho as <-.
  destruct (spliced_chain_ok hl hs n IH Hl Hat) as [Hs Hc].
  pose proof Hat as (h0 & H0 & _). destruct hs as [|h hs]; [done|]. injection H0 as ->.
  apply (hl_apply_wf hl (entries_from n (h0 :: hs)) (mkEntry (n + 0) (block_hash h0) h0) hl' out);
    try done.
  cbn. rewrite Nat.add_0_r. by eapply attaches_le.
Qed.
End order_apply.

(** ** Rebuilding the list from stored headers *)

Section rebuild.
Context {BL : BitcoinLib}.

Lemma last_hash_snoc l e : last_hash (l ++ [e]) = he_hash e.
Proof. unfold last_hash. by rewrite last_snoc. Qed.

Lemma chain_ok_snoc l e :
  chain_ok (l ++ [e]) -> chain_ok l /\ prev_blockhash (he_header e) = last_hash l.
Proof.
  intros Hc. split.
  - split.
    + intros i x Hi. apply (ck_height _ Hc). by apply lookup_app_l_Some.
    + intros x Hx. apply (ck_hash _ Hc). set_solver.
    + intros x Hx. apply (ck_genesis _ Hc). by apply lookup_app_l_Some.
    + intros i x y Hx Hy. apply (ck_link _ Hc i); by apply lookup_app_l_Some.
  - unfold last_hash. destruct l as [|x l _] using rev_ind; [by apply (ck_genesis _ Hc)|].
    rewrite last_snoc. apply (ck_link _ Hc (length l)).
    + rewrite lookup_app_l; [|rewrite length_app; cbn; lia]. by rewrite list_lookup_middle.
    + rewrite lookup_app_r; rewrite length_app; cbn; [|lia].
      by replace (S (length l) - (length l + 1)) with 0 by lia.
Qed.

Lemma hashes_distinct_sub l l' :
  (forall e, e ∈ l -> e ∈ l') -> hashes_distinct l' -> hashes_distinct l.
Proof. intros Hs Hd. split; intros; [eapply (hd_inj _ Hd)|eapply (hd_null _ Hd)]; eauto. Qed.

Lemma chain_hash_NoDup l : chain_ok l -> hashes_distinct l -> NoDup (he_hash <$> l).
Proof.
  intros Hc Hd. apply NoDup_alt. intros i j h Hi Hj.
  rewrite list_lookup_fmap in Hi, Hj.
  destruct (l !! i) as [e|] eqn:Ei; [|done]. destruct (l !! j) as [e'|] eqn:Ej; [|done].
  cbn in *. eapply chain_index_inj; eauto. congruence.
Qed.

Lemma walk_back_chain l :
  forall fuel (m : gmap BlockHash BlockHeader) acc,
  chain_ok l -> hashes_distinct l -> length l < fuel ->
  (forall e, e ∈ l -> m !! he_hash e = Some (he_header e)) ->
  walk_back fuel m (last_hash l) acc = Ok (acc ++ reverse (he_header <$> l)).
Proof.
  induction l as [|e l IH] using rev_ind; intros [|fuel] m acc Hc Hd Hf Hm;
    [cbn in Hf; lia|cbn; by rewrite app_nil_r|rewrite length_app in Hf; cbn in Hf; lia|].
  destruct (chain_ok_snoc _ _ Hc) as [Hc' Hp]. cbn [walk_back].
  rewrite last_hash_snoc, decide_False by (apply (hd_null _ Hd); set_solver).
  rewrite (Hm e) by set_solver. cbn -[reverse]. rewrite Hp, IH; [| done | | | ].
  - rewrite fmap_app, reverse_app, <- app_assoc. done.
  - eapply hashes_distinct_sub; [|done]. set_solver.
  - rewrite length_app in Hf. cbn in Hf. lia.
  - intros x Hx. rewrite lookup_delete_ne; [by apply Hm; set_solver|].
    pose proof (chain_hash_NoDup _ Hc Hd) as Hn. rewrite fmap_app in Hn.
    apply NoDup_app in Hn as (_ & Hn & _). intros Heq. apply (Hn (he_hash x)).
    + by apply list_elem_of_fmap_2.
    + rewrite <- Heq. cbn. set_solver.
Qed.

Lemma map_covers_size (l : list HeaderEntry) (m : gmap BlockHash BlockHeader) :
  NoDup (he_hash <$> l) -> (forall e, e ∈ l -> m !! he_hash e = Some (he_header e)) ->
  length l <= size m.
Proof.
  intros Hn Hm. rewrite <- (length_fmap he_hash l), <- (size_list_to_set (C := gset _)) by done.
  rewrite <- (size_dom (D := gset _)). apply subseteq_size. intros h Hh.
  apply elem_of_list_to_set, list_elem_of_fmap in Hh as (e & -> & He).
  apply elem_of_dom. eauto.
Qed.

Lemma entries_from_chain l :
  chain_ok l -> entries_from 0 (he_header <$> l) = l.
Proof.
  intros Hc. apply list_eq. intros i. unfold entries_from.
  rewrite list_lookup_imap, list_lookup_fmap. destruct (l !! i) as [e|] eqn:E; [|done]. cbn.
  rewrite <- (ck_height _ Hc _ _ E), <- (ck_hash _ Hc) by (by eapply list_elem_of_lookup_2).
  by destruct e.
Qed.

Lemma chain_linked l : chain_ok l -> linked (he_header <$> l).
Proof.
  intros Hc i h h' Hh Hh'. rewrite list_lookup_fmap in Hh, Hh'.
  destruct (l !! i) as [e|] eqn:E; [|done]. destruct (l !! S i) as [e'|] eqn:E'; [|done].
  cbn in *. simplify_eq. rewrite (ck_link _ Hc _ _ _ E E').
  apply (ck_hash _ Hc). by eapply list_elem_of_lookup_2.
Qed.

Lemma hl_new_chain l (m : gmap BlockHash BlockHeader) :
  chain_ok l -> hashes_distinct l ->
  (forall e, e ∈ l -> m !! he_hash e = Some (he_header e)) ->
  exists hl, hl_new m (last_hash l) = Ok hl /\ headers hl = l /\ hl_wf hl.
Proof.
  intros Hc Hd Hm. unfold hl_new.
  rewrite walk_back_chain; [|done|done| |done].
  2: { pose proof (map_covers_size l m (chain_hash_NoDup _ Hc Hd) Hm). lia. }
  cbn -[reverse walk_back hl_order]. rewrite reverse_involutive.
  destruct l as [|e l]; [exists hl_empty; by split; [|split; [|apply hl_empty_wf]]|].
  assert (attaches hl_empty (he_header <$> e :: l) 0) as Hat.
  { exists (he_header e). split; [done|]. left. split; [|done]. by apply (ck_genesis _ Hc). }
  rewrite (hl_order_eq _ _ 0 hl_empty_wf (chain_linked _ Hc) Hat), (entries_from_chain _ Hc).
  cbn -[hl_apply].
  assert (he_height e = 0) as He by (by apply (ck_height _ Hc)).
  assert (spliced hl_empty (e :: l) = e :: l) as Hs by (cbn; by rewrite He).
  pose proof (hl_apply_eq hl_empty (e :: l) e eq_refl) as Ha. rewrite Hs in Ha.
  specialize (Ha ltac:(rewrite He; cbn; lia) Hc). pose proof Ha as Ha'.
  apply (hl_apply_wf _ _ e) in Ha'; rewrite ?Hs; try done;
    [|apply hl_empty_wf|rewrite He; cbn; lia].
  rewrite Ha. cbn -[last_hash fold_left]. eexists. split; [done|]. by split.
Qed.
End rebuild.

(** ** Median time past *)

Lemma seq_window_lookup {A B} (l : list A) (f : A -> B) a n :
  a + n <= length l ->
  rmap (fun h => e ← unwrap (l !! h); Ok (f e)) (seq a n) = Ok (f <$> take n (drop a l)).
Proof.
  revert a l. induction n as [|n IH]; intros a l Hle; [done|].
  destruct (lookup_lt_is_Some_2 l a) as [x Hx]; [lia|].
  cbn [seq rmap]. rewrite Hx. cbn -[take drop]. rewrite IH by lia.
  rewrite (drop_S _ _ _ Hx). done.
Qed.

(** The times of the blocks at [height] and up to ten below. *)
Definition recent_times (hl : HeaderList) (height : nat) : list Z :=
  (fun e => bh_time (he_header e)) <$>
    take (Nat.min (S height) MTP_SPAN) (drop (S height - MTP_SPAN) (headers hl)).

Lemma mtp_window_eq hl height :
  height < length (headers hl) -> mtp_window hl height = Ok (recent_times hl height).
Proof.
  intros Hh. unfold mtp_window, recent_times, MTP_SPAN.
  rewrite (seq_window_lookup _ (fun e => bh_time (he_header e))) by lia.
  replace (height - (height - (11 - 1)) + 1) with (Nat.min (S height) 11) by lia.
  by replace (height - (11 - 1)) with (S height - 11) by lia.
Qed.

(** The middle element of a sorted list splits it. *)
Lemma sorted_median (ts : list Z) m :
  StronglySorted Z.le ts -> ts !! (length ts / 2) = Some m ->
  length ts / 2 < length (filter (fun t => t <= m)%Z ts) /\
  length ts - length ts / 2 <= length (filter (fun t => m <= t)%Z ts).
Proof.
  intros Hs Hm. set (k := length ts / 2) in *.
  pose proof (take_drop_middle _ _ _ Hm) as Heq. rewrite <- Heq in Hs.
  apply StronglySorted_app in Hs as (Hlt & _ & Hr). apply StronglySorted_cons in Hr as [Hgt _].
  assert (length (take k ts) = k) as Hk.
  { rewrite length_take. apply lookup_lt_Some in Hm. lia. }
  assert (length ts = k + S (length (drop (S k) ts))) as Hlen.
  { rewrite <- Heq at 1. rewrite length_app, Hk. done. }
  assert (forall (P : Z -> Prop) `{forall x, Decision (P x)}, filter P ts =
    filter P (take k ts) ++ filter P (m :: drop (S k) ts)) as Hfl.
  { intros P HP. by rewrite <- Heq at 1; rewrite filter_app. }
  rewrite !Hfl, !filter_cons, !decide_True by lia. rewrite !length_app. cbn [length].
  rewrite (filter_all _ (take k ts)), Hk by (intros x Hx; apply Hlt; set_solver).
  rewrite (filter_all (fun t => m <= t)%Z (drop (S k) ts)) by (by apply Forall_forall).
  split; lia.
Qed.

Section splice.
Context {BL : BitcoinLib}.

Lemma order_apply_eq hl hs n :
  hl_wf hl -> linked hs -> attaches hl hs n ->
  hashes_distinct (take n (headers hl) ++ entries_from n hs) ->
  exists hl', hl_order hl hs = Ok (entries_from n hs) /\
    hl_apply hl (entries_from n hs) = Ok (hl', (reverse (drop n (headers hl)),
      if decide (n < length (headers hl)) then he_hash <$> last (take n (headers hl)) else None)) /\
    headers hl' = take n (headers hl) ++ entries_from n hs /\
    hl_tip hl' = Ok (last_hash (entries_from n hs)) /\ hl_wf hl'.
Proof.
  intros Hw Hl Hat Hd. pose proof (attaches_le _ _ _ Hw Hat) as Hle.
  destruct (spliced_chain_ok _ _ _ Hw Hl Hat) as [Hs Hc].
  pose proof Hat as (h0 & H0 & _).
  assert (exists e0, head (entries_from n hs) = Some e0 /\ he_height e0 = n) as (e0 & He0 & Hh).
  { destruct hs; [done|]. eexists. split; [done|]. cbn. lia. }
  pose proof (hl_apply_eq hl (entries_from n hs) e0 He0 ltac:(by rewrite Hh) Hc) as Ha.
  pose proof Ha as Hw'. apply (hl_apply_wf hl _ e0) in Hw'; [|done..|by rewrite Hh|done|by rewrite Hs].
  rewrite Hh in Ha. eexists. split; [by apply hl_order_eq|]. split; [|split; [|split]].
  - rewrite Ha. do 3 f_equal. destruct (drop n (headers hl)) eqn:E; case_decide as Hn; try done.
    + apply (f_equal length) in E. rewrite length_drop in E. cbn in E. lia.
    + apply (f_equal length) in E. rewrite length_drop in E. cbn in E. lia.
  - by cbn.
  - unfold hl_tip. rewrite (bool_decide_eq_true_2 _ (wf_tip _ Hw')). done.
  - done.
Qed.
End splice.

(** ** Properties *)

Section properties.
Context {BL : BitcoinLib}.

(** C7: Applying the headers that [order] placed never panics on a batch of
    linked headers that attaches to the chain: the chain becomes the prefix below
    the fork point followed by the new headers, the blocks rolled back are
    returned from the old tip down, the returned roll-back tip is the last block
    kept, and the list stays well-formed. *)
Theorem order_apply_splices hl hs n :
  hl_wf hl -> linked hs -> attaches hl hs n ->
  hashes_distinct (take n (headers hl) ++ entries_from n hs) ->
  exists hl', hl_order hl hs = Ok (entries_from n hs) /\
    hl_apply hl (entries_from n hs) = Ok (hl', (reverse (drop n (headers hl)),
      if decide (n < length (headers hl)) then he_hash <$> last (take n (headers hl)) else None)) /\
    headers hl' = take n (headers hl) ++ entries_from n hs /\
    hl_tip hl' = Ok (last_hash (entries_from n hs)) /\ hl_wf hl'.
Proof. apply order_apply_eq. Qed.

(** In every reachable list, [header_by_blockhash] answers exactly for the
    blocks of the best chain: entries of orphaned blocks that are still in the
    [heights] index are never returned. *)
Lemma header_by_blockhash_best_chain hl h e :
  hl_reachable hl ->
  header_by_blockhash hl h = Some e <-> e ∈ headers hl /\ he_hash e = h.
Proof. intros Hr. apply header_by_blockhash_Some. by apply hl_reachable_wf. Qed.

(** C18: [HeaderList::new] terminates and rebuilds the chain ending at the stored
    tip from any header map that contains it, whatever orphans the map holds. *)
Theorem hl_new_rebuilds hl (m : gmap BlockHash BlockHeader) :
  hl_wf hl -> hashes_distinct (headers hl) ->
  (forall e, e ∈ headers hl -> m !! he_hash e = Some (he_header e)) ->
  exists hl', hl_new m (tip_hash hl) = Ok hl' /\ headers hl' = headers hl /\ hl_wf hl'.
Proof. intros Hw Hd Hm. rewrite (wf_tip _ Hw). by apply hl_new_chain; [apply wf_chain|..]. Qed.

(** For a block above the genesis, [get_mtp] is the median of the times of
    the (at most eleven) blocks up to it: it is one of them, more than half of
    them are at most it and at least half are at least it. *)
Lemma get_mtp_median hl height :
  0 < height < length (headers hl) ->
  exists m, get_mtp hl height = Ok m /\ m ∈ recent_times hl height /\
    length (recent_times hl height) / 2 <
      length (filter (fun t => t <= m)%Z (recent_times hl height)) /\
    length (recent_times hl height) - length (recent_times hl height) / 2 <=
      length (filter (fun t => m <= t)%Z (recent_times hl height)).
Proof.
  intros Hh. unfold get_mtp, hl_len. destruct height as [|height]; [lia|].
  rewrite !decide_False by lia. rewrite mtp_window_eq by lia.
  assert (0 < length (recent_times hl (S height))) as Hlen.
  { unfold recent_times, MTP_SPAN. rewrite length_fmap, length_take, length_drop. lia. }
  revert Hlen. generalize (recent_times hl (S height)). intros ts Hlen.
  change (Ok ts ≫= ?f) with (f ts). cbv beta zeta.
  pose proof (merge_sort_Permutation Z.le ts) as Hp.
  pose proof (StronglySorted_merge_sort Z.le ts) as Hs.
  destruct (lookup_lt_is_Some_2 (merge_sort Z.le ts) (length (merge_sort Z.le ts) / 2)) as [m Hm].
  { rewrite (Permutation_length Hp). apply Nat.div_lt; lia. }
  exists m. rewrite Hm. split; [done|]. split.
  { rewrite <- Hp. by eapply list_elem_of_lookup_2. }
  pose proof (sorted_median _ _ Hs Hm) as Hmed. by rewrite Hp in Hmed.
Qed.
End properties.

(** ** Evaluation on a chain with a fork *)

Lemma hashes_distinct_NoDup (l : list HeaderEntry) :
  NoDup (he_hash <$> l) -> null_hash ∉ he_hash <$> l -> hashes_distinct l.
Proof.
  intros Hn H0. split.
  - intros e e' [i Hi]%list_elem_of_lookup [j Hj]%list_elem_of_lookup He.
    assert (i = j) as ->; [|congruence].
    apply (NoDup_lookup _ _ _ (he_hash e) Hn); rewrite list_lookup_fmap, ?Hi, ?Hj; cbn; congruence.
  - intros e He Hnull. apply H0. rewrite <- Hnull. by apply list_elem_of_fmap_2.
Qed.

Definition ex_header (prev : BlockHash) (n time : Z) : BlockHeader :=
  mkHeader 1 prev null_hash time 0 n.
Definition ex_genesis : BlockHeader := ex_header null_hash 1 100.
Definition ex_main : list BlockHeader :=
  [ex_genesis; ex_header (pack_hash 1) 2 700; ex_header (pack_hash 2) 3 600].
Definition ex_fork : list BlockHeader :=
  [ex_header (pack_hash 1) 4 650; ex_header (pack_hash 4) 5 800; ex_header (pack_hash 5) 6 750].
(** The list after a batch of headers, as [Indexer::update] applies it. *)
Definition ex_extend (hl : HeaderList) (hs : list BlockHeader) : HeaderList :=
  match new ← @hl_order ExampleLib hl hs; @hl_apply hl new with
  | Ok r => r.1 | _ => hl
  end.
Definition ex_hl : HeaderList := ex_extend hl_empty ex_main.
Definition ex_forked : HeaderList := ex_extend ex_hl ex_fork.

Lemma ex_hl_reachable : @hl_reachable ExampleLib ex_hl.
Proof.
  eapply (@hlr_apply ExampleLib hl_empty ex_main); [constructor|vm_compute; reflexivity..|].
  apply hashes_distinct_NoDup; vm_decide.
Qed.
Lemma ex_forked_reachable : @hl_reachable ExampleLib ex_forked.
Proof.
  eapply (@hlr_apply ExampleLib ex_hl ex_fork);
    [apply ex_hl_reachable|vm_compute; reflexivity..|].
  apply hashes_distinct_NoDup; vm_decide.
Qed.

Lemma order_apply_splices_witness :
  exists hl', @hl_order ExampleLib ex_hl ex_fork = Ok (@entries_from ExampleLib 1 ex_fork) /\
    hl_apply ex_hl (@entries_from ExampleLib 1 ex_fork) =
      Ok (hl', (reverse (drop 1 (headers ex_hl)), Some (pack_hash 1))) /\
    headers hl' = take 1 (headers ex_hl) ++ @entries_from ExampleLib 1 ex_fork /\
    hl_tip hl' = Ok (pack_hash 6) /\ @hl_wf ExampleLib hl'.
Proof.
  refine (@order_apply_splices ExampleLib ex_hl ex_fork 1 _ _ _ _).
  - apply hl_reachable_wf, ex_hl_reachable.
  - intros [|[|[|i]]] h h' Hh Hh'; cbn in Hh, Hh'; simplify_eq; reflexivity.
  - eexists. split; [reflexivity|]. right. split; [vm_compute; congruence|].
    exists (mkEntry 0 (pack_hash 1) ex_genesis). split; [vm_compute; left|]. by split.
  - apply hashes_distinct_NoDup; vm_decide.
Defined.

Lemma header_by_blockhash_best_chain_witness :
  header_by_blockhash ex_forked (pack_hash 4) =
    Some (mkEntry 1 (pack_hash 4) (ex_header (pack_hash 1) 4 650)) /\
  header_by_blockhash ex_forked (pack_hash 2) = None.
Proof.
  split; [|vm_compute; reflexivity].
  apply (@header_by_blockhash_best_chain ExampleLib ex_forked _ _ ex_forked_reachable).
  split; [|reflexivity]. apply list_elem_of_lookup. exists 1. vm_compute. reflexivity.
Defined.

Lemma hl_new_rebuilds_witness :
  exists hl', @hl_new ExampleLib
      (list_to_map ((fun h => (@block_hash ExampleLib h, h)) <$> ex_main ++ ex_fork))
      (tip_hash ex_forked) = Ok hl' /\
    headers hl' = headers ex_forked /\ @hl_wf ExampleLib hl'.
Proof.
  refine (@hl_new_rebuilds ExampleLib ex_forked _ _ _ _).
  - apply hl_reachable_wf, ex_forked_reachable.
  - apply hashes_distinct_NoDup; vm_decide.
  - intros e [i Hi]%list_elem_of_lookup.
    destruct i as [|[|[|[|i]]]]; vm_compute in Hi; simplify_eq; vm_compute; reflexivity.
Defined.

Lemma get_mtp_median_witness :
  exists m, get_mtp ex_forked 3 = Ok m /\ m ∈ recent_times ex_forked 3 /\
    length (recent_times ex_forked 3) / 2 <
      length (filter (fun t => t <= m)%Z (recent_times ex_forked 3)) /\
    length (recent_times ex_forked 3) - length (recent_times ex_forked 3) / 2 <=
      length (filter (fun t => m <= t)%Z (recent_times ex_forked 3)).
Proof. refine (get_mtp_median ex_forked 3 _). vm_compute. lia. Defined.
