(* ===== verification/Rows.v ===== *)
(** * Row codecs of [new_index/schema.rs] and [util/bincode_util.rs]

    Every record the indexer stores is a [DBRow] whose key is a one-byte code
    followed by fixed-width fields.  [bincode_util] serializes them through the
    [wincode] crate; the layout it documents (fixed-width integers of the chosen
    endianness, [u32] enum tags, trailing bytes allowed) is what the scans of the
    chain queries rely on.  The integer codec and the codecs of the stored values
    are the parameter [Wincode]; the row layouts are defined here. *)

From S2P Require Import Prelude RocksDB DB Bitcoin HeaderList.

(** ** Stored values *)

Record BlockMeta := mkBlockMeta { meta_tx_count : Z; meta_size : Z; meta_weight : Z }.
#[export] Instance BlockMeta_eq_dec : EqDecision BlockMeta.
Proof. solve_decision. Defined.
#[export] Instance BlockMeta_countable : Countable BlockMeta :=
  inj_countable' (fun m => (meta_tx_count m, meta_size m, meta_weight m))
    (fun '(a, b, c) => mkBlockMeta a b c) (fun m => match m with mkBlockMeta _ _ _ => eq_refl end).

Record ScriptStats := mkStats {
  tx_count : Z; funded_txo_count : Z; spent_txo_count : Z;
  funded_txo_sum : Z; spent_txo_sum : Z }.
#[export] Instance ScriptStats_eq_dec : EqDecision ScriptStats.
Proof. solve_decision. Defined.
#[export] Instance ScriptStats_countable : Countable ScriptStats :=
  inj_countable' (fun s => (tx_count s, funded_txo_count s, spent_txo_count s,
                            funded_txo_sum s, spent_txo_sum s))
    (fun '(a, b, c, d, e) => mkStats a b c d e)
    (fun s => match s with mkStats _ _ _ _ _ => eq_refl end).
Definition stats_default : ScriptStats := mkStats 0 0 0 0 0.

Definition is_sane (s : ScriptStats) : bool :=
  (spent_txo_count s <=? funded_txo_count s)%Z
  && (tx_count s <=? wrap64 (spent_txo_count s + funded_txo_count s))%Z
  && (spent_txo_sum s <=? funded_txo_sum s)%Z
  && Bool.eqb (funded_txo_count s =? spent_txo_count s)%Z
              (funded_txo_sum s =? spent_txo_sum s)%Z.

Abbreviation UtxoMap := (gmap OutPoint (BlockId * Z)).
Abbreviation CachedUtxoMap := (gmap (Txid * Z) (Z * Z)).

(** The machine ranges of the Rust fields. *)
Definition meta_in_range (m : BlockMeta) : Prop :=
  is_u32 (meta_tx_count m) /\ is_u32 (meta_size m) /\ is_u32 (meta_weight m).
Definition stats_in_range (s : ScriptStats) : Prop :=
  is_u64 (tx_count s) /\ is_u64 (funded_txo_count s) /\ is_u64 (spent_txo_count s) /\
  is_u64 (funded_txo_sum s) /\ is_u64 (spent_txo_sum s).
Definition cached_in_range (m : CachedUtxoMap) : Prop :=
  forall k v, m !! k = Some v -> is_u32 k.2 /\ is_u32 v.1 /\ is_u64 v.2.

(** ** The wincode codec *)

Inductive Endian := Little | Big.

Class Wincode := {
  fixint : Endian -> nat -> Z -> Bytes;
  read_fixint : Endian -> nat -> Bytes -> option (Z * Bytes);
  ser_txids : list Txid -> Bytes;
  de_txids : Bytes -> option (list Txid);
  ser_meta : BlockMeta -> Bytes;
  de_meta : Bytes -> option BlockMeta;
  ser_stats : ScriptStats * BlockHash -> Bytes;
  de_stats : Bytes -> option (ScriptStats * BlockHash);
  ser_utxos : CachedUtxoMap * BlockHash -> Bytes;
  de_utxos : Bytes -> option (CachedUtxoMap * BlockHash);
}.

(** What [bincode_util] documents of it: fixed width, big-endian integers order
    like the numbers, and reading back what was written. *)
Class WincodeLaws `{W : Wincode} : Prop := {
  fixint_length e w x : length (fixint e w x) = w;
  read_fixint_fixint e w x r :
    (0 <= x < 256 ^ Z.of_nat w)%Z -> read_fixint e w (fixint e w x ++ r) = Some (x, r);
  read_fixint_range e w b x r :
    read_fixint e w b = Some (x, r) -> (0 <= x < 256 ^ Z.of_nat w)%Z;
  fixint_big_order w x y :
    (0 <= x < 256 ^ Z.of_nat w)%Z -> (0 <= y < 256 ^ Z.of_nat w)%Z ->
    bcmp (fixint Big w x) (fixint Big w y) = (x ?= y)%Z;
  de_ser_txids l : de_txids (ser_txids l) = Some l;
  de_ser_meta m : meta_in_range m -> de_meta (ser_meta m) = Some m;
  de_ser_stats s h : stats_in_range s -> de_stats (ser_stats (s, h)) = Some (s, h);
  de_ser_utxos m h : cached_in_range m -> de_utxos (ser_utxos (m, h)) = Some (m, h);
}.

(** ** History rows *)

Inductive TxHistoryInfo :=
  | Spending (txid : Txid) (vin : Z) (prev_txid : Txid) (prev_vout : Z) (value : Z)
  | Funding (txid : Txid) (vout : Z) (value : Z).

Record TxHistoryRow := mkHistoryRow {
  hk_code : Z; hk_hash : FullHash; confirmed_height : Z; hk_tx_position : Z;
  txinfo : TxHistoryInfo }.
#[export] Instance TxHistoryInfo_eq_dec : EqDecision TxHistoryInfo.
Proof. solve_decision. Defined.
#[export] Instance TxHistoryRow_eq_dec : EqDecision TxHistoryRow.
Proof. solve_decision. Defined.

Definition info_get_txid (i : TxHistoryInfo) : Txid :=
  match i with Spending txid _ _ _ _ => txid | Funding txid _ _ => txid end.
Definition get_vin_or_vout (i : TxHistoryInfo) : Z :=
  match i with Spending _ vin _ _ _ => vin | Funding _ vout _ => vout end.
Definition has_vin (i : TxHistoryInfo) : bool :=
  match i with Spending _ _ _ _ _ => true | Funding _ _ _ => false end.
Definition get_funded_outpoint (i : TxHistoryInfo) : OutPoint :=
  match i with
  | Funding txid vout _ => mkOutPoint txid vout
  | Spending _ _ prev_txid prev_vout _ => mkOutPoint prev_txid prev_vout
  end.
Definition info_value (i : TxHistoryInfo) : Z :=
  match i with Spending _ _ _ _ v => v | Funding _ _ v => v end.
Definition row_get_txid (r : TxHistoryRow) : Txid := info_get_txid (txinfo r).

Definition read_u8 (b : Bytes) : option (Z * Bytes) :=
  match b with x :: r => Some (x, r) | [] => None end.
Definition read_hash (b : Bytes) : option (FullHash * Bytes) :=
  h ← mk_hash (take 32 b); Some (h, drop 32 b).

Section rows.
Context `{BL : BitcoinLib} `{W : Wincode}.

Definition info_bytes (i : TxHistoryInfo) : Bytes :=
  match i with
  | Spending txid vin prev_txid prev_vout value =>
      fixint Big 4 0 ++ as_bytes txid ++ fixint Big 4 vin ++ as_bytes prev_txid
        ++ fixint Big 4 prev_vout ++ fixint Big 8 value
  | Funding txid vout value =>
      fixint Big 4 1 ++ as_bytes txid ++ fixint Big 4 vout ++ fixint Big 8 value
  end.
Definition history_key_bytes (r : TxHistoryRow) : Bytes :=
  hk_code r :: as_bytes (hk_hash r) ++ fixint Big 4 (confirmed_height r)
    ++ fixint Big 2 (hk_tx_position r) ++ info_bytes (txinfo r).

Definition read_info (b : Bytes) : option (TxHistoryInfo * Bytes) :=
  '(tag, b) ← read_fixint Big 4 b;
  if decide (tag = 0%Z) then
    '(txid, b) ← read_hash b; '(vin, b) ← read_fixint Big 4 b;
    '(prev_txid, b) ← read_hash b; '(prev_vout, b) ← read_fixint Big 4 b;
    '(value, b) ← read_fixint Big 8 b;
    Some (Spending txid vin prev_txid prev_vout value, b)
  else if decide (tag = 1%Z) then
    '(txid, b) ← read_hash b; '(vout, b) ← read_fixint Big 4 b;
    '(value, b) ← read_fixint Big 8 b;
    Some (Funding txid vout value, b)
  else None.

Definition history_new (script : Script) (height tx_position : Z) (info : TxHistoryInfo)
    : TxHistoryRow :=
  mkHistoryRow 72 (compute_script_hash script) height tx_position info.
Definition history_filter (code : Z) (hash_prefix : Bytes) : Bytes := [code] ++ hash_prefix.
Definition prefix_end (code : Z) (hash : FullHash) : Bytes :=
  code :: as_bytes hash ++ fixint Big 4 (u32_mod - 1).
Definition prefix_height (code : Z) (hash : FullHash) (height : Z) : Bytes :=
  code :: as_bytes hash ++ fixint Big 4 height.
Definition prefix_height_end (code : Z) (hash : FullHash) (height : Z) : Bytes :=
  code :: as_bytes hash ++ fixint Big 4 height ++ fixint Big 2 (u16_mod - 1).
Definition history_into_row (r : TxHistoryRow) : DBRow := mkDBRow (history_key_bytes r) [].
Definition history_from_row (row : DBRow) : result TxHistoryRow :=
  unwrap ('(code, b) ← read_u8 (dbr_key row); '(hash, b) ← read_hash b;
    '(height, b) ← read_fixint Big 4 b; '(pos, b) ← read_fixint Big 2 b;
    '(info, _) ← read_info b;
    Some (mkHistoryRow code hash height pos info)).

(** ** Rows of the transaction store *)

Definition tx_row_key (prefix : Bytes) : Bytes := [84%Z] ++ prefix.
Definition tx_row (txn : Transaction) : DBRow :=
  mkDBRow (84%Z :: as_bytes (get_txid txn)) (serialize_tx txn).

Record TxConfKey := mkTxConfKey { tc_code : Z; tc_txid : Txid; tc_blockhash : BlockHash }.
Definition conf_new (txn : Transaction) (blockhash : BlockHash) : TxConfKey :=
  mkTxConfKey 67 (get_txid txn) blockhash.
Definition conf_filter (prefix : Bytes) : Bytes := [67%Z] ++ prefix.
Definition conf_into_row (k : TxConfKey) : DBRow :=
  mkDBRow (tc_code k :: as_bytes (tc_txid k) ++ as_bytes (tc_blockhash k)) [].
Definition conf_from_row (row : DBRow) : result TxConfKey :=
  unwrap ('(code, b) ← read_u8 (dbr_key row); '(txid, b) ← read_hash b;
    '(blockhash, _) ← read_hash b; Some (mkTxConfKey code txid blockhash)).

Definition txout_key_bytes (txid : Txid) (vout : Z) : Bytes :=
  79%Z :: as_bytes txid ++ fixint Little 4 vout.
Definition txout_row (txid : Txid) (vout : nat) (txout : TxOut) : DBRow :=
  mkDBRow (txout_key_bytes txid (as_u32 (Z.of_nat vout))) (serialize_txout txout).
Definition txout_key (outpoint : OutPoint) : Bytes :=
  txout_key_bytes (op_txid outpoint) (op_vout outpoint).

Record BlockRow := mkBlockRow { bk_code : Z; bk_hash : FullHash; bk_value : Bytes }.
Definition block_row_header (hash : BlockHash) (header : BlockHeader) : BlockRow :=
  mkBlockRow 66 hash (serialize_header header).
Definition block_row_txids (hash : FullHash) (txids : list Txid) : BlockRow :=
  mkBlockRow 88 hash (ser_txids txids).
Definition block_row_meta (hash : FullHash) (meta : BlockMeta) : BlockRow :=
  mkBlockRow 77 hash (ser_meta meta).
Definition block_row_done (hash : FullHash) : BlockRow := mkBlockRow 68 hash [].
Definition header_filter : Bytes := [66%Z].
Definition txids_key (hash : FullHash) : Bytes := [88%Z] ++ as_bytes hash.
Definition meta_key (hash : FullHash) : Bytes := [77%Z] ++ as_bytes hash.
Definition done_filter : Bytes := [68%Z].
Definition block_into_row (r : BlockRow) : DBRow :=
  mkDBRow (bk_code r :: as_bytes (bk_hash r)) (bk_value r).
Definition block_from_row (row : DBRow) : result BlockRow :=
  unwrap ('(code, b) ← read_u8 (dbr_key row); '(hash, _) ← read_hash b;
    Some (mkBlockRow code hash (dbr_value row))).

(** ** Spend edges and the cached values *)

Record TxEdgeKey := mkEdge {
  te_code : Z; funding_txid : Txid; funding_vout : Z;
  spending_txid : Txid; spending_vin : Z }.
Definition edge_new (funding_txid : Txid) (funding_vout : Z) (spending_txid : Txid)
    (spending_vin : Z) : TxEdgeKey :=
  mkEdge 83 funding_txid funding_vout spending_txid spending_vin.
Definition edge_filter (outpoint : OutPoint) : Bytes :=
  83%Z :: as_bytes (op_txid outpoint) ++ fixint Little 4 (op_vout outpoint).
Definition edge_into_row (k : TxEdgeKey) : DBRow :=
  mkDBRow (te_code k :: as_bytes (funding_txid k) ++ fixint Little 4 (funding_vout k)
           ++ as_bytes (spending_txid k) ++ fixint Little 4 (spending_vin k)) [].
Definition edge_from_row (row : DBRow) : result TxEdgeKey :=
  unwrap ('(code, b) ← read_u8 (dbr_key row); '(ftxid, b) ← read_hash b;
    '(fvout, b) ← read_fixint Little 4 b; '(stxid, b) ← read_hash b;
    '(svin, _) ← read_fixint Little 4 b; Some (mkEdge code ftxid fvout stxid svin)).

Definition stats_cache_key (scripthash : FullHash) : Bytes := [65%Z] ++ as_bytes scripthash.
Definition stats_cache_row (scripthash : FullHash) (stats : ScriptStats) (blockhash : BlockHash)
    : DBRow := mkDBRow (65%Z :: as_bytes scripthash) (ser_stats (stats, blockhash)).

Definition make_utxo_cache (utxos : UtxoMap) : CachedUtxoMap :=
  list_to_map ((fun '(o, (b, v)) =>
      ((op_txid o, op_vout o), (as_u32 (Z.of_nat (bid_height b)), v))) <$> map_to_list utxos).
Definition utxo_cache_key (scripthash : FullHash) : Bytes := [85%Z] ++ as_bytes scripthash.
Definition utxo_cache_row (scripthash : FullHash) (utxos : UtxoMap) (blockhash : BlockHash)
    : DBRow := mkDBRow (85%Z :: as_bytes scripthash) (ser_utxos (make_utxo_cache utxos, blockhash)).

Definition addr_search_row (spk : Script) (network : Network) : option DBRow :=
  address ← to_address_str spk network; Some (mkDBRow ([97%Z] ++ address) []).
Definition addr_search_filter (prefix : Bytes) : Bytes := [97%Z] ++ prefix.
End rows.

(** ** Reading back *)

Lemma read_hash_app h r : read_hash (as_bytes h ++ r) = Some (h, r).
Proof.
  unfold read_hash. rewrite take_app_length' by (by rewrite as_bytes_length).
  rewrite mk_hash_as_bytes. cbn -[drop]. by rewrite drop_app_length' by (by rewrite as_bytes_length).
Qed.
Lemma read_hash_exact h : read_hash (as_bytes h) = Some (h, []).
Proof. rewrite <- (app_nil_r (as_bytes h)) at 1. apply read_hash_app. Qed.

Lemma starts_with_app_r a b p : starts_with (p ++ a) (p ++ b) = starts_with a b.
Proof. induction p as [|x p IH]; cbn; [done|]. by rewrite Z.eqb_refl. Qed.
Lemma starts_with_hash h h' a : starts_with (as_bytes h ++ a) (as_bytes h') = true <-> h = h'.
Proof.
  rewrite starts_with_spec. split.
  - intros [r Hr]. apply hash_app_inj in Hr as [-> _]. done.
  - intros ->. by exists a.
Qed.

Definition info_in_range (i : TxHistoryInfo) : Prop :=
  match i with
  | Spending _ vin _ prev_vout value => is_u32 vin /\ is_u32 prev_vout /\ is_u64 value
  | Funding _ vout value => is_u32 vout /\ is_u64 value
  end.
Definition history_in_range (r : TxHistoryRow) : Prop :=
  is_u32 (confirmed_height r) /\ is_u16 (hk_tx_position r) /\ info_in_range (txinfo r).

(** The order history rows are meant to have: by height, then by position in the
    block, and spends before funds in one transaction. *)
Definition hist_tag (i : TxHistoryInfo) : Z := if has_vin i then 0%Z else 1%Z.
Definition hist_before (r1 r2 : TxHistoryRow) : Prop :=
  (confirmed_height r1 < confirmed_height r2)%Z \/
  confirmed_height r1 = confirmed_height r2 /\
    ((hk_tx_position r1 < hk_tx_position r2)%Z \/
     hk_tx_position r1 = hk_tx_position r2 /\
       (hist_tag (txinfo r1) < hist_tag (txinfo r2))%Z).

Ltac range := unfold history_in_range, info_in_range, is_u16, is_u32, is_u64,
  u16_mod, u32_mod, u64_mod in *; cbn -[Z.pow] in *;
  change (256 ^ Z.of_nat 2)%Z with 65536%Z in *; change (256 ^ Z.of_nat 4)%Z with 4294967296%Z in *;
  change (256 ^ Z.of_nat 8)%Z with 18446744073709551616%Z in *; lia.
Ltac rcbn := cbn -[take drop fixint read_fixint read_hash read_info info_bytes Z.pow].
Ltac read_back := repeat (rcbn; first
  [ rewrite read_hash_app | rewrite read_hash_exact
  | rewrite read_fixint_fixint by range | rewrite decide_True by done
  | rewrite decide_False by done ]); rcbn.

Section codec.
Context {BL : BitcoinLib} {W : Wincode} {WL : WincodeLaws}.

Lemma read_fixint_exact e w x :
  (0 <= x < 256 ^ Z.of_nat w)%Z -> read_fixint e w (fixint e w x) = Some (x, []).
Proof. intros H. rewrite <- (app_nil_r (fixint e w x)). by apply read_fixint_fixint. Qed.

Lemma fixint_inj e w x y :
  (0 <= x < 256 ^ Z.of_nat w)%Z -> (0 <= y < 256 ^ Z.of_nat w)%Z ->
  fixint e w x = fixint e w y -> x = y.
Proof.
  intros Hx Hy He. apply read_fixint_exact with (e := e) in Hx, Hy. rewrite He in Hx. congruence.
Qed.

Lemma read_info_bytes i r : info_in_range i -> read_info (info_bytes i ++ r) = Some (i, r).
Proof.
  intros Hi. unfold read_info. destruct i; cbn [info_bytes info_in_range] in *;
    rewrite <- !app_assoc; read_back; done.
Qed.

Lemma history_from_into r :
  history_in_range r -> history_from_row (history_into_row r) = Ok r.
Proof.
  intros Hr. unfold history_from_row, history_into_row, history_key_bytes. read_back.
  rewrite <- (app_nil_r (info_bytes _)), read_info_bytes by apply Hr. by destruct r.
Qed.

Lemma history_key_inj r r' :
  history_in_range r -> history_in_range r' -> history_key_bytes r = history_key_bytes r' -> r = r'.
Proof.
  intros Hr Hr' He. apply history_from_into in Hr, Hr'.
  unfold history_into_row in *. congruence.
Qed.

Lemma conf_from_into k : conf_from_row (conf_into_row k) = Ok k.
Proof. unfold conf_from_row, conf_into_row. read_back. by destruct k. Qed.

Lemma block_from_into r : block_from_row (block_into_row r) = Ok r.
Proof. unfold block_from_row, block_into_row. read_back. by destruct r. Qed.

Definition edge_in_range (k : TxEdgeKey) : Prop :=
  is_u32 (funding_vout k) /\ is_u32 (spending_vin k).
Lemma edge_from_into k : edge_in_range k -> edge_from_row (edge_into_row k) = Ok k.
Proof.
  intros [Hf Hs]. unfold edge_from_row, edge_into_row. read_back.
  rewrite read_fixint_exact by range. by destruct k.
Qed.

Lemma edge_filter_spec k o :
  edge_in_range k -> is_u32 (op_vout o) -> te_code k = 83%Z ->
  starts_with (dbr_key (edge_into_row k)) (edge_filter o) = true <->
  o = mkOutPoint (funding_txid k) (funding_vout k).
Proof.
  intros [Hf Hs] Ho Hc. unfold edge_into_row, edge_filter. cbn [dbr_key]. rewrite Hc.
  rewrite starts_with_spec. split.
  - intros [r Hr]. cbn in Hr. injection Hr as Hr. rewrite <- app_assoc in Hr.
    apply hash_app_inj in Hr as [Ht Hr]. apply app_inj_1 in Hr as [Hr _]; [|by rewrite !fixint_length].
    apply fixint_inj in Hr; [|range..]. destruct o. cbn in *. congruence.
  - intros ->. eexists. cbn. by rewrite <- app_assoc.
Qed.

Lemma conf_filter_spec k txid :
  tc_code k = 67%Z ->
  starts_with (dbr_key (conf_into_row k)) (conf_filter (as_bytes txid)) = true <-> tc_txid k = txid.
Proof. intros Hc. cbn. rewrite Hc. cbn. apply starts_with_hash. Qed.

Lemma txout_key_inj t v t' v' :
  is_u32 v -> is_u32 v' -> txout_key_bytes t v = txout_key_bytes t' v' -> t = t' /\ v = v'.
Proof.
  intros Hv Hv' He. injection He as He. apply hash_app_inj in He as [-> He].
  split; [done|]. apply fixint_inj in He; [done|range..].
Qed.

(** ** Order of history keys *)

Lemma fixint_big_app w x y a b :
  (0 <= x < 256 ^ Z.of_nat w)%Z -> (0 <= y < 256 ^ Z.of_nat w)%Z ->
  bcmp (fixint Big w x ++ a) (fixint Big w y ++ b) =
    match (x ?= y)%Z with Eq => bcmp a b | c => c end.
Proof.
  intros Hx Hy. rewrite bcmp_app_r by (by rewrite !fixint_length). by rewrite fixint_big_order.
Qed.

Lemma info_bytes_tag i : exists r, info_bytes i = fixint Big 4 (hist_tag i) ++ r.
Proof. destruct i; eexists; cbn [info_bytes hist_tag has_vin]; done. Qed.

Lemma history_key_lt r1 r2 :
  history_in_range r1 -> history_in_range r2 -> hk_code r1 = hk_code r2 -> hk_hash r1 = hk_hash r2 ->
  hist_before r1 r2 -> bytes_lt (history_key_bytes r1) (history_key_bytes r2).
Proof.
  intros H1 H2 Hc Hh Hb. unfold bytes_lt, history_key_bytes. cbn [bcmp]. rewrite Hc, Z.compare_refl, Hh.
  rewrite bcmp_app, fixint_big_app by range.
  destruct Hb as [Hb|[-> [Hb|[-> Hb]]]]; [by rewrite (proj2 (Z.compare_lt_iff _ _))|..];
    rewrite Z.compare_refl, fixint_big_app by range;
    [by rewrite (proj2 (Z.compare_lt_iff _ _))|].
  rewrite Z.compare_refl. destruct (info_bytes_tag (txinfo r1)) as [a ->], (info_bytes_tag (txinfo r2)) as [b ->].
  rewrite fixint_big_app; [by rewrite (proj2 (Z.compare_lt_iff _ _))|..];
    destruct (txinfo r1), (txinfo r2); cbn in *; lia.
Qed.

Lemma prefix_height_le r h :
  history_in_range r -> is_u32 h ->
  bytes_le (prefix_height (hk_code r) (hk_hash r) h) (history_key_bytes r) <->
  (h <= confirmed_height r)%Z.
Proof.
  intros Hr Hh. unfold bytes_le, prefix_height, history_key_bytes. cbn [bcmp].
  rewrite Z.compare_refl, bcmp_app. rewrite <- (app_nil_r (fixint Big 4 h)), fixint_big_app by range.
  destruct (Z.compare_spec h (confirmed_height r)); split; intros; try lia; try done.
  by destruct (_ ++ _).
Qed.

Lemma prefix_height_end_le r h :
  history_in_range r -> is_u32 h ->
  bytes_le (history_key_bytes r) (prefix_height_end (hk_code r) (hk_hash r) h) <->
  (confirmed_height r < h \/ confirmed_height r = h /\ hk_tx_position r < u16_mod - 1)%Z.
Proof.
  intros Hr Hh. unfold bytes_le, prefix_height_end, history_key_bytes. cbn [bcmp].
  rewrite Z.compare_refl, bcmp_app, fixint_big_app by range.
  destruct (Z.compare_spec (confirmed_height r) h); try (split; intros; first [done|lia]).
  rewrite <- (app_nil_r (fixint Big 2 (u16_mod - 1))), fixint_big_app by range.
  destruct (Z.compare_spec (hk_tx_position r) (u16_mod - 1)); split; intros; try lia; try done.
  destruct (info_bytes_tag (txinfo r)) as [a Ha]. rewrite Ha in *.
  destruct (fixint Big 4 (hist_tag (txinfo r)) ++ a) eqn:E; [|done].
  apply (f_equal length) in E. rewrite length_app, fixint_length in E. cbn in E. lia.
Qed.

Lemma prefix_end_le r :
  history_in_range r ->
  bytes_le (history_key_bytes r) (prefix_end (hk_code r) (hk_hash r)) <->
  (confirmed_height r < u32_mod - 1)%Z.
Proof.
  intros Hr. unfold bytes_le, prefix_end, history_key_bytes. cbn [bcmp].
  rewrite Z.compare_refl, bcmp_app, <- (app_nil_r (fixint Big 4 (u32_mod - 1))), fixint_big_app by range.
  destruct (Z.compare_spec (confirmed_height r) (u32_mod - 1)); split; intros; try lia; try done.
  destruct (fixint Big 2 (hk_tx_position r) ++ info_bytes (txinfo r)) eqn:E; [|done].
  apply (f_equal length) in E. rewrite length_app, fixint_length in E. cbn in E. lia.
Qed.

Lemma history_filter_spec r hash :
  starts_with (history_key_bytes r) (history_filter (hk_code r) (as_bytes hash)) = true <->
  hk_hash r = hash.
Proof. cbn. rewrite Z.eqb_refl. cbn. apply starts_with_hash. Qed.
End codec.

(** ** An instance of the codec

    Fixed-width integers byte by byte; the values are coded by the generic
    injection of countable types. *)

Definition FixintWincode : Wincode := {|
  fixint e w x := match e with Little => le_bytes w x | Big => reverse (le_bytes w x) end;
  read_fixint e w b :=
    if decide (length b < w) then None
    else Some (le_num (match e with Little => take w b | Big => reverse (take w b) end), drop w b);
  ser_txids := code_of; de_txids := of_code;
  ser_meta := code_of; de_meta := of_code;
  ser_stats := code_of; de_stats := of_code;
  ser_utxos := code_of; de_utxos := of_code;
|}.

Lemma le_bytes_rev_order w x y :
  (0 <= x < 256 ^ Z.of_nat w)%Z -> (0 <= y < 256 ^ Z.of_nat w)%Z ->
  bcmp (reverse (le_bytes w x)) (reverse (le_bytes w y)) = (x ?= y)%Z.
Proof.
  revert x y. induction w as [|w IH]; intros x y Hx Hy.
  { cbn in *. symmetry. apply Z.compare_eq_iff. lia. }
  cbn [le_bytes]. rewrite !reverse_cons, bcmp_app_r
    by (by rewrite !length_reverse, !le_bytes_length).
  rewrite IH by (by apply div256_range). cbn.
  pose proof (Z.div_mod x 256). pose proof (Z.div_mod y 256).
  pose proof (Z.mod_pos_bound x 256). pose proof (Z.mod_pos_bound y 256).
  destruct (Z.compare_spec (x / 256) (y / 256)), (Z.compare_spec (x mod 256) (y mod 256));
    symmetry; rewrite ?Z.compare_eq_iff, ?Z.compare_lt_iff, ?Z.compare_gt_iff; lia.
Qed.

Lemma FixintWincode_laws : @WincodeLaws FixintWincode.
Proof.
  split; intros; cbn -[take drop le_num le_bytes Z.pow].
  - destruct e; by rewrite ?length_reverse, le_bytes_length.
  - rewrite decide_False by (rewrite length_app; destruct e; rewrite ?length_reverse, le_bytes_length; lia).
    rewrite take_app_length', drop_app_length'
      by (destruct e; by rewrite ?length_reverse, le_bytes_length).
    destruct e; by rewrite ?reverse_involutive, le_num_le_bytes.
  - cbn -[take drop le_num Z.pow] in H. case_decide as Hw; [done|]. injection H as <- <-.
    destruct e; [pose proof (le_num_range (take w b)) as Hr
                |pose proof (le_num_range (reverse (take w b))) as Hr];
      rewrite ?length_reverse, length_take in Hr; by rewrite Nat.min_l in Hr by lia.
  - by apply le_bytes_rev_order.
  - apply of_code_code_of.
  - apply of_code_code_of.
  - apply of_code_code_of.
  - apply of_code_code_of.
Qed.

(** The byte layout the unit tests of the source fix. *)
Example prefix_height_layout :
  @prefix_height FixintWincode 72 (hash_repeat 98) 1337 =
  72%Z :: replicate 32 98%Z ++ [0; 0; 5; 57]%Z.
Proof. reflexivity. Qed.
Example history_key_layout :
  @history_key_bytes FixintWincode
    (mkHistoryRow 72 (hash_repeat 1) 2 3 (Spending (hash_repeat 18) 12 (hash_repeat 7) 9 14)) =
  (72 :: replicate 32 1 ++ [0; 0; 0; 2; 0; 3; 0; 0; 0; 0] ++ replicate 32 18 ++ [0; 0; 0; 12]
     ++ replicate 32 7 ++ [0; 0; 0; 9; 0; 0; 0; 0; 0; 0; 0; 14])%Z.
Proof. reflexivity. Qed.

(** ** Properties *)

Section properties.
Context {BL : BitcoinLib} {W : Wincode} {WL : WincodeLaws}.

(** C17: History rows survive the trip through the store, and their byte order in
    the store is the order the scans rely on: rows of one script are ordered by
    height, then by position in the block, with the spends of a transaction before
    its funds. *)
Theorem history_rows_ordered r1 r2 :
  history_in_range r1 -> history_in_range r2 ->
  hk_code r1 = hk_code r2 -> hk_hash r1 = hk_hash r2 ->
  history_from_row (history_into_row r1) = Ok r1 /\
  (hist_before r1 r2 -> bytes_lt (dbr_key (history_into_row r1)) (dbr_key (history_into_row r2))).
Proof.
  intros H1 H2 Hc Hh. split; [by apply history_from_into|]. cbn [dbr_key history_into_row].
  by apply history_key_lt.
Qed.

(** The seek keys of the history scans cut the rows of a script where they
    should: [prefix_height h] is below exactly the rows of height at least [h],
    [prefix_height_end h] is above exactly the rows below [h] and those of [h]
    whose position is not the last [u16] value, and [prefix_end] is above every
    row of a height other than [u32::MAX]. *)
Lemma history_seek_bounds r h :
  history_in_range r -> is_u32 h ->
  let key := dbr_key (history_into_row r) in
  (bytes_le (prefix_height (hk_code r) (hk_hash r) h) key <-> (h <= confirmed_height r)%Z) /\
  (bytes_le key (prefix_height_end (hk_code r) (hk_hash r) h) <->
     (confirmed_height r < h \/ confirmed_height r = h /\ hk_tx_position r < u16_mod - 1)%Z) /\
  (bytes_le key (prefix_end (hk_code r) (hk_hash r)) <-> (confirmed_height r < u32_mod - 1)%Z).
Proof.
  intros Hr Hh. cbv zeta. split; [by apply prefix_height_le|].
  split; [by apply prefix_height_end_le|by apply prefix_end_le].
Qed.

(** A spend edge read back from the store is the edge written, and scanning
    with the filter of an outpoint meets exactly the edges that spend it. *)
Lemma edge_rows_by_outpoint ftxid fvout stxid svin o :
  is_u32 fvout -> is_u32 svin -> is_u32 (op_vout o) ->
  let row := edge_into_row (edge_new ftxid fvout stxid svin) in
  edge_from_row row = Ok (edge_new ftxid fvout stxid svin) /\
  (starts_with (dbr_key row) (edge_filter o) = true <-> o = mkOutPoint ftxid fvout).
Proof.
  intros Hf Hs Ho. cbv zeta. split; [by apply edge_from_into|].
  by rewrite edge_filter_spec.
Qed.
End properties.

(** Two rows of one block of the test layout. *)
Definition ex_spend : TxHistoryRow :=
  mkHistoryRow 72 (hash_repeat 1) 2 3 (Spending (hash_repeat 18) 12 (hash_repeat 7) 9 14).
Definition ex_fund : TxHistoryRow :=
  mkHistoryRow 72 (hash_repeat 1) 2 3 (Funding (hash_repeat 2) 3 7).

Lemma history_rows_ordered_witness :
  @history_from_row FixintWincode (@history_into_row FixintWincode ex_spend) = Ok ex_spend /\
  (hist_before ex_spend ex_fund ->
   bytes_lt (dbr_key (@history_into_row FixintWincode ex_spend))
     (dbr_key (@history_into_row FixintWincode ex_fund))).
Proof.
  refine (@history_rows_ordered FixintWincode FixintWincode_laws ex_spend ex_fund _ _ _ _).
  - split; [|split]; cbn; unfold is_u16, is_u32, is_u64, u16_mod, u32_mod, u64_mod; lia.
  - split; [|split]; cbn; unfold is_u16, is_u32, is_u64, u16_mod, u32_mod, u64_mod; lia.
  - reflexivity.
  - reflexivity.
Defined.

Lemma history_seek_bounds_witness :
  bytes_le (@prefix_height FixintWincode 72 (hash_repeat 1) 2)
    (dbr_key (@history_into_row FixintWincode ex_fund)).
Proof.
  refine (proj2 (proj1 (@history_seek_bounds FixintWincode FixintWincode_laws ex_fund 2 _ _)) _).
  - split; [|split]; cbn; unfold is_u16, is_u32, is_u64, u16_mod, u32_mod, u64_mod; lia.
  - unfold is_u32, u32_mod. lia.
  - cbn. lia.
Defined.

Lemma edge_rows_by_outpoint_witness :
  starts_with
    (dbr_key (@edge_into_row FixintWincode (edge_new (hash_repeat 1) 300 (hash_repeat 2) 5)))
    (@edge_filter FixintWincode (mkOutPoint (hash_repeat 1) 300)) = true.
Proof.
  refine (proj2 (proj2 (@edge_rows_by_outpoint FixintWincode FixintWincode_laws
    (hash_repeat 1) 300 (hash_repeat 2) 5 (mkOutPoint (hash_repeat 1) 300) _ _ _)) eq_refl);
    unfold is_u32, u32_mod; cbn; lia.
Defined.
