(* ===== verification/Fetch.v ===== *)
(** * [new_index/fetch.rs] and the header download of [daemon.rs]

    Blocks come either from bitcoind, in chunks of 100 requested by hash, or,
    for the initial sync, from the [blk*.dat] files of bitcoind, which are
    de-obfuscated, cut at the network magic and matched with the wanted headers.
    bitcoind itself is the record [Daemon] of the replies it gives. *)

From S2P Require Import Prelude Bitcoin HeaderList Rows.

(** The replies of bitcoind during one call of [Indexer::update] or of a query.
    [list_blk_files] is given by the contents of the files. *)
Record Daemon := mkDaemon {
  d_reconnect : result unit;
  d_getbestblockhash : result BlockHash;
  d_block_height : BlockHash -> result nat;
  d_getblockhashes : list nat -> result (list BlockHash);
  d_getblockheader : BlockHash -> result BlockHeader;
  d_getblocks : list BlockHash -> result (list Block);
  d_magic : Z;
  d_list_blk_files : result (list Bytes);
  d_xor_key : option Bytes;
  d_block_txids : BlockHash -> result (list Txid);
  d_block_meta : BlockHash -> result BlockMeta;
  d_block_raw : BlockHash -> result Bytes;
  d_gettransaction_raw : Txid -> BlockHash -> result Bytes;
  d_getmempooltxids : result (gset Txid);
  d_gettransactions : list Txid -> result (list Transaction);
  d_getmempooltx : Txid -> result Transaction;
  d_broadcast : Transaction -> result Txid;
}.

Inductive FetchFrom := Bitcoind | BlkFiles.

Record BlockEntry := mkBlockEntry { be_block : Block; be_entry : HeaderEntry; be_size : Z }.

Section fetch.
Context {BL : BitcoinLib}.

(** ** [daemon.rs]: header download *)

Definition getblockheaders (daemon : Daemon) (heights : list nat) : result (list BlockHeader) :=
  hashes ← d_getblockhashes daemon heights;
  rmap (d_getblockheader daemon) hashes.

(** The [for header in &result] check: every header links to the previous one. *)
Fixpoint check_links (blockhash : BlockHash) (hs : list BlockHeader) : result BlockHash :=
  match hs with
  | [] => Ok blockhash
  | h :: hs =>
      _ ← rassert (bool_decide (prev_blockhash h = blockhash));
      check_links (block_hash h) hs
  end.

Definition header_chunk : nat := Z.to_nat 100000.
Definition get_all_headers (daemon : Daemon) (tip : BlockHash) : result (list BlockHeader) :=
  tip_height ← d_block_height daemon tip;
  batches ← rmap (fun heights =>
      headers ← getblockheaders daemon heights;
      _ ← rassert (bool_decide (length headers = length heights));
      Ok headers) (chunks header_chunk (seq 0 (S tip_height)));
  let result := concat batches in
  blockhash ← check_links null_hash result;
  _ ← rassert (bool_decide (blockhash = tip));
  Ok result.

(** The [while blockhash != null_hash] loop of [get_new_headers].  The daemon
    may answer with any headers, so the loop has no bound of its own and the
    model is given one. *)
Fixpoint new_headers_loop (fuel : nat) (daemon : Daemon) (hl : HeaderList)
    (blockhash : BlockHash) (new_headers : list BlockHeader) : result (list BlockHeader) :=
  match fuel with
  | 0 => Diverge
  | S fuel =>
      if decide (blockhash = null_hash) then Ok new_headers
      else match header_by_blockhash hl blockhash with
      | Some _ => Ok new_headers
      | None =>
          header ← (match d_getblockheader daemon blockhash with
                    | Err _ => Err (Msg "failed to get header")
                    | r => r
                    end);
          new_headers_loop fuel daemon hl (prev_blockhash header) (new_headers ++ [header])
      end
  end.

Definition get_new_headers (fuel : nat) (daemon : Daemon) (hl : HeaderList)
    (bestblockhash : BlockHash) : result (list BlockHeader) :=
  if decide (hl_len hl = 0) then get_all_headers daemon bestblockhash
  else
    new_headers ← new_headers_loop fuel daemon hl bestblockhash [];
    Ok (reverse new_headers).

(** ** Blocks from bitcoind *)

Definition fetch_chunk (daemon : Daemon) (entries : list HeaderEntry) : result (list BlockEntry) :=
  let blockhashes := map he_hash entries in
  blocks ← expect (d_getblocks daemon blockhashes);
  _ ← rassert (bool_decide (length blocks = length entries));
  let block_entries := zip_with (fun block entry =>
        mkBlockEntry block entry (as_u32 (get_block_size block))) blocks entries in
  _ ← rassert (bool_decide (length block_entries = length entries));
  Ok block_entries.

(** The batches the fetcher hands to [map], in order. *)
Definition bitcoind_sequential_fetcher (daemon : Daemon) (new_headers : list HeaderEntry)
    : result (list (list BlockEntry)) :=
  _ ← d_reconnect daemon;
  rmap (fetch_chunk daemon) (chunks 100 new_headers).
Definition bitcoind_fetcher (daemon : Daemon) (new_headers : list HeaderEntry)
    : result (list (list BlockEntry)) :=
  _ ← d_reconnect daemon;
  rmap (fetch_chunk daemon) (chunks 100 new_headers).

(** ** Blocks from the blk files *)

(** [for (&key, byte) in xor_key.iter().cycle().zip(blob.iter_mut()) { *byte ^= key }];
    an empty key cycles to an empty iterator and leaves the blob alone. *)
Definition xor_blob (key : Bytes) (blob : Bytes) : Bytes :=
  imap (fun i byte =>
    match key !! (i mod length key) with Some k => Z.lxor byte k | None => byte end) blob.
Definition blkfiles_reader (xor_key : option Bytes) (files : list Bytes) : list Bytes :=
  match files, xor_key with
  | [], _ => []
  | _, None => files
  | _, Some key => map (xor_blob key) files
  end.

(** [parse_blocks]: the [while] loop over the cursor; the position grows in every
    round, so [S (length blob)] rounds are enough. *)
Fixpoint find_slices (fuel : nat) (blob : Bytes) (magic : Z) (pos : nat)
    (slices : list (Bytes * Z)) : result (list (Bytes * Z)) :=
  match fuel with
  | 0 => Diverge
  | S fuel =>
      if decide (length blob <= pos) then Ok slices
      else match decode_u32 (drop pos blob) with
      | None => Ok slices
      | Some value =>
          if decide (magic <> value) then find_slices fuel blob magic (pos + 1) slices
          else
            block_size ← ok_or (Msg "no block size") (decode_u32 (drop (pos + 4) blob));
            let start := pos + 8 in
            let stop := start + Z.to_nat block_size in
            match decode_u32 (drop start blob) with
            | None => Ok slices
            | Some version =>
                if decide (magic = version) then find_slices fuel blob magic start slices
                else
                  _ ← rassert (bool_decide (stop <= length blob));
                  find_slices fuel blob magic stop
                    (slices ++ [(take (Z.to_nat block_size) (drop start blob), block_size)])
            end
      end
  end.
Definition parse_blocks (blob : Bytes) (magic : Z) : result (list (Block * Z)) :=
  slices ← find_slices (S (length blob)) blob magic 0 [];
  rmap (fun '(slice, size) => b ← unwrap (deserialize_block slice); Ok (b, size)) slices.

Definition blkfiles_parser (blobs : list Bytes) (magic : Z) : result (list (list (Block * Z))) :=
  rmap (fun blob => expect (parse_blocks blob magic)) blobs.

(** The [filter_map] of [blkfiles_fetcher]: blocks whose header is wanted, each
    once, taken out of [entry_map]. *)
Fixpoint match_entries (entry_map : gmap BlockHash HeaderEntry) (blocks : list (Block * Z))
    : gmap BlockHash HeaderEntry * list BlockEntry :=
  match blocks with
  | [] => (entry_map, [])
  | (block, size) :: blocks =>
      let blockhash := block_hash (block_header block) in
      match entry_map !! blockhash with
      | Some entry =>
          let '(m, out) := match_entries (delete blockhash entry_map) blocks in
          (m, mkBlockEntry block entry size :: out)
      | None => match_entries entry_map blocks
      end
  end.
Fixpoint match_files (entry_map : gmap BlockHash HeaderEntry) (files : list (list (Block * Z)))
    : gmap BlockHash HeaderEntry * list (list BlockEntry) :=
  match files with
  | [] => (entry_map, [])
  | sizedblocks :: files =>
      let '(m, out) := match_entries entry_map sizedblocks in
      let '(m', outs) := match_files m files in
      (m', out :: outs)
  end.
Definition entry_map_of (new_headers : list HeaderEntry) : gmap BlockHash HeaderEntry :=
  fold_left (fun m h => <[he_hash h := h]> m) new_headers ∅.
Definition blkfiles_fetcher (daemon : Daemon) (new_headers : list HeaderEntry)
    : result (list (list BlockEntry)) :=
  files ← d_list_blk_files daemon;
  parsed ← blkfiles_parser (blkfiles_reader (d_xor_key daemon) files) (d_magic daemon);
  let '(remaining, batches) := match_files (entry_map_of new_headers) parsed in
  _ ← rassert (bool_decide (remaining = ∅));
  Ok batches.

Definition start_fetcher (from : FetchFrom) (daemon : Daemon) (new_headers : list HeaderEntry)
    : result (list (list BlockEntry)) :=
  match from with
  | Bitcoind => bitcoind_fetcher daemon new_headers
  | BlkFiles => blkfiles_fetcher daemon new_headers
  end.
End fetch.

(** ** Header download *)

Section header_download.
Context {BL : BitcoinLib}.

(** The branch bitcoind is on: its headers [hs] above what is indexed, ascending. *)
Record fresh_branch (daemon : Daemon) (hl : HeaderList) (hs : list BlockHeader)
    (best : BlockHash) : Prop := {
  fb_linked : linked hs;
  fb_served h : h ∈ hs -> d_getblockheader daemon (block_hash h) = Ok h;
  fb_fresh h : h ∈ hs -> block_hash h <> null_hash /\ header_by_blockhash hl (block_hash h) = None;
  fb_best : match last hs with
            | Some h => best = block_hash h
            | None => best = null_hash \/ is_Some (header_by_blockhash hl best)
            end;
  fb_root h : head hs = Some h ->
    prev_blockhash h = null_hash \/ is_Some (header_by_blockhash hl (prev_blockhash h));
}.

Lemma fresh_branch_snoc daemon hl hs h best :
  fresh_branch daemon hl (hs ++ [h]) best ->
  best = block_hash h /\ fresh_branch daemon hl hs (prev_blockhash h).
Proof.
  intros [Hl Hs Hf Hb Hr]. rewrite last_snoc in Hb. split; [done|]. split.
  - intros i a b Ha Hb'. apply (Hl i); by apply lookup_app_l_Some.
  - intros x Hx. apply Hs. set_solver.
  - intros x Hx. apply Hf. set_solver.
  - destruct hs as [|x hs _] using rev_ind; [by apply (Hr h)|].
    rewrite last_snoc. apply (Hl (length hs)).
    + rewrite lookup_app_l; [|rewrite length_app; cbn; lia]. by rewrite list_lookup_middle.
    + rewrite lookup_app_r; rewrite length_app; cbn; [|lia].
      by replace (S (length hs) - (length hs + 1)) with 0 by lia.
  - intros x Hx. apply Hr. by destruct hs.
Qed.

Lemma new_headers_loop_eq daemon hl hs :
  forall fuel best acc, fresh_branch daemon hl hs best -> length hs < fuel ->
  new_headers_loop fuel daemon hl best acc = Ok (acc ++ reverse hs).
Proof.
  induction hs as [|h hs IH] using rev_ind; intros [|fuel] best acc Hb Hf;
    [lia| |rewrite length_app in Hf; cbn in Hf; lia|].
  - cbn. rewrite app_nil_r. case_decide; [done|]. destruct (fb_best _ _ _ _ Hb) as [|[e He]]; [done|].
    by rewrite He.
  - rewrite length_app in Hf. cbn in Hf. pose proof Hb as [Hbest Hb']%fresh_branch_snoc.
    subst best. cbn [new_headers_loop].
    destruct (fb_fresh _ _ _ _ Hb h) as [Hn Hh]; [set_solver|].
    rewrite decide_False, Hh, (fb_served _ _ _ _ Hb) by (done || set_solver).
    cbn -[reverse]. rewrite IH; [|done|lia]. by rewrite <- app_assoc, reverse_snoc.
Qed.

(** A non-empty fresh branch attaches to a well-formed list, so what is
    downloaded can be ordered and applied. *)
Lemma fresh_branch_attaches daemon hl hs best :
  hl_wf hl -> fresh_branch daemon hl hs best -> hs <> [] -> exists n, attaches hl hs n.
Proof.
  intros Hw Hb Hne. destruct hs as [|h0 hs]; [done|].
  destruct (decide (prev_blockhash h0 = null_hash)) as [Hn|Hn].
  - exists 0, h0. split; [done|]. by left.
  - destruct (fb_root _ _ _ _ Hb h0 eq_refl) as [|[e He]]; [done|].
    apply header_by_blockhash_Some in He as [Hin Hh]; [|done].
    exists (S (he_height e)), h0. split; [done|]. right. eauto.
Qed.
End header_download.

(** ** Fetching *)

Section fetching.
Context {BL : BitcoinLib}.

(** bitcoind knows the blocks of the headers. *)
Definition serves (daemon : Daemon) (block_of : BlockHash -> Block) : Prop :=
  d_reconnect daemon = Ok tt /\
  forall hashes, d_getblocks daemon hashes = Ok (map block_of hashes).
Definition entry_block (block_of : BlockHash -> Block) (e : HeaderEntry) : BlockEntry :=
  let b := block_of (he_hash e) in mkBlockEntry b e (as_u32 (get_block_size b)).

Lemma fetch_chunk_blocks daemon block_of entries :
  d_getblocks daemon (map he_hash entries) = Ok (map block_of (map he_hash entries)) ->
  fetch_chunk daemon entries = Ok (map (entry_block block_of) entries).
Proof.
  intros Hs. unfold fetch_chunk. rewrite Hs. cbn [mbind result_bind expect].
  assert (zip_with (fun block entry => mkBlockEntry block entry (as_u32 (get_block_size block)))
    (map block_of (map he_hash entries)) entries = map (entry_block block_of) entries) as ->.
  { clear Hs. induction entries as [|e es IH]; cbn; [done|]. by rewrite IH. }
  rewrite !length_map, !bool_decide_eq_true_2 by done. done.
Qed.
Lemma fetch_chunk_eq daemon block_of entries :
  serves daemon block_of -> fetch_chunk daemon entries = Ok (map (entry_block block_of) entries).
Proof. intros [_ Hs]. apply fetch_chunk_blocks, Hs. Qed.

Lemma bitcoind_fetcher_eq daemon block_of entries :
  serves daemon block_of ->
  bitcoind_fetcher daemon entries = Ok (map (map (entry_block block_of)) (chunks 100 entries)) /\
  bitcoind_sequential_fetcher daemon entries =
    Ok (map (map (entry_block block_of)) (chunks 100 entries)).
Proof.
  intros Hs. unfold bitcoind_fetcher, bitcoind_sequential_fetcher. rewrite (proj1 Hs). cbn.
  split; apply rmap_Ok; intros; by apply fetch_chunk_eq.
Qed.
Lemma fetched_concat {A B} (f : A -> B) (l : list A) :
  concat (map (map f) (chunks 100 l)) = map f l.
Proof. rewrite <- concat_map, chunks_concat by lia. done. Qed.

Lemma xor_blob_involutive key blob : xor_blob key (xor_blob key blob) = blob.
Proof.
  apply list_eq. intros i. unfold xor_blob. rewrite !list_lookup_imap.
  destruct (blob !! i) as [b|]; cbn; [|done]. f_equal.
  destruct (key !! (i mod length key)) as [k|]; [|done].
  by rewrite Z.lxor_assoc, Z.lxor_nilpotent, Z.lxor_0_r.
Qed.
End fetching.

(** ** Parsing blk files *)

Section parsing.
Context {BL : BitcoinLib} {BLaws : BitcoinLaws}.

(** A block as bitcoind writes it: magic, length, block. *)
Definition frame (magic : Z) (b : Block) : Bytes :=
  serialize_u32 magic ++ serialize_u32 (Z.of_nat (length (serialize_block b))) ++ serialize_block b.
Definition framable (magic : Z) (b : Block) : Prop :=
  4 <= length (serialize_block b) /\ is_u32 (Z.of_nat (length (serialize_block b))) /\
  decode_u32 (serialize_block b) <> Some magic.
(** Pre-allocated space at the end of a file: no magic in it. *)
Definition no_magic (magic : Z) (pad : Bytes) : Prop :=
  forall i, decode_u32 (drop i pad) <> Some magic.

Lemma find_slices_total fuel blob magic pos acc :
  length blob - pos < fuel -> find_slices fuel blob magic pos acc <> Diverge.
Proof.
  revert pos acc. induction fuel as [|fuel IH]; intros pos acc Hf; [lia|]. cbn -[drop take].
  case_decide; [done|]. destruct (decode_u32 (drop pos blob)); [|done].
  case_decide; [apply IH; lia|]. destruct (decode_u32 (drop (pos + 4) blob)) as [size|]; [|done].
  cbn -[drop take]. destruct (decode_u32 (drop (pos + 8) blob)); [|done].
  case_decide; [apply IH; lia|]. case_bool_decide; [|done]. apply IH. lia.
Qed.

Lemma drop_pre (pre a : Bytes) : drop (length pre) (pre ++ a) = a.
Proof. by rewrite drop_app_length. Qed.
Lemma drop_pre_add (pre a : Bytes) n : drop (length pre + n) (pre ++ a) = drop n a.
Proof. by rewrite drop_app_add. Qed.

Lemma find_slices_pad fuel pre pad magic acc :
  no_magic magic pad -> length pad < fuel ->
  find_slices fuel (pre ++ pad) magic (length pre) acc = Ok acc.
Proof.
  revert pre fuel. induction pad as [|x pad IH]; intros pre [|fuel] Hn Hf; cbn in Hf; try lia;
    cbn [find_slices].
  - rewrite decide_True; [done|]. rewrite app_nil_r. done.
  - rewrite decide_False by (rewrite length_app; cbn; lia).
    rewrite drop_pre. destruct (decode_u32 (x :: pad)) as [v|] eqn:E; [|done].
    rewrite decide_True by (intros ->; by apply (Hn 0)).
    replace (length pre + 1) with (length (pre ++ [x])) by (rewrite length_app; cbn; lia).
    rewrite cons_middle, app_assoc. apply IH; [|lia]. intros i. apply (Hn (S i)).
Qed.

Lemma find_slices_frame fuel pre b rest magic acc :
  is_u32 magic -> framable magic b ->
  find_slices (S fuel) (pre ++ frame magic b ++ rest) magic (length pre) acc =
  find_slices fuel (pre ++ frame magic b ++ rest) magic (length (pre ++ frame magic b))
    (acc ++ [(serialize_block b, Z.of_nat (length (serialize_block b)))]).
Proof.
  intros Hm (H4 & Hu & Hv).
  assert (length (frame magic b) = 8 + length (serialize_block b)) as Hlen.
  { unfold frame. rewrite !length_app, !serialize_u32_length. lia. }
  cbn [find_slices]. rewrite decide_False by (rewrite !length_app; lia).
  rewrite drop_pre, !drop_pre_add.
  assert (drop 4 (frame magic b ++ rest) = serialize_u32 (Z.of_nat (length (serialize_block b)))
    ++ serialize_block b ++ rest) as H4'.
  { unfold frame. rewrite <- !app_assoc. by rewrite drop_app_length' by (by rewrite serialize_u32_length). }
  assert (drop 8 (frame magic b ++ rest) = serialize_block b ++ rest) as H8.
  { change 8 with (4 + 4). rewrite <- drop_drop, H4'.
    by rewrite drop_app_length' by (by rewrite serialize_u32_length). }
  rewrite H4', H8. unfold frame at 1. rewrite <- !app_assoc, !decode_u32_ser by done.
  rewrite decide_False by (intros []; done). cbn -[drop take].
  rewrite decode_u32_app by done. destruct (decode_u32 (serialize_block b)) as [v|] eqn:E.
  2: { apply decode_u32_eof in E. lia. }
  rewrite decide_False by congruence. rewrite Nat2Z.id.
  rewrite bool_decide_eq_true_2 by (rewrite !length_app; lia). cbn -[drop take].
  rewrite take_app_length. f_equal. rewrite length_app. lia.
Qed.

Lemma find_slices_frames bs : forall fuel pre pad magic acc,
  is_u32 magic -> Forall (framable magic) bs -> no_magic magic pad ->
  length (concat (map (frame magic) bs) ++ pad) < fuel ->
  find_slices fuel (pre ++ concat (map (frame magic) bs) ++ pad) magic (length pre) acc =
  Ok (acc ++ map (fun b => (serialize_block b, Z.of_nat (length (serialize_block b)))) bs).
Proof.
  induction bs as [|b bs IH]; intros fuel pre pad magic acc Hm Hf Hp Hfuel.
  { cbn. rewrite app_nil_r. by apply find_slices_pad. }
  apply Forall_cons in Hf as [Hb Hf]. cbn [map concat] in *. rewrite <- app_assoc in *.
  assert (0 < length (frame magic b)) as Hl.
  { unfold frame. rewrite !length_app, !serialize_u32_length. lia. }
  destruct fuel as [|fuel]; [lia|]. rewrite find_slices_frame by done.
  rewrite (app_assoc pre), IH; [|done..|rewrite length_app in Hfuel; lia].
  by rewrite <- app_assoc.
Qed.
End parsing.

(** ** Matching parsed blocks with the wanted headers *)

Section matching.
Context {BL : BitcoinLib}.
Implicit Types m : gmap BlockHash HeaderEntry.

Definition be_hash (be : BlockEntry) : BlockHash := he_hash (be_entry be).
Definition entries_keyed m : Prop := forall h e, m !! h = Some e -> he_hash e = h.
Definition sizes_from (bs : list (Block * Z)) (be : BlockEntry) : Prop :=
  (be_block be, be_size be) ∈ bs.

(** What matching takes out of the map and what it leaves. *)
Record matched (m m' : gmap BlockHash HeaderEntry) (out : list BlockEntry) : Prop := {
  ma_from be : be ∈ out -> m !! be_hash be = Some (be_entry be) /\
    block_hash (block_header (be_block be)) = be_hash be;
  ma_nodup : NoDup (be_hash <$> out);
  ma_left h : m' !! h = if decide (h ∈ be_hash <$> out) then None else m !! h;
}.

Lemma matched_app m m' m'' o1 o2 :
  matched m m' o1 -> matched m' m'' o2 -> matched m m'' (o1 ++ o2).
Proof.
  intros [F1 N1 L1] [F2 N2 L2].
  assert (forall be, be ∈ o2 -> (be_hash be ∉ (be_hash <$> o1)) /\ m !! be_hash be = Some (be_entry be)) as H2.
  { intros be Hbe. apply F2 in Hbe as [Hbe _]. rewrite L1 in Hbe. by case_decide. }
  split.
  - intros be [Hbe|Hbe]%elem_of_app; [by apply F1|]. split; [by apply H2|by apply F2].
  - rewrite fmap_app. apply NoDup_app. split; [done|]. split; [|done].
    intros h Hh (be & -> & Hbe)%list_elem_of_fmap. by apply (H2 be Hbe).
  - intros h. rewrite L2, L1, fmap_app. repeat case_decide; set_solver.
Qed.

Lemma match_entries_matched m bs :
  entries_keyed m ->
  let '(m', out) := match_entries m bs in
  matched m m' out /\ entries_keyed m' /\ Forall (sizes_from bs) out /\
  forall b sz, (b, sz) ∈ bs -> m' !! block_hash (block_header b) = None.
Proof.
  revert m. induction bs as [|[b sz] bs IH]; intros m Hk; cbn.
  { split; [|split; [done|split; [constructor|set_solver]]]. split; cbn; [set_solver|constructor|].
    intros h. by rewrite decide_False by set_solver. }
  destruct (m !! block_hash (block_header b)) as [e|] eqn:E.
  - specialize (IH (delete (block_hash (block_header b)) m)).
    destruct (match_entries _ bs) as [m' out]. destruct IH as (Hm & Hk' & Hs & Hl).
    { intros h e'. rewrite lookup_delete_Some. intros [_ ?]. by apply Hk. }
    assert (matched m (delete (block_hash (block_header b)) m) [mkBlockEntry b e sz]) as H1.
    { assert (be_hash (mkBlockEntry b e sz) = block_hash (block_header b)) as Hb by (by apply Hk).
      split; [|apply NoDup_singleton|].
      - intros be ->%list_elem_of_singleton. rewrite Hb. done.
      - intros h. cbn -[be_hash]. rewrite Hb. case_decide as Hd.
        + apply list_elem_of_singleton in Hd as ->. apply lookup_delete_eq.
        + apply lookup_delete_ne. set_solver. }
    split; [by apply (matched_app _ _ _ [_] out H1)|]. split; [done|]. split.
    { constructor; [by left|]. eapply Forall_impl; [done|]. intros be Hbe. by right. }
    intros b' sz' [[= -> ->]|Hin]%elem_of_cons; [|by eapply Hl].
    rewrite (ma_left _ _ _ Hm). case_decide; [done|]. apply lookup_delete_eq.
  - specialize (IH m Hk). destruct (match_entries m bs) as [m' out].
    destruct IH as (Hm & Hk' & Hs & Hl). split; [done|]. split; [done|]. split.
    { eapply Forall_impl; [done|]. intros be Hbe. by right. }
    intros b' sz' [[= -> ->]|Hin]%elem_of_cons; [|by eapply Hl].
    rewrite (ma_left _ _ _ Hm). by case_decide.
Qed.

Lemma match_files_matched m files :
  entries_keyed m ->
  let '(m', outs) := match_files m files in
  matched m m' (concat outs) /\ entries_keyed m' /\ Forall (sizes_from (concat files)) (concat outs) /\
  forall b sz, (b, sz) ∈ concat files -> m' !! block_hash (block_header b) = None.
Proof.
  revert m. induction files as [|bs files IH]; intros m Hk; cbn.
  { split; [|split; [done|split; [constructor|set_solver]]]. split; cbn; [set_solver|constructor|].
    intros h. by rewrite decide_False by set_solver. }
  pose proof (match_entries_matched m bs Hk) as H1. destruct (match_entries m bs) as [m1 out].
  destruct H1 as (H1 & Hk1 & Hs1 & Hl1). specialize (IH m1 Hk1).
  destruct (match_files m1 files) as [m2 outs]. destruct IH as (H2 & Hk2 & Hs2 & Hl2).
  split; [by eapply matched_app|]. split; [done|]. split.
  - apply Forall_app. split; (eapply Forall_impl; [done|]); unfold sizes_from; set_solver.
  - intros b sz [Hin|Hin]%elem_of_app; [|by eapply Hl2].
    rewrite (ma_left _ _ _ H2). case_decide; [done|]. by eapply Hl1.
Qed.

Lemma entry_map_lookup (hs : list HeaderEntry) h e :
  NoDup (he_hash <$> hs) -> (entry_map_of hs !! h = Some e) <-> e ∈ hs /\ he_hash e = h.
Proof.
  intros Hn. unfold entry_map_of.
  assert (forall (acc : gmap BlockHash HeaderEntry),
    (forall x, x ∈ hs -> acc !! he_hash x = None) ->
    fold_left (fun m h => <[he_hash h := h]> m) hs acc !! h = Some e <->
      acc !! h = Some e \/ e ∈ hs /\ he_hash e = h) as Hg.
  { induction hs as [|x hs IH]; intros acc Ha; cbn; [set_solver|].
    apply NoDup_cons in Hn as [Hx Hn]. rewrite IH; [|done|].
    - rewrite lookup_insert_Some. split.
      + intros [[[<- <-]|[? ?]]|[? ?]]; set_solver.
      + intros [Hl|[[->|Hin]%elem_of_cons <-]]; [|by left; left|by right].
        left. right. split; [|done]. intros <-. rewrite Ha in Hl; [done|by left].
    - intros y Hy. rewrite lookup_insert_ne; [apply Ha; by right|].
      intros Heq. apply Hx. rewrite Heq. by apply list_elem_of_fmap_2. }
  rewrite Hg by done. set_solver.
Qed.
End matching.

Section whole_files.
Context {BL : BitcoinLib} {BLaws : BitcoinLaws}.

Definition sized (bs : list Block) : list (Block * Z) :=
  map (fun b => (b, Z.of_nat (length (serialize_block b)))) bs.

Lemma parse_blocks_frames bs pad magic :
  is_u32 magic -> Forall (framable magic) bs -> no_magic magic pad ->
  parse_blocks (concat (map (frame magic) bs) ++ pad) magic = Ok (sized bs).
Proof.
  intros Hm Hb Hp. unfold parse_blocks.
  pose proof (find_slices_frames bs (S (length (concat (map (frame magic) bs) ++ pad))) [] pad
    magic [] Hm Hb Hp ltac:(lia)) as Hf.
  cbn [length] in Hf. rewrite !app_nil_l in Hf. rewrite Hf. cbn [mbind result_bind].
  clear -BLaws. induction bs as [|b bs IH]; [done|]. cbn [map rmap].
  rewrite de_ser_block. cbn -[rmap]. by rewrite IH.
Qed.

Lemma blkfiles_parser_frames key magic (files : list (list Block * Bytes)) :
  is_u32 magic ->
  Forall (fun '(bs, pad) => Forall (framable magic) bs /\ no_magic magic pad) files ->
  blkfiles_parser (blkfiles_reader (Some key) (map (fun '(bs, pad) =>
    xor_blob key (concat (map (frame magic) bs) ++ pad)) files)) magic
  = Ok (map (fun f => sized f.1) files).
Proof.
  intros Hm Hok. unfold blkfiles_parser.
  assert (forall fs, blkfiles_reader (Some key) fs = map (xor_blob key) fs) as -> by (by intros []).
  induction Hok as [|[bs pad] fl [Hb Hp] Hok IH]; [done|].
  cbn [map rmap]. rewrite xor_blob_involutive, parse_blocks_frames by done.
  cbn [expect mbind result_bind]. by rewrite IH.
Qed.

Lemma match_files_complete entries files :
  NoDup (he_hash <$> entries) ->
  (forall e, e ∈ entries -> exists b sz, (b, sz) ∈ concat files /\
     block_hash (block_header b) = he_hash e) ->
  exists outs, match_files (entry_map_of entries) files = (∅, outs) /\
    be_entry <$> concat outs ≡ₚ entries /\
    forall be, be ∈ concat outs ->
      block_hash (block_header (be_block be)) = be_hash be /\ sizes_from (concat files) be.
Proof.
  intros Hn Hhave. assert (entries_keyed (entry_map_of entries)) as Hk.
  { intros h e He. by apply entry_map_lookup in He as [_ ?]. }
  pose proof (match_files_matched _ files Hk) as HM.
  destruct (match_files _ _) as [m' outs]. destruct HM as (HM & _ & Hsz & Hl).
  assert (m' = ∅) as ->.
  { apply map_empty. intros h. destruct (m' !! h) as [e|] eqn:E; [|done]. exfalso.
    pose proof E as E'. rewrite (ma_left _ _ _ HM) in E. case_decide as Hd; [done|].
    apply entry_map_lookup in E as [He <-]; [|done]. destruct (Hhave e He) as (b & sz & Hb & Hbh).
    rewrite <- Hbh, (Hl b sz) in E'; done. }
  exists outs. split; [done|]. split.
  2: { intros be Hbe. split; [by apply (ma_from _ _ _ HM)|]. rewrite Forall_forall in Hsz. auto. }
  apply NoDup_Permutation.
  - apply (NoDup_fmap_1 he_hash). rewrite <- list_fmap_compose. apply HM.
  - by apply NoDup_fmap_1 in Hn.
  - intros e. split.
    + intros (be & -> & Hbe)%list_elem_of_fmap. apply (ma_from _ _ _ HM) in Hbe as [Hbe _].
      by apply entry_map_lookup in Hbe as [? _].
    + intros He. pose proof (ma_left _ _ _ HM (he_hash e)) as Hleft. rewrite lookup_empty in Hleft.
      assert (entry_map_of entries !! he_hash e = Some e) as Hee by (by apply entry_map_lookup).
      case_decide as Hd; [|congruence]. apply list_elem_of_fmap in Hd as (be & Hbe & Hin).
      pose proof (ma_from _ _ _ HM be Hin) as [Hfrom _]. rewrite <- Hbe, Hee in Hfrom.
      apply list_elem_of_fmap. exists be. by simplify_eq.
Qed.
End whole_files.

(** ** Properties *)

Section properties.
Context {BL : BitcoinLib} {BLaws : BitcoinLaws}.

(** With headers indexed, [get_new_headers] returns the headers of bitcoind's
    branch above the indexed chain in ascending order, after one request per
    header, and the result attaches to the chain when there is one. *)
Lemma get_new_headers_branch fuel daemon hl hs best :
  hl_wf hl -> headers hl <> [] -> fresh_branch daemon hl hs best -> length hs < fuel ->
  get_new_headers fuel daemon hl best = Ok hs /\
  (hs = [] \/ linked hs /\ exists n, attaches hl hs n).
Proof.
  intros Hw Hne Hb Hf. split.
  - unfold get_new_headers, hl_len. rewrite decide_False by (by destruct (headers hl)).
    rewrite (new_headers_loop_eq _ _ hs) by done. cbn -[reverse]. by rewrite reverse_involutive.
  - destruct (decide (hs = [])); [by left|right]. split; [apply Hb|].
    by eapply fresh_branch_attaches.
Qed.

(** From bitcoind, both fetchers deliver every requested block exactly once,
    paired with its header entry, in the order requested. *)
Lemma bitcoind_fetcher_in_order daemon block_of entries :
  serves daemon block_of ->
  exists batches, start_fetcher Bitcoind daemon entries = Ok batches /\
    bitcoind_sequential_fetcher daemon entries = Ok batches /\
    concat batches = map (entry_block block_of) entries /\ Forall (fun b => b <> []) batches.
Proof.
  intros Hs. destruct (bitcoind_fetcher_eq daemon block_of entries Hs) as [H1 H2].
  eexists. split; [apply H1|]. split; [done|]. split; [apply fetched_concat|].
  apply Forall_forall. intros x Hx. change (map ?f ?l) with (f <$> l) in Hx.
  apply list_elem_of_fmap in Hx as (c & -> & Hc). apply chunks_nonempty in Hc; [|lia].
  by destruct c.
Qed.

(** [parse_blocks] terminates on every blob: it never uses up its bound of
    one round per byte. *)
Lemma parse_blocks_terminates blob magic : parse_blocks blob magic <> Diverge.
Proof.
  unfold parse_blocks. pose proof (find_slices_total (S (length blob)) blob magic 0 []) as Ht.
  destruct (find_slices _ blob magic 0 []) as [sl|e| |]; cbn; try done; [|exfalso; apply Ht; [lia|done]].
  clear Ht. induction sl as [|[s z] sl IH]; cbn; [done|].
  destruct (deserialize_block s); cbn; [|done]. by destruct (rmap _ sl).
Qed.

(** C19: The initial sync reads back what bitcoind wrote: from files of framed
    blocks with padding, obfuscated with the [xor.dat] key, the fetcher delivers
    every wanted header exactly once, each with a block of that hash and the size
    recorded in the file. *)
Theorem blkfiles_fetcher_delivers daemon key files entries :
  is_u32 (d_magic daemon) -> d_xor_key daemon = Some key ->
  d_list_blk_files daemon = Ok (map (fun '(bs, pad) =>
    xor_blob key (concat (map (frame (d_magic daemon)) bs) ++ pad)) files) ->
  Forall (fun '(bs, pad) => Forall (framable (d_magic daemon)) bs /\ no_magic (d_magic daemon) pad) files ->
  NoDup (he_hash <$> entries) ->
  (forall e, e ∈ entries -> exists b, b ∈ concat (map fst files) /\
     block_hash (block_header b) = he_hash e) ->
  exists batches, start_fetcher BlkFiles daemon entries = Ok batches /\
    be_entry <$> concat batches ≡ₚ entries /\
    forall be, be ∈ concat batches -> block_hash (block_header (be_block be)) = be_hash be /\
      be_size be = Z.of_nat (length (serialize_block (be_block be))).
Proof.
  intros Hm Hkey Hfiles Hok Hn Hhave. unfold start_fetcher, blkfiles_fetcher.
  rewrite Hfiles, Hkey. cbn [mbind result_bind].
  rewrite blkfiles_parser_frames by done. cbn [mbind result_bind].
  destruct (match_files_complete entries (map (fun f => sized f.1) files))
    as (outs & -> & Hp & Hs); [done| |].
  { intros e He. destruct (Hhave e He) as (b & Hb & Hbh).
    exists b, (Z.of_nat (length (serialize_block b))). split; [|done].
    apply elem_of_concat in Hb as (bs & Hbs & Hb). change (map ?f ?l) with (f <$> l) in Hbs.
    apply list_elem_of_fmap in Hbs as ([bs' pad] & -> & Hf). apply elem_of_concat.
    exists (sized bs'). split; [|by apply (list_elem_of_fmap_2 (fun b => (b, Z.of_nat (length (serialize_block b)))))].
    by apply (list_elem_of_fmap_2 (fun f => sized f.1) files (bs', pad)). }
  rewrite bool_decide_eq_true_2 by done. eexists. split; [done|]. split; [done|].
  intros be Hbe. destruct (Hs be Hbe) as [Hh Hz]. split; [done|]. unfold sizes_from in Hz.
  apply elem_of_concat in Hz as (bs & Hbs & Hb). change (map ?f ?l) with (f <$> l) in Hbs.
  apply list_elem_of_fmap in Hbs as ([bs' pad] & -> & _). cbn in Hb. unfold sized in Hb.
  change (map ?f ?l) with (f <$> l) in Hb. apply list_elem_of_fmap in Hb as (b & Hb & _).
  by injection Hb as -> ->.
Qed.
End properties.

(** ** Evaluation on the example chain *)

(** A daemon on the fork branch of [ex_fork], with its blocks in one blk file. *)
Definition ex_coinbase (id : Z) (spk : Script) : Transaction :=
  mkTx 2 id [mkTxIn (mkOutPoint null_hash (u32_mod - 1)) [] 0 []] [mkTxOut 50 spk].
Definition ex_spend_tx (id from : Z) (outs : list TxOut) : Transaction :=
  mkTx 2 id [mkTxIn (mkOutPoint (pack_hash from) 0) [] 0 []] outs.
(** Block 3 of the main branch and block 4 of the fork spend the genesis output. *)
Definition ex_txs (n : Z) : list Transaction :=
  ex_coinbase (100 + n) [118; n]%Z ::
  (if decide (n = 3)%Z then [ex_spend_tx 203 101 [mkTxOut 30 [118; 1]%Z; mkTxOut 20 [118; 9]%Z]] else
   if decide (n = 4)%Z then [ex_spend_tx 204 101 [mkTxOut 50 [118; 2]%Z]] else []).
Definition ex_block (h : BlockHeader) : Block := mkBlock h (ex_txs (nonce h)).
Definition ex_magic : Z := 16909060.
Definition ex_key : Bytes := [7; 11; 13]%Z.
Definition ex_daemon : Daemon := {|
  d_reconnect := Ok tt;
  d_getbestblockhash := Ok (pack_hash 6);
  d_block_height _ := Err (Msg "no block");
  d_getblockhashes _ := Err (Msg "no block");
  d_getblockheader h :=
    match filter (fun x => @block_hash ExampleLib x = h) (ex_main ++ ex_fork) with
    | x :: _ => Ok x | [] => Err (Msg "no block")
    end;
  d_getblocks hs := Ok (map (fun h =>
    match filter (fun x => @block_hash ExampleLib x = h) (ex_main ++ ex_fork) with
    | x :: _ => ex_block x | [] => ex_block ex_genesis
    end) hs);
  d_magic := ex_magic;
  d_list_blk_files := Ok [xor_blob ex_key
    (concat (map (@frame ExampleLib ex_magic) (map ex_block (ex_main ++ ex_fork))) ++ replicate 9 0%Z)];
  d_xor_key := Some ex_key;
  d_block_txids _ := Err (Msg "no block");
  d_block_meta _ := Err (Msg "no block");
  d_block_raw _ := Err (Msg "no block");
  d_gettransaction_raw _ _ := Err (Msg "no tx");
  d_getmempooltxids := Ok ∅;
  d_gettransactions _ := Ok [];
  d_getmempooltx _ := Err (Msg "no tx");
  d_broadcast _ := Err (Msg "no tx");
|}.

Lemma get_new_headers_branch_witness :
  @get_new_headers ExampleLib 10 ex_daemon ex_hl (pack_hash 6) = Ok ex_fork /\
  (ex_fork = [] \/ @linked ExampleLib ex_fork /\ exists n, attaches ex_hl ex_fork n).
Proof.
  refine (@get_new_headers_branch ExampleLib 10 ex_daemon ex_hl ex_fork (pack_hash 6) _ _ _ _).
  - apply hl_reachable_wf, ex_hl_reachable.
  - vm_compute. congruence.
  - split.
    + intros [|[|[|i]]] h h' Hh Hh'; cbn in Hh, Hh'; simplify_eq; reflexivity.
    + intros h [i Hi]%list_elem_of_lookup.
      destruct i as [|[|[|i]]]; cbn in Hi; simplify_eq; vm_compute; reflexivity.
    + intros h [i Hi]%list_elem_of_lookup.
      destruct i as [|[|[|i]]]; cbn in Hi; simplify_eq; split; vm_compute; congruence.
    + reflexivity.
    + intros h [= <-]. right. vm_compute. eauto.
  - cbn. lia.
Defined.

Lemma bitcoind_fetcher_in_order_witness :
  exists batches, @start_fetcher ExampleLib Bitcoind ex_daemon (headers ex_forked) = Ok batches /\
    @bitcoind_sequential_fetcher ExampleLib ex_daemon (headers ex_forked) = Ok batches /\
    concat batches = map (@entry_block ExampleLib (fun h =>
      match filter (fun x => @block_hash ExampleLib x = h) (ex_main ++ ex_fork) with
      | x :: _ => ex_block x | [] => ex_block ex_genesis
      end)) (headers ex_forked) /\
    Forall (fun b => b <> []) batches.
Proof. refine (@bitcoind_fetcher_in_order ExampleLib ex_daemon _ _ _). split; reflexivity. Defined.

Lemma blkfiles_fetcher_delivers_witness :
  exists batches, @start_fetcher ExampleLib BlkFiles ex_daemon (headers ex_forked) = Ok batches /\
    be_entry <$> concat batches ≡ₚ headers ex_forked /\
    forall be, be ∈ concat batches ->
      @block_hash ExampleLib (block_header (be_block be)) = be_hash be /\
      be_size be = Z.of_nat (length (@serialize_block ExampleLib (be_block be))).
Proof.
  refine (@blkfiles_fetcher_delivers ExampleLib ExampleLib_laws ex_daemon ex_key
    [(map ex_block (ex_main ++ ex_fork), replicate 9 0%Z)] (headers ex_forked) _ _ _ _ _ _).
  - unfold is_u32, u32_mod; cbn; unfold ex_magic; lia.
  - reflexivity.
  - reflexivity.
  - apply Forall_singleton. split.
    + unfold framable, is_u32. vm_decide.
    + intros i. do 10 (destruct i as [|i]; [vm_compute; congruence|]).
      rewrite drop_ge by (cbn; lia). vm_compute. congruence.
  - vm_decide.
  - intros e [i Hi]%list_elem_of_lookup.
    exists (ex_block (he_header e)).
    destruct i as [|[|[|[|i]]]]; vm_compute in Hi; simplify_eq; split; try reflexivity; vm_decide.
Defined.
