(* ===== verification/Indexer.v ===== *)
(** * The indexer of [new_index/schema.rs]

    [Store] is the three databases with the in-memory sets and the header list;
    [add] and [index] write or delete the rows of a batch of blocks, [reorg]
    rolls blocks back, [update] brings the store to bitcoind's tip. *)

From S2P Require Import Prelude RocksDB DB Bitcoin HeaderList Rows Fetch.

(** ** State *)

Record IndexerConfig := mkConfig {
  light_mode : bool; address_search : bool; index_unspendables : bool; network : Network }.

Inductive Operation := AddBlocks | DeleteBlocks | DeleteBlocksWithHistory.
#[export] Instance Operation_eq_dec : EqDecision Operation.
Proof. solve_decision. Defined.

Inductive DBFlush := Disable | Enable.

Record Store (D : Type) := mkStore {
  txstore_db : D; history_db : D; cache_db : D;
  added_blockhashes : gset BlockHash;
  indexed_blockhashes : gset BlockHash;
  indexed_headers : HeaderList }.
Arguments mkStore {D} _ _ _ _ _ _.
Arguments txstore_db {D} _. Arguments history_db {D} _. Arguments cache_db {D} _.
Arguments added_blockhashes {D} _. Arguments indexed_blockhashes {D} _.
Arguments indexed_headers {D} _.

Record Indexer (D : Type) := mkIndexer {
  ix_store : Store D; ix_flush : DBFlush; ix_from : FetchFrom; ix_config : IndexerConfig }.
Arguments mkIndexer {D} _ _ _ _.
Arguments ix_store {D} _. Arguments ix_flush {D} _. Arguments ix_from {D} _.
Arguments ix_config {D} _.

Definition key_t : Bytes := [116%Z].
Definition key_F : Bytes := [70%Z].

Section setters.
Context {D : Type}.
Definition set_txstore (s : Store D) (d : D) : Store D :=
  mkStore d (history_db s) (cache_db s) (added_blockhashes s) (indexed_blockhashes s) (indexed_headers s).
Definition set_history (s : Store D) (d : D) : Store D :=
  mkStore (txstore_db s) d (cache_db s) (added_blockhashes s) (indexed_blockhashes s) (indexed_headers s).
Definition set_cache (s : Store D) (d : D) : Store D :=
  mkStore (txstore_db s) (history_db s) d (added_blockhashes s) (indexed_blockhashes s) (indexed_headers s).
Definition set_added (s : Store D) (a : gset BlockHash) : Store D :=
  mkStore (txstore_db s) (history_db s) (cache_db s) a (indexed_blockhashes s) (indexed_headers s).
Definition set_headers (s : Store D) (hl : HeaderList) : Store D :=
  mkStore (txstore_db s) (history_db s) (cache_db s) (added_blockhashes s) (indexed_blockhashes s) hl.
Definition with_store (ix : Indexer D) (s : Store D) : Indexer D :=
  mkIndexer s (ix_flush ix) (ix_from ix) (ix_config ix).
End setters.

Section indexer.
Context {D : Type} {RDB : RocksDB D} {BL : BitcoinLib} {W : Wincode}.

(** ** Rows of a batch of blocks *)

Definition add_transaction (tx : Transaction) (blockhash : FullHash) (iconfig : IndexerConfig)
    : list DBRow :=
  let txid := get_txid tx in
  [conf_into_row (conf_new tx blockhash)]
  ++ (if light_mode iconfig then [] else [tx_row tx])
  ++ concat (map (fun '(txo_index, txo) =>
       if is_spendable txo then [txout_row txid txo_index txo] else [])
       (enumerate (tx_output tx))).

Definition BlockMeta_from (b : BlockEntry) : BlockMeta :=
  mkBlockMeta (as_u32 (Z.of_nat (length (txdata (be_block b))))) (be_size b)
    (as_u32 (block_weight (be_block b))).

Definition add_block (iconfig : IndexerConfig) (b : BlockEntry) : list DBRow :=
  let blockhash := he_hash (be_entry b) in
  let txids := map get_txid (txdata (be_block b)) in
  concat (map (fun tx => add_transaction tx blockhash iconfig) (txdata (be_block b)))
  ++ (if light_mode iconfig then [] else
        [block_into_row (block_row_txids blockhash txids);
         block_into_row (block_row_meta blockhash (BlockMeta_from b))])
  ++ [block_into_row (block_row_header blockhash (block_header (be_block b)));
      block_into_row (block_row_done blockhash)].
Definition add_blocks (block_entries : list BlockEntry) (iconfig : IndexerConfig) : list DBRow :=
  concat (map (add_block iconfig) block_entries).

Definition tx_previous_outputs (tx : Transaction) : list OutPoint :=
  map previous_output (filter (fun txin => has_prevout txin = true) (tx_input tx)).
Definition get_previous_txos (block_entries : list BlockEntry) : gset OutPoint :=
  list_to_set (concat (map tx_previous_outputs
    (concat (map (fun b => txdata (be_block b)) block_entries)))).

Definition lookup_txo (txstore : D) (outpoint : OutPoint) : result (option TxOut) :=
  match db_get txstore (txout_key outpoint) with
  | None => Ok None
  | Some val => txo ← unwrap (deserialize_txout val); Ok (Some txo)
  end.

(** [lookup_txos] and [lookup_txos_sequential] differ in the thread pool only. *)
Definition lookup_txos (txstore : D) (outpoints : gset OutPoint) (allow_missing : bool)
    : result (gmap OutPoint TxOut) :=
  found ← rmap (fun outpoint =>
      r ← lookup_txo txstore outpoint;
      match r with
      | Some txo => Ok (Some (outpoint, txo))
      | None => if allow_missing then Ok None else Panic
      end) (elements outpoints);
  Ok (list_to_map (omap id found)).

(** The rows of one transaction, and the script hashes sent to the channel of
    [DeleteBlocksWithHistory]. *)
Definition index_output (height tx_position : Z) (txid : Txid) (iconfig : IndexerConfig)
    (o : nat * TxOut) : list DBRow * list FullHash :=
  let '(txo_index, txo) := o in
  if is_spendable txo || index_unspendables iconfig then
    let history := history_new (script_pubkey txo) height tx_position
      (Funding txid (as_u32 (Z.of_nat txo_index)) (txo_value txo)) in
    (history_into_row history ::
       (if address_search iconfig then
          match addr_search_row (script_pubkey txo) (network iconfig) with
          | Some row => [row] | None => [] end
        else []),
     [hk_hash history])
  else ([], []).

Definition index_input (height tx_position : Z) (txid : Txid)
    (previous_txos_map : gmap OutPoint TxOut) (i : nat * TxIn)
    : result (list DBRow * list FullHash) :=
  let '(txi_index, txi) := i in
  if negb (has_prevout txi) then Ok ([], [])
  else
    prev_txo ← unwrap (previous_txos_map !! previous_output txi);
    let prev := previous_output txi in
    let vin := as_u32 (Z.of_nat txi_index) in
    let history := history_new (script_pubkey prev_txo) height tx_position
      (Spending txid vin (op_txid prev) (op_vout prev) (txo_value prev_txo)) in
    let edge := edge_new (op_txid prev) (op_vout prev) txid vin in
    Ok ([history_into_row history; edge_into_row edge], [hk_hash history]).

Definition index_transaction (tx : Transaction) (height tx_position : Z)
    (previous_txos_map : gmap OutPoint TxOut) (iconfig : IndexerConfig)
    : result (list DBRow * list FullHash) :=
  let txid := get_txid tx in
  let outs := map (index_output height tx_position txid iconfig) (enumerate (tx_output tx)) in
  ins ← rmap (index_input height tx_position txid previous_txos_map) (enumerate (tx_input tx));
  Ok (concat (map fst outs) ++ concat (map fst ins), concat (map snd outs) ++ concat (map snd ins)).

Definition index_block (previous_txos_map : gmap OutPoint TxOut) (iconfig : IndexerConfig)
    (b : BlockEntry) : result (list DBRow * list FullHash) :=
  let height := as_u32 (Z.of_nat (he_height (be_entry b))) in
  txs ← rmap (fun '(idx, tx) =>
      index_transaction tx height (as_u16 (Z.of_nat idx)) previous_txos_map iconfig)
    (enumerate (txdata (be_block b)));
  Ok (concat (map fst txs) ++ [block_into_row (block_row_done (he_hash (be_entry b)))],
      concat (map snd txs)).
Definition index_blocks (block_entries : list BlockEntry) (previous_txos_map : gmap OutPoint TxOut)
    (iconfig : IndexerConfig) : result (list DBRow * list FullHash) :=
  r ← rmap (index_block previous_txos_map iconfig) block_entries;
  Ok (concat (map fst r), concat (map snd r)).

(** ** [Indexer::add], [Indexer::index] *)

Definition batch_hashes (blocks : list BlockEntry) : gset BlockHash :=
  list_to_set (map (fun b => he_hash (be_entry b)) blocks).

Definition ix_add (iconfig : IndexerConfig) (op : Operation) (blocks : list BlockEntry)
    (s : Store D) : Store D :=
  let rows := add_blocks blocks iconfig in
  match op with
  | AddBlocks =>
      set_added (set_txstore s (db_write (txstore_db s) rows))
        (added_blockhashes s ∪ batch_hashes blocks)
  | _ =>
      set_added (set_txstore s (db_delete (txstore_db s) (map dbr_key rows)))
        (added_blockhashes s ∖ batch_hashes blocks)
  end.

(** Returns the script hashes sent to the channel of the operation. *)
Definition ix_index (iconfig : IndexerConfig) (op : Operation) (blocks : list BlockEntry)
    (s : Store D) : result (Store D * list FullHash) :=
  previous_txos_map ← lookup_txos (txstore_db s) (get_previous_txos blocks) false;
  _ ← (match op with
       | AddBlocks => rassert (forallb (fun b =>
            bool_decide (he_hash (be_entry b) ∈ added_blockhashes s)) blocks)
       | _ => Ok tt
       end);
  r ← index_blocks blocks previous_txos_map iconfig;
  let '(rows, scripts) := r in
  match op with
  | AddBlocks => Ok (set_history s (db_write (history_db s) rows), [])
  | DeleteBlocks => Ok (set_history s (db_delete (history_db s) (map dbr_key rows)), [])
  | DeleteBlocksWithHistory =>
      Ok (set_history s (db_delete (history_db s) (map dbr_key rows)), scripts)
  end.

(** [fetcher.map(|blocks| self.index(&blocks, op))] *)
Fixpoint index_batches (iconfig : IndexerConfig) (op : Operation)
    (batches : list (list BlockEntry)) (s : Store D) : result (Store D * list FullHash) :=
  match batches with
  | [] => Ok (s, [])
  | blocks :: rest =>
      r ← ix_index iconfig op blocks s;
      r' ← index_batches iconfig op rest r.1;
      Ok (r'.1, r.2 ++ r'.2)
  end.
Definition add_batches (iconfig : IndexerConfig) (op : Operation)
    (batches : list (list BlockEntry)) (s : Store D) : Store D :=
  fold_left (fun s blocks => ix_add iconfig op blocks s) batches s.

Definition headers_to_add (s : Store D) (new_headers : list HeaderEntry) : list HeaderEntry :=
  filter (fun e => he_hash e ∉ added_blockhashes s) new_headers.
Definition headers_to_index (s : Store D) (new_headers : list HeaderEntry) : list HeaderEntry :=
  filter (fun e => he_hash e ∉ indexed_blockhashes s) new_headers.

(** ** [Indexer::reorg], [Indexer::update] *)

Definition invalidate_scripts (cache : D) (scripts : list FullHash) : D :=
  fold_left (fun c script => db_delete c [stats_cache_key script; utxo_cache_key script])
    (elements (list_to_set scripts : gset FullHash)) cache.

Definition ix_reorg (daemon : Daemon) (iconfig : IndexerConfig) (reorged : list HeaderEntry)
    : SR (Store D) unit :=
  batches ← lift (bitcoind_sequential_fetcher daemon reorged);
  scripts ← (fun s => match index_batches iconfig DeleteBlocksWithHistory batches s with
                      | Ok (s', scripts) => (s', Ok scripts)
                      | Err e => (s, Err e) | Panic => (s, Panic) | Diverge => (s, Diverge)
                      end);
  batches' ← lift (bitcoind_sequential_fetcher daemon reorged);
  _ ← modify (add_batches iconfig DeleteBlocks batches');
  modify (fun s => set_cache s (invalidate_scripts (cache_db s) scripts)).

(** Compaction does not change the contents; the marker row does. *)
Definition start_auto_compactions (db : D) : result D :=
  match db_get db key_F with
  | Some _ => Ok db
  | None =>
      let db' := db_put_sync db key_F [] in
      _ ← rassert (bool_decide (is_Some (db_get db' key_F))); Ok db'
  end.

(** The chain tip row [t]. *)
Definition put_tip (s : Store D) (tip : BlockHash) : Store D :=
  set_txstore s (db_put_sync (txstore_db s) key_t (as_bytes tip)).
Definition rollback_tip (s : Store D) (tip : option BlockHash) : Store D :=
  match tip with
  | Some rb_tip => put_tip s rb_tip
  | None => set_txstore s (db_delete (txstore_db s) [key_t])
  end.

(** The part of [update] that works on the store, in its three stages: undo the
    blocks above the fork point, write the new blocks, and around them the header
    list. *)
Definition roll_back (daemon : Daemon) (iconfig : IndexerConfig) (reorged : list HeaderEntry)
    (rb_tip : option BlockHash) : SR (Store D) unit :=
  if decide (reorged = []) then mret tt
  else
    _ ← modify (fun s => rollback_tip s rb_tip);
    ix_reorg daemon iconfig reorged.

Definition roll_forward (daemon : Daemon) (from : FetchFrom) (iconfig : IndexerConfig)
    (new_headers : list HeaderEntry) (tip : BlockHash) : SR (Store D) unit :=
  to_add ← gets (fun s => headers_to_add s new_headers);
  add_b ← lift (start_fetcher from daemon to_add);
  _ ← modify (add_batches iconfig AddBlocks add_b);
  txs ← gets txstore_db; txs' ← lift (start_auto_compactions txs);
  _ ← modify (fun s => set_txstore s txs');
  to_index ← gets (fun s => headers_to_index s new_headers);
  index_b ← lift (start_fetcher from daemon to_index);
  _ ← (fun s => match index_batches iconfig AddBlocks index_b s with
                | Ok (s', _) => (s', Ok tt)
                | Err e => (s, Err e) | Panic => (s, Panic) | Diverge => (s, Diverge)
                end);
  h ← gets history_db; h' ← lift (start_auto_compactions h);
  _ ← modify (fun s => set_history s h');
  c ← gets cache_db; c' ← lift (start_auto_compactions c);
  _ ← modify (fun s => set_cache s c');
  modify (fun s => put_tip s tip).

Definition update_store (fuel : nat) (daemon : Daemon) (from : FetchFrom) (iconfig : IndexerConfig)
    : SR (Store D) BlockHash :=
  _ ← lift (d_reconnect daemon);
  tip ← lift (d_getbestblockhash daemon);
  headers ← gets indexed_headers;
  downloaded ← lift (get_new_headers fuel daemon headers tip);
  new_headers ← lift (hl_order headers downloaded);
  applied ← lift (hl_apply headers new_headers);
  let '(headers', (reorged, rb_tip)) := applied in
  _ ← modify (fun s => set_headers s headers');
  new_tip ← lift (hl_tip headers');
  _ ← lift (rassert (bool_decide (tip = new_tip)));
  _ ← roll_back daemon iconfig reorged rb_tip;
  _ ← roll_forward daemon from iconfig new_headers tip;
  mret tip.

Definition ix_update (fuel : nat) (daemon : Daemon) : SR (Indexer D) BlockHash := fun ix =>
  match update_store fuel daemon (ix_from ix) (ix_config ix) (ix_store ix) with
  | (s, Ok tip) => (mkIndexer s Enable Bitcoind (ix_config ix), Ok tip)
  | (s, r) => (with_store ix s, r)
  end.

(** ** [Store::open] *)

Definition load_blockhashes (db : D) (prefix : Bytes) : result (gset BlockHash) :=
  rows ← rmap block_from_row (scan_rows (iter_scan db prefix));
  Ok (list_to_set (map bk_hash rows)).
Definition load_blockheaders (db : D) : result (gmap BlockHash BlockHeader) :=
  pairs ← rmap (fun row =>
      r ← block_from_row row; h ← unwrap (deserialize_header (bk_value r)); Ok (bk_hash r, h))
    (scan_rows (iter_scan db header_filter));
  Ok (list_to_map pairs).
Definition store_open (txstore history cache : D) (light : bool) : result (Store D) :=
  txstore ← verify_compatibility txstore light;
  added ← load_blockhashes txstore done_filter;
  history ← verify_compatibility history light;
  indexed ← load_blockhashes history done_filter;
  cache ← verify_compatibility cache light;
  headers ← (match db_get txstore key_t with
             | Some bytes =>
                 tip ← unwrap (mk_hash bytes);
                 headers_map ← load_blockheaders txstore;
                 hl_new headers_map tip
             | None => Ok hl_empty
             end);
  Ok (mkStore txstore history cache added indexed headers).
Definition done_initial_sync (s : Store D) : bool := bool_decide (is_Some (db_get (txstore_db s) key_t)).
End indexer.
