(* ===== verification/IndexerSync.v ===== *)
(** * The indexer keeps the databases in step with the best chain

    [synced] is the contract of the store: the transaction store and the history
    store, its address-search rows apart, hold exactly the rows of the blocks of the best
    chain.  The theorems show what adding, indexing and rolling back batches of blocks do
    to it and to the address-search rows, that [update] moves the store from the old best
    chain to the new one but for the blocks found indexed at start-up, and that such
    blocks, rolled back and returned to, are left without history. *)

From S2P Require Import Prelude RocksDB DB Bitcoin HeaderList Rows Fetch Indexer.

(** ** Databases that hold a set of rows *)

Section holds.
Context {D : Type} {RDB : RocksDB D} {RDBL : RocksDBLaws D}.

(** For the keys in [P], the database holds the rows [R] and nothing else. *)
Definition db_holds (P : Bytes -> Prop) (db : D) (R : DBRow -> Prop) : Prop :=
  forall k v, P k -> rdb_get db k = Some v <-> R (mkDBRow k v).

Definition functional (R : DBRow -> Prop) : Prop :=
  forall r r', R r -> R r' -> dbr_key r = dbr_key r' -> r = r'.

#[export] Instance db_holds_proper P db :
  Proper (pointwise_relation DBRow iff ==> iff) (db_holds P db).
Proof. intros R R' HR. unfold db_holds. by setoid_rewrite HR. Qed.

Lemma db_holds_write P db R rows :
  db_holds P db R -> functional (fun r => R r \/ r ∈ rows) ->
  db_holds P (db_write db rows) (fun r => R r \/ r ∈ rows).
Proof.
  intros Hh Hf k v HP. destruct (decide (k ∈ map dbr_key rows)) as [Hk|Hk].
  - apply elem_of_map in Hk as (r & -> & Hr).
    rewrite get_db_write_in; [|exact (fun x y Hx Hy => Hf x y (or_intror Hx) (or_intror Hy))|done]. split.
    + intros [= <-]. right. destruct r; exact Hr.
    + intros Hv. assert (mkDBRow (dbr_key r) v = r) as Hr'.
      { apply Hf; [done|by right|done]. }
      apply (f_equal dbr_value) in Hr'. cbn in Hr'. congruence.
  - rewrite get_db_write_other.
    + rewrite (Hh k v HP). split; [by left|]. intros [|Hr]; [done|].
      exfalso. apply Hk, elem_of_map. by exists (mkDBRow k v).
    + intros r Hr <-. apply Hk, elem_of_map. by exists r.
Qed.

Lemma db_holds_delete (P : Bytes -> Prop) db R rows :
  db_holds P db (fun r => R r \/ r ∈ rows) ->
  (forall r r', P (dbr_key r) -> R r -> r' ∈ rows -> dbr_key r <> dbr_key r') ->
  db_holds P (db_delete db (map dbr_key rows)) R.
Proof.
  intros Hh Hd k v HP. rewrite get_db_delete. case_decide as Hk.
  - apply elem_of_map in Hk as (r & -> & Hr). split; [done|]. intros HR.
    exfalso. by apply (Hd (mkDBRow (dbr_key r) v) r).
  - rewrite (Hh k v HP). split; [|by left]. intros [|Hr]; [done|].
    exfalso. apply Hk, elem_of_map. by exists (mkDBRow k v).
Qed.

(** Which keys a write and a delete leave in the database. *)
Lemma has_put_rows db rows k :
  is_Some (rdb_get (put_rows db rows) k) <-> is_Some (rdb_get db k) \/ exists r, r ∈ rows /\ dbr_key r = k.
Proof.
  revert db. induction rows as [|r rows IH]; intros db; cbn.
  - split; [by left|]. intros [|(r & Hr & _)]; [done|set_solver].
  - change (fold_left _ rows ?d) with (put_rows d rows). rewrite IH, get_put. case_decide as Hk.
    + split; [right; exists r; set_solver|]. intros _. by left.
    + split; [intros [|(r' & ? & ?)]; [by left|right; exists r'; set_solver]|].
      intros [|(r' & [->|?]%elem_of_cons & ?)]; [by left|congruence|right; by exists r'].
Qed.
Lemma has_db_write db rows k :
  is_Some (rdb_get (db_write db rows) k) <-> is_Some (rdb_get db k) \/ exists r, r ∈ rows /\ dbr_key r = k.
Proof.
  unfold db_write. rewrite has_put_rows. by setoid_rewrite (merge_sort_Permutation row_le rows).
Qed.
Lemma has_db_delete db rows k :
  is_Some (rdb_get (db_delete db (map dbr_key rows)) k) <->
  is_Some (rdb_get db k) /\ ~ exists r, r ∈ rows /\ dbr_key r = k.
Proof.
  rewrite get_db_delete. case_decide as Hk.
  - apply elem_of_map in Hk as (r & -> & Hr). split; [by intros [? ?]|]. intros [_ Hn]. destruct Hn. by exists r.
  - split; [|by intros [? _]]. intros ?. split; [done|]. intros (r & Hr & <-). apply Hk, elem_of_map. by exists r.
Qed.

Lemma db_holds_put (P : Bytes -> Prop) db R k v :
  ~ P k -> db_holds P db R -> db_holds P (rdb_put db k v) R.
Proof. intros Hk Hh k' v' HP. rewrite get_put, decide_False by congruence. by apply Hh. Qed.

Lemma db_holds_del (P : Bytes -> Prop) db R k :
  ~ P k -> db_holds P db R -> db_holds P (db_delete db [k]) R.
Proof. intros Hk Hh k' v' HP. rewrite get_db_delete, decide_False by set_solver. by apply Hh. Qed.
End holds.

(** ** What a block contributes *)

Section contributions.
Context {BL : BitcoinLib} {W : Wincode} {WL : WincodeLaws} (cfg : IndexerConfig).

(** The rows of the transaction store for one block, one by one. *)
Inductive add_row (b : BlockEntry) : DBRow -> Prop :=
  | ar_conf tx : tx ∈ txdata (be_block b) ->
      add_row b (conf_into_row (conf_new tx (he_hash (be_entry b))))
  | ar_tx tx : tx ∈ txdata (be_block b) -> light_mode cfg = false -> add_row b (tx_row tx)
  | ar_out tx i txo : tx ∈ txdata (be_block b) -> tx_output tx !! i = Some txo ->
      is_spendable txo = true -> add_row b (txout_row (get_txid tx) i txo)
  | ar_txids : light_mode cfg = false ->
      add_row b (block_into_row (block_row_txids (he_hash (be_entry b))
        (map get_txid (txdata (be_block b)))))
  | ar_meta : light_mode cfg = false ->
      add_row b (block_into_row (block_row_meta (he_hash (be_entry b)) (BlockMeta_from b)))
  | ar_header : add_row b (block_into_row (block_row_header (he_hash (be_entry b))
        (block_header (be_block b))))
  | ar_done : add_row b (block_into_row (block_row_done (he_hash (be_entry b)))).

Lemma add_transaction_elem tx h r :
  r ∈ add_transaction tx h cfg <->
  r = conf_into_row (conf_new tx h) \/ (light_mode cfg = false /\ r = tx_row tx) \/
  exists i txo, tx_output tx !! i = Some txo /\ is_spendable txo = true /\
    r = txout_row (get_txid tx) i txo.
Proof.
  unfold add_transaction. rewrite !elem_of_app, list_elem_of_singleton, elem_of_concat_map.
  apply or_iff_compat_l. destruct (light_mode cfg); split.
  - intros [?|([i txo] & Hi & Hr)]; [set_solver|]. apply enumerate_elem in Hi.
    right. exists i, txo. destruct (is_spendable txo); set_solver.
  - intros [[? _]|(i & txo & Hi & Hs & ->)]; [done|]. right. exists (i, txo).
    rewrite enumerate_elem, Hs. set_solver.
  - intros [?|([i txo] & Hi & Hr)]; [left; set_solver|]. apply enumerate_elem in Hi.
    right. exists i, txo. destruct (is_spendable txo); set_solver.
  - intros [[_ ->]|(i & txo & Hi & Hs & ->)]; [left; set_solver|]. right. exists (i, txo).
    rewrite enumerate_elem, Hs. set_solver.
Qed.

Lemma add_block_elem b r : r ∈ add_block cfg b <-> add_row b r.
Proof.
  unfold add_block. rewrite !elem_of_app, elem_of_concat_map. split.
  - intros [(tx & Htx & Hr)|[Hr|Hr]].
    + apply add_transaction_elem in Hr as [->|[[Hl ->]|(i & txo & ? & ? & ->)]].
      * by constructor.
      * by constructor.
      * by econstructor.
    + destruct (light_mode cfg) eqn:E; [set_solver|].
      apply elem_of_cons in Hr as [->|Hr]; [by constructor|].
      apply list_elem_of_singleton in Hr as ->. by constructor.
    + apply elem_of_cons in Hr as [->|Hr]; [by constructor|].
      apply list_elem_of_singleton in Hr as ->. by constructor.
  - destruct 1 as [tx Htx|tx Htx Hl|tx i txo Htx Hi Hs|Hl|Hl| |];
      try (left; exists tx; split; [done|]; apply add_transaction_elem; naive_solver);
      right; rewrite ?Hl; set_solver.
Qed.
Lemma add_blocks_elem bs r : r ∈ add_blocks bs cfg <-> exists b, b ∈ bs /\ add_row b r.
Proof.
  unfold add_blocks. rewrite elem_of_concat_map. by setoid_rewrite add_block_elem.
Qed.

(** The unspent-or-spent output an outpoint names in a list of blocks. *)
Definition chain_txo (chain : list BlockEntry) (o : OutPoint) (txo : TxOut) : Prop :=
  exists b tx i, b ∈ chain /\ tx ∈ txdata (be_block b) /\ get_txid tx = op_txid o /\
    op_vout o = Z.of_nat i /\ tx_output tx !! i = Some txo /\ is_spendable txo = true.

Definition height_of (b : BlockEntry) : Z := as_u32 (Z.of_nat (he_height (be_entry b))).

(** The rows of the history store for one block. *)
Inductive hist_row (chain : list BlockEntry) (b : BlockEntry) : DBRow -> Prop :=
  | hr_fund idx tx i txo : txdata (be_block b) !! idx = Some tx -> tx_output tx !! i = Some txo ->
      is_spendable txo = true \/ index_unspendables cfg = true ->
      hist_row chain b (history_into_row (history_new (script_pubkey txo) (height_of b)
        (as_u16 (Z.of_nat idx)) (Funding (get_txid tx) (as_u32 (Z.of_nat i)) (txo_value txo))))
  | hr_addr tx i txo row : tx ∈ txdata (be_block b) -> tx_output tx !! i = Some txo ->
      is_spendable txo = true \/ index_unspendables cfg = true -> address_search cfg = true ->
      addr_search_row (script_pubkey txo) (network cfg) = Some row -> hist_row chain b row
  | hr_spend idx tx j txi prev : txdata (be_block b) !! idx = Some tx -> tx_input tx !! j = Some txi ->
      has_prevout txi = true -> chain_txo chain (previous_output txi) prev ->
      hist_row chain b (history_into_row (history_new (script_pubkey prev) (height_of b)
        (as_u16 (Z.of_nat idx)) (Spending (get_txid tx) (as_u32 (Z.of_nat j))
          (op_txid (previous_output txi)) (op_vout (previous_output txi)) (txo_value prev))))
  | hr_edge tx j txi : tx ∈ txdata (be_block b) -> tx_input tx !! j = Some txi ->
      has_prevout txi = true ->
      hist_row chain b (edge_into_row (edge_new (op_txid (previous_output txi))
        (op_vout (previous_output txi)) (get_txid tx) (as_u32 (Z.of_nat j))))
  | hr_done : hist_row chain b (block_into_row (block_row_done (he_hash (be_entry b)))).
End contributions.

(** ** Chains of blocks *)

Section chains.
Context {BL : BitcoinLib} {W : Wincode} {WL : WincodeLaws} (cfg : IndexerConfig).

(** Counts and indices of a block fit the widths of the row fields. *)
Record block_in_range (b : BlockEntry) : Prop := {
  br_height : is_u32 (Z.of_nat (he_height (be_entry b)));
  br_outputs tx i txo : tx ∈ txdata (be_block b) -> tx_output tx !! i = Some txo ->
    is_u32 (Z.of_nat i) /\ is_u64 (txo_value txo);
  br_inputs tx j txi : tx ∈ txdata (be_block b) -> tx_input tx !! j = Some txi ->
    is_u32 (Z.of_nat j) /\ is_u32 (op_vout (previous_output txi));
}.

(** What the blocks of a chain satisfy: block hashes and transaction ids are
    unique, and every spent output was created in the block or before it. *)
Record chain_sane (chain : list BlockEntry) : Prop := {
  cs_block b b' : b ∈ chain -> b' ∈ chain ->
    he_hash (be_entry b) = he_hash (be_entry b') -> b = b';
  cs_height b b' : b ∈ chain -> b' ∈ chain ->
    he_height (be_entry b) = he_height (be_entry b') -> b = b';
  cs_tx b b' tx tx' : b ∈ chain -> b' ∈ chain ->
    tx ∈ txdata (be_block b) -> tx' ∈ txdata (be_block b') ->
    get_txid tx = get_txid tx' -> b = b' /\ tx = tx';
  cs_range b : b ∈ chain -> block_in_range b;
  cs_valid pre b post tx txi : chain = pre ++ b :: post ->
    tx ∈ txdata (be_block b) -> txi ∈ tx_input tx -> has_prevout txi = true ->
    exists txo, chain_txo (pre ++ [b]) (previous_output txi) txo;
}.

Lemma chain_txo_mono chain chain' o txo :
  (forall b, b ∈ chain -> b ∈ chain') -> chain_txo chain o txo -> chain_txo chain' o txo.
Proof. intros Hs (b & tx & i & Hb & H). exists b, tx, i. split; [by apply Hs|done]. Qed.

Lemma chain_txo_unique chain o txo txo' :
  chain_sane chain -> chain_txo chain o txo -> chain_txo chain o txo' -> txo = txo'.
Proof.
  intros Hs (b & tx & i & Hb & Htx & Hid & Hv & Hi & _) (b' & tx' & i' & Hb' & Htx' & Hid' & Hv' & Hi' & _).
  destruct (cs_tx _ Hs b b' tx tx') as [_ <-]; [done..|congruence|].
  assert (i = i') as <- by lia. congruence.
Qed.

Lemma chain_sane_prefix pre post : chain_sane (pre ++ post) -> chain_sane pre.
Proof.
  intros Hs. assert (forall b, b ∈ pre -> b ∈ pre ++ post) as Hin by set_solver. split.
  - intros; eapply (cs_block _ Hs); eauto.
  - intros; eapply (cs_height _ Hs); eauto.
  - intros; eapply (cs_tx _ Hs); eauto.
  - intros; eapply (cs_range _ Hs); eauto.
  - intros p b q tx txi -> Htx Htxi Hp.
    eapply (cs_valid _ Hs p b (q ++ post)); eauto. by rewrite <- app_assoc.
Qed.

(** Every input of a block of the chain finds its output in the chain. *)
Lemma chain_prevout chain b tx txi :
  chain_sane chain -> b ∈ chain -> tx ∈ txdata (be_block b) -> txi ∈ tx_input tx ->
  has_prevout txi = true -> exists txo, chain_txo chain (previous_output txi) txo.
Proof.
  intros Hs Hb Htx Htxi Hp. apply list_elem_of_split in Hb as (pre & post & ->).
  destruct (cs_valid _ Hs pre b post tx txi) as [txo Ht]; [done..|].
  exists txo. eapply chain_txo_mono; [|done]. set_solver.
Qed.

(** Rows of different blocks have different keys; equal keys mean equal rows. *)
Lemma add_row_key chain b b' r r' :
  chain_sane chain -> b ∈ chain -> b' ∈ chain ->
  add_row cfg b r -> add_row cfg b' r' -> dbr_key r = dbr_key r' -> b = b' /\ r = r'.
Proof.
  intros Hs Hb Hb' Hr Hr'.
  assert (forall h h', as_bytes h = as_bytes h' -> h = h') as Hinj by apply as_bytes_inj.
  pose proof (cs_block _ Hs b b' Hb Hb') as Hblk.
  pose proof (fun tx tx' => cs_tx _ Hs b b' tx tx' Hb Hb') as Htxs.
  destruct Hr as [tx Htx|tx Htx Hl|tx i txo Htx Hi Hsp|Hl|Hl| |];
    destruct Hr' as [tx' Htx'|tx' Htx' Hl'|tx' i' txo' Htx' Hi' Hsp'|Hl'|Hl'| |];
    cbn [dbr_key conf_into_row conf_new tc_code tc_txid tc_blockhash tx_row txout_row
      txout_key_bytes block_into_row block_row_txids block_row_meta block_row_header block_row_done
      bk_code bk_hash]; intros Hk; try discriminate Hk; try (injection Hk as Hk).
  - apply hash_app_inj in Hk as [Hid _]. by destruct (Htxs tx tx') as [<- <-].
  - apply Hinj in Hk. by destruct (Htxs tx tx') as [<- <-].
  - apply hash_app_inj in Hk as [Hid Hk]. destruct (Htxs tx tx') as [<- <-]; [done..|].
    split; [done|].
    destruct (br_outputs _ (cs_range _ Hs _ Hb) _ _ _ Htx Hi) as [Hu _].
    destruct (br_outputs _ (cs_range _ Hs _ Hb) _ _ _ Htx Hi') as [Hu' _].
    apply fixint_inj in Hk; [|rewrite as_u32_id by done; range..].
    rewrite !as_u32_id in Hk by done. assert (i = i') as <- by lia. congruence.
  - apply Hinj in Hk. by destruct (Hblk Hk).
  - apply Hinj in Hk. by destruct (Hblk Hk).
  - apply Hinj in Hk. by destruct (Hblk Hk).
  - apply Hinj in Hk. by destruct (Hblk Hk).
Qed.

Definition is_addr_key (k : Bytes) : Prop := head k = Some 97%Z.

Lemma hist_row_value chain b r : hist_row cfg chain b r -> dbr_value r = [].
Proof.
  destruct 1 as [| tx i txo row _ _ _ _ Ha | | |]; try done.
  unfold addr_search_row in Ha. destruct (to_address_str _ _); cbn in Ha; by simplify_eq.
Qed.

Lemma hist_row_marker chain b r : hist_row cfg chain b r -> dbr_key r <> key_V.
Proof.
  destruct 1 as [| tx i txo row _ _ _ _ Ha | | |]; try done.
  unfold addr_search_row in Ha. destruct (to_address_str _ _); cbn in Ha; by simplify_eq.
Qed.

Lemma height_of_inj chain b b' :
  chain_sane chain -> b ∈ chain -> b' ∈ chain -> height_of b = height_of b' -> b = b'.
Proof.
  intros Hs Hb Hb' Hh. unfold height_of in Hh.
  rewrite !as_u32_id in Hh by (by apply br_height, (cs_range _ Hs)).
  apply (cs_height _ Hs); [done..|lia].
Qed.

Lemma history_new_height s h p i s' h' p' i' :
  is_u32 h -> is_u32 h' ->
  dbr_key (history_into_row (history_new s h p i)) =
  dbr_key (history_into_row (history_new s' h' p' i')) -> h = h'.
Proof.
  intros Hr Hr' Hk. cbn [dbr_key history_into_row] in Hk. unfold history_key_bytes in Hk.
  cbn [history_new hk_code hk_hash confirmed_height] in Hk. injection Hk as Hk.
  apply hash_app_inj in Hk as [_ Hk]. apply app_inj_1 in Hk as [Hk _]; [|by rewrite !fixint_length].
  apply fixint_inj in Hk; [done|range..].
Qed.

(** The address rows of blocks, and how a step from [d] to [d'] that deletes the rows of
    the blocks [gone] and writes those of [new] changes the address rows present.  An
    address row names no block, so deleting the row of a block deletes it for all. *)
Definition addr_keys (bs : list BlockEntry) (k : Bytes) : Prop :=
  exists b tx i txo row, b ∈ bs /\ tx ∈ txdata (be_block b) /\ tx_output tx !! i = Some txo /\
    (is_spendable txo = true \/ index_unspendables cfg = true) /\ address_search cfg = true /\
    addr_search_row (script_pubkey txo) (network cfg) = Some row /\ dbr_key row = k.

Lemma addr_row_key spk row : addr_search_row spk (network cfg) = Some row -> is_addr_key (dbr_key row).
Proof. unfold addr_search_row. destruct (to_address_str _ _); cbn; intros; by simplify_eq. Qed.
Lemma hist_rows_addr chain bs k :
  is_addr_key k ->
  (exists r, (exists b, b ∈ bs /\ hist_row cfg chain b r) /\ dbr_key r = k) <-> addr_keys bs k.
Proof.
  intros Hk. split.
  - intros (r & (b & Hb & Hr) & <-). destruct Hr as [| tx i txo row | | |]; try discriminate Hk.
    by exists b, tx, i, txo, row.
  - intros (b & tx & i & txo & row & Hb & Htx & Hi & Hsp & Ha & Hrow & <-).
    exists row. split; [|done]. exists b. split; [done|]. by eapply hr_addr.
Qed.

Lemma hist_row_key chain chain' b b' r r' :
  chain_sane chain' -> b ∈ chain' -> b' ∈ chain' -> ~ is_addr_key (dbr_key r) ->
  hist_row cfg chain b r -> hist_row cfg chain b' r' -> dbr_key r = dbr_key r' -> b = b'.
Proof.
  intros Hs Hb Hb' Ha Hr Hr' Hk.
  pose proof addr_row_key as Haddr.
  pose proof (cs_block _ Hs b b' Hb Hb') as Hblk.
  pose proof (fun tx tx' => cs_tx _ Hs b b' tx tx' Hb Hb') as Htxs.
  assert (forall x, is_u32 (height_of x)) as Hu by (intros; apply as_u32_range).
  destruct Hr as [idx tx i txo Hidx Hi Hsp| tx i txo row Htx Hi Hsp Has Hrow
                 |idx tx j txi prev Hidx Hj Hp Ht|tx j txi Htx Hj Hp|];
    [|by destruct Ha; eapply Haddr|..];
  (destruct Hr' as [idx' tx' i' txo' Hidx' Hi' Hsp'| tx' i' txo' row' Htx' Hi' Hsp' Has' Hrow'
                 |idx' tx' j' txi' prev' Hidx' Hj' Hp' Ht'|tx' j' txi' Htx' Hj' Hp'|];
    [|by destruct Ha; rewrite Hk; eapply Haddr|..]);
  try (apply history_new_height in Hk; [by eapply height_of_inj|done..]);
  try discriminate Hk.
  - cbn in Hk. injection Hk as Hk. apply hash_app_inj in Hk as [_ Hk].
    apply app_inj_1 in Hk as [_ Hk]; [|by rewrite !fixint_length].
    apply hash_app_inj in Hk as [Hid _]. by destruct (Htxs tx tx').
  - cbn in Hk. injection Hk as Hk. by apply Hblk, as_bytes_inj.
Qed.

(** In a longer chain the blocks of a prefix have the same history rows. *)
Lemma hist_row_prefix pre post b r :
  chain_sane (pre ++ post) -> b ∈ pre ->
  hist_row cfg (pre ++ post) b r <-> hist_row cfg pre b r.
Proof.
  intros Hs Hb. pose proof (chain_sane_prefix _ _ Hs) as Hp.
  split; intros Hr; destruct Hr as [| | idx tx j txi prev Hidx Hj Hpv Ht | |]; try (by econstructor).
  - econstructor; [done..|].
    destruct (chain_prevout pre b tx txi) as [txo Hto];
      eauto using list_elem_of_lookup_2.
    rewrite (chain_txo_unique _ (previous_output txi) prev txo Hs); [done..|].
    eapply chain_txo_mono; [|done]. set_solver.
  - econstructor; [done..|]. eapply chain_txo_mono; [|done]. set_solver.
Qed.
End chains.

(** ** Indexing a batch *)

Section batches.
Context {D : Type} {RDB : RocksDB D} {RDBL : RocksDBLaws D}.
Context {BL : BitcoinLib} {BLaws : BitcoinLaws} {W : Wincode} {WL : WincodeLaws}.
Context (cfg : IndexerConfig).

(** The keys of the transaction and of the history store other than the marker
    rows [t], [F] and [V], and, for the history, other than address rows. *)
Definition tx_key (k : Bytes) : Prop := k <> key_t /\ k <> key_F /\ k <> key_V.
Definition hist_key (k : Bytes) : Prop := k <> key_F /\ k <> key_V /\ ~ is_addr_key k.

Definition tx_rows (chain : list BlockEntry) (r : DBRow) : Prop :=
  exists b, b ∈ chain /\ add_row cfg b r.
(** The rows of [bs] as blocks of [chain]. *)
Definition hist_rows (chain bs : list BlockEntry) (r : DBRow) : Prop :=
  exists b, b ∈ bs /\ hist_row cfg chain b r.

Definition txstore_holds (db : D) (chain : list BlockEntry) : Prop :=
  db_holds tx_key db (tx_rows chain).
Definition history_holds (db : D) (chain bs : list BlockEntry) : Prop :=
  db_holds hist_key db (hist_rows chain bs).

Definition addr_moves (d d' : D) (gone new : list BlockEntry) : Prop :=
  forall k, is_addr_key k -> is_Some (rdb_get d' k) <->
    (is_Some (rdb_get d k) /\ ~ addr_keys cfg gone k) \/ addr_keys cfg new k.
Lemma addr_keys_nil k : ~ addr_keys cfg [] k.
Proof. intros (b & _ & _ & _ & _ & Hb & _). by apply elem_of_nil in Hb. Qed.
Lemma addr_keys_app bs bs' k : addr_keys cfg (bs ++ bs') k <-> addr_keys cfg bs k \/ addr_keys cfg bs' k.
Proof. unfold addr_keys. setoid_rewrite elem_of_app. naive_solver. Qed.
Lemma addr_keys_ext bs bs' k :
  (forall b, b ∈ bs <-> b ∈ bs') -> addr_keys cfg bs k <-> addr_keys cfg bs' k.
Proof. intros He. unfold addr_keys. by setoid_rewrite He. Qed.
Lemma addr_moves_refl d : addr_moves d d [] [].
Proof. intros k _. pose proof (addr_keys_nil k). naive_solver. Qed.
Lemma addr_moves_get d d' d'' gone new :
  addr_moves d d' gone new -> (forall k, is_addr_key k -> rdb_get d'' k = rdb_get d' k) ->
  addr_moves d d'' gone new.
Proof. intros Hm Hg k Hk. rewrite Hg by done. by apply Hm. Qed.
Lemma addr_moves_add d d' d'' bs bs' :
  addr_moves d d' [] bs -> addr_moves d' d'' [] bs' -> addr_moves d d'' [] (bs ++ bs').
Proof.
  intros H1 H2 k Hk. rewrite (H2 k Hk), (H1 k Hk), addr_keys_app. pose proof (addr_keys_nil k). tauto.
Qed.
Lemma addr_moves_delete d d' d'' bs bs' :
  addr_moves d d' bs [] -> addr_moves d' d'' bs' [] -> addr_moves d d'' (bs ++ bs') [].
Proof.
  intros H1 H2 k Hk. rewrite (H2 k Hk), (H1 k Hk), addr_keys_app. pose proof (addr_keys_nil k). tauto.
Qed.
Lemma addr_moves_both d d' d'' gone new :
  addr_moves d d' gone [] -> addr_moves d' d'' [] new -> addr_moves d d'' gone new.
Proof. intros H1 H2 k Hk. rewrite (H2 k Hk), (H1 k Hk). pose proof (addr_keys_nil k). tauto. Qed.
Lemma addr_moves_ext d d' gone gone' new new' :
  (forall b, b ∈ gone <-> b ∈ gone') -> (forall b, b ∈ new <-> b ∈ new') ->
  addr_moves d d' gone new -> addr_moves d d' gone' new'.
Proof.
  intros Hg Hn Hm k Hk. rewrite (Hm k Hk), (addr_keys_ext gone gone'), (addr_keys_ext new new') by done. done.
Qed.

Lemma add_row_length b r : add_row cfg b r -> 33 <= length (dbr_key r).
Proof.
  destruct 1; cbn -[fixint]; rewrite ?length_app, ?as_bytes_length, ?fixint_length; lia.
Qed.
Lemma add_row_tx_key b r : add_row cfg b r -> tx_key (dbr_key r).
Proof.
  intros Hr%add_row_length. unfold tx_key, key_t, key_F, key_V.
  repeat split; intros Hk; rewrite Hk in Hr; cbn in Hr; lia.
Qed.

Lemma lookup_txo_holds db chain o txo :
  txstore_holds db chain -> chain_sane chain -> chain_txo chain o txo ->
  lookup_txo db o = Ok (Some txo).
Proof.
  intros Hh Hs (b & tx & i & Hb & Htx & Hid & Hv & Hi & Hsp).
  destruct (br_outputs _ (cs_range _ Hs _ Hb) _ _ _ Htx Hi) as [Hu _].
  pose proof (ar_out cfg b tx i txo Htx Hi Hsp) as Hr.
  unfold lookup_txo, db_get.
  assert (rdb_get db (txout_key o) = Some (serialize_txout txo)) as ->.
  { apply Hh.
    - apply add_row_tx_key in Hr. unfold txout_row in Hr. rewrite as_u32_id, Hid, <- Hv in Hr by done.
      exact Hr.
    - exists b. split; [done|]. unfold txout_row in Hr.
      rewrite as_u32_id, Hid, <- Hv in Hr by done. exact Hr. }
  by rewrite de_ser_txout.
Qed.

Lemma lookup_txos_holds db chain (outs : gset OutPoint) :
  txstore_holds db chain -> chain_sane chain ->
  (forall o, o ∈ outs -> exists txo, chain_txo chain o txo) ->
  exists m, lookup_txos db outs false = Ok m /\
    forall o txo, m !! o = Some txo <-> o ∈ outs /\ chain_txo chain o txo.
Proof.
  intros Hh Hs Ho. unfold lookup_txos.
  set (f := fun o => match lookup_txo db o with Ok r => r | _ => None end).
  rewrite (rmap_Ok _ (fun o => t ← f o; Some (o, t))).
  2: { intros o Hin%elem_of_elements. destruct (Ho o Hin) as [txo Ht]. unfold f.
       by rewrite (lookup_txo_holds db chain o txo). }
  eexists. split; [done|]. intros o txo.
  assert (omap id (map (fun o => t ← f o; Some (o, t)) (elements outs))
    = omap (fun o => t ← f o; Some (o, t)) (elements outs)) as ->.
  { induction (elements outs) as [|x l IH]; cbn; [done|]. by rewrite IH. }
  rewrite list_to_map_omap_lookup. case_decide as Hd.
  - apply elem_of_elements in Hd. destruct (Ho o Hd) as [txo' Ht]. unfold f.
    rewrite (lookup_txo_holds db chain o txo') by done. split.
    + by intros [= <-].
    + intros [_ Ht']. f_equal. by eapply chain_txo_unique.
  - split; [done|]. intros [Hin _]. by apply elem_of_elements in Hin.
Qed.

Lemma get_previous_txos_elem bs o :
  o ∈ get_previous_txos bs <-> exists b tx txi, b ∈ bs /\ tx ∈ txdata (be_block b) /\
    txi ∈ tx_input tx /\ has_prevout txi = true /\ o = previous_output txi.
Proof.
  unfold get_previous_txos. rewrite elem_of_list_to_set, elem_of_concat_map. split.
  - intros (tx & Htx & Ho). apply elem_of_concat_map in Htx as (b & Hb & Htx).
    unfold tx_previous_outputs in Ho. apply elem_of_map in Ho as (txi & -> & Htxi).
    apply list_elem_of_filter in Htxi as [Hp Htxi]. naive_solver.
  - intros (b & tx & txi & Hb & Htx & Htxi & Hp & ->). exists tx. split.
    + apply elem_of_concat_map. eauto.
    + apply elem_of_map. exists txi. split; [done|]. by apply list_elem_of_filter.
Qed.

Lemma index_output_elem h pos txid i txo r :
  r ∈ (index_output h pos txid cfg (i, txo)).1 <->
  (is_spendable txo = true \/ index_unspendables cfg = true) /\
  (r = history_into_row (history_new (script_pubkey txo) h pos
         (Funding txid (as_u32 (Z.of_nat i)) (txo_value txo))) \/
   address_search cfg = true /\ addr_search_row (script_pubkey txo) (network cfg) = Some r).
Proof.
  unfold index_output. rewrite <- orb_true_iff.
  destruct (is_spendable txo || index_unspendables cfg); cbn [fst]; [|set_solver].
  rewrite elem_of_cons.
  destruct (address_search cfg); [|set_solver].
  destruct (addr_search_row _ _) as [row|]; set_solver.
Qed.

Definition spend_row (h pos : Z) (txid : Txid) (j : nat) (txi : TxIn) (prev : TxOut) : DBRow :=
  history_into_row (history_new (script_pubkey prev) h pos (Spending txid (as_u32 (Z.of_nat j))
    (op_txid (previous_output txi)) (op_vout (previous_output txi)) (txo_value prev))).
Definition edge_row (txid : Txid) (j : nat) (txi : TxIn) : DBRow :=
  edge_into_row (edge_new (op_txid (previous_output txi)) (op_vout (previous_output txi)) txid
    (as_u32 (Z.of_nat j))).

Lemma index_input_elem h pos txid (m : gmap OutPoint TxOut) j txi y r :
  index_input h pos txid m (j, txi) = Ok y ->
  r ∈ y.1 <-> has_prevout txi = true /\ exists prev, m !! previous_output txi = Some prev /\
    (r = spend_row h pos txid j txi prev \/ r = edge_row txid j txi).
Proof.
  cbn. destruct (has_prevout txi); cbn.
  - destruct (m !! previous_output txi) as [prev|]; cbn; [|done]. intros [= <-]. cbn [fst].
    rewrite elem_of_cons, list_elem_of_singleton. unfold spend_row, edge_row. naive_solver.
  - intros [= <-]. cbn. set_solver.
Qed.

(** The rows of one transaction, with the previous outputs in [m]. *)
Definition tx_hist_row (h pos : Z) (tx : Transaction) (m : gmap OutPoint TxOut) (r : DBRow) : Prop :=
  (exists i txo, tx_output tx !! i = Some txo /\ r ∈ (index_output h pos (get_txid tx) cfg (i, txo)).1) \/
  (exists j txi prev, tx_input tx !! j = Some txi /\ has_prevout txi = true /\
     m !! previous_output txi = Some prev /\
     (r = spend_row h pos (get_txid tx) j txi prev \/ r = edge_row (get_txid tx) j txi)).

Lemma index_transaction_elem h pos tx (m : gmap OutPoint TxOut) :
  (forall txi, txi ∈ tx_input tx -> has_prevout txi = true -> is_Some (m !! previous_output txi)) ->
  exists rows scripts, index_transaction tx h pos m cfg = Ok (rows, scripts) /\
    forall r, r ∈ rows <-> tx_hist_row h pos tx m r.
Proof.
  intros Hm. unfold index_transaction.
  destruct (rmap_total (index_input h pos (get_txid tx) m) (enumerate (tx_input tx))) as [ins Hi].
  { intros [j txi] Hj%enumerate_elem%list_elem_of_lookup_2. cbn.
    destruct (has_prevout txi) eqn:Hp; [|by eexists]. destruct (Hm txi Hj Hp) as [txo Ht].
    rewrite Ht. by eexists. }
  rewrite Hi. eexists _, _. split; [done|]. intros r.
  rewrite elem_of_app, map_map, elem_of_concat_map, (rmap_concat_elem _ _ _ _ _ Hi).
  unfold tx_hist_row. f_equiv.
  - split; [intros ([i txo] & Hio%enumerate_elem & Hr)|intros (i & txo & Hio%enumerate_elem & Hr)]; eauto.
  - split.
    + intros ([j txi] & y & Hj%enumerate_elem & Hy & Hr).
      apply (index_input_elem _ _ _ _ _ _ _ _ Hy) in Hr. naive_solver.
    + intros (j & txi & prev & Hj & Hp & Hprev & Hr). exists (j, txi).
      assert (exists y, index_input h pos (get_txid tx) m (j, txi) = Ok y) as [y Hy].
      { cbn. rewrite Hp, Hprev. by eexists. }
      exists y. split; [by apply enumerate_elem|]. split; [done|].
      apply (index_input_elem _ _ _ _ _ _ _ _ Hy). naive_solver.
Qed.

(** The previous outputs a batch of blocks of the chain is indexed with. *)
Definition resolves (chain : list BlockEntry) (m : gmap OutPoint TxOut) (b : BlockEntry) : Prop :=
  forall tx txi txo, tx ∈ txdata (be_block b) -> txi ∈ tx_input tx -> has_prevout txi = true ->
    m !! previous_output txi = Some txo <-> chain_txo chain (previous_output txi) txo.

(** What indexing one block of the chain writes. *)
Lemma index_block_chain chain b m :
  chain_sane chain -> b ∈ chain -> resolves chain m b ->
  exists rows scripts, index_block m cfg b = Ok (rows, scripts) /\
    forall r, r ∈ rows <-> hist_row cfg chain b r.
Proof.
  intros Hs Hb Hm. unfold index_block.
  change (as_u32 (Z.of_nat (he_height (be_entry b)))) with (height_of b).
  assert (forall idx tx, tx ∈ txdata (be_block b) -> exists rows scripts,
    index_transaction tx (height_of b) (as_u16 (Z.of_nat idx)) m cfg = Ok (rows, scripts) /\
    forall r, r ∈ rows <-> tx_hist_row (height_of b) (as_u16 (Z.of_nat idx)) tx m r) as Htx
    by (intros idx tx Htx; apply index_transaction_elem; intros txi Htxi Hp;
        destruct (chain_prevout chain b tx txi) as [txo Ht]; [done..|];
        apply (Hm tx) in Ht; eauto).
  destruct (rmap_total (fun '(idx, tx) => index_transaction tx (height_of b) (as_u16 (Z.of_nat idx)) m cfg)
    (enumerate (txdata (be_block b)))) as [txs Htxs].
  { intros [idx tx] Hin%enumerate_elem%list_elem_of_lookup_2.
    destruct (Htx idx tx Hin) as (rows & scripts & Heq & _). by eexists. }
  rewrite Htxs. eexists _, _. split; [done|]. intros r.
  rewrite elem_of_app, list_elem_of_singleton, (rmap_concat_elem _ _ _ _ _ Htxs). split.
  - intros [([idx tx] & y & Hidx%enumerate_elem & Hy & Hr)| ->]; [|constructor].
    pose proof (list_elem_of_lookup_2 _ _ _ Hidx) as Hin.
    destruct (Htx idx tx Hin) as (rows & scripts & Heq & Hspec).
    rewrite Heq in Hy. injection Hy as <-. apply Hspec in Hr.
    destruct Hr as [(i & txo & Hi & Hr)|(j & txi & prev & Hj & Hp & Hprev & Hr)].
    + apply index_output_elem in Hr as [Hsp [->|[Ha Hr]]]; [by apply hr_fund|by eapply hr_addr].
    + apply (Hm tx) in Hprev; eauto using list_elem_of_lookup_2.
      destruct Hr as [->| ->]; [by apply hr_spend|by apply hr_edge].
  - intros Hr. assert (forall idx tx, txdata (be_block b) !! idx = Some tx ->
      tx_hist_row (height_of b) (as_u16 (Z.of_nat idx)) tx m r ->
      exists x y, x ∈ enumerate (txdata (be_block b)) /\
        (let '(idx, tx) := x in index_transaction tx (height_of b) (as_u16 (Z.of_nat idx)) m cfg) = Ok y /\
        r ∈ y.1) as Hgo.
    { intros idx tx Hidx Hr'. destruct (Htx idx tx) as (rows & scripts & Heq & Hspec);
        [by eapply list_elem_of_lookup_2|]. exists (idx, tx), (rows, scripts).
      split; [by apply enumerate_elem|]. split; [exact Heq|]. by apply Hspec. }
    destruct Hr as [idx tx i txo Hidx Hi Hsp|tx i txo row Hin Hi Hsp Ha Hrow
                   |idx tx j txi prev Hidx Hj Hp Ht|tx j txi Hin Hj Hp|]; [..|by right]; left.
    + apply (Hgo idx tx); [done|]. left. exists i, txo.
      split; [done|]. apply index_output_elem. auto.
    + apply list_elem_of_lookup in Hin as [idx Hidx]. apply (Hgo idx tx); [done|]. left.
      exists i, txo. split; [done|]. apply index_output_elem. auto.
    + apply (Hgo idx tx); [done|]. right. exists j, txi, prev.
      split_and!; [done..| |by left]. apply (Hm tx); eauto using list_elem_of_lookup_2.
    + apply list_elem_of_lookup in Hin as [idx Hidx]. apply (Hgo idx tx); [done|]. right.
      destruct (chain_prevout chain b tx txi) as [txo Ht]; eauto using list_elem_of_lookup_2.
      exists j, txi, txo. split_and!; [done..| |by right]. apply (Hm tx); eauto using list_elem_of_lookup_2.
Qed.
End batches.

(** ** Batches of blocks *)

Section sync.
Context {D : Type} {RDB : RocksDB D} {RDBL : RocksDBLaws D}.
Context {BL : BitcoinLib} {BLaws : BitcoinLaws} {W : Wincode} {WL : WincodeLaws}.
Context (cfg : IndexerConfig).

Lemma index_blocks_chain chain bs m :
  chain_sane chain -> (forall b, b ∈ bs -> b ∈ chain /\ resolves chain m b) ->
  exists rows scripts, index_blocks bs m cfg = Ok (rows, scripts) /\
    forall r, r ∈ rows <-> hist_rows cfg chain bs r.
Proof.
  intros Hs Hbs. unfold index_blocks.
  destruct (rmap_total (index_block m cfg) bs) as [ys Hys].
  { intros b Hb. destruct (Hbs b Hb) as [Hin Hm].
    destruct (index_block_chain cfg chain b m Hs Hin Hm) as (rows & scripts & -> & _). by eexists. }
  rewrite Hys. eexists _, _. split; [done|]. intros r.
  rewrite (rmap_concat_elem _ _ _ _ _ Hys). unfold hist_rows. split.
  - intros (b & y & Hb & Hy & Hr). destruct (Hbs b Hb) as [Hin Hm].
    destruct (index_block_chain cfg chain b m Hs Hin Hm) as (rows & scripts & Heq & Hspec).
    exists b. split; [done|]. apply Hspec. rewrite Heq in Hy. injection Hy as <-. exact Hr.
  - intros (b & Hb & Hr). destruct (Hbs b Hb) as [Hin Hm].
    destruct (index_block_chain cfg chain b m Hs Hin Hm) as (rows & scripts & Heq & Hspec).
    exists b, (rows, scripts). split_and!; [done..|]. by apply Hspec.
Qed.

(** The lookup and row computation every [index] call starts with. *)
Lemma index_rows_chain (s : Store D) chain bs :
  txstore_holds cfg (txstore_db s) chain -> chain_sane chain -> (forall b, b ∈ bs -> b ∈ chain) ->
  exists m rows scripts, lookup_txos (txstore_db s) (get_previous_txos bs) false = Ok m /\
    index_blocks bs m cfg = Ok (rows, scripts) /\ forall r, r ∈ rows <-> hist_rows cfg chain bs r.
Proof.
  intros Hh Hs Hbs.
  destruct (lookup_txos_holds cfg (txstore_db s) chain (get_previous_txos bs) Hh Hs) as (m & Hm & Hlk).
  { intros o (b & tx & txi & Hb & Htx & Htxi & Hp & ->)%get_previous_txos_elem.
    eapply chain_prevout; eauto. }
  destruct (index_blocks_chain chain bs m Hs) as (rows & scripts & Hi & Hr); [|by exists m, rows, scripts].
  intros b Hb. split; [by apply Hbs|]. intros tx txi txo Htx Htxi Hp. rewrite Hlk.
  rewrite get_previous_txos_elem. naive_solver.
Qed.

Lemma hist_rows_functional chain bs (rows : list DBRow) :
  (forall r, r ∈ rows -> exists chain' b, hist_row cfg chain' b r) ->
  functional (fun r => hist_rows cfg chain bs r \/ r ∈ rows).
Proof.
  intros Hrows r r' Hr Hr' Hk.
  assert (forall x, hist_rows cfg chain bs x \/ x ∈ rows -> dbr_value x = []) as Hv.
  { intros x [(b & _ & Hx)|Hx]; [by eapply hist_row_value|].
    apply Hrows in Hx as (c & b & Hx). by eapply hist_row_value. }
  apply Hv in Hr, Hr'. destruct r, r'. cbn in *. congruence.
Qed.

Lemma ix_index_add (s : Store D) chain bs done :
  txstore_holds cfg (txstore_db s) chain -> chain_sane chain -> (forall b, b ∈ bs -> b ∈ chain) ->
  (forall b, b ∈ bs -> he_hash (be_entry b) ∈ added_blockhashes s) ->
  history_holds cfg (history_db s) chain done ->
  exists d, ix_index cfg AddBlocks bs s = Ok (set_history s d, []) /\
    history_holds cfg d chain (done ++ bs) /\ addr_moves cfg (history_db s) d [] bs /\
    forall k, (forall b r, hist_row cfg chain b r -> dbr_key r <> k) ->
      rdb_get d k = rdb_get (history_db s) k.
Proof.
  intros Hh Hs Hbs Hadd Hd. destruct (index_rows_chain s chain bs Hh Hs Hbs) as (m & rows & scripts & Hm & Hi & Hr).
  unfold ix_index. rewrite Hm. cbn -[rassert]. rewrite (proj2 (forallb_forall _ _)).
  2: { intros b Hb. apply bool_decide_eq_true_2, Hadd. by apply list_elem_of_In. }
  cbn. rewrite Hi. cbn. eexists. split; [done|]. split.
  2: { split.
       - intros k Hk. rewrite has_db_write, <- (hist_rows_addr cfg chain bs k Hk). setoid_rewrite Hr.
         pose proof (addr_keys_nil cfg k). unfold hist_rows. tauto.
       - intros k Hk. apply get_db_write_other. intros r (b & _ & Hb)%Hr. by eapply Hk. }
  unfold history_holds in *. rewrite (db_holds_proper _ _ _ (fun r => hist_rows cfg chain done r \/ r ∈ rows)).
  - apply db_holds_write; [done|]. apply hist_rows_functional.
    intros r (b & _ & Hb)%Hr. by exists chain, b.
  - intros r. rewrite Hr. unfold hist_rows. set_solver.
Qed.

Lemma index_batches_add batches : forall (s : Store D) chain done,
  txstore_holds cfg (txstore_db s) chain -> chain_sane chain ->
  (forall b, b ∈ concat batches -> b ∈ chain /\ he_hash (be_entry b) ∈ added_blockhashes s) ->
  history_holds cfg (history_db s) chain done ->
  exists d, index_batches cfg AddBlocks batches s = Ok (set_history s d, []) /\
    history_holds cfg d chain (done ++ concat batches) /\
    addr_moves cfg (history_db s) d [] (concat batches).
Proof.
  induction batches as [|bs batches IH]; intros s chain done Hh Hs Hbs Hd; cbn [concat index_batches].
  { exists (history_db s). rewrite app_nil_r. pose proof (addr_moves_refl cfg (history_db s)). by destruct s. }
  cbn [concat] in Hbs. destruct (ix_index_add s chain bs done) as (d & Heq & Hd' & Ha & _);
    [done|done|set_solver..|done|].
  rewrite Heq. cbn [mbind result_bind fst snd].
  destruct (IH (set_history s d) chain (done ++ bs)) as (d' & Heq' & Hd'' & Ha'); [done|done|set_solver|done|].
  rewrite Heq'. exists d'. split; [done|]. rewrite app_assoc. split; [done|]. by eapply addr_moves_add.
Qed.

Lemma index_batches_delete batches : forall (s : Store D) chain rest,
  txstore_holds cfg (txstore_db s) chain -> chain_sane chain ->
  (forall b, b ∈ concat batches ++ rest -> b ∈ chain) -> NoDup (concat batches ++ rest) ->
  history_holds cfg (history_db s) chain (concat batches ++ rest) ->
  exists d scripts, index_batches cfg DeleteBlocksWithHistory batches s = Ok (set_history s d, scripts) /\
    history_holds cfg d chain rest /\ addr_moves cfg (history_db s) d (concat batches) [].
Proof.
  induction batches as [|bs batches IH]; intros s chain rest Hh Hs Hbs Hn Hd; cbn [concat index_batches].
  { exists (history_db s), []. pose proof (addr_moves_refl cfg (history_db s)). by destruct s. }
  cbn [concat] in *. rewrite <- app_assoc in *. apply NoDup_app in Hn as (_ & Hdis & Hn).
  destruct (index_rows_chain s chain bs) as (m & rows & scripts & Hm & Hi & Hr); [done|done|set_solver|].
  unfold ix_index. rewrite Hm. cbn -[index_batches]. rewrite Hi. cbn -[index_batches].
  destruct (IH (set_history s (db_delete (history_db s) (map dbr_key rows))) chain rest)
    as (d & scripts' & Heq & Hd' & Ha'); [done|done|set_solver|done| |].
  - cbn. apply db_holds_delete.
    + unfold history_holds in Hd. revert Hd. apply db_holds_proper.
      intros r. rewrite Hr. unfold hist_rows. set_solver.
    + intros r r' HP (b & Hb & Hrb) (b' & Hb' & Hrb')%Hr Hk.
      assert (b = b') as ->; [|by eapply Hdis].
      eapply (hist_row_key cfg chain chain b b' r r'); try done; [set_solver..|apply HP].
  - rewrite Heq. exists d, (scripts ++ scripts'). split; [done|]. split; [done|].
    eapply addr_moves_delete; [|exact Ha']. intros k Hk. cbn [history_db set_history].
    rewrite has_db_delete, <- (hist_rows_addr cfg chain bs k Hk). setoid_rewrite Hr.
    pose proof (addr_keys_nil cfg k). unfold hist_rows. tauto.
Qed.

(** ** The transaction store *)

Lemma tx_rows_app bs bs' r : tx_rows cfg (bs ++ bs') r <-> tx_rows cfg bs r \/ tx_rows cfg bs' r.
Proof. unfold tx_rows. set_solver. Qed.
Lemma tx_rows_elem bs r : r ∈ add_blocks bs cfg <-> tx_rows cfg bs r.
Proof. apply add_blocks_elem. Qed.

Lemma ix_add_holds (s : Store D) chain bs done :
  chain_sane chain -> (forall b, b ∈ done ++ bs -> b ∈ chain) ->
  txstore_holds cfg (txstore_db s) done ->
  txstore_holds cfg (txstore_db (ix_add cfg AddBlocks bs s)) (done ++ bs).
Proof.
  intros Hs Hbs Hh. cbn. unfold txstore_holds in *.
  rewrite (db_holds_proper _ _ _ (fun r => tx_rows cfg done r \/ r ∈ add_blocks bs cfg)).
  - apply db_holds_write; [done|]. intros r r' Hr Hr' Hk.
    rewrite tx_rows_elem, <- tx_rows_app in Hr, Hr'.
    destruct Hr as (b & Hb & Hr), Hr' as (b' & Hb' & Hr').
    by eapply (add_row_key cfg chain b b'); eauto.
  - intros r. by rewrite tx_rows_elem, tx_rows_app.
Qed.

Lemma ix_delete_holds (s : Store D) chain bs rest :
  chain_sane chain -> (forall b, b ∈ bs ++ rest -> b ∈ chain) -> NoDup (bs ++ rest) ->
  txstore_holds cfg (txstore_db s) (bs ++ rest) ->
  txstore_holds cfg (txstore_db (ix_add cfg DeleteBlocks bs s)) rest.
Proof.
  intros Hs Hbs Hn Hh. cbn. apply NoDup_app in Hn as (_ & Hdis & _). apply db_holds_delete.
  - unfold txstore_holds in Hh. revert Hh. apply db_holds_proper.
    intros r. rewrite tx_rows_elem, tx_rows_app. tauto.
  - intros r r' _ (b & Hb & Hr) (b' & Hb' & Hr')%tx_rows_elem Hk.
    destruct (add_row_key cfg chain b b' r r') as [-> _]; [done|set_solver..|done|done|done|].
    by eapply Hdis.
Qed.

(** The other fields of the store, and the tip row. *)
Definition same_but_tx (s s' : Store D) : Prop :=
  history_db s' = history_db s /\ cache_db s' = cache_db s /\
  indexed_blockhashes s' = indexed_blockhashes s /\ indexed_headers s' = indexed_headers s /\
  rdb_get (txstore_db s') key_t = rdb_get (txstore_db s) key_t.

#[export] Instance same_but_tx_preorder : PreOrder same_but_tx.
Proof.
  split; [by intros s|]. intros s1 s2 s3 (?&?&?&?&?) (?&?&?&?&?).
  unfold same_but_tx. split_and!; congruence.
Qed.

Lemma ix_add_same op bs (s : Store D) : same_but_tx s (ix_add cfg op bs s).
Proof.
  assert (forall r, r ∈ add_blocks bs cfg -> dbr_key r <> key_t) as Hk.
  { intros r (b & _ & Hr)%tx_rows_elem. by apply add_row_tx_key in Hr as (? & _). }
  destruct op; cbn; split_and!; try done; cbn.
  - by apply get_db_write_other.
  - rewrite get_db_delete, decide_False; [done|]. intros (r & Heq & Hr)%elem_of_map. by apply (Hk r).
  - rewrite get_db_delete, decide_False; [done|]. intros (r & Heq & Hr)%elem_of_map. by apply (Hk r).
Qed.
Lemma add_batches_same op batches (s : Store D) : same_but_tx s (add_batches cfg op batches s).
Proof.
  revert s. induction batches as [|bs batches IH]; intros s; cbn; [reflexivity|].
  etransitivity; [apply ix_add_same|apply IH].
Qed.

Lemma batch_hashes_app bs bs' : batch_hashes (bs ++ bs') = batch_hashes bs ∪ batch_hashes bs'.
Proof. unfold batch_hashes. rewrite map_app. by rewrite list_to_set_app_L. Qed.

Lemma add_batches_add batches : forall (s : Store D) chain done,
  chain_sane chain -> (forall b, b ∈ done ++ concat batches -> b ∈ chain) ->
  txstore_holds cfg (txstore_db s) done ->
  let s' := add_batches cfg AddBlocks batches s in
  txstore_holds cfg (txstore_db s') (done ++ concat batches) /\
  added_blockhashes s' = added_blockhashes s ∪ batch_hashes (concat batches).
Proof.
  induction batches as [|bs batches IH]; intros s chain done Hs Hbs Hh; cbv zeta; cbn [concat].
  { rewrite app_nil_r. split; [done|]. cbn. set_solver. }
  change (add_batches cfg AddBlocks (bs :: batches) s)
    with (add_batches cfg AddBlocks batches (ix_add cfg AddBlocks bs s)).
  cbn [concat] in Hbs.
  destruct (IH (ix_add cfg AddBlocks bs s) chain (done ++ bs)) as [H1 H2]; [done|set_solver| |].
  { eapply ix_add_holds; [done| |done]. set_solver. }
  rewrite <- app_assoc in H1. split; [done|]. rewrite H2, batch_hashes_app. cbn. set_solver.
Qed.

Lemma add_batches_delete batches : forall (s : Store D) chain rest,
  chain_sane chain -> (forall b, b ∈ concat batches ++ rest -> b ∈ chain) ->
  NoDup (concat batches ++ rest) ->
  txstore_holds cfg (txstore_db s) (concat batches ++ rest) ->
  let s' := add_batches cfg DeleteBlocks batches s in
  txstore_holds cfg (txstore_db s') rest /\
  added_blockhashes s' = added_blockhashes s ∖ batch_hashes (concat batches).
Proof.
  induction batches as [|bs batches IH]; intros s chain rest Hs Hbs Hn Hh; cbv zeta; cbn [concat].
  { split; [done|]. cbn. set_solver. }
  change (add_batches cfg DeleteBlocks (bs :: batches) s)
    with (add_batches cfg DeleteBlocks batches (ix_add cfg DeleteBlocks bs s)).
  cbn [concat] in Hbs, Hn, Hh. rewrite <- app_assoc in *.
  destruct (IH (ix_add cfg DeleteBlocks bs s) chain rest) as [H1 H2]; [done|set_solver| | |].
  { by apply NoDup_app in Hn as (_ & _ & ?). }
  { by eapply ix_delete_holds. }
  split; [done|]. rewrite H2, batch_hashes_app. cbn. set_solver.
Qed.
End sync.

(** ** [update] *)

Section update.
Context {D : Type} {RDB : RocksDB D} {RDBL : RocksDBLaws D}.
Context {BL : BitcoinLib} {BLaws : BitcoinLaws} {W : Wincode} {WL : WincodeLaws}.
Context (cfg : IndexerConfig) (block_of : BlockHash -> Block).

Definition blocks_of (es : list HeaderEntry) : list BlockEntry := map (entry_block block_of) es.

(** The contract of the store: the databases are the image of the best chain. *)
Record synced (s : Store D) : Prop := {
  sy_wf : hl_wf (indexed_headers s);
  sy_sane : chain_sane (blocks_of (headers (indexed_headers s)));
  sy_txstore : txstore_holds cfg (txstore_db s) (blocks_of (headers (indexed_headers s)));
  sy_history : history_holds cfg (history_db s) (blocks_of (headers (indexed_headers s)))
                 (blocks_of (headers (indexed_headers s)));
  sy_added : added_blockhashes s = list_to_set (he_hash <$> headers (indexed_headers s));
  sy_tip : rdb_get (txstore_db s) key_t =
    match headers (indexed_headers s) with [] => None | _ => Some (as_bytes (tip_hash (indexed_headers s))) end;
}.

(** What a fetcher owes the indexer: the requested blocks, each once. *)
Definition delivers (from : FetchFrom) (daemon : Daemon) : Prop :=
  forall es, NoDup (he_hash <$> es) -> exists batches,
    start_fetcher from daemon es = Ok batches /\ concat batches ≡ₚ blocks_of es.

Lemma serves_delivers daemon : serves daemon block_of -> delivers Bitcoind daemon.
Proof.
  intros Hs es _. destruct (bitcoind_fetcher_eq daemon block_of es Hs) as [H _].
  eexists. split; [apply H|]. by rewrite fetched_concat.
Qed.

Lemma blocks_of_elem es b : b ∈ blocks_of es <-> exists e, e ∈ es /\ b = entry_block block_of e.
Proof. unfold blocks_of. rewrite elem_of_map. naive_solver. Qed.
Lemma batch_hashes_blocks es : batch_hashes (blocks_of es) = list_to_set (he_hash <$> es).
Proof. unfold batch_hashes, blocks_of. by rewrite map_map. Qed.
Lemma batch_hashes_perm bs bs' : bs ≡ₚ bs' -> batch_hashes bs = batch_hashes bs'.
Proof. intros Hp. unfold batch_hashes. change (map ?f ?l) with (f <$> l). by rewrite Hp. Qed.
Lemma blocks_of_NoDup es : NoDup (he_hash <$> es) -> NoDup (blocks_of es).
Proof.
  intros Hn. unfold blocks_of. apply (NoDup_fmap_1 (fun b => he_hash (be_entry b))).
  change (map ?f ?l) with (f <$> l). by rewrite <- list_fmap_compose.
Qed.

(** Both predicates only look at which blocks are in the lists. *)
Lemma txstore_holds_ext (d : D) bs bs' :
  (forall b, b ∈ bs <-> b ∈ bs') -> txstore_holds cfg d bs -> txstore_holds cfg d bs'.
Proof.
  intros He. unfold txstore_holds. apply db_holds_proper. intros r. unfold tx_rows. by setoid_rewrite He.
Qed.
Lemma history_holds_ext (d : D) chain chain' bs bs' :
  (forall b, b ∈ bs <-> b ∈ bs') ->
  (forall b r, b ∈ bs -> hist_row cfg chain b r <-> hist_row cfg chain' b r) ->
  history_holds cfg d chain bs -> history_holds cfg d chain' bs'.
Proof.
  intros He Hr. unfold history_holds. apply db_holds_proper. intros r. unfold hist_rows.
  split; intros (b & Hb & Hrow); exists b; (split; [by apply He|]).
  - by apply Hr; [apply He|].
  - by apply Hr.
Qed.

Lemma compaction_ok (d : D) : exists d', start_auto_compactions d = Ok d' /\
  (forall k, k <> key_F -> rdb_get d' k = rdb_get d k) /\
  (forall (P : Bytes -> Prop) R, ~ P key_F -> db_holds P d R -> db_holds P d' R).
Proof.
  unfold start_auto_compactions, db_get, db_put_sync. destruct (rdb_get d key_F) eqn:E; [by exists d|].
  rewrite get_put, decide_True by done. cbn. eexists. split; [done|]. split.
  - intros k Hk. by rewrite get_put, decide_False by congruence.
  - intros P R HP Hh. by apply db_holds_put.
Qed.

Lemma tx_key_t : ~ tx_key key_t. Proof. intros (? & _). done. Qed.
Lemma tx_key_F : ~ tx_key key_F. Proof. intros (_ & ? & _). done. Qed.
Lemma hist_key_F : ~ hist_key key_F. Proof. intros (? & _). done. Qed.
Lemma addr_key_not_F k : is_addr_key k -> k <> key_F. Proof. by intros Hk ->. Qed.

(** Rolling back the blocks above the fork point. *)
Lemma reorg_rolls_back daemon (s : Store D) es kept removed :
  serves daemon block_of -> es = kept ++ removed -> NoDup (he_hash <$> es) ->
  chain_sane (blocks_of es) ->
  txstore_holds cfg (txstore_db s) (blocks_of es) ->
  history_holds cfg (history_db s) (blocks_of es) (blocks_of es) ->
  added_blockhashes s = list_to_set (he_hash <$> es) ->
  exists s', ix_reorg daemon cfg (reverse removed) s = (s', Ok tt) /\
    txstore_holds cfg (txstore_db s') (blocks_of kept) /\
    history_holds cfg (history_db s') (blocks_of es) (blocks_of kept) /\
    added_blockhashes s' = list_to_set (he_hash <$> kept) /\
    indexed_blockhashes s' = indexed_blockhashes s /\ indexed_headers s' = indexed_headers s /\
    addr_moves cfg (history_db s) (history_db s') (blocks_of removed) [].
Proof.
  intros Hsv -> Hn Hs Htx Hh Ha.
  destruct (bitcoind_fetcher_eq daemon block_of (reverse removed) Hsv) as [_ Hf].
  set (batches := map (map (entry_block block_of)) (chunks 100 (reverse removed))) in *.
  assert (concat batches = blocks_of (reverse removed)) as Hc by apply fetched_concat.
  assert (forall b, b ∈ concat batches ++ blocks_of kept <-> b ∈ blocks_of (kept ++ removed)) as Hel.
  { intros b. rewrite Hc, elem_of_app, !blocks_of_elem. set_solver. }
  assert (NoDup (concat batches ++ blocks_of kept)) as Hnd.
  { rewrite Hc. unfold blocks_of. rewrite <- map_app. apply blocks_of_NoDup.
    rewrite fmap_app, fmap_reverse, reverse_Permutation, (comm (++)), <- fmap_app. done. }
  destruct (index_batches_delete cfg batches s (blocks_of (kept ++ removed)) (blocks_of kept))
    as (d & scripts & Hi & Hd & Hmv); [done|done|by intros b ?%Hel|done| |].
  { eapply history_holds_ext; [|done|done]. intros b. by rewrite Hel. }
  destruct (add_batches_delete cfg batches (set_history s d) (blocks_of (kept ++ removed)) (blocks_of kept))
    as [Ht Had]; [done|by intros b ?%Hel|done| |].
  { eapply txstore_holds_ext; [|done]. intros b. by rewrite Hel. }
  destruct (add_batches_same cfg DeleteBlocks batches (set_history s d)) as (Hhist & _ & Hix & Hhl & _).
  eexists. unfold ix_reorg. cbv [mbind SR_bind lift modify]. rewrite Hf, Hi.
  split; [reflexivity|]. cbn [set_cache txstore_db history_db added_blockhashes indexed_blockhashes indexed_headers].
  split; [done|]. split; [by rewrite Hhist|]. split; [|rewrite Hix, Hhl, Hhist; split_and!; try done].
  2: { revert Hmv. apply addr_moves_ext; [|done]. intros b. rewrite Hc, !blocks_of_elem.
       by setoid_rewrite elem_of_reverse. }
  rewrite Had, Hc, batch_hashes_blocks. cbn. rewrite Ha, fmap_app, list_to_set_app_L.
  rewrite fmap_app in Hn. apply NoDup_app in Hn as (_ & Hdis & _). set_solver.
Qed.

(** Writing the blocks above the fork point: all of them to the transaction store, and
    those that were not found indexed at start-up to the history store. *)
Lemma roll_forward_writes daemon from (s : Store D) kept new tip :
  let fresh := headers_to_index s new in
  delivers from daemon -> NoDup (he_hash <$> kept ++ new) ->
  chain_sane (blocks_of (kept ++ new)) ->
  txstore_holds cfg (txstore_db s) (blocks_of kept) ->
  history_holds cfg (history_db s) (blocks_of kept) (blocks_of kept) ->
  added_blockhashes s = list_to_set (he_hash <$> kept) ->
  exists s', roll_forward daemon from cfg new tip s = (s', Ok tt) /\
    txstore_holds cfg (txstore_db s') (blocks_of (kept ++ new)) /\
    history_holds cfg (history_db s') (blocks_of (kept ++ new)) (blocks_of (kept ++ fresh)) /\
    added_blockhashes s' = list_to_set (he_hash <$> kept ++ new) /\
    rdb_get (txstore_db s') key_t = Some (as_bytes tip) /\ indexed_headers s' = indexed_headers s /\
    indexed_blockhashes s' = indexed_blockhashes s /\
    addr_moves cfg (history_db s) (history_db s') [] (blocks_of fresh).
Proof.
  intros fresh Hdl Hn Hs Htx Hh Ha.
  pose proof Hn as (_ & Hdis & Hnn)%(eq_ind_r (fun l => NoDup l -> _) (fun H => proj1 (NoDup_app _ _) H) (fmap_app he_hash kept new)).
  assert (forall l l', blocks_of (l ++ l') = blocks_of l ++ blocks_of l') as Hbapp
    by (intros; unfold blocks_of; by rewrite map_app).
  assert (forall e, e ∈ fresh -> e ∈ new) as Hsub by (intros e; apply list_elem_of_filter).
  destruct (Hdl new Hnn) as (batches & Hf & Hp).
  destruct (Hdl fresh) as (batches' & Hf' & Hp').
  { eapply sublist_NoDup; [exact Hnn|]. apply fmap_sublist, sublist_filter. }
  assert (headers_to_add s new = new) as Hadd.
  { apply filter_all. intros e He. rewrite Ha, elem_of_list_to_set. intros Hin.
    apply (Hdis (he_hash e)); [done|]. by apply list_elem_of_fmap_2. }
  destruct (add_batches_add cfg batches s (blocks_of (kept ++ new)) (blocks_of kept)) as [Ht1 Ha1];
    [done|intros b; rewrite Hp, Hbapp; done|done|].
  destruct (add_batches_same cfg AddBlocks batches s) as (Hh1 & _ & Hi1 & Hl1 & _).
  set (s1 := add_batches cfg AddBlocks batches s) in *.
  destruct (compaction_ok (txstore_db s1)) as (d1 & Hc1 & _ & Hd1).
  assert (headers_to_index (set_txstore s1 d1) new = fresh) as Hidx.
  { unfold fresh, headers_to_index. cbn. by rewrite Hi1. }
  assert (txstore_holds cfg d1 (blocks_of (kept ++ new))) as Ht2.
  { apply Hd1; [apply tx_key_F|]. revert Ht1. apply txstore_holds_ext. intros b. by rewrite Hp, Hbapp. }
  destruct (index_batches_add cfg batches' (set_txstore s1 d1) (blocks_of (kept ++ new)) (blocks_of kept))
    as (d2 & Hib & Hd2 & Hm2); [done|done| | |].
  { intros b Hb. cbn. rewrite Ha1. rewrite Hp', blocks_of_elem in Hb. destruct Hb as (e & He%Hsub & ->).
    rewrite (batch_hashes_perm _ _ Hp), batch_hashes_blocks, Hbapp, elem_of_app, !blocks_of_elem,
      elem_of_union, elem_of_list_to_set.
    split; right; [by exists e|]. by apply list_elem_of_fmap_2. }
  { cbn. rewrite Hh1. revert Hh. apply history_holds_ext; [done|]. intros b r Hb. rewrite Hbapp.
    symmetry. apply hist_row_prefix; [by rewrite <- Hbapp|done]. }
  destruct (compaction_ok d2) as (d3 & Hc3 & Hg3 & Hd3).
  destruct (compaction_ok (cache_db (set_txstore s1 d1))) as (d4 & Hc4 & _).
  eexists. unfold roll_forward. cbv [mbind SR_bind lift gets modify]. rewrite Hadd, Hf.
  fold s1. rewrite Hc1, Hidx, Hf', Hib. cbn [history_db set_history]. rewrite Hc3.
  cbn [cache_db set_history]. rewrite Hc4. split; [reflexivity|]. cbn.
  split; [apply db_holds_put; [apply tx_key_t|done]|]. split.
  { apply Hd3; [apply hist_key_F|]. revert Hd2. apply history_holds_ext; [|done].
    intros b. by rewrite Hp', Hbapp. }
  split; [by rewrite Ha1, Ha, (batch_hashes_perm _ _ Hp), batch_hashes_blocks, fmap_app, list_to_set_app_L|].
  split; [by rewrite get_put, decide_True by done|]. split; [done|]. split; [done|].
  eapply addr_moves_get; [|intros k Hk; apply Hg3; by apply addr_key_not_F].
  cbn in Hm2. rewrite Hh1 in Hm2. revert Hm2. apply addr_moves_ext; [done|]. intros b. by rewrite Hp'.
Qed.
End update.

(** ** Checking a concrete chain *)

#[export] Instance BlockEntry_eq_dec : EqDecision BlockEntry.
Proof. solve_decision. Defined.

Section check_chain.
Context {BL : BitcoinLib}.

Definition find_txo (chain : list BlockEntry) (o : OutPoint) : option TxOut :=
  if decide (op_vout o < 0)%Z then None
  else head (filter (fun txo => is_spendable txo = true)
    (omap (fun tx => if decide (get_txid tx = op_txid o) then tx_output tx !! Z.to_nat (op_vout o) else None)
       (concat (map (fun b => txdata (be_block b)) chain)))).

Lemma find_txo_sound chain o txo : find_txo chain o = Some txo -> chain_txo chain o txo.
Proof.
  unfold find_txo. case_decide as Hv; [done|]. intros Hf%head_Some_elem_of.
  apply list_elem_of_filter in Hf as [Hsp Hf]. apply list_elem_of_omap in Hf as (tx & Htx & Hi).
  apply elem_of_concat_map in Htx as (b & Hb & Htx). case_decide; [|done].
  exists b, tx, (Z.to_nat (op_vout o)). rewrite Z2Nat.id by lia. done.
Qed.

Fixpoint valid_from (pre chain : list BlockEntry) : bool :=
  match chain with
  | [] => true
  | b :: rest =>
      forallb (fun tx => forallb (fun txi => negb (has_prevout txi) ||
        bool_decide (is_Some (find_txo (pre ++ [b]) (previous_output txi)))) (tx_input tx))
        (txdata (be_block b)) && valid_from (pre ++ [b]) rest
  end.

Lemma valid_from_sound chain pre p b q tx txi :
  valid_from pre chain = true -> chain = p ++ b :: q ->
  tx ∈ txdata (be_block b) -> txi ∈ tx_input tx -> has_prevout txi = true ->
  exists txo, chain_txo (pre ++ p ++ [b]) (previous_output txi) txo.
Proof.
  revert pre p. induction chain as [|x chain IH]; intros pre p Hv Heq Htx Htxi Hp; [by destruct p|].
  cbn in Hv. apply andb_true_iff in Hv as [Hx Hv]. destruct p as [|y p]; cbn in Heq; injection Heq as -> ->.
  - rewrite forallb_forall in Hx. apply list_elem_of_In, Hx in Htx.
    rewrite forallb_forall in Htx. apply list_elem_of_In, Htx in Htxi. rewrite Hp in Htxi. cbn in Htxi.
    apply bool_decide_eq_true in Htxi as [txo Ht]. exists txo. by apply find_txo_sound.
  - destruct (IH (pre ++ [y]) p Hv eq_refl Htx Htxi Hp) as [txo Ht]. exists txo.
    by rewrite <- app_assoc in Ht.
Qed.

Definition in_range_b (b : BlockEntry) : bool :=
  bool_decide (is_u32 (Z.of_nat (he_height (be_entry b)))) &&
  forallb (fun tx =>
    bool_decide (Z.of_nat (length (tx_output tx)) <= u32_mod)%Z &&
    forallb (fun txo => bool_decide (is_u64 (txo_value txo))) (tx_output tx) &&
    bool_decide (Z.of_nat (length (tx_input tx)) <= u32_mod)%Z &&
    forallb (fun txi => bool_decide (is_u32 (op_vout (previous_output txi)))) (tx_input tx))
    (txdata (be_block b)).

Lemma in_range_sound b : in_range_b b = true -> block_in_range b.
Proof.
  unfold in_range_b. rewrite andb_true_iff, bool_decide_eq_true, forallb_forall.
  intros [Hh Htx].
  assert (forall tx, tx ∈ txdata (be_block b) -> _) as Htx' by (intros tx Hin%list_elem_of_In; apply (Htx tx Hin)).
  clear Htx. split; [done|..]; intros tx i x Hin Hi; apply Htx' in Hin;
    rewrite !andb_true_iff, !bool_decide_eq_true, !forallb_forall in Hin;
    destruct Hin as [[[Ho Hv] Hl] Hp]; pose proof (lookup_lt_Some _ _ _ Hi);
    apply list_elem_of_lookup_2, list_elem_of_In in Hi.
  - apply Hv, bool_decide_eq_true in Hi. split; [|done]. unfold is_u32. lia.
  - apply Hp, bool_decide_eq_true in Hi. split; [|done]. unfold is_u32. lia.
Qed.

Lemma NoDup_concat_map_inj {A B} (f : A -> list B) (l : list A) x y z :
  NoDup (concat (map f l)) -> x ∈ l -> y ∈ l -> z ∈ f x -> z ∈ f y -> x = y.
Proof.
  induction l as [|a l IH]; cbn; [set_solver|]. intros (_ & Hd & Hn)%NoDup_app Hx Hy Hzx Hzy.
  assert (forall w, w ∈ l -> z ∈ f w -> z ∈ concat (map f l)) as Hin
    by (intros w ? ?; apply elem_of_concat_map; eauto).
  apply elem_of_cons in Hx as [->|Hx], Hy as [->|Hy]; auto; exfalso; eapply Hd; eauto.
Qed.

Lemma NoDup_map_inj {A B} (f : A -> B) (l : list A) x y :
  NoDup (map f l) -> x ∈ l -> y ∈ l -> f x = f y -> x = y.
Proof.
  intros Hn [i Hi]%list_elem_of_lookup [j Hj]%list_elem_of_lookup He.
  assert (i = j) as ->; [|congruence]. apply (NoDup_lookup _ _ _ (f x) Hn);
    change (map f l) with (f <$> l); rewrite list_lookup_fmap, ?Hi, ?Hj; cbn; congruence.
Qed.

Lemma NoDup_concat_elem {A} (L : list (list A)) l : NoDup (concat L) -> l ∈ L -> NoDup l.
Proof.
  induction L as [|x L IH]; cbn; [set_solver|]. intros (Hx & _ & Hn)%NoDup_app [->|Hl]%elem_of_cons; auto.
Qed.

Lemma chain_sane_check (chain : list BlockEntry) :
  NoDup (map (fun b => he_hash (be_entry b)) chain) ->
  NoDup (map (fun b => he_height (be_entry b)) chain) ->
  NoDup (concat (map (fun b => map get_txid (txdata (be_block b))) chain)) ->
  forallb in_range_b chain = true -> valid_from [] chain = true -> chain_sane chain.
Proof.
  intros H1 H2 H3 H4 H5. split.
  - intros b b' Hb Hb'. by apply (NoDup_map_inj _ _ _ _ H1).
  - intros b b' Hb Hb'. by apply (NoDup_map_inj _ _ _ _ H2).
  - intros b b' tx tx' Hb Hb' Htx Htx' He.
    assert (b = b') as <-.
    { apply (NoDup_concat_map_inj _ _ b b' (get_txid tx) H3); try done; apply elem_of_map; eauto. }
    split; [done|]. apply (NoDup_map_inj get_txid (txdata (be_block b))); try done.
    apply (NoDup_concat_elem _ _ H3). apply elem_of_map. eauto.
  - intros b Hb. apply in_range_sound. rewrite forallb_forall in H4. by apply H4, list_elem_of_In.
  - intros pre b post tx txi Heq Htx Htxi Hp.
    apply (valid_from_sound chain [] pre b post tx txi H5 Heq Htx Htxi Hp).
Qed.
End check_chain.

(** ** Opening the store again *)

Section reopen.
Context {D : Type} {RDB : RocksDB D} {RDBL : RocksDBLaws D}.
Context {BL : BitcoinLib} {BLaws : BitcoinLaws} {W : Wincode} {WL : WincodeLaws}.
Context (cfg : IndexerConfig) (block_of : BlockHash -> Block).

Definition version_ok (d : D) (light : bool) : Prop :=
  rdb_get d key_V = None \/ rdb_get d key_V = Some (compatibility_bytes light).

Lemma verify_ok d light : version_ok d light -> exists d', verify_compatibility d light = Ok d' /\
  forall k, k <> key_V -> rdb_get d' k = rdb_get d k.
Proof.
  unfold verify_compatibility, db_get, db_put. intros [-> | ->].
  - eexists. split; [done|]. intros k Hk. by rewrite get_put, decide_False.
  - rewrite decide_True by done. by exists d.
Qed.

Lemma db_holds_get (P : Bytes -> Prop) (d d' : D) R :
  (forall k, P k -> rdb_get d' k = rdb_get d k) -> db_holds P d R -> db_holds P d' R.
Proof. intros Hg Hh k v HP. rewrite Hg by done. by apply Hh. Qed.

Lemma add_row_done_inv b r :
  add_row cfg b r -> starts_with (dbr_key r) done_filter = true ->
  r = block_into_row (block_row_done (he_hash (be_entry b))).
Proof. by destruct 1. Qed.
Lemma add_row_header_inv b r :
  add_row cfg b r -> starts_with (dbr_key r) header_filter = true ->
  r = block_into_row (block_row_header (he_hash (be_entry b)) (block_header (be_block b))).
Proof. by destruct 1. Qed.
Lemma hist_row_done_inv chain b r :
  hist_row cfg chain b r -> starts_with (dbr_key r) done_filter = true ->
  r = block_into_row (block_row_done (he_hash (be_entry b))).
Proof.
  destruct 1 as [| tx i txo row _ _ _ _ Ha | | |]; try done.
  unfold addr_search_row in Ha. destruct (to_address_str _ _); cbn in Ha; by simplify_eq.
Qed.

(** Scanning with a one-byte prefix other than those of the marker rows. *)
Lemma scan_holds (P : Bytes -> Prop) (d : D) R c r :
  db_holds P d R -> (forall k, starts_with k [c] = true -> P k) ->
  r ∈ scan_rows (iter_scan d [c]) <-> R r /\ starts_with (dbr_key r) [c] = true.
Proof.
  intros Hh HP. rewrite iter_scan_rows. split; intros [Hr Hs]; (split; [|done]).
  - apply Hh in Hr; [|by apply HP]. by destruct r.
  - apply Hh; [by apply HP|]. by destruct r.
Qed.

Lemma rmap_list_to_set {A} (f : A -> result BlockRow) rows (es : list HeaderEntry) :
  (forall r, r ∈ rows -> exists br, f r = Ok br /\ bk_hash br ∈ he_hash <$> es) ->
  (forall e, e ∈ es -> exists r br, r ∈ rows /\ f r = Ok br /\ bk_hash br = he_hash e) ->
  exists brs, rmap f rows = Ok brs /\
    (list_to_set (map bk_hash brs) : gset BlockHash) = list_to_set (he_hash <$> es).
Proof.
  intros H1 H2. destruct (rmap_total f rows) as [brs Hb].
  { intros r Hr. destruct (H1 r Hr) as (br & -> & _). by eexists. }
  exists brs. split; [done|]. apply set_eq. intros h. rewrite !elem_of_list_to_set, elem_of_map.
  apply rmap_Ok_Forall2 in Hb. split.
  - intros (br & -> & [i Hi]%list_elem_of_lookup).
    destruct (Forall2_lookup_r _ _ _ _ _ Hb Hi) as (r & Hr & Hfr).
    destruct (H1 r) as (br' & Hfr' & Hin); [by eapply list_elem_of_lookup_2|]. congruence.
  - intros (e & -> & He)%list_elem_of_fmap. destruct (H2 e He) as (r & br & Hr & Hfr & Hh).
    apply list_elem_of_lookup in Hr as [i Hi].
    destruct (Forall2_lookup_l _ _ _ _ _ Hb Hi) as (br' & Hbr & Hfr').
    assert (br' = br) as -> by congruence.
    exists br. split; [done|]. by eapply list_elem_of_lookup_2.
Qed.

Lemma load_blockhashes_done (P : Bytes -> Prop) (d : D) R es :
  db_holds P d R -> (forall k, starts_with k done_filter = true -> P k) ->
  (forall r, R r -> starts_with (dbr_key r) done_filter = true ->
     exists e, e ∈ es /\ r = block_into_row (block_row_done (he_hash e))) ->
  (forall e, e ∈ es -> R (block_into_row (block_row_done (he_hash e)))) ->
  load_blockhashes d done_filter = Ok (list_to_set (he_hash <$> es)).
Proof.
  intros Hh HP HR HR'. unfold load_blockhashes.
  destruct (rmap_list_to_set block_from_row (scan_rows (iter_scan d done_filter)) es)
    as (brs & -> & Hset); [| |cbn; by rewrite Hset].
  - intros r (Hr & Hs)%(scan_holds P d R _ _ Hh HP). destruct (HR r Hr Hs) as (e & He & ->).
    rewrite block_from_into. eexists. split; [done|]. cbn. by apply (list_elem_of_fmap_2 he_hash).
  - intros e He. exists (block_into_row (block_row_done (he_hash e))), (block_row_done (he_hash e)).
    rewrite block_from_into. split; [|done]. apply (scan_holds P d R _ _ Hh HP).
    split; [by apply HR'|]. apply (starts_with_app [_] (as_bytes (he_hash e))).
Qed.

Lemma prefix_tx_key c k :
  (c =? 116)%Z || (c =? 70)%Z || (c =? 86)%Z = false -> starts_with k [c] = true -> tx_key k.
Proof.
  rewrite !orb_false_iff, !Z.eqb_neq. intros [[H1 H2] H3]. intros [r ->]%starts_with_spec.
  split_and!; intros [= Hc _]; done.
Qed.
Lemma prefix_hist_key c k :
  (c =? 97)%Z || (c =? 70)%Z || (c =? 86)%Z = false -> starts_with k [c] = true -> hist_key k.
Proof.
  rewrite !orb_false_iff, !Z.eqb_neq. intros [[H1 H2] H3]. intros [r ->]%starts_with_spec. unfold hist_key, is_addr_key.
  split_and!; [intros [= Hc _]; done..|]. cbn. congruence.
Qed.

Lemma load_blockheaders_chain (d : D) es :
  txstore_holds cfg d (blocks_of block_of es) -> NoDup (he_hash <$> es) ->
  exists m, load_blockheaders d = Ok m /\
    forall e, e ∈ es -> m !! he_hash e = Some (block_header (block_of (he_hash e))).
Proof.
  intros Hh Hn. unfold load_blockheaders.
  assert (forall r, r ∈ scan_rows (iter_scan d header_filter) <-> exists e, e ∈ es /\
    r = block_into_row (block_row_header (he_hash e) (block_header (block_of (he_hash e))))) as Hscan.
  { intros r. unfold header_filter. rewrite (scan_holds _ _ _ _ _ Hh).
    2: { intros k. by apply prefix_tx_key. }
    split.
    - intros [(b & (e & He & ->)%blocks_of_elem & Hr) Hs]. exists e. split; [done|].
      by apply add_row_header_inv in Hr.
    - intros (e & He & ->). split; [|apply (starts_with_app [_] (as_bytes (he_hash e)))].
      exists (entry_block block_of e).
      split; [apply blocks_of_elem; eauto|]. apply (ar_header cfg (entry_block block_of e)). }
  match goal with |- context [rmap ?f ?l] => destruct (rmap_total f l) as [pairs Hp] end.
  { intros r (e & He & ->)%Hscan. rewrite block_from_into. cbn. rewrite de_ser_header. by eexists. }
  rewrite Hp. eexists. split; [done|]. apply rmap_Ok_Forall2 in Hp.
  assert (forall h hd, (h, hd) ∈ pairs <-> exists e, e ∈ es /\ h = he_hash e /\
    hd = block_header (block_of (he_hash e))) as Hpairs.
  { intros h hd. split.
    - intros [i Hi]%list_elem_of_lookup. destruct (Forall2_lookup_r _ _ _ _ _ Hp Hi) as (r & Hr & Hf).
      apply list_elem_of_lookup_2, Hscan in Hr as (e & He & ->).
      rewrite block_from_into in Hf. cbn in Hf. rewrite de_ser_header in Hf. cbn in Hf.
      exists e. by simplify_eq.
    - intros (e & He & -> & ->).
      assert (block_into_row (block_row_header (he_hash e) (block_header (block_of (he_hash e))))
        ∈ scan_rows (iter_scan d header_filter)) as [i Hi]%list_elem_of_lookup by (apply Hscan; eauto).
      destruct (Forall2_lookup_l _ _ _ _ _ Hp Hi) as (p & Hpi & Hf).
      rewrite block_from_into in Hf. cbn in Hf. rewrite de_ser_header in Hf. cbn in Hf.
      injection Hf as <-. by eapply list_elem_of_lookup_2. }
  intros e He. apply elem_of_list_to_map_1'.
  - intros hd (e' & He' & Heq & ->)%Hpairs. by rewrite Heq.
  - apply Hpairs. eauto.
Qed.
End reopen.

(** ** Properties *)

Section properties.
Context {D : Type} {RDB : RocksDB D} {RDBL : RocksDBLaws D}.
Context {BL : BitcoinLib} {BLaws : BitcoinLaws} {W : Wincode} {WL : WincodeLaws}.
Context (cfg : IndexerConfig) (block_of : BlockHash -> Block).

Lemma roll_back_undoes daemon (s : Store D) hl kept removed rb :
  serves daemon block_of -> synced cfg block_of s -> headers (indexed_headers s) = kept ++ removed ->
  NoDup (he_hash <$> kept ++ removed) ->
  exists s', roll_back daemon cfg (reverse removed) rb (set_headers s hl) = (s', Ok tt) /\
    txstore_holds cfg (txstore_db s') (blocks_of block_of kept) /\
    history_holds cfg (history_db s') (blocks_of block_of kept) (blocks_of block_of kept) /\
    added_blockhashes s' = list_to_set (he_hash <$> kept) /\
    indexed_blockhashes s' = indexed_blockhashes s /\ indexed_headers s' = hl /\
    addr_moves cfg (history_db s) (history_db s') (blocks_of block_of removed) [].
Proof.
  intros Hsv Hsy Hes Hn. destruct Hsy as [_ Hsane Htx Hh Ha _]. rewrite Hes in *.
  assert (forall d, history_holds cfg d (blocks_of block_of (kept ++ removed)) (blocks_of block_of kept) ->
    history_holds cfg d (blocks_of block_of kept) (blocks_of block_of kept)) as Hpre.
  { intros d. apply history_holds_ext; [done|]. intros b r Hb. unfold blocks_of in *.
    rewrite map_app in *. by apply hist_row_prefix. }
  unfold roll_back. case_decide as Hr.
  - apply (f_equal reverse) in Hr. rewrite reverse_involutive in Hr. subst removed.
    rewrite app_nil_r in *. eexists. split; [done|]. cbn. split_and!; try done.
    apply addr_moves_refl.
  - destruct (reorg_rolls_back cfg block_of daemon (rollback_tip (set_headers s hl) rb) (kept ++ removed) kept removed)
      as (s' & Heq & H1 & H2 & H3 & H4 & H5 & H6); try done.
    + destruct rb; cbn; [apply db_holds_put|apply db_holds_del]; try done; apply tx_key_t.
    + by destruct rb.
    + by destruct rb.
    + exists s'. cbv [mbind SR_bind modify]. rewrite Heq. split; [done|]. split; [done|].
      split; [by apply Hpre|]. split; [done|]. rewrite H4, H5. by destruct rb.
Qed.

(** A store built by adding and indexing a whole chain at once is its image. *)
Definition empty_store : Store D := mkStore rdb_empty rdb_empty rdb_empty ∅ ∅ hl_empty.
Lemma empty_store_synced : synced cfg block_of empty_store.
Proof.
  split; cbn; [apply hl_reachable_wf; constructor|..]; try apply get_empty; try done.
  - split; try (intros ? ? Hb; by apply elem_of_nil in Hb).
    + intros ? ? ? ? Hb. by apply elem_of_nil in Hb.
    + intros ? Hb. by apply elem_of_nil in Hb.
    + intros [|? ?] ? ? ? ?; discriminate.
  - intros k v _. cbn. rewrite get_empty. split; [done|]. intros (b & Hb & _). by apply elem_of_nil in Hb.
  - intros k v _. cbn. rewrite get_empty. split; [done|]. intros (b & Hb & _). by apply elem_of_nil in Hb.
Qed.
Lemma synced_build hl :
  hl_wf hl -> headers hl <> [] -> chain_sane (blocks_of block_of (headers hl)) ->
  let s0 := ix_add cfg AddBlocks (blocks_of block_of (headers hl)) empty_store in
  exists d, ix_index cfg AddBlocks (blocks_of block_of (headers hl)) s0 = Ok (set_history s0 d, []) /\
    synced cfg block_of (put_tip (set_headers (set_history s0 d) hl) (tip_hash hl)) /\
    rdb_get d key_V = None.
Proof.
  intros Hw Hne Hs. cbv zeta. set (bs := blocks_of block_of (headers hl)) in *.
  destruct (add_batches_add cfg [bs] empty_store bs []) as [Ht Ha]; [done|cbn; set_solver| |].
  { intros k v _. cbn. rewrite get_empty. split; [done|]. intros (b & Hb & _). set_solver. }
  cbn [concat] in Ht, Ha. rewrite app_nil_r in Ht, Ha. cbn [app] in Ht.
  change (add_batches cfg AddBlocks [bs] empty_store) with (ix_add cfg AddBlocks bs empty_store) in *.
  set (s0 := ix_add cfg AddBlocks bs empty_store) in *.
  destruct (ix_index_add cfg s0 bs bs []) as (d & Heq & Hd & _ & Hother); [done|done|done| | |].
  { intros b Hb. rewrite Ha. unfold batch_hashes. rewrite elem_of_union, elem_of_list_to_set, elem_of_map. eauto. }
  { intros k v _. cbn. rewrite get_empty. split; [done|]. intros (b & Hb & _). set_solver. }
  exists d. split; [done|]. split.
  2: { rewrite Hother; [apply get_empty|]. intros b r Hr Hk. apply hist_row_marker in Hr. congruence. }
  split; cbn; try done.
  - apply db_holds_put; [apply tx_key_t|exact Ht].
  - subst bs. rewrite batch_hashes_blocks. set_solver.
  - rewrite get_put, decide_True by done. by destruct (headers hl).
Qed.

Lemma update_store_moves fuel daemon from (s : Store D) hs n tip :
  synced cfg block_of s -> serves daemon block_of -> delivers block_of from daemon ->
  d_getbestblockhash daemon = Ok tip ->
  get_new_headers fuel daemon (indexed_headers s) tip = Ok hs ->
  linked hs -> attaches (indexed_headers s) hs n ->
  last_hash (entries_from n hs) = tip ->
  let kept := take n (headers (indexed_headers s)) in
  let chain := kept ++ entries_from n hs in
  let fresh := headers_to_index s (entries_from n hs) in
  hashes_distinct (headers (indexed_headers s)) -> hashes_distinct chain ->
  chain_sane (blocks_of block_of chain) ->
  exists s', update_store fuel daemon from cfg s = (s', Ok tip) /\
    hl_wf (indexed_headers s') /\ headers (indexed_headers s') = chain /\
    txstore_holds cfg (txstore_db s') (blocks_of block_of chain) /\
    history_holds cfg (history_db s') (blocks_of block_of chain) (blocks_of block_of (kept ++ fresh)) /\
    addr_moves cfg (history_db s) (history_db s')
      (blocks_of block_of (drop n (headers (indexed_headers s)))) (blocks_of block_of fresh) /\
    added_blockhashes s' = list_to_set (he_hash <$> chain) /\
    rdb_get (txstore_db s') key_t = Some (as_bytes tip) /\
    indexed_blockhashes s' = indexed_blockhashes s.
Proof.
  intros Hsy Hsv Hdl Htip Hnew Hl Hat Hlast kept chain fresh Hdo Hd Hsane.
  destruct (order_apply_eq _ _ _ (sy_wf _ _ _ Hsy) Hl Hat Hd) as (hl' & Ho & Happ & Hhl' & Ht' & Hw').
  pose proof (take_drop n (headers (indexed_headers s))) as Htd.
  destruct (roll_back_undoes daemon s hl' kept (drop n (headers (indexed_headers s)))
    (if decide (n < length (headers (indexed_headers s)))
     then he_hash <$> last (take n (headers (indexed_headers s))) else None) Hsv Hsy)
    as (s1 & Hrb & H1 & H2 & H3 & H4 & H5 & H6); [by rewrite <- Htd at 1| |].
  { subst kept. rewrite Htd. apply chain_hash_NoDup; [apply (sy_wf _ _ _ Hsy)|done]. }
  destruct (roll_forward_writes cfg block_of daemon from s1 kept (entries_from n hs) tip)
    as (s2 & Hrf & G1 & G2 & G3 & G4 & G5 & G6 & G7); try done.
  { subst kept. rewrite <- Hhl'. apply chain_hash_NoDup; [apply Hw'|by rewrite Hhl']. }
  assert (headers_to_index s1 (entries_from n hs) = fresh) as Hfr.
  { unfold fresh, headers_to_index. by rewrite H4. }
  rewrite Hfr in G2, G7.
  exists s2. unfold update_store. cbv [mbind SR_bind lift gets modify mret SR_ret].
  rewrite (proj1 Hsv), Htip, Hnew, Ho, Happ, Ht', Hlast. rewrite bool_decide_eq_true_2 by done.
  cbn [rassert]. subst kept. rewrite Hrb, Hrf. split; [done|].
  rewrite G5, H5, Hhl', G6, H4. split_and!; try done. by eapply addr_moves_both.
Qed.

Lemma last_hash_attached hl l hs n :
  attaches hl hs n -> last_hash (l ++ entries_from n hs) = last_hash (entries_from n hs).
Proof.
  intros (h0 & Hh0 & _). destruct hs as [|h hs]; [done|].
  destruct (entries_from n (h :: hs)) as [|e es] eqn:E; [done|]. unfold last_hash. by rewrite last_app_cons.
Qed.
Lemma update_store_syncs fuel daemon from (s : Store D) hs n tip :
  synced cfg block_of s -> serves daemon block_of -> delivers block_of from daemon ->
  d_getbestblockhash daemon = Ok tip ->
  get_new_headers fuel daemon (indexed_headers s) tip = Ok hs ->
  linked hs -> attaches (indexed_headers s) hs n ->
  last_hash (entries_from n hs) = tip ->
  let chain := take n (headers (indexed_headers s)) ++ entries_from n hs in
  hashes_distinct (headers (indexed_headers s)) -> hashes_distinct chain ->
  chain_sane (blocks_of block_of chain) ->
  (forall h, h ∈ hs -> block_hash h ∉ indexed_blockhashes s) ->
  exists s', update_store fuel daemon from cfg s = (s', Ok tip) /\
    synced cfg block_of s' /\ headers (indexed_headers s') = chain.
Proof.
  intros Hsy Hsv Hdl Htip Hnew Hl Hat Hlast chain Hdo Hd Hsane Hix.
  destruct (update_store_moves fuel daemon from s hs n tip) as
    (s' & Hu & Hw & Hch & Ht & Hh & _ & Ha & Hk & _); try done.
  exists s'. split; [done|]. split; [|done]. split; rewrite ?Hch; try done.
  - revert Hh. subst chain. unfold headers_to_index. rewrite filter_all; [done|].
    intros e [i (h & Hh & ->)%entries_from_lookup]%list_elem_of_lookup. cbn.
    apply Hix. by eapply list_elem_of_lookup_2.
  - rewrite Hk, (wf_tip _ Hw), Hch. subst chain. rewrite (last_hash_attached _ _ _ _ Hat), Hlast.
    pose proof Hat as (h0 & Hh0 & _). destruct hs as [|h hs]; [done|].
    destruct (take _ _ ++ _) eqn:E; [by apply app_eq_nil in E as [_ E]|done].
Qed.

(** C1: [update] keeps the databases in step with bitcoind.  Let the store be the
    image of the indexed chain and let bitcoind's branch [hs] attach to that chain at
    height [n].  Then [update] returns the new tip without panicking, the header list
    becomes the spliced chain, and the transaction store, the set of added blocks and
    the tip row are exactly those of that chain.  The history store (all rows but the
    address-search rows) holds exactly the rows of the blocks kept and of the new
    blocks that are not in [indexed_blockhashes], the blocks found indexed when the
    store was opened, a set that [update] leaves as it is; so when no new block is in
    that set, the store is the image of the new chain.  Of the address-search rows,
    those of the addresses paid in rolled back blocks are gone, also where a kept block
    pays the address too, those of the new blocks just described are there, and the
    others are as before. *)
Theorem update_syncs fuel daemon from (s : Store D) hs n tip :
  synced cfg block_of s -> serves daemon block_of -> delivers block_of from daemon ->
  d_getbestblockhash daemon = Ok tip ->
  get_new_headers fuel daemon (indexed_headers s) tip = Ok hs ->
  linked hs -> attaches (indexed_headers s) hs n ->
  last_hash (entries_from n hs) = tip ->
  let kept := take n (headers (indexed_headers s)) in
  let chain := kept ++ entries_from n hs in
  let fresh := filter (fun e => he_hash e ∉ indexed_blockhashes s) (entries_from n hs) in
  hashes_distinct (headers (indexed_headers s)) -> hashes_distinct chain ->
  chain_sane (blocks_of block_of chain) ->
  exists s', update_store fuel daemon from cfg s = (s', Ok tip) /\
    headers (indexed_headers s') = chain /\
    txstore_holds cfg (txstore_db s') (blocks_of block_of chain) /\
    history_holds cfg (history_db s') (blocks_of block_of chain) (blocks_of block_of (kept ++ fresh)) /\
    addr_moves cfg (history_db s) (history_db s')
      (blocks_of block_of (drop n (headers (indexed_headers s)))) (blocks_of block_of fresh) /\
    added_blockhashes s' = list_to_set (he_hash <$> chain) /\
    rdb_get (txstore_db s') key_t = Some (as_bytes tip) /\
    indexed_blockhashes s' = indexed_blockhashes s /\
    ((forall h, h ∈ hs -> block_hash h ∉ indexed_blockhashes s) -> synced cfg block_of s').
Proof.
  intros Hsy Hsv Hdl Htip Hnew Hl Hat Hlast kept chain fresh Hdo Hd Hsane.
  destruct (update_store_moves fuel daemon from s hs n tip) as
    (s' & Hu & Hw & Hch & Ht & Hh & Hm & Ha & Hk & Hi); try done.
  exists s'. split_and!; try done. intros Hix.
  destruct (update_store_syncs fuel daemon from s hs n tip) as (s'' & Hu' & Hsy' & _); try done. congruence.
Qed.

Lemma store_open_syncs (s : Store D) light :
  synced cfg block_of s -> headers (indexed_headers s) <> [] ->
  hashes_distinct (headers (indexed_headers s)) ->
  (forall e, e ∈ headers (indexed_headers s) -> block_header (block_of (he_hash e)) = he_header e) ->
  version_ok (txstore_db s) light -> version_ok (history_db s) light -> version_ok (cache_db s) light ->
  exists s', store_open (txstore_db s) (history_db s) (cache_db s) light = Ok s' /\
    synced cfg block_of s' /\ headers (indexed_headers s') = headers (indexed_headers s) /\
    indexed_blockhashes s' = added_blockhashes s.
Proof.
  intros Hsy Hne Hd Hblk Hv1 Hv2 Hv3. destruct Hsy as [Hw Hsane Htx Hh Ha Ht].
  pose proof (wf_chain _ Hw) as Hck. pose proof (wf_tip _ Hw) as Htip.
  remember (headers (indexed_headers s)) as es eqn:Hes.
  destruct (verify_ok _ _ Hv1) as (d1 & E1 & G1), (verify_ok _ _ Hv2) as (d2 & E2 & G2),
    (verify_ok _ _ Hv3) as (d3 & E3 & _).
  assert (txstore_holds cfg d1 (blocks_of block_of es)) as Htx1.
  { revert Htx. apply db_holds_get. intros k (_ & _ & ?). by apply G1. }
  assert (history_holds cfg d2 (blocks_of block_of es) (blocks_of block_of es)) as Hh2.
  { revert Hh. apply db_holds_get. intros k (_ & ? & _). by apply G2. }
  assert (load_blockhashes d1 done_filter = Ok (list_to_set (he_hash <$> es))) as L1.
  { eapply load_blockhashes_done; [exact Htx1|intros k; by apply prefix_tx_key| |].
    - intros r (b & (e & He & ->)%blocks_of_elem & Hr) Hs. exists e. split; [done|].
      by apply add_row_done_inv in Hr.
    - intros e He. exists (entry_block block_of e). split; [apply blocks_of_elem; eauto|].
      apply (ar_done cfg (entry_block block_of e)). }
  assert (load_blockhashes d2 done_filter = Ok (list_to_set (he_hash <$> es))) as L2.
  { eapply load_blockhashes_done; [exact Hh2|intros k; by apply prefix_hist_key| |].
    - intros r (b & (e & He & ->)%blocks_of_elem & Hr) Hs. exists e. split; [done|].
      by apply hist_row_done_inv in Hr.
    - intros e He. exists (entry_block block_of e). split; [apply blocks_of_elem; eauto|].
      apply (hr_done cfg _ (entry_block block_of e)). }
  destruct (load_blockheaders_chain cfg block_of d1 es Htx1) as (m & L3 & Hm).
  { by apply chain_hash_NoDup. }
  destruct (hl_new_chain es m) as (hl & L4 & Hhl & Hwl); [done|done| |].
  { intros e He. rewrite Hm, Hblk by done. done. }
  assert (rdb_get d1 key_t = Some (as_bytes (last_hash es))) as Ht1.
  { rewrite G1, Ht, Htip by done. by destruct es. }
  exists (mkStore d1 d2 d3 (list_to_set (he_hash <$> es)) (list_to_set (he_hash <$> es)) hl).
  unfold store_open. rewrite E1. cbn [mbind result_bind]. rewrite L1. cbn [mbind result_bind].
  rewrite E2. cbn [mbind result_bind]. rewrite L2. cbn [mbind result_bind].
  rewrite E3. cbn [mbind result_bind]. unfold db_get. rewrite Ht1, mk_hash_as_bytes. cbn [unwrap mbind result_bind].
  rewrite L3. cbn [mbind result_bind]. rewrite L4. split; [done|].
  split; [|by rewrite Ha]. split; cbn; rewrite ?Hhl; try done.
  rewrite Ht1, (wf_tip _ Hwl), Hhl. by destruct es.
Qed.
(** C8: Restarting loses nothing: opening the databases of a synced store again
    rebuilds the same header list and the same set of added blocks from the
    stored rows, finds every block of the chain indexed, and gives a synced
    store. *)
Theorem store_open_recovers (s : Store D) light :
  synced cfg block_of s -> headers (indexed_headers s) <> [] ->
  hashes_distinct (headers (indexed_headers s)) ->
  (forall e, e ∈ headers (indexed_headers s) -> block_header (block_of (he_hash e)) = he_header e) ->
  version_ok (txstore_db s) light -> version_ok (history_db s) light -> version_ok (cache_db s) light ->
  exists s', store_open (txstore_db s) (history_db s) (cache_db s) light = Ok s' /\
    synced cfg block_of s' /\ headers (indexed_headers s') = headers (indexed_headers s) /\
    indexed_blockhashes s' = added_blockhashes s.
Proof. apply store_open_syncs. Qed.

(** What [update] is given: the store's chain, a branch of bitcoind that attaches to it at
    height [n] and ends at bitcoind's tip, and the blocks of both. *)
Record branch_served (fuel : nat) (daemon : Daemon) (from : FetchFrom) (s : Store D)
    (hs : list BlockHeader) (n : nat) (tip : BlockHash) : Prop := {
  bs_serves : serves daemon block_of;
  bs_delivers : delivers block_of from daemon;
  bs_best : d_getbestblockhash daemon = Ok tip;
  bs_headers : get_new_headers fuel daemon (indexed_headers s) tip = Ok hs;
  bs_linked : linked hs;
  bs_attaches : attaches (indexed_headers s) hs n;
  bs_last : last_hash (entries_from n hs) = tip;
  bs_distinct : hashes_distinct (headers (indexed_headers s));
  bs_distinct_new : hashes_distinct (take n (headers (indexed_headers s)) ++ entries_from n hs);
  bs_sane : chain_sane (blocks_of block_of (take n (headers (indexed_headers s)) ++ entries_from n hs));
}.

Lemma hist_row_compaction chain b r : hist_row cfg chain b r -> dbr_key r <> key_F.
Proof.
  destruct 1 as [| tx i txo row _ _ _ _ Ha | | |]; try done.
  unfold addr_search_row in Ha. destruct (to_address_str _ _); cbn in Ha; by simplify_eq.
Qed.

(** A block outside the list the history was written for has no rows. *)
Lemma history_rows_absent (d : D) chain es e r :
  chain_sane (blocks_of block_of chain) -> history_holds cfg d (blocks_of block_of chain) (blocks_of block_of es) ->
  (forall x, x ∈ es -> x ∈ chain) -> e ∈ chain -> e ∉ es ->
  hist_row cfg (blocks_of block_of chain) (entry_block block_of e) r -> ~ is_addr_key (dbr_key r) ->
  rdb_get d (dbr_key r) = None.
Proof.
  intros Hs Hh Hsub He Hne Hr Ha. destruct (rdb_get d (dbr_key r)) as [v|] eqn:E; [|done]. exfalso.
  apply Hh in E; [|split_and!; [by eapply hist_row_compaction|by eapply hist_row_marker|done]].
  destruct E as (b & (x & Hx & ->)%blocks_of_elem & Hr').
  assert (entry_block block_of e = entry_block block_of x) as Hex.
  { eapply (hist_row_key cfg _ (blocks_of block_of chain)); try done; apply blocks_of_elem; eauto. }
  apply Hne. by assert (e = x) as -> by (by apply (f_equal be_entry) in Hex).
Qed.

(** C40: The set of blocks found indexed at start-up goes stale.  Open the databases of a
    synced store, let [update] follow a branch of blocks the store does not have, and then
    let [update] follow a branch that leads back over blocks of the first chain.  Both
    updates succeed; every block of the first chain that comes back is on the best chain
    and in the set of added blocks, but none of its history rows (funding, spending, edge and
    done rows) is in the history store: the second update does not index it, since it is
    still in [indexed_blockhashes]. *)
Theorem reorg_back_not_indexed (s0 s1 s2 : Store D) light fuel daemon1 daemon2 from1 from2 hs1 hs2 n1 n2 tip1 tip2 :
  synced cfg block_of s0 -> headers (indexed_headers s0) <> [] ->
  hashes_distinct (headers (indexed_headers s0)) ->
  (forall e, e ∈ headers (indexed_headers s0) -> block_header (block_of (he_hash e)) = he_header e) ->
  version_ok (txstore_db s0) light -> version_ok (history_db s0) light -> version_ok (cache_db s0) light ->
  store_open (txstore_db s0) (history_db s0) (cache_db s0) light = Ok s1 ->
  branch_served fuel daemon1 from1 s1 hs1 n1 tip1 ->
  (forall h, h ∈ hs1 -> block_hash h ∉ he_hash <$> headers (indexed_headers s0)) ->
  update_store fuel daemon1 from1 cfg s1 = (s2, Ok tip1) ->
  branch_served fuel daemon2 from2 s2 hs2 n2 tip2 ->
  let chain := take n2 (headers (indexed_headers s2)) ++ entries_from n2 hs2 in
  exists s3, update_store fuel daemon2 from2 cfg s2 = (s3, Ok tip2) /\
    headers (indexed_headers s3) = chain /\
    forall e, e ∈ entries_from n2 hs2 -> e ∈ headers (indexed_headers s0) ->
      he_hash e ∈ added_blockhashes s3 /\
      forall r, hist_row cfg (blocks_of block_of chain) (entry_block block_of e) r ->
        ~ is_addr_key (dbr_key r) -> rdb_get (history_db s3) (dbr_key r) = None.
Proof.
  intros Hsy Hne Hd0 Hblk Hv1 Hv2 Hv3 Ho B1 Hnew Hu B2 chain.
  destruct (store_open_syncs s0 light) as (s1' & Ho' & Hsy1 & Hh1 & Hi1); try done.
  assert (s1' = s1) as -> by congruence. rewrite (sy_added _ _ _ Hsy) in Hi1.
  destruct (update_store_syncs fuel daemon1 from1 s1 hs1 n1 tip1) as (s2' & Hu' & Hsy2 & _);
    try done; try apply B1.
  { intros h Hh. rewrite Hi1, elem_of_list_to_set. by apply Hnew. }
  destruct (update_store_moves fuel daemon1 from1 s1 hs1 n1 tip1) as (s2'' & Hu'' & _ & _ & _ & _ & _ & _ & _ & Hi2);
    try done; try apply B1.
  assert (s2' = s2) as -> by congruence. assert (s2'' = s2) as -> by congruence.
  destruct (update_store_moves fuel daemon2 from2 s2 hs2 n2 tip2)
    as (s3 & Hu3 & Hw3 & Hh3 & _ & Hist & _ & Ha3 & _); try done; try apply B2.
  exists s3. split; [done|]. split; [done|]. intros e He He0. split.
  - rewrite Ha3, elem_of_list_to_set. apply list_elem_of_fmap_2. set_solver.
  - intros r Hr Hk. eapply history_rows_absent; [apply B2|exact Hist| | | |exact Hr|done].
    + intros x. unfold headers_to_index. rewrite !elem_of_app, list_elem_of_filter. naive_solver.
    + set_solver.
    + assert (NoDup (he_hash <$> chain)) as Hnd.
      { apply chain_hash_NoDup; [|apply B2]. unfold chain. rewrite <- Hh3. apply Hw3. }
      unfold headers_to_index. rewrite elem_of_app, list_elem_of_filter, Hi2, Hi1, elem_of_list_to_set.
      intros [Hk'|[Hf _]]; [|by apply Hf, list_elem_of_fmap_2].
      unfold chain in Hnd. rewrite fmap_app in Hnd. apply NoDup_app in Hnd as (_ & Hdis & _).
      by apply (Hdis (he_hash e)); apply list_elem_of_fmap_2.
Qed.
End properties.

(** ** Evaluation: the example chain is reorganised *)

Definition ex_cfg : IndexerConfig := mkConfig false true false Regtest.
Definition ex_block_of (h : BlockHash) : Block :=
  match filter (fun x => @block_hash ExampleLib x = h) (ex_main ++ ex_fork) with
  | x :: _ => ex_block x | [] => ex_block ex_genesis
  end.

Lemma ex_chain_sane hl :
  hl = ex_hl \/ hl = ex_forked ->
  @chain_sane ExampleLib (@blocks_of ExampleLib ex_block_of (headers hl)).
Proof.
  intros [->| ->]; apply (@chain_sane_check ExampleLib);
    try (vm_compute; reflexivity); vm_decide.
Qed.

Lemma update_syncs_witness :
  exists s s' : Store KvMap, indexed_headers s = ex_hl /\
    @synced KvMap _ ExampleLib FixintWincode ex_cfg ex_block_of s /\
    @update_store KvMap _ ExampleLib FixintWincode 10 ex_daemon Bitcoind ex_cfg s = (s', Ok (pack_hash 6)) /\
    @synced KvMap _ ExampleLib FixintWincode ex_cfg ex_block_of s' /\
    headers (indexed_headers s') = headers ex_forked.
Proof.
  destruct (@synced_build KvMap _ _ ExampleLib ExampleLib_laws FixintWincode FixintWincode_laws
    ex_cfg ex_block_of ex_hl) as (d & _ & Hsy & _).
  { apply hl_reachable_wf, ex_hl_reachable. }
  { vm_compute. congruence. }
  { apply ex_chain_sane. by left. }
  match type of Hsy with synced _ _ ?st => exists st end.
  destruct (@update_syncs KvMap _ _ ExampleLib ExampleLib_laws FixintWincode FixintWincode_laws
    ex_cfg ex_block_of 10 ex_daemon Bitcoind _ ex_fork 1 (pack_hash 6) Hsy) as (s' & Hu & Hh & _ & _ & _ & _ & _ & _ & Hsy').
  - split; [reflexivity|]. intros. reflexivity.
  - apply serves_delivers. split; [reflexivity|]. intros. reflexivity.
  - reflexivity.
  - vm_compute. reflexivity.
  - intros [|[|[|i]]] h h' Hh Hh'; cbn in Hh, Hh'; simplify_eq; reflexivity.
  - eexists. split; [reflexivity|]. right. split; [vm_compute; congruence|].
    exists (mkEntry 0 (pack_hash 1) ex_genesis). split; [vm_compute; left|]. by split.
  - reflexivity.
  - apply hashes_distinct_NoDup; vm_decide.
  - apply hashes_distinct_NoDup; vm_decide.
  - refine (eq_ind (headers ex_forked) (fun l => chain_sane (blocks_of ex_block_of l)) _ _ _);
      [apply ex_chain_sane; by right|vm_compute; reflexivity].
  - exists s'. split; [reflexivity|]. split; [done|]. split; [done|].
    split; [apply Hsy'; intros h _; cbn; apply not_elem_of_empty|]. rewrite Hh. vm_compute. reflexivity.
Defined.

Lemma store_open_recovers_witness :
  exists s s' : Store KvMap, @synced KvMap _ ExampleLib FixintWincode ex_cfg ex_block_of s /\
    @store_open KvMap _ ExampleLib (txstore_db s) (history_db s) (cache_db s) false = Ok s' /\
    @synced KvMap _ ExampleLib FixintWincode ex_cfg ex_block_of s' /\
    headers (indexed_headers s') = headers ex_hl.
Proof.
  destruct (@synced_build KvMap _ _ ExampleLib ExampleLib_laws FixintWincode FixintWincode_laws
    ex_cfg ex_block_of ex_hl) as (d & _ & Hsy & Hd).
  { apply hl_reachable_wf, ex_hl_reachable. }
  { vm_compute. congruence. }
  { apply ex_chain_sane. by left. }
  match type of Hsy with synced _ _ ?st => exists st end.
  destruct (@store_open_recovers KvMap _ _ ExampleLib ExampleLib_laws FixintWincode
    ex_cfg ex_block_of _ false Hsy) as (s' & Ho & Hsy' & Hh & _).
  - vm_compute. congruence.
  - apply hashes_distinct_NoDup; vm_decide.
  - intros e [i Hi]%list_elem_of_lookup.
    destruct i as [|[|[|i]]]; vm_compute in Hi; simplify_eq; vm_compute; reflexivity.
  - left. vm_compute. reflexivity.
  - left. exact Hd.
  - left. reflexivity.
  - exists s'. split; [done|]. split; [done|]. split; [done|]. rewrite Hh. vm_compute. reflexivity.
Defined.

(** The store is opened on the main branch 1-2-3, follows the fork to 6, and comes back
    to the main branch, which now ends at 8. *)
Definition ex_back : list BlockHeader :=
  [ex_header (pack_hash 1) 2 700; ex_header (pack_hash 2) 3 600;
   ex_header (pack_hash 3) 7 900; ex_header (pack_hash 7) 8 950].
Definition ex_block_of2 (h : BlockHash) : Block :=
  match filter (fun x => @block_hash ExampleLib x = h) (ex_genesis :: ex_back ++ ex_fork) with
  | x :: _ => ex_block x | [] => ex_block ex_genesis
  end.
Definition ex_daemon_at (tip : BlockHash) : Daemon := {|
  d_reconnect := Ok tt; d_getbestblockhash := Ok tip;
  d_block_height _ := Ok 2;
  d_getblockhashes hs := Ok (omap (fun i => (@block_hash ExampleLib) <$> (ex_main !! i)) hs);
  d_getblockheader h := Ok (block_header (ex_block_of2 h));
  d_getblocks hs := Ok (map ex_block_of2 hs);
  d_magic := ex_magic; d_list_blk_files := Ok []; d_xor_key := None;
  d_block_txids _ := Err (Msg "no block"); d_block_meta _ := Err (Msg "no block");
  d_block_raw _ := Err (Msg "no block"); d_gettransaction_raw _ _ := Err (Msg "no tx");
  d_getmempooltxids := Ok ∅; d_gettransactions _ := Ok []; d_getmempooltx _ := Err (Msg "no tx");
  d_broadcast _ := Err (Msg "no tx") |}.

Definition ex_update (tip : BlockHash) (s : Store KvMap) : Store KvMap * result BlockHash :=
  @update_store KvMap _ ExampleLib FixintWincode 10 (ex_daemon_at tip) Bitcoind ex_cfg s.
Definition ex_reopen (s : Store KvMap) : Store KvMap :=
  match @store_open KvMap _ ExampleLib (txstore_db s) (history_db s) (cache_db s) false with
  | Ok s' => s' | _ => s
  end.
Definition ex_main_store : Store KvMap := (ex_update (pack_hash 3) empty_store).1.
Definition ex_opened : Store KvMap := ex_reopen ex_main_store.
Definition ex_away : Store KvMap := (ex_update (pack_hash 6) ex_opened).1.

Lemma ex_daemon_serves tip : serves (ex_daemon_at tip) ex_block_of2.
Proof. split; [reflexivity|]. intros. reflexivity. Qed.

(** The parts of a served branch of the example evaluate. *)
Ltac serve_example :=
  split; [apply ex_daemon_serves|apply serves_delivers, ex_daemon_serves|reflexivity|vm_compute; reflexivity
         |intros i h h' Hh Hh'; do 5 (destruct i as [|i]; [cbn in Hh, Hh'; simplify_eq; reflexivity|]); cbn in Hh; discriminate
         |eexists; split; [reflexivity|]
         |vm_compute; reflexivity|apply hashes_distinct_NoDup; vm_decide|apply hashes_distinct_NoDup; vm_decide
         |apply (@chain_sane_check ExampleLib); try (vm_compute; reflexivity); vm_decide].

Lemma ex_main_served :
  @branch_served KvMap ExampleLib ex_block_of2 10 (ex_daemon_at (pack_hash 3)) Bitcoind empty_store
    ex_main 0 (pack_hash 3).
Proof. serve_example. by left. Qed.
Lemma ex_away_served :
  @branch_served KvMap ExampleLib ex_block_of2 10 (ex_daemon_at (pack_hash 6)) Bitcoind ex_opened
    ex_fork 1 (pack_hash 6).
Proof.
  serve_example. right. split; [vm_compute; congruence|].
  exists (mkEntry 0 (pack_hash 1) ex_genesis). split; [vm_decide|]. by split.
Qed.
Lemma ex_back_served :
  @branch_served KvMap ExampleLib ex_block_of2 10 (ex_daemon_at (pack_hash 8)) Bitcoind ex_away
    ex_back 1 (pack_hash 8).
Proof.
  serve_example. right. split; [vm_compute; congruence|].
  exists (mkEntry 0 (pack_hash 1) ex_genesis). split; [vm_decide|]. by split.
Qed.

Lemma reorg_back_not_indexed_witness :
  exists s1 s2 s3 : Store KvMap,
    @store_open KvMap _ ExampleLib (txstore_db ex_main_store) (history_db ex_main_store) (cache_db ex_main_store) false = Ok s1 /\
    ex_update (pack_hash 6) s1 = (s2, Ok (pack_hash 6)) /\ ex_update (pack_hash 8) s2 = (s3, Ok (pack_hash 8)) /\
    (he_hash <$> headers (indexed_headers s3)) =
      [pack_hash 1; pack_hash 2; pack_hash 3; pack_hash 7; pack_hash 8] /\
    forall h, h ∈ [pack_hash 2; pack_hash 3] -> h ∈ added_blockhashes s3 /\
      rdb_get (history_db s3) (dbr_key (block_into_row (block_row_done h))) = None.
Proof.
  destruct (@update_store_syncs KvMap _ _ ExampleLib ExampleLib_laws FixintWincode FixintWincode_laws ex_cfg
    ex_block_of2 10 (ex_daemon_at (pack_hash 3)) Bitcoind empty_store ex_main 0 (pack_hash 3)
    (empty_store_synced _ _)) as (s0 & Hu0 & Hsy0 & Hh0); try apply ex_main_served; [intros h _; apply not_elem_of_empty|].
  assert (ex_main_store = s0) as Hs0 by (unfold ex_main_store, ex_update; by rewrite Hu0).
  rewrite <- Hs0 in Hsy0.
  assert (@store_open KvMap _ ExampleLib (txstore_db ex_main_store) (history_db ex_main_store)
    (cache_db ex_main_store) false = Ok ex_opened) as Ho.
  { assert (forall (r : result (Store KvMap)) s, match r with Ok _ => true | _ => false end = true ->
      r = Ok match r with Ok s' => s' | _ => s end) as Hok by (by intros []).
    apply Hok. vm_compute. reflexivity. }
  assert (ex_update (pack_hash 6) ex_opened = (ex_away, Ok (pack_hash 6))) as Hu1.
  { assert (forall (p : Store KvMap * result BlockHash) r, p.2 = r -> p = (p.1, r)) as Hp by (by intros [] ? <-).
    unfold ex_away. apply Hp. vm_compute. reflexivity. }
  destruct (@reorg_back_not_indexed KvMap _ _ ExampleLib ExampleLib_laws FixintWincode FixintWincode_laws ex_cfg
    ex_block_of2 ex_main_store ex_opened ex_away false 10 (ex_daemon_at (pack_hash 6)) (ex_daemon_at (pack_hash 8)) Bitcoind Bitcoind ex_fork ex_back 1 1
    (pack_hash 6) (pack_hash 8) Hsy0) as (s3 & Hu2 & Hh3 & Hrows);
    try lazymatch goal with
        | |- store_open _ _ _ _ = _ => exact Ho
        | |- update_store _ _ _ _ _ = _ => exact Hu1
        | |- branch_served _ _ _ _ ex_opened _ _ _ => apply ex_away_served
        | |- branch_served _ _ _ _ ex_away _ _ _ => apply ex_back_served
        | |- version_ok _ _ => left; vm_compute; reflexivity
        end.
  - vm_compute. congruence.
  - apply hashes_distinct_NoDup; vm_decide.
  - assert (Forall (fun e => block_header (ex_block_of2 (he_hash e)) = he_header e)
      (headers (indexed_headers ex_main_store))) as H by vm_decide. by rewrite Forall_forall in H.
  - assert (Forall (fun h => @block_hash ExampleLib h ∉ he_hash <$> headers (indexed_headers ex_main_store)) ex_fork)
      as H by vm_decide. by rewrite Forall_forall in H.
  - exists ex_opened, ex_away, s3. split; [done|]. split; [done|]. split; [exact Hu2|].
    split; [rewrite Hh3; vm_compute; reflexivity|].
    assert (forall n hd, mkEntry n (@block_hash ExampleLib hd) hd ∈ @entries_from ExampleLib 1 ex_back ->
      mkEntry n (@block_hash ExampleLib hd) hd ∈ headers (indexed_headers ex_main_store) ->
      @block_hash ExampleLib hd ∈ added_blockhashes s3 /\
      rdb_get (history_db s3) (dbr_key (block_into_row (block_row_done (@block_hash ExampleLib hd)))) = None) as Hb.
    { intros n hd H1 H2. destruct (Hrows _ H1 H2) as [Ha Hr]. split; [exact Ha|].
      apply Hr; [apply (@hr_done ExampleLib FixintWincode ex_cfg _ (entry_block ex_block_of2 (mkEntry n _ hd)))|discriminate]. }
    intros h [-> |[-> |[]%elem_of_nil]%elem_of_cons]%elem_of_cons.
    + apply (Hb 1 (ex_header (pack_hash 1) 2 700)); vm_decide.
    + apply (Hb 2 (ex_header (pack_hash 2) 3 600)); vm_decide.
Defined.
