(* ===== verification/Iter.v ===== *)
(** * Lazy iterators that may panic

    The chain queries are chains of iterator adaptors over a database scan.  An
    iterator is the list of what its successive [next] calls give: [Ok a] for an
    item, or the panic (or error) that producing the item ends in.  Adaptors are
    lazy: an item that is never pulled never panics. *)

From S2P Require Import Prelude.

Abbreviation iter A := (list (result A)).

Section adaptors.
Context {A B : Type}.

Definition it_of (l : list A) : iter A := map Ok l.

(** [.map(f)] for an [f] that may panic. *)
Definition it_map (f : A -> result B) (it : iter A) : iter B := map (fun r => r ≫= f) it.

(** [.filter_map(f)] *)
Fixpoint it_filter_map (f : A -> result (option B)) (it : iter A) : iter B :=
  match it with
  | [] => []
  | r :: it =>
      match r ≫= f with
      | Ok (Some b) => Ok b :: it_filter_map f it
      | Ok None => it_filter_map f it
      | Err e => Err e :: it_filter_map f it
      | Panic => Panic :: it_filter_map f it
      | Diverge => Diverge :: it_filter_map f it
      end
  end.

(** [.skip_while(p)] *)
Fixpoint it_skip_while (p : A -> bool) (it : iter A) : iter A :=
  match it with
  | Ok a :: it' => if p a then it_skip_while p it' else it
  | _ => it
  end.

(** [.collect()], and a [for] loop's way of consuming an iterator. *)
Definition it_collect (it : iter A) : result (list A) := rmap id it.
(** [.next()] *)
Definition it_next (it : iter A) : result (option A) :=
  match it with
  | [] => Ok None
  | r :: _ => a ← r; Ok (Some a)
  end.

Context {K : Type} `{EqDecision K}.
(** [.unique_by(f)] *)
Fixpoint it_unique_go (f : A -> K) (seen : list K) (it : iter A) : iter A :=
  match it with
  | [] => []
  | Ok a :: it =>
      if decide (f a ∈ seen) then it_unique_go f seen it
      else Ok a :: it_unique_go f (f a :: seen) it
  | r :: it => r :: it_unique_go f seen it
  end.
Definition it_unique_by (f : A -> K) (it : iter A) : iter A := it_unique_go f [] it.

(** On an iterator that does not panic the adaptors are the list functions. *)
Lemma it_map_of (f : A -> result B) (g : A -> B) l :
  (forall x, x ∈ l -> f x = Ok (g x)) -> it_map f (it_of l) = map Ok (map g l).
Proof.
  intros H. unfold it_map, it_of. rewrite !map_map. apply map_ext_in. intros x Hx.
  cbn. apply H. by apply list_elem_of_In.
Qed.
Lemma it_filter_map_of (f : A -> result (option B)) (g : A -> option B) l :
  (forall x, x ∈ l -> f x = Ok (g x)) -> it_filter_map f (it_of l) = map Ok (omap g l).
Proof.
  unfold it_of. induction l as [|x l IH]; intros H; [done|]. cbn. rewrite (H x) by (by left).
  rewrite IH by (intros; apply H; by right). by destruct (g x).
Qed.
Lemma it_skip_while_of p l : it_skip_while p (it_of l) = it_of (skip_while p l).
Proof. unfold it_of. induction l as [|x l IH]; cbn; [done|]. by destruct (p x). Qed.
Lemma it_unique_by_of (f : A -> K) l : it_unique_by f (it_of l) = it_of (unique_by f l).
Proof.
  unfold it_of, it_unique_by, unique_by. generalize (@nil K) as seen.
  induction l as [|x l IH]; intros seen; cbn; [done|]. case_decide; [done|]. cbn. by rewrite IH.
Qed.
Lemma it_collect_of l : it_collect (it_of l) = Ok l.
Proof. unfold it_collect, it_of. induction l as [|x l IH]; cbn; [done|]. by rewrite IH. Qed.
Lemma it_take_of n (l : list A) : take n (it_of l) = it_of (take n l).
Proof. unfold it_of. change (map ?f ?l) with (f <$> l). by rewrite fmap_take. Qed.
Lemma it_drop_of n (l : list A) : drop n (it_of l) = it_of (drop n l).
Proof. unfold it_of. change (map ?f ?l) with (f <$> l). by rewrite fmap_drop. Qed.
Lemma it_next_of l : it_next (it_of l) = Ok (head l).
Proof. by destruct l. Qed.
End adaptors.
