(* ===== verification/ChainQuery.v ===== *)
(** * [ChainQuery] of [new_index/schema.rs]

    The read side of the index.  Every query is the chain of iterator adaptors of
    the source over a database scan; [utxo] and [stats] also maintain the cache
    database.  The functions that fetch from bitcoind in light mode do so here
    through [Daemon]. *)

From S2P Require Import Prelude Iter RocksDB DB Bitcoin HeaderList Rows Fetch Indexer.

Definition MIN_HISTORY_ITEMS_TO_CACHE : Z := 100.

Record Utxo := mkUtxo { ut_txid : Txid; ut_vout : Z; ut_confirmed : option BlockId; ut_value : Z }.
Record SpendingInput := mkSpendingInput {
  si_txid : Txid; si_vin : Z; si_confirmed : option BlockId }.
Record TxHistorySummary := mkSummary {
  sm_txid : Txid; sm_height : nat; sm_value : Z; sm_time : Z; sm_tx_position : Z }.
Record BlockHeaderMeta := mkBlockHeaderMeta {
  bhm_header_entry : HeaderEntry; bhm_meta : BlockMeta; bhm_mtp : Z }.

Record ChainQuery (D : Type) := mkChainQuery {
  cq_store : Store D; cq_daemon : Daemon; cq_light_mode : bool }.
Arguments mkChainQuery {D} _ _ _.
Arguments cq_store {D} _. Arguments cq_daemon {D} _. Arguments cq_light_mode {D} _.

(** [r.ok()] *)
Definition ok {A} (r : result A) : result (option A) :=
  match r with Ok a => Ok (Some a) | Err _ => Ok None | Panic => Panic | Diverge => Diverge end.
(** [.map(f)] on an [Option]. *)
Definition map_opt {A B} (f : A -> B) (r : result (option A)) : result (option B) :=
  match r with
  | Ok o => Ok (option_map f o) | Err e => Err e | Panic => Panic | Diverge => Diverge
  end.
(** [x?] on an [Option] inside a function that may also panic. *)
Definition and_then {A B} (r : result (option A)) (f : A -> result (option B)) : result (option B) :=
  o ← r; match o with Some a => f a | None => Ok None end.

Section queries.
Context {D : Type} {RDB : RocksDB D} {BL : BitcoinLib} {W : Wincode}.
Implicit Types q : ChainQuery D.

Definition cq_headers q : HeaderList := indexed_headers (cq_store q).

(** ** Headers *)

Definition header_by_hash q (hash : BlockHash) : option HeaderEntry :=
  header_by_blockhash (cq_headers q) hash.
Definition height_by_hash q (hash : BlockHash) : option nat :=
  option_map he_height (header_by_blockhash (cq_headers q) hash).
Definition cq_header_by_height q (height : nat) : result (option HeaderEntry) :=
  header_by_height (cq_headers q) height.
Definition hash_by_height q (height : nat) : result (option BlockHash) :=
  map_opt he_hash (header_by_height (cq_headers q) height).
Definition blockid_by_height q (height : nat) : result (option BlockId) :=
  map_opt BlockId_from (header_by_height (cq_headers q) height).
Definition blockid_by_hash q (hash : BlockHash) : option BlockId :=
  BlockId_from <$> header_by_blockhash (cq_headers q) hash.
Definition best_height q : Z := wrap64 (Z.of_nat (hl_len (cq_headers q)) - 1).
Definition best_hash q : result BlockHash := hl_tip (cq_headers q).
Definition best_header q : result HeaderEntry :=
  tip ← hl_tip (cq_headers q); unwrap (header_by_blockhash (cq_headers q) tip).
Definition get_block_header q (hash : BlockHash) : option BlockHeader :=
  he_header <$> header_by_hash q hash.
Definition cq_get_mtp q (height : nat) : result Z := get_mtp (cq_headers q) height.
Definition get_block_status q (hash : BlockHash) : result BlockStatus :=
  match header_by_blockhash (cq_headers q) hash with
  | None => Ok status_orphaned
  | Some header =>
      next ← header_by_height (cq_headers q) (he_height header + 1);
      Ok (status_confirmed (he_height header) (he_hash <$> next))
  end.

(** ** Transactions *)

Definition tx_confirming_block q (txid : Txid) : result (option BlockId) :=
  map_opt BlockId_from
    (it_next (it_filter_map (fun conf => Ok (header_by_blockhash (cq_headers q) (tc_blockhash conf)))
       (it_map conf_from_row
          (it_of (scan_rows (iter_scan (txstore_db (cq_store q)) (conf_filter (as_bytes txid)))))))).

Definition lookup_raw_txn q (txid : Txid) (blockhash : option BlockHash) : result (option Bytes) :=
  if cq_light_mode q then
    bh ← (match blockhash with
          | Some h => Ok (Some h)
          | None => map_opt bid_hash (tx_confirming_block q txid)
          end);
    match bh with
    | Some h => ok (d_gettransaction_raw (cq_daemon q) txid h)
    | None => Ok None
    end
  else Ok (db_get (txstore_db (cq_store q)) (tx_row_key (as_bytes txid))).

Definition lookup_txn q (txid : Txid) (blockhash : option BlockHash) : result (option Transaction) :=
  and_then (lookup_raw_txn q txid blockhash) (fun rawtx =>
    txn ← unwrap (deserialize_tx rawtx);
    _ ← rassert (bool_decide (txid = get_txid txn));
    Ok (Some txn)).

Definition cq_lookup_txo q (outpoint : OutPoint) : result (option TxOut) :=
  lookup_txo (txstore_db (cq_store q)) outpoint.
Definition cq_lookup_txos q (outpoints : gset OutPoint) : result (gmap OutPoint TxOut) :=
  lookup_txos (txstore_db (cq_store q)) outpoints false.
Definition lookup_avail_txos q (outpoints : gset OutPoint) : result (gmap OutPoint TxOut) :=
  lookup_txos (txstore_db (cq_store q)) outpoints true.

Definition lookup_spend q (outpoint : OutPoint) : result (option SpendingInput) :=
  it_next (it_filter_map (fun edge =>
      map_opt (fun b => mkSpendingInput (spending_txid edge) (spending_vin edge) (Some b))
        (tx_confirming_block q (spending_txid edge)))
    (it_map edge_from_row
       (it_of (scan_rows (iter_scan (history_db (cq_store q)) (edge_filter outpoint)))))).

(** [par_bridge] does not keep the order; the items are those of this list. *)
Definition lookup_txns q (txids : iter (Txid * BlockId * Z)) (limit : nat)
    : iter (Transaction * BlockId * Z) :=
  it_map (fun '(txid, blockid, tx_position) =>
      o ← lookup_txn q txid (Some (bid_hash blockid));
      txn ← ok_or (Msg "missing tx") o;
      Ok (txn, blockid, tx_position)) (take limit txids).

(** ** Blocks *)

Definition get_block_txids q (hash : BlockHash) : result (option (list Txid)) :=
  if cq_light_mode q then ok (d_block_txids (cq_daemon q) hash)
  else match db_get (txstore_db (cq_store q)) (txids_key hash) with
  | None => Ok None
  | Some val => l ← unwrap (de_txids val); Ok (Some l)
  end.

(** [for txid in txid_vec] with [return None] at the first missing one. *)
Fixpoint lookup_all q (hash : BlockHash) (txids : list Txid) : result (option (list Transaction)) :=
  match txids with
  | [] => Ok (Some [])
  | txid :: txids =>
      and_then (lookup_txn q txid (Some hash)) (fun tx =>
        and_then (lookup_all q hash txids) (fun txs => Ok (Some (tx :: txs))))
  end.
Definition get_block_txs q (hash : BlockHash) : result (option (list Transaction)) :=
  and_then (get_block_txids q hash) (lookup_all q hash).

Definition get_block_meta q (hash : BlockHash) : result (option BlockMeta) :=
  if cq_light_mode q then ok (d_block_meta (cq_daemon q) hash)
  else match db_get (txstore_db (cq_store q)) (meta_key hash) with
  | None => Ok None
  | Some val => m ← unwrap (de_meta val); Ok (Some m)
  end.

Fixpoint raw_txns q (txids : list Txid) : result (option Bytes) :=
  match txids with
  | [] => Ok (Some [])
  | txid :: txids =>
      and_then (lookup_raw_txn q txid None) (fun raw =>
        and_then (raw_txns q txids) (fun rest => Ok (Some (raw ++ rest))))
  end.
Definition get_block_raw q (hash : BlockHash) : result (option Bytes) :=
  if cq_light_mode q then ok (d_block_raw (cq_daemon q) hash)
  else
    and_then (Ok (header_by_hash q hash)) (fun entry =>
    and_then (get_block_meta q hash) (fun _ =>
    and_then (get_block_txids q hash) (fun txids =>
    and_then (raw_txns q txids) (fun txs =>
      Ok (Some (serialize_header (he_header entry)
             ++ serialize_varint (Z.of_nat (length txids)) ++ txs)))))).

Definition get_block_with_meta q (hash : BlockHash) : result (option BlockHeaderMeta) :=
  and_then (Ok (header_by_hash q hash)) (fun header_entry =>
  and_then (get_block_meta q hash) (fun meta =>
    mtp ← cq_get_mtp q (he_height header_entry);
    Ok (Some (mkBlockHeaderMeta header_entry meta mtp)))).

(** ** History scans *)

Definition history_iter_scan q (code : Z) (hash : FullHash) (start_height : nat) : iter TxHistoryRow :=
  it_map history_from_row (it_of (scan_rows (iter_scan_from (history_db (cq_store q))
    (history_filter code (as_bytes hash))
    (prefix_height code hash (as_u32 (Z.of_nat start_height)))))).
Definition prefix_max (code : Z) (hash : FullHash) (start_height : option Z) : Bytes :=
  match start_height with
  | None => prefix_end code hash
  | Some h => prefix_height_end code hash h
  end.
Definition history_iter_scan_reverse q (code : Z) (hash : FullHash) (start_height : option Z)
    : iter TxHistoryRow :=
  it_map history_from_row (it_of (rev_scan_rows (iter_scan_reverse (history_db (cq_store q))
    (history_filter code (as_bytes hash)) (prefix_max code hash start_height)))).
Definition history_iter_scan_group_reverse q (code : Z) (hashes : list FullHash)
    (start_height : option Z) : iter TxHistoryRow :=
  it_map history_from_row (it_of (group_rows (iter_scan_group_reverse (history_db (cq_store q))
    (map (fun hash => (history_filter code (as_bytes hash), prefix_max code hash start_height)) hashes)
    33))).

(** The rest of [_history] and [_history_group] after the scan. *)
Definition history_page q (rows : iter TxHistoryRow) (last_seen_txid : option Txid) (limit : nat)
    : iter (Transaction * BlockId * Z) :=
  lookup_txns q
    (it_filter_map (fun row =>
        map_opt (fun b => (row_get_txid row, b, hk_tx_position row))
          (tx_confirming_block q (row_get_txid row)))
      (drop (match last_seen_txid with Some _ => 1 | None => 0 end)
        (it_skip_while (fun row =>
            match last_seen_txid with
            | Some t => bool_decide (t <> row_get_txid row) | None => false end)
          (it_unique_by row_get_txid rows))))
    limit.
Definition history q (scripthash : FullHash) (last_seen_txid : option Txid)
    (start_height : option Z) (limit : nat) : iter (Transaction * BlockId * Z) :=
  history_page q (history_iter_scan_reverse q 72 scripthash start_height) last_seen_txid limit.
Definition history_group q (scripthashes : list FullHash) (last_seen_txid : option Txid)
    (start_height : option Z) (limit : nat) : iter (Transaction * BlockId * Z) :=
  history_page q (history_iter_scan_group_reverse q 72 scripthashes start_height) last_seen_txid limit.

Definition history_txids_iter q (scripthash : FullHash) : iter Txid :=
  it_unique_by id (it_map (fun row => Ok (row_get_txid row))
    (history_iter_scan_reverse q 72 scripthash None)).
Definition history_txids_iter_group q (scripthashes : list FullHash) (start_height : option Z) : iter Txid :=
  it_unique_by id (it_map (fun row => Ok (row_get_txid row))
    (history_iter_scan_group_reverse q 72 scripthashes start_height)).
Definition history_txids q (scripthash : FullHash) (limit : nat) : result (list (Txid * BlockId)) :=
  it_collect (take limit (it_filter_map (fun txid =>
      map_opt (pair txid) (tx_confirming_block q txid))
    (it_unique_by id (it_map (fun row => Ok (row_get_txid row)) (history_iter_scan q 72 scripthash 0))))).

Definition address_search q (prefix : Bytes) (limit : nat) : list Bytes :=
  map (fun row => drop 1 (dbr_key row))
    (take limit (scan_rows (iter_scan (history_db (cq_store q)) (addr_search_filter prefix)))).

(** ** Unspent outputs *)

(** Rows whose transaction is confirmed at the height the row was written for. *)
Definition confirmed_rows q (scripthash : FullHash) (start_height : nat)
    : iter (TxHistoryRow * BlockId) :=
  it_filter_map (fun history =>
      o ← tx_confirming_block q (row_get_txid history);
      Ok (match o with
          | Some b => if decide (Z.of_nat (bid_height b) = confirmed_height history)
                      then Some (history, b) else None
          | None => None
          end))
    (history_iter_scan q 72 scripthash start_height).

Fixpoint apply_utxo_delta (utxos : UtxoMap) (lastblock : option BlockHash) (processed_items : Z)
    (history_iter : iter (TxHistoryRow * BlockId)) (limit : Z)
    : result (UtxoMap * option BlockHash * Z) :=
  let tx_history_limit := wrap64 (limit * 500) in
  match history_iter with
  | [] => Ok (utxos, lastblock, processed_items)
  | item :: rest =>
      r ← item;
      let '(history, blockid) := r in
      let processed_items := (processed_items + 1)%Z in
      let lastblock := Some (bid_hash blockid) in
      let utxos :=
        match txinfo history with
        | Funding _ _ value => <[get_funded_outpoint (txinfo history) := (blockid, value)]> utxos
        | Spending _ _ _ _ _ => delete (get_funded_outpoint (txinfo history)) utxos
        end in
      if decide (limit < Z.of_nat (size utxos))%Z then Err (TooManyUtxos limit)
      else if decide (tx_history_limit < processed_items)%Z then Err (TooManyTxs tx_history_limit)
      else apply_utxo_delta utxos lastblock processed_items rest limit
  end.

Definition utxo_delta q (scripthash : FullHash) (init_utxos : UtxoMap) (start_height : nat) (limit : Z)
    : result (UtxoMap * option BlockHash * Z) :=
  apply_utxo_delta init_utxos None 0 (confirmed_rows q scripthash start_height) limit.

Definition from_utxo_cache q (utxos_cache : CachedUtxoMap) : result UtxoMap :=
  l ← rmap (fun '((txid, vout), (height, value)) =>
        o ← blockid_by_height q (Z.to_nat height);
        blockid ← unwrap o;
        Ok (mkOutPoint txid vout, (blockid, value))) (map_to_list utxos_cache);
  Ok (list_to_map l).

(** The cache of [utxo], dropped when its block was orphaned. *)
Definition utxo_cached q (scripthash : FullHash) : result (option (UtxoMap * nat)) :=
  match db_get (cache_db (cq_store q)) (utxo_cache_key scripthash) with
  | None => Ok None
  | Some c =>
      p ← unwrap (de_utxos c);
      let '(utxos_cache, blockhash) := p in
      match height_by_hash q blockhash with
      | None => Ok None
      | Some height => m ← from_utxo_cache q utxos_cache; Ok (Some (m, height))
      end
  end.

Definition utxo_set q (scripthash : FullHash) (limit : Z) : result (UtxoMap * D) :=
  cache ← utxo_cached q scripthash;
  r ← (match cache with
       | None => utxo_delta q scripthash ∅ 0 limit
       | Some (oldutxos, blockheight) => utxo_delta q scripthash oldutxos (blockheight + 1) limit
       end);
  let '(newutxos, lastblock, processed_items) := r in
  let cache_db' :=
    match lastblock with
    | Some lastblock =>
        if bool_decide (is_Some cache) || bool_decide (MIN_HISTORY_ITEMS_TO_CACHE < processed_items)%Z
        then db_write (cache_db (cq_store q)) [utxo_cache_row scripthash newutxos lastblock]
        else cache_db (cq_store q)
    | None => cache_db (cq_store q)
    end in
  Ok (newutxos, cache_db').
Definition utxo q (scripthash : FullHash) (limit : Z) : result (list Utxo * D) :=
  r ← utxo_set q scripthash limit;
  Ok (map (fun '(o, (b, v)) => mkUtxo (op_txid o) (op_vout o) (Some b) v) (map_to_list r.1), r.2).

(** ** Statistics *)

Definition stats_row (stats : ScriptStats) (history : TxHistoryRow) (new_tx : bool) : ScriptStats :=
  let txc := if new_tx then wrap64 (tx_count stats + 1) else tx_count stats in
  match txinfo history with
  | Funding _ _ value =>
      mkStats txc (wrap64 (funded_txo_count stats + 1)) (spent_txo_count stats)
        (wrap64 (funded_txo_sum stats + value)) (spent_txo_sum stats)
  | Spending _ _ _ _ value =>
      mkStats txc (funded_txo_count stats) (wrap64 (spent_txo_count stats + 1))
        (funded_txo_sum stats) (wrap64 (spent_txo_sum stats + value))
  end.
Fixpoint stats_loop (stats : ScriptStats) (seen_txids : gset Txid) (lastblock : option BlockHash)
    (history_iter : iter (TxHistoryRow * BlockId)) : result (ScriptStats * option BlockHash) :=
  match history_iter with
  | [] => Ok (stats, lastblock)
  | item :: rest =>
      r ← item;
      let '(history, blockid) := r in
      let seen := if decide (lastblock <> Some (bid_hash blockid)) then ∅ else seen_txids in
      let new_tx := bool_decide (row_get_txid history ∉ seen) in
      stats_loop (stats_row stats history new_tx) ({[row_get_txid history]} ∪ seen)
        (Some (bid_hash blockid)) rest
  end.
Definition stats_delta q (scripthash : FullHash) (init_stats : ScriptStats) (start_height : nat)
    : result (ScriptStats * option BlockHash) :=
  stats_loop init_stats ∅ None (confirmed_rows q scripthash start_height).

Definition stats_cached q (scripthash : FullHash) : result (option (ScriptStats * nat)) :=
  match db_get (cache_db (cq_store q)) (stats_cache_key scripthash) with
  | None => Ok None
  | Some c =>
      p ← unwrap (de_stats c);
      let '(stats, blockhash) := p in
      Ok (if is_sane stats then option_map (pair stats) (height_by_hash q blockhash) else None)
  end.
Definition stats q (scripthash : FullHash) : result (ScriptStats * D) :=
  cache ← stats_cached q scripthash;
  r ← (match cache with
       | None => stats_delta q scripthash stats_default 0
       | Some (oldstats, blockheight) => stats_delta q scripthash oldstats (blockheight + 1)
       end);
  let '(newstats, lastblock) := r in
  let cache_db' :=
    match lastblock with
    | Some lastblock =>
        if decide (MIN_HISTORY_ITEMS_TO_CACHE <
             wrap64 (funded_txo_count newstats + spent_txo_count newstats))%Z
        then db_write (cache_db (cq_store q)) [stats_cache_row scripthash newstats lastblock]
        else cache_db (cq_store q)
    | None => cache_db (cq_store q)
    end in
  Ok (newstats, cache_db').

(** ** Summaries *)

(** [u64.try_into::<i64>().unwrap_or(0)] *)
Definition value_i64 (v : Z) : Z := if decide (v <= i64_max)%Z then v else 0%Z.
Definition summary_add (value : Z) (info : TxHistoryInfo) : Z :=
  match info with
  | Funding _ _ v => clamp_i64 (value + value_i64 v)
  | Spending _ _ _ _ v => clamp_i64 (value - value_i64 v)
  end.
Fixpoint summary_loop (m : gmap Txid TxHistorySummary) (limit : nat)
    (rows : iter (Txid * TxHistoryInfo * nat * Z * Z)) : result (gmap Txid TxHistorySummary) :=
  match rows with
  | [] => Ok m
  | item :: rest =>
      r ← item;
      let '(txid, info, height, time, tx_position) := r in
      match m !! txid with
      | None =>
          if decide (limit <= size m) then Ok m
          else
            let s := mkSummary txid height
              (match info with Funding _ _ v => value_i64 v | _ => summary_add 0 info end)
              time tx_position in
            summary_loop (<[txid := s]> m) limit rest
      | Some s =>
          summary_loop (<[txid := mkSummary (sm_txid s) (sm_height s)
            (summary_add (sm_value s) info) (sm_time s) (sm_tx_position s)]> m) limit rest
      end
  end.
Definition summary_le (a b : TxHistorySummary) : Prop :=
  if decide (sm_height a = sm_height b) then
    if decide (sm_tx_position a = sm_tx_position b) then (sm_value a <= sm_value b)%Z
    else (sm_tx_position b <= sm_tx_position a)%Z
  else sm_height b <= sm_height a.
#[export] Instance summary_le_dec : RelDecision summary_le.
Proof. intros a b. unfold summary_le. repeat case_decide; apply _. Defined.

Definition collate_summaries q (rows : iter TxHistoryRow) (last_seen_txid : option Txid) (limit : nat)
    : result (list TxHistorySummary) :=
  let keyed := it_map (fun row => Ok (row_get_txid row, txinfo row, hk_tx_position row)) rows in
  let unique := it_unique_by (fun '(txid, info, _) => (txid, get_vin_or_vout info, has_vin info)) keyed in
  let after := it_skip_while (fun '(txid, _, _) => bool_decide (last_seen_txid = Some txid))
    (it_skip_while (fun '(txid, _, _) =>
       match last_seen_txid with Some t => bool_decide (t <> txid) | None => false end) unique) in
  m ← summary_loop ∅ limit (it_filter_map (fun '(txid, info, tx_position) =>
      map_opt (fun b => (txid, info, bid_height b, bid_time b, tx_position))
        (tx_confirming_block q txid)) after);
  Ok (merge_sort summary_le (map snd (map_to_list m))).
Definition summary q (scripthash : FullHash) (last_seen_txid : option Txid)
    (start_height : option Z) (limit : nat) : result (list TxHistorySummary) :=
  collate_summaries q (history_iter_scan_reverse q 72 scripthash start_height) last_seen_txid limit.
Definition summary_group q (scripthashes : list FullHash) (last_seen_txid : option Txid)
    (start_height : option Z) (limit : nat) : result (list TxHistorySummary) :=
  collate_summaries q (history_iter_scan_group_reverse q 72 scripthashes start_height) last_seen_txid limit.
End queries.
