(* ===== verification/ChainView.v ===== *)
(** * What the chain queries see of a synced store

    The queries read rows; this file says what the rows mean.  On a store that is
    the image of a chain ([synced]), a transaction is confirmed by the block that
    contains it, and scanning the history of a script gives the funding and
    spending events of that script in chain order ([history_view]).  The theorems
    about [utxo], [stats] and the history pages build on this view only. *)

From S2P Require Import Prelude Iter RocksDB DB Bitcoin HeaderList Rows Fetch Indexer.
From S2P Require Import IndexerSync ChainQuery.

Lemma row_lt_unique (l1 l2 : list DBRow) :
  StronglySorted row_lt l1 -> StronglySorted row_lt l2 -> (forall r, r ∈ l1 <-> r ∈ l2) -> l1 = l2.
Proof.
  assert (forall l, StronglySorted row_lt l -> NoDup l) as Hnd.
  { induction 1 as [|x l Hs IH Hf]; constructor; [|done]. intros Hx.
    rewrite Forall_forall in Hf. apply Hf in Hx. by destruct (irreflexivity bytes_lt (dbr_key x)). }
  intros H1 H2 He. eapply (StronglySorted_unique_strong row_lt); [|done|done|by apply NoDup_Permutation; auto].
  intros x y _ _ Hxy Hyx. exfalso. apply (irreflexivity bytes_lt (dbr_key x)). unfold row_lt in *. by etransitivity.
Qed.

(** Lists of images are images of lists. *)
Lemma list_preimage {A B} (f : A -> B) (P : A -> Prop) (l : list B) :
  (forall y, y ∈ l -> exists x, y = f x /\ P x) -> exists xs, l = map f xs /\ Forall P xs.
Proof.
  induction l as [|y l IH]; intros H; [by exists []|].
  destruct (H y ltac:(by left)) as (x & -> & Hx). destruct IH as (xs & -> & Hxs); [intros; apply H; by right|].
  exists (x :: xs). split; [done|]. by constructor.
Qed.
Lemma StronglySorted_map {A B} (R : relation B) (f : A -> B) (l : list A) :
  StronglySorted R (map f l) <-> StronglySorted (fun x y => R (f x) (f y)) l.
Proof.
  induction l as [|x l IH]; cbn; [by split; constructor|].
  rewrite !StronglySorted_cons, IH, !Forall_forall. setoid_rewrite elem_of_map. naive_solver.
Qed.

Lemma starts_with_first k c p : starts_with k (c :: p) = true -> starts_with k [c] = true.
Proof. rewrite !starts_with_spec. intros [r ->]. by exists (p ++ r). Qed.

Section view.
Context {D : Type} {RDB : RocksDB D} {RDBL : RocksDBLaws D}.
Context {BL : BitcoinLib} {BLaws : BitcoinLaws} {W : Wincode} {WL : WincodeLaws}.
Context (cfg : IndexerConfig).

(** ** Events *)

Inductive hist_event (chain : list BlockEntry) (b : BlockEntry) : TxHistoryRow -> Prop :=
  | he_fund idx tx i txo : txdata (be_block b) !! idx = Some tx -> tx_output tx !! i = Some txo ->
      is_spendable txo = true \/ index_unspendables cfg = true ->
      hist_event chain b (history_new (script_pubkey txo) (height_of b) (as_u16 (Z.of_nat idx))
        (Funding (get_txid tx) (as_u32 (Z.of_nat i)) (txo_value txo)))
  | he_spend idx tx j txi prev : txdata (be_block b) !! idx = Some tx -> tx_input tx !! j = Some txi ->
      has_prevout txi = true -> chain_txo chain (previous_output txi) prev ->
      hist_event chain b (history_new (script_pubkey prev) (height_of b) (as_u16 (Z.of_nat idx))
        (Spending (get_txid tx) (as_u32 (Z.of_nat j)) (op_txid (previous_output txi))
           (op_vout (previous_output txi)) (txo_value prev))).

Lemma hist_event_row chain b r : hist_event chain b r -> hist_row cfg chain b (history_into_row r).
Proof. destruct 1; [by apply hr_fund|by apply hr_spend]. Qed.
Lemma hist_row_event chain b row :
  hist_row cfg chain b row -> head (dbr_key row) = Some 72%Z ->
  exists r, row = history_into_row r /\ hist_event chain b r.
Proof.
  intros Hr Hh. destruct Hr as [| tx i txo row _ _ _ _ Ha | | |]; try (by discriminate Hh).
  - eexists. split; [done|]. by apply he_fund.
  - unfold addr_search_row in Ha. destruct (to_address_str _ _); cbn in Ha; by simplify_eq.
  - eexists. split; [done|]. by apply he_spend.
Qed.

Lemma hist_event_facts chain b r :
  chain_sane chain -> b ∈ chain -> hist_event chain b r ->
  history_in_range r /\ hk_code r = 72%Z /\
  confirmed_height r = Z.of_nat (he_height (be_entry b)) /\
  exists tx, tx ∈ txdata (be_block b) /\ row_get_txid r = get_txid tx.
Proof.
  intros Hs Hb He. pose proof (cs_range _ Hs _ Hb) as Hr.
  assert (height_of b = Z.of_nat (he_height (be_entry b))) as Hh by apply as_u32_id, Hr.
  destruct He as [idx tx i txo Hidx Hi Hsp|idx tx j txi prev Hidx Hj Hp Ht]; cbn;
    rewrite Hh; apply list_elem_of_lookup_2 in Hidx; (split; [|split; [done|split; [done|by exists tx]]]).
  - split; [apply Hr|]. split; [apply as_u16_range|]. cbn.
    split; [apply as_u32_range|]. by apply (br_outputs _ Hr tx i txo).
  - split; [apply Hr|]. split; [apply as_u16_range|]. cbn. split; [apply as_u32_range|].
    split; [by apply (br_inputs _ Hr tx j txi)|].
    destruct Ht as (b' & tx' & i & Hb' & Htx' & _ & _ & Hi & _).
    by apply (br_outputs _ (cs_range _ Hs _ Hb') tx' i prev).
Qed.

(** ** Confirmation *)

Context (block_of : BlockHash -> Block).
Implicit Types q : ChainQuery D.
Definition chain_of q : list BlockEntry := blocks_of block_of (headers (cq_headers q)).
Definition query_synced q : Prop := synced cfg block_of (cq_store q).

Lemma conf_rows_chain q txid row :
  query_synced q ->
  row ∈ scan_rows (iter_scan (txstore_db (cq_store q)) (conf_filter (as_bytes txid))) <->
  exists b tx, b ∈ chain_of q /\ tx ∈ txdata (be_block b) /\ get_txid tx = txid /\
    row = conf_into_row (conf_new tx (he_hash (be_entry b))).
Proof.
  intros Hs. rewrite iter_scan_rows. split.
  - intros [Hg Hp]. apply (sy_txstore _ _ _ Hs) in Hg.
    + destruct Hg as (b & Hb & Hr). assert (add_row cfg b row) as Hr' by (by destruct row). clear Hr.
      destruct Hr' as [tx Htx|tx Htx Hl|tx i txo Htx Hi Hsp|Hl|Hl| |]; try discriminate Hp.
      exists b, tx. split_and!; try done.
      apply conf_filter_spec in Hp; done.
    + apply (prefix_tx_key 67); [done|]. by eapply starts_with_first.
  - intros (b & tx & Hb & Htx & <- & ->). split; [|by apply conf_filter_spec].
    pose proof (ar_conf cfg b tx Htx) as Hr. apply (sy_txstore _ _ _ Hs).
    + by eapply add_row_tx_key.
    + exists b. split; [done|]. exact Hr.
Qed.

(** A transaction of the chain is confirmed by its block, others are not. *)
Lemma tx_confirming_block_in q b tx :
  query_synced q -> b ∈ chain_of q -> tx ∈ txdata (be_block b) ->
  tx_confirming_block q (get_txid tx) = Ok (Some (BlockId_from (be_entry b))).
Proof.
  intros Hs Hb Htx. unfold tx_confirming_block.
  pose proof (conf_rows_chain q (get_txid tx)) as Hrows.
  destruct (scan_rows _) as [|row rows].
  { assert (conf_into_row (conf_new tx (he_hash (be_entry b))) ∈ @nil DBRow) as Hin%elem_of_nil; [|done].
    apply Hrows; eauto 6. }
  destruct (proj1 (Hrows row Hs) ltac:(by left)) as (b' & tx' & Hb' & Htx' & Hid & ->).
  cbn [it_of map it_map mbind result_bind]. rewrite conf_from_into.
  destruct (cs_tx _ (sy_sane _ _ _ Hs) b b' tx tx') as [<- _]; [done..|].
  assert (header_by_blockhash (cq_headers q) (he_hash (be_entry b)) = Some (be_entry b)) as Hh.
  { apply (header_by_blockhash_Some _ _ _ (sy_wf _ _ _ Hs)). split; [|done].
    apply blocks_of_elem in Hb as (e & He & ->). done. }
  cbn. rewrite Hh. done.
Qed.
Lemma tx_confirming_block_out q txid :
  query_synced q ->
  (forall b tx, b ∈ chain_of q -> tx ∈ txdata (be_block b) -> get_txid tx <> txid) ->
  tx_confirming_block q txid = Ok None.
Proof.
  intros Hs Hn. unfold tx_confirming_block.
  pose proof (conf_rows_chain q txid) as Hrows.
  destruct (scan_rows _) as [|row rows]; [done|].
  destruct (proj1 (Hrows row Hs) ltac:(by left)) as (b' & tx' & Hb' & Htx' & Hid & _).
  by destruct (Hn b' tx').
Qed.

(** ** Forward history scans *)

Lemma prefix_height_filter sh h :
  starts_with (prefix_height 72 sh h) (history_filter 72 (as_bytes sh)) = true.
Proof. apply starts_with_spec. by eexists. Qed.

(** The rows stored under a script are its events. *)
Lemma history_row_get q sh row :
  query_synced q ->
  rdb_get (history_db (cq_store q)) (dbr_key row) = Some (dbr_value row) /\
    starts_with (dbr_key row) (history_filter 72 (as_bytes sh)) = true <->
  exists b r, b ∈ chain_of q /\ hist_event (chain_of q) b r /\ hk_hash r = sh /\ row = history_into_row r.
Proof.
  intros Hs. pose proof (sy_sane _ _ _ Hs) as Hsane. split.
  - intros (Hg & Hp). apply (sy_history _ _ _ Hs) in Hg.
    + destruct Hg as (b & Hb & Hr0). assert (hist_row cfg (chain_of q) b row) as Hr by (by destruct row).
      apply hist_row_event in Hr as (r & Heq & He).
      2: { apply starts_with_spec in Hp as [x ->]. done. }
      destruct (hist_event_facts _ _ _ Hsane Hb He) as (Hrange & Hc & _).
      subst row. cbn [history_into_row dbr_key] in Hp. rewrite <- Hc, history_filter_spec in Hp. eauto 6.
    + apply (prefix_hist_key 72); [done|]. by eapply starts_with_first.
  - intros (b & r & Hb & He & Hsh & ->).
    destruct (hist_event_facts _ _ _ Hsane Hb He) as (Hrange & Hc & _). subst sh.
    cbn [history_into_row dbr_key dbr_value]. split.
    + apply (sy_history _ _ _ Hs).
      * apply (prefix_hist_key 72); [done|]. unfold history_key_bytes. rewrite Hc. apply (starts_with_app [_]).
      * exists b. split; [done|]. by apply hist_event_row.
    + rewrite <- Hc. by apply history_filter_spec.
Qed.

Lemma history_scan_chain q sh n row :
  query_synced q -> is_u32 (Z.of_nat n) ->
  row ∈ scan_rows (iter_scan_from (history_db (cq_store q)) (history_filter 72 (as_bytes sh))
          (prefix_height 72 sh (as_u32 (Z.of_nat n)))) <->
  exists b r, b ∈ chain_of q /\ hist_event (chain_of q) b r /\ hk_hash r = sh /\
    (Z.of_nat n <= confirmed_height r)%Z /\ row = history_into_row r.
Proof.
  intros Hs Hn. rewrite as_u32_id by done. rewrite (proj2 (iter_scan_from_rows _ _ _ (prefix_height_filter sh _))).
  rewrite (assoc and), (history_row_get q sh row Hs).
  assert (forall b r, b ∈ chain_of q -> hist_event (chain_of q) b r -> hk_hash r = sh ->
    bytes_le (prefix_height 72 sh (Z.of_nat n)) (dbr_key (history_into_row r)) <->
    (Z.of_nat n <= confirmed_height r)%Z) as Hle.
  { intros b r Hb He <-. destruct (hist_event_facts _ _ _ (sy_sane _ _ _ Hs) Hb He) as (Hrange & Hc & _).
    rewrite <- Hc. by apply prefix_height_le. }
  split; [intros ((b & r & Hb & He & Hsh & ->) & Hl)|intros (b & r & Hb & He & Hsh & Hl & ->)].
  - exists b, r. split_and!; try done. by apply (Hle b r).
  - split; [by exists b, r|]. by apply (Hle b r).
Qed.

(** The events of a script with the blocks that confirm them. *)
Definition script_event q (sh : FullHash) (p : TxHistoryRow * BlockId) : Prop :=
  exists b, b ∈ chain_of q /\ hist_event (chain_of q) b p.1 /\ hk_hash p.1 = sh /\
    p.2 = BlockId_from (be_entry b).
Definition event_lt (p p' : TxHistoryRow * BlockId) : Prop :=
  bytes_lt (history_key_bytes p.1) (history_key_bytes p'.1).

Record history_view q (sh : FullHash) (rows : list (TxHistoryRow * BlockId)) : Prop := {
  hv_scan n : is_u32 (Z.of_nat n) ->
    confirmed_rows q sh n = it_of (filter (fun p => n <= bid_height p.2) rows);
  hv_events p : p ∈ rows <-> script_event q sh p;
  hv_sorted : StronglySorted event_lt rows;
}.

Lemma script_event_facts q sh p :
  query_synced q -> script_event q sh p ->
  history_from_row (history_into_row p.1) = Ok p.1 /\
  tx_confirming_block q (row_get_txid p.1) = Ok (Some p.2) /\
  Z.of_nat (bid_height p.2) = confirmed_height p.1 /\
  history_in_range p.1 /\ hk_code p.1 = 72%Z.
Proof.
  intros Hs (b & Hb & He & Hsh & ->).
  destruct (hist_event_facts _ _ _ (sy_sane _ _ _ Hs) Hb He) as (Hr & Hc & Hh & tx & Htx & Hid).
  split; [by apply history_from_into|]. split; [rewrite Hid; by apply tx_confirming_block_in|].
  by rewrite Hh.
Qed.

Lemma confirmed_rows_of q sh (rs : list (TxHistoryRow * BlockId)) :
  query_synced q -> Forall (script_event q sh) rs ->
  it_filter_map (fun history =>
      o ← tx_confirming_block q (row_get_txid history);
      Ok (match o with
          | Some b => if decide (Z.of_nat (bid_height b) = confirmed_height history)
                      then Some (history, b) else None
          | None => None
          end)) (it_map history_from_row (it_of (map (fun p => history_into_row p.1) rs))) = it_of rs.
Proof.
  intros Hs. induction 1 as [|p rs Hp Hrs IH]; [done|].
  destruct (script_event_facts _ _ _ Hs Hp) as (Hf & Hc & Hh & _).
  cbn [map it_of it_map it_filter_map mbind result_bind]. rewrite Hf. cbn [mbind result_bind].
  rewrite Hc. cbn [mbind result_bind]. rewrite decide_True by done. unfold it_of, it_map in *.
  rewrite IH. by destruct p.
Qed.

Lemma history_view_exists q sh : query_synced q -> exists rows, history_view q sh rows.
Proof.
  intros Hs.
  set (scan := fun n => scan_rows (iter_scan_from (history_db (cq_store q)) (history_filter 72 (as_bytes sh))
    (prefix_height 72 sh (as_u32 (Z.of_nat n))))).
  assert (forall n, StronglySorted row_lt (scan n)) as Hsort
    by (intros n; apply iter_scan_from_rows, prefix_height_filter).
  assert (forall n row, is_u32 (Z.of_nat n) -> row ∈ scan n <-> exists p, script_event q sh p /\
    n <= bid_height p.2 /\ row = history_into_row p.1) as Hscan.
  { intros n row Hn. unfold scan. rewrite (history_scan_chain q sh n row Hs Hn). split.
    - intros (b & r & Hb & He & Hsh & Hle & ->). exists (r, BlockId_from (be_entry b)).
      assert (script_event q sh (r, BlockId_from (be_entry b))) as Hev by (by exists b).
      destruct (script_event_facts _ _ _ Hs Hev) as (_ & _ & Hh & _).
      split; [done|]. split; [|done]. cbn [fst] in Hh. lia.
    - intros (p & Hev & Hle & ->). destruct (script_event_facts _ _ _ Hs Hev) as (_ & _ & Hh & _).
      destruct Hev as (b & Hb & He & Hsh & _). exists b, p.1. split_and!; try done. lia. }
  assert (is_u32 (Z.of_nat 0)) as H0 by (unfold is_u32, u32_mod; lia).
  destruct (list_preimage (fun p => history_into_row p.1) (script_event q sh) (scan 0)) as (rows & Hrows & Hev).
  { intros row (p & Hp & _ & ->)%Hscan; eauto. }
  pose proof (Hsort 0) as Hs0. rewrite Hrows in Hs0.
  apply (proj1 (StronglySorted_map row_lt _ rows)) in Hs0.
  assert (forall p, p ∈ rows <-> script_event q sh p) as Hel.
  { intros p. split; [intros Hp; rewrite Forall_forall in Hev; auto|]. intros Hp.
    assert (history_into_row p.1 ∈ scan 0) as Hin by (apply Hscan; [done|]; exists p; split_and!; [done|lia|done]).
    rewrite Hrows in Hin. apply elem_of_map in Hin as (p' & Heq & Hp').
    rewrite Forall_forall in Hev. pose proof (Hev p' Hp') as Hev'.
    destruct (script_event_facts _ _ _ Hs Hp) as (_ & Hc & _ & Hr & _),
      (script_event_facts _ _ _ Hs Hev') as (_ & Hc' & _ & Hr' & _).
    apply (f_equal dbr_key) in Heq. apply history_key_inj in Heq; [|done..]. rewrite Heq in Hc.
    assert (p = p') as ->; [|done]. destruct p, p'. cbn in *. congruence. }
  exists rows. split; [|done|exact Hs0]. intros n Hn.
  unfold confirmed_rows, history_iter_scan. fold (scan n).
  assert (scan n = map (fun p => history_into_row p.1) (filter (fun p => n <= bid_height p.2) rows)) as ->.
  { apply row_lt_unique; [done| |].
    - apply (StronglySorted_map row_lt). by apply StronglySorted_filter.
    - intros row. rewrite Hscan by done. rewrite elem_of_map. setoid_rewrite list_elem_of_filter.
      setoid_rewrite Hel. naive_solver. }
  apply (confirmed_rows_of q sh); [done|]. apply Forall_forall. intros p [_ Hp]%list_elem_of_filter.
  by apply Hel.
Qed.
End view.

(** A query on the store of the example chain, with an empty cache. *)
Lemma ex_query_exists : exists q : ChainQuery KvMap,
  @query_synced KvMap _ ExampleLib FixintWincode ex_cfg ex_block_of q /\
  cq_headers q = ex_hl /\ cache_db (cq_store q) = rdb_empty /\ cq_light_mode q = false /\
  indexed_blockhashes (cq_store q) = ∅.
Proof.
  destruct (@synced_build KvMap _ _ ExampleLib ExampleLib_laws FixintWincode FixintWincode_laws
    ex_cfg ex_block_of ex_hl) as (d & _ & Hsy & _).
  { apply hl_reachable_wf, ex_hl_reachable. }
  { vm_compute. congruence. }
  { apply ex_chain_sane. by left. }
  match type of Hsy with synced _ _ ?st => exists (mkChainQuery st ex_daemon false) end.
  split; [exact Hsy|]. done.
Qed.
