(* ===== verification/ChainBlocks.v ===== *)
(** * Transactions, blocks and spends of a synced store

    What [ChainQuery] answers about transactions, blocks, outputs and spends when the
    store is synced with the best chain and was not built in light mode. *)

From S2P Require Import Prelude Iter RocksDB DB Bitcoin HeaderList Rows Fetch Indexer.
From S2P Require Import IndexerSync ChainQuery ChainView.

Section lookups.
Context {D : Type} {RDB : RocksDB D} {RDBL : RocksDBLaws D}.
Context {BL : BitcoinLib} {BLaws : BitcoinLaws} {W : Wincode} {WL : WincodeLaws}.
Context (cfg : IndexerConfig) (block_of : BlockHash -> Block).
Implicit Types q : ChainQuery D.

#[local] Abbreviation chain_of := (chain_of block_of).
#[local] Abbreviation query_synced := (query_synced cfg block_of).

Definition full_mode q : Prop := light_mode cfg = false /\ cq_light_mode q = false.

(** A point read of the transaction store finds the row of the chain, if there is one. *)
Lemma txstore_get q k v :
  query_synced q -> tx_key k ->
  rdb_get (txstore_db (cq_store q)) k = Some v <->
    exists b, b ∈ chain_of q /\ add_row cfg b (mkDBRow k v).
Proof. intros Hs Hk. apply (sy_txstore _ _ _ Hs k v Hk). Qed.
Lemma txstore_get_row q b r :
  query_synced q -> b ∈ chain_of q -> add_row cfg b r ->
  rdb_get (txstore_db (cq_store q)) (dbr_key r) = Some (dbr_value r).
Proof.
  intros Hs Hb Hr. apply (txstore_get q); [done|by eapply add_row_tx_key|]. exists b. by destruct r.
Qed.

(** ** Transactions *)

Lemma raw_txn_in q b tx bh :
  query_synced q -> full_mode q -> b ∈ chain_of q -> tx ∈ txdata (be_block b) ->
  lookup_raw_txn q (get_txid tx) bh = Ok (Some (serialize_tx tx)).
Proof.
  intros Hs [Hl Hq] Hb Htx. unfold lookup_raw_txn. rewrite Hq. f_equal.
  exact (txstore_get_row q b (tx_row tx) Hs Hb (ar_tx cfg b tx Htx Hl)).
Qed.
Lemma raw_txn_out q txid bh :
  query_synced q -> full_mode q ->
  (forall b tx, b ∈ chain_of q -> tx ∈ txdata (be_block b) -> get_txid tx <> txid) ->
  lookup_raw_txn q txid bh = Ok None.
Proof.
  intros Hs [Hl Hq] Hn. unfold lookup_raw_txn, db_get. rewrite Hq. f_equal.
  destruct (rdb_get _ _) as [v|] eqn:E; [|done]. exfalso.
  apply (txstore_get q) in E as (b & Hb & Hr); [|done|by apply (prefix_tx_key 84); [|apply (starts_with_app [_])]].
  inversion Hr as [tx Htx Hk|tx Htx _ Hk|tx i txo Htx Hi Hsp Hk|_ Hk|_ Hk|Hk|Hk]; try (by discriminate Hk).
  apply as_bytes_inj in Hk. by apply (Hn b tx).
Qed.
Lemma txn_in q b tx bh :
  query_synced q -> full_mode q -> b ∈ chain_of q -> tx ∈ txdata (be_block b) ->
  lookup_txn q (get_txid tx) bh = Ok (Some tx).
Proof.
  intros Hs Hf Hb Htx. unfold lookup_txn, and_then. rewrite (raw_txn_in q b tx bh) by done. cbn.
  rewrite de_ser_tx. cbn. by rewrite bool_decide_eq_true_2.
Qed.
Lemma txn_out q txid bh :
  query_synced q -> full_mode q ->
  (forall b tx, b ∈ chain_of q -> tx ∈ txdata (be_block b) -> get_txid tx <> txid) ->
  lookup_txn q txid bh = Ok None.
Proof. intros Hs Hf Hn. unfold lookup_txn, and_then. by rewrite (raw_txn_out q txid bh). Qed.

(** ** Blocks *)

Lemma block_header_entry q b :
  query_synced q -> b ∈ chain_of q -> header_by_hash q (he_hash (be_entry b)) = Some (be_entry b).
Proof.
  intros Hs Hb. apply (header_by_blockhash_Some _ _ _ (sy_wf _ _ _ Hs)). split; [|done].
  by apply blocks_of_elem in Hb as (e & He & ->).
Qed.
Lemma block_txids_in q b :
  query_synced q -> full_mode q -> b ∈ chain_of q ->
  get_block_txids q (he_hash (be_entry b)) = Ok (Some (map get_txid (txdata (be_block b)))).
Proof.
  intros Hs [Hl Hq] Hb. unfold get_block_txids, db_get. rewrite Hq.
  pose proof (txstore_get_row q b _ Hs Hb (ar_txids cfg b Hl)) as Hg. cbn in Hg.
  unfold txids_key. cbn. rewrite Hg. by rewrite de_ser_txids.
Qed.
Lemma block_meta_in q b :
  query_synced q -> full_mode q -> b ∈ chain_of q ->
  get_block_meta q (he_hash (be_entry b)) = Ok (Some (BlockMeta_from b)).
Proof.
  intros Hs [Hl Hq] Hb. unfold get_block_meta, db_get. rewrite Hq.
  pose proof (txstore_get_row q b _ Hs Hb (ar_meta cfg b Hl)) as Hg. cbn in Hg.
  unfold meta_key. cbn. rewrite Hg. rewrite de_ser_meta; [done|].
  split; [apply as_u32_range|]. split; [|apply as_u32_range].
  apply blocks_of_elem in Hb as (e & _ & ->). apply as_u32_range.
Qed.
(** A block that is not on the best chain has no rows: a reorganisation removed them. *)
Lemma block_rows_out q h c :
  query_synced q -> (c = 88 \/ c = 77)%Z -> (forall b, b ∈ chain_of q -> he_hash (be_entry b) <> h) ->
  rdb_get (txstore_db (cq_store q)) ([c] ++ as_bytes h) = None.
Proof.
  intros Hs Hc Hn. destruct (rdb_get _ _) as [v|] eqn:E; [|done]. exfalso.
  apply (txstore_get q) in E as (b & Hb & Hr); [|done|apply (prefix_tx_key c); [by destruct Hc; subst|apply (starts_with_app [_])]].
  inversion Hr; subst; destruct Hc; try done;
    match goal with H : as_bytes _ = as_bytes _ |- _ => apply as_bytes_inj in H; by apply (Hn b) end.
Qed.

Lemma lookup_all_in q b h l :
  query_synced q -> full_mode q -> b ∈ chain_of q -> (forall tx, tx ∈ l -> tx ∈ txdata (be_block b)) ->
  lookup_all q h (map get_txid l) = Ok (Some l).
Proof.
  intros Hs Hf Hb. induction l as [|tx l IH]; intros Hl; [done|]. cbn [map lookup_all].
  unfold and_then at 1. rewrite (txn_in q b tx) by (try done; apply Hl; by left). cbn [mbind result_bind].
  unfold and_then. rewrite IH; [done|]. intros tx' Htx'. apply Hl. by right.
Qed.
Lemma raw_txns_in q b l :
  query_synced q -> full_mode q -> b ∈ chain_of q -> (forall tx, tx ∈ l -> tx ∈ txdata (be_block b)) ->
  raw_txns q (map get_txid l) = Ok (Some (concat (map serialize_tx l))).
Proof.
  intros Hs Hf Hb. induction l as [|tx l IH]; intros Hl; [done|]. cbn [map raw_txns concat].
  unfold and_then at 1. rewrite (raw_txn_in q b tx) by (try done; apply Hl; by left). cbn [mbind result_bind].
  unfold and_then. rewrite IH; [done|]. intros tx' Htx'. apply Hl. by right.
Qed.

(** ** Outputs *)

Definition chain_avail q (o : OutPoint) : option TxOut :=
  match rdb_get (txstore_db (cq_store q)) (txout_key o) with Some v => deserialize_txout v | None => None end.
Lemma chain_avail_ok q o :
  query_synced q -> lookup_txo (txstore_db (cq_store q)) o = Ok (chain_avail q o).
Proof.
  intros Hs. unfold lookup_txo, chain_avail, db_get.
  destruct (rdb_get _ _) as [v|] eqn:E; [|done].
  apply (txstore_get q) in E as (b & Hb & Hr); [|done|apply (prefix_tx_key 79); [done|apply (starts_with_app [_])]].
  inversion Hr; subst. by rewrite de_ser_txout.
Qed.
Lemma chain_avail_txo q o txo :
  query_synced q -> is_u32 (op_vout o) -> chain_avail q o = Some txo <-> chain_txo (chain_of q) o txo.
Proof.
  intros Hs Ho. split.
  - unfold chain_avail. destruct (rdb_get _ _) as [v|] eqn:E; [|done].
    apply (txstore_get q) in E as (b & Hb & Hr); [|done|apply (prefix_tx_key 79); [done|apply (starts_with_app [_])]].
    inversion Hr as [| |tx i txo' Htx Hi Hsp| | | |]; subst. rewrite de_ser_txout. intros [= ->].
    match goal with H : as_bytes _ ++ _ = as_bytes _ ++ _ |- _ => apply hash_app_inj in H as [Hid Hk] end.
    destruct (br_outputs _ (cs_range _ (sy_sane _ _ _ Hs) _ Hb) _ _ _ Htx Hi) as [Hu _].
    rewrite as_u32_id in Hk by done. apply fixint_inj in Hk; [|range..].
    exists b, tx, i. done.
  - intros Ht. pose proof (lookup_txo_holds cfg _ _ _ _ (sy_txstore _ _ _ Hs) (sy_sane _ _ _ Hs) Ht) as H.
    rewrite chain_avail_ok in H by done. by injection H.
Qed.

(** ** Spends *)

(** A transaction of the chain spends the outpoint. *)
Definition chain_spend q (o : OutPoint) (s : SpendingInput) : Prop :=
  exists b tx j txi, b ∈ chain_of q /\ tx ∈ txdata (be_block b) /\ tx_input tx !! j = Some txi /\
    has_prevout txi = true /\ previous_output txi = o /\
    s = mkSpendingInput (get_txid tx) (Z.of_nat j) (Some (BlockId_from (be_entry b))).

Lemma edge_row_chain q o row :
  query_synced q -> is_u32 (op_vout o) ->
  row ∈ scan_rows (iter_scan (history_db (cq_store q)) (edge_filter o)) <->
  exists b tx j txi, b ∈ chain_of q /\ tx ∈ txdata (be_block b) /\ tx_input tx !! j = Some txi /\
    has_prevout txi = true /\ previous_output txi = o /\ is_u32 (Z.of_nat j) /\
    row = edge_into_row (edge_new (op_txid o) (op_vout o) (get_txid tx) (Z.of_nat j)).
Proof.
  intros Hs Ho. rewrite iter_scan_rows. split.
  - intros [Hg Hp]. apply (sy_history _ _ _ Hs) in Hg.
    2: { apply (prefix_hist_key 83); [done|]. by eapply starts_with_first. }
    destruct Hg as (b & Hb & Hr). assert (hist_row cfg (chain_of q) b row) as Hr' by (by destruct row). clear Hr.
    destruct Hr' as [| tx i txo row _ _ _ _ Ha | |tx j txi Htx Hj Hpv|]; try (by discriminate Hp).
    { unfold addr_search_row in Ha. by destruct (to_address_str _ _); cbn in Ha; simplify_eq. }
    destruct (br_inputs _ (cs_range _ (sy_sane _ _ _ Hs) _ Hb) _ _ _ Htx Hj) as [Hu Hv].
    rewrite as_u32_id in Hp |- * by done.
    apply edge_filter_spec in Hp; [|by split|done|done]. cbn in Hp.
    exists b, tx, j, txi. split_and!; try done; subst o; [by destruct (previous_output txi)|done].
  - intros (b & tx & j & txi & Hb & Htx & Hj & Hpv & <- & Hu & ->).
    destruct (br_inputs _ (cs_range _ (sy_sane _ _ _ Hs) _ Hb) _ _ _ Htx Hj) as [_ Hv].
    split; [|apply edge_filter_spec; [by split|done|done|by destruct (previous_output txi)]].
    apply (sy_history _ _ _ Hs).
    + apply (prefix_hist_key 83); [done|]. apply (starts_with_app [_]).
    + exists b. split; [done|]. rewrite <- (as_u32_id (Z.of_nat j)) by done. by eapply hr_edge.
Qed.

Lemma lookup_spend_chain q o :
  query_synced q -> is_u32 (op_vout o) ->
  (exists s, lookup_spend q o = Ok (Some s) /\ chain_spend q o s) \/
  (lookup_spend q o = Ok None /\ forall s, ~ chain_spend q o s).
Proof.
  intros Hs Ho. unfold lookup_spend. pose proof (edge_row_chain q o) as Hrows.
  destruct (scan_rows _) as [|row rows].
  - right. split; [done|]. intros s (b & tx & j & txi & Hb & Htx & Hj & Hp & Hpo & _).
    destruct (br_inputs _ (cs_range _ (sy_sane _ _ _ Hs) _ Hb) _ _ _ Htx Hj) as [Hu _].
    apply (not_elem_of_nil (edge_into_row (edge_new (op_txid o) (op_vout o) (get_txid tx) (Z.of_nat j)))).
    apply Hrows; [done..|]. by exists b, tx, j, txi.
  - left. destruct (proj1 (Hrows row Hs Ho) ltac:(by left)) as (b & tx & j & txi & Hb & Htx & Hj & Hp & Hpo & Hu & ->).
    exists (mkSpendingInput (get_txid tx) (Z.of_nat j) (Some (BlockId_from (be_entry b)))).
    split; [|by exists b, tx, j, txi].
    cbn [it_of map it_map mbind result_bind]. rewrite edge_from_into by done.
    cbn [it_filter_map mbind result_bind edge_new spending_txid].
    by rewrite (tx_confirming_block_in cfg block_of q b tx).
Qed.
End lookups.

(** ** Properties *)

Section properties.
Context {D : Type} {RDB : RocksDB D} {RDBL : RocksDBLaws D}.
Context {BL : BitcoinLib} {BLaws : BitcoinLaws} {W : Wincode} {WL : WincodeLaws}.
Context (cfg : IndexerConfig) (block_of : BlockHash -> Block).

(** C9: Every block of the best chain can be read back: its header entry, its ids in
    order, its transactions, its metadata, and its raw serialization (header, count
    and transactions); a hash that is not on the best chain has none of them. *)
Theorem block_queries_read_back (q : ChainQuery D) :
  query_synced cfg block_of q -> full_mode cfg q ->
  (forall b, b ∈ chain_of block_of q ->
    let h := he_hash (be_entry b) in
    header_by_hash q h = Some (be_entry b) /\
    get_block_txids q h = Ok (Some (map get_txid (txdata (be_block b)))) /\
    get_block_txs q h = Ok (Some (txdata (be_block b))) /\
    get_block_meta q h = Ok (Some (BlockMeta_from b)) /\
    get_block_raw q h = Ok (Some (serialize_header (he_header (be_entry b))
      ++ serialize_varint (Z.of_nat (length (txdata (be_block b))))
      ++ concat (map serialize_tx (txdata (be_block b)))))) /\
  (forall h, (forall b, b ∈ chain_of block_of q -> he_hash (be_entry b) <> h) ->
    header_by_hash q h = None /\ get_block_txids q h = Ok None /\ get_block_txs q h = Ok None /\
    get_block_meta q h = Ok None /\ get_block_raw q h = Ok None).
Proof.
  intros Hs Hf. split.
  - intros b Hb h. subst h. pose proof (block_header_entry cfg block_of q b Hs Hb) as Hh.
    pose proof (block_txids_in cfg block_of q b Hs Hf Hb) as Ht.
    pose proof (block_meta_in cfg block_of q b Hs Hf Hb) as Hm.
    split; [done|]. split; [done|]. split; [|split; [done|]].
    + unfold get_block_txs, and_then. rewrite Ht. cbn [mbind result_bind].
      by apply (lookup_all_in cfg block_of q b).
    + unfold get_block_raw. rewrite (proj2 Hf), Hh. unfold and_then. cbn [mbind result_bind].
      rewrite Hm. cbn [mbind result_bind]. rewrite Ht. cbn [mbind result_bind].
      rewrite (raw_txns_in cfg block_of q b) by done. cbn [mbind result_bind]. by rewrite length_map.
  - intros h Hn. pose proof (block_rows_out cfg block_of q h 88 Hs ltac:(by left) Hn) as H1.
    pose proof (block_rows_out cfg block_of q h 77 Hs ltac:(by right) Hn) as H2.
    assert (header_by_hash q h = None) as Hh.
    { destruct (header_by_hash q h) as [e|] eqn:E; [|done]. exfalso.
      apply (header_by_blockhash_Some _ _ _ (sy_wf _ _ _ Hs)) in E as [He Heq].
      apply (Hn (entry_block block_of e)); [|done]. apply blocks_of_elem. by exists e. }
    assert (get_block_txids q h = Ok None) as Ht.
    { unfold get_block_txids, db_get, txids_key. by rewrite (proj2 Hf), H1. }
    split; [done|]. split; [done|]. unfold get_block_txs, get_block_meta, get_block_raw, and_then, db_get, meta_key.
    by rewrite Ht, (proj2 Hf), H2, Hh.
Qed.

(** A transaction of the best chain is found with the block that confirms it; a
    transaction that is not on it is reported unknown and unconfirmed. *)
Lemma transaction_lookup_exact (q : ChainQuery D) txid :
  query_synced cfg block_of q -> full_mode cfg q ->
  match lookup_txn q txid None with
  | Ok (Some tx) => get_txid tx = txid /\ exists b, b ∈ chain_of block_of q /\
      tx ∈ txdata (be_block b) /\ tx_confirming_block q txid = Ok (Some (BlockId_from (be_entry b)))
  | Ok None => tx_confirming_block q txid = Ok None /\
      forall b tx, b ∈ chain_of block_of q -> tx ∈ txdata (be_block b) -> get_txid tx <> txid
  | _ => False
  end.
Proof.
  intros Hs Hf.
  destruct (decide (Exists (fun b => Exists (fun tx => get_txid tx = txid) (txdata (be_block b)))
    (chain_of block_of q))) as [He|He].
  - apply Exists_exists in He as (b & Hb & (tx & Htx & <-)%Exists_exists).
    rewrite (txn_in cfg block_of q b tx) by done. split; [done|]. exists b.
    split; [done|]. split; [done|]. by apply (tx_confirming_block_in cfg block_of).
  - assert (forall b tx, b ∈ chain_of block_of q -> tx ∈ txdata (be_block b) -> get_txid tx <> txid) as Hn.
    { intros b tx Hb Htx Hid. apply He, Exists_exists. exists b. split; [done|]. apply Exists_exists. eauto. }
    rewrite (txn_out cfg block_of q txid) by done. split; [|done]. by apply (tx_confirming_block_out cfg block_of).
Qed.

(** The spend reported for an outpoint is a spend on the best chain, with its
    block, and none is reported exactly when the best chain does not spend it. *)
Lemma lookup_spend_exact (q : ChainQuery D) o :
  query_synced cfg block_of q -> is_u32 (op_vout o) ->
  match lookup_spend q o with
  | Ok (Some s) => chain_spend block_of q o s
  | Ok None => forall s, ~ chain_spend block_of q o s
  | _ => False
  end.
Proof.
  intros Hs Ho. by destruct (lookup_spend_chain cfg block_of q o Hs Ho) as [(s & -> & H)|[-> H]].
Qed.
End properties.

Lemma ex_full_mode : exists q : ChainQuery KvMap,
  @query_synced KvMap _ ExampleLib FixintWincode ex_cfg ex_block_of q /\ full_mode ex_cfg q /\
  @chain_of KvMap ExampleLib ex_block_of q = @blocks_of ExampleLib ex_block_of (headers ex_hl).
Proof.
  destruct ex_query_exists as (q & Hq & Hhl & _ & Hl & _). exists q. split; [exact Hq|]. split; [by split|].
  unfold chain_of. by rewrite Hhl.
Qed.
Lemma block_queries_read_back_witness :
  exists q : ChainQuery KvMap, forall b,
    b ∈ @chain_of KvMap ExampleLib ex_block_of q ->
    @get_block_txs KvMap _ ExampleLib FixintWincode q (he_hash (be_entry b)) = Ok (Some (txdata (be_block b))).
Proof.
  destruct ex_full_mode as (q & Hq & Hf & _). exists q. intros b Hb.
  destruct (@block_queries_read_back KvMap _ ExampleLib ExampleLib_laws FixintWincode FixintWincode_laws
    ex_cfg ex_block_of q Hq Hf) as [H _]. destruct (H b Hb) as (_ & _ & Ht & _). exact Ht.
Defined.
(** The genesis output is created by transaction 101 and spent by transaction 203 of the
    third block. *)
Definition ex_chain : list BlockEntry := @blocks_of ExampleLib ex_block_of (headers ex_hl).
Lemma ex_chain_txs :
  (exists b, ex_chain !! 0 = Some b /\ txdata (be_block b) !! 0 = Some (ex_coinbase 101 [118; 1]%Z)) /\
  (exists b, ex_chain !! 2 = Some b /\
     txdata (be_block b) !! 1 = Some (ex_spend_tx 203 101 [mkTxOut 30 [118; 1]%Z; mkTxOut 20 [118; 9]%Z])).
Proof. split; eexists; (split; [vm_compute; reflexivity|vm_compute; reflexivity]). Qed.
Lemma transaction_lookup_exact_witness :
  exists (q : ChainQuery KvMap) tx, @lookup_txn KvMap _ ExampleLib q (pack_hash 101) None = Ok (Some tx) /\
    @get_txid ExampleLib tx = pack_hash 101.
Proof.
  destruct ex_full_mode as (q & Hq & Hf & Hc). exists q.
  pose proof (@transaction_lookup_exact KvMap _ _ ExampleLib ExampleLib_laws FixintWincode FixintWincode_laws
    ex_cfg ex_block_of q (pack_hash 101) Hq Hf) as H.
  destruct (lookup_txn q (pack_hash 101) None) as [[tx|]| | |]; [|exfalso|by destruct H..].
  - exists tx. split; [reflexivity|exact (proj1 H)].
  - destruct ex_chain_txs as [(b & Hb & Htx) _]. apply (proj2 H b (ex_coinbase 101 [118; 1]%Z)).
    + rewrite Hc. exact (list_elem_of_lookup_2 _ _ _ Hb).
    + exact (list_elem_of_lookup_2 _ _ _ Htx).
    + vm_compute. reflexivity.
Defined.
Lemma lookup_spend_exact_witness :
  exists (q : ChainQuery KvMap) s,
    @lookup_spend KvMap _ FixintWincode q (mkOutPoint (pack_hash 101) 0) = Ok (Some s) /\
    @chain_spend KvMap ExampleLib ex_block_of q (mkOutPoint (pack_hash 101) 0) s.
Proof.
  destruct ex_full_mode as (q & Hq & Hf & Hc). exists q.
  pose proof (@lookup_spend_exact KvMap _ _ ExampleLib FixintWincode FixintWincode_laws
    ex_cfg ex_block_of q (mkOutPoint (pack_hash 101) 0) Hq ltac:(vm_decide)) as H.
  destruct (lookup_spend q (mkOutPoint (pack_hash 101) 0)) as [[s|]| | |]; [|exfalso|by destruct H..].
  - exists s. split; [reflexivity|exact H].
  - destruct ex_chain_txs as [_ (b & Hb & Htx)]. eapply H. eexists b, _, 0, _.
    split; [rewrite Hc; exact (list_elem_of_lookup_2 _ _ _ Hb)|].
    split; [exact (list_elem_of_lookup_2 _ _ _ Htx)|]. split; [reflexivity|]. split; [vm_compute; reflexivity|].
    split; [reflexivity|reflexivity].
Defined.
