(* ===== verification/ChainHistory.v ===== *)
(** * The history of scripts on the best chain

    The reverse scans behind [history], [history_group] and the [txids] iterators,
    read on a synced store: every script, or group of scripts, has one listing of
    its confirmed transactions, newest first and each once, and the pages that the
    queries return are consecutive slices of it. *)

From S2P Require Import Prelude Iter RocksDB DB Bitcoin HeaderList Rows Fetch Indexer.
From S2P Require Import IndexerSync ChainQuery ChainView ChainBlocks.

(** The rows at or below the key a reverse scan starts from. *)
Definition in_scan (start : option Z) (r : TxHistoryRow) : Prop :=
  match start with
  | None => (confirmed_height r < u32_mod - 1)%Z
  | Some h => (confirmed_height r < h \/ confirmed_height r = h /\ hk_tx_position r < u16_mod - 1)%Z
  end.
Definition start_ok (start : option Z) : Prop :=
  match start with None => True | Some h => is_u32 h end.

(** Newest first: by height, then by the position in the block. *)
Definition row_newer (r r' : TxHistoryRow) : Prop :=
  (confirmed_height r' < confirmed_height r \/
   confirmed_height r' = confirmed_height r /\ hk_tx_position r' <= hk_tx_position r)%Z.

Section suffix.
Context {W : Wincode} {WL : WincodeLaws}.
Definition key_suffix (r : TxHistoryRow) : Bytes :=
  fixint Big 4 (confirmed_height r) ++ fixint Big 2 (hk_tx_position r) ++ info_bytes (txinfo r).

Lemma drop_suffix r : drop 33 (history_key_bytes r) = key_suffix r.
Proof.
  unfold history_key_bytes. change 33 with (S 32). cbn [drop].
  rewrite <- (as_bytes_length (hk_hash r)) at 1. apply drop_app_length.
Qed.
Lemma suffix_newer r r' :
  history_in_range r -> history_in_range r' ->
  bytes_le (key_suffix r') (key_suffix r) -> row_newer r r'.
Proof.
  intros Hr Hr'. unfold bytes_le, key_suffix, row_newer. rewrite fixint_big_app by range.
  destruct (Z.compare_spec (confirmed_height r') (confirmed_height r)); [|auto|done].
  rewrite fixint_big_app by range.
  destruct (Z.compare_spec (hk_tx_position r') (hk_tx_position r)); [| |done]; intros _; lia.
Qed.
Lemma row_gt_suffix r r' :
  hk_code r = hk_code r' -> hk_hash r = hk_hash r' ->
  row_gt (history_into_row r) (history_into_row r') -> suffix_ge 33 (history_into_row r) (history_into_row r').
Proof.
  intros Hc Hh. unfold row_gt, suffix_ge, bytes_lt, bytes_le. cbn [history_into_row dbr_key].
  rewrite !drop_suffix. unfold history_key_bytes. rewrite Hc, Hh. cbn [bcmp].
  rewrite Z.compare_refl, bcmp_app. fold (key_suffix r) (key_suffix r'). intros ->. done.
Qed.
End suffix.

Section history.
Context {D : Type} {RDB : RocksDB D} {RDBL : RocksDBLaws D}.
Context {BL : BitcoinLib} {BLaws : BitcoinLaws} {W : Wincode} {WL : WincodeLaws}.
Context (cfg : IndexerConfig) (block_of : BlockHash -> Block).
Implicit Types q : ChainQuery D.
Abbreviation event := (TxHistoryRow * BlockId)%type.
Abbreviation script_event := (script_event cfg block_of).
Abbreviation chain_of := (chain_of block_of).
Abbreviation query_synced := (query_synced cfg block_of).

(** The events of some scripts that a reverse scan meets. *)
Definition scanned q (shs : list FullHash) (start : option Z) (p : event) : Prop :=
  exists sh, sh ∈ shs /\ script_event q sh p /\ in_scan start p.1.

Lemma event_row_inj q sh sh' p p' :
  query_synced q -> script_event q sh p -> script_event q sh' p' ->
  history_into_row p.1 = history_into_row p'.1 -> p = p'.
Proof.
  intros Hs Hp Hp' Heq.
  destruct (script_event_facts _ _ _ _ _ Hs Hp) as (_ & Hc & _ & Hr & _),
    (script_event_facts _ _ _ _ _ Hs Hp') as (_ & Hc' & _ & Hr' & _).
  apply (f_equal dbr_key), history_key_inj in Heq; [|done..]. rewrite Heq in Hc.
  destruct p, p'. cbn in *. congruence.
Qed.

(** ** Reverse scans *)

Lemma prefix_max_filter sh start :
  starts_with (prefix_max 72 sh start) (history_filter 72 (as_bytes sh)) = true.
Proof. apply starts_with_spec. destruct start; by eexists. Qed.

Lemma prefix_max_le r start :
  history_in_range r -> start_ok start ->
  bytes_le (history_key_bytes r) (prefix_max (hk_code r) (hk_hash r) start) <-> in_scan start r.
Proof. destruct start; intros; [by apply prefix_height_end_le|by apply prefix_end_le]. Qed.

Lemma rev_scan_chain q sh start row :
  query_synced q -> start_ok start ->
  row ∈ rev_scan_rows (iter_scan_reverse (history_db (cq_store q)) (history_filter 72 (as_bytes sh))
          (prefix_max 72 sh start)) <->
  exists p, script_event q sh p /\ in_scan start p.1 /\ row = history_into_row p.1.
Proof.
  intros Hs Hst. rewrite (proj2 (iter_scan_reverse_rows _ _ _ (prefix_max_filter sh start))).
  rewrite (assoc and), (history_row_get cfg block_of q sh row Hs).
  assert (forall p, script_event q sh p ->
    bytes_le (dbr_key (history_into_row p.1)) (prefix_max 72 sh start) <-> in_scan start p.1) as Hle.
  { intros p Hp. destruct (script_event_facts _ _ _ _ _ Hs Hp) as (_ & _ & _ & Hr & Hc).
    destruct Hp as (b & _ & _ & <- & _). rewrite <- Hc. by apply prefix_max_le. }
  split.
  - intros ((b & r & Hb & He & Hsh & ->) & Hl). exists (r, BlockId_from (be_entry b)).
    assert (script_event q sh (r, BlockId_from (be_entry b))) as Hev by (by exists b).
    split; [done|]. split; [|done]. by apply Hle in Hev as [Hev _]; auto.
  - intros (p & Hev & Hin & ->). split; [|by apply Hle].
    destruct Hev as (b & Hb & He & Hsh & _). by exists b, p.1.
Qed.

(** A list of rows whose elements are the rows of some events is the image of the
    list of those events, and reads back as it. *)
Lemma rows_events q (rows : list DBRow) (P : event -> Prop) :
  query_synced q -> (forall p, P p -> exists sh, script_event q sh p) ->
  (forall row, row ∈ rows <-> exists p, P p /\ row = history_into_row p.1) ->
  exists ps, rows = map (fun p => history_into_row p.1) ps /\ (forall p, p ∈ ps <-> P p) /\
    it_map history_from_row (it_of rows) = it_of (map fst ps).
Proof.
  intros Hs HP Hrows.
  destruct (list_preimage (fun p => history_into_row p.1) P rows) as (ps & -> & Hps).
  { intros row (p & Hp & ->)%Hrows; eauto. }
  rewrite Forall_forall in Hps. exists ps. split; [done|]. split.
  - intros p. split; [auto|]. intros Hp. assert (history_into_row p.1 ∈ map (fun p => history_into_row p.1) ps) as Hin
      by (apply Hrows; by exists p).
    apply elem_of_map in Hin as (p' & Heq & Hp').
    destruct (HP p Hp) as [sh Hsh], (HP p' (Hps p' Hp')) as [sh' Hsh'].
    by rewrite (event_row_inj q sh sh' p p').
  - unfold it_map, it_of. rewrite !map_map. apply map_ext_in. intros p Hp%list_elem_of_In.
    destruct (HP p (Hps p Hp)) as [sh Hsh]. cbn [mbind result_bind].
    by apply (script_event_facts _ _ _ _ _ Hs Hsh).
Qed.

(** Rows of events in suffix order are newest first. *)
Lemma suffix_sorted_newer q (ps : list event) :
  query_synced q -> (forall p, p ∈ ps -> exists sh, script_event q sh p) ->
  StronglySorted (suffix_ge 33) (map (fun p => history_into_row p.1) ps) ->
  StronglySorted row_newer (map fst ps).
Proof.
  intros Hs Hev. rewrite !(StronglySorted_map _ _ ps). induction 1 as [|p ps Hss IH Hf]; constructor.
  - apply IH. intros; apply Hev; by right.
  - rewrite Forall_forall in *. intros p' Hp'. specialize (Hf p' Hp').
    unfold suffix_ge in Hf. cbn [history_into_row dbr_key] in Hf. rewrite !drop_suffix in Hf.
    destruct (Hev p ltac:(by left)) as [sh Hp], (Hev p' ltac:(by right)) as [sh' Hp2].
    apply suffix_newer; [by apply (script_event_facts _ _ _ _ _ Hs Hp)
      |by apply (script_event_facts _ _ _ _ _ Hs Hp2)|done].
Qed.

Lemma scan_suffix_sorted q sh start :
  query_synced q -> start_ok start ->
  StronglySorted (suffix_ge 33) (rev_scan_rows (iter_scan_reverse (history_db (cq_store q))
    (history_filter 72 (as_bytes sh)) (prefix_max 72 sh start))).
Proof.
  intros Hs Hst.
  destruct (iter_scan_reverse_rows (history_db (cq_store q)) _ _ (prefix_max_filter sh start)) as [Hsort _].
  pose proof (fun row => proj1 (rev_scan_chain q sh start row Hs Hst)) as Hrows.
  induction Hsort as [|row rows Hss IH Hf]; constructor; [apply IH; intros; apply Hrows; by right|].
  rewrite Forall_forall in *. intros row' Hrow'.
  destruct (Hrows row ltac:(by left)) as (p & Hp & _ & Heq), (Hrows row' ltac:(by right)) as (p' & Hp' & _ & Heq').
  specialize (Hf row' Hrow'). subst.
  destruct (script_event_facts _ _ _ _ _ Hs Hp) as (_ & _ & _ & _ & Hc),
    (script_event_facts _ _ _ _ _ Hs Hp') as (_ & _ & _ & _ & Hc').
  destruct Hp as (_ & _ & _ & Hh & _), Hp' as (_ & _ & _ & Hh' & _).
  apply row_gt_suffix; congruence.
Qed.

(** What the two scans read: the events of the scripts, newest first. *)
Definition reads q (shs : list FullHash) (start : option Z) (it : iter TxHistoryRow) : Prop :=
  exists ps, it = it_of (map fst ps) /\ (forall p, p ∈ ps <-> scanned q shs start p) /\
    StronglySorted row_newer (map fst ps).

Lemma scan_reverse_reads q sh start :
  query_synced q -> start_ok start -> reads q [sh] start (history_iter_scan_reverse q 72 sh start).
Proof.
  intros Hs Hst. unfold history_iter_scan_reverse.
  assert (forall p, scanned q [sh] start p -> exists sh', script_event q sh' p) as Hsc
    by (intros p (sh' & _ & Hp & _); eauto).
  pose proof (scan_suffix_sorted q sh start Hs Hst) as Hsort.
  destruct (rows_events q (rev_scan_rows (iter_scan_reverse (history_db (cq_store q))
    (history_filter 72 (as_bytes sh)) (prefix_max 72 sh start))) (scanned q [sh] start)) as (ps & Heq & Hps & Hit).
  { done. } { done. }
  { intros row. rewrite rev_scan_chain by done. unfold scanned. setoid_rewrite list_elem_of_singleton. naive_solver. }
  exists ps. split; [done|]. split; [done|]. rewrite Heq in Hsort.
  apply (suffix_sorted_newer q); [done| |done]. intros p Hp%Hps. auto.
Qed.

Lemma group_reverse_reads q shs start :
  query_synced q -> start_ok start -> reads q shs start (history_iter_scan_group_reverse q 72 shs start).
Proof.
  intros Hs Hst. unfold history_iter_scan_group_reverse, iter_scan_group_reverse.
  rewrite map_map. cbn beta iota.
  set (its := map _ shs). destruct (group_rows_merge its 33) as [Hperm Hsort].
  assert (map rev_remaining its = map (fun sh => rev_scan_rows (iter_scan_reverse (history_db (cq_store q))
    (history_filter 72 (as_bytes sh)) (prefix_max 72 sh start))) shs) as Hrem.
  { unfold its. rewrite map_map. apply map_ext. intros sh. unfold rev_remaining. by rewrite rev_scan_rows_eq. }
  rewrite Hrem in Hperm, Hsort.
  assert (forall p, scanned q shs start p -> exists sh', script_event q sh' p) as Hsc
    by (intros p (sh' & _ & Hp & _); eauto).
  destruct (rows_events q (group_rows (group_new its 33)) (scanned q shs start)) as (ps & Heq & Hps & Hit).
  { done. } { done. }
  { intros row. rewrite Hperm, elem_of_concat_map. setoid_rewrite rev_scan_chain; [|done..].
    unfold scanned. naive_solver. }
  exists ps. split; [done|]. split; [done|]. rewrite Heq in Hsort.
  apply (suffix_sorted_newer q); [done|intros p Hp%Hps; auto|]. apply Hsort, Forall_forall.
  intros l (sh & -> & _)%elem_of_map. by apply scan_suffix_sorted.
Qed.

(** ** Listings and pages *)

Abbreviation item := (Transaction * BlockId * Z)%type.
Definition item_txid (i : item) : Txid := get_txid i.1.1.
Definition item_newer (i i' : item) : Prop :=
  bid_height i'.1.2 < bid_height i.1.2 \/
  bid_height i'.1.2 = bid_height i.1.2 /\ (i'.2 <= i.2)%Z.

(** The confirmed transactions that touch some scripts, each once with its block and
    its (16-bit) position there, newest first. *)
Record listing q (shs : list FullHash) (start : option Z) (L : list item) : Prop := {
  li_unique : NoDup (item_txid <$> L);
  li_exact txid : txid ∈ item_txid <$> L <-> exists p, scanned q shs start p /\ row_get_txid p.1 = txid;
  li_block i : i ∈ L -> exists b idx, b ∈ chain_of q /\ txdata (be_block b) !! idx = Some i.1.1 /\
    i.1.2 = BlockId_from (be_entry b) /\ i.2 = as_u16 (Z.of_nat idx);
  li_newest : StronglySorted item_newer L;
}.

(** An event and its transaction. *)
Definition item_of q (p : event) (i : item) : Prop :=
  exists b idx, b ∈ chain_of q /\ txdata (be_block b) !! idx = Some i.1.1 /\
    get_txid i.1.1 = row_get_txid p.1 /\ i.1.2 = BlockId_from (be_entry b) /\ i.1.2 = p.2 /\
    i.2 = as_u16 (Z.of_nat idx) /\ i.2 = hk_tx_position p.1 /\
    Z.of_nat (bid_height i.1.2) = confirmed_height p.1.
Lemma event_item q sh p : query_synced q -> script_event q sh p -> exists i, item_of q p i.
Proof.
  intros Hs Hp. destruct (script_event_facts _ _ _ _ _ Hs Hp) as (_ & _ & Hh & _ & _).
  destruct Hp as (b & Hb & He & _ & Hp2).
  assert (exists idx tx, txdata (be_block b) !! idx = Some tx /\ get_txid tx = row_get_txid p.1 /\
    hk_tx_position p.1 = as_u16 (Z.of_nat idx)) as (idx & tx & Hidx & Hid & Hpos).
  { destruct He; eauto 6. }
  exists (tx, p.2, hk_tx_position p.1), b, idx. split_and!; done.
Qed.
Lemma item_of_facts q p i :
  query_synced q -> full_mode cfg q -> item_of q p i ->
  tx_confirming_block q (row_get_txid p.1) = Ok (Some i.1.2) /\
  (forall bh, lookup_txn q (row_get_txid p.1) bh = Ok (Some i.1.1)).
Proof.
  intros Hs Hf (b & idx & Hb & Htx%list_elem_of_lookup_2 & <- & -> & _).
  split; [by eapply tx_confirming_block_in|]. intros bh. by eapply txn_in.
Qed.

Lemma page_items q last limit (ps : list event) (L : list item) :
  query_synced q -> full_mode cfg q -> NoDup (item_txid <$> L) ->
  Forall2 (item_of q) ps L ->
  forall it, it_unique_by row_get_txid it = it_of (map fst ps) ->
  history_page q it last limit = it_of (take limit (after_key item_txid L last)).
Proof.
  intros Hs Hf Hnd HL it Hit. unfold history_page. rewrite Hit, it_skip_while_of, it_drop_of.
  assert (row_get_txid <$> map fst ps = item_txid <$> L) as Hkeys.
  { clear - HL. induction HL as [|p i ps L (b & idx & _ & _ & Hid & _) _ IH]; [done|]. cbn. by rewrite IH, <- Hid. }
  rewrite skip_past by (by rewrite Hkeys).
  assert (Forall2 (fun r i => exists p, r = p.1 /\ item_of q p i)
    (after_key row_get_txid (map fst ps) last) (after_key item_txid L last)) as HF.
  { apply after_key_Forall2; [|done]. change (map fst ps) with (fst <$> ps). apply Forall2_fmap_l.
    eapply Forall2_impl; [exact HL|]. eauto. }
  clear - HF Hs Hf RDBL BLaws WL. revert limit.
  induction HF as [|r i rs js (p & -> & Hp) _ IH]; intros limit; [by destruct limit|].
  destruct (item_of_facts q p i Hs Hf Hp) as [Hb Ht].
  assert (hk_tx_position p.1 = i.2) as Hpos by (destruct Hp as (?&?&?&?&?&?&?&?&?&?); congruence).
  unfold lookup_txns in *. cbn [it_of map it_filter_map mbind result_bind]. unfold map_opt. rewrite Hb.
  cbn [mbind result_bind]. destruct limit as [|limit]; [done|].
  cbn [option_map take it_map map mbind result_bind]. rewrite Ht. cbn [mbind result_bind ok_or].
  rewrite Hpos. unfold map_opt in IH.
  change (it_of (i :: take limit js)) with (Ok i :: it_of (take limit js)). f_equal; [by destruct i as [[??]?]|apply IH].
Qed.

(** Whatever reads the events newest first pages through one listing. *)
Lemma reads_listing q shs start it :
  query_synced q -> full_mode cfg q -> reads q shs start it ->
  exists L, listing q shs start L /\
    (forall last limit, history_page q it last limit = it_of (take limit (after_key item_txid L last))) /\
    it_unique_by id (it_map (fun row => Ok (row_get_txid row)) it) = it_of (map item_txid L).
Proof.
  intros Hs Hf (ps & -> & Hps & Hsort). set (us := unique_by (fun p : event => row_get_txid p.1) ps).
  assert (forall p, p ∈ us -> p ∈ ps) as Hsub by (intros p; apply unique_by_elem).
  destruct (Forall2_choose (item_of q) us) as [L HL].
  { apply Forall_forall. intros p Hp. apply Hsub, Hps in Hp as (sh & _ & Hp & _). by eapply event_item. }
  assert ((fun p : event => row_get_txid p.1) <$> us = item_txid <$> L) as Hkeys.
  { clear - HL. induction HL as [|p i us L (b & idx & _ & _ & Hid & _) _ IH]; [done|]. cbn. by rewrite IH, <- Hid. }
  assert (NoDup (item_txid <$> L)) as Hnd by (rewrite <- Hkeys; apply unique_by_NoDup).
  exists L. split; [split; [done|..]|split].
  - intros txid. rewrite <- Hkeys, list_elem_of_fmap. split.
    + intros (p & -> & Hp%Hsub%Hps). eauto.
    + intros (p & Hp%Hps & <-). destruct (unique_by_cover (fun p : event => row_get_txid p.1) ps p Hp) as (p' & Hp' & He).
      by exists p'.
  - intros i (k & Hk)%list_elem_of_lookup. destruct (Forall2_lookup_r _ _ _ _ _ HL Hk) as (p & _ & b & idx & ?&?&?&?&?&?&_).
    by exists b, idx.
  - rewrite (StronglySorted_map row_newer fst ps) in Hsort. apply (unique_by_sorted _ (fun p : event => row_get_txid p.1)) in Hsort.
    fold us in Hsort. clear - HL Hsort. induction HL as [|p i us L Hi HL IH]; [constructor|].
    apply StronglySorted_cons in Hsort as [Hf Hss]. constructor; [auto|]. rewrite Forall_forall in Hf. apply Forall_forall.
    intros i' (k & Hk)%list_elem_of_lookup. destruct (Forall2_lookup_r _ _ _ _ _ HL Hk) as (p' & Hp' & Hi').
    specialize (Hf p' (list_elem_of_lookup_2 _ _ _ Hp')). unfold row_newer in Hf. unfold item_newer.
    destruct Hi as (?&?&?&?&?&?&?&?&?&?), Hi' as (?&?&?&?&?&?&?&?&?&?). lia.
  - intros last limit. apply (page_items q last limit us L); try done.
    rewrite it_unique_by_of. f_equal. apply unique_by_map.
  - rewrite (it_map_of _ row_get_txid) by done. fold (it_of (map row_get_txid (map fst ps))).
    rewrite it_unique_by_of, map_map, unique_by_map. f_equal. exact Hkeys.
Qed.

(** The forward scan from height 0 reads all events, oldest first. *)
Lemma scan_forward_reads q sh :
  query_synced q ->
  exists ps : list event, history_iter_scan q 72 sh 0 = it_of (map fst ps) /\
    (forall p, p ∈ ps <-> script_event q sh p) /\
    StronglySorted (fun p p' : event => bid_height p.2 <= bid_height p'.2) ps.
Proof.
  intros Hs. assert (is_u32 (Z.of_nat 0)) as H0 by (unfold is_u32, u32_mod; lia).
  unfold history_iter_scan. set (rows := scan_rows _).
  assert (StronglySorted row_lt rows) as Hsort by apply iter_scan_from_rows, prefix_height_filter.
  destruct (rows_events q rows (script_event q sh)) as (ps & Heq & Hps & Hit); [done|eauto|..].
  { intros row. unfold rows. rewrite (history_scan_chain cfg block_of q sh 0 row Hs H0). split.
    - intros (b & r & Hb & He & Hsh & _ & ->). exists (r, BlockId_from (be_entry b)). split; [by exists b|done].
    - intros (p & (b & Hb & He & Hsh & Hp2) & ->).
      destruct (hist_event_facts _ _ _ _ (sy_sane _ _ _ Hs) Hb He) as (_ & _ & Hh & _).
      exists b, p.1. split_and!; try done. lia. }
  exists ps. split; [done|]. split; [done|]. rewrite Heq, (StronglySorted_map row_lt) in Hsort.
  assert (forall p, p ∈ ps -> script_event q sh p) as Hev by (intros p; apply Hps). clear - Hsort Hev Hs WL BLaws RDBL.
  induction Hsort as [|p ps Hss IH Hf]; constructor; [apply IH; intros; apply Hev; by right|].
  rewrite Forall_forall in *. intros p' Hp'. specialize (Hf p' Hp').
  pose proof (Hev p ltac:(by left)) as Hp. specialize (Hev p' ltac:(by right)).
  destruct (script_event_facts _ _ _ _ _ Hs Hp) as (_ & _ & Hh & Hr & Hc),
    (script_event_facts _ _ _ _ _ Hs Hev) as (_ & _ & Hh' & Hr' & Hc').
  destruct Hp as (_ & _ & _ & Hk & _), Hev as (_ & _ & _ & Hk' & _).
  destruct (decide (bid_height p'.2 < bid_height p.2)) as [Hlt|]; [|lia]. exfalso.
  assert (bytes_lt (history_key_bytes p'.1) (history_key_bytes p.1)) as Hgt.
  { apply history_key_lt; try done; [congruence..|]. left. lia. }
  apply (irreflexivity bytes_lt (history_key_bytes p.1)). unfold row_lt in Hf. cbn in Hf. by etransitivity.
Qed.

(** The confirmed history of a script is one listing: the transactions of the best
    chain that fund or spend the script (up to the start height), each once, with its
    block and position, newest first.  Every page of [history] is the slice of that
    listing after the last transaction seen, no lookup in it fails, and the ids the
    iterator yields are the ids of the listing. *)
Lemma chain_history_pages q sh start :
  query_synced q -> full_mode cfg q -> start_ok start ->
  exists L, listing q [sh] start L /\
    (forall last limit, history q sh last start limit = it_of (take limit (after_key item_txid L last))) /\
    (start = None -> history_txids_iter q sh = it_of (map item_txid L)).
Proof.
  intros Hs Hf Hst.
  destruct (reads_listing q [sh] start _ Hs Hf (scan_reverse_reads q sh start Hs Hst)) as (L & HL & Hp & Hi).
  exists L. split; [done|]. split; [done|]. by intros ->.
Qed.

(** The history of a group of scripts is the merge of their histories into one
    listing: a transaction that touches several of the scripts appears once, the order
    is newest first across the scripts, and pages are slices of the listing. *)
Lemma group_history_pages q shs start :
  query_synced q -> full_mode cfg q -> start_ok start ->
  exists L, listing q shs start L /\
    (forall last limit, history_group q shs last start limit = it_of (take limit (after_key item_txid L last))) /\
    history_txids_iter_group q shs start = it_of (map item_txid L).
Proof.
  intros Hs Hf Hst. apply (reads_listing q shs start _ Hs Hf), group_reverse_reads; done.
Qed.

(** [history_txids] lists the transactions of the best chain that touch the script
    with the blocks that confirm them, each once and oldest block first, cut off after
    [limit]. *)
Lemma history_txids_oldest_first q sh :
  query_synced q ->
  exists L : list (Txid * BlockId), NoDup L.*1 /\
    (forall txid b, (txid, b) ∈ L <-> exists p, script_event q sh p /\ row_get_txid p.1 = txid /\ p.2 = b) /\
    StronglySorted (fun i i' => bid_height i.2 <= bid_height i'.2) L /\
    forall limit, history_txids q sh limit = Ok (take limit L).
Proof.
  intros Hs. destruct (scan_forward_reads q sh Hs) as (ps & Hit & Hps & Hsort).
  set (us := unique_by (fun p : event => row_get_txid p.1) ps).
  assert (forall p, p ∈ us -> script_event q sh p) as Hsub by (intros p Hp%unique_by_elem; by apply Hps).
  exists (map (fun p : event => (row_get_txid p.1, p.2)) us). split; [|split; [|split]].
  - change (map ?f us) with (f <$> us). rewrite <- list_fmap_compose. apply unique_by_NoDup.
  - intros txid b. rewrite elem_of_map. split.
    + intros (p & [= -> ->] & Hp). eauto.
    + intros (p & Hp & <- & <-).
      destruct (unique_by_cover (fun p : event => row_get_txid p.1) ps p) as (p' & Hp' & He); [by apply Hps|].
      exists p'. split; [|done]. apply Hsub in Hp' as Hev.
      destruct (script_event_facts _ _ _ _ _ Hs Hp) as (_ & Hb & _), (script_event_facts _ _ _ _ _ Hs Hev) as (_ & Hb' & _).
      cbn in He. rewrite He in Hb'. congruence.
  - apply StronglySorted_map. by apply unique_by_sorted.
  - intros limit. unfold history_txids. rewrite Hit, (it_map_of _ row_get_txid) by done.
    fold (it_of (map row_get_txid (map fst ps))). rewrite it_unique_by_of, map_map, unique_by_map. fold us.
    change (unique_by _ ps) with us.
    rewrite <- it_collect_of, <- it_take_of. do 2 f_equal. clearbody us. clear - Hsub Hs WL BLaws RDBL.
    induction us as [|p us IH]; [done|]. cbn [map it_of it_filter_map mbind result_bind].
    destruct (script_event_facts _ _ _ _ _ Hs (Hsub p ltac:(by left))) as (_ & Hb & _).
    unfold map_opt in *. rewrite Hb. cbn [mbind result_bind option_map]. f_equal. apply IH.
    intros; apply Hsub; by right.
Qed.
End history.

(** ** Witnesses *)

(** The script of the genesis output, which block 3 spends and funds again, and the
    other script that block funds. *)
Definition ex_script : FullHash := @compute_script_hash ExampleLib [118; 1]%Z.
Definition ex_scripts : list FullHash := [ex_script; @compute_script_hash ExampleLib [118; 9]%Z].

Lemma chain_history_pages_witness :
  exists (q : ChainQuery KvMap) L,
    @listing KvMap ExampleLib ex_cfg ex_block_of q [ex_script] None L /\
    @history KvMap _ ExampleLib FixintWincode q ex_script None None 2 = it_of (take 2 L).
Proof.
  destruct ex_full_mode as (q & Hq & Hf & _).
  destruct (@chain_history_pages KvMap _ _ ExampleLib ExampleLib_laws FixintWincode FixintWincode_laws
    ex_cfg ex_block_of q ex_script None Hq Hf I) as (L & HL & Hp & _).
  exists q, L. split; [exact HL|exact (Hp None 2)].
Defined.
Lemma group_history_pages_witness :
  exists (q : ChainQuery KvMap) L,
    @listing KvMap ExampleLib ex_cfg ex_block_of q ex_scripts (Some 2%Z) L /\
    @history_txids_iter_group KvMap _ FixintWincode q ex_scripts (Some 2%Z)
      = it_of (map (@item_txid ExampleLib) L).
Proof.
  destruct ex_full_mode as (q & Hq & Hf & _).
  destruct (@group_history_pages KvMap _ _ ExampleLib ExampleLib_laws FixintWincode FixintWincode_laws
    ex_cfg ex_block_of q ex_scripts (Some 2%Z) Hq Hf ltac:(vm_decide)) as (L & HL & _ & Hi).
  exists q, L. split; [exact HL|exact Hi].
Defined.
