(* ===== verification/ScriptStats.v ===== *)
(** * Script statistics and their cache

    [stats] starts from a cached total when its block is still on the best chain
    and adds the rows above that block.  The theorems show that the cache never
    changes the answer and what the answer counts. *)

From S2P Require Import Prelude Iter RocksDB DB Bitcoin HeaderList Rows Fetch Indexer.
From S2P Require Import IndexerSync ChainQuery ChainView.

(** ** The loop as a function of the rows *)

Abbreviation EventList := (list (TxHistoryRow * BlockId)).

Fixpoint stats_fold (st : ScriptStats) (seen : gset Txid) (lb : option BlockHash)
    (rows : EventList) : ScriptStats * option BlockHash :=
  match rows with
  | [] => (st, lb)
  | (h, b) :: rows =>
      let seen := if decide (lb <> Some (bid_hash b)) then ∅ else seen in
      stats_fold (stats_row st h (bool_decide (row_get_txid h ∉ seen)))
        ({[row_get_txid h]} ∪ seen) (Some (bid_hash b)) rows
  end.
Definition stats_of (rows : EventList) : ScriptStats := (stats_fold stats_default ∅ None rows).1.

Lemma stats_loop_of rows : forall st seen lb,
  stats_loop st seen lb (it_of rows) = Ok (stats_fold st seen lb rows).
Proof.
  unfold it_of. induction rows as [|[h b] rows IH]; intros st seen lb; [done|]. cbn. apply IH.
Qed.

Lemma stats_fold_last rows : forall st seen lb,
  (stats_fold st seen lb rows).2 =
  match last rows with None => lb | Some p => Some (bid_hash p.2) end.
Proof.
  induction rows as [|[h b] rows IH]; intros st seen lb; [done|]. cbn [stats_fold].
  rewrite IH, last_cons. by destruct (last rows).
Qed.

Lemma stats_fold_fresh rows st seen lb :
  (forall p, head rows = Some p -> lb <> Some (bid_hash p.2)) ->
  (stats_fold st seen lb rows).1 = (stats_fold st ∅ None rows).1.
Proof.
  destruct rows as [|[h b] rows]; intros Hl; [done|]. cbn.
  rewrite !decide_True by first [done|by apply (Hl (h, b))]. done.
Qed.

Lemma stats_fold_app l1 l2 : forall st seen lb, exists seen',
  stats_fold st seen lb (l1 ++ l2) =
  stats_fold (stats_fold st seen lb l1).1 seen' (stats_fold st seen lb l1).2 l2.
Proof. induction l1 as [|[h b] l1 IH]; intros st seen lb; [by exists seen|]. cbn. apply IH. Qed.

(** Splitting the rows where the block changes. *)
Lemma stats_of_app l1 l2 :
  (forall p p', p ∈ l1 -> p' ∈ l2 -> bid_hash p.2 <> bid_hash p'.2) ->
  stats_of (l1 ++ l2) = (stats_fold (stats_of l1) ∅ None l2).1.
Proof.
  intros Hne. unfold stats_of at 1. destruct (stats_fold_app l1 l2 stats_default ∅ None) as [seen' ->].
  apply stats_fold_fresh. intros p' Hp'. rewrite stats_fold_last.
  destruct (last l1) as [p|] eqn:El; [|done]. intros [= He].
  apply (Hne p p'); [by apply last_Some_elem_of|by apply head_Some_elem_of|done].
Qed.

Lemma stats_row_range st h n : stats_in_range st -> stats_in_range (stats_row st h n).
Proof.
  assert (forall x, is_u64 (wrap64 x)) as Hw.
  { intros x. unfold is_u64, wrap64, u64_mod. apply Z.mod_pos_bound. lia. }
  intros (?&?&?&?&?). unfold stats_row, stats_in_range. destruct n, (txinfo h); cbn; auto 10.
Qed.
Lemma stats_fold_range rows : forall st seen lb,
  stats_in_range st -> stats_in_range (stats_fold st seen lb rows).1.
Proof.
  induction rows as [|[h b] rows IH]; intros st seen lb Hs; [done|]. cbn.
  apply IH. by apply stats_row_range.
Qed.
Lemma stats_default_range : stats_in_range stats_default.
Proof. unfold stats_in_range, is_u64, u64_mod. cbn. lia. Qed.

(** ** Rows up to a height and above it *)

Definition upto (h : nat) (rows : EventList) : EventList := filter (fun p => bid_height p.2 <= h) rows.
Definition above (h : nat) (rows : EventList) : EventList := filter (fun p => S h <= bid_height p.2) rows.

Lemma filter_split {A} (f : A -> nat) h (l : list A) :
  StronglySorted (fun x y => f x <= f y) l ->
  l = filter (fun x => f x <= h) l ++ filter (fun x => S h <= f x) l.
Proof.
  induction 1 as [|x l Hs IH Hf]; [done|]. rewrite !filter_cons.
  destruct (decide (f x <= h)) as [Hx|Hx].
  - rewrite decide_False by lia. cbn. by f_equal.
  - rewrite (decide_True _ _ (P := S h <= f x)) by lia. rewrite (filter_none (fun x => f x <= h)).
    + cbn. f_equal. rewrite filter_all; [done|]. rewrite Forall_forall in Hf. intros y Hy.
      apply Hf in Hy. lia.
    + rewrite Forall_forall in Hf. intros y Hy. apply Hf in Hy. lia.
Qed.

Section stats.
Context {D : Type} {RDB : RocksDB D} {RDBL : RocksDBLaws D}.
Context {BL : BitcoinLib} {BLaws : BitcoinLaws} {W : Wincode} {WL : WincodeLaws}.
Context (cfg : IndexerConfig) (block_of : BlockHash -> Block).
Implicit Types q : ChainQuery D.

Abbreviation synced_q := (query_synced cfg block_of).
Abbreviation view := (history_view cfg block_of).

Lemma view_event_height q sh rows p :
  synced_q q -> view q sh rows -> p ∈ rows ->
  height_by_hash q (bid_hash p.2) = Some (bid_height p.2) /\
  BlockId_from <$> (headers (cq_headers q) !! bid_height p.2) = Some p.2.
Proof.
  intros Hs Hv Hp. apply (hv_events _ _ _ _ _ Hv) in Hp as (b & Hb & _ & _ & ->).
  apply blocks_of_elem in Hb as (e & He & ->). cbn.
  pose proof He as [i Hi]%list_elem_of_lookup.
  pose proof (ck_height _ (wf_chain _ (sy_wf _ _ _ Hs)) _ _ Hi) as Hh.
  assert (headers (cq_headers q) !! he_height e = Some e) as Hlk by (by rewrite Hh).
  split; [|by rewrite Hlk]. unfold height_by_hash.
  rewrite (proj2 (header_by_blockhash_Some _ _ e (sy_wf _ _ _ Hs))); done.
Qed.

Lemma view_heights_sorted q sh rows :
  synced_q q -> view q sh rows -> StronglySorted (fun p p' => bid_height p.2 <= bid_height p'.2) rows.
Proof.
  intros Hs Hv. pose proof (hv_sorted _ _ _ _ _ Hv) as Hsort.
  assert (forall p, p ∈ rows -> script_event cfg block_of q sh p) as Hev by (intros p; apply Hv).
  clear Hv. induction Hsort as [|p l Hl IH Hf]; [constructor|].
  constructor; [apply IH; intros; apply Hev; by right|].
  rewrite Forall_forall in Hf |- *. intros p' Hp'.
  destruct (script_event_facts cfg block_of q sh p) as (_ & _ & Hh & Hr & Hc); [done|apply Hev; by left|].
  destruct (script_event_facts cfg block_of q sh p') as (_ & _ & Hh' & Hr' & Hc'); [done|apply Hev; by right|].
  destruct (Nat.le_gt_cases (bid_height p.2) (bid_height p'.2)) as [|Hgt]; [done|exfalso].
  specialize (Hf p' Hp'). apply (irreflexivity bytes_lt (history_key_bytes p.1)).
  etransitivity; [exact Hf|]. apply history_key_lt; [done..|congruence| |left; lia].
  assert (forall x, script_event cfg block_of q sh x -> hk_hash x.1 = sh) as Hsh by (intros x (?&?&?&?&?); done).
  by rewrite (Hsh p (Hev p ltac:(by left))), (Hsh p' (Hev p' ltac:(by right))).
Qed.

Lemma view_split q sh rows h :
  synced_q q -> view q sh rows -> rows = upto h rows ++ above h rows.
Proof. intros Hs Hv. apply (filter_split (fun p => bid_height p.2)). by eapply view_heights_sorted. Qed.

Lemma view_blocks_differ q sh rows h p p' :
  synced_q q -> view q sh rows -> p ∈ upto h rows -> p' ∈ above h rows -> bid_hash p.2 <> bid_hash p'.2.
Proof.
  intros Hs Hv [Hle Hp]%list_elem_of_filter [Hgt Hp']%list_elem_of_filter Heq.
  apply (view_event_height q sh rows p Hs Hv) in Hp as [Hp _].
  apply (view_event_height q sh rows p' Hs Hv) in Hp' as [Hp' _].
  rewrite Heq in Hp. assert (bid_height p.2 = bid_height p'.2) by congruence. lia.
Qed.

(** ** The cache *)

(** A stored cache entry is the total up to its block, if that block is still on
    the best chain. *)
Definition stats_cache_ok q (sh : FullHash) (rows : EventList) : Prop :=
  forall c, db_get (cache_db (cq_store q)) (stats_cache_key sh) = Some c ->
    exists st bh, de_stats c = Some (st, bh) /\
      forall h, height_by_hash q bh = Some h -> st = stats_of (upto h rows).

Definition with_cache q (c : D) : ChainQuery D :=
  mkChainQuery (set_cache (cq_store q) c) (cq_daemon q) (cq_light_mode q).

Lemma height_by_hash_bound q bh h :
  synced_q q -> (Z.of_nat (length (headers (cq_headers q))) < u32_mod)%Z ->
  height_by_hash q bh = Some h -> is_u32 (Z.of_nat (h + 1)).
Proof.
  intros Hs Hlen Hh. unfold height_by_hash in Hh.
  destruct (header_by_blockhash _ _) as [e|] eqn:E; [|done]. injection Hh as <-.
  apply (header_by_blockhash_Some _ _ _ (sy_wf _ _ _ Hs)) in E as [[i Hi]%list_elem_of_lookup _].
  rewrite (ck_height _ (wf_chain _ (sy_wf _ _ _ Hs)) _ _ Hi). apply lookup_lt_Some in Hi.
  unfold is_u32, cq_headers in *. lia.
Qed.

Lemma confirmed_rows_above q sh rows h :
  view q sh rows -> is_u32 (Z.of_nat (h + 1)) -> confirmed_rows q sh (h + 1) = it_of (above h rows).
Proof. intros Hv Hh. rewrite (hv_scan _ _ _ _ _ Hv) by done. by rewrite Nat.add_1_r. Qed.
Lemma confirmed_rows_all q sh rows :
  view q sh rows -> confirmed_rows q sh 0 = it_of rows.
Proof.
  intros Hv. rewrite (hv_scan _ _ _ _ _ Hv) by (unfold is_u32, u32_mod; lia).
  f_equal. apply filter_all. lia.
Qed.
(** What a query sees of a script is determined. *)
Lemma history_view_unique q sh rows rows' : view q sh rows -> view q sh rows' -> rows = rows'.
Proof.
  intros H1 H2. pose proof (confirmed_rows_all q sh rows H1) as E. rewrite (confirmed_rows_all q sh rows' H2) in E.
  apply (f_equal it_collect) in E. rewrite !it_collect_of in E. by injection E.
Qed.

(** The last row decides which block the rows are complete up to. *)
Lemma upto_last q sh rows p :
  synced_q q -> view q sh rows -> last rows = Some p -> upto (bid_height p.2) rows = rows.
Proof.
  intros Hs Hv Hl. apply filter_all. intros x Hx.
  pose proof (view_heights_sorted q sh rows Hs Hv) as Hsort.
  apply last_Some in Hl as [l ->]. apply StronglySorted_app in Hsort as (Hlt & _ & _).
  apply elem_of_app in Hx as [Hx|Hx%list_elem_of_singleton]; [|by subst].
  apply Hlt; [done|by left].
Qed.
Lemma last_above q sh rows h p :
  synced_q q -> view q sh rows -> last (above h rows) = Some p -> last rows = Some p.
Proof.
  intros Hs Hv Hl. rewrite (view_split q sh rows h Hs Hv), last_app, Hl. done.
Qed.

Lemma stats_cached_ok q sh rows :
  synced_q q -> stats_cache_ok q sh rows ->
  exists cache, stats_cached q sh = Ok cache /\
    forall st h, cache = Some (st, h) -> st = stats_of (upto h rows) /\ exists bh, height_by_hash q bh = Some h.
Proof.
  intros Hs Hc. unfold stats_cached. specialize (Hc).
  destruct (db_get (cache_db (cq_store q)) (stats_cache_key sh)) as [c|] eqn:E; [|by exists None].
  destruct (Hc c E) as (st & bh & -> & Hst). cbn. eexists. split; [done|]. intros st' h Heq.
  destruct (is_sane st); [|done]. destruct (height_by_hash q bh) as [h'|] eqn:Eh; [|done].
  injection Heq as <- <-. eauto.
Qed.

(** What the new cache holds. *)
Lemma stats_cache_write q sh rows p :
  synced_q q -> view q sh rows -> last rows = Some p ->
  stats_cache_ok (with_cache q (db_write (cache_db (cq_store q))
    [stats_cache_row sh (stats_of rows) (bid_hash p.2)])) sh rows.
Proof.
  intros Hs Hv Hl c Hc.
  pose proof (get_db_write_one (cache_db (cq_store q)) (stats_cache_row sh (stats_of rows) (bid_hash p.2))) as Hg.
  assert (Some (ser_stats (stats_of rows, bid_hash p.2)) = Some c) as [= <-] by (rewrite <- Hc; symmetry; exact Hg).
  exists (stats_of rows), (bid_hash p.2). split.
  - apply de_ser_stats. apply stats_fold_range, stats_default_range.
  - intros h Hh. destruct (view_event_height q sh rows p Hs Hv) as [Hh' _];
      [by apply last_Some_elem_of|].
    change (height_by_hash q (bid_hash p.2) = Some h) in Hh.
    assert (h = bid_height p.2) as -> by congruence. by rewrite (upto_last q sh rows p Hs Hv Hl).
Qed.

Lemma stats_transparent q sh rows :
  synced_q q -> view q sh rows -> stats_cache_ok q sh rows ->
  (Z.of_nat (length (headers (cq_headers q))) < u32_mod)%Z ->
  exists c', stats q sh = Ok (stats_of rows, c') /\ stats_cache_ok (with_cache q c') sh rows.
Proof.
  intros Hs Hv Hc Hlen. unfold stats. destruct (stats_cached_ok q sh rows Hs Hc) as (cache & -> & Hcache).
  cbn [mbind result_bind].
  assert (exists lb, (match cache with
       | None => stats_delta q sh stats_default 0
       | Some (oldstats, blockheight) => stats_delta q sh oldstats (blockheight + 1)
       end) = Ok (stats_of rows, lb) /\ forall bh, lb = Some bh ->
         exists p, last rows = Some p /\ bh = bid_hash p.2) as (lb & Hd & Hlb).
  { destruct cache as [[st h]|].
    - destruct (Hcache st h eq_refl) as (-> & bh & Hh). unfold stats_delta.
      rewrite (confirmed_rows_above q sh rows) by (done || by eapply height_by_hash_bound).
      rewrite stats_loop_of. eexists. split.
      + rewrite (surjective_pairing (stats_fold _ _ _ _)). do 2 f_equal.
        rewrite <- stats_of_app by (intros ? ?; by eapply view_blocks_differ).
        by rewrite <- (view_split q sh rows h Hs Hv).
      + rewrite stats_fold_last. destruct (last (above h rows)) as [p|] eqn:El; [|done].
        intros bh' [= <-]. exists p. split; [by eapply last_above|done].
    - unfold stats_delta. rewrite (confirmed_rows_all q sh rows Hv), stats_loop_of.
      eexists. split; [by rewrite (surjective_pairing (stats_fold _ _ _ _))|].
      rewrite stats_fold_last. destruct (last rows) as [p|]; [|done]. intros bh' [= <-]. eauto. }
  rewrite Hd. cbn [mbind result_bind]. eexists. split; [done|].
  destruct lb as [bh|]; [|by destruct q as [[]]]. destruct (Hlb bh eq_refl) as (p & Hl & ->).
  case_decide; [by apply stats_cache_write|by destruct q as [[]]].
Qed.
End stats.

(** ** What the numbers count *)

Definition is_funding (p : TxHistoryRow * BlockId) : bool := negb (has_vin (txinfo p.1)).
Definition values (rows : EventList) : list Z := map (fun p => info_value (txinfo p.1)) rows.
Definition txids_of (rows : EventList) : gset Txid := list_to_set (map (fun p => row_get_txid p.1) rows).

Lemma wrap64_add a b : wrap64 (wrap64 a + b) = wrap64 (a + b).
Proof. unfold wrap64. by rewrite Zplus_mod_idemp_l. Qed.

(** Rows of one transaction carry one block, and rows are ordered by block. *)
Record by_block (rows : EventList) : Prop := {
  bb_tx p p' : p ∈ rows -> p' ∈ rows -> row_get_txid p.1 = row_get_txid p'.1 -> p.2 = p'.2;
  bb_sorted : StronglySorted (fun p p' => bid_height p.2 <= bid_height p'.2) rows;
  bb_hash p p' : p ∈ rows -> p' ∈ rows -> bid_height p.2 = bid_height p'.2 <-> bid_hash p.2 = bid_hash p'.2;
}.

Definition counts (st : ScriptStats) (rows : EventList) : Prop :=
  tx_count st = wrap64 (Z.of_nat (size (txids_of rows))) /\
  funded_txo_count st = wrap64 (Z.of_nat (length (filter (fun p => is_funding p = true) rows))) /\
  spent_txo_count st = wrap64 (Z.of_nat (length (filter (fun p => is_funding p = false) rows))) /\
  funded_txo_sum st = wrap64 (sum_Z (values (filter (fun p => is_funding p = true) rows))) /\
  spent_txo_sum st = wrap64 (sum_Z (values (filter (fun p => is_funding p = false) rows))).


Lemma counts_snoc st rows p :
  counts st rows -> counts (stats_row st p.1 (bool_decide (row_get_txid p.1 ∉ txids_of rows))) (rows ++ [p]).
Proof.
  intros (H1 & H2 & H3 & H4 & H5). unfold counts.
  assert (size (txids_of (rows ++ [p])) =
    size (txids_of rows) + if bool_decide (row_get_txid p.1 ∉ txids_of rows) then 1 else 0) as Hsz.
  { unfold txids_of. rewrite map_app, list_to_set_app_L. cbn. rewrite union_empty_r_L, (comm_L (∪)).
    case_bool_decide; [rewrite size_union, size_singleton by set_solver; lia|].
    rewrite subseteq_union_1_L by set_solver. lia. }
  rewrite Hsz, !filter_app. clear Hsz.
  generalize (bool_decide (row_get_txid p.1 ∉ txids_of rows)). intros new.
  assert (filter (fun p => is_funding p = true) [p] = if is_funding p then [p] else []) as ->
    by (rewrite filter_cons; by destruct (is_funding p)).
  assert (filter (fun p => is_funding p = false) [p] = if is_funding p then [] else [p]) as ->
    by (rewrite filter_cons; by destruct (is_funding p)).
  destruct p as [[c hh ch pos [txid vin ptx pvout v|txid vout v]] bid], new; cbn -[wrap64];
    rewrite ?app_nil_r, ?length_app; unfold values; rewrite ?map_app; cbn -[wrap64];
    rewrite ?sum_Z_snoc, ?Nat.add_0_r, ?Nat2Z.inj_add, ?H1, ?H2, ?H3, ?H4, ?H5, ?wrap64_add; done.
Qed.

(** In rows ordered by block, a row of the block at hand means the last row is of
    that block too. *)
Lemma by_block_last P p rest x :
  by_block (P ++ p :: rest) -> x ∈ P -> bid_hash x.2 = bid_hash p.2 ->
  exists l, last P = Some l /\ bid_hash l.2 = bid_hash p.2.
Proof.
  intros [_ Hs Hh] Hx He. destruct (last P) as [l|] eqn:El.
  2: { apply last_None in El as ->. by apply elem_of_nil in Hx. }
  exists l. split; [done|]. pose proof (last_Some_elem_of _ _ El) as Hl.
  apply Hh; [set_solver..|]. apply StronglySorted_app in Hs as (Hlt & HsP & _).
  pose proof (Hlt l p Hl ltac:(by left)) as H1. cbn in H1.
  assert (bid_height x.2 = bid_height p.2) as Hxp by (apply Hh; [set_solver..|done]).
  assert (bid_height x.2 <= bid_height l.2) as H2; [|lia].
  apply last_Some in El as [P' ->]. apply StronglySorted_app in HsP as (HltP & _ & _).
  apply elem_of_app in Hx as [Hx|Hx%list_elem_of_singleton]; [|by subst]. apply HltP; [done|by left].
Qed.

Lemma stats_fold_counts rest : forall P st seen lb,
  by_block (P ++ rest) -> counts st P -> lb = bid_hash ∘ snd <$> last P ->
  (forall t, t ∈ seen <-> exists p, p ∈ P /\ lb = Some (bid_hash p.2) /\ row_get_txid p.1 = t) ->
  counts (stats_fold st seen lb rest).1 (P ++ rest).
Proof.
  induction rest as [|[h b] rest IH]; intros P st seen lb Hb Hc Hlb Hseen; [by rewrite app_nil_r|].
  cbn [stats_fold]. set (seen' := if decide (lb <> Some (bid_hash b)) then ∅ else seen).
  assert (forall t, t ∈ seen' <-> exists p, p ∈ P /\ bid_hash p.2 = bid_hash b /\ row_get_txid p.1 = t) as Hs'.
  { intros t. unfold seen'. case_decide as Hd.
    - split; [set_solver|]. intros (x & Hx & Hxb & _). exfalso. apply Hd.
      destruct (by_block_last P (h, b) rest x) as (l & Hl & Hlh); [done..|].
      rewrite Hlb, Hl. cbn. cbn in Hlh. congruence.
    - rewrite Hseen. split.
      + intros (x & Hx & Hxb & Ht). exists x. split; [done|]. split; [congruence|done].
      + intros (x & Hx & Hxb & Ht). exists x. split; [done|]. split; [congruence|done]. }
  assert (bool_decide (row_get_txid h ∉ seen') = bool_decide (row_get_txid h ∉ txids_of P)) as ->.
  { apply bool_decide_ext. unfold txids_of. rewrite Hs', elem_of_list_to_set, elem_of_map.
    apply not_iff_compat. split.
    - intros (x & Hx & _ & Ht). exists x. done.
    - intros (x & Ht & Hx). exists x. split; [done|]. split; [|done].
      f_equal. apply (bb_tx _ Hb x (h, b)); [set_solver..|done]. }
  rewrite cons_middle, app_assoc. apply IH.
  - by rewrite <- app_assoc.
  - apply (counts_snoc st P (h, b) Hc).
  - by rewrite last_snoc.
  - intros t. rewrite elem_of_union, elem_of_singleton, Hs'. split.
    + intros [->|(x & Hx & Hxb & Ht)]; [exists (h, b); set_solver|]. exists x.
      split; [set_solver|]. split; [congruence|done].
    + intros (x & [Hx|Hx%list_elem_of_singleton]%elem_of_app & Hxb & Ht); [|left; by subst].
      right. exists x. split; [done|]. split; [congruence|done].
Qed.

Lemma stats_of_counts rows : by_block rows -> counts (stats_of rows) rows.
Proof.
  intros Hb. apply (stats_fold_counts rows [] stats_default ∅ None Hb); [|done|set_solver].
  unfold counts. by cbn.
Qed.

(** ** Properties *)

Section properties.
Context {D : Type} {RDB : RocksDB D} {RDBL : RocksDBLaws D}.
Context {BL : BitcoinLib} {BLaws : BitcoinLaws} {W : Wincode} {WL : WincodeLaws}.
Context (cfg : IndexerConfig) (block_of : BlockHash -> Block).

Lemma view_by_block (q : ChainQuery D) sh rows :
  query_synced cfg block_of q -> history_view cfg block_of q sh rows -> by_block rows.
Proof.
  intros Hs Hv. assert (forall p, p ∈ rows -> script_event cfg block_of q sh p) as Hev by (intros p; apply Hv).
  split.
  - intros p p' Hp Hp' He. apply Hev in Hp, Hp'.
    destruct (script_event_facts _ _ _ _ _ Hs Hp) as (_ & Hc & _), (script_event_facts _ _ _ _ _ Hs Hp') as (_ & Hc' & _).
    rewrite He in Hc. congruence.
  - by eapply view_heights_sorted.
  - intros p p' Hp Hp'. destruct (view_event_height _ _ _ _ _ _ Hs Hv Hp) as [H1 H2],
      (view_event_height _ _ _ _ _ _ Hs Hv Hp') as [H1' H2']. split; intros He.
    + rewrite He in H2. congruence.
    + rewrite He in H1. congruence.
Qed.

(** C3: On a synced store, [stats] never panics, and what it returns does not
    depend on the cache: it counts the distinct transactions and the funding and
    spending events of the script in the best chain and sums their values, in
    64-bit arithmetic, whatever valid cache entry it started from.  The cache it
    leaves behind is valid again. *)
Theorem stats_counts_events (q : ChainQuery D) sh rows :
  query_synced cfg block_of q -> history_view cfg block_of q sh rows ->
  (Z.of_nat (length (headers (cq_headers q))) < u32_mod)%Z -> stats_cache_ok q sh rows ->
  exists st c', stats q sh = Ok (st, c') /\ counts st rows /\
    stats_cache_ok (with_cache q c') sh rows.
Proof.
  intros Hs Hv Hlen Hc. destruct (stats_transparent cfg block_of q sh rows Hs Hv Hc Hlen) as (c' & Hst & Hc').
  exists (stats_of rows), c'. split; [done|]. split; [|done]. by eapply stats_of_counts, view_by_block.
Qed.
End properties.

Lemma stats_counts_events_witness :
  exists (q : ChainQuery KvMap) rows st c',
    @stats KvMap _ FixintWincode q (@compute_script_hash ExampleLib [118; 1]%Z) = Ok (st, c') /\
    counts st rows.
Proof.
  destruct ex_query_exists as (q & Hq & Hhl & Hcache & _).
  destruct (@history_view_exists KvMap _ _ ExampleLib FixintWincode FixintWincode_laws ex_cfg ex_block_of q
    (@compute_script_hash ExampleLib [118; 1]%Z) Hq) as (rows & Hv).
  destruct (@stats_counts_events KvMap _ _ ExampleLib FixintWincode FixintWincode_laws ex_cfg ex_block_of
    q _ rows Hq Hv) as (st & c' & Hst & Hc & _).
  - rewrite Hhl. vm_compute. reflexivity.
  - intros c. unfold db_get. rewrite Hcache, get_empty. done.
  - exists q, rows, st, c'. done.
Defined.
