(* ===== verification/ScriptUtxo.v ===== *)
(** * The unspent outputs of a script and their cache

    [utxo] replays the history of a script, from the start or from a cached set,
    inserting funded outputs and removing spent ones.  The theorems show that the
    result is the set of unspent outputs in the best chain, that the cache does
    not change it, and when the two limits reject a script. *)

From S2P Require Import Prelude Iter RocksDB DB Bitcoin HeaderList Rows Fetch Indexer.
From S2P Require Import IndexerSync ChainQuery ChainView ScriptStats.

(** ** Replaying rows *)

Definition utxo_step (m : UtxoMap) (p : TxHistoryRow * BlockId) : UtxoMap :=
  match txinfo p.1 with
  | Funding _ _ value => <[get_funded_outpoint (txinfo p.1) := (p.2, value)]> m
  | Spending _ _ _ _ _ => delete (get_funded_outpoint (txinfo p.1)) m
  end.
Definition utxo_fold (m : UtxoMap) (rows : EventList) : UtxoMap := fold_left utxo_step rows m.
Definition last_block (rows : EventList) (lb : option BlockHash) : option BlockHash :=
  match last rows with Some p => Some (bid_hash p.2) | None => lb end.

Lemma utxo_fold_app m l1 l2 : utxo_fold m (l1 ++ l2) = utxo_fold (utxo_fold m l1) l2.
Proof. apply fold_left_app. Qed.

(** The loop succeeds exactly when no prefix has too many outputs and there are
    not too many rows; otherwise it reports which of the two it was. *)
Definition within (m : UtxoMap) (n limit : Z) (rows : EventList) : Prop :=
  (forall k, 0 < k <= length rows -> (Z.of_nat (size (utxo_fold m (take k rows))) <= limit)%Z) /\
  (rows = [] \/ (n + Z.of_nat (length rows) <= wrap64 (limit * 500))%Z).

Lemma apply_utxo_delta_spec rows : forall m lb n limit,
  (within m n limit rows ->
   apply_utxo_delta m lb n (it_of rows) limit =
     Ok (utxo_fold m rows, last_block rows lb, n + Z.of_nat (length rows))%Z) /\
  (~ within m n limit rows ->
   apply_utxo_delta m lb n (it_of rows) limit = Err (TooManyUtxos limit) \/
   apply_utxo_delta m lb n (it_of rows) limit = Err (TooManyTxs (wrap64 (limit * 500)))).
Proof.
  unfold it_of. induction rows as [|[h b] rows IH]; intros m lb n limit.
  { split; [intros _; cbn; by rewrite Z.add_0_r|]. intros Hw. exfalso. apply Hw.
    split; [cbn; lia|by left]. }
  cbn [map apply_utxo_delta mbind result_bind].
  change (match txinfo h with
    | Funding _ _ value => <[get_funded_outpoint (txinfo h) := (b, value)]> m
    | Spending _ _ _ _ _ => delete (get_funded_outpoint (txinfo h)) m end) with (utxo_step m (h, b)).
  set (m1 := utxo_step m (h, b)). destruct (decide (limit < Z.of_nat (size m1))%Z) as [Hsz|Hsz].
  { split; [|by left]. intros [Hk _]. specialize (Hk 1 ltac:(cbn; lia)).
    change (Z.of_nat (size m1) <= limit)%Z in Hk. lia. }
  destruct (decide (wrap64 (limit * 500) < n + 1)%Z) as [Htx|Htx].
  { split; [|by right]. intros [_ [|Hn]]; [done|]. cbn [length] in Hn. lia. }
  destruct (IH m1 (Some (bid_hash b)) (n + 1)%Z limit) as [Hok Herr].
  assert (within m n limit ((h, b) :: rows) <-> within m1 (n + 1) limit rows) as Hiff.
  { unfold within. split; intros [Hk Hn].
    - split; [intros k Hlt; apply (Hk (S k)); cbn; lia|]. destruct Hn as [|Hn]; [done|].
      cbn [length] in Hn. right. lia.
    - split; [|right; destruct Hn as [->|Hn]; cbn [length]; lia].
      intros [|[|k]] Hlt; [lia|change (Z.of_nat (size m1) <= limit)%Z; lia|].
      apply (Hk (S k)). cbn in Hlt. lia. }
  split; intros Hw; rewrite Hiff in Hw; [|by apply Herr].
  rewrite Hok by done. unfold last_block. rewrite last_cons. cbn [length].
  destruct (last rows); do 2 f_equal; lia.
Qed.

Lemma apply_utxo_delta_cases rows m lb n limit :
  apply_utxo_delta m lb n (it_of rows) limit =
    Ok (utxo_fold m rows, last_block rows lb, n + Z.of_nat (length rows))%Z \/
  apply_utxo_delta m lb n (it_of rows) limit = Err (TooManyUtxos limit) \/
  apply_utxo_delta m lb n (it_of rows) limit = Err (TooManyTxs (wrap64 (limit * 500))).
Proof.
  unfold it_of. revert m lb n. induction rows as [|[h b] rows IH]; intros m lb n.
  { left. cbn. by rewrite Z.add_0_r. }
  cbn [map apply_utxo_delta mbind result_bind].
  change (match txinfo h with
    | Funding _ _ value => <[get_funded_outpoint (txinfo h) := (b, value)]> m
    | Spending _ _ _ _ _ => delete (get_funded_outpoint (txinfo h)) m end) with (utxo_step m (h, b)).
  case_decide; [by right; left|]. case_decide; [by right; right|].
  destruct (IH (utxo_step m (h, b)) (Some (bid_hash b)) (n + 1)%Z) as [->|Herr]; [left|by right].
  unfold last_block. rewrite last_cons. cbn [length]. destruct (last rows); do 2 f_equal; lia.
Qed.

(** ** What replaying computes *)

Lemma StronglySorted_lookup_lt {A} (R : relation A) (l : list A) i j x y :
  StronglySorted R l -> l !! i = Some x -> l !! j = Some y -> i < j -> R x y.
Proof.
  intros Hs. revert i j. induction Hs as [|z l Hs IH Hf]; intros i j Hi Hj Hlt; [done|].
  destruct i as [|i], j as [|j]; cbn in *; try lia.
  - simplify_eq. rewrite Forall_forall in Hf. apply Hf. by eapply list_elem_of_lookup_2.
  - apply (IH i j); [done..|lia].
Qed.

(** Rows in which outputs are funded once and spent only afterwards. *)
Record utxo_rows_ok (rows : EventList) : Prop := {
  uo_fund p p' : p ∈ rows -> p' ∈ rows -> is_funding p = true -> is_funding p' = true ->
    get_funded_outpoint (txinfo p.1) = get_funded_outpoint (txinfo p'.1) -> p = p';
  uo_order i j p s : rows !! i = Some p -> rows !! j = Some s ->
    is_funding p = true -> is_funding s = false ->
    get_funded_outpoint (txinfo p.1) = get_funded_outpoint (txinfo s.1) -> i < j;
}.

(** The outputs funded by a row and spent by none. *)
Definition unspent (rows : EventList) (m : UtxoMap) : Prop :=
  forall o bid v, m !! o = Some (bid, v) <->
    (exists p, p ∈ rows /\ is_funding p = true /\ get_funded_outpoint (txinfo p.1) = o /\
       p.2 = bid /\ info_value (txinfo p.1) = v) /\
    (forall s, s ∈ rows -> is_funding s = false -> get_funded_outpoint (txinfo s.1) <> o).

Lemma utxo_rows_ok_init rows p : utxo_rows_ok (rows ++ [p]) -> utxo_rows_ok rows.
Proof.
  intros [Hf Ho]. split.
  - intros x y Hx Hy. apply Hf; set_solver.
  - intros i j x y Hx Hy. apply Ho; by apply lookup_app_l_Some.
Qed.

Lemma unspent_snoc_fund rows m p :
  utxo_rows_ok (rows ++ [p]) -> unspent rows m -> is_funding p = true ->
  unspent (rows ++ [p]) (<[get_funded_outpoint (txinfo p.1) := (p.2, info_value (txinfo p.1))]> m).
Proof.
  intros Hok Hu Hp o bid v. rewrite lookup_insert_Some, (Hu o bid v). split.
  - intros [[<- [= <- <-]]|[Hne [(x & Hx & Hxf & Hxo & Hxb & Hxv) Hs]]].
    + split; [exists p; set_solver|]. intros s [Hs|Hs%list_elem_of_singleton]%elem_of_app Hsf Heq; [|congruence].
      apply list_elem_of_lookup in Hs as [j Hj]. pose proof (lookup_lt_Some _ _ _ Hj).
      assert (length rows < j); [|lia]. apply (uo_order _ Hok (length rows) j p s); try done.
      * apply list_lookup_middle. done.
      * by apply lookup_app_l_Some.
    + split; [exists x; set_solver|]. intros s [?|?%list_elem_of_singleton]%elem_of_app; [by apply Hs|].
      subst s. congruence.
  - intros [(x & [Hx|Hx%list_elem_of_singleton]%elem_of_app & Hxf & Hxo & Hxb & Hxv) Hs].
    + destruct (decide (get_funded_outpoint (txinfo p.1) = o)) as [Heq|Hne].
      * assert (x = p) as ->; [apply (uo_fund _ Hok); [set_solver|set_solver|done|done|congruence]|].
        left. subst. done.
      * right. split; [done|]. split; [by exists x|]. intros s Hsin. apply Hs. set_solver.
    + subst. by left.
Qed.

Lemma unspent_snoc_spend rows m p :
  unspent rows m -> is_funding p = false ->
  unspent (rows ++ [p]) (delete (get_funded_outpoint (txinfo p.1)) m).
Proof.
  intros Hu Hp o bid v. rewrite lookup_delete_Some, (Hu o bid v). split.
  - intros [Hne [(x & Hx & Hx') Hs]]. split; [exists x; set_solver|].
    intros s [?|?%list_elem_of_singleton]%elem_of_app; [by apply Hs|]. by subst.
  - intros [(x & [Hx|Hx%list_elem_of_singleton]%elem_of_app & Hxf & Hx') Hs]; [|congruence].
    split; [apply Hs; set_solver|]. split; [by exists x|]. intros s Hsin. apply Hs. set_solver.
Qed.

Lemma utxo_fold_unspent rows : utxo_rows_ok rows -> unspent rows (utxo_fold ∅ rows).
Proof.
  induction rows as [|p rows IH] using rev_ind; intros Hok.
  { intros o bid v. cbn. rewrite lookup_empty. set_solver. }
  specialize (IH (utxo_rows_ok_init _ _ Hok)). rewrite utxo_fold_app. cbn. unfold utxo_step.
  destruct (is_funding p) eqn:Hf.
  - pose proof (unspent_snoc_fund rows _ p Hok IH Hf) as H. unfold is_funding in Hf.
    destruct (txinfo p.1); [done|exact H].
  - pose proof (unspent_snoc_spend rows _ p IH Hf) as H. unfold is_funding in Hf.
    destruct (txinfo p.1); [exact H|done].
Qed.

(** ** The cached form *)

Lemma list_to_map_image {K1 K2 A B} `{Countable K1, Countable K2} (g : K1 -> K2) (h : A -> B)
    (m : gmap K1 A) k :
  Inj (=) (=) g ->
  (list_to_map (map (fun p => (g p.1, h p.2)) (map_to_list m)) : gmap K2 B) !! g k = h <$> (m !! k).
Proof.
  intros Hg. destruct (m !! k) as [a|] eqn:E; cbn.
  - apply elem_of_list_to_map_1'.
    + intros b Hb. apply elem_of_map in Hb as ([k' a'] & [= Hk ->] & Hin).
      cbn in Hk. apply Hg in Hk. subst k'. apply elem_of_map_to_list in Hin. cbn in *. congruence.
    + apply elem_of_map. exists (k, a). split; [done|]. by apply elem_of_map_to_list.
  - apply not_elem_of_list_to_map_1. intros Hin%list_elem_of_fmap.
    destruct Hin as ([k2 b] & Hk & Hin). apply elem_of_map in Hin as ([k' a'] & [= -> ->] & Hin).
    cbn in Hk. apply Hg in Hk. subst k'. apply elem_of_map_to_list in Hin. congruence.
Qed.

Definition cache_key (o : OutPoint) : Txid * Z := (op_txid o, op_vout o).
#[export] Instance cache_key_inj : Inj (=) (=) cache_key.
Proof. intros [t v] [t' v'] [= -> ->]. done. Qed.
Definition cache_val (x : BlockId * Z) : Z * Z := (as_u32 (Z.of_nat (bid_height x.1)), x.2).

Lemma make_utxo_cache_lookup (m : UtxoMap) o :
  make_utxo_cache m !! cache_key o = cache_val <$> (m !! o).
Proof.
  rewrite <- (list_to_map_image cache_key cache_val m o) by apply _.
  unfold make_utxo_cache. do 2 f_equal. apply list_fmap_ext. by intros i [o' [b v]].
Qed.

Section utxos.
Context {D : Type} {RDB : RocksDB D} {RDBL : RocksDBLaws D}.
Context {BL : BitcoinLib} {BLaws : BitcoinLaws} {W : Wincode} {WL : WincodeLaws}.
Context (cfg : IndexerConfig) (block_of : BlockHash -> Block).
Implicit Types q : ChainQuery D.

Abbreviation synced_q := (query_synced cfg block_of).
Abbreviation view := (history_view cfg block_of).

(** Entries the queries put in a set: in range, of a block of the chain. *)
Definition entries_ok q (m : UtxoMap) : Prop :=
  forall o bid v, m !! o = Some (bid, v) ->
    is_u32 (op_vout o) /\ is_u64 v /\ is_u32 (Z.of_nat (bid_height bid)) /\
    BlockId_from <$> (headers (cq_headers q) !! bid_height bid) = Some bid.

Lemma cached_range q m : entries_ok q m -> cached_in_range (make_utxo_cache m).
Proof.
  intros Hm [t v] [h x] Hlk. change (t, v) with (cache_key (mkOutPoint t v)) in Hlk.
  rewrite make_utxo_cache_lookup in Hlk. destruct (m !! mkOutPoint t v) as [[b y]|] eqn:E; [|done].
  destruct (Hm _ _ _ E) as (H1 & H2 & H3 & _). cbn in Hlk. injection Hlk as <- <-.
  cbn in *. split; [done|]. split; [apply as_u32_range|done].
Qed.

Lemma from_make_utxo_cache q m :
  synced_q q -> entries_ok q m -> from_utxo_cache q (make_utxo_cache m) = Ok m.
Proof.
  intros Hs Hm. unfold from_utxo_cache.
  set (bid_at := fun h : Z => default (mkBlockId 0 null_hash 0)
    (BlockId_from <$> (headers (cq_headers q) !! Z.to_nat h))).
  assert (forall t v h x, make_utxo_cache m !! (t, v) = Some (h, x) ->
    exists b, m !! mkOutPoint t v = Some (b, x) /\ bid_at h = b /\
      blockid_by_height q (Z.to_nat h) = Ok (Some b)) as Hlk.
  { intros t v h x H. change (t, v) with (cache_key (mkOutPoint t v)) in H.
    rewrite make_utxo_cache_lookup in H. destruct (m !! mkOutPoint t v) as [[b y]|] eqn:E; [|done].
    cbn in H. injection H as <- <-. exists b. destruct (Hm _ _ _ E) as (_ & _ & H3 & H4).
    unfold bid_at, blockid_by_height. rewrite as_u32_id, !Nat2Z.id by done. rewrite H4. split; [done|]. split; [done|].
    rewrite (header_by_height_wf _ _ (sy_wf _ _ _ Hs)). cbn.
    change (headers (indexed_headers (cq_store q))) with (headers (cq_headers q)).
    destruct (headers (cq_headers q) !! _); [|done]. cbn in *. congruence. }
  rewrite (rmap_Ok _ (fun p => (mkOutPoint p.1.1 p.1.2, (bid_at p.2.1, p.2.2)))).
  2: { intros [[t v] [h x]] Hin%elem_of_map_to_list. destruct (Hlk _ _ _ _ Hin) as (b & _ & Hb & Hbid).
       rewrite Hbid. cbn. by rewrite Hb. }
  cbn [mbind result_bind]. f_equal. apply map_eq. intros o.
  destruct o as [t v]. etransitivity.
  { refine (list_to_map_image (fun k : Txid * Z => mkOutPoint k.1 k.2)
      (fun x : Z * Z => (bid_at x.1, x.2)) (make_utxo_cache m) (t, v) _).
    intros [] [] [= -> ->]. done. }
  destruct (make_utxo_cache m !! (t, v)) as [[h x]|] eqn:E; cbn.
  - destruct (Hlk _ _ _ _ E) as (b & -> & -> & _). done.
  - change (t, v) with (cache_key (mkOutPoint t v)) in E. rewrite make_utxo_cache_lookup in E.
    by destruct (m !! mkOutPoint t v).
Qed.

Lemma view_entries_ok q sh rows l :
  synced_q q -> view q sh rows -> (forall p, p ∈ l -> p ∈ rows) -> entries_ok q (utxo_fold ∅ l).
Proof.
  intros Hs Hv. induction l as [|p l IH] using rev_ind; intros Hl o bid v.
  { cbn. by rewrite lookup_empty. }
  rewrite utxo_fold_app. cbn. unfold utxo_step at 1.
  assert (p ∈ rows) as Hp by (apply Hl; set_solver).
  destruct (view_event_height _ _ _ _ _ _ Hs Hv Hp) as [_ Hb].
  apply Hv in Hp. destruct (script_event_facts _ _ _ _ _ Hs Hp) as (_ & _ & Hh & (Hr1 & _ & Hr3) & _).
  specialize (IH ltac:(set_solver)). destruct (txinfo p.1) as [|txid vout val] eqn:E.
  - rewrite lookup_delete_Some. intros [_ Hm]. by apply IH.
  - rewrite lookup_insert_Some. intros [[<- [= <- <-]]|[_ Hm]]; [|by apply IH].
    cbn in *. destruct Hr3 as [? ?]. rewrite Hh. done.
Qed.

(** Transactions spend outputs of earlier ones, and a block has at most as many
    transactions as the position field can number. *)
Record tx_ordered (chain : list BlockEntry) : Prop := {
  to_pos b idx tx : b ∈ chain -> txdata (be_block b) !! idx = Some tx -> is_u16 (Z.of_nat idx);
  to_once b idx idx' tx : b ∈ chain -> txdata (be_block b) !! idx = Some tx ->
    txdata (be_block b) !! idx' = Some tx -> idx = idx';
  to_spend b idx tx txi b' idx' tx' : b ∈ chain -> b' ∈ chain ->
    txdata (be_block b) !! idx = Some tx -> txdata (be_block b') !! idx' = Some tx' ->
    txi ∈ tx_input tx -> has_prevout txi = true -> get_txid tx' = op_txid (previous_output txi) ->
    he_height (be_entry b') < he_height (be_entry b) \/ b' = b /\ idx' < idx;
}.

Lemma fund_before_spend q sh p s :
  synced_q q -> tx_ordered (chain_of block_of q) ->
  script_event cfg block_of q sh p -> script_event cfg block_of q sh s ->
  is_funding p = true -> is_funding s = false ->
  get_funded_outpoint (txinfo p.1) = get_funded_outpoint (txinfo s.1) -> event_lt p s.
Proof.
  intros Hs Ht Hp Hsp Hpf Hsf Ho.
  destruct (script_event_facts _ _ _ _ _ Hs Hp) as (_ & _ & Hh & Hr & Hc).
  destruct (script_event_facts _ _ _ _ _ Hs Hsp) as (_ & _ & Hh' & Hr' & Hc').
  destruct Hp as (b & Hb & He & Hsh & Hbid), Hsp as (b' & Hb' & He' & Hsh' & Hbid').
  rewrite Hbid in Hh. rewrite Hbid' in Hh'. cbn in Hh, Hh'.
  apply history_key_lt; [done..|congruence|congruence|]. unfold hist_before. rewrite <- Hh, <- Hh'.
  unfold is_funding in *. destruct He as [idx tx i txo Hidx Hi _|]; [|done].
  destruct He' as [|idx' tx' j txi prev Hidx' Hj Hp Hprev]; [done|]. cbn in Ho. injection Ho as Hid _.
  destruct (to_spend _ Ht b' idx' tx' txi b idx tx) as [|[-> Hlt]];
    [done..|by eapply list_elem_of_lookup_2|done|congruence|left; lia|].
  right. split; [done|]. left. cbn.
  rewrite !as_u16_id by (by eapply (to_pos _ Ht b')). lia.
Qed.

Lemma view_utxo_rows_ok q sh rows :
  synced_q q -> tx_ordered (chain_of block_of q) -> view q sh rows -> utxo_rows_ok rows.
Proof.
  intros Hs Ht Hv. pose proof (sy_sane _ _ _ Hs) as Hsane. split.
  - intros p p' Hp Hp' Hf Hf' Ho. apply Hv in Hp as (b & Hb & He & Hsh & Hbid), Hp' as (b' & Hb' & He' & Hsh' & Hbid').
    destruct p as [r bid], p' as [r' bid']. cbn in *. subst bid bid'. unfold is_funding in *. cbn in *.
    destruct He as [idx tx i txo Hidx Hi _|]; [|done]. destruct He' as [idx' tx' i' txo' Hidx' Hi' _|]; [|done].
    cbn in Ho. injection Ho as Hid Hvo. pose proof (list_elem_of_lookup_2 _ _ _ Hidx) as Htx.
    pose proof (list_elem_of_lookup_2 _ _ _ Hidx') as Htx'.
    destruct (cs_tx _ Hsane b b' tx tx') as [<- <-]; [done..|].
    rewrite (to_once _ Ht b idx idx' tx) by done.
    rewrite !as_u32_id in Hvo by (by eapply (br_outputs _ (cs_range _ Hsane _ Hb))).
    assert (i = i') as <- by lia. by simplify_eq.
  - intros i j p s Hi Hj Hf Hf' Ho. destruct (Nat.lt_trichotomy i j) as [|[->|Hlt]]; [done| |].
    { simplify_eq. congruence. }
    exfalso. assert (event_lt p s) as H1.
    { eapply fund_before_spend; try done; apply Hv; by eapply list_elem_of_lookup_2. }
    assert (event_lt s p) as H2.
    { eapply (StronglySorted_lookup_lt event_lt rows j i); [apply Hv|done..]. }
    apply (irreflexivity bytes_lt (history_key_bytes p.1)). unfold event_lt in *. by etransitivity.
Qed.

(** ** The cache *)

Definition utxo_cache_ok q (sh : FullHash) (rows : EventList) : Prop :=
  forall c, db_get (cache_db (cq_store q)) (utxo_cache_key sh) = Some c ->
    exists cm bh, de_utxos c = Some (cm, bh) /\
      forall h, height_by_hash q bh = Some h -> cm = make_utxo_cache (utxo_fold ∅ (upto h rows)).

Lemma utxo_cached_ok q sh rows :
  synced_q q -> view q sh rows -> utxo_cache_ok q sh rows ->
  exists cache, utxo_cached q sh = Ok cache /\
    forall m h, cache = Some (m, h) -> m = utxo_fold ∅ (upto h rows) /\ exists bh, height_by_hash q bh = Some h.
Proof.
  intros Hs Hv Hc. unfold utxo_cached.
  destruct (db_get (cache_db (cq_store q)) (utxo_cache_key sh)) as [c|] eqn:E; [|by exists None].
  destruct (Hc c E) as (cm & bh & -> & Hcm). cbn.
  destruct (height_by_hash q bh) as [h|] eqn:Eh; [|by exists None].
  rewrite (Hcm h eq_refl), from_make_utxo_cache; [|done|].
  - eexists. split; [done|]. intros m' h' [= <- <-]. eauto.
  - eapply view_entries_ok; [done..|]. by intros p [_ ?]%list_elem_of_filter.
Qed.

Lemma utxo_cache_write q sh rows p :
  synced_q q -> view q sh rows -> last rows = Some p ->
  utxo_cache_ok (with_cache q (db_write (cache_db (cq_store q))
    [utxo_cache_row sh (utxo_fold ∅ rows) (bid_hash p.2)])) sh rows.
Proof.
  intros Hs Hv Hl c Hc.
  pose proof (get_db_write_one (cache_db (cq_store q)) (utxo_cache_row sh (utxo_fold ∅ rows) (bid_hash p.2))) as Hg.
  assert (Some (ser_utxos (make_utxo_cache (utxo_fold ∅ rows), bid_hash p.2)) = Some c) as [= <-]
    by (rewrite <- Hc; symmetry; exact Hg).
  eexists _, (bid_hash p.2). split.
  - apply de_ser_utxos. eapply (cached_range q), view_entries_ok; [done..|]. auto.
  - intros h Hh. destruct (view_event_height _ _ q sh rows p Hs Hv) as [Hh' _];
      [by apply last_Some_elem_of|].
    change (height_by_hash q (bid_hash p.2) = Some h) in Hh.
    assert (h = bid_height p.2) as -> by congruence. by rewrite (upto_last _ _ q sh rows p Hs Hv Hl).
Qed.

(** The limits are met by the whole history, whatever the cache holds. *)
Definition utxo_within (limit : Z) (rows : EventList) : Prop :=
  (forall k, (Z.of_nat (size (utxo_fold ∅ (take k rows))) <= limit)%Z) /\
  (Z.of_nat (length rows) <= limit * 500 < u64_mod)%Z.

Lemma utxo_within_app limit l1 l2 :
  utxo_within limit (l1 ++ l2) -> within (utxo_fold ∅ l1) 0 limit l2.
Proof.
  intros [Hk Hn]. split.
  - intros k _. rewrite <- utxo_fold_app. specialize (Hk (length l1 + k)).
    by rewrite take_app_add in Hk.
  - right. rewrite length_app in Hn. unfold wrap64. rewrite Z.mod_small by lia. lia.
Qed.

Lemma utxo_transparent q sh rows limit :
  synced_q q -> view q sh rows -> utxo_cache_ok q sh rows ->
  (Z.of_nat (length (headers (cq_headers q))) < u32_mod)%Z ->
  (utxo_within limit rows -> exists c', utxo_set q sh limit = Ok (utxo_fold ∅ rows, c')) /\
  match utxo_set q sh limit with
  | Ok (m, c') => m = utxo_fold ∅ rows /\ utxo_cache_ok (with_cache q c') sh rows
  | Err e => e = TooManyUtxos limit \/ e = TooManyTxs (wrap64 (limit * 500))
  | _ => False
  end.
Proof.
  intros Hs Hv Hc Hlen. destruct (utxo_cached_ok q sh rows Hs Hv Hc) as (cache & Hce & Hcache).
  assert (exists l1 l2, rows = l1 ++ l2 /\ (l2 = rows \/ exists h, l2 = above h rows) /\
    (match cache with
       | None => utxo_delta q sh ∅ 0 limit
       | Some (oldutxos, blockheight) => utxo_delta q sh oldutxos (blockheight + 1) limit
       end) = apply_utxo_delta (utxo_fold ∅ l1) None 0 (it_of l2) limit) as (l1 & l2 & Hsplit & Hl2 & Hd).
  { destruct cache as [[m h]|].
    - destruct (Hcache m h eq_refl) as (-> & bh & Hh). exists (upto h rows), (above h rows).
      split; [by eapply view_split|]. split; [eauto|]. unfold utxo_delta.
      by rewrite (confirmed_rows_above cfg block_of q sh rows) by (done || by eapply height_by_hash_bound).
    - exists [], rows. split; [done|]. split; [by left|]. unfold utxo_delta.
      by rewrite (confirmed_rows_all cfg block_of q sh rows Hv). }
  assert (utxo_fold (utxo_fold ∅ l1) l2 = utxo_fold ∅ rows) as Hfold by (by rewrite Hsplit, utxo_fold_app).
  unfold utxo_set. rewrite Hce. cbn [mbind result_bind]. rewrite Hd. split.
  - intros Hw. rewrite Hsplit in Hw. apply utxo_within_app in Hw.
    rewrite (proj1 (apply_utxo_delta_spec l2 (utxo_fold ∅ l1) None 0 limit) Hw).
    cbn [mbind result_bind]. rewrite Hfold. by eexists.
  - destruct (apply_utxo_delta_cases l2 (utxo_fold ∅ l1) None 0 limit) as [->|[-> | ->]]; cbn; [|by left|by right].
    rewrite Hfold. split; [done|]. unfold last_block. destruct (last l2) as [p|] eqn:El; [|by destruct q as [[]]].
    assert (last rows = Some p) as Hl.
    { destruct Hl2 as [->|[h ->]]; [done|]. by eapply last_above. }
    destruct (_ || _); [by apply utxo_cache_write|by destruct q as [[]]].
Qed.
End utxos.

(** ** Properties *)

Section properties.
Context {D : Type} {RDB : RocksDB D} {RDBL : RocksDBLaws D}.
Context {BL : BitcoinLib} {BLaws : BitcoinLaws} {W : Wincode} {WL : WincodeLaws}.
Context (cfg : IndexerConfig) (block_of : BlockHash -> Block).

Lemma utxo_set_unspent (q : ChainQuery D) sh rows limit :
  query_synced cfg block_of q -> history_view cfg block_of q sh rows ->
  tx_ordered (chain_of block_of q) ->
  (Z.of_nat (length (headers (cq_headers q))) < u32_mod)%Z -> utxo_cache_ok q sh rows ->
  (utxo_within limit rows -> is_ok (utxo_set q sh limit)) /\
  match utxo_set q sh limit with
  | Ok (m, c') => unspent rows m /\ utxo_cache_ok (with_cache q c') sh rows
  | Err e => e = TooManyUtxos limit \/ e = TooManyTxs (wrap64 (limit * 500))
  | _ => False
  end.
Proof.
  intros Hs Hv Ht Hlen Hc.
  destruct (utxo_transparent cfg block_of q sh rows limit Hs Hv Hc Hlen) as [Hok Hres]. split.
  - intros Hw. destruct (Hok Hw) as [c' ->]. by eexists.
  - destruct (utxo_set q sh limit) as [[m c']|e| |]; [|done..].
    destruct Hres as [-> Hc']. split; [|done].
    apply utxo_fold_unspent. by eapply view_utxo_rows_ok.
Qed.

(** C2: On a synced store, [utxo] answers with exactly the outputs paying to the
    script that the best chain creates and does not spend, each with its value and
    its block, whatever valid cache entry it started from; it leaves a valid cache
    behind.  It succeeds whenever the script stays within the limits, and the only
    other outcomes are the two limit errors. *)
Theorem utxo_is_unspent_set (q : ChainQuery D) sh rows limit :
  query_synced cfg block_of q -> history_view cfg block_of q sh rows ->
  tx_ordered (chain_of block_of q) ->
  (Z.of_nat (length (headers (cq_headers q))) < u32_mod)%Z -> utxo_cache_ok q sh rows ->
  (utxo_within limit rows -> is_ok (utxo_set q sh limit)) /\
  match utxo_set q sh limit with
  | Ok (m, c') => unspent rows m /\ utxo_cache_ok (with_cache q c') sh rows
  | Err e => e = TooManyUtxos limit \/ e = TooManyTxs (wrap64 (limit * 500))
  | _ => False
  end.
Proof. apply utxo_set_unspent. Qed.
End properties.

Lemma ex_tx_ordered (q : ChainQuery KvMap) :
  cq_headers q = ex_hl -> @tx_ordered ExampleLib (@chain_of KvMap ExampleLib ex_block_of q).
Proof.
  intros Hq. unfold chain_of. rewrite Hq.
  assert (forall b, b ∈ @blocks_of ExampleLib ex_block_of (headers ex_hl) ->
    b = @entry_block ExampleLib ex_block_of (mkEntry 0 (pack_hash 1) ex_genesis) \/
    b = @entry_block ExampleLib ex_block_of (mkEntry 1 (pack_hash 2) (ex_header (pack_hash 1) 2 700)) \/
    b = @entry_block ExampleLib ex_block_of (mkEntry 2 (pack_hash 3) (ex_header (pack_hash 2) 3 600))) as Hb.
  { intros b (e & [i He]%list_elem_of_lookup & ->)%blocks_of_elem.
    destruct i as [|[|[|i]]]; vm_compute in He; simplify_eq; auto. }
  split.
  - intros b idx tx [->|[->| ->]]%Hb Hi; apply lookup_lt_Some in Hi; vm_compute in Hi;
      unfold is_u16, u16_mod; lia.
  - intros b idx idx' tx [->|[->| ->]]%Hb Hi Hi';
      destruct idx as [|[|idx]], idx' as [|[|idx']]; vm_compute in Hi, Hi'; simplify_eq; done.
  - intros b idx tx txi b' idx' tx' Hbin Hbin' Hi Hi' Hin Hp Hid.
    apply Hb in Hbin as [->|[->| ->]], Hbin' as [->|[->| ->]];
      destruct idx as [|[|idx]], idx' as [|[|idx']]; vm_compute in Hi, Hi'; simplify_eq;
      apply list_elem_of_singleton in Hin; subst txi; try (vm_compute in Hp; done);
      vm_compute in Hid; try done; left; vm_compute; lia.
Qed.

Lemma utxo_is_unspent_set_witness :
  exists (q : ChainQuery KvMap) rows,
    match @utxo_set KvMap _ FixintWincode q (@compute_script_hash ExampleLib [118; 1]%Z) 100 with
    | Ok (m, c') => unspent rows m
    | Err e => e = TooManyUtxos 100 \/ e = TooManyTxs 50000
    | _ => False
    end.
Proof.
  destruct ex_query_exists as (q & Hq & Hhl & Hcache & _).
  destruct (@history_view_exists KvMap _ _ ExampleLib FixintWincode FixintWincode_laws ex_cfg ex_block_of q
    (@compute_script_hash ExampleLib [118; 1]%Z) Hq) as (rows & Hv).
  exists q, rows. destruct (@utxo_is_unspent_set KvMap _ _ ExampleLib ExampleLib_laws FixintWincode FixintWincode_laws ex_cfg
    ex_block_of q _ rows 100 Hq Hv) as [_ Hres].
  - by apply ex_tx_ordered.
  - rewrite Hhl. vm_compute. reflexivity.
  - intros c. unfold db_get. rewrite Hcache, get_empty. done.
  - destruct (utxo_set _ _ _) as [[m c']|e| |]; [by destruct Hres|exact Hres|done|done].
Defined.
