(* ===== verification/Merkle.v ===== *)
(** * [util/electrum_merkle.rs]: Merkle branches for Electrum clients

    Double SHA-256 is a parameter.  The theorem compares the loop with the protocol's
    Merkle tree, given by its nodes ([tree_node]): the loop terminates, its root is the
    top node, each hash of the branch is the node the leaf's ancestor is hashed with,
    and a client that folds the branch over its leaf gets the root. *)

From S2P Require Import Prelude Iter RocksDB DB Bitcoin HeaderList Rows Fetch Indexer.
From S2P Require Import IndexerSync ChainQuery ChainView.

Section merkle.
Context (sha256d : Bytes -> FullHash).

Definition merklize (left right : FullHash) : FullHash := sha256d (as_bytes left ++ as_bytes right).

(** [hashes.chunks(2).map(|pair| merklize(pair[0], pair[1]))] *)
Fixpoint merge_pairs (hashes : list FullHash) : result (list FullHash) :=
  match hashes with
  | [] => Ok []
  | [_] => Panic
  | a :: b :: rest => r ← merge_pairs rest; Ok (merklize a b :: r)
  end.

Definition pad_even (hashes : list FullHash) : list FullHash :=
  if Nat.even (length hashes) then hashes
  else match last hashes with Some l => hashes ++ [l] | None => hashes end.
Definition sibling (index : nat) : nat := if Nat.even index then index + 1 else index - 1.

(** The [while hashes.len() > 1] loop; a round halves the list, so its length is
    bound enough. *)
Fixpoint branch_loop (fuel : nat) (hashes : list FullHash) (index : nat) (merkle : list FullHash)
    : result (list FullHash * FullHash) :=
  match fuel with
  | 0 => Diverge
  | S fuel =>
      if decide (1 < length hashes) then
        let hashes := pad_even hashes in
        let index := sibling index in
        h ← unwrap (hashes !! index);
        hashes' ← merge_pairs hashes;
        branch_loop fuel hashes' (index / 2) (merkle ++ [h])
      else root ← unwrap (hashes !! 0); Ok (merkle, root)
  end.
Definition create_merkle_branch_and_root (hashes : list FullHash) (index : nat)
    : result (list FullHash * FullHash) :=
  branch_loop (S (length hashes)) hashes index [].

Section queries.
Context {D : Type} {RDB : RocksDB D} {W : Wincode}.
Implicit Types q : ChainQuery D.

Definition get_tx_merkle_proof q (tx_hash : Txid) (block_hash : BlockHash)
    : result (list FullHash * nat) :=
  o ← get_block_txids q block_hash;
  txids ← ok_or (Msg "missing block txids") o;
  pos ← ok_or (Msg "missing txid") (fst <$> list_find (fun txid => txid = tx_hash) txids);
  r ← create_merkle_branch_and_root txids pos;
  Ok (r.1, pos).

Definition get_header_merkle_proof q (height cp_height : nat) : result (list FullHash * FullHash) :=
  if decide (cp_height < height) then Err (Msg "cp_height < height")
  else if decide (best_height q < Z.of_nat cp_height)%Z then Err (Msg "cp_height above best block height")
  else
    os ← rmap (hash_by_height q) (seq 0 (S cp_height));
    header_hashes ← ok_or (Msg "missing block headers") (mapM id os);
    create_merkle_branch_and_root header_hashes height.

Definition get_id_from_pos q (height tx_pos : nat) (want_merkle : bool) : result (Txid * list FullHash) :=
  o ← hash_by_height q height;
  header_hash ← ok_or (Msg "missing block") o;
  ot ← get_block_txids q header_hash;
  txids ← ok_or (Msg "missing block txids") ot;
  txid ← ok_or (Msg "No tx in position") (txids !! tx_pos);
  branch ← (if want_merkle then r ← create_merkle_branch_and_root txids tx_pos; Ok r.1 else Ok []);
  Ok (txid, branch).
End queries.

(** ** What a client does with a branch *)

Fixpoint client_root (h : FullHash) (index : nat) (branch : list FullHash) : FullHash :=
  match branch with
  | [] => h
  | s :: branch =>
      client_root (sha256d (if Nat.even index then as_bytes h ++ as_bytes s else as_bytes s ++ as_bytes h))
        (index / 2) branch
  end.

(** ** The Merkle tree of the protocol

    The tree is given by its nodes and not by a procedure on lists: the row at
    [height] over [n] leaves has [ceil (n / 2 ^ height)] nodes, a leaf row is the list
    of hashes, and an inner node is the double SHA-256 of its two children, the left
    child twice when the row below ends with it (consensus [merkle.cpp], and
    [CPartialMerkleTree::CalcHash]). *)

Definition row_width (leaves : list FullHash) (height : nat) : nat :=
  (length leaves + 2 ^ height - 1) / 2 ^ height.
Fixpoint tree_node (leaves : list FullHash) (height pos : nat) : option FullHash :=
  match height with
  | 0 => leaves !! pos
  | S below =>
      left ← tree_node leaves below (2 * pos);
      right ← (if decide (2 * pos + 1 < row_width leaves below)
               then tree_node leaves below (2 * pos + 1) else Some left);
      Some (sha256d (as_bytes left ++ as_bytes right))
  end.
(** The node that is hashed with the node at [pos]. *)
Definition tree_partner (leaves : list FullHash) (height pos : nat) : option FullHash :=
  if Nat.odd pos then tree_node leaves height (pos - 1)
  else if decide (pos + 1 < row_width leaves height) then tree_node leaves height (pos + 1)
  else tree_node leaves height pos.

Lemma row_width_0 leaves : row_width leaves 0 = length leaves.
Proof. unfold row_width. rewrite Nat.pow_0_r, Nat.div_1_r. lia. Qed.
Lemma row_width_S leaves k : row_width leaves (S k) = (row_width leaves k + 1) / 2.
Proof.
  unfold row_width. rewrite Nat.pow_succ_r'. pose proof (Nat.pow_nonzero 2 k ltac:(lia)).
  rewrite <- (Nat.div_add _ 1 (2 ^ k)) by done. rewrite Nat.Div0.div_div.
  f_equal; [lia|]. apply Nat.mul_comm.
Qed.

(** One round of the loop pairs the row up, an odd end with itself. *)
Lemma merge_padded hashes : exists l, merge_pairs (pad_even hashes) = Ok l /\
  length l = (length hashes + 1) / 2 /\
  forall i, l !! i = (a ← hashes !! (2 * i); Some (merklize a (default a (hashes !! (2 * i + 1))))).
Proof.
  revert hashes. fix IH 1. intros [|a [|b rest]].
  - exists []. do 2 (split; [reflexivity|]). intros i. by rewrite !lookup_nil.
  - exists [merklize a a]. do 2 (split; [reflexivity|]). intros [|i]; [done|].
    by rewrite (lookup_ge_None_2 [a]) by (cbn; lia).
  - destruct (IH rest) as (l & Hm & Hl & Hlk).
    assert (pad_even (a :: b :: rest) = a :: b :: pad_even rest) as ->.
    { unfold pad_even. cbn [length Nat.even]. destruct rest as [|c rest]; [done|].
      destruct (Nat.even _); [done|]. rewrite !last_cons_cons. by destruct (last (c :: rest)). }
    cbn [merge_pairs]. rewrite Hm. exists (merklize a b :: l). split; [done|]. split.
    + cbn [length]. rewrite Hl. replace (S (S (length rest)) + 1) with (length rest + 1 + 1 * 2) by lia.
      rewrite Nat.div_add by done. lia.
    + intros [|i]; [done|]. replace (2 * S i) with (S (S (2 * i))) by lia. cbn [lookup list_lookup plus].
      apply Hlk.
Qed.

Lemma pad_even_partner hashes index h :
  hashes !! index = Some h ->
  pad_even hashes !! sibling index =
    (if Nat.odd index then hashes !! (index - 1)
     else if decide (index + 1 < length hashes) then hashes !! (index + 1) else Some h).
Proof.
  intros Hi. pose proof (lookup_lt_Some _ _ _ Hi) as Hlt. unfold pad_even, sibling, Nat.odd.
  destruct (Nat.even index) eqn:E; cbn [negb].
  - case_decide as Hin.
    + destruct (Nat.even (length hashes)); [done|]. destruct (last hashes); [|done].
      by apply lookup_app_l.
    + assert (length hashes = S index) as Hlen by lia. rewrite Hlen, Nat.even_succ. unfold Nat.odd.
      rewrite E. cbn [negb]. rewrite last_lookup, Hlen. cbn [pred]. rewrite Hi.
      rewrite lookup_app_r by lia. by replace (index + 1 - length hashes) with 0 by lia.
  - destruct (Nat.even (length hashes)); [done|]. destruct (last hashes); [|done].
    apply lookup_app_l. lia.
Qed.

(** The list of round [k] is row [k] of the tree. *)
Definition is_row (leaves : list FullHash) (k : nat) (row : list FullHash) : Prop :=
  length row = row_width leaves k /\ forall i, row !! i = tree_node leaves k i.

Lemma is_row_0 leaves : is_row leaves 0 leaves.
Proof. split; [by rewrite row_width_0|done]. Qed.
Lemma is_row_S leaves k row : is_row leaves k row ->
  exists row', merge_pairs (pad_even row) = Ok row' /\ length row' = (length row + 1) / 2 /\
    is_row leaves (S k) row'.
Proof.
  intros [Hl Hlk]. destruct (merge_padded row) as (row' & Hm & Hl' & Hlk'). exists row'.
  split; [done|]. split; [done|]. split; [by rewrite row_width_S, <- Hl|].
  intros i. rewrite Hlk'. cbn [tree_node]. rewrite <- !Hlk, <- Hl.
  destruct (row !! (2 * i)) as [a|] eqn:Ea; [|done]. cbn. case_decide as Hd.
  - destruct (lookup_lt_is_Some_2 row _ Hd) as [b Hb]. cbn in Hb. by rewrite Hb.
  - rewrite lookup_ge_None_2; [done|]. cbn in Hd. lia.
Qed.
Lemma partner_of_row leaves k row index h : is_row leaves k row -> row !! index = Some h ->
  pad_even row !! sibling index = tree_partner leaves k index.
Proof.
  intros [Hl Hlk] Hi. rewrite (pad_even_partner _ _ _ Hi). unfold tree_partner.
  by rewrite <- Hl, <- !Hlk, Hi.
Qed.
Lemma partner_parent row row' index h :
  row !! index = Some h -> merge_pairs (pad_even row) = Ok row' ->
  exists s, pad_even row !! sibling index = Some s /\ sibling index / 2 = index / 2 /\
    row' !! (index / 2) =
      Some (sha256d (if Nat.even index then as_bytes h ++ as_bytes s else as_bytes s ++ as_bytes h)).
Proof.
  intros Hi Hm. destruct (merge_padded row) as (l & Hm' & _ & Hlk). rewrite Hm in Hm'.
  injection Hm' as <-. rewrite (pad_even_partner _ _ _ Hi), Hlk. unfold sibling, Nat.odd.
  pose proof (lookup_lt_Some _ _ _ Hi) as Hlt.
  destruct (Nat.even index) eqn:E; cbn [negb].
  - apply Nat.even_spec in E as [k ->].
    replace ((2 * k + 1) / 2) with k by (apply (Nat.div_unique _ 2 k 1); lia).
    replace (2 * k / 2) with k by (apply (Nat.div_unique _ 2 k 0); lia). rewrite Hi. cbn [mbind option_bind].
    case_decide as Hd.
    + destruct (lookup_lt_is_Some_2 _ _ Hd) as [s Hs]. rewrite Hs. by exists s.
    + rewrite (lookup_ge_None_2 row (2 * k + 1)) by lia. by exists h.
  - assert (Nat.odd index = true) as [k ->]%Nat.odd_spec by (unfold Nat.odd; by rewrite E).
    replace (2 * k + 1 - 1) with (2 * k) by lia.
    replace ((2 * k + 1) / 2) with k by (apply (Nat.div_unique _ 2 k 1); lia).
    replace (2 * k / 2) with k by (apply (Nat.div_unique _ 2 k 0); lia).
    destruct (lookup_lt_is_Some_2 row (2 * k)) as [s Hs]; [lia|]. rewrite Hs.
    exists s. cbn [mbind option_bind]. by rewrite Hi.
Qed.

Lemma branch_loop_ok leaves fuel : forall k row index h acc,
  is_row leaves k row -> row !! index = Some h -> length row < fuel ->
  exists branch root, branch_loop fuel row index acc = Ok (acc ++ branch, root) /\
    tree_node leaves (k + length branch) 0 = Some root /\
    (forall l, l < length branch -> branch !! l = tree_partner leaves (k + l) (index / 2 ^ l)) /\
    client_root h index branch = root /\
    length row <= 2 ^ length branch < 2 * length row.
Proof.
  induction fuel as [|fuel IH]; intros k row index h acc Hrow Hi Hf; [lia|]. cbn [branch_loop].
  pose proof (lookup_lt_Some _ _ _ Hi). case_decide as Hlen.
  - destruct (is_row_S _ _ _ Hrow) as (row' & Hm & Hl' & Hrow').
    destruct (partner_parent _ _ _ _ Hi Hm) as (s & Hs & Hidx & Hlk).
    rewrite Hs. cbn [unwrap mbind result_bind]. rewrite Hm. cbn [mbind result_bind]. rewrite Hidx.
    assert (length row' < length row) by (rewrite Hl'; apply Nat.Div0.div_lt_upper_bound; lia).
    destruct (IH (S k) row' _ _ (acc ++ [s]) Hrow' Hlk) as (branch & root & Hb & Hr & Hbr & Hc & Hp & Hp');
      [lia|].
    exists (s :: branch), root. rewrite Hb. split; [by rewrite <- app_assoc|]. cbn [length].
    split; [by rewrite Nat.add_succ_r|]. split.
    { intros [|l] Hlt; cbn [lookup list_lookup].
      - rewrite Nat.add_0_r, Nat.div_1_r, <- Hs. by apply (partner_of_row _ _ _ _ h).
      - rewrite Hbr, Nat.add_succ_r by lia. by rewrite Nat.Div0.div_div, Nat.pow_succ_r'. }
    split; [done|]. rewrite Nat.pow_succ_r'.
    pose proof (Nat.div_mod_eq (length row + 1) 2). pose proof (Nat.mod_upper_bound (length row + 1) 2).
    destruct (length branch) as [|m]; [cbn in *; lia|]. rewrite Nat.pow_succ_r' in *. lia.
  - assert (index = 0) as -> by lia. rewrite Hi. cbn.
    exists [], h. rewrite app_nil_r. cbn. rewrite Nat.add_0_r. destruct Hrow as [_ Hlk].
    rewrite <- Hlk. split_and!; try done; lia.
Qed.
End merkle.

(** ** Properties *)

(** C16: For a position inside the list the construction terminates without
    panicking.  With [k] the length of the branch, [n <= 2 ^ k < 2 n] for [n] leaves;
    the returned root is the top node of the protocol's Merkle tree over the list (row
    [k], a tree given by its nodes and not by the code's rounds); the hash at level [l]
    of the branch is the node that the ancestor of the leaf in row [l] is hashed with;
    and a client that folds the branch over its leaf gets that root. *)
Theorem merkle_branch_verifies (sha256d : Bytes -> FullHash) hashes index h :
  hashes !! index = Some h ->
  exists branch root, create_merkle_branch_and_root sha256d hashes index = Ok (branch, root) /\
    length hashes <= 2 ^ length branch < 2 * length hashes /\
    tree_node sha256d hashes (length branch) 0 = Some root /\
    (forall l, l < length branch -> branch !! l = tree_partner sha256d hashes l (index / 2 ^ l)) /\
    client_root sha256d h index branch = root.
Proof.
  intros Hi. unfold create_merkle_branch_and_root.
  destruct (branch_loop_ok sha256d hashes (S (length hashes)) 0 hashes index h []
    (is_row_0 sha256d hashes) Hi ltac:(lia)) as (branch & root & Hb & Hr & Hl & Hc & Hp).
  by exists branch, root.
Qed.

Lemma merkle_branch_verifies_witness :
  exists branch root,
    create_merkle_branch_and_root (@sha256 ExampleLib) (map pack_hash [1; 2; 3; 4; 5]%Z) 4 = Ok (branch, root) /\
    5 <= 2 ^ length branch < 10 /\
    tree_node (@sha256 ExampleLib) (map pack_hash [1; 2; 3; 4; 5]%Z) (length branch) 0 = Some root /\
    (forall l, l < length branch ->
       branch !! l = tree_partner (@sha256 ExampleLib) (map pack_hash [1; 2; 3; 4; 5]%Z) l (4 / 2 ^ l)) /\
    client_root (@sha256 ExampleLib) (pack_hash 5) 4 branch = root.
Proof. exact (merkle_branch_verifies (@sha256 ExampleLib) (map pack_hash [1; 2; 3; 4; 5]%Z) 4 (pack_hash 5) eq_refl). Defined.
