(* ===== verification/Mempool.v ===== *)
(** * [new_index/mempool.rs]: the index of unconfirmed transactions

    The state is the struct of the source without its metrics.  Operations that
    take [&mut self] return the new state.  The source iterates some hash maps
    ([prevouts], [feeinfo], the set differences of [update]); the model visits them
    in the order of [map_to_list] and [elements], and no theorem depends on that
    order.  [ChainQuery] answers for confirmed outputs. *)

From stdpp Require Import pretty.
From S2P Require Import Prelude Iter RocksDB DB Bitcoin HeaderList Rows Fetch Fees.
From S2P Require Import Indexer ChainQuery.

(** The part of [Config] the mempool reads. *)
Record MempoolConfig := mkMempoolConfig {
  mc_index_unspendables : bool; mempool_recent_txs_size : nat; mempool_backlog_stats_ttl : Z }.

Record TxOverview := mkOverview { ov_txid : Txid; ov_fee : Z; ov_vsize : Z; ov_value : Z }.

(** Instants and durations are in seconds. *)
Record Mempool := mkMempool {
  txstore : gmap Txid Transaction;
  feeinfo : gmap Txid TxFeeInfo;
  mp_history : gmap FullHash (list TxHistoryInfo);
  edges : gmap OutPoint (Txid * Z);
  recent : list TxOverview;
  mp_backlog_stats : BacklogStats * Z }.

(** What bitcoind answers to the mempool's requests ([daemon.rs]). *)
Record MempoolRpc := mkMempoolRpc {
  getmempooltxids : result (gset Txid);
  gettransactions : list Txid -> result (list Transaction);
  getmempooltx : Txid -> result Transaction }.

(** A [VecDeque] as a list, front first; the loop pops once per surplus item. *)
Fixpoint pop_surplus {A} (surplus : nat) (q : list A) : list A :=
  match surplus with 0 => q | S n => pop_surplus n (take (length q - 1) q) end.
Definition push_front_capped {A} (q : list A) (cap : nat) (item : A) : list A :=
  if decide (cap = 0) then q
  else let q := item :: q in pop_surplus (length q - cap) q.

Definition hash_le (a b : FullHash) : Prop := bytes_le (as_bytes a) (as_bytes b).
#[export] Instance hash_le_dec : RelDecision hash_le.
Proof. intros a b. unfold hash_le. apply _. Defined.
(** The entries of a [BTreeMap] in key order. *)
Definition btree_iter {A} (m : gmap Txid A) : list (Txid * A) :=
  merge_sort (fun x y : Txid * A => hash_le x.1 y.1) (map_to_list m).
(** [range((start_bound, Unbounded))] *)
Definition btree_range {A} (m : gmap Txid A) (start : option Txid) : list (Txid * A) :=
  match start with
  | Some txid => filter (fun x : Txid * A => ~ hash_le x.1 txid) (btree_iter m)
  | None => btree_iter m
  end.

Section mempool.
Context {D : Type} {RDB : RocksDB D} {BL : BitcoinLib} {W : Wincode}.
Context (config : MempoolConfig).
Implicit Types (chain : ChainQuery D) (m : Mempool).

Definition mempool_new (now : Z) : Mempool :=
  mkMempool ∅ ∅ ∅ ∅ [] (backlog_default, (now - mempool_backlog_stats_ttl config)%Z).

(** ** Lookups *)

Definition lookup_txn m (txid : Txid) : option Transaction := txstore m !! txid.
Definition lookup_raw_txn m (txid : Txid) : option Bytes := serialize_tx <$> txstore m !! txid.
Definition lookup_spend m (outpoint : OutPoint) : option SpendingInput :=
  (fun '(txid, vin) => mkSpendingInput txid vin None) <$> edges m !! outpoint.
Definition has_spend m (outpoint : OutPoint) : bool := bool_decide (is_Some (edges m !! outpoint)).
Definition get_mempool_tx_fee m (txid : Txid) : option Z := fi_fee <$> feeinfo m !! txid.
Definition has_unconfirmed_parents m (txid : Txid) : bool :=
  match txstore m !! txid with
  | None => false
  | Some tx => existsb (fun txin => bool_decide (is_Some (txstore m !! op_txid (previous_output txin))))
                 (tx_input tx)
  end.

(** ** Histories of scripts *)

Definition entries_of m (scripthash : FullHash) : list TxHistoryInfo :=
  default [] (mp_history m !! scripthash).
Definition unique_txids_of (entries : list TxHistoryInfo) : list Txid :=
  unique_by id (map info_get_txid entries).
(** The rest of [_history] and [history_group] after the entries are chosen. *)
Definition history_tail m (txids : list Txid) (last_seen_txid : option Txid) (limit : nat)
    : result (list Transaction) :=
  rmap (fun txid => unwrap (txstore m !! txid))
    (take limit
      (drop (match last_seen_txid with Some _ => 1 | None => 0 end)
        (skip_while (fun txid =>
            match last_seen_txid with Some t => bool_decide (t <> txid) | None => false end) txids))).
Definition _history m (entries : list TxHistoryInfo) (last_seen_txid : option Txid) (limit : nat) :=
  history_tail m (unique_txids_of entries) last_seen_txid limit.
Definition history m (scripthash : FullHash) (last_seen_txid : option Txid) (limit : nat)
    : result (list Transaction) :=
  match mp_history m !! scripthash with
  | None => Ok []
  | Some entries => _history m entries last_seen_txid limit
  end.
Definition history_txids_iter m (scripthash : FullHash) : list Txid :=
  match mp_history m !! scripthash with None => [] | Some v => unique_txids_of v end.
Definition history_txids_iter_group m (scripthashes : list FullHash) : list Txid :=
  unique_txids_of (concat (omap (fun scripthash => mp_history m !! scripthash) scripthashes)).
Definition history_group m (scripthashes : list FullHash) (last_seen_txid : option Txid) (limit : nat)
    : result (list Transaction) :=
  history_tail m (history_txids_iter_group m scripthashes) last_seen_txid limit.
Definition history_txids m (scripthash : FullHash) (limit : nat) : list Txid :=
  match mp_history m !! scripthash with
  | None => []
  | Some entries => take limit (unique_txids_of entries)
  end.

Definition utxo m (scripthash : FullHash) : list Utxo :=
  match mp_history m !! scripthash with
  | None => []
  | Some entries =>
      filter (fun u => has_spend m (mkOutPoint (ut_txid u) (ut_vout u)) = false)
        (omap (fun entry => match entry with
           | Funding txid vout value => Some (mkUtxo txid vout None value)
           | Spending _ _ _ _ _ => None
           end) entries)
  end.

Fixpoint mp_stats_loop (stats : ScriptStats) (seen_txids : gset Txid) (entries : list TxHistoryInfo)
    : ScriptStats :=
  match entries with
  | [] => stats
  | entry :: rest =>
      let new_tx := bool_decide (info_get_txid entry ∉ seen_txids) in
      let txc := if new_tx then wrap64 (tx_count stats + 1) else tx_count stats in
      let stats :=
        match entry with
        | Funding _ _ value =>
            mkStats txc (wrap64 (funded_txo_count stats + 1)) (spent_txo_count stats)
              (wrap64 (funded_txo_sum stats + value)) (spent_txo_sum stats)
        | Spending _ _ _ _ value =>
            mkStats txc (funded_txo_count stats) (wrap64 (spent_txo_count stats + 1))
              (funded_txo_sum stats) (wrap64 (spent_txo_sum stats + value))
        end in
      mp_stats_loop stats ({[info_get_txid entry]} ∪ seen_txids) rest
  end.
Definition stats m (scripthash : FullHash) : ScriptStats :=
  match mp_history m !! scripthash with
  | None => stats_default
  | Some entries => mp_stats_loop stats_default ∅ entries
  end.

(** ** Listings *)

Definition txids m : list Txid := map fst (btree_iter (txstore m)).
Definition txids_page m (n : nat) (start : option Txid) : list Txid :=
  map fst (take n (btree_range (txstore m) start)).
Definition txs m : list Transaction := map snd (btree_iter (txstore m)).
Definition txs_page m (n : nat) (start : option Txid) : list Transaction :=
  map snd (take n (btree_range (txstore m) start)).
Definition recent_txs_overview m : list TxOverview := recent m.
Definition backlog_stats m : BacklogStats := (mp_backlog_stats m).1.
Definition unique_txids m : gset Txid := dom (txstore m).

(** ** Previous outputs *)

Definition mempool_txo (store : gmap Txid Transaction) (o : OutPoint) : option TxOut :=
  tx ← store !! op_txid o; tx_output tx !! Z.to_nat (op_vout o).
Definition lookup_txos chain (store : gmap Txid Transaction) (outpoints : gset OutPoint)
    : result (gmap OutPoint TxOut) :=
  confirmed_txos ← lookup_avail_txos chain outpoints;
  let mempool_txos : gmap OutPoint TxOut :=
    list_to_map (omap (fun o => txo ← mempool_txo store o; Some (o, txo))
      (filter (fun o => confirmed_txos !! o = None) (elements outpoints))) in
  Ok (mempool_txos ∪ confirmed_txos).
Definition lookup_txo chain m (outpoint : OutPoint) : result (option TxOut) :=
  found ← lookup_txos chain (txstore m) {[outpoint]}; Ok (found !! outpoint).
Definition get_prevouts (store : gmap Txid Transaction) (txids : list Txid) : result (gset OutPoint) :=
  txs ← rmap (fun txid => unwrap (store !! txid)) txids;
  Ok (list_to_set (concat (map tx_previous_outputs txs))).

(** ** [add] *)

(** Phase 1: every transaction is stored, the ones that are new are indexed. *)
Fixpoint store_txs (store : gmap Txid Transaction) (new_txids : list Txid) (txs : list Transaction)
    : gmap Txid Transaction * list Txid :=
  match txs with
  | [] => (store, new_txids)
  | tx :: txs =>
      let txid := get_txid tx in
      store_txs (<[txid := tx]> store)
        (match store !! txid with None => new_txids ++ [txid] | Some _ => new_txids end) txs
  end.

(** The history entries of a transaction, by script hash. *)
Definition spending_entry (txid : Txid) (tx : Transaction) (p : Z * TxOut)
    : result (FullHash * TxHistoryInfo) :=
  let '(input_index, prevout) := p in
  txi ← unwrap (tx_input tx !! Z.to_nat input_index);
  Ok (compute_script_hash (script_pubkey prevout),
      Spending txid input_index (op_txid (previous_output txi)) (op_vout (previous_output txi))
        (txo_value prevout)).
Definition funding_entries (txid : Txid) (tx : Transaction) : list (FullHash * TxHistoryInfo) :=
  map (fun '(index, txo) =>
      (compute_script_hash (script_pubkey txo),
       Funding txid (as_u32 (Z.of_nat index)) (txo_value txo)))
    (filter (fun '(_, txo) => is_spendable txo || mc_index_unspendables config = true)
      (enumerate (tx_output tx))).

(** [history.entry(scripthash).or_default().push(entry)] *)
Definition push_entry (h : gmap FullHash (list TxHistoryInfo)) (e : FullHash * TxHistoryInfo)
    : gmap FullHash (list TxHistoryInfo) :=
  <[e.1 := default [] (h !! e.1) ++ [e.2]]> h.
Definition insert_edges (txid : Txid) (tx : Transaction) (ed : gmap OutPoint (Txid * Z))
    : gmap OutPoint (Txid * Z) :=
  fold_left (fun ed '(i, txi) => <[previous_output txi := (txid, as_u32 (Z.of_nat i))]> ed)
    (enumerate (tx_input tx)) ed.

(** Phase 3 for one transaction; [false] when a parent is missing. *)
Definition index_tx (txos : gmap OutPoint TxOut) m (txid : Txid) : result (Mempool * bool) :=
  tx ← unwrap (txstore m !! txid);
  match extract_tx_prevouts tx txos with
  | Err _ => Ok (m, false)
  | Panic => Panic
  | Diverge => Diverge
  | Ok prevouts =>
      let info := TxFeeInfo_new tx prevouts in
      let overview := mkOverview txid (fi_fee info) (fi_vsize info)
        (wrap64 (sum_Z (map (fun p => txo_value p.2) (map_to_list prevouts)))) in
      spending ← rmap (spending_entry txid tx) (map_to_list prevouts);
      Ok (mkMempool (txstore m) (<[txid := info]> (feeinfo m))
            (fold_left push_entry (funding_entries txid tx ++ spending) (mp_history m))
            (insert_edges txid tx (edges m))
            (push_front_capped (recent m) (mempool_recent_txs_size config) overview)
            (mp_backlog_stats m), true)
  end.
Fixpoint index_txs (txos : gmap OutPoint TxOut) m (processed_count : nat) (txids : list Txid)
    : result (Mempool * nat) :=
  match txids with
  | [] => Ok (m, processed_count)
  | txid :: txids =>
      r ← index_tx txos m txid;
      index_txs txos r.1 (if (r.2 : bool) then S processed_count else processed_count) txids
  end.

Definition with_txstore m (store : gmap Txid Transaction) : Mempool :=
  mkMempool store (feeinfo m) (mp_history m) (edges m) (recent m) (mp_backlog_stats m).
Definition add chain m (txs : list Transaction) : result (Mempool * nat) :=
  if decide (length txs = 0) then Ok (m, 0)
  else
    let '(store, new_txids) := store_txs (txstore m) [] txs in
    prevouts ← get_prevouts store new_txids;
    txos ← lookup_txos chain store prevouts;
    index_txs txos (with_txstore m store) 0 new_txids.

(** ** [remove] *)

(** The loop over [to_remove]. *)
Fixpoint remove_txs (to_remove : list Txid) (store : gmap Txid Transaction) (fees : gmap Txid TxFeeInfo)
    : result (gmap Txid Transaction * gmap Txid TxFeeInfo) :=
  match to_remove with
  | [] => Ok (store, fees)
  | txid :: rest =>
      _ ← unwrap (store !! txid);
      remove_txs rest (delete txid store) (delete txid fees)
  end.
Definition retain_history (to_remove : gset Txid) (h : gmap FullHash (list TxHistoryInfo))
    : gmap FullHash (list TxHistoryInfo) :=
  omap (fun entries =>
      match filter (fun entry => info_get_txid entry ∉ to_remove) entries with
      | [] => None
      | entries => Some entries
      end) h.
Definition retain_edges (to_remove : gset Txid) (ed : gmap OutPoint (Txid * Z))
    : gmap OutPoint (Txid * Z) :=
  filter (fun p : OutPoint * (Txid * Z) => p.2.1 ∉ to_remove) ed.
Definition remove m (to_remove : gset Txid) : result Mempool :=
  r ← remove_txs (elements to_remove) (txstore m) (feeinfo m);
  Ok (mkMempool r.1 r.2 (retain_history to_remove (mp_history m))
        (retain_edges to_remove (edges m)) (recent m) (mp_backlog_stats m)).

(** ** [update] and [add_by_txid] *)

Definition refresh_backlog (now : Z) m : result Mempool :=
  if decide (mempool_backlog_stats_ttl config < now - (mp_backlog_stats m).2)%Z then
    stats ← backlog_new (feeinfo m);
    Ok (mkMempool (txstore m) (feeinfo m) (mp_history m) (edges m) (recent m) (stats, now))
  else Ok m.

(** What [update] changed before a failing request stays changed. *)
Definition update chain (daemon : MempoolRpc) (now : Z) : SR Mempool unit :=
  old_txids ← gets unique_txids;
  all_txids ← lift (chain_err "failed to update mempool from daemon" (getmempooltxids daemon));
  let txids_to_remove := old_txids ∖ all_txids in
  let txids_to_add := elements (all_txids ∖ old_txids) in
  _ ← transition (fun m => remove m txids_to_remove);
  txs_to_add ← lift (chain_err ("failed to get " +:+ pretty (length txids_to_add) +:+ " transactions") (gettransactions daemon txids_to_add));
  transition (fun m => r ← add chain m txs_to_add; refresh_backlog now r.1).

Definition add_by_txid chain (daemon : MempoolRpc) (txid : Txid) : SR Mempool unit := fun m =>
  match txstore m !! txid with
  | Some _ => (m, Ok tt)
  | None =>
      match getmempooltx daemon txid with
      | Ok tx =>
          match add chain m [tx] with
          | Ok (m', 0) => (m', Err (Msg "Unable to add to mempool likely due to missing parents."))
          | Ok (m', _) => (m', Ok tt)
          | Err e => (m, Err e)
          | Panic => (m, Panic)
          | Diverge => (m, Diverge)
          end
      | Err _ => (m, Ok tt)
      | Panic => (m, Panic)
      | Diverge => (m, Diverge)
      end
  end.
End mempool.
