(* ===== verification/MempoolIndex.v ===== *)
(** * The mempool index refines a map of accepted transactions

    The abstract mempool is a map from transaction ids to a transaction and the
    outputs its inputs spend.  [refines] says that the fee table and the script
    histories of [Mempool] are determined by it; [edges_exact] that the spend edges
    are.  [add] and [remove] are shown to implement inserting the transactions
    whose parents are known and deleting. *)

From S2P Require Import Prelude Iter RocksDB DB Bitcoin HeaderList Rows Fetch Fees.
From S2P Require Import Indexer ChainQuery Mempool.

Section abstract.
Context {BL : BitcoinLib} (config : MempoolConfig).
Implicit Types (m : Mempool).

Abbreviation Accepted := (gmap Txid (Transaction * gmap Z TxOut)).
Implicit Types (A : Accepted).

(** ** Specification *)

Definition spending_of (txid : Txid) (tx : Transaction) (prevouts : gmap Z TxOut)
    : list (FullHash * TxHistoryInfo) :=
  match rmap (spending_entry txid tx) (map_to_list prevouts) with Ok l => l | _ => [] end.
Definition tx_entries (txid : Txid) (p : Transaction * gmap Z TxOut) : list (FullHash * TxHistoryInfo) :=
  funding_entries config txid p.1 ++ spending_of txid p.1 p.2.
Definition at_script (sh : FullHash) (l : list (FullHash * TxHistoryInfo)) : list TxHistoryInfo :=
  map snd (filter (fun e => e.1 = sh) l).
Definition hist_of A (sh : FullHash) : list TxHistoryInfo :=
  concat (map (fun '(txid, p) => at_script sh (tx_entries txid p)) (map_to_list A)).

Definition weighty (tx : Transaction) : Prop := (4 <= tx_weight tx < u64_mod)%Z.
Record refines m A : Prop := {
  rf_keys : forall txid tx, txstore m !! txid = Some tx -> get_txid tx = txid /\ weighty tx;
  rf_stored : dom A ⊆ dom (txstore m);
  rf_accepted : forall txid p, A !! txid = Some p -> get_txid p.1 = txid /\ weighty p.1;
  rf_fees : feeinfo m = (fun p => TxFeeInfo_new p.1 p.2) <$> A;
  rf_history : forall sh, entries_of m sh ≡ₚ hist_of A sh;
  rf_nonempty : forall sh, mp_history m !! sh <> Some [];
  rf_recent : length (recent m) <= mempool_recent_txs_size config;
}.

(** The accepted transaction [txid] spends [o] with its input [vin]. *)
Definition spends A (txid : Txid) (vin : Z) (o : OutPoint) : Prop :=
  exists p j txi, A !! txid = Some p /\ tx_input p.1 !! j = Some txi /\
    previous_output txi = o /\ vin = as_u32 (Z.of_nat j).
Definition conflict_free A : Prop := forall o t v t' v',
  spends A t v o -> spends A t' v' o -> t = t' /\ v = v'.
Definition edges_exact m A : Prop := forall o t v,
  edges m !! o = Some (t, v) <-> spends A t v o.

(** ** Histories *)

Lemma at_script_app sh l1 l2 : at_script sh (l1 ++ l2) = at_script sh l1 ++ at_script sh l2.
Proof. unfold at_script. by rewrite filter_app, map_app. Qed.
Lemma hist_of_insert A txid p sh :
  A !! txid = None -> hist_of (<[txid := p]> A) sh ≡ₚ at_script sh (tx_entries txid p) ++ hist_of A sh.
Proof.
  intros Hn. unfold hist_of.
  assert (map_to_list (<[txid := p]> A) ≡ₚ (txid, p) :: map_to_list A) as Hp by by apply map_to_list_insert.
  apply (Permutation_map (fun '(txid, p) => at_script sh (tx_entries txid p))) in Hp.
  by rewrite Hp.
Qed.
Lemma tx_entries_txid txid p e : e ∈ tx_entries txid p -> info_get_txid e.2 = txid.
Proof.
  unfold tx_entries, funding_entries, spending_of. rewrite elem_of_app, elem_of_map.
  intros [([i txo] & -> & _)|He]; [done|].
  destruct (rmap _ _) as [l| | |] eqn:E; [|by apply elem_of_nil in He..].
  rewrite rmap_Ok_Forall2 in E. apply list_elem_of_lookup in He as [i Hi].
  destruct (Forall2_lookup_r _ _ _ _ _ E Hi) as ([j txo] & _ & Hs).
  unfold spending_entry in Hs. rsimp. done.
Qed.
Lemma at_script_txid sh txid p e : e ∈ at_script sh (tx_entries txid p) -> info_get_txid e = txid.
Proof.
  unfold at_script. rewrite elem_of_map. intros (x & -> & [_ Hx]%list_elem_of_filter).
  by apply tx_entries_txid in Hx.
Qed.

(** Deleting transactions deletes their entries. *)
Lemma hist_of_delete A (S : gset Txid) sh :
  hist_of (filter (fun p => p.1 ∉ S) A) sh ≡ₚ filter (fun e => info_get_txid e ∉ S) (hist_of A sh).
Proof.
  induction A as [|txid p A Hn IH] using map_ind.
  - unfold hist_of. rewrite map_filter_empty, map_to_list_empty. done.
  - rewrite hist_of_insert by done. rewrite filter_app, <- IH.
    destruct (decide (txid ∈ S)) as [Hs|Hs].
    + rewrite map_filter_insert_False by (cbn; tauto). rewrite map_filter_delete.
      rewrite (filter_none _ (at_script _ _)); [|by intros e ->%at_script_txid; tauto].
      rewrite delete_id; [done|]. rewrite map_lookup_filter_None. by left.
    + rewrite map_filter_insert_True by done. rewrite hist_of_insert.
      * rewrite (filter_all _ (at_script _ _)); [done|]. by intros e ->%at_script_txid.
      * rewrite map_lookup_filter_None. by left.
Qed.

Lemma push_entries_lookup l : forall h sh,
  default [] (fold_left push_entry l h !! sh) = default [] (h !! sh) ++ at_script sh l.
Proof.
  induction l as [|e l IH]; intros h sh; cbn [fold_left]; [by rewrite app_nil_r|].
  rewrite IH. unfold push_entry, at_script. rewrite filter_cons.
  destruct (decide (e.1 = sh)) as [<-|Hne].
  - rewrite lookup_insert_eq. cbn [from_option id map]. by rewrite <- app_assoc.
  - by rewrite lookup_insert_ne.
Qed.
Lemma push_entries_nonempty l : forall h,
  (forall sh, h !! sh <> Some []) -> forall sh, fold_left push_entry l h !! sh <> Some [].
Proof.
  induction l as [|e l IH]; intros h Hh; [done|]. cbn [fold_left]. apply IH. intros sh.
  unfold push_entry. destruct (decide (e.1 = sh)) as [<-|Hne].
  - rewrite lookup_insert_eq. intros [= Hx]. by destruct (default [] (h !! e.1)).
  - by rewrite lookup_insert_ne.
Qed.
Lemma retain_history_lookup S h sh :
  default [] (retain_history S h !! sh) = filter (fun e => info_get_txid e ∉ S) (default [] (h !! sh)).
Proof.
  unfold retain_history. rewrite lookup_omap. destruct (h !! sh) as [l|]; [|done].
  cbn [from_option id mbind option_bind]. by destruct (filter _ l) eqn:E.
Qed.
Lemma retain_history_nonempty S h sh : retain_history S h !! sh <> Some [].
Proof.
  unfold retain_history. rewrite lookup_omap. destruct (h !! sh) as [l|]; [|done].
  cbn [mbind option_bind]. by destruct (filter _ l) eqn:E.
Qed.

(** ** Edges *)

Lemma insert_edges_lookup txid tx ed o :
  (exists j txi, tx_input tx !! j = Some txi /\ previous_output txi = o /\
     insert_edges txid tx ed !! o = Some (txid, as_u32 (Z.of_nat j))) \/
  ((forall j txi, tx_input tx !! j = Some txi -> previous_output txi <> o) /\
     insert_edges txid tx ed !! o = ed !! o).
Proof.
  unfold insert_edges.
  assert (forall l, (exists j txi, (j, txi) ∈ l /\ previous_output txi = o /\
      fold_left (fun ed '(i, txi) => <[previous_output txi := (txid, as_u32 (Z.of_nat i))]> ed) l ed !! o
        = Some (txid, as_u32 (Z.of_nat j))) \/
    ((forall j txi, (j, txi) ∈ l -> previous_output txi <> o) /\
      fold_left (fun ed '(i, txi) => <[previous_output txi := (txid, as_u32 (Z.of_nat i))]> ed) l ed !! o
        = ed !! o)) as Hl.
  { induction l as [|[j txi] l IH] using rev_ind; [right; split; [by intros ?? ?%elem_of_nil|done]|].
    rewrite fold_left_app. cbn [fold_left].
    destruct (decide (previous_output txi = o)) as [Heq|Hne].
    - left. exists j, txi. rewrite elem_of_app, list_elem_of_singleton. split; [by right|].
      split; [done|]. rewrite Heq. apply lookup_insert_eq.
    - rewrite lookup_insert_ne by done. destruct IH as [(j' & txi' & Hin & Hp & He)|[Hno He]].
      + left. exists j', txi'. rewrite elem_of_app. split; [by left|done].
      + right. split; [|done]. intros j' txi' [?|[= -> ->]%list_elem_of_singleton]%elem_of_app; eauto. }
  destruct (Hl (enumerate (tx_input tx))) as [(j & txi & Hin & H)|[Hno H]].
  - left. exists j, txi. by apply enumerate_elem in Hin.
  - right. split; [|done]. intros j txi Hj. apply (Hno j). by apply enumerate_elem.
Qed.

Lemma spends_mono A A' t v o : A ⊆ A' -> spends A t v o -> spends A' t v o.
Proof.
  intros Hs (p & j & txi & Hp & H). exists p, j, txi. split; [|done]. by eapply lookup_weaken.
Qed.
Lemma conflict_free_mono A A' : A ⊆ A' -> conflict_free A' -> conflict_free A.
Proof. intros Hs Hc o t v t' v' H1 H2. by eapply Hc; eapply spends_mono. Qed.
Lemma spends_insert A txid p t v o :
  A !! txid = None ->
  spends (<[txid := p]> A) t v o <->
    (t = txid /\ exists j txi, tx_input p.1 !! j = Some txi /\ previous_output txi = o /\
       v = as_u32 (Z.of_nat j)) \/ spends A t v o.
Proof.
  intros Hn. unfold spends. split.
  - intros (p' & j & txi & Hp & H). destruct (decide (t = txid)) as [->|Hne].
    + rewrite lookup_insert_eq in Hp. injection Hp as <-. left. split; [done|]. by exists j, txi.
    + rewrite lookup_insert_ne in Hp by done. right. by exists p', j, txi.
  - intros [[-> (j & txi & H)]|(p' & j & txi & Hp & H)].
    + exists p, j, txi. by rewrite lookup_insert_eq.
    + exists p', j, txi. split; [|done]. rewrite lookup_insert_ne; [done|]. congruence.
Qed.

(** The edges stay exact when the accepted transactions do not conflict. *)
Lemma edges_exact_insert m m' A txid p :
  A !! txid = None -> edges m' = insert_edges txid p.1 (edges m) ->
  conflict_free (<[txid := p]> A) -> edges_exact m A -> edges_exact m' (<[txid := p]> A).
Proof.
  intros Hn He Hc Hx o t v. rewrite He.
  destruct (insert_edges_lookup txid p.1 (edges m) o) as [(j & txi & Hj & Ho & ->)|[Hno ->]].
  - assert (spends (<[txid := p]> A) txid (as_u32 (Z.of_nat j)) o) as Hs.
    { apply spends_insert; [done|]. left. split; [done|]. by exists j, txi. }
    split; [by intros [= <- <-]|]. intros Ht. by destruct (Hc _ _ _ _ _ Hs Ht) as [-> ->].
  - rewrite spends_insert by done. rewrite (Hx o t v). split; [by right|].
    intros [[-> (j & txi & Hj & Ho & _)]|?]; [by destruct (Hno j txi)|done].
Qed.
Lemma edges_exact_retain m m' A (S : gset Txid) :
  edges m' = retain_edges S (edges m) -> edges_exact m A ->
  edges_exact m' (filter (fun p => p.1 ∉ S) A).
Proof.
  intros He Hx o t v. rewrite He. unfold retain_edges. rewrite map_lookup_filter_Some, (Hx o t v).
  cbn. unfold spends. setoid_rewrite map_lookup_filter_Some. naive_solver.
Qed.

(** ** Previous outputs *)

Definition resolve_prevouts (R : OutPoint -> option TxOut) (tx : Transaction) : option (gmap Z TxOut) :=
  pairs ← mapM (fun '(i, txi) => txo ← R (previous_output txi); Some (as_u32 (Z.of_nat i), txo))
    (filter (fun '(_, txi) => has_prevout txi = true) (enumerate (tx_input tx)));
  Some (fold_left (fun acc '(i, o) => <[i := o]> acc) pairs (∅ : gmap Z TxOut)).

Lemma extract_resolve R tx txos :
  (forall o, o ∈ tx_previous_outputs tx -> txos !! o = R o) ->
  extract_tx_prevouts tx txos =
    match resolve_prevouts R tx with Some pv => Ok pv | None => Err (Msg "missing outpoint") end.
Proof.
  intros Hr. unfold extract_tx_prevouts, resolve_prevouts.
  assert (forall j txi, (j, txi) ∈ filter (fun '(_, txi) => has_prevout txi = true) (enumerate (tx_input tx)) ->
    txos !! previous_output txi = R (previous_output txi)) as Hl.
  { intros j txi [Hp Hj]%list_elem_of_filter. apply Hr. unfold tx_previous_outputs. apply elem_of_map.
    exists txi. split; [done|]. apply list_elem_of_filter. split; [done|].
    apply enumerate_elem in Hj. by eapply list_elem_of_lookup_2. }
  revert Hl. generalize (filter (fun '(_, txi) => has_prevout txi = true) (enumerate (tx_input tx))).
  intros l Hl.
  assert (rmap (fun '(index, txi) => match txos !! previous_output txi with
      | Some txo => Ok (as_u32 (Z.of_nat index), txo) | None => Err (Msg "missing outpoint") end) l =
    match mapM (fun '(i, txi) => txo ← R (previous_output txi); Some (as_u32 (Z.of_nat i), txo)) l with
    | Some pairs => Ok pairs | None => Err (Msg "missing outpoint") end) as ->.
  { induction l as [|[j txi] l IH]; [done|]. cbn. rewrite (Hl j txi) by (by left).
    destruct (R (previous_output txi)); [|done]. cbn.
    rewrite IH by (intros; eapply Hl; by right). by destruct (mapM _ l). }
  by destruct (mapM _ l).
Qed.

Lemma fold_insert_lookup {V} (l : list (Z * V)) : forall (acc : gmap Z V) i v,
  fold_left (fun acc '(i, o) => <[i := o]> acc) l acc !! i = Some v ->
  (i, v) ∈ l \/ acc !! i = Some v.
Proof.
  induction l as [|[j w] l IH]; intros acc i v H; [by right|]. cbn in H.
  apply IH in H as [H|H]; [left; by right|].
  destruct (decide (i = j)) as [->|Hne].
  - rewrite lookup_insert_eq in H. injection H as ->. left. by left.
  - rewrite lookup_insert_ne in H by done. by right.
Qed.
Lemma resolve_input R tx pv i txo :
  resolve_prevouts R tx = Some pv -> pv !! i = Some txo ->
  exists j txi, i = as_u32 (Z.of_nat j) /\ tx_input tx !! j = Some txi /\ has_prevout txi = true /\
    R (previous_output txi) = Some txo.
Proof.
  unfold resolve_prevouts. destruct (mapM _ _) as [pairs|] eqn:E; [|done].
  cbn. intros [= <-] Hi. apply fold_insert_lookup in Hi as [Hi|Hi]; [|by rewrite lookup_empty in Hi].
  apply mapM_Some_1 in E. apply list_elem_of_lookup in Hi as [k Hk].
  destruct (Forall2_lookup_r _ _ _ _ _ E Hk) as ([j txi] & Hj & Hx).
  apply list_elem_of_lookup_2, list_elem_of_filter in Hj as [Hp Hj]. apply enumerate_elem in Hj.
  destruct (R (previous_output txi)) eqn:ER; [|done]. injection Hx as <- <-. eauto 10.
Qed.
Lemma spending_of_ok R tx txid pv :
  resolve_prevouts R tx = Some pv ->
  rmap (spending_entry txid tx) (map_to_list pv) = Ok (spending_of txid tx pv).
Proof.
  intros Hr. unfold spending_of.
  destruct (rmap_total (spending_entry txid tx) (map_to_list pv)) as [l ->]; [|done].
  intros [i txo] Hi%elem_of_map_to_list.
  destruct (resolve_input R tx pv i txo Hr Hi) as (j & txi & -> & Hj & _).
  apply lookup_lt_Some in Hj.
  destruct (lookup_lt_is_Some_2 (tx_input tx) (Z.to_nat (as_u32 (Z.of_nat j)))) as [txi' Hi'].
  { pose proof (Z.mod_le (Z.of_nat j) u32_mod ltac:(lia) ltac:(done)).
    pose proof (as_u32_range (Z.of_nat j)) as [? _]. unfold as_u32 in *. lia. }
  unfold spending_entry. rewrite Hi'. by eexists.
Qed.

(** ** Indexing *)

Lemma pop_surplus_length {T : Type} n (q : list T) : n <= length q -> length (pop_surplus n q) = length q - n.
Proof.
  revert q. induction n as [|n IH]; intros q Hn; cbn; [lia|].
  rewrite IH; rewrite length_take; lia.
Qed.
Lemma push_front_capped_length {T : Type} (q : list T) cap x :
  length q <= cap -> length (push_front_capped q cap x) <= cap.
Proof.
  intros Hq. unfold push_front_capped. case_decide; [lia|].
  rewrite pop_surplus_length; cbn [length]; lia.
Qed.

Definition accept (R : OutPoint -> option TxOut) (store : gmap Txid Transaction) A (txid : Txid) : Accepted :=
  match (tx ← store !! txid; pv ← resolve_prevouts R tx; Some (tx, pv)) with
  | Some p => <[txid := p]> A
  | None => A
  end.

(** What indexing leaves alone, and what it keeps exact. *)
Record indexed_to m A m' A' : Prop := {
  it_refines : refines m' A';
  it_store : txstore m' = txstore m;
  it_backlog : mp_backlog_stats m' = mp_backlog_stats m;
  it_edges : conflict_free A' -> edges_exact m A -> edges_exact m' A';
  it_extends : A ⊆ A';
}.
Lemma indexed_to_refl m A : refines m A -> indexed_to m A m A.
Proof. by split. Qed.
Lemma indexed_to_trans m1 A1 m2 A2 m3 A3 :
  indexed_to m1 A1 m2 A2 -> indexed_to m2 A2 m3 A3 -> indexed_to m1 A1 m3 A3.
Proof.
  intros [R1 S1 B1 E1 X1] [R2 S2 B2 E2 X2]. split; [done|congruence|congruence| |by transitivity A2].
  intros Hc He. apply E2; [done|]. apply E1; [|done]. by eapply conflict_free_mono.
Qed.

Lemma index_tx_refines R txos m A txid tx :
  refines m A -> A !! txid = None -> txstore m !! txid = Some tx ->
  (forall o, o ∈ tx_previous_outputs tx -> txos !! o = R o) ->
  exists m', index_tx config txos m txid = Ok (m', bool_decide (is_Some (resolve_prevouts R tx))) /\
    indexed_to m A m' (accept R (txstore m) A txid).
Proof.
  intros Hr Hn Htx Ho. unfold index_tx, accept. rewrite Htx. cbn [unwrap mbind result_bind option_bind].
  rewrite (extract_resolve R tx txos Ho). destruct (resolve_prevouts R tx) as [pv|] eqn:Epv.
  2: { exists m. split; [done|]. by apply indexed_to_refl. }
  cbn [mbind option_bind]. rewrite (spending_of_ok R tx txid pv Epv). cbn [mbind result_bind].
  eexists. split; [done|]. destruct Hr as [K S A0 F H N Rc]. destruct (K txid tx Htx) as [Hid Hw]. split.
  - split; cbn [txstore feeinfo mp_history recent].
    + done.
    + rewrite dom_insert_L. assert (txid ∈ dom (txstore m)) by (by eapply elem_of_dom_2). set_solver.
    + intros t p. rewrite lookup_insert_Some. intros [[<- <-]|[_ Hp]]; [done|by apply A0].
    + by rewrite F, fmap_insert.
    + intros sh. unfold entries_of. cbn [mp_history]. rewrite push_entries_lookup, hist_of_insert by done.
      rewrite <- (H sh). apply Permutation_app_comm.
    + by apply push_entries_nonempty.
    + by apply push_front_capped_length.
  - done.
  - done.
  - intros Hc He. by apply (edges_exact_insert m).
  - by apply insert_subseteq.
Qed.

Lemma accept_other R store A txid t : t <> txid -> accept R store A txid !! t = A !! t.
Proof. intros Hne. unfold accept. destruct (_ ≫= _); [|done]. by apply lookup_insert_ne. Qed.
Lemma accept_size R store A txid tx :
  A !! txid = None -> store !! txid = Some tx ->
  size (accept R store A txid) =
    (if bool_decide (is_Some (resolve_prevouts R tx)) then S (size A) else size A).
Proof.
  intros Hn Htx. unfold accept. rewrite Htx. cbn [mbind option_bind].
  destruct (resolve_prevouts R tx); [|done]. cbn [mbind option_bind]. by apply map_size_insert_None.
Qed.

Lemma index_txs_refines R txos txids : forall m A n,
  refines m A -> NoDup txids -> (forall t, t ∈ txids -> A !! t = None) ->
  (forall t, t ∈ txids -> exists tx, txstore m !! t = Some tx /\
     forall o, o ∈ tx_previous_outputs tx -> txos !! o = R o) ->
  let A' := fold_left (accept R (txstore m)) txids A in
  exists m' n', index_txs config txos m n txids = Ok (m', n') /\
    indexed_to m A m' A' /\ n' + size A = n + size A'.
Proof.
  induction txids as [|txid txids IH]; intros m A n Hr Hnd Hn Hs A'.
  - exists m, n. split; [done|]. split; [by apply indexed_to_refl|done].
  - apply NoDup_cons in Hnd as [Hnin Hnd].
    destruct (Hs txid) as (tx & Htx & Ho); [by left|].
    destruct (index_tx_refines R txos m A txid tx Hr) as (m1 & E1 & I1); [apply Hn; by left|done..|].
    cbn [index_txs]. rewrite E1. cbn [mbind result_bind fst snd].
    pose proof (it_store _ _ _ _ I1) as Hst.
    edestruct (IH m1 (accept R (txstore m) A txid)) as (m2 & n2 & E2 & I2 & Hn2).
    + apply I1.
    + done.
    + intros t Ht. rewrite accept_other; [apply Hn; by right|]. set_solver.
    + intros t Ht. rewrite Hst. apply Hs. by right.
    + rewrite Hst in *. exists m2, n2. split; [exact E2|]. split; [by eapply indexed_to_trans|].
      rewrite (accept_size R (txstore m) A txid tx) in Hn2; [|apply Hn; by left|done].
      unfold A'. cbn [fold_left]. destruct (bool_decide _); lia.
Qed.

Lemma accept_fold_lookup R store txids : forall A t,
  NoDup txids -> fold_left (accept R store) txids A !! t =
    if decide (t ∈ txids)
    then match (tx ← store !! t; pv ← resolve_prevouts R tx; Some (tx, pv)) with
         | Some p => Some p | None => A !! t end
    else A !! t.
Proof.
  induction txids as [|txid txids IH]; intros A t Hnd; cbn [fold_left].
  - by rewrite decide_False by apply not_elem_of_nil.
  - apply NoDup_cons in Hnd as [Hnin Hnd]. rewrite IH by done.
    destruct (decide (t = txid)) as [->|Hne].
    + rewrite decide_False by done. rewrite decide_True by (by left). unfold accept.
      destruct (_ ≫= _); [apply lookup_insert_eq|done].
    + rewrite accept_other by done. destruct (decide (t ∈ txids)).
      * by rewrite decide_True by (by right).
      * rewrite decide_False; [done|]. set_solver.
Qed.

(** ** Storing *)

Definition store_all (store : gmap Txid Transaction) (txs : list Transaction) : gmap Txid Transaction :=
  fold_left (fun s tx => <[get_txid tx := tx]> s) txs store.
Lemma store_all_dom txs : forall store, dom (store_all store txs) = dom store ∪ list_to_set (map get_txid txs).
Proof.
  induction txs as [|tx txs IH]; intros store; cbn; [set_solver|].
  change (dom (store_all (<[get_txid tx := tx]> store) txs) =
    dom store ∪ ({[get_txid tx]} ∪ list_to_set (map get_txid txs))).
  rewrite IH, dom_insert_L. set_solver.
Qed.
Lemma store_all_elem txs : forall store t tx,
  store_all store txs !! t = Some tx -> (tx ∈ txs /\ get_txid tx = t) \/ store !! t = Some tx.
Proof.
  induction txs as [|x txs IH]; intros store t tx H; [by right|]. cbn in H.
  apply IH in H as [[H1 H2]|H]; [left; split; [by right|done]|].
  apply lookup_insert_Some in H as [[<- <-]|[_ H]]; [left; split; [by left|done]|by right].
Qed.
Lemma store_txs_spec txs : forall store new, NoDup new -> (forall t, t ∈ new -> is_Some (store !! t)) ->
  exists new', store_txs store new txs = (store_all store txs, new') /\ NoDup new' /\
    forall t, t ∈ new' <-> t ∈ new \/ (store !! t = None /\ t ∈ map get_txid txs).
Proof.
  induction txs as [|tx txs IH]; intros store new Hnd Hin.
  - exists new. split; [done|]. split; [done|]. cbn. set_solver.
  - cbn [store_txs]. set (id := get_txid tx).
    destruct (IH (<[id := tx]> store)
      (match store !! id with None => new ++ [id] | Some _ => new end)) as (new' & E & Hnd' & Hs).
    + destruct (store !! id) eqn:Eid; [done|]. apply NoDup_app. split; [done|]. split; [|apply NoDup_singleton].
      intros t Ht ->%list_elem_of_singleton. destruct (Hin _ Ht). congruence.
    + intros t Ht. destruct (decide (t = id)) as [->|Hne]; [by rewrite lookup_insert_eq|].
      rewrite lookup_insert_ne by done. apply Hin. destruct (store !! id); [done|].
      apply elem_of_app in Ht as [Ht|Ht%list_elem_of_singleton]; done.
    + exists new'. split; [exact E|]. split; [done|]. intros t. rewrite Hs. cbn [map].
      rewrite elem_of_cons. fold id. destruct (decide (t = id)) as [->|Hne].
      * rewrite lookup_insert_eq. destruct (store !! id) eqn:Eid.
        -- naive_solver.
        -- rewrite elem_of_app, list_elem_of_singleton. naive_solver.
      * rewrite lookup_insert_ne by done. destruct (store !! id).
        -- naive_solver.
        -- rewrite elem_of_app, list_elem_of_singleton. naive_solver.
Qed.

(** ** [add] *)

Section chain.
Context {D : Type} {RDB : RocksDB D} {W : Wincode}.
Context (chain : ChainQuery D) (avail : OutPoint -> option TxOut).

(** The confirmed outputs as the chain's database reports them. *)
Definition chain_outputs : Prop :=
  forall o, Indexer.lookup_txo (txstore_db (cq_store chain)) o = Ok (avail o).
(** An output is looked up on the chain first and among the stored transactions next. *)
Definition resolve (store : gmap Txid Transaction) (o : OutPoint) : option TxOut :=
  match avail o with Some txo => Some txo | None => mempool_txo store o end.

Lemma mp_lookup_txos_ok store outs :
  chain_outputs -> exists txos, lookup_txos chain store outs = Ok txos /\
    forall o, o ∈ outs -> txos !! o = resolve store o.
Proof.
  intros Hc. unfold lookup_txos, lookup_avail_txos, Indexer.lookup_txos.
  rewrite (rmap_Ok _ (fun o => txo ← avail o; Some (o, txo))).
  2: { intros o _. rewrite Hc. cbn. by destruct (avail o). }
  cbn [mbind result_bind]. eexists. split; [done|]. intros o Ho. unfold resolve.
  assert (omap id (map (fun o => txo ← avail o; Some (o, txo)) (elements outs)) =
    omap (fun o => txo ← avail o; Some (o, txo)) (elements outs)) as ->.
  { induction (elements outs) as [|x l IH]; [done|]. cbn. destruct (avail x); cbn; by rewrite IH. }
  set (conf := list_to_map (omap _ (elements outs))).
  assert (conf !! o = avail o) as Hconf.
  { unfold conf. rewrite list_to_map_omap_lookup. rewrite decide_True; [done|by apply elem_of_elements]. }
  rewrite lookup_union, list_to_map_omap_lookup, Hconf.
  destruct (avail o) as [txo|] eqn:Ea.
  - rewrite decide_False; [done|]. rewrite list_elem_of_filter. intros [? _]. congruence.
  - rewrite decide_True; [by destruct (mempool_txo store o)|].
    by rewrite list_elem_of_filter, elem_of_elements.
Qed.
Lemma get_prevouts_ok store ids :
  (forall t, t ∈ ids -> is_Some (store !! t)) ->
  exists outs, get_prevouts store ids = Ok outs /\
    forall t tx o, t ∈ ids -> store !! t = Some tx -> o ∈ tx_previous_outputs tx -> o ∈ outs.
Proof.
  intros Hs. unfold get_prevouts.
  destruct (rmap_total (fun txid => unwrap (store !! txid)) ids) as [l Hl].
  { intros t [tx Ht]%Hs. rewrite Ht. by exists tx. }
  rewrite Hl. cbn [mbind result_bind]. eexists. split; [done|]. intros t tx o Ht Htx Ho.
  rewrite elem_of_list_to_set, (rmap_concat_elem _ _ _ _ _ Hl). exists t, tx. by rewrite Htx.
Qed.

Definition accepted_by_add m A (m' : Mempool) (A' : Accepted) : Prop := forall t,
  A' !! t = match txstore m !! t with
            | Some _ => A !! t
            | None => tx ← txstore m' !! t; pv ← resolve_prevouts (resolve (txstore m')) tx; Some (tx, pv)
            end.

Lemma with_txstore_refines m A txs :
  refines m A -> Forall weighty txs -> refines (with_txstore m (store_all (txstore m) txs)) A.
Proof.
  intros [K S A0 F H N Rc] Hw. split; cbn; try done.
  - intros t tx [[Hin Hid]|Ht]%store_all_elem; [|by apply K]. split; [done|].
    rewrite Forall_forall in Hw. by apply Hw.
  - rewrite store_all_dom. set_solver.
Qed.

Lemma add_refines m A txs :
  chain_outputs -> refines m A -> Forall weighty txs ->
  exists m' n A', add config chain m txs = Ok (m', n) /\ refines m' A' /\ n + size A = size A' /\
    txstore m' = store_all (txstore m) txs /\ mp_backlog_stats m' = mp_backlog_stats m /\
    accepted_by_add m A m' A' /\
    (conflict_free A' -> edges_exact m A -> edges_exact m' A').
Proof.
  intros Hc Hr Hw. unfold add. case_decide as Hl.
  { destruct txs; [|done]. exists m, 0, A. split_and!; try done. intros t.
    destruct (txstore m !! t) eqn:E; [done|]. cbn. apply not_elem_of_dom. intros Ht.
    apply (rf_stored _ _ Hr), elem_of_dom in Ht as [? ?]. congruence. }
  destruct (store_txs_spec txs (txstore m) []) as (new & Est & Hnd & Hnew);
    [constructor|by intros t ?%elem_of_nil|].
  rewrite Est. set (store := store_all (txstore m) txs).
  assert (forall t, t ∈ new -> is_Some (store !! t)) as Hin.
  { intros t [?%elem_of_nil|[_ Ht]]%Hnew; [done|]. apply elem_of_dom. unfold store.
    rewrite store_all_dom, elem_of_union, elem_of_list_to_set. by right. }
  destruct (get_prevouts_ok store new Hin) as (outs & Eg & Hout).
  rewrite Eg. cbn [mbind result_bind].
  destruct (mp_lookup_txos_ok store outs Hc) as (txos & El & Htxos). rewrite El. cbn [mbind result_bind].
  assert (forall t, t ∈ new -> A !! t = None) as HA.
  { intros t [?%elem_of_nil|[Ht _]]%Hnew; [done|]. apply not_elem_of_dom. intros Hd.
    apply (rf_stored _ _ Hr), elem_of_dom in Hd as [? ?]. congruence. }
  destruct (index_txs_refines (resolve store) txos new (with_txstore m store) A 0)
    as (m' & n' & Ei & [I1 I2 I3 I4 I5] & Hsz).
  { by apply with_txstore_refines. }
  { done. }
  { done. }
  { intros t Ht. cbn. destruct (Hin t Ht) as [tx Htx]. exists tx. split; [done|].
    intros o Ho. apply Htxos. by eapply Hout. }
  cbn [txstore with_txstore] in *.
  exists m', n', (fold_left (accept (resolve store) store) new A). split_and!; auto.
  intros t. rewrite I2. fold store. rewrite accept_fold_lookup by done. case_decide as Hd.
  - rewrite HA by done. apply Hnew in Hd as [?%elem_of_nil|[-> _]]; [done|].
    by destruct (_ ≫= _).
  - destruct (txstore m !! t) eqn:Et; [done|].
    assert (store !! t = None) as ->.
    { apply not_elem_of_dom. unfold store. rewrite store_all_dom, elem_of_union, elem_of_list_to_set.
      intros [Hx|Hx]; [by apply not_elem_of_dom in Hx|]. apply Hd, Hnew. by right. }
    cbn. apply not_elem_of_dom. intros Hx. apply (rf_stored _ _ Hr), elem_of_dom in Hx as [? ?]. congruence.
Qed.
End chain.
End abstract.
