(* ===== verification/MempoolUpdate.v ===== *)
(** * [Mempool::remove], [update] and [add_by_txid] against the abstract mempool

    [update] releases the lock between its phases, so other threads may add
    transactions in between: [mp_step] is the step relation of that program, and the
    invariant of its reachable states shows that no phase panics. *)

From S2P Require Import Prelude Iter RocksDB DB Bitcoin HeaderList Rows Fetch Fees.
From S2P Require Import Indexer ChainQuery Mempool MempoolIndex.

Section update.
Context {BL : BitcoinLib} (config : MempoolConfig).
Implicit Types (m : Mempool).
Abbreviation Accepted := (gmap Txid (Transaction * gmap Z TxOut)).
Implicit Types (A : Accepted) (S : gset Txid).

(** ** [remove] *)

Definition without {V : Type} (S : gset Txid) (M : gmap Txid V) : gmap Txid V :=
  filter (fun p : Txid * V => p.1 ∉ S) M.
Lemma without_lookup {V : Type} S (M : gmap Txid V) t :
  without S M !! t = if decide (t ∈ S) then None else M !! t.
Proof.
  unfold without. case_decide as Ht.
  - apply map_lookup_filter_None. right. by intros x _ ?.
  - rewrite map_lookup_filter. destruct (M !! t); [|done]. cbn. by rewrite option_guard_True.
Qed.
Lemma without_delete {V : Type} S (M : gmap Txid V) t : without ({[t]} ∪ S) M = without S (delete t M).
Proof.
  apply map_eq. intros u. rewrite !without_lookup.
  destruct (decide (u = t)) as [->|Hne].
  - rewrite lookup_delete_eq, decide_True by set_solver. by case_decide.
  - rewrite lookup_delete_ne by done. repeat case_decide; done || set_solver.
Qed.
Lemma without_empty {V : Type} (M : gmap Txid V) : without ∅ M = M.
Proof. apply map_eq. intros t. rewrite without_lookup. by rewrite decide_False by set_solver. Qed.

Lemma dom_without {V : Type} (all : gset Txid) (M : gmap Txid V) :
  dom (without (dom M ∖ all) M) = dom M ∩ all.
Proof.
  apply set_eq. intros t. rewrite elem_of_dom, without_lookup, elem_of_intersection.
  case_decide as Hd; rewrite elem_of_difference in Hd.
  - split; [by intros [? ?]|tauto].
  - rewrite <- elem_of_dom. destruct (decide (t ∈ all)); tauto.
Qed.
Lemma dom_refill (dom0 all : gset Txid) : (dom0 ∩ all) ∪ (all ∖ dom0) = all.
Proof. apply set_eq. intros t. destruct (decide (t ∈ dom0)); set_solver. Qed.

Lemma remove_txs_ok l : forall store fees, NoDup l -> (forall t, t ∈ l -> is_Some (store !! t)) ->
  remove_txs l store fees = Ok (without (list_to_set l) store, without (list_to_set l) fees).
Proof.
  induction l as [|t l IH]; intros store fees Hnd Hin.
  - cbn. by rewrite !without_empty.
  - apply NoDup_cons in Hnd as [Hnin Hnd]. destruct (Hin t) as [tx Htx]; [by left|].
    cbn [remove_txs]. rewrite Htx. cbn [unwrap mbind result_bind list_to_set].
    rewrite !without_delete. apply IH; [done|]. intros u Hu. rewrite lookup_delete_ne by set_solver.
    apply Hin. by right.
Qed.
Lemma remove_txs_panic l : forall store fees t, t ∈ l -> store !! t = None ->
  remove_txs l store fees = Panic.
Proof.
  induction l as [|u l IH]; intros store fees t Ht Hn; [by apply elem_of_nil in Ht|].
  cbn [remove_txs]. destruct (store !! u) as [tx|] eqn:E; [|done]. cbn [unwrap mbind result_bind].
  apply elem_of_cons in Ht as [->|Ht]; [congruence|]. apply (IH _ _ t); [done|].
  rewrite lookup_delete_ne; [done|]. congruence.
Qed.

Lemma remove_refines m A S :
  refines config m A -> S ⊆ dom (txstore m) ->
  exists m', remove m S = Ok m' /\ refines config m' (without S A) /\
    txstore m' = without S (txstore m) /\ mp_backlog_stats m' = mp_backlog_stats m /\
    (edges_exact m A -> edges_exact m' (without S A)).
Proof.
  intros [K St A0 F H N Rc] HS. unfold remove.
  rewrite (remove_txs_ok (elements S)), list_to_set_elements_L.
  2: apply NoDup_elements.
  2: { intros t Ht%elem_of_elements. by apply elem_of_dom, HS. }
  cbn [mbind result_bind fst snd]. eexists. split; [done|]. split; [|split; [done|split; [done|]]].
  - split; cbn [txstore feeinfo mp_history recent].
    + intros t tx. rewrite without_lookup. case_decide; [done|]. apply K.
    + intros t [p Hp]%elem_of_dom. rewrite without_lookup in Hp. apply elem_of_dom.
      rewrite without_lookup. case_decide; [done|]. apply elem_of_dom, St. by eapply elem_of_dom_2.
    + intros t p. rewrite without_lookup. case_decide; [done|]. apply A0.
    + rewrite F. apply map_eq. intros t. rewrite without_lookup, !lookup_fmap, without_lookup.
      by case_decide.
    + intros sh. unfold entries_of. cbn [mp_history]. rewrite retain_history_lookup.
      unfold without. rewrite (hist_of_delete config A S sh). by rewrite <- (H sh).
    + apply retain_history_nonempty.
    + done.
  - intros He. by apply (edges_exact_retain m).
Qed.
Lemma remove_panics m S : ~ S ⊆ dom (txstore m) -> remove m S = Panic.
Proof.
  intros Hn. unfold remove.
  destruct (decide (set_Forall (fun t => t ∈ dom (txstore m)) S)) as [Hf|Hf]; [by destruct Hn|].
  apply not_set_Forall_Exists in Hf as (t & Ht & Hx); [|apply _]. cbn in Hx.
  rewrite (remove_txs_panic _ _ _ t); [done|by apply elem_of_elements|by apply not_elem_of_dom].
Qed.

(** ** The backlog statistics *)

Lemma backlog_new_ok m A : refines config m A -> is_ok (backlog_new (feeinfo m)).
Proof.
  intros Hr. unfold backlog_new. destruct (fold_left _ _ _) as [[c v] f].
  unfold make_fee_histogram.
  destruct (sort_entries_desc (map snd (map_to_list (feeinfo m)))) as (sorted & -> & _); [|by eexists].
  rewrite Forall_forall. intros e ([t e'] & -> & Hx)%elem_of_map. apply elem_of_map_to_list in Hx. cbn.
  rewrite (rf_fees _ _ _ Hr), lookup_fmap in Hx. destruct (A !! t) as [p|] eqn:E; [|done].
  injection Hx as <-. split; [|apply as_u32_range].
  apply new_rate_ok, (rf_accepted _ _ _ Hr t p E).
Qed.
Lemma refresh_backlog_ok now m A :
  refines config m A -> exists m', refresh_backlog config now m = Ok m' /\ refines config m' A /\
    txstore m' = txstore m /\ edges m' = edges m /\
    (~ (mempool_backlog_stats_ttl config < now - (mp_backlog_stats m').2)%Z \/
       (mempool_backlog_stats_ttl config < 0)%Z) /\
    (mp_backlog_stats m' = mp_backlog_stats m \/ backlog_new (feeinfo m') = Ok (backlog_stats m')).
Proof.
  intros Hr. unfold refresh_backlog. case_decide.
  - destruct (backlog_new_ok m A Hr) as [st Hst]. rewrite Hst. cbn [mbind result_bind]. eexists.
    split; [done|]. cbn. split; [by destruct Hr|]. split_and!; try done; [|by right]. lia.
  - exists m. split_and!; try done; by left.
Qed.

(** ** [update] *)

Section with_chain.
Context {D : Type} {RDB : RocksDB D} {W : Wincode}.
Context (chain : ChainQuery D) (avail : OutPoint -> option TxOut).

(** The accepted transactions after an update to the set [all]. *)
Definition accepted_by_update m A (all : gset Txid) (m' : Mempool) (A' : Accepted) : Prop := forall t,
  A' !! t =
    if decide (t ∈ all) then
      if decide (t ∈ dom (txstore m)) then A !! t
      else tx ← txstore m' !! t; pv ← resolve_prevouts (resolve avail (txstore m')) tx; Some (tx, pv)
    else None.

Lemma update_stored daemon now m A all txs :
  chain_outputs chain avail -> refines config m A ->
  getmempooltxids daemon = Ok all ->
  gettransactions daemon (elements (all ∖ dom (txstore m))) = Ok txs ->
  Forall weighty txs -> list_to_set (map get_txid txs) = all ∖ dom (txstore m) ->
  exists m' A', update config chain daemon now m = (m', Ok tt) /\ refines config m' A' /\
    dom (txstore m') = all /\ accepted_by_update m A all m' A' /\
    (conflict_free A' -> edges_exact m A -> edges_exact m' A') /\
    (forall t tx, txstore m' !! t = Some tx -> txstore m !! t = Some tx \/ tx ∈ txs).
Proof.
  intros Hc Hr Hall Hget Hw Hids.
  destruct (remove_refines m A (dom (txstore m) ∖ all) Hr) as (m1 & E1 & R1 & S1 & _ & X1); [set_solver|].
  destruct (add_refines config chain avail m1 (without (dom (txstore m) ∖ all) A) txs Hc R1 Hw)
    as (m2 & n & A2 & E2 & R2 & _ & S2 & _ & Acc & X2).
  destruct (refresh_backlog_ok now m2 A2 R2) as (m3 & E3 & R3 & S3 & Ed3 & _).
  assert (dom (txstore m2) = all) as D2.
  { by rewrite S2, store_all_dom, S1, dom_without, Hids, dom_refill. }
  exists m3, A2. split.
  { unfold update, gets, lift, transition, mbind, SR_bind, unique_txids. rewrite Hall. cbn [chain_err]. rewrite E1, Hget. cbn [chain_err]. rewrite E2.
    cbn [result_bind mbind fst]. unfold mbind, result_bind. by rewrite E3. }
  split; [done|]. split; [by rewrite S3|]. split_and!.
  - intros t. rewrite S3, Acc, S1, !without_lookup.
    assert (t ∉ all -> txstore m2 !! t = None) as Hn by (rewrite <- D2; apply not_elem_of_dom).
    pose proof (not_elem_of_dom (txstore m) t) as Hd. pose proof (elem_of_difference (dom (txstore m)) all t).
    destruct (decide (t ∈ dom (txstore m))) as [Hin|Hin], (decide (t ∈ all)) as [Ha|Ha].
    + rewrite !(decide_False (P := t ∈ _ ∖ _)) by tauto.
      by apply elem_of_dom in Hin as [tx ->].
    + rewrite !(decide_True (P := t ∈ _ ∖ _)) by tauto. by rewrite Hn.
    + rewrite !(decide_False (P := t ∈ _ ∖ _)) by tauto. by rewrite (proj1 Hd Hin).
    + rewrite !(decide_False (P := t ∈ _ ∖ _)) by tauto. by rewrite (proj1 Hd Hin), Hn.
  - intros Hcf He. intros o t v. rewrite Ed3. by apply X2; [|apply X1].
  - intros t tx. rewrite S3, S2. intros [[Hin _]|Ht]%store_all_elem; [by right|left].
    rewrite S1, without_lookup in Ht. by case_decide.
Qed.
Lemma update_ok daemon now m A all txs :
  chain_outputs chain avail -> refines config m A ->
  getmempooltxids daemon = Ok all ->
  gettransactions daemon (elements (all ∖ dom (txstore m))) = Ok txs ->
  Forall weighty txs -> list_to_set (map get_txid txs) = all ∖ dom (txstore m) ->
  exists m' A', update config chain daemon now m = (m', Ok tt) /\ refines config m' A' /\
    dom (txstore m') = all /\ accepted_by_update m A all m' A' /\
    (conflict_free A' -> edges_exact m A -> edges_exact m' A').
Proof.
  intros Hc Hr Hall Hget Hw Hids. destruct (update_stored daemon now m A all txs) as (m' & A' & H1 & H2 & H3 & H4 & H5 & _); [done..|].
  by exists m', A'.
Qed.

(** ** [add_by_txid] *)

(** bitcoind replies with a transaction or an error. *)
Definition rpc_replies (daemon : MempoolRpc) : Prop := forall txid,
  match getmempooltx daemon txid with Ok tx => weighty tx | Err _ => True | _ => False end.

Lemma add_by_txid_ok daemon txid m A :
  chain_outputs chain avail -> rpc_replies daemon -> refines config m A ->
  exists m' A' r, add_by_txid config chain daemon txid m = (m', r) /\
    (r = Ok tt \/ exists e, r = Err e) /\ refines config m' A' /\ dom (txstore m) ⊆ dom (txstore m').
Proof.
  intros Hc Hd Hr. unfold add_by_txid. destruct (txstore m !! txid); [by exists m, A, (Ok tt); auto|].
  specialize (Hd txid). destruct (getmempooltx daemon txid) as [tx|e| |]; try done.
  2: { exists m, A, (Ok tt). auto. }
  destruct (add_refines config chain avail m A [tx] Hc Hr) as (m' & n & A' & -> & R' & _ & S' & _).
  { by constructor. }
  exists m', A'. assert (dom (txstore m) ⊆ dom (txstore m')).
  { rewrite S', store_all_dom. apply union_subseteq_l. }
  destruct n; eexists; (split; [done|]); eauto.
Qed.
End with_chain.

(** ** The updating thread and the broadcasting threads *)

Section threads.
Context {D : Type} {RDB : RocksDB D} {W : Wincode}.

Inductive Phase := Idle | Begun (old_txids : gset Txid) | Removed (txids_to_add : list Txid).
Record Sys := mkSys { sys_pool : Mempool; sys_phase : Phase }.

(** A database whose output rows decode. *)
Definition chain_ok (chain : ChainQuery D) : Prop := exists avail, chain_outputs chain avail.

Inductive mp_step : Sys -> Sys -> Prop :=
  | st_begin m : mp_step (mkSys m Idle) (mkSys m (Begun (unique_txids m)))
  | st_request_failed m ph : mp_step (mkSys m ph) (mkSys m Idle)
  | st_remove m old all m' :
      remove m (old ∖ all) = Ok m' ->
      mp_step (mkSys m (Begun old)) (mkSys m' (Removed (elements (all ∖ old))))
  | st_add m ids (chain : ChainQuery D) now txs m' :
      chain_ok chain -> Forall weighty txs ->
      (r ← add config chain m txs; refresh_backlog config now r.1) = Ok m' ->
      mp_step (mkSys m (Removed ids)) (mkSys m' Idle)
  | st_broadcast m ph (chain : ChainQuery D) daemon txid m' r :
      chain_ok chain -> rpc_replies daemon ->
      add_by_txid config chain daemon txid m = (m', r) ->
      mp_step (mkSys m ph) (mkSys m' ph).

Definition mp_inv (s : Sys) : Prop :=
  (exists A, refines config (sys_pool s) A) /\
  match sys_phase s with Begun old => old ⊆ dom (txstore (sys_pool s)) | _ => True end.

Lemma add_refresh_ok (chain : ChainQuery D) now m A txs :
  chain_ok chain -> Forall weighty txs -> refines config m A ->
  exists m' A', (r ← add config chain m txs; refresh_backlog config now r.1) = Ok m' /\ refines config m' A'.
Proof.
  intros [avail Hc] Hw Hr.
  destruct (add_refines config chain avail m A txs Hc Hr Hw) as (m1 & n & A1 & -> & R1 & _).
  cbn [mbind result_bind fst]. destruct (refresh_backlog_ok now m1 A1 R1) as (m2 & -> & R2 & _). eauto.
Qed.
Lemma mp_step_inv s s' : mp_inv s -> mp_step s s' -> mp_inv s'.
Proof.
  intros [[A HA] Hp] Hs. destruct Hs as [m|m ph|m old all m' Hrm|m ids chain now txs m' Hc Hw Hadd
    |m ph chain daemon txid m' r [avail Hc] Hd Hb]; cbn [sys_pool sys_phase] in *.
  - split; [by exists A|]. cbn. unfold unique_txids. reflexivity.
  - split; [by exists A|done].
  - destruct (remove_refines m A (old ∖ all) HA) as (m1 & E & R1 & _); [set_solver|].
    rewrite Hrm in E. injection E as <-. split; [eexists; exact R1|done].
  - destruct (add_refresh_ok chain now m A txs Hc Hw HA) as (m1 & A1 & E & R1).
    rewrite Hadd in E. injection E as <-. split; [eexists; exact R1|done].
  - destruct (add_by_txid_ok chain avail daemon txid m A Hc Hd HA) as (m1 & A1 & r1 & E & _ & R1 & Hsub).
    rewrite Hb in E. injection E as <- <-. split; [eexists; exact R1|]. cbn.
    destruct ph; [done| |done]. by transitivity (dom (txstore m)).
Qed.
Lemma refines_new now : refines config (mempool_new config now) ∅.
Proof. split; cbn; try done; try set_solver. lia. Qed.
Lemma mp_reachable_inv now s : rtc mp_step (mkSys (mempool_new config now) Idle) s -> mp_inv s.
Proof.
  intros Hs. remember (mkSys (mempool_new config now) Idle) as s0 eqn:E0.
  assert (mp_inv s0) as H0 by (subst; split; [exists ∅; apply refines_new|done]).
  clear E0. induction Hs as [s|s s1 s2 Hst _ IH]; [done|]. apply IH. by eapply mp_step_inv.
Qed.

(** An update that is not interrupted is a run of the updating thread. *)
Lemma update_is_run (chain : ChainQuery D) daemon now m m' :
  chain_ok chain -> (forall l txs, gettransactions daemon l = Ok txs -> Forall weighty txs) ->
  update config chain daemon now m = (m', Ok tt) -> rtc mp_step (mkSys m Idle) (mkSys m' Idle).
Proof.
  intros Hc Hw. unfold update, gets, lift, transition, mbind, SR_bind.
  destruct (getmempooltxids daemon) as [all| | |]; try done. cbn [chain_err].
  destruct (remove m _) as [m1| | |] eqn:E1; try done.
  destruct (gettransactions daemon _) as [txs| | |] eqn:Eg; try done. cbn [chain_err].
  match goal with |- context [match ?x with _ => _ end] => destruct x as [m2| | |] eqn:E2 end; try done.
  intros [= <-]. eapply rtc_l; [apply st_begin|]. eapply rtc_l; [by apply st_remove|].
  apply rtc_once. eapply st_add; [done|by eapply Hw|exact E2].
Qed.
End threads.
End update.

(** ** Properties *)

(** C5: Adding transactions never panics.  The ones already stored keep what was
    indexed for them; a new one is accepted exactly when every output it spends is
    known, on the chain or in the mempool, and is then indexed with those outputs.
    The count returned is the number accepted, the fee table and the script histories
    are those of the accepted transactions, and the spend edges stay exact as long as
    the accepted transactions do not conflict. *)
Theorem mempool_add_accepts {D} `{RDB : RocksDB D} `{BL : BitcoinLib} `{W : Wincode} config
    (chain : ChainQuery D) avail m A txs :
  chain_outputs chain avail -> refines config m A -> Forall weighty txs ->
  exists m' n A', add config chain m txs = Ok (m', n) /\ refines config m' A' /\ n + size A = size A' /\
    txstore m' = store_all (txstore m) txs /\ accepted_by_add avail m A m' A' /\
    (conflict_free A' -> edges_exact m A -> edges_exact m' A').
Proof.
  intros Hc Hr Hw.
  destruct (add_refines config chain avail m A txs Hc Hr Hw) as (m' & n & A' & H1 & H2 & H3 & H4 & _ & H5 & H6).
  by exists m', n, A'.
Qed.

(** Removing known transactions deletes exactly what was indexed for them, and
    keeps the edges exact; removing an unknown one panics. *)
Lemma mempool_remove_deletes `{BL : BitcoinLib} config m A S :
  refines config m A ->
  if decide (S ⊆ dom (txstore m)) then
    exists m', remove m S = Ok m' /\ refines config m' (without S A) /\
      txstore m' = without S (txstore m) /\ (edges_exact m A -> edges_exact m' (without S A))
  else remove m S = Panic.
Proof.
  intros Hr. case_decide as HS; [|by apply remove_panics].
  destruct (remove_refines config m A S Hr HS) as (m' & H1 & H2 & H3 & _ & H4). by exists m'.
Qed.

(** C4: When bitcoind answers, an update leaves exactly bitcoind's mempool in the
    store: of the transactions that stay, what was indexed stays, the new ones are
    indexed when their parents are known, and the statistics are recomputed without a
    panic. *)
Theorem mempool_update_follows {D} `{RDB : RocksDB D} `{BL : BitcoinLib} `{W : Wincode} config
    (chain : ChainQuery D) avail daemon now m A all txs :
  chain_outputs chain avail -> refines config m A ->
  getmempooltxids daemon = Ok all ->
  gettransactions daemon (elements (all ∖ dom (txstore m))) = Ok txs ->
  Forall weighty txs -> list_to_set (map get_txid txs) = all ∖ dom (txstore m) ->
  exists m' A', update config chain daemon now m = (m', Ok tt) /\ refines config m' A' /\
    dom (txstore m') = all /\ accepted_by_update avail m A all m' A' /\
    (conflict_free A' -> edges_exact m A -> edges_exact m' A').
Proof. apply update_ok. Qed.

(** C6: However the phases of an update interleave with transactions that other
    threads add, in every reachable state the indexes are those of some set of
    accepted transactions, the removal an update is about to make does not panic,
    and neither does adding. *)
Theorem mempool_threads_safe {D} `{RDB : RocksDB D} `{BL : BitcoinLib} `{W : Wincode} config now s :
  rtc (@mp_step BL config D RDB W) (mkSys (mempool_new config now) Idle) s ->
  (exists A, refines config (sys_pool s) A) /\
  (forall old all, sys_phase s = Begun old -> is_ok (remove (sys_pool s) (old ∖ all))) /\
  (forall (chain : ChainQuery D) t txs, chain_ok chain -> Forall weighty txs ->
     is_ok (r ← add config chain (sys_pool s) txs; refresh_backlog config t r.1)).
Proof.
  intros Hs. destruct (mp_reachable_inv config now s Hs) as [[A HA] Hp]. split; [by exists A|]. split.
  - intros old all Hph. rewrite Hph in Hp.
    destruct (remove_refines config (sys_pool s) A (old ∖ all) HA) as (m' & E & _); [set_solver|]. by exists m'.
  - intros chain t txs Hc Hw. destruct (add_refresh_ok config chain t _ A txs Hc Hw HA) as (m' & A' & E & _).
    by exists m'.
Qed.

(** *** Witnesses *)

Definition ex_mcfg : MempoolConfig := mkMempoolConfig false 10 10.
(** A parent without inputs and a child that spends it. *)
Definition ex_parent : Transaction := mkTx 2 71 [] [mkTxOut 5000 [118; 1]%Z; mkTxOut 700 [118; 2]%Z].
Definition ex_child : Transaction :=
  mkTx 2 72 [mkTxIn (mkOutPoint (pack_hash 71) 0) [] 0 []] [mkTxOut 4000 [118; 2]%Z].
Definition ex_empty_chain : ChainQuery KvMap :=
  mkChainQuery (mkStore rdb_empty rdb_empty rdb_empty ∅ ∅ hl_empty) ex_daemon false.
Definition ex_rpc : MempoolRpc :=
  mkMempoolRpc (Ok {[pack_hash 71; pack_hash 72]}) (fun _ => Ok [ex_parent; ex_child]) (fun _ => Ok ex_child).
Lemma ex_empty_outputs : @chain_outputs ExampleLib KvMap _ FixintWincode ex_empty_chain (fun _ => None).
Proof. intros o. done. Qed.
Lemma ex_weighty : Forall (@weighty ExampleLib) [ex_parent; ex_child].
Proof. repeat constructor; vm_decide. Qed.

Lemma mempool_add_accepts_witness :
  exists m' n A', @add KvMap _ ExampleLib FixintWincode ex_mcfg ex_empty_chain (mempool_new ex_mcfg 100)
    [ex_parent; ex_child] = Ok (m', n) /\ @refines ExampleLib ex_mcfg m' A' /\ n + 0 = size A'.
Proof.
  destruct (@mempool_add_accepts KvMap _ ExampleLib FixintWincode ex_mcfg ex_empty_chain (fun _ => None)
    (mempool_new ex_mcfg 100) ∅ [ex_parent; ex_child] ex_empty_outputs (@refines_new ExampleLib ex_mcfg 100)
    ex_weighty) as (m' & n & A' & H1 & H2 & H3 & _).
  exists m', n, A'. exact (conj H1 (conj H2 H3)).
Defined.
(** Both are accepted, the child because its parent is stored first. *)
Example ex_add_count :
  exists m', @add KvMap _ ExampleLib FixintWincode ex_mcfg ex_empty_chain (mempool_new ex_mcfg 100) [ex_child; ex_parent]
    = Ok (m', 2).
Proof. eexists. vm_compute. reflexivity. Qed.

Lemma mempool_remove_deletes_witness :
  exists m', remove (mempool_new ex_mcfg 100) ∅ = Ok m' /\ @refines ExampleLib ex_mcfg m' (without ∅ ∅).
Proof.
  pose proof (@mempool_remove_deletes ExampleLib ex_mcfg (mempool_new ex_mcfg 100) ∅ ∅
    (@refines_new ExampleLib ex_mcfg 100)) as H.
  destruct (decide (∅ ⊆ dom (txstore (mempool_new ex_mcfg 100)))) as [Hd|Hd].
  - destruct H as (m' & H1 & H2 & _). exists m'. exact (conj H1 H2).
  - destruct Hd. apply empty_subseteq.
Defined.

Lemma mempool_update_follows_witness :
  exists m' A', @update KvMap _ ExampleLib FixintWincode ex_mcfg ex_empty_chain ex_rpc 200 (mempool_new ex_mcfg 100)
    = (m', Ok tt) /\ @refines ExampleLib ex_mcfg m' A' /\ dom (txstore m') = {[pack_hash 71; pack_hash 72]}.
Proof.
  destruct (@mempool_update_follows KvMap _ ExampleLib FixintWincode ex_mcfg ex_empty_chain (fun _ => None) ex_rpc 200
    (mempool_new ex_mcfg 100) ∅ {[pack_hash 71; pack_hash 72]} [ex_parent; ex_child])
    as (m' & A' & H1 & H2 & H3 & _).
  - exact ex_empty_outputs.
  - exact (@refines_new ExampleLib ex_mcfg 100).
  - reflexivity.
  - reflexivity.
  - exact ex_weighty.
  - vm_decide.
  - exists m', A'. exact (conj H1 (conj H2 H3)).
Defined.

Lemma mempool_threads_safe_witness :
  exists s, sys_phase s = Begun ∅ /\ is_ok (remove (sys_pool s) (∅ ∖ {[pack_hash 71]})).
Proof.
  exists (mkSys (mempool_new ex_mcfg 100) (Begun ∅)). split; [done|].
  apply (@mempool_threads_safe KvMap _ ExampleLib FixintWincode ex_mcfg 100 (mkSys (mempool_new ex_mcfg 100) (Begun ∅)));
    [|reflexivity].
  apply rtc_once. apply (@st_begin ExampleLib ex_mcfg KvMap _ FixintWincode (mempool_new ex_mcfg 100)).
Defined.
