(* ===== verification/MempoolQueries.v ===== *)
(** * Queries of the mempool against the accepted transactions

    On a mempool that refines a set of accepted transactions, the per-script queries
    answer from that set, and the paged listings enumerate it without gaps or
    repetitions. *)

From S2P Require Import Prelude Iter RocksDB DB Bitcoin HeaderList Rows Fetch Fees.
From S2P Require Import Indexer ChainQuery Mempool MempoolIndex MempoolUpdate.

Section queries.
Context {BL : BitcoinLib} (config : MempoolConfig).
Implicit Types (m : Mempool).
Abbreviation Accepted := (gmap Txid (Transaction * gmap Z TxOut)).
Implicit Types (A : Accepted) (sh : FullHash).

(** ** Entries *)

Lemma at_script_elem sh l e : e ∈ at_script sh l <-> (sh, e) ∈ l.
Proof.
  unfold at_script. rewrite elem_of_map. split.
  - intros ([s e'] & -> & [Hs Hin]%list_elem_of_filter). cbn in Hs. by subst s.
  - intros Hin. exists (sh, e). by rewrite list_elem_of_filter.
Qed.
Lemma hist_of_elem A sh e :
  e ∈ hist_of config A sh <-> exists txid p, A !! txid = Some p /\ (sh, e) ∈ tx_entries config txid p.
Proof.
  unfold hist_of. rewrite elem_of_concat_map. split.
  - intros ([t p] & Hin%elem_of_map_to_list & He). apply at_script_elem in He. eauto.
  - intros (t & p & Ht & He). exists (t, p). by rewrite elem_of_map_to_list, at_script_elem.
Qed.

(** The output [i] of an accepted transaction pays the script and is indexed. *)
Definition funds A sh (o : OutPoint) (value : Z) : Prop :=
  exists p i txo, A !! op_txid o = Some p /\ tx_output p.1 !! i = Some txo /\
    op_vout o = as_u32 (Z.of_nat i) /\ compute_script_hash (script_pubkey txo) = sh /\
    txo_value txo = value /\ (is_spendable txo = true \/ mc_index_unspendables config = true).

Lemma hist_of_funding A sh txid vout value :
  Funding txid vout value ∈ hist_of config A sh <-> funds A sh (mkOutPoint txid vout) value.
Proof.
  rewrite hist_of_elem. unfold funds, tx_entries, funding_entries. cbn. split.
  - intros (t & p & Hp & [He|He]%elem_of_app).
    + apply elem_of_map in He as ([i txo] & [= -> -> -> ->] & [Hs Hi%enumerate_elem]%list_elem_of_filter).
      exists p, i, txo. apply orb_true_iff in Hs. done.
    + unfold spending_of in He. destruct (rmap _ _) as [l| | |] eqn:E; [|by apply elem_of_nil in He..].
      rewrite rmap_Ok_Forall2 in E. apply list_elem_of_lookup in He as [k Hk].
      destruct (Forall2_lookup_r _ _ _ _ _ E Hk) as ([j txo] & _ & Hs). unfold spending_entry in Hs. by rsimp.
  - intros (p & i & txo & Hp & Hi & -> & <- & <- & Hs). exists txid, p. split; [done|].
    apply elem_of_app. left. apply elem_of_map. exists (i, txo). split; [done|].
    apply list_elem_of_filter. rewrite enumerate_elem. split; [|done]. by apply orb_true_iff.
Qed.

Lemma entries_lookup m sh : mp_history m !! sh = None -> entries_of m sh = [].
Proof. unfold entries_of. by intros ->. Qed.
Lemma entries_elem m A sh e :
  refines config m A -> e ∈ entries_of m sh <-> e ∈ hist_of config A sh.
Proof. intros Hr. by rewrite (rf_history _ _ _ Hr sh). Qed.

(** ** [history] and its pages *)

Definition script_txids m sh : list Txid := unique_txids_of (entries_of m sh).
Lemma script_txids_NoDup m sh : NoDup (script_txids m sh).
Proof.
  unfold script_txids, unique_txids_of.
  pose proof (unique_by_NoDup (@id Txid) (map info_get_txid (entries_of m sh))) as H.
  by rewrite list_fmap_id in H.
Qed.
Lemma script_txids_elem m A sh txid :
  refines config m A ->
  txid ∈ script_txids m sh <-> exists p e, A !! txid = Some p /\ (sh, e) ∈ tx_entries config txid p.
Proof.
  intros Hr. unfold script_txids, unique_txids_of. split.
  - intros Hin%unique_by_elem. apply elem_of_map in Hin as (e & -> & He).
    apply (entries_elem m A sh e Hr), hist_of_elem in He as (t & p & Hp & He).
    pose proof (tx_entries_txid _ _ _ _ He) as Ht. cbn in Ht. rewrite Ht. eauto.
  - intros (p & e & Hp & He).
    destruct (unique_by_cover id (map info_get_txid (entries_of m sh)) txid) as (y & Hy & Heq); [|by cbn in Heq; subst].
    apply elem_of_map. exists e. split; [by apply tx_entries_txid in He|].
    apply (entries_elem m A sh e Hr), hist_of_elem. eauto.
Qed.

(** The transactions of the ids after [last_seen_txid]. *)
Definition after_seen (L : list Txid) (last : option Txid) : list Txid := after_key id L last.
Lemma history_tail_after m A L last limit :
  refines config m A -> NoDup L -> (forall t, t ∈ L -> is_Some (A !! t)) ->
  exists txs, history_tail m L last limit = Ok txs /\
    Forall2 (fun t tx => txstore m !! t = Some tx) (take limit (after_seen L last)) txs.
Proof.
  intros Hr Hnd HA. unfold history_tail.
  rewrite (skip_past id L last) by (by rewrite list_fmap_id). fold (after_seen L last).
  destruct (rmap_total (fun txid => unwrap (txstore m !! txid)) (take limit (after_seen L last))) as [txs Htxs].
  { intros t Ht. assert (t ∈ L) as HL.
    { apply (subseteq_take limit) in Ht. by apply after_key_sub in Ht. }
    destruct (HA t HL) as [p Hp]. apply elem_of_dom_2, (rf_stored _ _ _ Hr), elem_of_dom in Hp as [tx ->].
    by exists tx. }
  exists txs. split; [done|]. rewrite rmap_Ok_Forall2 in Htxs. eapply Forall2_impl; [exact Htxs|].
  intros t tx. cbn. apply unwrap_Ok.
Qed.

(** ** Listings in key order *)

Definition hash_lt (a b : FullHash) : Prop := bytes_lt (as_bytes a) (as_bytes b).
#[export] Instance hash_lt_dec : RelDecision hash_lt.
Proof. intros a b. unfold hash_lt. apply _. Defined.
Lemma hash_lt_not_le a b : ~ hash_le b a <-> hash_lt a b.
Proof. apply bytes_not_le. Qed.

Section btree.
Context {V : Type}.
#[local] Instance entry_le_total : Total (fun x y : Txid * V => hash_le x.1 y.1).
Proof. intros x y. apply (total bytes_le). Qed.
#[local] Instance entry_le_trans : Transitive (fun x y : Txid * V => hash_le x.1 y.1).
Proof. intros x y z H1 H2. by apply (transitivity (R := bytes_le) H1 H2). Qed.

Lemma btree_iter_keys (M : gmap Txid V) :
  StronglySorted hash_lt (map fst (btree_iter M)) /\ forall t, t ∈ map fst (btree_iter M) <-> t ∈ dom M.
Proof.
  assert (btree_iter M ≡ₚ map_to_list M) as Hp by apply merge_sort_Permutation.
  assert (NoDup (map fst (btree_iter M))) as Hnd.
  { apply (Permutation_map fst) in Hp. rewrite Hp. apply NoDup_fst_map_to_list. }
  split.
  - pose proof (StronglySorted_merge_sort (fun x y : Txid * V => hash_le x.1 y.1) (map_to_list M)) as Hs.
    fold (btree_iter M) in Hs. revert Hs Hnd. generalize (btree_iter M). clear Hp. intros l.
    induction 1 as [|x l Hs IH Hf]; cbn [map]; [constructor|].
    intros [Hn Hnd]%NoDup_cons. constructor; [by apply IH|].
    rewrite Forall_forall in Hf. apply Forall_forall. intros y (z & -> & Hz)%elem_of_map. specialize (Hf z Hz).
    unfold hash_le in Hf. apply bytes_le_lteq in Hf as [Hf|Hf]; [done|].
    apply as_bytes_inj in Hf. destruct Hn. rewrite Hf. apply elem_of_map. by exists z.
  - intros t. rewrite elem_of_map. setoid_rewrite Hp. split.
    + intros ([k v] & -> & Hin%elem_of_map_to_list). by eapply elem_of_dom_2.
    + intros [v Hv]%elem_of_dom. exists (t, v). by rewrite elem_of_map_to_list.
Qed.
Lemma btree_range_keys (M : gmap Txid V) t :
  map fst (btree_range M (Some t)) = filter (hash_lt t) (map fst (btree_iter M)).
Proof.
  cbn [btree_range]. rewrite filter_map_comm. f_equal.
  apply list_filter_iff. intros x. apply hash_lt_not_le.
Qed.
End btree.

(** In a strictly sorted list the items above one of them are those after it. *)
Lemma filter_after (L : list Txid) k t :
  StronglySorted hash_lt L -> L !! k = Some t -> filter (hash_lt t) L = drop (S k) L.
Proof.
  intros Hs. revert k. induction Hs as [|x L Hs IH Hf]; intros k Hk; [done|].
  rewrite Forall_forall in Hf. destruct k as [|k]; cbn [lookup list_lookup] in Hk.
  - injection Hk as ->. rewrite filter_cons_False by (exact (irreflexivity bytes_lt (as_bytes t))).
    cbn [drop]. rewrite drop_0. by apply filter_all.
  - rewrite filter_cons_False; [by apply IH|]. intros Hlt. apply list_elem_of_lookup_2 in Hk.
    apply (irreflexivity bytes_lt (as_bytes t)). by transitivity (as_bytes x); [|apply Hf].
Qed.

(** ** Statistics *)

Definition fund_values (l : list TxHistoryInfo) : list Z :=
  omap (fun e => match e with Funding _ _ v => Some v | _ => None end) l.
Definition spend_values (l : list TxHistoryInfo) : list Z :=
  omap (fun e => match e with Spending _ _ _ _ v => Some v | _ => None end) l.
Definition entry_txids (l : list TxHistoryInfo) : gset Txid := list_to_set (map info_get_txid l).

(** Counters are [usize] and sums [u64]: both are kept modulo 2^64. *)
Definition stats_from (st : ScriptStats) (seen : gset Txid) (l : list TxHistoryInfo) : ScriptStats :=
  mkStats (wrap64 (tx_count st + Z.of_nat (size (entry_txids l ∖ seen))))
    (wrap64 (funded_txo_count st + Z.of_nat (length (fund_values l))))
    (wrap64 (spent_txo_count st + Z.of_nat (length (spend_values l))))
    (wrap64 (funded_txo_sum st + sum_Z (fund_values l)))
    (wrap64 (spent_txo_sum st + sum_Z (spend_values l))).
Lemma wrap64_plus a b : wrap64 (wrap64 a + b) = wrap64 (a + b).
Proof. unfold wrap64. by rewrite Zplus_mod_idemp_l. Qed.
Lemma stats_in_range_wrap st :
  stats_in_range st -> st = mkStats (wrap64 (tx_count st)) (wrap64 (funded_txo_count st))
    (wrap64 (spent_txo_count st)) (wrap64 (funded_txo_sum st)) (wrap64 (spent_txo_sum st)).
Proof.
  destruct st as [a b c d e]. unfold stats_in_range. cbn. intros H.
  by rewrite !wrap64_id by tauto.
Qed.
Lemma entry_txids_cons e l seen :
  size (entry_txids (e :: l) ∖ seen) =
    (if bool_decide (info_get_txid e ∉ seen) then 1 else 0) +
    size (entry_txids l ∖ ({[info_get_txid e]} ∪ seen)).
Proof.
  unfold entry_txids. cbn [map list_to_set]. case_bool_decide as Hs.
  - rewrite <- (size_singleton (C := gset Txid) (info_get_txid e)), <- size_union by set_solver.
    f_equal. apply set_eq. intros x. destruct (decide (x = info_get_txid e)); set_solver.
  - cbn. f_equal. apply set_eq. intros x. destruct (decide (x = info_get_txid e)); set_solver.
Qed.
Lemma funding_values t v val l :
  fund_values (Funding t v val :: l) = val :: fund_values l /\
  spend_values (Funding t v val :: l) = spend_values l.
Proof. done. Qed.
Lemma spending_values t v pt pv val l :
  fund_values (Spending t v pt pv val :: l) = fund_values l /\
  spend_values (Spending t v pt pv val :: l) = val :: spend_values l.
Proof. done. Qed.
Lemma mp_stats_loop_from l : forall st seen,
  stats_in_range st -> mp_stats_loop st seen l = stats_from st seen l.
Proof.
  induction l as [|e l IH]; intros st seen Hr.
  - rewrite (stats_in_range_wrap st Hr) at 1. unfold stats_from, entry_txids. cbn.
    assert ((∅ ∖ seen : gset Txid) = ∅) as -> by set_solver. rewrite size_empty. cbn.
    by rewrite !Z.add_0_r.
  - cbn [mp_stats_loop]. rewrite IH.
    + unfold stats_from. rewrite entry_txids_cons, Nat2Z.inj_add.
      destruct e as [t v pt pv val|t v val]; [destruct (spending_values t v pt pv val l) as [-> ->]
        |destruct (funding_values t v val l) as [-> ->]];
        cbn [tx_count funded_txo_count spent_txo_count funded_txo_sum spent_txo_sum fst snd];
        destruct (bool_decide _);
        rewrite ?length_cons, ?Nat2Z.inj_succ, ?sum_Z_cons, ?wrap64_plus; f_equal; f_equal; lia.
    + assert (forall x, is_u64 (wrap64 x)) by (intros; apply Z.mod_pos_bound; done).
      destruct st as [a b c d f]. unfold stats_in_range in *. cbn in Hr.
      destruct e, (bool_decide _); cbn; tauto || naive_solver.
Qed.

Lemma stats_from_perm st seen l l' : l ≡ₚ l' -> stats_from st seen l = stats_from st seen l'.
Proof.
  intros Hp. unfold stats_from, entry_txids, fund_values, spend_values.
  assert ((list_to_set (map info_get_txid l) : gset Txid) = list_to_set (map info_get_txid l')) as ->.
  { apply (Permutation_map info_get_txid) in Hp. by rewrite Hp. }
  by rewrite Hp.
Qed.
End queries.

Lemma mempool_utxo_elem `{BL : BitcoinLib} config m A sh u :
  refines config m A -> edges_exact m A ->
  u ∈ utxo m sh <-> exists o v, u = mkUtxo (op_txid o) (op_vout o) None v /\
    funds config A sh o v /\ (forall t i, ~ spends A t i o).
Proof.
  intros Hr He. unfold utxo.
  assert (forall o, has_spend m o = false <-> forall t i, ~ spends A t i o) as Hsp.
  { intros o. unfold has_spend. rewrite bool_decide_eq_false. split.
    - intros Hn t i Hs. apply Hn. apply (He o t i) in Hs. by eexists.
    - intros Hn [[t i] Hx]. by apply (Hn t i), He. }
  assert (u ∈ filter (fun u => has_spend m (mkOutPoint (ut_txid u) (ut_vout u)) = false)
      (omap (fun entry => match entry with
         | Funding txid vout value => Some (mkUtxo txid vout None value) | Spending _ _ _ _ _ => None end)
        (entries_of m sh)) <->
    exists o v, u = mkUtxo (op_txid o) (op_vout o) None v /\
      funds config A sh o v /\ (forall t i, ~ spends A t i o)) as Hmain.
  { rewrite list_elem_of_filter, list_elem_of_omap, Hsp. split.
    - intros [Hn (e & Hin & Hx)]. destruct e as [|t v val]; [done|]. injection Hx as <-.
      exists (mkOutPoint t v), val. rewrite (entries_elem config m A) in Hin by done.
      by apply hist_of_funding in Hin.
    - intros ([t v] & val & -> & Hf & Hn). split; [done|]. exists (Funding t v val).
      rewrite (entries_elem config m A) by done. by rewrite hist_of_funding. }
  unfold entries_of in Hmain. by destruct (mp_history m !! sh).
Qed.

(** ** Properties *)

(** The unspent outputs the mempool reports for a script are exactly the indexed
    outputs of accepted transactions that pay the script and that no accepted
    transaction spends. *)
Lemma mempool_utxo_exact `{BL : BitcoinLib} config m A sh u :
  refines config m A -> edges_exact m A ->
  u ∈ utxo m sh <-> exists o v, u = mkUtxo (op_txid o) (op_vout o) None v /\
    funds config A sh o v /\ (forall t i, ~ spends A t i o).
Proof. apply mempool_utxo_elem. Qed.

(** The history of a script never misses a stored transaction (the lookup it
    ends in does not panic); the ids it pages through are the accepted transactions
    that touch the script, each once; and the page after an id is the part of the
    list after that id. *)
Lemma mempool_history_pages `{BL : BitcoinLib} config m A sh last limit :
  refines config m A ->
  NoDup (script_txids m sh) /\
  (forall txid, txid ∈ script_txids m sh <->
     exists p e, A !! txid = Some p /\ (sh, e) ∈ tx_entries config txid p) /\
  history_txids m sh limit = take limit (script_txids m sh) /\
  exists txs, history m sh last limit = Ok txs /\
    Forall2 (fun t tx => txstore m !! t = Some tx) (take limit (after_seen (script_txids m sh) last)) txs.
Proof.
  intros Hr. split; [apply script_txids_NoDup|].
  split; [intros txid; by apply script_txids_elem|]. split.
  { unfold history_txids, script_txids, entries_of. destruct (mp_history m !! sh); [done|]. by destruct limit. }
  destruct (history_tail_after config m A (script_txids m sh) last limit Hr) as (txs & Ht & Hf).
  - apply script_txids_NoDup.
  - intros t Hin. apply (script_txids_elem config m A sh t Hr) in Hin as (p & _ & -> & _). by eexists.
  - exists txs. split; [|done]. unfold history, _history, script_txids, entries_of in *.
    destruct (mp_history m !! sh); [done|]. rewrite <- Ht. unfold history_tail. cbn.
    by destruct last, limit.
Qed.

(** The listing of the mempool is strictly ascending in the ids and complete,
    and the page after an id of the listing continues right after it, so pages of any
    size enumerate it without gaps or repetitions. *)
Lemma txids_pages_enumerate m n k t :
  StronglySorted hash_lt (txids m) /\ (forall x, x ∈ txids m <-> x ∈ dom (txstore m)) /\
  txids_page m n None = take n (txids m) /\
  (txids m !! k = Some t -> txids_page m n (Some t) = take n (drop (S k) (txids m))).
Proof.
  destruct (btree_iter_keys (txstore m)) as [Hs Hin]. split; [done|]. split; [done|]. split.
  - unfold txids_page, txids. cbn [btree_range]. symmetry. apply firstn_map.
  - intros Hk. unfold txids_page. rewrite <- firstn_map, btree_range_keys.
    by rewrite (filter_after _ k t Hs Hk).
Qed.

(** The mempool statistics of a script count, modulo 2^64, its funding and
    spending entries, their values, and the distinct transactions among them. *)
Lemma mempool_stats_counts `{BL : BitcoinLib} config m A sh :
  refines config m A -> stats m sh = stats_from stats_default ∅ (hist_of config A sh).
Proof.
  intros Hr. rewrite <- (stats_from_perm _ _ _ _ (rf_history _ _ _ Hr sh)).
  rewrite <- mp_stats_loop_from by (repeat split; done).
  unfold stats, entries_of. by destruct (mp_history m !! sh).
Qed.

(** *** Witnesses *)

(** The example mempool with the parent and its child. *)
Lemma ex_pool_exists : exists m A, @refines ExampleLib ex_mcfg m A /\ edges_exact m A /\
  dom (txstore m) = {[pack_hash 71; pack_hash 72]}.
Proof.
  destruct (@add_refines ExampleLib ex_mcfg KvMap _ FixintWincode ex_empty_chain (fun _ => None)
    (mempool_new ex_mcfg 100) ∅ [ex_parent; ex_child] ex_empty_outputs (@refines_new ExampleLib ex_mcfg 100)
    ex_weighty) as (m & n & A & _ & H2 & _ & H3 & _ & H4 & H5).
  exists m, A. split; [exact H2|].
  assert (dom (txstore m) = {[pack_hash 71; pack_hash 72]}) as Hdom by (rewrite H3; vm_decide).
  split; [|exact Hdom]. apply H5.
  - assert (forall t p, A !! t = Some p -> exists tx, txstore m !! t = Some tx /\ p.1 = tx) as HA.
    { intros t p Hp. rewrite H4 in Hp. cbn [txstore mempool_new] in Hp. rewrite lookup_empty in Hp.
      destruct (txstore m !! t) as [tx|]; [|done]. cbn in Hp. exists tx. split; [done|].
      destruct (resolve_prevouts _ _); [|done]. by injection Hp as <-. }
    assert (forall t v o, spends A t v o -> t = pack_hash 72 /\ v = 0%Z) as Hone.
    { intros t v o (p & j & txi & Hp & Hj & Ho & ->). destruct (HA t p Hp) as (tx & Htx & Heq).
      assert (t ∈ dom (txstore m)) as Ht by (by eapply elem_of_dom_2). rewrite Hdom in Ht.
      rewrite H3 in Htx. apply elem_of_union in Ht as [->%elem_of_singleton| ->%elem_of_singleton].
      - assert (tx = ex_parent) as -> by (vm_compute in Htx; by injection Htx as <-).
        rewrite Heq in Hj. done.
      - assert (tx = ex_child) as -> by (vm_compute in Htx; by injection Htx as <-).
        rewrite Heq in Hj. destruct j as [|[|j]]; done. }
    intros o t v t' v' Hx%Hone Hy%Hone. destruct Hx as [-> ->], Hy as [-> ->]. done.
  - intros o t v. cbn. rewrite lookup_empty. split; [done|]. intros (p & _ & _ & Hp & _). by rewrite lookup_empty in Hp.
Qed.

Lemma mempool_utxo_exact_witness :
  exists m A, @edges_exact m A /\ forall u, u ∈ utxo m (@compute_script_hash ExampleLib [118; 2]%Z) <->
    exists o v, u = mkUtxo (op_txid o) (op_vout o) None v /\
      @funds ExampleLib ex_mcfg A (@compute_script_hash ExampleLib [118; 2]%Z) o v /\ (forall t i, ~ spends A t i o).
Proof.
  destruct ex_pool_exists as (m & A & Hr & He & _). exists m, A. split; [exact He|].
  intros u. exact (@mempool_utxo_exact ExampleLib ex_mcfg m A (@compute_script_hash ExampleLib [118; 2]%Z) u Hr He).
Defined.
Lemma mempool_history_pages_witness :
  exists m, dom (txstore m) = {[pack_hash 71; pack_hash 72]} /\
    exists txs, history m (@compute_script_hash ExampleLib [118; 2]%Z) None 25 = Ok txs.
Proof.
  destruct ex_pool_exists as (m & A & Hr & _ & Hd). exists m. split; [exact Hd|].
  destruct (@mempool_history_pages ExampleLib ex_mcfg m A (@compute_script_hash ExampleLib [118; 2]%Z) None 25 Hr) as (_ & _ & _ & txs & H & _).
  exists txs. exact H.
Defined.
Definition ex_listed : Mempool :=
  with_txstore (mempool_new ex_mcfg 0) {[pack_hash 72 := ex_child; pack_hash 71 := ex_parent]}.
Lemma txids_pages_enumerate_witness :
  txids ex_listed !! 0 = Some (pack_hash 71) /\
  txids_page ex_listed 1 (Some (pack_hash 71)) = take 1 (drop 1 (txids ex_listed)).
Proof.
  split; [vm_decide|]. apply (txids_pages_enumerate ex_listed 1 0 (pack_hash 71)). vm_decide.
Defined.
Lemma mempool_stats_counts_witness :
  exists m A, @refines ExampleLib ex_mcfg m A /\
    stats m (@compute_script_hash ExampleLib [118; 2]%Z) = stats_from stats_default ∅ (@hist_of ExampleLib ex_mcfg A (@compute_script_hash ExampleLib [118; 2]%Z)).
Proof.
  destruct ex_pool_exists as (m & A & Hr & _ & _). exists m, A. split; [exact Hr|].
  exact (@mempool_stats_counts ExampleLib ex_mcfg m A (@compute_script_hash ExampleLib [118; 2]%Z) Hr).
Defined.
