(* ===== verification/Query.v ===== *)
(** * [new_index/query.rs]: the chain and the mempool together

    [Query] answers for confirmed and unconfirmed transactions at once and keeps two
    small caches, the fee estimates and the relay fee.  Its operations are state
    passing over the record of the source: [utxo] and [stats] write the chain's cache
    database, [broadcast_raw] the mempool, the fee queries their caches.  Bitcoind's
    answers are a parameter.  Instants are in nanoseconds; the two clock readings of a
    query that refreshes the estimates are its arguments [now] and [later]. *)

From Stdlib Require Import SpecFloat.
From S2P Require Import Prelude Iter RocksDB DB Bitcoin HeaderList Rows Fetch Fees.
From S2P Require Import Indexer IndexerSync ChainQuery ChainView ChainBlocks ChainHistory.
From S2P Require Import ScriptStats ScriptUtxo.
From S2P Require Import Mempool MempoolIndex MempoolUpdate MempoolQueries.

(** ** [f64] *)

Abbreviation f64 := spec_float.
Definition f64_mul (a b : f64) : f64 := SFmul 53 1024 a b.
Definition f64_eq (a b : f64) : bool := SFeqb a b.
(** [-1f64] and [100_000f64]. *)
Definition f64_of_Z (x : Z) : f64 := binary_normalize 53 1024 x 0 false.

Definition FEE_ESTIMATES_TTL : Z := 60.
Definition CONF_TARGETS : list Z :=
  [1; 2; 3; 4; 5; 6; 7; 8; 9; 10; 11; 12; 13; 14; 15; 16; 17; 18; 19; 20; 21; 22; 23; 24; 25;
   144; 504; 1008]%Z.

(** ** Bitcoind's answers *)

(** A reply of [estimatesmartfee]: is ["errors"] null, and ["feerate"] as a number. *)
Record FeeReply := mkFeeReply { fr_errors_null : bool; fr_feerate : option f64 }.
Record QueryRpc := mkQueryRpc {
  qr_mempool : MempoolRpc;
  qr_sendrawtransaction : Bytes -> result Txid;
  qr_estimatesmartfee : list Z -> result (list FeeReply);
  qr_relayfee : result f64 }.

(** [Daemon::estimatesmartfee_batch]: one reply and its target. *)
Definition estimate_reply (p : FeeReply * Z) : result (option (Z * f64)) :=
  let '(reply, target) := p in
  if negb (fr_errors_null reply) then Ok None
  else
    feerate ← unwrap (fr_feerate reply);
    if f64_eq feerate (f64_of_Z (-1)) then Ok None
    else Ok (Some (target, f64_mul feerate (f64_of_Z 100000))).
Definition collect_map (l : list (Z * f64)) : gmap Z f64 :=
  fold_left (fun acc p => <[p.1 := p.2]> acc) l ∅.
Definition estimatesmartfee_batch (daemon : QueryRpc) (conf_targets : list Z) : result (gmap Z f64) :=
  replies ← qr_estimatesmartfee daemon conf_targets;
  estimates ← it_collect (it_filter_map estimate_reply (it_of (zip replies conf_targets)));
  Ok (collect_map estimates).
(** [Daemon::get_relayfee] *)
Definition daemon_relayfee (daemon : QueryRpc) : result f64 :=
  relayfee ← qr_relayfee daemon; Ok (f64_mul relayfee (f64_of_Z 100000)).

(** ** Transaction status *)

Record TransactionStatus := mkTxStatus {
  ts_confirmed : bool; ts_block_height : option nat;
  ts_block_hash : option BlockHash; ts_block_time : option Z }.
Definition TransactionStatus_from (blockid : option BlockId) : TransactionStatus :=
  match blockid with
  | Some b => mkTxStatus true (Some (bid_height b)) (Some (bid_hash b)) (Some (bid_time b))
  | None => mkTxStatus false None None None
  end.

(** ** [Query] *)

(** The part of [Config] that is read here. *)
Record QueryConfig := mkQueryConfig { utxos_limit : Z; network_type : Network }.

Record Query (D : Type) := mkQuery {
  q_chain : ChainQuery D;
  q_mempool : Mempool;
  cached_estimates : gmap Z f64 * option Z;
  cached_relayfee : option f64 }.
Arguments mkQuery {D} _ _ _ _.
Arguments q_chain {D} _. Arguments q_mempool {D} _.
Arguments cached_estimates {D} _. Arguments cached_relayfee {D} _.

Section query.
Context {D : Type} {RDB : RocksDB D} {BL : BitcoinLib} {W : Wincode}.
Context (config : QueryConfig) (mconfig : MempoolConfig).
Implicit Types (s : Query D).

Definition query_new (chain : ChainQuery D) (mempool : Mempool) : Query D :=
  mkQuery chain mempool (∅, None) None.

Definition set_chain_cache s (c : D) : Query D :=
  mkQuery (with_cache (q_chain s) c) (q_mempool s) (cached_estimates s) (cached_relayfee s).
Definition set_mempool s (m : Mempool) : Query D :=
  mkQuery (q_chain s) m (cached_estimates s) (cached_relayfee s).
Definition set_estimates s (e : gmap Z f64 * option Z) : Query D :=
  mkQuery (q_chain s) (q_mempool s) e (cached_relayfee s).
Definition set_relayfee s (f : f64) : Query D :=
  mkQuery (q_chain s) (q_mempool s) (cached_estimates s) (Some f).

(** Errors of adding to the mempool are ignored, panics are not. *)
Definition broadcast_raw (daemon : QueryRpc) (txhex : Bytes) : SR (Query D) Txid := fun s =>
  match qr_sendrawtransaction daemon txhex with
  | Ok txid =>
      match add_by_txid mconfig (q_chain s) (qr_mempool daemon) txid (q_mempool s) with
      | (m, Ok _) | (m, Err _) => (set_mempool s m, Ok txid)
      | (m, Panic) => (set_mempool s m, Panic)
      | (m, Diverge) => (set_mempool s m, Diverge)
      end
  | Err e => (s, Err e)
  | Panic => (s, Panic)
  | Diverge => (s, Diverge)
  end.

Definition utxo (scripthash : FullHash) : SR (Query D) (list Utxo) :=
  r ← (fun s => (s, ChainQuery.utxo (q_chain s) scripthash (utxos_limit config)));
  _ ← modify (fun s => set_chain_cache s r.2);
  mempool ← gets q_mempool;
  mret (filter (fun u => has_spend mempool (mkOutPoint (ut_txid u) (ut_vout u)) = false) r.1
        ++ Mempool.utxo mempool scripthash).

(** [limit - confirmed_len] in [usize]. *)
Definition history_txids s (scripthash : FullHash) (limit : nat) : result (list (Txid * option BlockId)) :=
  confirmed_txids ← ChainQuery.history_txids (q_chain s) scripthash limit;
  rest ← (if decide (length confirmed_txids <= limit) then Ok (limit - length confirmed_txids) else Panic);
  let mempool_txids := Mempool.history_txids (q_mempool s) scripthash rest in
  Ok (map (fun p => (p.1, Some p.2)) confirmed_txids ++ map (fun tx => (tx, None)) mempool_txids).

Definition stats (scripthash : FullHash) : SR (Query D) (ScriptStats * ScriptStats) :=
  r ← (fun s => (s, ChainQuery.stats (q_chain s) scripthash));
  _ ← modify (fun s => set_chain_cache s r.2);
  mempool ← gets q_mempool;
  mret (r.1, Mempool.stats mempool scripthash).

(** [a.or_else(|| b)] *)
Definition or_else {A} (r : result (option A)) (b : option A) : result (option A) :=
  o ← r; Ok (match o with Some a => Some a | None => b end).
Definition lookup_txn s (txid : Txid) : result (option Transaction) :=
  or_else (ChainQuery.lookup_txn (q_chain s) txid None) (Mempool.lookup_txn (q_mempool s) txid).
Definition lookup_raw_txn s (txid : Txid) : result (option Bytes) :=
  or_else (ChainQuery.lookup_raw_txn (q_chain s) txid None) (Mempool.lookup_raw_txn (q_mempool s) txid).
Definition lookup_txos s (outpoints : gset OutPoint) : result (gmap OutPoint TxOut) :=
  Mempool.lookup_txos (q_chain s) (txstore (q_mempool s)) outpoints.
Definition lookup_spend s (outpoint : OutPoint) : result (option SpendingInput) :=
  or_else (ChainQuery.lookup_spend (q_chain s) outpoint) (Mempool.lookup_spend (q_mempool s) outpoint).
Definition lookup_tx_spends s (tx : Transaction) : result (list (option SpendingInput)) :=
  rmap (fun '(vout, txout) =>
      if is_spendable txout
      then lookup_spend s (mkOutPoint (get_txid tx) (as_u32 (Z.of_nat vout)))
      else Ok None) (enumerate (tx_output tx)).
Definition get_tx_status s (txid : Txid) : result TransactionStatus :=
  b ← tx_confirming_block (q_chain s) txid; Ok (TransactionStatus_from b).

(** ** Fee estimates *)

Definition get_relayfee (daemon : QueryRpc) : SR (Query D) f64 := fun s =>
  match cached_relayfee s with
  | Some cached => (s, Ok cached)
  | None =>
      match daemon_relayfee daemon with
      | Ok relayfee => (set_relayfee s relayfee, Ok relayfee)
      | r => (s, r)
      end
  end.

Definition update_fee_estimates (daemon : QueryRpc) (later : Z) : SR (Query D) unit := fun s =>
  match estimatesmartfee_batch daemon CONF_TARGETS with
  | Ok estimates => (set_estimates s (estimates, Some later), Ok tt)
  | Err _ => (s, Ok tt)
  | Panic => (s, Panic)
  | Diverge => (s, Diverge)
  end.

(** [cache_time.elapsed() < Duration::from_secs(FEE_ESTIMATES_TTL)] *)
Definition estimates_fresh s (now : Z) : bool :=
  match (cached_estimates s).2 with
  | Some cache_time => (now - cache_time <? FEE_ESTIMATES_TTL * 1000000000)%Z
  | None => false
  end.
Definition estimate_fee (daemon : QueryRpc) (now later conf_target : Z) : SR (Query D) (option f64) :=
  if is_regtest (network_type config) then
    (fun s => let '(s', r) := get_relayfee daemon s in (s', ok r))
  else
    fresh ← gets (fun s => estimates_fresh s now);
    _ ← (if (fresh : bool) then mret tt else update_fee_estimates daemon later);
    gets (fun s => (cached_estimates s).1 !! conf_target).
Definition estimate_fee_map (daemon : QueryRpc) (now later : Z) : SR (Query D) (gmap Z f64) :=
  fresh ← gets (fun s => estimates_fresh s now);
  _ ← (if (fresh : bool) then mret tt else update_fee_estimates daemon later);
  gets (fun s => (cached_estimates s).1).
End query.
