(* ===== verification/QueryFacts.v ===== *)
(** * What the combined queries answer

    The client side of the interfaces: the chain of a synced store and a mempool whose
    indexes are those of a set of accepted transactions.  From the lemmas of the two
    components follow the combined unspent outputs, histories and spends, what
    broadcasting does, and the life of the fee cache. *)

From Stdlib Require Import SpecFloat.
From S2P Require Import Prelude Iter RocksDB DB Bitcoin HeaderList Rows Fetch Fees.
From S2P Require Import Indexer IndexerSync ChainQuery ChainView ChainBlocks ChainHistory.
From S2P Require Import ScriptStats ScriptUtxo.
From S2P Require Import Mempool MempoolIndex MempoolUpdate MempoolQueries Query.

Section combined.
Context {D : Type} {RDB : RocksDB D} {RDBL : RocksDBLaws D}.
Context {BL : BitcoinLib} {BLaws : BitcoinLaws} {W : Wincode} {WL : WincodeLaws}.
Context (cfg : IndexerConfig) (block_of : BlockHash -> Block).
Context (config : QueryConfig) (mconfig : MempoolConfig).
Implicit Types s : Query D.

(** ** Unspent outputs *)

(** An output the events of the chain create and do not spend. *)
Definition chain_unspent (rows : EventList) (o : OutPoint) (b : BlockId) (v : Z) : Prop :=
  (exists p, p ∈ rows /\ is_funding p = true /\ get_funded_outpoint (txinfo p.1) = o /\
     p.2 = b /\ info_value (txinfo p.1) = v) /\
  (forall e, e ∈ rows -> is_funding e = false -> get_funded_outpoint (txinfo e.1) <> o).
(** The outputs that nothing known spends, confirmed or not. *)
Definition spendable_now (rows : EventList) (A : gmap Txid (Transaction * gmap Z TxOut)) sh (u : Utxo) : Prop :=
  exists o, (forall t i, ~ spends A t i o) /\
    ((exists b v, u = mkUtxo (op_txid o) (op_vout o) (Some b) v /\ chain_unspent rows o b v) \/
     (exists v, u = mkUtxo (op_txid o) (op_vout o) None v /\ funds mconfig A sh o v)).

Lemma has_spend_false m A o :
  edges_exact m A -> has_spend m o = false <-> forall t i, ~ spends A t i o.
Proof.
  intros He. unfold has_spend. rewrite bool_decide_eq_false. split.
  - intros Hn t i Hs. apply Hn. apply (He o t i) in Hs. by eexists.
  - intros Hn [[t i] Hx]. by apply (Hn t i), He.
Qed.

Lemma utxo_eq s sh :
  utxo config sh s =
    match ChainQuery.utxo (q_chain s) sh (utxos_limit config) with
    | Ok r => (set_chain_cache s r.2,
        Ok (filter (fun u => has_spend (q_mempool s) (mkOutPoint (ut_txid u) (ut_vout u)) = false) r.1
            ++ Mempool.utxo (q_mempool s) sh))
    | Err e => (s, Err e) | Panic => (s, Panic) | Diverge => (s, Diverge)
    end.
Proof.
  unfold utxo, mbind, SR_bind, modify, gets, mret, SR_ret.
  by destruct (ChainQuery.utxo (q_chain s) sh (utxos_limit config)).
Qed.

(** C20: The unspent outputs of a script are its outputs on the best chain that no
    block and no accepted mempool transaction spends, each with its block, together
    with the unspent outputs of accepted mempool transactions.  The query fails only
    with one of the limit errors, then without any change, and otherwise changes
    nothing but the chain's cache, which stays valid. *)
Theorem query_utxo_exact s A sh rows :
  query_synced cfg block_of (q_chain s) -> history_view cfg block_of (q_chain s) sh rows ->
  tx_ordered (chain_of block_of (q_chain s)) ->
  (Z.of_nat (length (headers (cq_headers (q_chain s)))) < u32_mod)%Z ->
  utxo_cache_ok (q_chain s) sh rows ->
  refines mconfig (q_mempool s) A -> edges_exact (q_mempool s) A ->
  match utxo config sh s with
  | (s', Ok l) => (forall u, u ∈ l <-> spendable_now rows A sh u) /\
      utxo_cache_ok (q_chain s') sh rows /\
      exists c, s' = set_chain_cache s c
  | (s', Err e) => s' = s /\
      (e = TooManyUtxos (utxos_limit config) \/ e = TooManyTxs (wrap64 (utxos_limit config * 500)))
  | _ => False
  end.
Proof.
  intros Hs Hv Ht Hlen Hc Hr He. rewrite utxo_eq. unfold ChainQuery.utxo.
  destruct (utxo_set_unspent cfg block_of (q_chain s) sh rows (utxos_limit config) Hs Hv Ht Hlen Hc) as [_ Hres].
  destruct (utxo_set (q_chain s) sh (utxos_limit config)) as [[m c]|e| |]; cbn [mbind result_bind]; [|exact (conj eq_refl Hres)|done..].
  destruct Hres as [Hu Hc']. cbn [fst snd].
  split; [|split; [done|by exists c]]. intros u. unfold spendable_now.
  rewrite elem_of_app, list_elem_of_filter, elem_of_map, (has_spend_false _ A) by done.
  rewrite (mempool_utxo_elem mconfig _ A sh u Hr He). split.
  - intros [[Hn ([o [b v]] & -> & Hin%elem_of_map_to_list)]|(o & v & -> & Hf & Hn)].
    + exists o. split; [by destruct o|]. left. exists b, v. split; [done|]. by apply Hu.
    + exists o. eauto.
  - intros (o & Hn & [(b & v & -> & Hin)|(v & -> & Hf)]).
    + left. split; [by destruct o|]. exists (o, (b, v)). split; [done|]. apply elem_of_map_to_list. by apply Hu.
    + right. eauto.
Qed.

(** ** Histories *)

(** The combined history of a script is the list of its confirmed transactions,
    oldest block first, followed by those of the mempool, cut off after [limit]: the
    limit passed on to the mempool never underflows, and a transaction is reported
    with its block exactly when it is on the best chain. *)
Lemma query_history_txids s A sh :
  query_synced cfg block_of (q_chain s) -> refines mconfig (q_mempool s) A ->
  exists (L : list (Txid * BlockId)) (U : list Txid),
    NoDup L.*1 /\ NoDup U /\
    (forall txid b, (txid, b) ∈ L <-> exists p, script_event cfg block_of (q_chain s) sh p /\
       row_get_txid p.1 = txid /\ p.2 = b) /\
    (forall txid, txid ∈ U <-> exists p e, A !! txid = Some p /\ (sh, e) ∈ tx_entries mconfig txid p) /\
    StronglySorted (fun i i' => bid_height i.2 <= bid_height i'.2) L /\
    forall limit, history_txids s sh limit =
      Ok (take limit (map (fun p => (p.1, Some p.2)) L ++ map (fun tx => (tx, None)) U)).
Proof.
  intros Hs Hr. destruct (history_txids_oldest_first cfg block_of (q_chain s) sh Hs) as (L & Hnd & HL & Hsort & Hh).
  exists L, (script_txids (q_mempool s) sh). split; [done|]. split; [apply script_txids_NoDup|].
  split; [done|]. split; [intros txid; by apply script_txids_elem|]. split; [done|].
  intros limit. unfold history_txids. rewrite Hh. cbn [mbind result_bind].
  rewrite length_take, decide_True by lia. cbn [mbind result_bind]. f_equal.
  assert (forall n, Mempool.history_txids (q_mempool s) sh n = take n (script_txids (q_mempool s) sh)) as ->.
  { intros n. unfold Mempool.history_txids, script_txids, entries_of. destruct (mp_history _ !! sh); [done|by destruct n]. }
  rewrite take_app, length_map. change (map ?f ?l) with (f <$> l). rewrite !fmap_take. do 2 f_equal. lia.
Qed.

(** ** Spends *)

(** What may be reported as the spend of an output. *)
Definition reported_spend s A (o : OutPoint) (r : option SpendingInput) : Prop :=
  match r with
  | Some sp => chain_spend block_of (q_chain s) o sp \/
      ((forall sp', ~ chain_spend block_of (q_chain s) o sp') /\
       spends A (si_txid sp) (si_vin sp) o /\ si_confirmed sp = None)
  | None => (forall sp, ~ chain_spend block_of (q_chain s) o sp) /\ (forall t i, ~ spends A t i o)
  end.
Lemma lookup_spend_reported s A o :
  query_synced cfg block_of (q_chain s) -> edges_exact (q_mempool s) A -> is_u32 (op_vout o) ->
  exists r, lookup_spend s o = Ok r /\ reported_spend s A o r.
Proof.
  intros Hs He Ho. unfold lookup_spend, or_else, Mempool.lookup_spend.
  destruct (lookup_spend_chain cfg block_of (q_chain s) o Hs Ho) as [(sp & -> & Hsp)|[-> Hn]]; cbn [mbind result_bind].
  - exists (Some sp). split; [done|by left].
  - destruct (edges (q_mempool s) !! o) as [[t v]|] eqn:E; cbn.
    + exists (Some (mkSpendingInput t v None)). split; [done|]. right. split; [done|]. split; [|done]. by apply He.
    + exists None. split; [done|]. split; [done|]. intros t i Hx%He. congruence.
Qed.

(** For every output of a transaction the spends query reports one answer: none
    for an unspendable output, the confirmed spend when the best chain spends it, the
    mempool's spend when only an accepted transaction does, and none otherwise. *)
Lemma lookup_tx_spends_exact s A tx :
  query_synced cfg block_of (q_chain s) -> edges_exact (q_mempool s) A ->
  (Z.of_nat (length (tx_output tx)) < u32_mod)%Z ->
  exists l, lookup_tx_spends s tx = Ok l /\ length l = length (tx_output tx) /\
    forall vout txo, tx_output tx !! vout = Some txo ->
      exists r, l !! vout = Some r /\
        if is_spendable txo then reported_spend s A (mkOutPoint (get_txid tx) (Z.of_nat vout)) r else r = None.
Proof.
  intros Hs He Hlen. unfold lookup_tx_spends. set (f := fun '(vout, txout) => _).
  assert (forall vout txo, tx_output tx !! vout = Some txo -> exists r, f (vout, txo) = Ok r /\
    if is_spendable txo then reported_spend s A (mkOutPoint (get_txid tx) (Z.of_nat vout)) r else r = None) as Hf.
  { intros vout txo Hv. apply lookup_lt_Some in Hv. assert (is_u32 (Z.of_nat vout)) as Hu by (unfold is_u32; lia).
    unfold f. destruct (is_spendable txo); [|by exists None]. rewrite as_u32_id by done. by apply lookup_spend_reported. }
  destruct (rmap_total f (enumerate (tx_output tx))) as [l Hl].
  { intros [vout txo] Hin%enumerate_elem. destruct (Hf _ _ Hin) as (r & -> & _). by exists r. }
  exists l. rewrite Hl. split; [done|]. apply rmap_Ok_Forall2 in Hl. split.
  - apply Forall2_length in Hl. unfold enumerate in Hl. by rewrite length_imap in Hl.
  - intros vout txo Hv. destruct (Hf _ _ Hv) as (r & Hr & Hspec).
    assert (enumerate (tx_output tx) !! vout = Some (vout, txo)) as Hi.
    { unfold enumerate. by rewrite list_lookup_imap, Hv. }
    destruct (Forall2_lookup_l _ _ _ _ _ Hl Hi) as (r' & Hr' & Hfr). exists r'. split; [done|].
    rewrite Hr in Hfr. by injection Hfr as <-.
Qed.

(** ** Broadcasting *)

(** A broadcast answers what bitcoind answered: the id when it took the
    transaction, whether or not the mempool could index it, and its error otherwise.
    Only the mempool changes, nothing leaves it, and its indexes stay those of a set
    of accepted transactions. *)
Lemma broadcast_follows_bitcoind s A daemon txhex :
  query_synced cfg block_of (q_chain s) -> refines mconfig (q_mempool s) A ->
  rpc_replies (qr_mempool daemon) ->
  match qr_sendrawtransaction daemon txhex with
  | Ok txid => exists m' A', broadcast_raw mconfig daemon txhex s = (set_mempool s m', Ok txid) /\
      refines mconfig m' A' /\ dom (txstore (q_mempool s)) ⊆ dom (txstore m')
  | Err e => broadcast_raw mconfig daemon txhex s = (s, Err e)
  | _ => True
  end.
Proof.
  intros Hs Hr Hd. unfold broadcast_raw. destruct (qr_sendrawtransaction daemon txhex) as [txid|e| |]; try done.
  destruct (add_by_txid_ok mconfig (q_chain s) (chain_avail (q_chain s)) (qr_mempool daemon) txid (q_mempool s) A)
    as (m' & A' & r & -> & Hok & Hr' & Hsub); [|done..|].
  { intros o. by eapply chain_avail_ok. }
  exists m', A'. by destruct Hok as [->|[e ->]].
Qed.
End combined.

(** ** The fee cache *)

Section fee_cache.
Context {D : Type} {RDB : RocksDB D} {BL : BitcoinLib} {W : Wincode}.
Context (config : QueryConfig) (mconfig : MempoolConfig).
Implicit Types s : Query D.

(** The operations of a query that change its state, and sequences of them.  The log
    is the list of the estimates fetched, newest first. *)
Inductive QueryOp :=
  | OpEstimate (daemon : QueryRpc) (now later conf_target : Z)
  | OpEstimateMap (daemon : QueryRpc) (now later : Z)
  | OpRelayfee (daemon : QueryRpc)
  | OpBroadcast (daemon : QueryRpc) (txhex : Bytes)
  | OpUtxo (scripthash : FullHash)
  | OpStats (scripthash : FullHash).
Definition run_op (op : QueryOp) s : Query D :=
  match op with
  | OpEstimate daemon now later target => (estimate_fee config daemon now later target s).1
  | OpEstimateMap daemon now later => (estimate_fee_map daemon now later s).1
  | OpRelayfee daemon => (get_relayfee daemon s).1
  | OpBroadcast daemon txhex => (broadcast_raw mconfig daemon txhex s).1
  | OpUtxo sh => (utxo config sh s).1
  | OpStats sh => (stats sh s).1
  end.
Definition asks s (daemon : QueryRpc) (now later : Z) : list (Z * gmap Z f64) :=
  if estimates_fresh s now then []
  else match estimatesmartfee_batch daemon CONF_TARGETS with Ok e => [(later, e)] | _ => [] end.
Definition fetched (op : QueryOp) s : list (Z * gmap Z f64) :=
  match op with
  | OpEstimate daemon now later _ => if is_regtest (network_type config) then [] else asks s daemon now later
  | OpEstimateMap daemon now later => asks s daemon now later
  | _ => []
  end.
Fixpoint run_ops (ops : list QueryOp) s (log : list (Z * gmap Z f64)) : Query D * list (Z * gmap Z f64) :=
  match ops with
  | [] => (s, log)
  | op :: ops => run_ops ops (run_op op s) (fetched op s ++ log)
  end.

Definition clock_ok (op : QueryOp) : Prop :=
  match op with
  | OpEstimate _ now later _ | OpEstimateMap _ now later => (now <= later)%Z
  | _ => True
  end.
Definition spaced (new old : Z * gmap Z f64) : Prop := (old.1 + FEE_ESTIMATES_TTL * 1000000000 <= new.1)%Z.

(** A table of estimates: for each target the rate of bitcoind's reply to it in
    sat/vB, where the reply has no errors and its rate is not -1. *)
Definition estimate_table (e : gmap Z f64) : Prop :=
  exists replies : list FeeReply, forall t v, e !! t = Some v <-> exists i reply f,
    CONF_TARGETS !! i = Some t /\ replies !! i = Some reply /\
    fr_errors_null reply = true /\ fr_feerate reply = Some f /\
    f64_eq f (f64_of_Z (-1)) = false /\ v = f64_mul f (f64_of_Z 100000).

Lemma filter_map_collect (l : list (FeeReply * Z)) ys :
  it_collect (it_filter_map estimate_reply (it_of l)) = Ok ys ->
  forall y, y ∈ ys <-> exists p, p ∈ l /\ estimate_reply p = Ok (Some y).
Proof.
  revert ys. unfold it_collect. induction l as [|p l IH]; intros ys; cbn [it_of map it_filter_map rmap].
  { intros [= <-] y. set_solver. }
  cbn [mbind result_bind].
  destruct (estimate_reply p) as [[z|]|e| |] eqn:E; cbn [rmap id mbind result_bind]; try done.
  - fold (it_of l). destruct (rmap id (it_filter_map estimate_reply (it_of l))) as [zs| | |]; try done.
    intros [= <-] y. rewrite elem_of_cons, (IH zs eq_refl y). split.
    + intros [->|(p' & Hp & He)]; [exists p|exists p']; (split; [|done]); by constructor.
    + intros (p' & [->|Hp]%elem_of_cons & He); [left; congruence|right; eauto].
  - intros Hr y. rewrite (IH ys Hr y). split.
    + intros (p' & Hp & He). exists p'. split; [by right|done].
    + intros (p' & [->|Hp]%elem_of_cons & He); [congruence|eauto].
Qed.
Lemma collect_map_lookup (l : list (Z * f64)) t v :
  (forall w w', (t, w) ∈ l -> (t, w') ∈ l -> w = w') -> collect_map l !! t = Some v <-> (t, v) ∈ l.
Proof.
  unfold collect_map. induction l as [|[k w] l IH] using rev_ind; intros Hf; cbn.
  { rewrite lookup_empty. set_solver. }
  rewrite fold_left_app. cbn. rewrite elem_of_app, list_elem_of_singleton.
  destruct (decide (k = t)) as [->|Hk].
  - rewrite lookup_insert_eq. split; [intros [= ->]; by right|].
    intros Hin. f_equal. apply (Hf w v); [set_solver|]. rewrite elem_of_app, list_elem_of_singleton. tauto.
  - rewrite lookup_insert_ne by done. rewrite IH; [split; [tauto|intros [|[= -> ->]]; done]|].
    intros w0 w1 H0 H1. apply Hf; set_solver.
Qed.
Lemma batch_table daemon e :
  estimatesmartfee_batch daemon CONF_TARGETS = Ok e -> estimate_table e.
Proof.
  unfold estimatesmartfee_batch. destruct (qr_estimatesmartfee daemon CONF_TARGETS) as [replies| | |]; try done.
  cbn [mbind result_bind]. destruct (it_collect _) as [ys| | |] eqn:Ec; try done. cbn. intros [= <-].
  pose proof (filter_map_collect _ _ Ec) as Hys.
  assert (forall t v, (t, v) ∈ ys <-> exists i reply f,
    CONF_TARGETS !! i = Some t /\ replies !! i = Some reply /\
    fr_errors_null reply = true /\ fr_feerate reply = Some f /\
    f64_eq f (f64_of_Z (-1)) = false /\ v = f64_mul f (f64_of_Z 100000)) as Hspec.
  { intros t v. rewrite Hys. split.
    - intros ([reply tgt] & (i & Hi)%list_elem_of_lookup & He). apply lookup_zip_Some in Hi as [Hr Ht].
      unfold estimate_reply in He. destruct (fr_errors_null reply) eqn:En; [|done]. cbn [negb] in He.
      destruct (fr_feerate reply) as [f|] eqn:Ef; [|done]. cbn [mbind result_bind unwrap] in He.
      destruct (f64_eq f _) eqn:Em; [done|]. injection He as -> <-. exists i, reply, f. done.
    - intros (i & reply & f & Ht & Hr & En & Ef & Em & ->). exists (reply, t). split.
      + apply list_elem_of_lookup. exists i. by apply lookup_zip_Some.
      + unfold estimate_reply. rewrite En, Ef. cbn [negb mbind result_bind unwrap]. by rewrite Em. }
  exists replies. intros t v. rewrite <- Hspec. apply collect_map_lookup.
  intros w w' (i & r & f & Hi & Hr & _ & Hf & _ & ->)%Hspec (j & r' & f' & Hj & Hr' & _ & Hf' & _ & ->)%Hspec.
  assert (NoDup CONF_TARGETS) as Hnd by vm_decide.
  pose proof (NoDup_lookup _ _ _ _ Hnd Hi Hj) as ->. congruence.
Qed.

(** The cache is the newest entry of the log. *)
Definition cache_of (log : list (Z * gmap Z f64)) : gmap Z f64 * option Z :=
  match log with [] => (∅, None) | (t, e) :: _ => (e, Some t) end.
Record fee_inv s (log : list (Z * gmap Z f64)) : Prop := {
  fi_cache : cached_estimates s = cache_of log;
  fi_spaced : StronglySorted spaced log;
  fi_tables : Forall (fun p => estimate_table p.2) log;
}.

(** Asking for estimates, as both queries do. *)
Definition after_asking s (daemon : QueryRpc) (now later : Z) : Query D :=
  if estimates_fresh s now then s else (update_fee_estimates daemon later s).1.
Lemma asking_inv s log daemon now later :
  fee_inv s log -> (now <= later)%Z -> fee_inv (after_asking s daemon now later) (asks s daemon now later ++ log).
Proof.
  intros Hi Hc. pose proof Hi as [Hcache Hsp Ht].
  unfold after_asking, asks, update_fee_estimates. destruct (estimates_fresh s now) eqn:Ef; [done|].
  destruct (estimatesmartfee_batch daemon CONF_TARGETS) as [e| | |] eqn:Eb; cbn; try done.
  unfold estimates_fresh in Ef. rewrite Hcache in Ef.
  split; cbn; [done| |constructor; [by eapply batch_table|done]].
  constructor; [done|]. destruct log as [|[t e0] log]; [constructor|]. cbn in Ef. apply Z.ltb_ge in Ef.
  apply StronglySorted_cons in Hsp as [Hf _]. unfold spaced in *. cbn in *.
  constructor; [cbn; lia|]. eapply Forall_impl; [exact Hf|]. intros [t' e'] H. cbn in *.
  unfold FEE_ESTIMATES_TTL in *. lia.
Qed.
Lemma estimate_fee_state daemon now later target s :
  is_regtest (network_type config) = false ->
  (estimate_fee config daemon now later target s).1 = after_asking s daemon now later.
Proof.
  intros Hr. unfold estimate_fee, after_asking. rewrite Hr. unfold mbind, SR_bind, gets, mret, SR_ret.
  destruct (estimates_fresh s now); [done|]. unfold update_fee_estimates.
  by destruct (estimatesmartfee_batch daemon CONF_TARGETS).
Qed.
Lemma estimate_map_state daemon now later s :
  (estimate_fee_map daemon now later s).1 = after_asking s daemon now later.
Proof.
  unfold estimate_fee_map, after_asking. unfold mbind, SR_bind, gets, mret, SR_ret.
  destruct (estimates_fresh s now); [done|]. unfold update_fee_estimates.
  by destruct (estimatesmartfee_batch daemon CONF_TARGETS).
Qed.
(** The other operations leave the estimates alone. *)
Lemma relayfee_estimates daemon s : cached_estimates (get_relayfee daemon s).1 = cached_estimates s.
Proof. unfold get_relayfee. destruct (cached_relayfee s); [done|]. by destruct (daemon_relayfee daemon). Qed.
Lemma run_op_inv op s log :
  fee_inv s log -> clock_ok op -> fee_inv (run_op op s) (fetched op s ++ log).
Proof.
  intros Hi Hc. destruct op as [d now later t|d now later|d|d hex|sh|sh]; cbn [run_op fetched app] in *.
  - destruct (is_regtest (network_type config)) eqn:Er.
    + unfold estimate_fee. rewrite Er. destruct Hi as [? ? ?].
      pose proof (relayfee_estimates d s) as He. destruct (get_relayfee d s). cbn in *. split; congruence || done.
    + rewrite estimate_fee_state by done. by apply asking_inv.
  - rewrite estimate_map_state. by apply asking_inv.
  - destruct Hi as [? ? ?]. split; try done. by rewrite relayfee_estimates.
  - destruct Hi as [? ? ?]. split; try done. unfold broadcast_raw.
    destruct (qr_sendrawtransaction d hex); try done.
    by destruct (add_by_txid _ _ _ _ _) as [m [| | |]].
  - destruct Hi as [? ? ?]. split; try done. rewrite utxo_eq. by destruct (ChainQuery.utxo _ _ _).
  - destruct Hi as [? ? ?]. split; try done. unfold stats, mbind, SR_bind, modify, gets, mret, SR_ret.
    by destruct (ChainQuery.stats _ _).
Qed.

Lemma run_ops_inv ops s log :
  fee_inv s log -> Forall clock_ok ops -> fee_inv (run_ops ops s log).1 (run_ops ops s log).2.
Proof.
  intros Hi Hc. revert s log Hi. induction Hc as [|op ops Ho _ IH]; intros s log Hi; [done|].
  cbn [run_ops]. by apply IH, run_op_inv.
Qed.

(** Through any sequence of queries, the cached fee estimates are the newest table
    fetched from bitcoind; tables are fetched at least sixty seconds apart; each holds,
    for the targets bitcoind could estimate, its rate in sat/vB and nothing else; and
    while the newest table is younger than sixty seconds every estimate is read from
    it without asking bitcoind or changing anything. *)
Lemma fee_estimates_rate_limited chain mempool ops :
  Forall clock_ok ops ->
  let '(s, log) := run_ops ops (query_new chain mempool) [] in
  cached_estimates s = cache_of log /\ StronglySorted spaced log /\
  Forall (fun p => estimate_table p.2) log /\
  (forall t e log', log = (t, e) :: log' -> is_regtest (network_type config) = false ->
    forall daemon now later target, (now - t < FEE_ESTIMATES_TTL * 1000000000)%Z ->
      estimate_fee config daemon now later target s = (s, Ok (e !! target)) /\
      estimate_fee_map daemon now later s = (s, Ok e)).
Proof.
  intros Hc. pose proof (run_ops_inv ops (query_new chain mempool) []) as Hinv.
  destruct (run_ops ops (query_new chain mempool) []) as [s log]. cbn [fst snd] in Hinv.
  destruct Hinv as [Hcache Hsp Ht]; [by split; try constructor|done|].
  split; [done|]. split; [done|]. split; [done|]. intros t e log' -> Hr daemon now later target Hn.
  assert (estimates_fresh s now = true) as Hf.
  { unfold estimates_fresh. rewrite Hcache. cbn. by apply Z.ltb_lt. }
  unfold estimate_fee, estimate_fee_map, mbind, SR_bind, gets, mret, SR_ret.
  rewrite Hr, Hf, Hcache. done.
Qed.
End fee_cache.

(** ** Witnesses *)

Lemma ex_both_exist : exists (s : Query KvMap) A,
  @query_synced KvMap _ ExampleLib FixintWincode ex_cfg ex_block_of (q_chain s) /\
  cq_headers (q_chain s) = ex_hl /\ cache_db (cq_store (q_chain s)) = rdb_empty /\
  @refines ExampleLib ex_mcfg (q_mempool s) A /\ edges_exact (q_mempool s) A /\
  dom (txstore (q_mempool s)) = {[pack_hash 71; pack_hash 72]}.
Proof.
  destruct ex_query_exists as (q & Hq & Hhl & Hcache & _), ex_pool_exists as (m & A & Hr & He & Hd).
  exists (query_new q m), A. done.
Qed.
Definition ex_qcfg : QueryConfig := mkQueryConfig 500 Bitcoin.
Lemma query_utxo_exact_witness :
  exists (s : Query KvMap) A rows,
    match @utxo KvMap _ FixintWincode ex_qcfg ex_script s with
    | (_, Ok l) => forall u, u ∈ l <-> @spendable_now ExampleLib ex_mcfg rows A ex_script u
    | (_, Err e) => e = TooManyUtxos 500 \/ e = TooManyTxs 250000
    | _ => False
    end.
Proof.
  destruct ex_both_exist as (s & A & Hq & Hhl & Hcache & Hr & He & _).
  destruct (@history_view_exists KvMap _ _ ExampleLib FixintWincode FixintWincode_laws ex_cfg ex_block_of
    (q_chain s) ex_script Hq) as (rows & Hv).
  exists s, A, rows.
  unshelve epose proof (@query_utxo_exact KvMap _ _ ExampleLib ExampleLib_laws FixintWincode FixintWincode_laws
    ex_cfg ex_block_of ex_qcfg ex_mcfg s A ex_script rows Hq Hv _ _ _ Hr He) as H.
  - by apply ex_tx_ordered.
  - rewrite Hhl. vm_compute. reflexivity.
  - intros c. unfold db_get. rewrite Hcache, get_empty. done.
  - destruct (utxo ex_qcfg ex_script s) as [s' [l|e| |]]; [exact (proj1 H)|exact (proj2 H)|exact H|exact H].
Defined.
Lemma lookup_tx_spends_exact_witness :
  exists (s : Query KvMap) A r,
    @lookup_tx_spends KvMap _ ExampleLib FixintWincode s (ex_coinbase 101 [118; 1]%Z) = Ok [r] /\
    @reported_spend KvMap ExampleLib ex_block_of s A (mkOutPoint (pack_hash 101) 0) r.
Proof.
  destruct ex_both_exist as (s & A & Hq & _ & _ & _ & He & _).
  destruct (@lookup_tx_spends_exact KvMap _ _ ExampleLib FixintWincode FixintWincode_laws ex_cfg ex_block_of
    s A (ex_coinbase 101 [118; 1]%Z) Hq He eq_refl) as (l & Hl & Hlen & Hspec).
  destruct (Hspec 0 _ eq_refl) as (r & Hr & Hrep). exists s, A, r. destruct l as [|r' [|]]; try discriminate Hlen.
  injection Hr as ->. split; [exact Hl|exact Hrep].
Defined.
(** Bitcoind takes the child transaction and serves it back. *)
Definition ex_qrpc : QueryRpc := mkQueryRpc
  (mkMempoolRpc (Ok ∅) (fun _ => Ok []) (fun _ => Ok ex_child)) (fun _ => Ok (pack_hash 72))
  (fun targets => Ok (map (fun _ => mkFeeReply true (Some (f64_of_Z 2))) targets)) (Ok (f64_of_Z 1)).
Lemma broadcast_follows_bitcoind_witness :
  exists (s : Query KvMap) m', @broadcast_raw KvMap _ ExampleLib FixintWincode ex_mcfg ex_qrpc [] s
    = (set_mempool s m', Ok (pack_hash 72)).
Proof.
  destruct ex_both_exist as (s & A & Hq & _ & _ & Hr & _).
  destruct (@broadcast_follows_bitcoind KvMap _ ExampleLib ExampleLib_laws FixintWincode ex_cfg ex_block_of
    ex_mcfg s A ex_qrpc [] Hq Hr) as (m' & A' & H & _).
  { intros txid. cbn. pose proof ex_weighty as Hw. inversion Hw as [|? ? _ Hw']. by inversion Hw'. }
  exists s, m'. exact H.
Defined.
(** Two queries seventy seconds apart fetch twice, the one in between does not. *)
Definition ex_fee_ops : list QueryOp :=
  [OpEstimate ex_qrpc 0 1000000000 6; OpEstimateMap ex_qrpc 30000000000 31000000000;
   OpEstimate ex_qrpc 70000000000 71000000000 144].
Lemma fee_estimates_rate_limited_witness :
  exists log, (forall s : Query KvMap, s = query_new (q_chain s) (q_mempool s) ->
    (@run_ops KvMap _ ExampleLib FixintWincode ex_qcfg ex_mcfg ex_fee_ops s []).2 = log) /\
  map fst log = [71000000000; 1000000000]%Z /\ StronglySorted spaced log.
Proof.
  destruct ex_both_exist as (s0 & _).
  exists (@run_ops KvMap _ ExampleLib FixintWincode ex_qcfg ex_mcfg ex_fee_ops
    (query_new (q_chain s0) (q_mempool s0)) []).2.
  assert (Forall clock_ok ex_fee_ops) as Hc by (repeat constructor; cbn; lia).
  pose proof (@fee_estimates_rate_limited KvMap _ ExampleLib FixintWincode ex_qcfg ex_mcfg
    (q_chain s0) (q_mempool s0) ex_fee_ops Hc) as H.
  split; [intros s ->; vm_compute; reflexivity|]. split; [vm_compute; reflexivity|].
  destruct (run_ops _ _ _ _ _) as [s log]. exact (proj1 (proj2 H)).
Defined.
