(* ===== verification/Text.v ===== *)
(** * Text: the parts of [str] that the queue and the allowlist use

    A text is the list of its [char]s (Unicode scalar values); its length in bytes is
    that of its UTF-8 encoding.  [trim], [lines] and [split] are those of the Standard
    Library of Rust.  The theorems about files of lines build on [lines_unlines]: a
    file written line by line reads back as those lines.  The last section has the
    addresses of clients. *)

From S2P Require Import Prelude.

Abbreviation Text := (list Z).

(** [char::is_whitespace]: the code points with the property White_Space. *)
Definition is_whitespace (c : Z) : bool :=
  (((9 <=? c) && (c <=? 13)) || (c =? 32) || (c =? 133) || (c =? 160) || (c =? 5760) ||
   ((8192 <=? c) && (c <=? 8202)) || (c =? 8232) || (c =? 8233) || (c =? 8239) || (c =? 8287) ||
   (c =? 12288))%Z.
(** [str::len] *)
Definition utf8_len (t : Text) : Z :=
  sum_Z (map (fun c => if c <? 128 then 1 else if c <? 2048 then 2 else if c <? 65536 then 3 else 4)%Z t).

Definition trim_start (t : Text) : Text := skip_while is_whitespace t.
Definition trim_end (t : Text) : Text := reverse (skip_while is_whitespace (reverse t)).
Definition trim (t : Text) : Text := trim_end (trim_start t).

(** [str::split(c)]: at least one piece. *)
Fixpoint split_on (c : Z) (t : Text) : list Text :=
  match t with
  | [] => [[]]
  | x :: t =>
      if (x =? c)%Z then [] :: split_on c t
      else match split_on c t with
           | piece :: pieces => (x :: piece) :: pieces
           | [] => [[x]]
           end
  end.

(** [str::split_once(c)] *)
Fixpoint split_once (c : Z) (t : Text) : option (Text * Text) :=
  match t with
  | [] => None
  | x :: t => if (x =? c)%Z then Some ([], t) else (fun p : Text * Text => (x :: p.1, p.2)) <$> split_once c t
  end.
(** [str::lines]: pieces ended by a line feed, without it and without a carriage
    return before it; a last piece that no line feed ends is kept as it is. *)
Definition strip_cr (t : Text) : Text :=
  match reverse t with c :: r => if (c =? 13)%Z then reverse r else t | [] => t end.
Fixpoint lines_go (cur : Text) (t : Text) : list Text :=
  match t with
  | [] => match cur with [] => [] | _ => [reverse cur] end
  | c :: t => if (c =? 10)%Z then strip_cr (reverse cur) :: lines_go [] t else lines_go (c :: cur) t
  end.
Definition lines (t : Text) : list Text := lines_go [] t.
(** Writing lines, each with a line feed. *)
Definition unlines (ls : list Text) : Text := concat (map (fun l => l ++ [10%Z]) ls).

(** ** Trimming *)

Lemma skip_while_app_r {A} (p : A -> bool) a b :
  (exists x, x ∈ a /\ p x = false) -> skip_while p (a ++ b) = skip_while p a ++ b.
Proof.
  induction a as [|y a IH]; intros (x & Hx & Hp); [by apply elem_of_nil in Hx|]. cbn.
  destruct (p y) eqn:Ey; [|done]. apply IH. apply elem_of_cons in Hx as [->|Hx]; [congruence|eauto].
Qed.
Lemma skip_while_all {A} (p : A -> bool) a b : Forall (fun x => p x = true) a -> skip_while p (a ++ b) = skip_while p b.
Proof. induction 1 as [|y a Hy _ IH]; [done|]. cbn. by rewrite Hy. Qed.
Lemma skip_while_idem {A} (p : A -> bool) a : skip_while p (skip_while p a) = skip_while p a.
Proof. induction a as [|y a IH]; [done|]. cbn. destruct (p y) eqn:E; [done|]. cbn. by rewrite E. Qed.
Lemma skip_while_sub {A} (p : A -> bool) a x : x ∈ skip_while p a -> x ∈ a.
Proof. induction a as [|y a IH]; [done|]. cbn. destruct (p y); [|done]. intros H. right. auto. Qed.
Lemma skip_while_empty {A} (p : A -> bool) a : skip_while p a = [] <-> Forall (fun x => p x = true) a.
Proof.
  induction a as [|y a IH]; cbn; [by split; constructor|]. rewrite Forall_cons. destruct (p y); [tauto|].
  split; [done|by intros []].
Qed.

Lemma trim_sub t x : x ∈ trim t -> x ∈ t.
Proof.
  unfold trim, trim_end, trim_start. rewrite elem_of_reverse. intros H%skip_while_sub.
  rewrite elem_of_reverse in H. by apply skip_while_sub in H.
Qed.
(** Trimming at the front and at the back commute. *)
Lemma trim_end_start t : trim_end (trim_start t) = trim_start (trim_end t).
Proof.
  unfold trim_end, trim_start. destruct (decide (Forall (fun x => is_whitespace x = true) t)) as [Hw|Hw].
  - assert (skip_while is_whitespace t = []) as -> by (by apply skip_while_empty).
    assert (skip_while is_whitespace (reverse t) = []) as -> by (apply skip_while_empty; by apply Forall_reverse).
    done.
  - assert (exists pre c suf, t = pre ++ c :: suf /\ Forall (fun x => is_whitespace x = true) pre /\
      is_whitespace c = false) as (pre & c & suf & -> & Hpre & Hc).
    { induction t as [|y t IH]; [destruct Hw; constructor|]. destruct (is_whitespace y) eqn:Ey.
      - destruct IH as (pre & c & suf & -> & Hpre & Hc); [intros Hf; apply Hw; by constructor|].
        exists (y :: pre), c, suf. split; [done|]. split; [by constructor|done].
      - exists [], y, t. split; [done|]. split; [constructor|done]. }
    rewrite skip_while_all by done. cbn [skip_while]. rewrite Hc, reverse_app, !reverse_cons, <- !(assoc app).
    assert (forall b, skip_while is_whitespace (reverse suf ++ [c] ++ b) =
      skip_while is_whitespace (reverse suf ++ [c]) ++ b) as Hs.
    { intros b. rewrite (assoc app). apply skip_while_app_r. exists c. split; [set_solver|done]. }
    rewrite Hs, reverse_app, reverse_involutive. rewrite (skip_while_all _ pre) by done.
    assert (exists r, skip_while is_whitespace (reverse suf ++ [c]) = r ++ [c]) as [r ->].
    { clear -Hc. induction (reverse suf) as [|y l [r IH]]; cbn; [rewrite Hc; by exists []|].
      destruct (is_whitespace y); [by exists r|by exists (y :: l)]. }
    rewrite reverse_app. cbn [app]. cbn. by rewrite Hc.
Qed.
Lemma trim_end_idem t : trim_end (trim_end t) = trim_end t.
Proof. unfold trim_end. by rewrite reverse_involutive, skip_while_idem. Qed.
Lemma trim_start_idem t : trim_start (trim_start t) = trim_start t.
Proof. apply skip_while_idem. Qed.
Lemma trim_idem t : trim (trim t) = trim t.
Proof. unfold trim. by rewrite (trim_end_start t), trim_start_idem, <- (trim_end_start t), trim_end_idem. Qed.
Lemma trim_trim_end t : trim (trim_end t) = trim t.
Proof. unfold trim. by rewrite <- trim_end_start, trim_end_idem. Qed.
Lemma trim_no_space t : Forall (fun c => is_whitespace c = false) t -> trim t = t.
Proof.
  intros H. unfold trim, trim_end, trim_start.
  assert (forall l, Forall (fun c => is_whitespace c = false) l -> skip_while is_whitespace l = l) as Hs.
  { intros l Hl. destruct Hl as [|c l Hc]; [done|]. cbn. by rewrite Hc. }
  rewrite (Hs t) by done. rewrite (Hs (reverse t)) by (by apply Forall_reverse). by rewrite reverse_involutive.
Qed.
Lemma trim_end_snoc t c : is_whitespace c = true -> trim_end (t ++ [c]) = trim_end t.
Proof. intros Hc. unfold trim_end. rewrite reverse_app. cbn. by rewrite Hc. Qed.
(** Trimming a trimmed piece, a separator and a rest trims the rest at its end. *)
Lemma trim_joined a c b :
  trim a = a -> a <> [] -> is_whitespace c = false -> trim (a ++ c :: b) = a ++ c :: trim_end b.
Proof.
  intros Ha Hne Hc. unfold trim. rewrite trim_end_start. unfold trim_end at 1.
  rewrite reverse_app, reverse_cons, <- (assoc app).
  assert (skip_while is_whitespace (reverse b ++ [c] ++ reverse a) =
    skip_while is_whitespace (reverse b) ++ [c] ++ reverse a) as ->.
  { destruct (decide (Forall (fun x => is_whitespace x = true) (reverse b))) as [Hw|Hw].
    - rewrite skip_while_all by done. rewrite (proj2 (skip_while_empty _ _) Hw). cbn. by rewrite Hc.
    - apply skip_while_app_r. apply not_Forall_Exists in Hw; [|intros x; apply _].
      apply Exists_exists in Hw as (x & Hx & Hp). exists x. split; [done|]. by apply not_true_is_false. }
  rewrite !reverse_app, reverse_involutive, <- (assoc app). cbn [app reverse rev_append].
  change (reverse [c]) with [c]. cbn [app]. fold (trim_end b).
  destruct a as [|x a]; [done|].
  assert (trim_start (x :: a) = x :: a) as Hs.
  { rewrite <- Ha at 1. unfold trim. by rewrite trim_end_start, trim_start_idem, <- trim_end_start. }
  unfold trim_start in Hs. cbn in Hs. cbn. destruct (is_whitespace x) eqn:Ex; [|done].
  exfalso. assert (length (skip_while is_whitespace a) <= length a) as Hl.
  { clear. induction a as [|y a IH]; cbn; [lia|]. destruct (is_whitespace y); cbn; lia. }
  rewrite Hs in Hl. cbn in Hl. lia.
Qed.

(** ** Splitting *)

Lemma split_on_none c a : c ∉ a -> split_on c a = [a].
Proof.
  induction a as [|x a IH]; intros Hn; [done|]. cbn. apply not_elem_of_cons in Hn as [Hx Hn].
  rewrite (proj2 (Z.eqb_neq x c)) by done. by rewrite IH.
Qed.
Lemma split_on_app c a b :
  c ∉ a -> exists piece pieces, split_on c b = piece :: pieces /\ split_on c (a ++ b) = (a ++ piece) :: pieces.
Proof.
  induction a as [|x a IH]; intros Hn; cbn.
  - destruct (split_on c b) as [|piece pieces] eqn:E; [|by eexists _, _].
    exfalso. destruct b as [|y b]; cbn in E; [done|]. destruct (y =? c)%Z; [done|]. by destruct (split_on c b).
  - apply not_elem_of_cons in Hn as [Hx Hn]. rewrite (proj2 (Z.eqb_neq x c)) by done.
    destruct IH as (piece & pieces & Hb & ->); [done|]. by exists piece, pieces.
Qed.
Lemma split_on_joined c a b : c ∉ a -> split_on c (a ++ c :: b) = a :: split_on c b.
Proof.
  intros Hn. destruct (split_on_app c a (c :: b) Hn) as (piece & pieces & Hb & ->).
  cbn in Hb. rewrite Z.eqb_refl in Hb. injection Hb as <- <-. by rewrite app_nil_r.
Qed.
Lemma split_once_none c t : c ∉ t -> split_once c t = None.
Proof.
  induction t as [|x t IH]; [done|]. rewrite not_elem_of_cons. intros [Hx Ht]. cbn.
  destruct (Z.eqb_spec x c); [congruence|]. by rewrite IH.
Qed.
Lemma split_once_at c (a b : Text) : c ∉ a -> split_once c (a ++ c :: b) = Some (a, b).
Proof.
  induction a as [|x a IH]; cbn; [by rewrite Z.eqb_refl|]. rewrite not_elem_of_cons. intros [Hx Ha].
  destruct (Z.eqb_spec x c); [congruence|]. by rewrite IH.
Qed.
Lemma split_on_elem c t piece :
  piece ∈ split_on c t -> c ∉ piece /\ (forall x, x ∈ piece -> x ∈ t).
Proof.
  revert piece. induction t as [|y t IH]; intros piece; cbn.
  { rewrite list_elem_of_singleton. intros ->. set_solver. }
  destruct (Z.eqb_spec y c) as [->|Hy].
  - rewrite elem_of_cons. intros [->|[Hc Hp]%IH]; set_solver.
  - destruct (split_on c t) as [|p ps].
    + rewrite list_elem_of_singleton. intros ->. set_solver.
    + rewrite elem_of_cons. intros [->|Hp].
      * destruct (IH p ltac:(by left)). set_solver.
      * destruct (IH piece ltac:(by right)). set_solver.
Qed.
Lemma split_on_ne c t : split_on c t <> [].
Proof. destruct t as [|x t]; cbn; [done|]. destruct (x =? c)%Z; [done|]. by destruct (split_on c t). Qed.
Lemma split_on_one c t a : split_on c t = [a] -> t = a.
Proof.
  revert a. induction t as [|x t IH]; cbn; intros a; [by intros [= <-]|].
  destruct (x =? c)%Z; [intros [= _ H]; by apply split_on_ne in H|].
  destruct (split_on c t) as [|p ps] eqn:E; [by apply split_on_ne in E|]. intros [= <- ->]. f_equal. by apply IH.
Qed.
Lemma split_on_two c t a b : split_on c t = [a; b] -> t = a ++ c :: b.
Proof.
  revert a. induction t as [|x t IH]; cbn; intros a; [done|].
  destruct (Z.eqb_spec x c) as [->|Hx]; [intros [= <- H]; by apply split_on_one in H as ->|].
  destruct (split_on c t) as [|p ps] eqn:E; [done|]. intros [= <- ->]. cbn. f_equal. by apply IH.
Qed.
Lemma unlines_split t : unlines (split_on 10 t) = t ++ [10%Z].
Proof.
  unfold unlines. induction t as [|y t IH]; [done|]. cbn. destruct (Z.eqb_spec y 10) as [->|Hy].
  - cbn. by rewrite IH.
  - destruct (split_on 10 t) as [|p ps] eqn:E; cbn in *; [by destruct t|]. by rewrite IH.
Qed.
Lemma unlines_app a b : unlines (a ++ b) = unlines a ++ unlines b.
Proof. unfold unlines. by rewrite map_app, concat_app. Qed.
Lemma unlines_concat (ls : list (list Text)) : unlines (concat ls) = concat (map unlines ls).
Proof. induction ls as [|l ls IH]; [done|]. cbn [concat map]. by rewrite unlines_app, IH. Qed.

(** ** Lines *)

Lemma strip_cr_cases t : strip_cr t = t \/ t = strip_cr t ++ [13%Z].
Proof.
  unfold strip_cr. destruct (reverse t) as [|c r] eqn:E; [by left|].
  destruct (Z.eqb_spec c 13) as [->|Hc].
  - right. apply (f_equal reverse) in E. rewrite reverse_involutive, reverse_cons in E. done.
  - by left.
Qed.
Lemma trim_strip_cr t : trim (strip_cr t) = trim t.
Proof.
  destruct (strip_cr_cases t) as [->|Ht]; [done|]. rewrite Ht at 2.
  rewrite <- (trim_trim_end (strip_cr t ++ [13%Z])), trim_end_snoc by done. by rewrite trim_trim_end.
Qed.
Lemma lines_go_line cur l rest :
  10%Z ∉ l -> lines_go cur (l ++ 10%Z :: rest) = strip_cr (reverse cur ++ l) :: lines_go [] rest.
Proof.
  revert cur. induction l as [|c l IH]; intros cur Hn; cbn; [by rewrite app_nil_r|].
  apply not_elem_of_cons in Hn as [Hc Hn]. rewrite (proj2 (Z.eqb_neq c 10)) by congruence.
  rewrite IH by done. by rewrite reverse_cons, <- (assoc app).
Qed.
Lemma lines_unlines ls : Forall (fun l => 10%Z ∉ l) ls -> lines (unlines ls) = map strip_cr ls.
Proof.
  unfold lines, unlines. induction 1 as [|l ls Hl _ IH]; [done|]. cbn. rewrite <- (assoc app). cbn.
  rewrite lines_go_line by done. by rewrite IH.
Qed.
Lemma lines_go_elem cur t l : 10%Z ∉ cur -> l ∈ lines_go cur t -> 10%Z ∉ l.
Proof.
  assert (forall x, 10%Z ∉ x -> 10%Z ∉ strip_cr x) as Hcr.
  { intros x Hx. destruct (strip_cr_cases x) as [->|Hs]; [done|]. rewrite Hs in Hx. set_solver. }
  revert cur. induction t as [|c t IH]; intros cur Hcur; cbn.
  - destruct cur; [by intros ?%elem_of_nil|]. rewrite list_elem_of_singleton. intros ->.
    by rewrite elem_of_reverse.
  - destruct (Z.eqb_spec c 10) as [->|Hc].
    + rewrite elem_of_cons. intros [->|Hl]; [apply Hcr; by rewrite elem_of_reverse|]. apply (IH []); [|done].
      apply not_elem_of_nil.
    + apply IH. set_solver.
Qed.
Lemma lines_elem t l : l ∈ lines t -> 10%Z ∉ l.
Proof. apply lines_go_elem, not_elem_of_nil. Qed.

(** ** Addresses of clients *)

Inductive IpAddr := V4 (n : Z) | V6 (n : Z).
#[export] Instance IpAddr_eq_dec : EqDecision IpAddr.
Proof. solve_decision. Defined.
#[export] Instance IpAddr_countable : Countable IpAddr.
Proof.
  apply (inj_countable' (fun a => match a with V4 n => inl n | V6 n => inr n end)
    (fun s => match s with inl n => V4 n | inr n => V6 n end)). by intros [].
Defined.

(** ** Decimal numbers *)

(** [char::is_ascii_digit] *)
Definition is_ascii_digit (c : Z) : bool := ((48 <=? c) && (c <=? 57))%Z.

(** [Display] of an unsigned integer: at most twenty digits for 64 bits. *)
Fixpoint dec_go (fuel : nat) (n : Z) (acc : Text) : Text :=
  match fuel with
  | 0 => acc
  | S fuel =>
      let acc := (48 + n mod 10)%Z :: acc in
      if (n <? 10)%Z then acc else dec_go fuel (n / 10)%Z acc
  end.
Definition display_usize (n : Z) : Text := dec_go 20 n [].
(** [Display] of an [isize]. *)
Definition display_isize (n : Z) : Text :=
  if (n <? 0)%Z then 45%Z :: display_usize (- n) else display_usize n.
(** [usize::from_str]: an optional plus sign, at least one digit, no overflow. *)
Fixpoint parse_digits (acc : Z) (t : Text) : option Z :=
  match t with
  | [] => Some acc
  | c :: t =>
      if ((48 <=? c) && (c <=? 57))%Z then
        let acc := (acc * 10 + (c - 48))%Z in
        if (acc <? u64_mod)%Z then parse_digits acc t else None
      else None
  end.
Definition parse_usize (t : Text) : option Z :=
  match t with
  | [] => None
  | c :: r => if (c =? 43)%Z then match r with [] => None | _ => parse_digits 0 r end else parse_digits 0 t
  end.

Definition is_digit (c : Z) : Prop := (48 <= c <= 57)%Z.
Lemma dec_go_parse fuel : forall n acc,
  (0 <= n < 10 ^ Z.of_nat fuel)%Z -> is_u64 n -> parse_digits 0 (dec_go fuel n acc) = parse_digits n acc.
Proof.
  induction fuel as [|fuel IH]; intros n acc Hn Hu; [cbn in *; by replace n with 0%Z by lia|].
  assert (0 <= n mod 10 < 10)%Z by (by apply Z.mod_pos_bound). unfold is_u64, u64_mod in *.
  rewrite Nat2Z.inj_succ, Z.pow_succ_r in Hn by lia. cbn [dec_go]. destruct (Z.ltb_spec n 10) as [Hlt|Hge].
  - cbn [parse_digits]. rewrite (Z.mod_small n 10), (proj2 (Z.leb_le 48 _)), (proj2 (Z.leb_le _ 57)) by lia. cbn [andb].
    replace (0 * 10 + (48 + n - 48))%Z with n by lia. by rewrite (proj2 (Z.ltb_lt n u64_mod)) by (unfold u64_mod; lia).
  - assert (n = 10 * (n / 10) + n mod 10)%Z as Hdiv by (by apply Z.div_mod).
    rewrite IH by (split; lia). cbn [parse_digits].
    rewrite (proj2 (Z.leb_le 48 _)), (proj2 (Z.leb_le _ 57)) by lia. cbn [andb].
    replace (n / 10 * 10 + (48 + n mod 10 - 48))%Z with n by lia.
    by rewrite (proj2 (Z.ltb_lt n u64_mod)) by (unfold u64_mod; lia).
Qed.
Lemma dec_go_digits fuel : forall n acc, Forall is_digit acc -> (0 <= n)%Z -> Forall is_digit (dec_go fuel n acc).
Proof.
  induction fuel as [|fuel IH]; intros n acc Ha Hn; [done|]. cbn.
  assert (0 <= n mod 10 < 10)%Z by (by apply Z.mod_pos_bound).
  assert (Forall is_digit ((48 + n mod 10)%Z :: acc)) by (constructor; [unfold is_digit; lia|done]).
  destruct (n <? 10)%Z; [done|]. apply IH; [done|]. apply Z.div_pos; lia.
Qed.
Lemma dec_go_ne fuel : forall n acc, acc <> [] -> dec_go fuel n acc <> [].
Proof. induction fuel as [|fuel IH]; intros n acc Ha; [done|]. cbn. destruct (n <? 10)%Z; [done|]. by apply IH. Qed.
Lemma display_usize_digits n : (0 <= n)%Z -> Forall is_digit (display_usize n).
Proof. apply dec_go_digits. constructor. Qed.
Lemma display_usize_ne n : display_usize n <> [].
Proof.
  assert (forall fuel, dec_go (S fuel) n [] <> []) as H; [|apply (H 19)].
  intros fuel. cbn [dec_go]. destruct (n <? 10)%Z; [done|]. by apply dec_go_ne.
Qed.
(** Printing and reading an integer back. *)
Lemma parse_display_usize n : is_u64 n -> parse_usize (display_usize n) = Some n.
Proof.
  intros Hn. pose proof (display_usize_ne n) as Hne. pose proof (display_usize_digits n ltac:(unfold is_u64 in Hn; lia)) as Hd.
  assert (parse_digits 0 (display_usize n) = Some n) as Hp.
  { unfold display_usize. rewrite dec_go_parse; [done| |done]. unfold is_u64, u64_mod in Hn.
    change (Z.of_nat 20) with 20%Z. change (10 ^ 20)%Z with 100000000000000000000%Z. lia. }
  unfold parse_usize. destruct (display_usize n) as [|c r]; [done|].
  destruct (Z.eqb_spec c 43) as [->|Hc]; [|done]. apply Forall_inv in Hd. unfold is_digit in Hd. lia.
Qed.
Lemma display_isize_inj a b :
  (- u64_mod < a < u64_mod)%Z -> (- u64_mod < b < u64_mod)%Z -> display_isize a = display_isize b -> a = b.
Proof.
  assert (forall x y, is_u64 x -> is_u64 y -> display_usize x = display_usize y -> x = y) as Hinj.
  { intros x y Hx Hy He. apply (f_equal parse_usize) in He. rewrite !parse_display_usize in He by done. congruence. }
  assert (forall x r, (0 <= x)%Z -> display_usize x <> 45%Z :: r) as Hneg.
  { intros x r Hx Hq. pose proof (display_usize_digits x Hx) as Hd. rewrite Hq in Hd. apply Forall_inv in Hd. unfold is_digit in Hd. lia. }
  unfold display_isize. intros Ha Hb. unfold is_u64 in Hinj.
  destruct (Z.ltb_spec a 0), (Z.ltb_spec b 0).
  - intros [= He]. apply Hinj in He; lia.
  - intros He. symmetry in He. by apply Hneg in He.
  - intros He. by apply Hneg in He.
  - intros He. apply Hinj in He; lia.
Qed.
Lemma display_isize_chars n c : c ∈ display_isize n -> c = 45%Z \/ is_digit c.
Proof.
  unfold display_isize. destruct (Z.ltb_spec n 0).
  - rewrite elem_of_cons. intros [->|Hc]; [by left|right].
    pose proof (display_usize_digits (- n) ltac:(lia)) as Hd. rewrite Forall_forall in Hd. by apply Hd.
  - intros Hc. right. pose proof (display_usize_digits n ltac:(lia)) as Hd. rewrite Forall_forall in Hd. by apply Hd.
Qed.

(** ** UTF-8 *)

(** A Unicode scalar value. *)
Definition is_char (c : Z) : Prop := (0 <= c < 55296 \/ 57344 <= c < 1114112)%Z.
Definition utf8_char (c : Z) : Bytes :=
  (if c <? 128 then [c]
   else if c <? 2048 then [192 + c / 64; 128 + c mod 64]
   else if c <? 65536 then [224 + c / 4096; 128 + c / 64 mod 64; 128 + c mod 64]
   else [240 + c / 262144; 128 + c / 4096 mod 64; 128 + c / 64 mod 64; 128 + c mod 64])%Z.
Definition utf8_encode (t : Text) : Bytes := concat (map utf8_char t).
Definition is_cont (b : Z) : bool := ((128 <=? b) && (b <? 192))%Z.
(** [String::from_utf8]: no overlong form, no surrogate, nothing above U+10FFFF. *)
Fixpoint from_utf8 (b : Bytes) : option Text :=
  match b with
  | [] => Some []
  | b0 :: r =>
      if (b0 <? 128)%Z then cons b0 <$> from_utf8 r
      else match r with
      | [] => None
      | b1 :: r1 =>
          if negb (is_cont b1) then None
          else if ((192 <=? b0) && (b0 <? 224))%Z then
            let c := ((b0 - 192) * 64 + (b1 - 128))%Z in
            if (128 <=? c)%Z then cons c <$> from_utf8 r1 else None
          else match r1 with
          | [] => None
          | b2 :: r2 =>
              if negb (is_cont b2) then None
              else if ((224 <=? b0) && (b0 <? 240))%Z then
                let c := ((b0 - 224) * 4096 + (b1 - 128) * 64 + (b2 - 128))%Z in
                if ((2048 <=? c) && ((c <? 55296) || (57344 <=? c)))%Z then cons c <$> from_utf8 r2 else None
              else match r2 with
              | [] => None
              | b3 :: r3 =>
                  let c := ((b0 - 240) * 262144 + (b1 - 128) * 4096 + (b2 - 128) * 64 + (b3 - 128))%Z in
                  if (is_cont b3 && (240 <=? b0) && (b0 <? 248) && (65536 <=? c) && (c <? 1114112))%Z
                  then cons c <$> from_utf8 r3 else None
              end
          end
      end
  end.

Lemma is_cont_low x : is_cont (128 + x mod 64) = true.
Proof.
  assert (0 <= x mod 64 < 64)%Z by (by apply Z.mod_pos_bound). unfold is_cont.
  apply andb_true_intro. split; [apply Z.leb_le|apply Z.ltb_lt]; lia.
Qed.
(** [ztest] evaluates the comparisons of integers that [lia] decides. *)
Ltac ztest := repeat match goal with
  | |- context [(?a <? ?b)%Z] =>
      first [rewrite (proj2 (Z.ltb_lt a b)) by lia | rewrite (proj2 (Z.ltb_ge a b)) by lia]
  | |- context [(?a <=? ?b)%Z] =>
      first [rewrite (proj2 (Z.leb_le a b)) by lia | rewrite (proj2 (Z.leb_gt a b)) by lia]
  end; cbn [andb orb negb].
Lemma from_utf8_char c r : is_char c -> from_utf8 (utf8_char c ++ r) = cons c <$> from_utf8 r.
Proof.
  intros Hc. unfold is_char in Hc. unfold utf8_char.
  pose proof (Z.mod_pos_bound c 64 ltac:(lia)). pose proof (Z.mod_pos_bound (c / 64) 64 ltac:(lia)).
  pose proof (Z.mod_pos_bound (c / 4096) 64 ltac:(lia)).
  pose proof (Z.div_mod c 64 ltac:(lia)) as Hd1.
  pose proof (Z.div_mod (c / 64) 64 ltac:(lia)) as Hd2. rewrite Z.div_div in Hd2 by lia. change (64 * 64)%Z with 4096%Z in Hd2.
  pose proof (Z.div_mod (c / 4096) 64 ltac:(lia)) as Hd3. rewrite Z.div_div in Hd3 by lia. change (4096 * 64)%Z with 262144%Z in Hd3.
  destruct (Z.ltb_spec c 128); [cbn; by ztest|].
  destruct (Z.ltb_spec c 2048); [|destruct (Z.ltb_spec c 65536)]; cbn [app from_utf8]; rewrite !is_cont_low; ztest.
  - by replace ((192 + c / 64 - 192) * 64 + (128 + c mod 64 - 128))%Z with c by lia.
  - replace ((224 + c / 4096 - 224) * 4096 + (128 + (c / 64) mod 64 - 128) * 64 + (128 + c mod 64 - 128))%Z
      with c by lia. destruct Hc as [Hc|Hc]; by ztest.
  - replace ((240 + c / 262144 - 240) * 262144 + (128 + (c / 4096) mod 64 - 128) * 4096 +
      (128 + (c / 64) mod 64 - 128) * 64 + (128 + c mod 64 - 128))%Z with c by lia. by ztest.
Qed.
Lemma from_utf8_encode t : Forall is_char t -> from_utf8 (utf8_encode t) = Some t.
Proof.
  unfold utf8_encode. induction 1 as [|c t Hc _ IH]; [done|]. cbn [map concat].
  rewrite from_utf8_char by done. by rewrite IH.
Qed.
(** A line feed in the encoding is a line feed in the text. *)
Lemma utf8_char_no_lf c : is_char c -> c <> 10%Z -> 10%Z ∉ utf8_char c.
Proof.
  intros Hc Hne. unfold is_char in Hc. unfold utf8_char.
  pose proof (Z.mod_pos_bound c 64 ltac:(lia)). pose proof (Z.mod_pos_bound (c / 64) 64 ltac:(lia)).
  pose proof (Z.mod_pos_bound (c / 4096) 64 ltac:(lia)).
  pose proof (Z.div_pos c 64 ltac:(lia) ltac:(lia)). pose proof (Z.div_pos c 4096 ltac:(lia) ltac:(lia)).
  pose proof (Z.div_pos c 262144 ltac:(lia) ltac:(lia)).
  repeat case_match; rewrite ?elem_of_cons, elem_of_nil; lia.
Qed.
Lemma utf8_encode_no_lf t : Forall is_char t -> 10%Z ∉ t -> 10%Z ∉ utf8_encode t.
Proof.
  unfold utf8_encode. induction 1 as [|c t Hc _ IH]; intros Hn; [by apply not_elem_of_nil|]. cbn.
  apply not_elem_of_cons in Hn as [Hne Hn]. apply not_elem_of_app. split; [by apply utf8_char_no_lf|auto].
Qed.
