(* ===== verification/Json.v ===== *)
(** * JSON values

    [serde_json::Value] as far as the code looks at it, shared by the authorization,
    the Electrum server and the HTTP adapter.  The order of the fields of an object is
    never observed by the code; parsing and printing are the library's. *)

From Stdlib Require Import SpecFloat.
From S2P Require Import Prelude Text.

Definition text_of (s : string) : Text := map (fun a => Z.of_N (Ascii.N_of_ascii a)) (String.list_ascii_of_string s).

(** A JSON value; numbers are integers or floating-point. *)
Inductive Json :=
  | JNull | JBool (b : bool) | JInt (n : Z) | JFloat (x : spec_float) | JStr (s : Text)
  | JArr (l : list Json) | JObj (fields : list (Text * Json)).
Definition as_u64 (j : Json) : option Z :=
  match j with JInt n => if decide (is_u64 n) then Some n else None | _ => None end.
Definition as_str (j : Json) : option Text := match j with JStr s => Some s | _ => None end.
Definition as_array (j : Json) : option (list Json) := match j with JArr l => Some l | _ => None end.
(** [value.get(key)] *)
Definition json_get (j : Json) (key : Text) : option Json :=
  match j with
  | JObj fields => (fun p => p.2.2) <$> list_find (fun p : Text * Json => p.1 = key) fields
  | _ => None
  end.

Definition as_bool (j : Json) : option bool := match j with JBool b => Some b | _ => None end.
(** [json!({"a": x, ..})], [json!([..])] and [json!("..")]. *)
Definition jobj (fields : list (string * Json)) : Json := JObj (map (fun p => (text_of p.1, p.2)) fields).
Definition jstr (s : string) : Json := JStr (text_of s).
(** An [Option] is [null] or the value. *)
Definition jopt (o : option Json) : Json := default JNull o.
(** [from_value::<Vec<String>>(value).ok()] *)
Definition strings_from_value (j : Json) : option (list Text) := as_array j ≫= mapM as_str.

(** Reading a field back. *)
Lemma text_of_inj s s' : text_of s = text_of s' -> s = s'.
Proof.
  unfold text_of. intros H.
  rewrite <- (String.string_of_list_ascii_of_string s), <- (String.string_of_list_ascii_of_string s').
  f_equal. revert H. generalize (String.list_ascii_of_string s) (String.list_ascii_of_string s').
  induction l as [|a l IH]; intros [|a' l']; cbn; try done. intros [= Ha Hl]. f_equal; [|auto].
  apply N2Z.inj in Ha. by rewrite <- (Ascii.ascii_N_embedding a), Ha, Ascii.ascii_N_embedding.
Qed.
Lemma jobj_get_cons k v fields key :
  json_get (jobj ((k, v) :: fields)) (text_of key) =
  if decide (k = key) then Some v else json_get (jobj fields) (text_of key).
Proof.
  cbn. destruct (decide (k = key)) as [->|Hk].
  - by rewrite decide_True.
  - rewrite decide_False; [|by intros ?%text_of_inj].
    destruct (list_find _ (map _ fields)) as [[i p]|]; done.
Qed.
Lemma jobj_get_nil key : json_get (jobj []) (text_of key) = None.
Proof. done. Qed.
Create HintDb json.
#[export] Hint Rewrite jobj_get_cons jobj_get_nil : json.
