(* ===== verification/Electrum.v ===== *)
(** * [electrum/mod.rs] and the commands of [electrum/server.rs]

    The Electrum protocol of one connection: parameters read from JSON, the handler of
    each method over the shared [Query], the session's header and script hash
    subscriptions with their periodic update, the dispatch of a command, of a request
    and of a line, and the HTTP adapter.  A session is the state all connections share
    (the query, the gauges, the connection counts) with the state of the connection.
    Hashes in hex, JSON text and bitcoind's package submission are an interface. *)

From Stdlib Require Import SpecFloat.
From stdpp Require Import pretty.
From S2P Require Import Prelude Iter RocksDB DB Bitcoin HeaderList Rows Fetch Fees.
From S2P Require Import Indexer IndexerSync ChainQuery Mempool Merkle Query Text Json.

(** ** Versions *)

Record ProtocolVersion := mkVersion { major : Z; minor : Z }.
#[export] Instance ProtocolVersion_eq_dec : EqDecision ProtocolVersion.
Proof. solve_decision. Defined.
Definition version_cmp (a b : ProtocolVersion) : comparison :=
  match Z.compare (major a) (major b) with Eq => Z.compare (minor a) (minor b) | c => c end.
Definition display_version (v : ProtocolVersion) : Text :=
  display_usize (major v) ++ text_of "." ++ display_usize (minor v).
Definition version_from_str (s : Text) : result ProtocolVersion :=
  let iter := split_on 46 s in
  a ← ok_or (Msg "missing major") (head iter);
  major ← ok_or (Msg "invalid major") (parse_usize a);
  b ← ok_or (Msg "missing minor") (head (tail iter));
  minor ← ok_or (Msg "invalid minor") (parse_usize b);
  Ok (mkVersion major minor).
Definition PROTOCOL_VERSION : ProtocolVersion := mkVersion 1 4.
Definition MAX_HEADERS : Z := 2016.

Record ServerPorts := mkPorts { tcp_port : option Z; ssl_port : option Z }.
Record ServerFeatures := mkFeatures {
  hosts : list (Text * ServerPorts); genesis_hash : BlockHash; sf_server_version : Text;
  protocol_min : ProtocolVersion; protocol_max : ProtocolVersion;
  pruning : option Z; hash_function : Text }.

(** [isize] *)
Definition get_electrum_height (blockid : option BlockId) (has_unconfirmed_parents : bool) : Z :=
  match blockid, has_unconfirmed_parents with
  | Some blockid, _ => Z.of_nat (bid_height blockid)
  | None, false => 0
  | None, true => -1
  end.

(** ** The libraries *)

Class ElectrumLib := {
  parse_hash : Text -> option FullHash;
  display_hash : FullHash -> Text;
  hex_encode : Bytes -> Text;
  json_parse : Text -> Text + Json;
  json_display : Json -> Text;
}.
(** A hash is shown as 64 hexadecimal digits and read back. *)
Class ElectrumLibLaws `{!ElectrumLib} : Prop := {
  display_hash_length h : length (display_hash h) = 64;
  display_hash_alnum h c : c ∈ display_hash h -> c <> 58%Z;
  parse_display_hash h : parse_hash (display_hash h) = Some h;
}.

(** [Display] of an error. *)
Definition display_error (e : ErrorKind) : Text :=
  match e with
  | Msg s => text_of s
  | Prelude.Connection m => text_of "Connection error: " ++ text_of m
  | Interrupt n => text_of "Interrupted by signal " ++ display_isize n
  | TooManyUtxos n => text_of "Too many unspent transaction outputs (>" ++ display_usize n ++
      text_of "). Contact support to raise limits."
  | TooManyTxs n => text_of "Too many history transactions (>" ++ display_usize n ++
      text_of "). Contact support to raise limits."
  | DaemonBusy m => text_of "Daemon is busy: " ++ text_of m
  | DaemonUnavailable m => text_of "Daemon is unavailable: " ++ text_of m
  end.

(** ** Parameters *)

Section params.
Context `{!ElectrumLib}.
Definition hash_from_value (val : option Json) : result FullHash :=
  v ← ok_or (Msg "missing hash") val;
  s ← ok_or (Msg "non-string hash") (as_str v);
  ok_or (Msg "non-hex hash") (parse_hash s).
Definition usize_from_value (val : option Json) (name : string) : result Z :=
  v ← ok_or (Msg ("missing " +:+ name)) val;
  ok_or (Msg ("non-integer " +:+ name)) (as_u64 v).
Definition usize_from_value_or (val : option Json) (name : string) (dflt : Z) : result Z :=
  match val with None => Ok dflt | _ => usize_from_value val name end.
Definition bool_from_value (val : option Json) (name : string) : result bool :=
  v ← ok_or (Msg ("missing " +:+ name)) val;
  ok_or (Msg ("not a bool " +:+ name)) (as_bool v).
Definition bool_from_value_or (val : option Json) (name : string) (dflt : bool) : result bool :=
  match val with None => Ok dflt | _ => bool_from_value val name end.
End params.

Inductive JsonRpcV2Error := ParseError | InvalidRequest | MethodNotFound | InternalError.
Definition into_i16 (c : JsonRpcV2Error) : Z :=
  match c with
  | ParseError => -32700 | InvalidRequest => -32600 | MethodNotFound => -32601 | InternalError => -32603
  end.
Definition json_rpc_error (input : Text) (id : option Json) (code : JsonRpcV2Error) : Json :=
  jobj ([("error", jobj [("code", JInt (into_i16 code)); ("message", JStr input)]); ("jsonrpc", jstr "2.0")]
        ++ match id with Some id => [("id", id)] | None => [] end).
Definition json_rpc_result (id result : Json) : Json :=
  jobj [("jsonrpc", jstr "2.0"); ("id", id); ("result", result)].

(** ** [SubmitPackageResult] of [daemon.rs] *)

(** A result as bitcoind sent it, [pk_value], with the parts that are read. *)
Record PackageTx := mkPackageTx { pt_txid : Text; pt_error : option Text }.
Record SubmitPackageResult := mkPackage { package_msg : Text; tx_results : list (Text * PackageTx); pk_value : Json }.
Definition into_electrum_response (r : SubmitPackageResult) (verbose : bool) : Json :=
  if verbose then pk_value r
  else
    let success := JBool (bool_decide (package_msg r = text_of "success")) in
    let errors := omap (fun p : Text * PackageTx =>
      (fun e => jobj [("error", JStr e); ("txid", JStr (pt_txid p.2))]) <$> pt_error p.2) (tx_results r) in
    match errors with
    | [] => jobj [("success", success)]
    | _ => jobj [("success", success); ("errors", JArr errors)]
    end.

(** ** Sessions *)

Definition SocketAddr : Type := IpAddr * Z.
Inductive Message :=
  | Request (line : Text) | PeriodicUpdate | Done | Proxy (addrs : option (list SocketAddr)).

(** The state of a connection.  A status is null or a string.  [c_chan] is the content
    of the channel, [direct_ip] the address of a TCP peer. *)
Record Connection := mkConnection {
  last_header_entry : option HeaderEntry;
  status_hashes : gmap FullHash (option Text);
  c_chan : list Message;
  last_request_at : Z;
  proxy_client : option SocketAddr;
  registered_ip : option IpAddr;
  direct_ip : option IpAddr }.
Definition connection_new (now : Z) (ip : option IpAddr) : Connection :=
  mkConnection None ∅ [] now None None ip.

(** What the connections share: the query, two gauges, the connections per client. *)
Record Shared (D : Type) := mkShared {
  sh_query : Query D; g_clients : Z; g_subscriptions : Z; client_counts : gmap IpAddr nat }.
Arguments mkShared {D} _ _ _ _.
Arguments sh_query {D} _. Arguments g_clients {D} _.
Arguments g_subscriptions {D} _. Arguments client_counts {D} _.
Definition Session (D : Type) : Type := Shared D * Connection.

(** The options the server is started with, and [VERSION_STRING]. *)
Record ElectrumConfig := mkElectrumConfig {
  electrum_banner : Text; version_string : Text; server_features : ServerFeatures;
  txs_limit : nat; max_line_size : Z; max_subscriptions : nat; max_clients : nat;
  idle_timeout : Z; haproxy_depth : nat; connections_per_client : nat }.

Definition CHAN_SIZE : nat := 10.
Definition set_query {D} (sh : Shared D) (q : Query D) : Shared D :=
  mkShared q (g_clients sh) (g_subscriptions sh) (client_counts sh).
Definition set_clients {D} (sh : Shared D) (n : Z) : Shared D :=
  mkShared (sh_query sh) n (g_subscriptions sh) (client_counts sh).
Definition set_subscriptions {D} (sh : Shared D) (n : Z) : Shared D :=
  mkShared (sh_query sh) (g_clients sh) n (client_counts sh).
Definition set_counts {D} (sh : Shared D) (m : gmap IpAddr nat) : Shared D :=
  mkShared (sh_query sh) (g_clients sh) (g_subscriptions sh) m.
Definition set_last_header (c : Connection) (e : option HeaderEntry) : Connection :=
  mkConnection e (status_hashes c) (c_chan c) (last_request_at c) (proxy_client c) (registered_ip c) (direct_ip c).
Definition set_status (c : Connection) (m : gmap FullHash (option Text)) : Connection :=
  mkConnection (last_header_entry c) m (c_chan c) (last_request_at c) (proxy_client c) (registered_ip c) (direct_ip c).
Definition set_chan (c : Connection) (l : list Message) : Connection :=
  mkConnection (last_header_entry c) (status_hashes c) l (last_request_at c) (proxy_client c) (registered_ip c) (direct_ip c).
Definition set_request_at (c : Connection) (now : Z) : Connection :=
  mkConnection (last_header_entry c) (status_hashes c) (c_chan c) now (proxy_client c) (registered_ip c) (direct_ip c).
Definition set_proxy (c : Connection) (p : option SocketAddr) : Connection :=
  mkConnection (last_header_entry c) (status_hashes c) (c_chan c) (last_request_at c) p (registered_ip c) (direct_ip c).
Definition set_registered (c : Connection) (ip : option IpAddr) : Connection :=
  mkConnection (last_header_entry c) (status_hashes c) (c_chan c) (last_request_at c) (proxy_client c) ip (direct_ip c).
(** [sender().try_send(msg)]; a full channel is an error that is only logged. *)
Definition try_send (msg : Message) (c : Connection) : Connection :=
  if decide (length (c_chan c) < CHAN_SIZE) then set_chan c (c_chan c ++ [msg]) else c.

(** Running code of the query, reading it, changing the connection. *)
Definition on_query {D A} (f : SR (Query D) A) : SR (Session D) A := fun s =>
  let '(q, r) := f (sh_query s.1) in ((set_query s.1 q, s.2), r).
Definition get_query {D} : SR (Session D) (Query D) := gets (fun s => sh_query s.1).
Definition on_conn {D} (f : Connection -> Connection) : SR (Session D) unit := modify (fun s => (s.1, f s.2)).
Definition on_shared {D} (f : Shared D -> Shared D) : SR (Session D) unit := modify (fun s => (f s.1, s.2)).

Definition as_i64 (x : Z) : Z := if (x <? 2 ^ 63)%Z then x else (x - u64_mod)%Z.
Definition f64_div (a b : f64) : f64 := SFdiv 53 1024 a b.

Section electrum.
Context {D : Type} {RDB : RocksDB D} {BL : BitcoinLib} {W : Wincode} {EL : ElectrumLib}.
Context (cfg : ElectrumConfig) (qcfg : QueryConfig) (mcfg : MempoolConfig).
Context (rpc : QueryRpc) (submit_package : list Text -> result SubmitPackageResult) (sha256d : Bytes -> FullHash).
Implicit Types (q : Query D) (params : list Json).

(** ** History and status *)

Definition get_history q (scripthash : FullHash) (txs_limit : nat) : result (list (Txid * option BlockId)) :=
  history_txids ← history_txids q scripthash (Z.to_nat (wrap64 (Z.of_nat txs_limit + 1)));
  if decide (length history_txids <= txs_limit) then Ok history_txids
  else Err (TooManyTxs (Z.of_nat txs_limit)).

(** The height reported for an entry of the history. *)
Definition history_height q (entry : Txid * option BlockId) : Z :=
  let '(txid, blockid) := entry in
  let is_mempool := bool_decide (blockid = None) in
  let unconfirmed := if is_mempool then has_unconfirmed_parents (q_mempool q) txid else false in
  get_electrum_height blockid unconfirmed.
Definition status_part q (entry : Txid * option BlockId) : Text :=
  display_hash entry.1 ++ text_of ":" ++ display_isize (history_height q entry) ++ text_of ":".
Definition get_status_hash (txs : list (Txid * option BlockId)) q : option FullHash :=
  match txs with
  | [] => None
  | _ => Some (sha256 (concat (map (status_part q) txs)))
  end.
(** [.map_or(Value::Null, |h| json!(hex::encode(full_hash(&h[..]))))] *)
Definition status_text (h : option FullHash) : option Text := (fun h => hex_encode (as_bytes h)) <$> h.
Definition status_value (st : option Text) : Json := jopt (JStr <$> st).
Definition current_status q (script_hash : FullHash) : result (option Text) :=
  history_txids ← get_history q script_hash (txs_limit cfg);
  Ok (status_text (get_status_hash history_txids q)).

(** ** Handlers that read *)

Definition jhash (h : FullHash) : Json := JStr (display_hash h).
Definition header_hex (e : HeaderEntry) : Text := hex_encode (serialize_header (he_header e)).
Definition header_value (e : HeaderEntry) : Json :=
  jobj [("hex", JStr (header_hex e)); ("height", JInt (Z.of_nat (he_height e)))].

Definition server_version : Json :=
  JArr [JStr (version_string cfg); JStr (display_version PROTOCOL_VERSION)].
Definition ports_value (p : ServerPorts) : Json :=
  jobj [("tcp_port", jopt (JInt <$> tcp_port p)); ("ssl_port", jopt (JInt <$> ssl_port p))].
Definition features_value (f : ServerFeatures) : Json :=
  jobj [("hosts", JObj (map (fun p => (p.1, ports_value p.2)) (hosts f)));
        ("genesis_hash", jhash (genesis_hash f));
        ("server_version", JStr (sf_server_version f));
        ("protocol_min", JStr (display_version (protocol_min f)));
        ("protocol_max", JStr (display_version (protocol_max f)));
        ("pruning", jopt (JInt <$> pruning f));
        ("hash_function", JStr (hash_function f))].

Definition mempool_get_fee_histogram q : Json :=
  JArr (map (fun p => JArr [JFloat p.1; JInt p.2]) (fee_histogram (backlog_stats (q_mempool q)))).

Definition blockchain_block_header q params : result Json :=
  height ← usize_from_value (params !! 0) "height";
  cp_height ← usize_from_value_or (params !! 1) "cp_height" 0;
  o ← cq_header_by_height (q_chain q) (Z.to_nat height);
  raw_header_hex ← ok_or (Msg "missing header") (header_hex <$> o);
  if (cp_height =? 0)%Z then Ok (JStr raw_header_hex)
  else
    proof ← get_header_merkle_proof sha256d (q_chain q) (Z.to_nat height) (Z.to_nat cp_height);
    Ok (jobj [("header", JStr raw_header_hex); ("root", jhash proof.2); ("branch", JArr (map jhash proof.1))]).

Definition blockchain_block_headers q params : result Json :=
  start_height ← usize_from_value (params !! 0) "start_height";
  count ← usize_from_value (params !! 1) "count";
  let count := Z.min MAX_HEADERS count in
  cp_height ← usize_from_value_or (params !! 2) "cp_height" 0;
  let heights := seqZ start_height (wrap64 (start_height + count) - start_height) in
  found ← rmap (fun height => cq_header_by_height (q_chain q) (Z.to_nat height)) heights;
  let headers := header_hex <$> omap id found in
  let base := [("count", JInt (Z.of_nat (length headers))); ("hex", JStr (concat headers)); ("max", JInt MAX_HEADERS)] in
  if ((count =? 0) || (cp_height =? 0))%Z then Ok (jobj base)
  else
    proof ← get_header_merkle_proof sha256d (q_chain q) (Z.to_nat (wrap64 (start_height + (count - 1)))) (Z.to_nat cp_height);
    Ok (jobj (base ++ [("root", jhash proof.2); ("branch", JArr (map jhash proof.1))])).

Definition blockchain_scripthash_get_history q params : result Json :=
  script_hash ← chain_err "bad script_hash" (hash_from_value (params !! 0));
  history_txids ← get_history q script_hash (txs_limit cfg);
  Ok (JArr (map (fun entry : Txid * option BlockId =>
    let fee := if bool_decide (entry.2 = None) then get_mempool_tx_fee (q_mempool q) entry.1 else None in
    jobj ([("tx_hash", jhash entry.1); ("height", JInt (history_height q entry))]
          ++ match fee with Some fee => [("fee", JInt fee)] | None => [] end)) history_txids)).

Definition blockchain_transaction_get q params : result Json :=
  tx_hash ← chain_err "bad tx_hash" (hash_from_value (params !! 0));
  verbose ← (match params !! 1 with
             | Some value => ok_or (Msg "non-bool verbose value") (as_bool value)
             | None => Ok false
             end);
  if (verbose : bool) then Err (Msg "verbose transactions are currently unsupported")
  else
    o ← lookup_raw_txn q tx_hash;
    tx ← ok_or (Msg "missing transaction") o;
    Ok (JStr (hex_encode tx)).

Definition blockchain_transaction_get_merkle q params : result Json :=
  txid ← chain_err "bad tx_hash" (hash_from_value (params !! 0));
  height ← usize_from_value (params !! 1) "height";
  o ← tx_confirming_block (q_chain q) txid;
  blockid ← ok_or (Msg "tx not found or is unconfirmed") o;
  if decide (Z.of_nat (bid_height blockid) <> height) then Err (Msg "invalid confirmation height provided")
  else
    proof ← chain_err "cannot create merkle proof" (get_tx_merkle_proof sha256d (q_chain q) txid (bid_hash blockid));
    Ok (jobj [("block_height", JInt (Z.of_nat (bid_height blockid))); ("merkle", JArr (map jhash proof.1));
              ("pos", JInt (Z.of_nat proof.2))]).

Definition blockchain_transaction_id_from_pos q params : result Json :=
  height ← usize_from_value (params !! 0) "height";
  tx_pos ← usize_from_value (params !! 1) "tx_pos";
  want_merkle ← bool_from_value_or (params !! 2) "merkle" false;
  r ← get_id_from_pos sha256d (q_chain q) (Z.to_nat height) (Z.to_nat tx_pos) want_merkle;
  if (want_merkle : bool) then Ok (jobj [("tx_hash", jhash r.1); ("merkle", JArr (map jhash r.2))])
  else Ok (jhash r.1).

(** Reading the query of the session. *)
Definition reading {A} (f : Query D -> result A) : SR (Session D) A := fun s => (s, f (sh_query s.1)).

(** ** Handlers that change state *)

Definition blockchain_headers_subscribe : SR (Session D) Json :=
  entry ← reading (fun q => best_header (q_chain q));
  _ ← on_conn (fun c => set_last_header c (Some entry));
  mret (header_value entry).

Definition blockchain_estimatefee (now later : Z) params : SR (Session D) Json :=
  conf_target ← lift (usize_from_value (params !! 0) "blocks_count");
  o ← on_query (estimate_fee qcfg rpc now later (as_u16 conf_target));
  fee_rate ← lift (ok_or (Msg ("cannot estimate fee for " +:+ pretty conf_target +:+ " blocks")) o);
  mret (JFloat (f64_div fee_rate (f64_of_Z 100000))).

Definition blockchain_relayfee : SR (Session D) Json :=
  relayfee ← on_query (get_relayfee rpc);
  mret (JFloat (f64_div relayfee (f64_of_Z 100000))).

Definition blockchain_scripthash_subscribe params : SR (Session D) Json :=
  script_hash ← lift (chain_err "bad script_hash" (hash_from_value (params !! 0)));
  hashes ← gets (fun s : Session D => status_hashes s.2);
  if decide (hashes !! script_hash = None /\ max_subscriptions cfg <= size hashes) then
    lift (Err (Msg ("subscription limit reached (" +:+ pretty (max_subscriptions cfg) +:+ " max per client)")))
  else
    status_hash ← reading (fun q => current_status q script_hash);
    _ ← on_conn (fun c => set_status c (<[script_hash := status_hash]> (status_hashes c)));
    _ ← (if decide (hashes !! script_hash = None)
         then on_shared (fun sh => set_subscriptions sh (g_subscriptions sh + 1)) else mret tt);
    mret (status_value status_hash).

Definition blockchain_scripthash_unsubscribe params : SR (Session D) Json :=
  script_hash ← lift (chain_err "bad script_hash" (hash_from_value (params !! 0)));
  hashes ← gets (fun s : Session D => status_hashes s.2);
  let removed := bool_decide (is_Some (hashes !! script_hash)) in
  _ ← on_conn (fun c => set_status c (delete script_hash (status_hashes c)));
  _ ← (if (removed : bool) then on_shared (fun sh => set_subscriptions sh (g_subscriptions sh - 1)) else mret tt);
  mret (JBool removed).

Definition blockchain_scripthash_get_balance params : SR (Session D) Json :=
  script_hash ← lift (chain_err "bad script_hash" (hash_from_value (params !! 0)));
  st ← on_query (stats script_hash);
  let '(chain_stats, mempool_stats) := st in
  mret (jobj [
    ("confirmed", JInt (wrap64 (funded_txo_sum chain_stats - spent_txo_sum chain_stats)));
    ("unconfirmed", JInt (as_i64 (wrap64 (as_i64 (funded_txo_sum mempool_stats) - as_i64 (spent_txo_sum mempool_stats)))))]).

Definition blockchain_scripthash_listunspent params : SR (Session D) Json :=
  script_hash ← lift (chain_err "bad script_hash" (hash_from_value (params !! 0)));
  utxos ← on_query (utxo qcfg script_hash);
  mret (JArr (map (fun u => jobj [
    ("height", JInt (match ut_confirmed u with Some b => Z.of_nat (bid_height b) | None => 0 end));
    ("tx_pos", JInt (ut_vout u)); ("tx_hash", jhash (ut_txid u)); ("value", JInt (ut_value u))]) utxos)).

Definition blockchain_transaction_broadcast params : SR (Session D) Json :=
  tx ← lift (ok_or (Msg "missing tx") (params !! 0));
  tx ← lift (ok_or (Msg "non-string tx") (as_str tx));
  txid ← on_query (broadcast_raw mcfg rpc tx);
  _ ← on_conn (try_send PeriodicUpdate);
  mret (jhash txid).

Definition blockchain_transaction_broadcast_package params : SR (Session D) Json :=
  txs ← lift (ok_or (Msg "missing transactions") (params !! 0));
  txhexes ← lift (ok_or (Msg "non-array transactions") (strings_from_value txs));
  verbose ← lift (bool_from_value_or (params !! 1) "verbose" false);
  result ← lift (submit_package txhexes);
  _ ← on_conn (try_send PeriodicUpdate);
  mret (into_electrum_response result verbose).

(** ** Dispatch *)

Definition method_is (method : Text) (name : string) : bool := bool_decide (method = text_of name).
(** The handler of a method, [None] for an unknown one. *)
Definition method_handler (now later : Z) (method : Text) params : option (SR (Session D) Json) :=
  if method_is method "blockchain.block.header" then Some (reading (fun q => blockchain_block_header q params))
  else if method_is method "blockchain.block.headers" then Some (reading (fun q => blockchain_block_headers q params))
  else if method_is method "blockchain.estimatefee" then Some (blockchain_estimatefee now later params)
  else if method_is method "blockchain.headers.subscribe" then Some blockchain_headers_subscribe
  else if method_is method "blockchain.relayfee" then Some blockchain_relayfee
  else if method_is method "blockchain.scripthash.get_balance" then Some (blockchain_scripthash_get_balance params)
  else if method_is method "blockchain.scripthash.get_history"
    then Some (reading (fun q => blockchain_scripthash_get_history q params))
  else if method_is method "blockchain.scripthash.listunspent" then Some (blockchain_scripthash_listunspent params)
  else if method_is method "blockchain.scripthash.subscribe" then Some (blockchain_scripthash_subscribe params)
  else if method_is method "blockchain.scripthash.unsubscribe" then Some (blockchain_scripthash_unsubscribe params)
  else if method_is method "blockchain.transaction.broadcast" then Some (blockchain_transaction_broadcast params)
  else if method_is method "blockchain.transaction.broadcast_package"
    then Some (blockchain_transaction_broadcast_package params)
  else if method_is method "blockchain.transaction.get" then Some (reading (fun q => blockchain_transaction_get q params))
  else if method_is method "blockchain.transaction.get_merkle"
    then Some (reading (fun q => blockchain_transaction_get_merkle q params))
  else if method_is method "blockchain.transaction.id_from_pos"
    then Some (reading (fun q => blockchain_transaction_id_from_pos q params))
  else if method_is method "mempool.get_fee_histogram" then Some (reading (fun q => Ok (mempool_get_fee_histogram q)))
  else if method_is method "server.banner" then Some (mret (JStr (electrum_banner cfg)))
  else if method_is method "server.donation_address" then Some (mret JNull)
  else if method_is method "server.peers.subscribe" then Some (mret (JArr []))
  else if method_is method "server.ping" then Some (mret JNull)
  else if method_is method "server.version" then Some (mret server_version)
  else if method_is method "server.features" then Some (mret (features_value (server_features cfg)))
  else None.

Definition handle_command (now later : Z) (method : Text) params (id : Json) : SR (Session D) Json :=
  match method_handler now later method params with
  | None => mret (json_rpc_error (text_of "Method " ++ method ++ text_of " not found") (Some id) MethodNotFound)
  | Some handler => fun s =>
      match handler s with
      | (s', Ok result) => (s', Ok (json_rpc_result id result))
      | (s', Err e) => (s', Ok (json_rpc_error (display_error e) (Some id) InternalError))
      | (s', Panic) => (s', Panic)
      | (s', Diverge) => (s', Diverge)
      end
  end.

(** [handle_command] never returns an [Err], so its [unwrap_or_else] is the identity. *)
Definition handle_value (now later : Z) (value : Json) : SR (Session D) Json :=
  match json_get value (text_of "method"), default (JArr []) (json_get value (text_of "params")),
        json_get value (text_of "id") with
  | Some (JStr method), JArr params, Some id => handle_command now later method params id
  | _, _, Some id => mret (json_rpc_error (json_display value) (Some id) InvalidRequest)
  | _, _, _ => mret (json_rpc_error (json_display value) None InvalidRequest)
  end.

(** [for x in l { .. }] collecting the results. *)
Fixpoint sr_map {S A B} (f : A -> SR S B) (l : list A) : SR S (list B) :=
  match l with
  | [] => mret []
  | x :: l => y ← f x; ys ← sr_map f l; mret (y :: ys)
  end.

Definition handle_line (now later : Z) (line : Text) : SR (Session D) Json :=
  match json_parse line with
  | inr (JArr arr) => arr' ← sr_map (handle_value now later) arr; mret (JArr arr')
  | inr cmd => handle_value now later cmd
  | inl _ => mret (json_rpc_error (text_of "Invalid JSON: " ++ line) None ParseError)
  end.

(** ** The periodic update *)

Definition header_notification (e : HeaderEntry) : Json :=
  jobj [("jsonrpc", jstr "2.0"); ("method", jstr "blockchain.headers.subscribe"); ("params", JArr [header_value e])].
Definition status_notification (script_hash : FullHash) (st : option Text) : Json :=
  jobj [("jsonrpc", jstr "2.0"); ("method", jstr "blockchain.scripthash.subscribe");
        ("params", JArr [jhash script_hash; status_value st])].

Definition update_header : SR (Session D) (list Json) :=
  last ← gets (fun s : Session D => last_header_entry s.2);
  match last with
  | None => mret []
  | Some last_entry =>
      entry ← reading (fun q => best_header (q_chain q));
      if decide (last_entry = entry) then mret []
      else _ ← on_conn (fun c => set_last_header c (Some entry)); mret [header_notification entry]
  end.
(** One turn of the loop over the subscribed script hashes. *)
Definition update_script (script_hash : FullHash) : SR (Session D) (list Json) :=
  new_status_hash ← reading (fun q => current_status q script_hash);
  hashes ← gets (fun s : Session D => status_hashes s.2);
  if decide (hashes !! script_hash = Some new_status_hash) then mret []
  else
    _ ← on_conn (fun c => set_status c (<[script_hash := new_status_hash]> (status_hashes c)));
    mret [status_notification script_hash new_status_hash].
(** [order] is the order in which the hash map is traversed. *)
Definition update_subscriptions (order : list FullHash) : SR (Session D) (list Json) :=
  header ← update_header;
  changed ← sr_map update_script order;
  mret (header ++ concat changed).

(** ** Clients *)

Definition set_proxy_client (addresses : option (list SocketAddr)) (c : Connection) : Connection :=
  set_proxy c (match haproxy_depth cfg, addresses with
               | 0, _ => None
               | _, None => None
               | S depth, Some addrs => addrs !! depth
               end).
Definition client_key (c : Connection) : option IpAddr :=
  match proxy_client c with Some addr => Some addr.1 | None => direct_ip c end.
Definition register_client : SR (Session D) unit := fun s =>
  let '(sh, c) := s in
  if decide (connections_per_client cfg = 0) then (s, Ok tt)
  else
    match client_key c with
    | None => (s, Ok tt)
    | Some key =>
        let count := default 0 (client_counts sh !! key) in
        if decide (connections_per_client cfg <= count) then
          ((set_counts sh (<[key := count]> (client_counts sh)), c), Err (Msg "too many connections from client"))
        else
          ((set_counts sh (<[key := S count]> (client_counts sh)), set_registered c (Some key)), Ok tt)
    end.
(** [*count -= 1] wraps at zero. *)
Definition unregister_client (s : Session D) : Session D :=
  let '(sh, c) := s in
  match registered_ip c with
  | None => s
  | Some key =>
      match client_counts sh !! key with
      | None => (sh, set_registered c None)
      | Some count =>
          let count := Z.to_nat (wrap64 (Z.of_nat count - 1)) in
          (set_counts sh (if decide (count = 0) then delete key (client_counts sh)
                          else <[key := count]> (client_counts sh)), set_registered c None)
      end
  end.

(** ** The HTTP adapter *)

(** What a method does: code over the query, or an error with its code. *)
Definition http_handler (now later : Z) (method : Text) params : SR (Query D) Json + JsonRpcV2Error * Text :=
  if method_is method "server.version" then inl (mret server_version)
  else if method_is method "server.banner" then inl (mret (JStr (electrum_banner cfg)))
  else if method_is method "server.ping" then inl (mret JNull)
  else if method_is method "server.donation_address" then inl (mret JNull)
  else if method_is method "blockchain.relayfee" then inl (f ← get_relayfee rpc; mret (JFloat f))
  else if method_is method "blockchain.estimatefee" then
    inl (blocks ← lift (usize_from_value (params !! 0) "blocks");
         o ← estimate_fee qcfg rpc now later (as_u16 blocks);
         mret (JFloat (default (f64_of_Z (-1)) o)))
  else if method_is method "blockchain.transaction.broadcast" then
    inl (tx ← lift (ok_or (Msg "missing tx") (params !! 0));
         tx ← lift (ok_or (Msg "non-string tx") (as_str tx));
         txid ← broadcast_raw mcfg rpc tx; mret (jhash txid))
  else if method_is method "blockchain.transaction.broadcast_package" then
    inl (txs ← lift (ok_or (Msg "missing transactions") (params !! 0));
         txhexes ← lift (ok_or (Msg "non-array transactions") (strings_from_value txs));
         verbose ← lift (bool_from_value_or (params !! 1) "verbose" false);
         result ← lift (submit_package txhexes);
         mret (into_electrum_response result verbose))
  else if method_is method "blockchain.transaction.get" then
    inl (tx_hash ← lift (hash_from_value (params !! 0));
         o ← (fun q => (q, lookup_raw_txn q tx_hash));
         tx ← lift (ok_or (Msg "missing transaction") o);
         mret (JStr (hex_encode tx)))
  else if method_is method "mempool.get_fee_histogram" then inl (gets mempool_get_fee_histogram)
  else if method_is method "blockchain.headers.subscribe" || method_is method "blockchain.scripthash.subscribe" then
    inr (InvalidRequest, text_of "subscriptions are not available over HTTP JSON-RPC; use the unix socket")
  else inr (MethodNotFound, text_of "Method " ++ method ++ text_of " not found").

Definition handle_http_jsonrpc_value (now later : Z) (value : Json) : SR (Query D) Json :=
  match json_get value (text_of "method"), default (JArr []) (json_get value (text_of "params")),
        json_get value (text_of "id") with
  | Some (JStr method), JArr params, Some id =>
      match http_handler now later method params with
      | inr (code, e) => mret (json_rpc_error e (Some id) code)
      | inl handler => fun q =>
          match handler q with
          | (q', Ok result) => (q', Ok (json_rpc_result id result))
          | (q', Err e) => (q', Ok (json_rpc_error (display_error e) (Some id) InternalError))
          | (q', Panic) => (q', Panic)
          | (q', Diverge) => (q', Diverge)
          end
      end
  | _, _, Some id => mret (json_rpc_error (json_display value) (Some id) InvalidRequest)
  | _, _, _ => mret (json_rpc_error (json_display value) None InvalidRequest)
  end.

Definition handle_http_jsonrpc_body (now later : Z) (body : Text) : SR (Query D) Json :=
  match json_parse body with
  | inr (JArr arr) => arr' ← sr_map (handle_http_jsonrpc_value now later) arr; mret (JArr arr')
  | inr cmd => handle_http_jsonrpc_value now later cmd
  | inl err => mret (json_rpc_error (text_of "Invalid JSON: " ++ err) None ParseError)
  end.
End electrum.
