(* ===== verification/ElectrumFacts.v ===== *)
(** * What an Electrum client can rely on

    Statuses determine the history they were computed from, histories are complete or
    refused, and a periodic update tells a client exactly the subscriptions whose status
    changed.  [answers_line] says what a reply to a line must be: one reply for each
    request, with its id. *)

From S2P Require Import Prelude Iter RocksDB DB Bitcoin HeaderList Rows Fetch Fees.
From S2P Require Import Indexer IndexerSync ChainQuery ChainView ChainBlocks ChainHistory.
From S2P Require Import ScriptStats ScriptUtxo Mempool MempoolIndex MempoolUpdate MempoolQueries.
From S2P Require Import Merkle Query QueryFacts Text Json Electrum.

Lemma sr_bind_eq {S A B} (m : SR S A) (f : A -> SR S B) s :
  (m ≫= f) s = match m s with
               | (s', Ok a) => f a s' | (s', Err e) => (s', Err e)
               | (s', Panic) => (s', Panic) | (s', Diverge) => (s', Diverge)
               end.
Proof. done. Qed.

(** ** Versions *)

Lemma display_usize_no_dot n : (0 <= n)%Z -> 46%Z ∉ display_usize n.
Proof.
  intros Hn Hin. pose proof (display_usize_digits n Hn) as Hd. rewrite Forall_forall in Hd.
  apply Hd in Hin. unfold is_digit in Hin. lia.
Qed.

(** Reading a printed protocol version gives it back, and whatever follows a second dot
    is ignored. *)
Lemma protocol_version_roundtrip v rest :
  is_u64 (major v) -> is_u64 (minor v) ->
  version_from_str (display_version v) = Ok v /\
  version_from_str (display_version v ++ text_of "." ++ rest) = Ok v.
Proof.
  intros Hma Hmi. destruct v as [ma mi]. unfold display_version. cbn [major minor] in *.
  change (text_of ".") with [46%Z].
  pose proof (display_usize_no_dot ma ltac:(unfold is_u64 in *; lia)) as Ha. pose proof (display_usize_no_dot mi ltac:(unfold is_u64 in *; lia)) as Hb.
  assert (forall t ps, split_on 46 t = display_usize ma :: display_usize mi :: ps -> version_from_str t = Ok (mkVersion ma mi)) as Hv.
  { intros t ps Ht. unfold version_from_str. rewrite Ht. cbn [head tail ok_or mbind result_bind].
    by rewrite !parse_display_usize by done. }
  split.
  - apply (Hv _ []). change (display_usize ma ++ [46%Z] ++ display_usize mi) with (display_usize ma ++ 46%Z :: display_usize mi).
    by rewrite split_on_joined, split_on_none by done.
  - apply (Hv _ (split_on 46 rest)). rewrite <- !(assoc app).
    change (display_usize ma ++ [46%Z] ++ display_usize mi ++ [46%Z] ++ rest)
      with (display_usize ma ++ 46%Z :: (display_usize mi ++ 46%Z :: rest)).
    by rewrite !split_on_joined by done.
Qed.
Example protocol_version_roundtrip_ex :
  version_from_str (text_of "1.4") = Ok PROTOCOL_VERSION /\
  version_from_str (text_of "1.4.2") = Ok PROTOCOL_VERSION.
Proof. apply (protocol_version_roundtrip PROTOCOL_VERSION (text_of "2")); done. Defined.

Section facts.
Context {D : Type} {RDB : RocksDB D} {BL : BitcoinLib} {W : Wincode} {EL : ElectrumLib}.
Context (cfg : ElectrumConfig) (qcfg : QueryConfig) (mcfg : MempoolConfig).
Context (rpc : QueryRpc) (submit_package : list Text -> result SubmitPackageResult) (sha256d : Bytes -> FullHash).
Implicit Types (q : Query D) (s : Session D).

(** ** Status hashes *)

(** What a client compares: the transactions and their heights. *)
Definition client_history q (txs : list (Txid * option BlockId)) : list (Txid * Z) :=
  map (fun e => (e.1, history_height q e)) txs.
Definition heights_fit (l : list (Txid * Z)) : Prop := Forall (fun p => - u64_mod < p.2 < u64_mod)%Z l.
Definition part_text (p : Txid * Z) : Text := display_hash p.1 ++ text_of ":" ++ display_isize p.2 ++ text_of ":".

Lemma split_colon a b r r' : 58%Z ∉ a -> 58%Z ∉ b -> a ++ 58%Z :: r = b ++ 58%Z :: r' -> a = b /\ r = r'.
Proof.
  revert b. induction a as [|x a IH]; intros [|y b] Ha Hb; cbn.
  - by intros [= ->].
  - intros [= <- _]. by destruct Hb; left.
  - intros [= -> _]. by destruct Ha; left.
  - intros [= -> H]. apply not_elem_of_cons in Ha as [_ Ha], Hb as [_ Hb].
    by destruct (IH b Ha Hb H) as [-> ->].
Qed.
Lemma parts_inj `{!ElectrumLibLaws} l : forall l', heights_fit l -> heights_fit l' ->
  concat (map part_text l) = concat (map part_text l') -> l = l'.
Proof.
  assert (forall p r, part_text p ++ r = display_hash p.1 ++ 58%Z :: display_isize p.2 ++ 58%Z :: r) as Hpt.
  { intros p r. unfold part_text. change (text_of ":") with [58%Z]. by rewrite <- !(assoc app). }
  assert (forall h, 58%Z ∉ display_hash h) as Hh by (intros h Hin; by apply display_hash_alnum in Hin).
  assert (forall n, 58%Z ∉ display_isize n) as Hn.
  { intros n Hin. apply display_isize_chars in Hin as [?|Hd]; [done|]. unfold is_digit in Hd. lia. }
  induction l as [|p l IH]; intros [|p' l'] Hl Hl'; cbn; [done| | |].
  - rewrite Hpt. intros Heq. by destruct (display_hash p'.1).
  - rewrite Hpt. intros Heq. by destruct (display_hash p.1).
  - rewrite !Hpt. intros [Hd [Hi Hr]%split_colon]%split_colon; try done.
    apply Forall_cons in Hl as [Hp Hl], Hl' as [Hp' Hl']. apply display_isize_inj in Hi; [|done..].
    apply (f_equal parse_hash) in Hd. rewrite !parse_display_hash in Hd. injection Hd as Hd.
    f_equal; [by destruct p, p'; cbn in *; subst|by apply IH].
Qed.

(** Two equal statuses stand for the same transactions at the same heights in the same
    order, or exhibit a collision of SHA-256. *)
Lemma status_hash_determines_history `{!ElectrumLibLaws} txs q txs' q' :
  heights_fit (client_history q txs) -> heights_fit (client_history q' txs') ->
  get_status_hash txs q = get_status_hash txs' q' ->
  client_history q txs = client_history q' txs' \/ exists a b, a <> b /\ sha256 a = sha256 b.
Proof.
  intros Hf Hf'. assert (forall q txs, concat (map (status_part q) txs) = concat (map part_text (client_history q txs))) as Hc.
  { intros q0 txs0. unfold client_history. by rewrite map_map. }
  unfold get_status_hash. destruct txs as [|e txs], txs' as [|e' txs']; [by left|done|done|].
  rewrite !Hc. intros [= Heq].
  destruct (decide (concat (map part_text (client_history q (e :: txs))) =
                    concat (map part_text (client_history q' (e' :: txs'))))) as [He|He]; [|right; eauto].
  left. by apply parts_inj.
Qed.

(** ** Histories *)

(** The history of a script: the transactions that touch it on the best chain with
    their blocks, oldest block first, then those of the mempool. *)
Definition full_history (icfg : IndexerConfig) (block_of : BlockHash -> Block)
    (A : gmap Txid (Transaction * gmap Z TxOut)) q sh (all : list (Txid * option BlockId)) : Prop :=
  exists (L : list (Txid * BlockId)) (U : list Txid),
    all = map (fun p => (p.1, Some p.2)) L ++ map (fun tx => (tx, None)) U /\
    NoDup L.*1 /\ NoDup U /\
    (forall txid b, (txid, b) ∈ L <-> exists p, script_event icfg block_of (q_chain q) sh p /\
       row_get_txid p.1 = txid /\ p.2 = b) /\
    (forall txid, txid ∈ U <-> exists p e, A !! txid = Some p /\ (sh, e) ∈ tx_entries mcfg txid p) /\
    StronglySorted (fun i i' => bid_height i.2 <= bid_height i'.2) L.

(** A history is never cut off silently: up to the limit it is the whole history of the
    script, above it the request is refused.  The status a client is told is the
    hash of that whole history, null when it is empty. *)
Lemma electrum_history_complete `{!RocksDBLaws D, !WincodeLaws} icfg block_of q A sh :
  query_synced icfg block_of (q_chain q) -> refines mcfg (q_mempool q) A ->
  is_u64 (Z.of_nat (txs_limit cfg) + 1) ->
  exists all, full_history icfg block_of A q sh all /\
    (if decide (length all <= txs_limit cfg)
     then get_history q sh (txs_limit cfg) = Ok all /\
          current_status cfg q sh = Ok (status_text (get_status_hash all q)) /\
          (current_status cfg q sh = Ok None <-> all = [])
     else get_history q sh (txs_limit cfg) = Err (TooManyTxs (Z.of_nat (txs_limit cfg))) /\
          current_status cfg q sh = Err (TooManyTxs (Z.of_nat (txs_limit cfg)))).
Proof.
  intros Hs Hr Hu. destruct (query_history_txids icfg block_of mcfg q A sh Hs Hr) as (L & U & HL & HU & H1 & H2 & H3 & Hall).
  eexists. split; [by exists L, U|]. unfold current_status, get_history. rewrite wrap64_id by done. rewrite Hall.
  set (all := map _ L ++ map _ U). cbn [mbind result_bind].
  replace (Z.to_nat (Z.of_nat (txs_limit cfg) + 1)) with (S (txs_limit cfg)) by lia.
  destruct (decide (length all <= txs_limit cfg)) as [Hle|Hgt].
  - rewrite take_ge, decide_True by lia. cbn. split; [done|]. split; [done|].
    unfold get_status_hash. by destruct all.
  - rewrite length_take. rewrite decide_False by lia. done.
Qed.

(** ** The periodic update *)

Abbreviation current := (current_status cfg).
Definition status_now q (h : FullHash) : option Text :=
  match current q h with Ok st => st | _ => None end.
(** The subscriptions whose status differs from the one the client was told. *)
Definition changed q (m : gmap FullHash (option Text)) (order : list FullHash) : list (FullHash * option Text) :=
  omap (fun h => if decide (m !! h = Some (status_now q h)) then None else Some (h, status_now q h)) order.
Definition refresh q (m : gmap FullHash (option Text)) (order : list FullHash) : gmap FullHash (option Text) :=
  foldl (fun m h => <[h := status_now q h]> m) m order.
(** A client keeps the last status it was told for each script hash. *)
Definition client_apply (view : gmap FullHash (option Text)) (n : FullHash * option Text) :
    gmap FullHash (option Text) := <[n.1 := n.2]> view.

Lemma set_status_id c : set_status c (status_hashes c) = c.
Proof. by destruct c. Qed.
Lemma set_status_twice c m m' : set_status (set_status c m) m' = set_status c m'.
Proof. by destruct c. Qed.
Lemma changed_insert q m h st order : h ∉ order -> changed q (<[h := st]> m) order = changed q m order.
Proof.
  unfold changed. induction order as [|h' order IH]; [done|]. intros [Hne Hn]%not_elem_of_cons. cbn.
  rewrite lookup_insert_ne by done. by rewrite IH.
Qed.
Lemma refresh_lookup q order : forall m h,
  refresh q m order !! h = if decide (h ∈ order) then Some (status_now q h) else m !! h.
Proof.
  unfold refresh. induction order as [|h' order IH]; intros m h; cbn [foldl]; [by rewrite decide_False by apply not_elem_of_nil|].
  rewrite IH. destruct (decide (h ∈ order)) as [Hi|Hi]; [by rewrite decide_True by (by right)|].
  destruct (decide (h = h')) as [->|Hne]; [rewrite decide_True by (by left); apply lookup_insert_eq|].
  rewrite lookup_insert_ne by done. rewrite decide_False; [done|]. rewrite elem_of_cons. tauto.
Qed.
Lemma client_apply_changed q order : forall m, NoDup order ->
  foldl client_apply m (changed q m order) = refresh q m order.
Proof.
  induction order as [|h order IH]; intros m Hnd; [done|]. apply NoDup_cons in Hnd as [Hn Hnd].
  unfold changed, refresh. cbn. fold (changed q m order). fold (refresh q (<[h:=status_now q h]> m) order).
  destruct (decide _) as [He|He]; cbn [foldl].
  - rewrite (insert_id m h (status_now q h)) by done. by apply IH.
  - unfold client_apply at 2. cbn [fst snd]. rewrite <- (changed_insert q m h (status_now q h)) by done. by apply IH.
Qed.

(** One turn, on every branch. *)
Lemma update_script_run h s :
  update_script cfg h s =
  match current (sh_query s.1) h with
  | Ok st => ((s.1, set_status s.2 (<[h := st]> (status_hashes s.2))),
              Ok (if decide (status_hashes s.2 !! h = Some st) then [] else [status_notification h st]))
  | Err e => (s, Err e)
  | Panic => (s, Panic)
  | Diverge => (s, Diverge)
  end.
Proof.
  unfold update_script, reading, gets, on_conn, modify, mbind, SR_bind. destruct (current _ h) as [st|e| |]; [|done..].
  destruct (decide _) as [He|He]; [|done]. rewrite insert_id by done. rewrite set_status_id. by destruct s.
Qed.
(** How the loop ends and where it comes from. *)
Definition ends_as {A} (f : FullHash -> result A) (l : list FullHash) {B} (r : result B) : Prop :=
  match r with
  | Ok _ => Forall (fun h => is_ok (f h)) l
  | Err e => Exists (fun h => f h = Err e) l
  | Panic => Exists (fun h => f h = Panic) l
  | Diverge => Exists (fun h => f h = Diverge) l
  end.
Lemma update_scripts_run order : forall s, NoDup order ->
  let '(s', r) := sr_map (update_script cfg) order s in
  ends_as (current (sh_query s.1)) order r /\
  forall out, r = Ok out ->
    s' = (s.1, set_status s.2 (refresh (sh_query s.1) (status_hashes s.2) order)) /\
    concat out = map (fun n => status_notification n.1 n.2) (changed (sh_query s.1) (status_hashes s.2) order).
Proof.
  induction order as [|h order IH]; intros s Hnd.
  { cbn. split; [constructor|]. intros out [= <-]. cbn. rewrite set_status_id. by destruct s. }
  apply NoDup_cons in Hnd as [Hn Hnd]. cbn [sr_map]. rewrite sr_bind_eq, update_script_run.
  destruct (current (sh_query s.1) h) as [st|e| |] eqn:Hst;
    [|split; [by constructor|done]..]. cbn beta iota.
  specialize (IH (s.1, set_status s.2 (<[h:=st]> (status_hashes s.2))) Hnd). rewrite sr_bind_eq.
  destruct (sr_map (update_script cfg) order _) as [s' r]. destruct IH as [He Hout]. cbn [fst snd] in *.
  assert (status_now (sh_query s.1) h = st) as Hnow by (unfold status_now; by rewrite Hst).
  destruct r as [out|e| |]; cbn in He |- *; [|split; [by right|done]..].
  split; [constructor; [by exists st|done]|]. intros out' [= <-].
  destruct (Hout out eq_refl) as [-> Hcat]. rewrite set_status_twice. split.
  - unfold refresh. cbn [foldl]. by rewrite Hnow.
  - cbn [concat]. rewrite Hcat. cbn [status_hashes set_status]. rewrite changed_insert by done.
    unfold changed. cbn [omap list_omap]. rewrite Hnow. by destruct (decide _).
Qed.

Lemma update_header_run s :
  update_header s =
  match last_header_entry s.2 with
  | None => (s, Ok [])
  | Some last =>
      match best_header (q_chain (sh_query s.1)) with
      | Ok entry => ((s.1, set_last_header s.2 (Some entry)),
                     Ok (if decide (last = entry) then [] else [header_notification entry]))
      | Err e => (s, Err e)
      | Panic => (s, Panic)
      | Diverge => (s, Diverge)
      end
  end.
Proof.
  unfold update_header, reading, gets, on_conn, modify, mbind, SR_bind.
  destruct (last_header_entry s.2) as [last|] eqn:Hl; [|done].
  destruct (best_header _) as [entry|e| |]; [|done..]. destruct (decide _) as [->|]; [|done].
  destruct s as [sh c]. cbn in *. rewrite <- Hl. by destruct c.
Qed.
Lemma best_header_no_err q e : best_header (q_chain q) <> Err e.
Proof.
  unfold best_header, hl_tip. destruct (rassert _) eqn:E; cbn; unfold rassert, unwrap in *; repeat case_match; done.
Qed.

(** What the client of a connection is told by an update, as a relation of the
    session before, the session after and the notifications. *)
Definition update_told s s' (values : list Json) : Prop :=
  let q := sh_query s.1 in let m := status_hashes s.2 in
  exists header notes, values = header ++ map (fun n => status_notification n.1 n.2) notes /\
    (forall h st, (h, st) ∈ notes <-> exists old, m !! h = Some old /\ current q h = Ok st /\ st <> old) /\
    NoDup notes.*1 /\
    foldl client_apply m notes = status_hashes s'.2 /\
    (forall h, match m !! h, status_hashes s'.2 !! h with
               | Some _, Some st => current q h = Ok st | None, None => True | _, _ => False end) /\
    match last_header_entry s.2 with
    | None => header = [] /\ last_header_entry s'.2 = None
    | Some last => exists entry, best_header (q_chain q) = Ok entry /\
        last_header_entry s'.2 = Some entry /\
        header = if decide (last = entry) then [] else [header_notification entry]
    end.
Lemma changed_elem q m order h st :
  (h, st) ∈ changed q m order <-> h ∈ order /\ st = status_now q h /\ m !! h <> Some st.
Proof.
  unfold changed. rewrite list_elem_of_omap. split.
  - intros (h' & Hin & Heq). destruct (decide _); [done|]. by injection Heq as <- <-.
  - intros (Hin & -> & Hne). exists h. split; [done|]. by rewrite decide_False.
Qed.
Lemma changed_NoDup q m order : NoDup order -> NoDup (changed q m order).*1.
Proof.
  induction 1 as [|h order Hn _ IH]; [constructor|]. unfold changed. cbn. fold (changed q m order).
  destruct (decide _); [done|]. cbn. constructor; [|done].
  rewrite list_elem_of_fmap. intros ([h' st] & -> & Hin). by apply changed_elem in Hin as [Hin _].
Qed.

(** The loop and what follows it, after the header. *)
Definition update_tail (order : list FullHash) (header : list Json) : SR (Session D) (list Json) :=
  changed ← sr_map (update_script cfg) order; mret (header ++ concat changed).
Lemma update_tail_run order header s : NoDup order ->
  let '(s', r) := update_tail order header s in
  ends_as (current (sh_query s.1)) order r /\
  forall values, r = Ok values ->
    s' = (s.1, set_status s.2 (refresh (sh_query s.1) (status_hashes s.2) order)) /\
    values = header ++ map (fun n => status_notification n.1 n.2) (changed (sh_query s.1) (status_hashes s.2) order).
Proof.
  intros Hnd. unfold update_tail. rewrite sr_bind_eq. pose proof (update_scripts_run order s Hnd) as Hr.
  destruct (sr_map (update_script cfg) order s) as [s' r]. destruct Hr as [He Hout].
  destruct r as [out|e| |]; [|done..]. split; [done|]. intros values [= <-].
  destruct (Hout out eq_refl) as [-> ->]. done.
Qed.
(** The part of [update_told] about the subscriptions. *)
Lemma changed_told q m order :
  (forall h, h ∈ order <-> h ∈ dom m) -> NoDup order -> Forall (fun h => is_ok (current q h)) order ->
  (forall h st, (h, st) ∈ changed q m order <-> exists old, m !! h = Some old /\ current q h = Ok st /\ st <> old) /\
  NoDup (changed q m order).*1 /\
  foldl client_apply m (changed q m order) = refresh q m order /\
  (forall h, match m !! h, refresh q m order !! h with
             | Some _, Some st => current q h = Ok st | None, None => True | _, _ => False end).
Proof.
  intros Hdom Hnd Hall. rewrite Forall_forall in Hall.
  assert (forall h old, m !! h = Some old -> current q h = Ok (status_now q h)) as Hnow.
  { intros h old Ho. unfold status_now. destruct (Hall h) as [st ->]; [by eapply Hdom, elem_of_dom_2|done]. }
  split; [|split; [by apply changed_NoDup|split; [by apply client_apply_changed|]]].
  - intros h st. rewrite changed_elem, Hdom, elem_of_dom. split.
    + intros ([old Ho] & -> & Hne). exists old. split; [done|]. split; [by eapply Hnow|congruence].
    + intros (old & Ho & Hst & Hne). rewrite (Hnow h old Ho) in Hst. rewrite Ho. split; [eauto|]. split; congruence.
  - intros h. rewrite refresh_lookup. destruct (m !! h) as [old|] eqn:Ho.
    + rewrite decide_True by (by eapply Hdom, elem_of_dom_2). by eapply Hnow.
    + rewrite decide_False; [done|]. by rewrite Hdom, not_elem_of_dom.
Qed.
Lemma ends_as_dom {A} order s (r : result A) :
  (forall h, h ∈ order <-> h ∈ dom (status_hashes s.2)) ->
  ends_as (current (sh_query s.1)) order r ->
  match r with
  | Ok _ => True
  | Err e => exists h, h ∈ dom (status_hashes s.2) /\ current (sh_query s.1) h = Err e
  | Panic => exists h, h ∈ dom (status_hashes s.2) /\ current (sh_query s.1) h = Panic
  | Diverge => exists h, h ∈ dom (status_hashes s.2) /\ current (sh_query s.1) h = Diverge
  end.
Proof.
  intros Hdom. destruct r as [a|e| |]; [done|..]; intros (h & Hin & Hh)%Exists_exists; exists h; (split; [by apply Hdom|done]).
Qed.

(** C11: The periodic update of a session, whatever order its subscriptions are traversed
    in.  When it succeeds the client has been told exactly the subscriptions whose
    status changed, each once with its current status, and the tip if it changed and
    was subscribed; what the client then knows is the stored statuses, and these are
    the current ones.  It fails with an error only when the history of a subscribed
    script is refused. *)
Theorem update_tells_changes order s :
  order ≡ₚ elements (dom (status_hashes s.2)) ->
  match update_subscriptions cfg order s with
  | (s', Ok values) => s'.1 = s.1 /\ update_told s s' values
  | (_, Err e) => exists h, h ∈ dom (status_hashes s.2) /\ current (sh_query s.1) h = Err e
  | (_, Panic) => best_header (q_chain (sh_query s.1)) = Panic \/
      exists h, h ∈ dom (status_hashes s.2) /\ current (sh_query s.1) h = Panic
  | (_, Diverge) => best_header (q_chain (sh_query s.1)) = Diverge \/
      exists h, h ∈ dom (status_hashes s.2) /\ current (sh_query s.1) h = Diverge
  end.
Proof.
  intros Hp. assert (NoDup order) as Hnd by (rewrite Hp; apply NoDup_elements).
  assert (forall h, h ∈ order <-> h ∈ dom (status_hashes s.2)) as Hdom by (intros h; by rewrite Hp, elem_of_elements).
  change (update_subscriptions cfg order s) with ((header ← update_header; update_tail order header) s).
  rewrite sr_bind_eq, update_header_run.
  destruct (last_header_entry s.2) as [last|] eqn:Hl.
  - destruct (best_header _) as [entry|e| |] eqn:Hb; [|by apply best_header_no_err in Hb|by left..].
    pose proof (update_tail_run order (if decide (last = entry) then [] else [header_notification entry])
      (s.1, set_last_header s.2 (Some entry)) Hnd) as Hr.
    destruct (update_tail _ _ _) as [s' r]. destruct Hr as [He Hout]. cbn [fst snd status_hashes set_last_header] in *.
    pose proof (ends_as_dom order s r Hdom He) as Hd. destruct r as [values|e| |]; [|done|by right..].
    destruct (Hout values eq_refl) as [-> ->]. split; [done|].
    destruct (changed_told _ (status_hashes s.2) order Hdom Hnd He) as (H1 & H2 & H3 & H4).
    eexists _, _. split; [done|]. rewrite Hl. do 4 (split; [done|]). by exists entry.
  - pose proof (update_tail_run order [] s Hnd) as Hr.
    destruct (update_tail _ _ _) as [s' r]. destruct Hr as [He Hout].
    pose proof (ends_as_dom order s r Hdom He) as Hd. destruct r as [values|e| |]; [|done|by right..].
    destruct (Hout values eq_refl) as [-> ->]. split; [done|].
    destruct (changed_told _ (status_hashes s.2) order Hdom Hnd He) as (H1 & H2 & H3 & H4).
    eexists [], _. split; [done|]. rewrite Hl. do 4 (split; [done|]). split; [done|]. by destruct s as [? []].
Qed.

(** ** Requests and replies *)

Definition error_value (code : JsonRpcV2Error) (msg : Text) : Json :=
  jobj [("code", JInt (into_i16 code)); ("message", JStr msg)].
(** A reply to a request: the version, the id of the request, and either a result or
    an error.  A request without a method name, a list of parameters and an id is
    answered as invalid. *)
Definition well_formed (value : Json) : Prop :=
  exists method params id, json_get value (text_of "method") = Some (JStr method) /\
    default (JArr []) (json_get value (text_of "params")) = JArr params /\
    json_get value (text_of "id") = Some id.
Definition reply_to (value reply : Json) : Prop :=
  json_get reply (text_of "jsonrpc") = Some (jstr "2.0") /\
  json_get reply (text_of "id") = json_get value (text_of "id") /\
  ((exists r, json_get reply (text_of "result") = Some r /\ json_get reply (text_of "error") = None /\ well_formed value) \/
   (exists code msg, json_get reply (text_of "result") = None /\
      json_get reply (text_of "error") = Some (error_value code msg) /\ (~ well_formed value -> code = InvalidRequest))).

Lemma result_replies value id r :
  well_formed value -> json_get value (text_of "id") = Some id -> reply_to value (json_rpc_result id r).
Proof. intros Hw Hid. unfold reply_to, json_rpc_result. autorewrite with json. rewrite Hid. split; [done|]. split; [done|]. left. by exists r. Qed.
Lemma error_replies value code msg :
  (~ well_formed value -> code = InvalidRequest) ->
  reply_to value (json_rpc_error msg (json_get value (text_of "id")) code).
Proof.
  intros Hc. unfold reply_to, json_rpc_error. destruct (json_get value (text_of "id")) as [id|]; cbn [app];
    autorewrite with json; (split; [done|]; split; [done|]; right; by exists code, msg).
Qed.

(** What a line of text is answered with. *)
Definition answers_line (line : Text) (reply : Json) : Prop :=
  match json_parse line with
  | inr (JArr arr) => exists replies, reply = JArr replies /\ Forall2 reply_to arr replies
  | inr value => reply_to value reply
  | inl _ => exists msg, json_get reply (text_of "error") = Some (error_value ParseError msg) /\
      json_get reply (text_of "id") = None
  end.
End facts.

(** ** Witnesses *)

(** Hashes shown as their bytes, colons avoided; JSON of one known line. *)
Definition ex_display (h : FullHash) : Text :=
  map (fun b => if (b <? 58)%Z then b else (b + 1)%Z) (as_bytes h) ++ replicate 32 48%Z.
Definition ex_parse (t : Text) : option FullHash :=
  mk_hash (map (fun c => if (c <? 58)%Z then c else (c - 1)%Z) (take 32 t)).
Definition ex_ping (id : Z) : Json :=
  jobj [("id", JInt id); ("method", jstr "server.ping"); ("params", JArr [])].
Definition ExampleElectrum : ElectrumLib := {|
  parse_hash := ex_parse;
  display_hash := ex_display;
  hex_encode b := b;
  json_parse t := if decide (t = text_of "batch") then inr (JArr [ex_ping 1; JNull; ex_ping 2])
                  else inl (text_of "unexpected");
  json_display _ := [];
|}.
Lemma ExampleElectrum_laws : @ElectrumLibLaws ExampleElectrum.
Proof.
  split; cbn.
  - intros h. unfold ex_display. by rewrite length_app, length_map, as_bytes_length.
  - intros h c. unfold ex_display. rewrite elem_of_app, elem_of_map. intros [(b & -> & _)|Hr].
    + destruct (Z.ltb_spec b 58); lia.
    + apply elem_of_replicate in Hr as [-> _]. done.
  - intros h. unfold ex_display, ex_parse.
    rewrite take_app_length' by (by rewrite length_map, as_bytes_length). rewrite map_map.
    rewrite (map_ext _ id), map_id, mk_hash_as_bytes; [done|].
    intros b. destruct (Z.ltb_spec b 58); [destruct (Z.ltb_spec b 58); unfold id; lia|].
    destruct (Z.ltb_spec (b + 1) 58); unfold id; lia.
Qed.
Definition ex_features : ServerFeatures :=
  mkFeatures [] null_hash (text_of "splora") PROTOCOL_VERSION PROTOCOL_VERSION None (text_of "sha256").
Definition ex_ecfg : ElectrumConfig :=
  mkElectrumConfig (text_of "Welcome") (text_of "splora") ex_features 200 1000000 100 10 600 1 2.
Definition ex_unconfirmed : list (Txid * option BlockId) := [(hash_repeat 7, None)].

Lemma status_hash_determines_history_witness :
  exists q : Query KvMap,
    (client_history q ex_unconfirmed = client_history q (rev ex_unconfirmed) \/
     exists a b, a <> b /\ @sha256 ExampleLib a = @sha256 ExampleLib b).
Proof.
  destruct ex_both_exist as (q & _). exists q.
  apply (@status_hash_determines_history KvMap ExampleLib ExampleElectrum ExampleElectrum_laws).
  - constructor; [|constructor]. cbn. unfold history_height. cbn. destruct (has_unconfirmed_parents _ _); cbn; unfold u64_mod; lia.
  - constructor; [|constructor]. cbn. unfold history_height. cbn. destruct (has_unconfirmed_parents _ _); cbn; unfold u64_mod; lia.
  - reflexivity.
Defined.

Lemma electrum_history_complete_witness :
  exists (q : Query KvMap) A all,
    @full_history KvMap ExampleLib ex_mcfg ex_cfg ex_block_of A q ex_script all /\
    if decide (length all <= 200) then @get_history KvMap _ FixintWincode q ex_script 200 = Ok all
    else @get_history KvMap _ FixintWincode q ex_script 200 = Err (TooManyTxs 200).
Proof.
  destruct ex_both_exist as (q & A & Hq & _ & _ & Hr & _).
  destruct (@electrum_history_complete KvMap _ ExampleLib FixintWincode ExampleElectrum ex_ecfg ex_mcfg _
    FixintWincode_laws ex_cfg ex_block_of q A ex_script Hq Hr) as (all & Hall & H); [by vm_compute|].
  exists q, A, all. split; [exact Hall|]. cbn [txs_limit ex_ecfg] in H.
  destruct (decide (length all <= 200)); [exact (proj1 H)|exact (proj1 H)].
Defined.
Definition ex_session (q : Query KvMap) : Session KvMap :=
  (mkShared q 1 1 ∅, set_status (connection_new 0 None) {[ex_script := Some (text_of "stale")]}).
Lemma ex_session_dom q : dom (status_hashes (ex_session q).2) = {[ex_script]}.
Proof. apply dom_singleton_L. Qed.
Lemma update_tells_changes_witness :
  exists q : Query KvMap,
    match @update_subscriptions KvMap _ ExampleLib FixintWincode ExampleElectrum ex_ecfg [ex_script] (ex_session q) with
    | (s', Ok values) => @update_told KvMap _ ExampleLib FixintWincode ExampleElectrum ex_ecfg (ex_session q) s' values
    | (_, Err e) => @current_status KvMap _ ExampleLib FixintWincode ExampleElectrum ex_ecfg q ex_script = Err e
    | _ => True
    end.
Proof.
  destruct ex_both_exist as (q & _). exists q.
  pose proof (@update_tells_changes KvMap _ ExampleLib FixintWincode ExampleElectrum ex_ecfg [ex_script] (ex_session q)) as H.
  destruct (update_subscriptions ex_ecfg [ex_script] (ex_session q)) as [s' [values|e| |]].
  - apply H. by rewrite ex_session_dom, elements_singleton.
  - destruct H as (h & Hin & He); [by rewrite ex_session_dom, elements_singleton|].
    rewrite ex_session_dom, elem_of_singleton in Hin. subst h. exact He.
  - exact I.
  - exact I.
Defined.
