(* ===== verification/ElectrumAnswers.v ===== *)
(** * Every request is answered

    No handler of the Electrum server and of its HTTP adapter panics or loops while the
    index is synced and bitcoind replies: [safe] says that code keeps an invariant and
    returns, the lemmas go from the queries the handlers make to the handlers, the
    dispatchers, batches and lines. *)

From S2P Require Import Prelude Iter RocksDB DB Bitcoin HeaderList Rows Fetch Fees.
From S2P Require Import Indexer IndexerSync ChainQuery ChainView ChainBlocks ChainHistory.
From S2P Require Import ScriptStats ScriptUtxo Mempool MempoolIndex MempoolUpdate MempoolQueries.
From S2P Require Import Merkle Query QueryFacts Text Json Electrum ElectrumFacts.

(** ** Code that returns *)

(** A value or an error, not a panic or a loop. *)
Definition returns {A} (r : result A) : Prop :=
  match r with Ok _ | Err _ => True | Panic | Diverge => False end.
Definition safe {S A} (I : S -> Prop) (m : SR S A) : Prop := forall s, I s -> I (m s).1 /\ returns (m s).2.

Lemma returns_bind {A B} (m : result A) (f : A -> result B) :
  returns m -> (forall a, m = Ok a -> returns (f a)) -> returns (m ≫= f).
Proof. intros Hm Hf. destruct m; [by apply Hf|done..]. Qed.
Lemma returns_ok_or {A} e (o : option A) : returns (ok_or e o).
Proof. by destruct o. Qed.
Lemma returns_chain_err {A} msg (r : result A) : returns r -> returns (chain_err msg r).
Proof. by destruct r. Qed.
Lemma returns_is_ok {A} (r : result A) : is_ok r -> returns r.
Proof. by intros [? ->]. Qed.
Lemma returns_rmap {A B} (f : A -> result B) l : (forall a, returns (f a)) -> returns (rmap f l).
Proof.
  intros Hf. induction l as [|a l IH]; [done|]. cbn [rmap]. apply returns_bind; [done|]. intros b _.
  apply returns_bind; [done|]. by intros.
Qed.

Lemma safe_bind {S A B} (I : S -> Prop) (m : SR S A) (f : A -> SR S B) :
  safe I m -> (forall a, safe I (f a)) -> safe I (m ≫= f).
Proof.
  intros Hm Hf s Hs. rewrite sr_bind_eq. specialize (Hm s Hs). destruct (m s) as [s' [a|e| |]]; [|done..]. by apply Hf, Hm.
Qed.
Lemma safe_ret {S A} (I : S -> Prop) (a : A) : safe I (mret a). Proof. by intros s Hs. Qed.
Lemma safe_lift {S A} (I : S -> Prop) (r : result A) : returns r -> safe I (lift r).
Proof. by intros Hr s Hs. Qed.
Lemma safe_gets {S A} (I : S -> Prop) (f : S -> A) : safe I (gets f). Proof. by intros s Hs. Qed.
Lemma safe_modify {S} (I : S -> Prop) f : (forall s, I s -> I (f s)) -> safe I (modify f).
Proof. intros Hf s Hs. split; [by apply Hf|done]. Qed.

Create HintDb returns discriminated.
#[export] Hint Resolve returns_bind returns_ok_or returns_chain_err returns_rmap : returns.
#[export] Hint Resolve safe_bind safe_ret safe_lift safe_gets : returns.

(** ** What the handlers ask *)

Section answers.
Context {D : Type} {RDB : RocksDB D} {RDBL : RocksDBLaws D}.
Context {BL : BitcoinLib} {BLaws : BitcoinLaws} {W : Wincode} {WL : WincodeLaws} {EL : ElectrumLib}.
Context (icfg : IndexerConfig) (block_of : BlockHash -> Block).
Context (cfg : ElectrumConfig) (qcfg : QueryConfig) (mcfg : MempoolConfig).
Context (rpc : QueryRpc) (submit_package : list Text -> result SubmitPackageResult) (sha256d : Bytes -> FullHash).
Implicit Types q : Query D.

(** A query over a synced, non-empty index that is not in light mode, with valid caches
    and a consistent mempool. *)
Definition caches_ok (c : ChainQuery D) : Prop := forall sh rows,
  history_view icfg block_of c sh rows -> stats_cache_ok c sh rows /\ utxo_cache_ok c sh rows.
Record serving q : Prop := {
  sg_synced : query_synced icfg block_of (q_chain q);
  sg_full : full_mode icfg (q_chain q);
  sg_some : headers (cq_headers (q_chain q)) <> [];
  sg_length : (Z.of_nat (length (headers (cq_headers (q_chain q)))) < u32_mod)%Z;
  sg_caches : caches_ok (q_chain q);
  sg_pool : exists A, refines mcfg (q_mempool q) A;
}.
(** Bitcoind replies, and gives a fee rate where it reports no errors. *)
Record rpc_returns : Prop := {
  rr_mempool : rpc_replies (qr_mempool rpc);
  rr_send txhex : returns (qr_sendrawtransaction rpc txhex);
  rr_fees targets : match qr_estimatesmartfee rpc targets with
    | Ok replies => forall r, r ∈ replies -> fr_errors_null r = true -> is_Some (fr_feerate r)
    | Err _ => True | _ => False end;
  rr_relay : returns (qr_relayfee rpc);
  rr_package txhexes : returns (submit_package txhexes);
}.

Lemma header_returns q h : serving q -> returns (cq_header_by_height (q_chain q) h).
Proof.
  intros Hq. unfold cq_header_by_height. by rewrite (header_by_height_wf _ _ (sy_wf _ _ _ (sg_synced q Hq))).
Qed.
Lemma hash_by_height_eq q h : serving q ->
  hash_by_height (q_chain q) h = Ok (he_hash <$> headers (cq_headers (q_chain q)) !! h).
Proof.
  intros Hq. unfold hash_by_height. rewrite (header_by_height_wf _ _ (sy_wf _ _ _ (sg_synced q Hq))).
  by destruct (_ !! h).
Qed.
Lemma best_header_returns q : serving q -> returns (best_header (q_chain q)).
Proof.
  intros Hq. assert (hl_wf (cq_headers (q_chain q))) as Hw by exact (sy_wf _ _ _ (sg_synced q Hq)).
  unfold best_header, hl_tip.
  rewrite (bool_decide_eq_true_2 _ (wf_tip _ Hw)). cbn [rassert mbind result_bind]. rewrite (wf_tip _ Hw).
  unfold last_hash. pose proof (sg_some q Hq) as Hne.
  destruct (last (headers (cq_headers (q_chain q)))) as [e|] eqn:El; [|by apply last_None in El].
  assert (header_by_blockhash (cq_headers (q_chain q)) (he_hash e) = Some e) as Hb.
  { apply (header_by_blockhash_Some _ _ _ Hw). split; [|done]. by apply last_Some_elem_of. }
  by rewrite Hb.
Qed.
(** Inside the list the Merkle branch is computed. *)
Lemma merkle_returns hashes index : index < length hashes ->
  returns (create_merkle_branch_and_root sha256d hashes index).
Proof.
  intros [h Hh]%lookup_lt_is_Some_2. unfold create_merkle_branch_and_root.
  destruct (branch_loop_ok sha256d hashes (S (length hashes)) 0 hashes index h []
    (is_row_0 sha256d hashes) Hh ltac:(lia)) as (branch & root & -> & _). done.
Qed.
Lemma header_proof_returns q height cp : serving q -> returns (get_header_merkle_proof sha256d (q_chain q) height cp).
Proof.
  intros Hq. unfold get_header_merkle_proof. case_decide as H1; [done|]. case_decide; [done|].
  apply returns_bind.
  { apply returns_rmap. intros h. by rewrite hash_by_height_eq. }
  intros os Hos. apply returns_bind; [apply returns_ok_or|]. intros hashes Hh. apply merkle_returns.
  apply rmap_Ok_Forall2, Forall2_length in Hos. rewrite length_seq in Hos.
  destruct (mapM id os) as [l|] eqn:Em; [|done]. injection Hh as <-. apply length_mapM in Em. lia.
Qed.
Lemma block_txids_return q h : serving q -> returns (get_block_txids (q_chain q) h).
Proof.
  intros Hq. pose proof (sg_full q Hq) as Hf. pose proof (sg_synced q Hq) as Hs.
  destruct (decide (Exists (fun b => he_hash (be_entry b) = h) (chain_of block_of (q_chain q)))) as [He|He].
  - apply Exists_exists in He as (b & Hb & <-). by rewrite (block_txids_in icfg block_of _ b).
  - unfold get_block_txids, db_get, txids_key. rewrite (proj2 Hf), (block_rows_out icfg block_of _ h 88); [done|done|by left|].
    intros b Hb Hh. apply He, Exists_exists. by exists b.
Qed.
Lemma confirming_returns q txid : serving q -> returns (tx_confirming_block (q_chain q) txid).
Proof.
  intros Hq. pose proof (transaction_lookup_exact icfg block_of _ txid (sg_synced q Hq) (sg_full q Hq)) as Hl.
  destruct (ChainQuery.lookup_txn _ _ _) as [[tx|]| | |]; [|by destruct Hl as [-> _]|done..].
  by destruct Hl as (_ & b & _ & _ & ->).
Qed.
Lemma tx_proof_returns q txid bh : serving q -> returns (get_tx_merkle_proof sha256d (q_chain q) txid bh).
Proof.
  intros Hq. unfold get_tx_merkle_proof. apply returns_bind; [by apply block_txids_return|]. intros o _.
  apply returns_bind; [apply returns_ok_or|]. intros txids _. apply returns_bind; [apply returns_ok_or|]. intros pos Hp.
  apply returns_bind; [|done]. apply merkle_returns.
  destruct (list_find _ txids) as [[i x]|] eqn:E; [|done]. injection Hp as <-.
  apply list_find_Some in E as (Hi & _). by eapply lookup_lt_Some.
Qed.
Lemma id_from_pos_returns q height pos want : serving q -> returns (get_id_from_pos sha256d (q_chain q) height pos want).
Proof.
  intros Hq. unfold get_id_from_pos. apply returns_bind; [by rewrite hash_by_height_eq|]. intros o _.
  apply returns_bind; [apply returns_ok_or|]. intros hh _. apply returns_bind; [by apply block_txids_return|]. intros ot _.
  apply returns_bind; [apply returns_ok_or|]. intros txids _. apply returns_bind; [apply returns_ok_or|]. intros txid Ht.
  apply returns_bind; [|done]. destruct want; [|done]. apply returns_bind; [|done]. apply merkle_returns.
  destruct (txids !! pos) eqn:E; [|done]. by eapply lookup_lt_Some.
Qed.
Lemma raw_txn_returns q txid : serving q -> returns (lookup_raw_txn q txid).
Proof.
  intros Hq. unfold lookup_raw_txn, or_else. apply returns_bind; [|done].
  unfold ChainQuery.lookup_raw_txn. by rewrite (proj2 (sg_full q Hq)).
Qed.
Lemma get_history_returns q sh limit : serving q -> returns (get_history q sh limit).
Proof.
  intros Hq. destruct (sg_pool q Hq) as [A HA].
  destruct (query_history_txids icfg block_of mcfg q A sh (sg_synced q Hq) HA) as (L & U & _ & _ & _ & _ & _ & Hh).
  unfold get_history. rewrite Hh. cbn [mbind result_bind]. by case_decide.
Qed.
Lemma current_status_returns q sh : serving q -> returns (current_status cfg q sh).
Proof. intros Hq. unfold current_status. apply returns_bind; [by apply get_history_returns|done]. Qed.

(** ** What the handlers change *)

(** Only the caches and the mempool of a query change, and the invariant looks at the
    caches key by key. *)
Lemma serving_chain q q' : serving q ->
  cq_store (q_chain q') = set_cache (cq_store (q_chain q)) (cache_db (cq_store (q_chain q'))) ->
  cq_light_mode (q_chain q') = cq_light_mode (q_chain q) ->
  caches_ok (q_chain q') -> (exists A, refines mcfg (q_mempool q') A) -> serving q'.
Proof.
  intros [Hs Hf Hne Hl Hc Hp] Hst Hlm Hc' Hp'. unfold query_synced, full_mode, cq_headers in *.
  assert (indexed_headers (cq_store (q_chain q')) = indexed_headers (cq_store (q_chain q))) as Hh by (by rewrite Hst).
  split; unfold query_synced, full_mode, cq_headers; rewrite ?Hh, ?Hlm; try done.
  rewrite Hst. destruct Hs. by split.
Qed.
Lemma caches_other (c : ChainQuery D) db key :
  caches_ok c -> (forall k, k <> key -> rdb_get db k = rdb_get (cache_db (cq_store c)) k) ->
  (forall sh rows, history_view icfg block_of c sh rows ->
     (stats_cache_key sh = key -> stats_cache_ok (with_cache c db) sh rows) /\
     (utxo_cache_key sh = key -> utxo_cache_ok (with_cache c db) sh rows)) ->
  caches_ok (with_cache c db).
Proof.
  intros Hc Hk Hn sh rows Hv. assert (history_view icfg block_of c sh rows) as Hv' by (destruct Hv; by split).
  destruct (Hc sh rows Hv') as [H1 H2], (Hn sh rows Hv') as [N1 N2]. split.
  - destruct (decide (stats_cache_key sh = key)) as [He|He]; [by apply N1|].
    intros v Hg. cbn in Hg. unfold db_get in Hg. rewrite Hk in Hg by done. by apply (H1 v).
  - destruct (decide (utxo_cache_key sh = key)) as [He|He]; [by apply N2|].
    intros v Hg. cbn in Hg. unfold db_get in Hg. rewrite Hk in Hg by done. by apply (H2 v).
Qed.
Lemma set_cache_same (c : ChainQuery D) : caches_ok c -> caches_ok (with_cache c (cache_db (cq_store c))).
Proof.
  intros Hc. apply (caches_other c _ []); [done|done|]. intros sh rows _. by split.
Qed.

Lemma stats_cache_others (c : ChainQuery D) sh st db k :
  ChainQuery.stats c sh = Ok (st, db) -> k <> stats_cache_key sh ->
  rdb_get db k = rdb_get (cache_db (cq_store c)) k.
Proof.
  unfold ChainQuery.stats. intros (cache & _ & H)%bind_Ok Hk. apply bind_Ok in H as ([new lb] & _ & H).
  destruct lb as [bh|]; [|by injection H as _ <-]. case_decide; injection H as _ <-; [|done].
  apply get_db_write_other. intros r ->%list_elem_of_singleton He. by apply Hk.
Qed.
Lemma utxo_cache_others (c : ChainQuery D) sh limit m db k :
  utxo_set c sh limit = Ok (m, db) -> k <> utxo_cache_key sh ->
  rdb_get db k = rdb_get (cache_db (cq_store c)) k.
Proof.
  unfold utxo_set. intros (cache & _ & H)%bind_Ok Hk. apply bind_Ok in H as ([[new lb] n] & _ & H).
  destruct lb as [bh|]; [|by injection H as _ <-]. destruct (_ || _); injection H as _ <-; [|done].
  apply get_db_write_other. intros r ->%list_elem_of_singleton He. by apply Hk.
Qed.
Lemma cache_keys_differ sh sh' : stats_cache_key sh <> utxo_cache_key sh'.
Proof. discriminate. Qed.

Lemma stats_safe sh : safe serving (stats sh).
Proof.
  intros q Hq. unfold stats. rewrite sr_bind_eq.
  destruct (history_view_exists icfg block_of (q_chain q) sh (sg_synced q Hq)) as [rows Hv].
  destruct (stats_transparent icfg block_of (q_chain q) sh rows (sg_synced q Hq) Hv
    (proj1 (sg_caches q Hq sh rows Hv)) (sg_length q Hq)) as (c' & Hst & Hc'). rewrite Hst. split; [|done].
  apply (serving_chain q); [done..| |exact (sg_pool q Hq)].
  apply (caches_other _ _ (stats_cache_key sh)); [apply Hq|by intros; eapply stats_cache_others|].
  intros sh' rows' Hv'. split; [|intros He; symmetry in He; by apply cache_keys_differ in He].
  intros [= He%as_bytes_inj]. subst sh'. by rewrite (history_view_unique icfg block_of (q_chain q) sh rows' rows).
Qed.
Lemma utxo_safe sh : safe serving (utxo qcfg sh).
Proof.
  intros q Hq. rewrite utxo_eq. unfold ChainQuery.utxo.
  destruct (history_view_exists icfg block_of (q_chain q) sh (sg_synced q Hq)) as [rows Hv].
  destruct (utxo_transparent icfg block_of (q_chain q) sh rows (utxos_limit qcfg) (sg_synced q Hq) Hv
    (proj2 (sg_caches q Hq sh rows Hv)) (sg_length q Hq)) as [_ Hr].
  destruct (utxo_set (q_chain q) sh (utxos_limit qcfg)) as [[m c']|e| |] eqn:Hu; [|done..].
  destruct Hr as [_ Hc']. split; [|done].
  apply (serving_chain q); [done..| |exact (sg_pool q Hq)].
  apply (caches_other _ _ (utxo_cache_key sh)); [apply Hq|by intros; eapply utxo_cache_others|].
  intros sh' rows' Hv'. split; [intros He; by apply cache_keys_differ in He|].
  intros [= He%as_bytes_inj]. subst sh'. by rewrite (history_view_unique icfg block_of (q_chain q) sh rows' rows).
Qed.

(** Queries that keep the chain keep the invariant. *)
Lemma serving_same q q' : serving q -> q_chain q' = q_chain q -> (exists A, refines mcfg (q_mempool q') A) -> serving q'.
Proof. intros [] Hc Hp. split; rewrite ?Hc; done. Qed.
Context (Hrpc : rpc_returns).

Lemma broadcast_safe txhex : safe serving (broadcast_raw mcfg rpc txhex).
Proof.
  intros q Hq. destruct (sg_pool q Hq) as [A HA].
  pose proof (broadcast_follows_bitcoind icfg block_of mcfg q A rpc txhex (sg_synced q Hq) HA (rr_mempool Hrpc)) as Hb.
  pose proof (rr_send Hrpc txhex) as Hr. destruct (qr_sendrawtransaction rpc txhex) as [txid|e| |]; [| |done..].
  - destruct Hb as (m' & A' & -> & HA' & _). split; [|done]. apply (serving_same q); [done..|by exists A'].
  - by rewrite Hb.
Qed.
Lemma relayfee_safe : safe serving (get_relayfee rpc).
Proof.
  intros q Hq. unfold get_relayfee. destruct (cached_relayfee q); [done|]. unfold daemon_relayfee.
  pose proof (rr_relay Hrpc) as Hr. destruct (qr_relayfee rpc); [|done..]. split; [|done].
  by apply (serving_same q); [..|apply Hq].
Qed.
Lemma estimates_return targets : returns (estimatesmartfee_batch rpc targets).
Proof.
  unfold estimatesmartfee_batch. pose proof (rr_fees Hrpc targets) as Hr.
  destruct (qr_estimatesmartfee rpc targets) as [replies|e| |]; [|done..]. cbn [mbind result_bind].
  apply returns_bind; [|done]. apply returns_is_ok.
  assert (forall l, (forall p, p ∈ l -> p.1 ∈ replies) -> is_ok (it_collect (it_filter_map estimate_reply (it_of l)))) as Hl.
  { induction l as [|[r t] l IH]; intros Hin; [by eexists|]. destruct IH as [ys Hys]; [set_solver|].
    assert (is_ok (estimate_reply (r, t))) as [o Ho].
    { unfold estimate_reply. destruct (fr_errors_null r) eqn:En; [|by eexists].
      destruct (Hr r) as [f Hf]; [apply (Hin (r, t)); by left|done|]. rewrite Hf. cbn. destruct (f64_eq _ _); by eexists. }
    unfold it_collect in *. cbn [it_of map it_filter_map]. cbn [mbind result_bind]. rewrite Ho. unfold it_of in Hys.
    destruct o as [y|]; cbn [rmap mbind result_bind id]; rewrite ?Hys; by eexists. }
  apply Hl. intros p Hp. destruct p as [r t]. by apply elem_of_zip_l in Hp.
Qed.
Lemma estimate_safe now later target : safe serving (estimate_fee qcfg rpc now later target).
Proof.
  unfold estimate_fee. destruct (is_regtest _).
  - intros q Hq. destruct (relayfee_safe q Hq) as [H1 H2]. destruct (get_relayfee rpc q) as [q' r]. split; [done|].
    by destruct r.
  - apply safe_bind; [apply safe_gets|]. intros fresh. apply safe_bind; [|intros; apply safe_gets].
    destruct fresh; [apply safe_ret|]. intros q Hq. unfold update_fee_estimates.
    pose proof (estimates_return CONF_TARGETS) as He. destruct (estimatesmartfee_batch rpc CONF_TARGETS); [|done..].
    split; [|done]. by apply (serving_same q); [..|apply Hq].
Qed.

(** ** The handlers *)

Abbreviation session_ok := (fun s : Session D => serving (sh_query s.1)).
Lemma safe_reading {A} (f : Query D -> result A) : (forall q, serving q -> returns (f q)) -> safe session_ok (reading f).
Proof. intros Hf s Hs. split; [done|]. by apply Hf. Qed.
Lemma safe_on_query {A} (f : SR (Query D) A) : safe serving f -> safe session_ok (on_query f).
Proof.
  intros Hf s Hs. specialize (Hf _ Hs). unfold on_query. by destruct (f (sh_query s.1)) as [q r].
Qed.
Lemma safe_asking {A} (f : Query D -> result A) : (forall q, serving q -> returns (f q)) -> safe serving (fun q => (q, f q)).
Proof. intros Hf q Hq. split; [done|]. by apply Hf. Qed.
Lemma safe_on_conn f : safe session_ok (on_conn (D := D) f).
Proof. by intros s Hs. Qed.
Lemma safe_on_shared f : (forall sh : Shared D, sh_query (f sh) = sh_query sh) -> safe session_ok (on_shared f).
Proof. intros Hf s Hs. split; [|done]. cbn. by rewrite Hf. Qed.

Lemma hash_from_value_returns v : returns (hash_from_value v).
Proof. unfold hash_from_value. auto 10 with returns. Qed.
Lemma usize_from_value_returns v name : returns (usize_from_value v name).
Proof. unfold usize_from_value. auto with returns. Qed.
Lemma usize_from_value_or_returns v name d : returns (usize_from_value_or v name d).
Proof. destruct v; [apply usize_from_value_returns|done]. Qed.
Lemma bool_from_value_or_returns v name d : returns (bool_from_value_or v name d).
Proof. destruct v; [|done]. cbn. unfold bool_from_value. auto with returns. Qed.
#[local] Hint Resolve hash_from_value_returns usize_from_value_returns usize_from_value_or_returns
  bool_from_value_or_returns header_returns best_header_returns header_proof_returns confirming_returns
  tx_proof_returns id_from_pos_returns raw_txn_returns get_history_returns current_status_returns : returns.
#[local] Hint Extern 1 (returns (submit_package _)) => apply (rr_package Hrpc) : returns.
#[local] Hint Resolve stats_safe utxo_safe broadcast_safe relayfee_safe estimate_safe : returns.
#[local] Hint Resolve safe_reading safe_asking safe_on_query safe_on_conn safe_on_shared : returns.
#[local] Hint Extern 1 (returns (Ok _)) => exact I : returns.
#[local] Hint Extern 1 (returns (Err _)) => exact I : returns.

(** A chain of calls that return: follow the binds, the tests and the lookups. *)
Ltac returning := repeat first
  [ progress eauto 4 with returns
  | progress intros
  | match goal with
    | |- returns (if ?b then _ else _) => destruct b
    | |- returns (match ?x with _ => _ end) => destruct x
    | |- safe _ (if ?b then _ else _) => destruct b
    | |- safe _ (let '(_, _) := ?x in _) => destruct x
    | |- returns (rmap _ _) => apply returns_rmap
    | |- returns (_ ≫= _) => apply returns_bind
    | |- safe _ (_ ≫= _) => apply safe_bind
    end ].

Lemma block_header_returns q params : serving q -> returns (blockchain_block_header sha256d q params).
Proof. intros Hq. unfold blockchain_block_header. returning. Qed.
Lemma block_headers_returns q params : serving q -> returns (blockchain_block_headers sha256d q params).
Proof. intros Hq. unfold blockchain_block_headers. returning. Qed.
Lemma scripthash_history_returns q params : serving q -> returns (blockchain_scripthash_get_history cfg q params).
Proof. intros Hq. unfold blockchain_scripthash_get_history. returning. Qed.
Lemma transaction_get_returns q params : serving q -> returns (blockchain_transaction_get q params).
Proof. intros Hq. unfold blockchain_transaction_get. returning. Qed.
Lemma get_merkle_returns q params : serving q -> returns (blockchain_transaction_get_merkle sha256d q params).
Proof. intros Hq. unfold blockchain_transaction_get_merkle. returning. Qed.
Lemma from_pos_returns q params : serving q -> returns (blockchain_transaction_id_from_pos sha256d q params).
Proof. intros Hq. unfold blockchain_transaction_id_from_pos. returning. Qed.
#[local] Hint Resolve block_header_returns block_headers_returns scripthash_history_returns transaction_get_returns
  get_merkle_returns from_pos_returns : returns.

(** Every method has a handler that keeps the invariant and returns. *)
Lemma method_safe now later method params h :
  method_handler cfg qcfg mcfg rpc submit_package sha256d now later method params = Some h -> safe session_ok h.
Proof.
  unfold method_handler. intros Hh.
  repeat match type of Hh with (if ?b then _ else _) = _ => destruct b; [injection Hh as <-|] end; [..|done];
    unfold blockchain_estimatefee, blockchain_headers_subscribe, blockchain_relayfee, blockchain_scripthash_get_balance,
      blockchain_scripthash_listunspent, blockchain_scripthash_subscribe, blockchain_scripthash_unsubscribe,
      blockchain_transaction_broadcast, blockchain_transaction_broadcast_package; returning.
Qed.
Lemma http_safe now later method params h :
  http_handler cfg qcfg mcfg rpc submit_package now later method params = inl h -> safe serving h.
Proof.
  unfold http_handler. intros Hh.
  repeat match type of Hh with (if ?b then _ else _) = _ => destruct b; [try (injection Hh as <-)|] end;
    [..|done]; try done; returning.
Qed.

(** ** Requests, batches, lines *)

(** A function answers each value it is given, and so a batch. *)
Definition answers {S} (I : S -> Prop) (f : Json -> SR S Json) : Prop := forall value (s : S), I s ->
  exists s' reply, f value s = (s', Ok reply) /\ I s' /\ reply_to value reply.
Lemma sr_map_answers {S} (I : S -> Prop) (f : Json -> SR S Json) l : answers I f -> forall s : S, I s ->
  exists s' replies, sr_map f l s = (s', Ok replies) /\ I s' /\ Forall2 reply_to l replies.
Proof.
  intros Hf. induction l as [|v l IH]; intros s Hs; [by exists s, []|]. cbn [sr_map]. rewrite sr_bind_eq.
  destruct (Hf v s Hs) as (s1 & reply & -> & H1 & Hr). rewrite sr_bind_eq.
  destruct (IH s1 H1) as (s2 & replies & -> & H2 & HF). exists s2, (reply :: replies). split_and!; try done. by constructor.
Qed.
(** The two dispatchers look at the same three fields. *)
Lemma dispatch_answers {S} (I : S -> Prop) (f : Text -> list Json -> Json -> SR S Json) value (s : S) :
  I s ->
  (forall method params id, json_get value (text_of "id") = Some id -> well_formed value ->
    exists s' reply, f method params id s = (s', Ok reply) /\ I s' /\ reply_to value reply) ->
  exists s' reply,
    (match json_get value (text_of "method"), default (JArr []) (json_get value (text_of "params")),
           json_get value (text_of "id") with
     | Some (JStr method), JArr params, Some id => f method params id
     | _, _, Some id => mret (json_rpc_error (json_display value) (Some id) InvalidRequest)
     | _, _, _ => mret (json_rpc_error (json_display value) None InvalidRequest)
     end) s = (s', Ok reply) /\ I s' /\ reply_to value reply.
Proof.
  intros Hs Hf. pose proof (error_replies value InvalidRequest (json_display value) (fun _ => eq_refl)) as He.
  assert (forall r : Json, reply_to value r ->
    exists s' reply, (mret r : SR S Json) s = (s', Ok reply) /\ I s' /\ reply_to value reply) as Hm by (intros r Hr; by exists s, r).
  destruct (json_get value (text_of "id")) as [id|] eqn:Hid.
  - destruct (json_get value (text_of "method")) as [[]|] eqn:Hmt; try exact (Hm _ He).
    destruct (default _ (json_get value (text_of "params"))) eqn:Hp; try exact (Hm _ He).
    apply Hf; [done|]. by eexists _, _, _.
  - destruct (json_get value (text_of "method")) as [[]|]; try exact (Hm _ He).
    destruct (default _ _); exact (Hm _ He).
Qed.

Lemma handle_value_answers now later :
  answers session_ok (handle_value cfg qcfg mcfg rpc submit_package sha256d now later).
Proof.
  intros value s Hs. apply dispatch_answers; [done|]. intros method params id Hid Hw. unfold handle_command.
  destruct (method_handler _ _ _ _ _ _ _ _ _ _) as [h|] eqn:Hh.
  - destruct (method_safe _ _ _ _ _ Hh s Hs) as [H1 H2]. destruct (h s) as [s' [r|e| |]]; [| |done..].
    + eexists _, _. split; [done|]. split; [done|]. by apply result_replies.
    + eexists _, _. split; [done|]. split; [done|]. rewrite <- Hid. by apply error_replies.
  - eexists _, _. split; [done|]. split; [done|]. rewrite <- Hid. by apply error_replies.
Qed.
Lemma handle_http_value_answers now later :
  answers serving (handle_http_jsonrpc_value (D := D) cfg qcfg mcfg rpc submit_package now later).
Proof.
  intros value q Hq. apply dispatch_answers; [done|]. intros method params id Hid Hw.
  destruct (http_handler _ _ _ _ _ _ _ _ _) as [h|[code e]] eqn:Hh.
  - destruct (http_safe _ _ _ _ _ Hh q Hq) as [H1 H2]. destruct (h q) as [q' [r|e| |]]; [| |done..].
    + eexists _, _. split; [done|]. split; [done|]. by apply result_replies.
    + eexists _, _. split; [done|]. split; [done|]. rewrite <- Hid. by apply error_replies.
  - eexists _, _. split; [done|]. split; [done|]. rewrite <- Hid. by apply error_replies.
Qed.
End answers.

(** ** Properties *)

Section properties.
Context {D : Type} {RDB : RocksDB D} {RDBL : RocksDBLaws D}.
Context {BL : BitcoinLib} {BLaws : BitcoinLaws} {W : Wincode} {WL : WincodeLaws} {EL : ElectrumLib}.
Context (icfg : IndexerConfig) (block_of : BlockHash -> Block).
Context (cfg : ElectrumConfig) (qcfg : QueryConfig) (mcfg : MempoolConfig).
Context (rpc : QueryRpc) (submit_package : list Text -> result SubmitPackageResult) (sha256d : Bytes -> FullHash).

(** C15: Every line of the socket and every body of the HTTP adapter is answered.  Let the
    index be synced, non-empty and not in light mode, with valid caches and a consistent
    mempool, and let bitcoind reply (with a value or an error, and with a fee rate where it
    reports no errors).  Then no handler panics or loops on any line in any such session:
    text that is not JSON is answered with a parse error, a batch by one reply per
    request in the same order, a single request by one reply; each reply has the id of its
    request and either a result or an error, requests that are not well formed are
    answered as invalid, and the state the next line finds is again such a state. *)
Theorem every_request_answered now later line (s : Session D) (q : Query D) :
  rpc_returns rpc submit_package -> serving icfg block_of mcfg (sh_query s.1) -> serving icfg block_of mcfg q ->
  (exists s' reply, handle_line cfg qcfg mcfg rpc submit_package sha256d now later line s = (s', Ok reply) /\
     answers_line line reply /\ serving icfg block_of mcfg (sh_query s'.1)) /\
  (exists q' reply, handle_http_jsonrpc_body cfg qcfg mcfg rpc submit_package now later line q = (q', Ok reply) /\
     answers_line line reply /\ serving icfg block_of mcfg q').
Proof.
  intros Hrpc Hs Hq. unfold handle_line, handle_http_jsonrpc_body, answers_line.
  pose proof (handle_value_answers icfg block_of cfg qcfg mcfg rpc submit_package sha256d Hrpc now later) as HS.
  pose proof (handle_http_value_answers icfg block_of cfg qcfg mcfg rpc submit_package sha256d Hrpc now later) as HQ.
  destruct (json_parse line) as [err|value].
  { split; eexists _, _; (split; [done|]; split; [by eexists|done]). }
  assert (forall value, (exists s' reply, handle_value cfg qcfg mcfg rpc submit_package sha256d now later value s = (s', Ok reply) /\
      reply_to value reply /\ serving icfg block_of mcfg (sh_query s'.1)) /\
    (exists q' reply, handle_http_jsonrpc_value cfg qcfg mcfg rpc submit_package now later value q = (q', Ok reply) /\
      reply_to value reply /\ serving icfg block_of mcfg q')) as Hone.
  { intros v. destruct (HS v s Hs) as (s' & r & -> & ? & ?), (HQ v q Hq) as (q' & r' & -> & ? & ?). split; by eexists _, _. }
  destruct value as [|b|n|x|t|arr|fields]; try apply Hone. rewrite !sr_bind_eq.
  destruct (sr_map_answers _ _ arr HS s Hs) as (s' & replies & -> & ? & ?).
  destruct (sr_map_answers _ _ arr HQ q Hq) as (q' & replies' & -> & ? & ?).
  split; eexists _, _; (split; [done|]; split; [by eexists|done]).
Qed.
End properties.

(** ** Witness *)

(** A batch that asks for the tip, for the balance of a script, for nothing, and for a
    header with its proof. *)
Definition ex_request (id : Z) (method : string) (params : list Json) : Json :=
  jobj [("id", JInt id); ("method", jstr method); ("params", JArr params)].
Definition ex_requests : list Json :=
  [ex_request 1 "blockchain.headers.subscribe" [];
   ex_request 2 "blockchain.scripthash.get_balance" [JStr (ex_display ex_script)]; JNull;
   ex_request 3 "blockchain.block.header" [JInt 1; JInt 2]].
Definition BatchElectrum : ElectrumLib := {|
  parse_hash := ex_parse; display_hash := ex_display; hex_encode b := b;
  json_parse t := inr (JArr ex_requests); json_display _ := []; |}.
Definition no_package (_ : list Text) : result SubmitPackageResult := Err (Msg "no package").

Lemma every_request_answered_witness :
  exists (s s' : Session KvMap) replies,
    @handle_line KvMap _ ExampleLib FixintWincode BatchElectrum ex_ecfg ex_qcfg ex_mcfg ex_qrpc no_package
      (@sha256 ExampleLib) 0 0 (text_of "batch") s = (s', Ok (JArr replies)) /\
    Forall2 reply_to ex_requests replies.
Proof.
  destruct ex_query_exists as (c & Hc & Hhl & Hcache & Hl & _), ex_pool_exists as (m & A & Hr & _).
  set (q := query_new c m). exists (ex_session q).
  assert (@serving KvMap _ ExampleLib FixintWincode ex_cfg ex_block_of ex_mcfg q) as Hq.
  { split; [exact Hc|by split| | | |by exists A].
    - change (cq_headers (q_chain q)) with (cq_headers c). rewrite Hhl. vm_compute. congruence.
    - change (cq_headers (q_chain q)) with (cq_headers c). rewrite Hhl. vm_compute. reflexivity.
    - intros sh rows _. split; intros v; unfold db_get; change (cq_store (q_chain q)) with (cq_store c); rewrite Hcache; discriminate. }
  destruct (@every_request_answered KvMap _ _ ExampleLib ExampleLib_laws FixintWincode FixintWincode_laws BatchElectrum ex_cfg
    ex_block_of ex_ecfg ex_qcfg ex_mcfg ex_qrpc no_package (@sha256 ExampleLib) 0 0 (text_of "batch") (ex_session q) q)
    as [(s' & reply & Hh & Ha & _) _]; [|exact Hq..|].
  - split; try done. intros targets r (t & -> & _)%elem_of_map _. by eexists.
  - destruct Ha as (replies & -> & HF). by exists s', replies.
Defined.
