(* ===== verification/ElectrumServer.v ===== *)
(** * The connections of the Electrum server ([electrum/server.rs])

    The reader thread of a connection turns the bytes of its stream into messages: it
    strips the PROXY headers, splits lines and decodes them.  The reply thread takes
    messages from a channel of ten places, one at a time.  The server is a labelled
    transition system over all connections: accepting, reading, notifying, handling a
    message, closing, and changes of the index and the mempool by the other threads.
    A panic aborts the process (the release profile), so a state after one has no step.
    The invariants say that the gauges, the per-client counts and the limits are exact. *)

From S2P Require Import Prelude Iter RocksDB DB Bitcoin HeaderList Rows Fetch Fees.
From S2P Require Import Indexer IndexerSync ChainQuery Mempool Merkle Query Text Json Electrum.

(** ** PROXY headers *)

(** The result of [ppp::HeaderResult::parse]: a header with its length and addresses,
    too few bytes, or something else. *)
Inductive V1Addresses := Tcp4 (ip port : Z) | Tcp6 (ip port : Z) | Unknown.
Inductive V2Addresses := IPv4 (ip port : Z) | IPv6 (ip port : Z) | Unspecified | Unix.
Inductive HeaderResult :=
  | V1 (len : nat) (addresses : V1Addresses) | V2 (len : nat) (addresses : V2Addresses)
  | Incomplete | Invalid.
Definition proxy_v1_source (addresses : V1Addresses) : option SocketAddr :=
  match addresses with
  | Tcp4 ip port => Some (V4 ip, port) | Tcp6 ip port => Some (V6 ip, port) | Unknown => None
  end.
Definition proxy_v2_source (addresses : V2Addresses) : option SocketAddr :=
  match addresses with
  | IPv4 ip port => Some (V4 ip, port) | IPv6 ip port => Some (V6 ip, port)
  | Unspecified | Unix => None
  end.
Inductive Step := Parsed (consumed : nat) (src : option SocketAddr) | NeedMore | StepDone.
Definition MAX_PROXY_HEADER_SIZE : nat := Z.to_nat 4096.
Definition CHUNK_SIZE : nat := 256.

(** The reads of the stream that are to come: bytes, or an error; reading nothing is
    the end, which is final. *)
Abbreviation Reads := (list (result Bytes)).

Section reader.
Context (ppp_parse : Bytes -> HeaderResult).

Definition header_step (buf : Bytes) : Step :=
  match ppp_parse buf with
  | V2 len addresses => Parsed len (proxy_v2_source addresses)
  | V1 len addresses => Parsed len (proxy_v1_source addresses)
  | Incomplete => NeedMore
  | Invalid => StepDone
  end.

(** What the loops keep: the buffer, the addresses found, and [saw_proxy]. *)
Record ProxyState := mkProxyState { px_buf : Bytes; px_addrs : list SocketAddr; saw_proxy : bool }.
(** The inner loop with its result [need_more]; every turn but the last takes at least
    one byte from the buffer. *)
Fixpoint parse_stacked (fuel : nat) (st : ProxyState) : result (ProxyState * bool) :=
  match fuel with
  | 0 => Diverge
  | S fuel =>
      match px_buf st with
      | [] => Ok (st, true)
      | buf =>
          match header_step buf with
          | Parsed consumed src =>
              let addrs := px_addrs st ++ match src with Some a => [a] | None => [] end in
              if decide (consumed = 0 \/ length buf < consumed) then Ok (mkProxyState buf addrs true, false)
              else parse_stacked fuel (mkProxyState (drop consumed buf) addrs true)
          | NeedMore => Ok (st, true)
          | StepDone => Ok (st, false)
          end
      end
  end.
Definition proxy_result (st : ProxyState) : option (list SocketAddr) :=
  if saw_proxy st then Some (px_addrs st) else None.
Fixpoint read_proxy_loop (reads : Reads) (st : ProxyState) : result (option (list SocketAddr) * Bytes * Reads) :=
  p ← parse_stacked (S (length (px_buf st))) st;
  let '(st, need_more) := p in
  if negb need_more then Ok (proxy_result st, px_buf st, reads)
  else if decide (MAX_PROXY_HEADER_SIZE < length (px_buf st)) then Err (Msg "PROXY protocol header too large")
  else match reads with
       | [] => Ok (proxy_result st, px_buf st, [])
       | Ok [] :: _ => Ok (proxy_result st, px_buf st, [])
       | Ok chunk :: reads => read_proxy_loop reads (mkProxyState (px_buf st ++ chunk) (px_addrs st) (saw_proxy st))
       | _ :: _ => Err (Msg "failed to read PROXY protocol header")
       end.
Definition read_proxy_headers (reads : Reads) : result (option (list SocketAddr) * Bytes * Reads) :=
  read_proxy_loop reads (mkProxyState [] [] false).

(** ** Requests *)

(** The bytes up to the end of the stream or to a failing read, and which it was. *)
Fixpoint stream_bytes (reads : Reads) : Bytes * bool :=
  match reads with
  | Ok (b :: chunk) :: reads => let '(bs, eof) := stream_bytes reads in ((b :: chunk) ++ bs, eof)
  | [] | Ok [] :: _ => ([], true)
  | _ :: _ => ([], false)
  end.
(** [take(limit).read_until(b'\n')]: the line, the rest of the stream, and whether the
    line ended before the stream did. *)
Fixpoint read_until (limit : nat) (bytes : Bytes) : Bytes * Bytes * bool :=
  match limit, bytes with
  | 0, _ => ([], bytes, true)
  | _, [] => ([], [], false)
  | S limit, b :: bytes =>
      if (b =? 10)%Z then ([b], bytes, true)
      else let '(line, rest, complete) := read_until limit bytes in (b :: line, rest, complete)
  end.
(** [max_line_size.saturating_add(1)] *)
Definition line_limit (max_line_size : Z) : nat := Z.to_nat (Z.min (u64_mod - 1) (max_line_size + 1)).
(** The messages sent; a read error ends the thread without [Done]. *)
Fixpoint request_loop (fuel : nat) (max_line_size : Z) (bytes : Bytes) (eof : bool) : list Message :=
  match fuel with
  | 0 => []
  | S fuel =>
      let '(line, rest, complete) := read_until (line_limit max_line_size) bytes in
      if negb complete && negb eof then []
      else match line with
           | [] => [Done]
           | _ =>
               if (max_line_size <? Z.of_nat (length line))%Z then [Done]
               else if starts_with line [22; 3; 1]%Z then [Done]
               else match from_utf8 line with
                    | Some req => Request req :: request_loop fuel max_line_size rest eof
                    | None => [Done]
                    end
           end
  end.
Definition handle_requests (max_line_size : Z) (reads : Reads) : list Message :=
  match read_proxy_headers reads with
  | Ok (proxy_addrs, leftover, reads) =>
      let '(bs, eof) := stream_bytes reads in
      Proxy proxy_addrs :: request_loop (S (length (leftover ++ bs))) max_line_size (leftover ++ bs) eof
  | _ => []
  end.
End reader.

(** ** Replies *)

(** [send_values] when the peer accepts [accepted] more lines: what was written. *)
Definition send_values (accepted : nat) (values : list Json) : list Json * result unit :=
  if decide (length values <= accepted) then (values, Ok tt)
  else (take accepted values, Err (Msg "failed to send")).

(** How a turn of [handle_replies] ends. *)
Inductive Turn := Continue | Return.

Section server.
Context {D : Type} {RDB : RocksDB D} {BL : BitcoinLib} {W : Wincode} {EL : ElectrumLib}.
Context (cfg : ElectrumConfig) (qcfg : QueryConfig) (mcfg : MempoolConfig).
Context (ppp_parse : Bytes -> HeaderResult).
Context (submit_package : list Text -> result SubmitPackageResult) (sha256d : Bytes -> FullHash).

(** A client above its limit is disconnected. *)
Definition register_turn : SR (Session D) (list Json * Turn) := fun s =>
  match register_client cfg s with
  | (s', Ok _) => (s', Ok ([], Continue))
  | (s', Err _) => (s', Ok ([], Return))
  | (s', Panic) => (s', Panic)
  | (s', Diverge) => (s', Diverge)
  end.
(** A message taken from the channel: what is written to the peer, and how it ends.
    [order] is the order in which the subscriptions are traversed. *)
Definition handle_message (rpc : QueryRpc) (now later : Z) (order : list FullHash) (accepted : nat) (msg : Message) :
    SR (Session D) (list Json * Turn) :=
  match msg with
  | Request line =>
      _ ← on_conn (fun c => set_request_at c now);
      result ← handle_line cfg qcfg mcfg rpc submit_package sha256d now later line;
      let '(sent, r) := send_values accepted [result] in
      _ ← lift r; mret (sent, Continue)
  | PeriodicUpdate => fun s =>
      match update_subscriptions cfg order s with
      | (s', Ok values) =>
          let '(sent, r) := send_values accepted values in
          (s', match r with Ok _ => Ok (sent, Continue) | Err e => Err e | Panic => Panic | Diverge => Diverge end)
      | (s', Err _) => (s', Err (Msg "failed to update subscriptions"))
      | (s', Panic) => (s', Panic)
      | (s', Diverge) => (s', Diverge)
      end
  | Done => mret ([], Return)
  | Proxy addresses =>
      _ ← on_conn (set_proxy_client cfg addresses);
      register_turn
  end.
(** [elapsed > idle_timeout], in nanoseconds. *)
Definition is_idle (now : Z) (c : Connection) : bool :=
  (idle_timeout cfg * 1000000000 <? now - last_request_at c)%Z.

(** The beginning and the end of [run]; the gauges are [i64]. *)
Definition run_start (sh : Shared D) : Shared D := set_clients sh (g_clients sh + 1).
Definition run_end (s : Session D) : Shared D :=
  let sh := set_clients s.1 (g_clients s.1 - 1) in
  let sh := set_subscriptions sh (g_subscriptions sh - Z.of_nat (size (status_hashes s.2))) in
  (unregister_client (sh, s.2)).1.

(** ** The server *)

(** A live connection: its state and the messages its reader has still to send. *)
Record Live := mkLive { l_conn : Connection; l_unread : list Message }.
(** [threads] is the table of joinable threads, [garbage] the ids of finished ones. *)
Record Server := mkServer {
  sv_shared : Shared D; sv_conns : gmap nat Live; threads : gset nat; garbage : gset nat }.
Definition server_start (q : Query D) : Server := mkServer (mkShared q 0 0 ∅) ∅ ∅ ∅.

(** Thread [id] finished. *)
Definition finish (sv : Server) (id : nat) (s : Session D) : Server :=
  mkServer (run_end s) (delete id (sv_conns sv)) (threads sv) ({[id]} ∪ garbage sv).
(** Finished threads are joined before the limit is checked. *)
Definition collect_garbage (sv : Server) : Server :=
  mkServer (sv_shared sv) (sv_conns sv) (threads sv ∖ garbage sv) ∅.
(** A stream from the acceptor is given a thread, or shut down at the limit. *)
Definition accept_stream (sv : Server) (now : Z) (id : nat) (ip : option IpAddr) (reads : Reads) : Server :=
  let sv := collect_garbage sv in
  if decide (max_clients cfg <= size (threads sv)) then sv
  else mkServer (run_start (sv_shared sv))
         (<[id := mkLive (connection_new now ip) (handle_requests ppp_parse (max_line_size cfg) reads)]> (sv_conns sv))
         ({[id]} ∪ threads sv) (garbage sv).
(** [Notification::Periodic]: one [try_send] per connection. *)
Definition notify (sv : Server) : Server :=
  mkServer (sv_shared sv) ((fun l => mkLive (try_send PeriodicUpdate (l_conn l)) (l_unread l)) <$> sv_conns sv)
    (threads sv) (garbage sv).
Definition put (sv : Server) (id : nat) (s : Session D) (unread : list Message) : Server :=
  mkServer s.1 (<[id := mkLive s.2 unread]> (sv_conns sv)) (threads sv) (garbage sv).

Inductive server_step : Server -> Server -> Prop :=
  | step_accept sv now id ip reads :
      id ∉ threads sv -> server_step sv (accept_stream sv now id ip reads)
  (** The reader blocks while the channel is full. *)
  | step_read sv id l msg unread :
      sv_conns sv !! id = Some l -> l_unread l = msg :: unread -> length (c_chan (l_conn l)) < CHAN_SIZE ->
      server_step sv (put sv id (sv_shared sv, set_chan (l_conn l) (c_chan (l_conn l) ++ [msg])) unread)
  | step_notify sv : server_step sv (notify sv)
  (** The indexer, the mempool and the HTTP server work on the query. *)
  | step_query sv q :
      server_step sv (mkServer (set_query (sv_shared sv) q) (sv_conns sv) (threads sv) (garbage sv))
  | step_handle sv id l msg rest rpc now later order accepted s' sent :
      sv_conns sv !! id = Some l -> c_chan (l_conn l) = msg :: rest -> is_idle now (l_conn l) = false ->
      order ≡ₚ elements (dom (status_hashes (l_conn l))) ->
      handle_message rpc now later order accepted msg (sv_shared sv, set_chan (l_conn l) rest) = (s', Ok (sent, Continue)) ->
      server_step sv (put sv id s' (l_unread l))
  | step_return sv id l msg rest rpc now later order accepted s' sent :
      sv_conns sv !! id = Some l -> c_chan (l_conn l) = msg :: rest -> is_idle now (l_conn l) = false ->
      order ≡ₚ elements (dom (status_hashes (l_conn l))) ->
      handle_message rpc now later order accepted msg (sv_shared sv, set_chan (l_conn l) rest) = (s', Ok (sent, Return)) ->
      server_step sv (finish sv id s')
  | step_fail sv id l msg rest rpc now later order accepted s' e :
      sv_conns sv !! id = Some l -> c_chan (l_conn l) = msg :: rest -> is_idle now (l_conn l) = false ->
      order ≡ₚ elements (dom (status_hashes (l_conn l))) ->
      handle_message rpc now later order accepted msg (sv_shared sv, set_chan (l_conn l) rest) = (s', Err e) ->
      server_step sv (finish sv id s')
  (** Idle for too long, or told to shut down. *)
  | step_close sv id l :
      sv_conns sv !! id = Some l -> server_step sv (finish sv id (sv_shared sv, l_conn l)).

Inductive server_reachable : Server -> Prop :=
  | reach_start q : server_reachable (server_start q)
  | reach_step sv sv' : server_reachable sv -> server_step sv sv' -> server_reachable sv'.
End server.
