(* ===== verification/ElectrumReader.v ===== *)
(** * What the reader of a connection delivers

    However the operating system cuts the stream into reads, the PROXY headers at its
    start are stripped and reported in order, and the lines after them become requests,
    each once, in order and unchanged; then the connection is told that it is done. *)

From S2P Require Import Prelude Iter RocksDB DB Bitcoin HeaderList Rows Fetch Fees.
From S2P Require Import Indexer IndexerSync ChainQuery Mempool Merkle Query Text Json.
From S2P Require Import Electrum ElectrumServer.

(** ** Lines *)

Definition request_bytes (line : Text) : Bytes := utf8_encode line ++ [10%Z].
(** A line the reader accepts. *)
Record line_ok (max_line_size : Z) (line : Text) : Prop := {
  lo_chars : Forall is_char line;
  lo_lf : 10%Z ∉ line;
  lo_size : (Z.of_nat (length (request_bytes line)) <= max_line_size)%Z;
  lo_ssl : starts_with (request_bytes line) [22; 3; 1]%Z = false }.

Lemma read_until_line limit line rest :
  10%Z ∉ line -> length line < limit -> read_until limit (line ++ 10%Z :: rest) = (line ++ [10%Z], rest, true).
Proof.
  revert limit. induction line as [|b line IH]; intros [|limit] Hn Hl; cbn in Hl; try lia; [done|].
  apply not_elem_of_cons in Hn as [Hb Hn]. cbn. rewrite (proj2 (Z.eqb_neq b 10)) by congruence.
  by rewrite IH by (done || lia).
Qed.
Lemma from_utf8_request line : Forall is_char line -> from_utf8 (request_bytes line) = Some (line ++ [10%Z]).
Proof.
  intros Hc. unfold request_bytes.
  assert (utf8_encode line ++ [10%Z] = utf8_encode (line ++ [10%Z])) as ->.
  { unfold utf8_encode. by rewrite map_app, concat_app. }
  apply from_utf8_encode, Forall_app. split; [done|]. constructor; [unfold is_char; lia|constructor].
Qed.
Lemma request_loop_lines max lines :
  is_u64 (max + 1) -> Forall (line_ok max) lines -> forall fuel,
  length (concat (map request_bytes lines)) < fuel ->
  request_loop fuel max (concat (map request_bytes lines)) true = map (fun l => Request (l ++ [10%Z])) lines ++ [Done].
Proof.
  intros Hm. assert (line_limit max = Z.to_nat (max + 1)) as Hlim.
  { unfold line_limit, is_u64 in *. f_equal. lia. }
  induction 1 as [|line lines Hl _ IH]; intros [|fuel] Hf; try lia; cbn [map concat request_loop].
  - by destruct (line_limit max) eqn:?.
  - destruct Hl as [Hc Hlf Hs Hssl]. cbn [map concat] in Hf. rewrite length_app in Hf.
    assert (length (request_bytes line) = S (length (utf8_encode line))) as Hlen.
    { unfold request_bytes. rewrite length_app. cbn. lia. }
    assert (read_until (line_limit max) (request_bytes line ++ concat (map request_bytes lines)) =
      (request_bytes line, concat (map request_bytes lines), true)) as ->.
    { unfold request_bytes at 1. rewrite <- (assoc app). cbn [app]. apply read_until_line; [by apply utf8_encode_no_lf|].
      rewrite Hlim. lia. }
    cbn [negb andb]. destruct (request_bytes line) as [|b bs] eqn:Hb; [done|]. rewrite <- Hb in *.
    rewrite (proj2 (Z.ltb_ge max _)) by done. rewrite Hssl, from_utf8_request by done.
    cbn [app]. f_equal. apply IH. lia.
Qed.

(** ** Headers *)

Section headers.
Context (ppp_parse : Bytes -> HeaderResult).
Abbreviation hstep := (header_step ppp_parse).

(** What is relied on of the PROXY parser: a header is recognized at the start of any
    bytes, a part of one is reported as such. *)
Record header_ok (h : Bytes * option SocketAddr) : Prop := {
  ho_ne : h.1 <> [];
  ho_small : length h.1 <= MAX_PROXY_HEADER_SIZE;
  ho_whole tl : hstep (h.1 ++ tl) = Parsed (length h.1) h.2;
  ho_part p tl : p <> [] -> tl <> [] -> h.1 = p ++ tl -> hstep p = NeedMore }.
(** No part of the requests is taken for a header. *)
Definition body_ok (body : Bytes) : Prop := forall p tl, body = p ++ tl -> p <> [] ->
  hstep p = StepDone \/ (hstep p = NeedMore /\ length p <= MAX_PROXY_HEADER_SIZE).

Definition sources (hs : list (Bytes * option SocketAddr)) : list SocketAddr := omap snd hs.
Definition advance (st : ProxyState) (hs : list (Bytes * option SocketAddr)) (p : Bytes) : ProxyState :=
  mkProxyState p (px_addrs st ++ sources hs) (saw_proxy st || match hs with [] => false | _ => true end).

Lemma app_prefix {A} (a b c d : list A) : a ++ b = c ++ d -> length c <= length a -> exists e, a = c ++ e /\ e ++ b = d.
Proof.
  intros Heq Hle. exists (drop (length c) a). assert (c = take (length c) a) as Hc.
  { apply (f_equal (take (length c))) in Heq. by rewrite take_app_le, take_app_length in Heq. }
  split; [rewrite Hc at 1; by rewrite take_drop|].
  apply (f_equal (drop (length c))) in Heq. by rewrite drop_app_le, drop_app_length in Heq.
Qed.

(** The inner loop takes the complete headers and stops. *)
Lemma parse_stacked_spec body hs : Forall header_ok hs -> body_ok body -> forall st more_bytes fuel,
  px_buf st ++ more_bytes = concat hs.*1 ++ body -> length (px_buf st) < fuel ->
  exists hs1 hs2 p need_more, hs = hs1 ++ hs2 /\ px_buf st = concat hs1.*1 ++ p /\
    parse_stacked ppp_parse fuel st = Ok (advance st hs1 p, need_more) /\
    match need_more, hs2 with
    | true, [] => length p <= MAX_PROXY_HEADER_SIZE
    | true, h :: _ => length p < length h.1
    | false, hs2 => hs2 = []
    end.
Proof.
  assert (forall st, advance st [] (px_buf st) = st) as Hadv.
  { intros [b a sw]. unfold advance. cbn. by rewrite app_nil_r, orb_false_r. }
  intros Hhs Hbody. induction Hhs as [|h hs [Hne Hsmall Hwhole Hpart] _ IH]; intros st R [|fuel] Heq Hf; try lia.
  - exists [], []. exists (px_buf st). cbn in Heq. cbn [parse_stacked]. rewrite Hadv.
    destruct (px_buf st) as [|b buf] eqn:Hb; [exists true; cbn; repeat split; lia|].
    destruct (Hbody (b :: buf) R (eq_sym Heq)) as [Hs|[Hs Hl]]; [done| |]; rewrite Hs; [by exists false|by exists true].
  - cbn [fmap list_fmap concat] in Heq. rewrite <- (assoc app) in Heq.
    destruct (decide (length h.1 <= length (px_buf st))) as [Hle|Hlt].
    + destruct (app_prefix _ _ _ _ Heq Hle) as (buf' & Hbuf & Hrest).
      set (st1 := mkProxyState buf' (px_addrs st ++ match h.2 with Some a => [a] | None => [] end) true).
      assert (0 < length h.1) as Hpos by (destruct h.1; [done|cbn; lia]).
      rewrite Hbuf, length_app in Hf.
      destruct (IH st1 R fuel Hrest ltac:(cbn; lia)) as (hs1 & hs2 & p & more & -> & Hp & Hrun & Hend).
      exists (h :: hs1), hs2, p, more. split; [done|]. split; [rewrite Hbuf; cbn in Hp |- *; by rewrite Hp, (assoc app)|].
      split; [|done]. cbn [parse_stacked].
      destruct (px_buf st) as [|b buf] eqn:Hb; [by destruct h.1|]. rewrite Hbuf, Hwhole.
      rewrite decide_False by (rewrite length_app; lia). rewrite drop_app_length. fold st1. rewrite Hrun.
      unfold advance, st1, sources. cbn. rewrite orb_true_r, <- (assoc app). by destruct h.2.
    + exists [], (h :: hs), (px_buf st), true. split; [done|]. split; [done|]. rewrite Hadv. split; [|lia].
      cbn [parse_stacked]. destruct (px_buf st) as [|b buf] eqn:Hb; [done|].
      destruct (app_prefix _ _ _ _ (eq_sym Heq) ltac:(lia)) as (tl & Htl & _).
      rewrite (Hpart (b :: buf) tl); [done|done| |done]. intros ->. rewrite app_nil_r in Htl. rewrite Htl in Hlt. lia.
Qed.

Lemma end_of_headers body (hs2 : list (Bytes * option SocketAddr)) p :
  p ++ [] = concat hs2.*1 ++ body ->
  match hs2 with [] => length p <= MAX_PROXY_HEADER_SIZE | h :: _ => length p < length h.1 end -> hs2 = [].
Proof.
  rewrite app_nil_r. intros Heq Hend. destruct hs2 as [|h hs2]; [done|]. rewrite Heq in Hend. cbn in Hend.
  rewrite !length_app in Hend. lia.
Qed.
Lemma advance_app st hs1 hs2 p q :
  advance (mkProxyState p (px_addrs (advance st hs1 p)) (saw_proxy (advance st hs1 p))) hs2 q = advance st (hs1 ++ hs2) q.
Proof.
  unfold advance, sources. cbn. rewrite omap_app, <- (assoc app). f_equal. destruct hs1; [by rewrite orb_false_r|].
  cbn. by rewrite !orb_true_r.
Qed.
Lemma read_proxy_loop_spec body : body_ok body -> forall reads st hs R,
  Forall header_ok hs -> stream_bytes reads = (R, true) -> px_buf st ++ R = concat hs.*1 ++ body ->
  exists leftover rest R', read_proxy_loop ppp_parse reads st =
      Ok (proxy_result (advance st hs leftover), leftover, rest) /\
    stream_bytes rest = (R', true) /\ leftover ++ R' = body.
Proof.
  intros Hbody. induction reads as [|rd reads IH]; intros st hs R Hhs HR Heq.
  all: destruct (parse_stacked_spec body hs Hhs Hbody st R (S (length (px_buf st))) Heq ltac:(lia))
    as (hs1 & hs2 & p & more & -> & Hbuf & Hrun & Hend).
  all: rewrite Hbuf, fmap_app, concat_app, <- !(assoc app) in Heq; apply app_inv_head in Heq.
  all: cbn [read_proxy_loop]; rewrite Hrun; cbn [mbind result_bind negb px_buf advance].
  all: apply Forall_app in Hhs as [_ Hhs2].
  all: destruct more; [|subst hs2; cbn in Heq; rewrite app_nil_r; by eexists _, _, R].
  all: assert (length p <= MAX_PROXY_HEADER_SIZE) as Hp
    by (destruct hs2; [done|apply Forall_inv in Hhs2 as [_ Hs _ _]; lia]).
  all: cbn [negb]; rewrite decide_False by lia.
  - injection HR as <-. pose proof (end_of_headers body hs2 p Heq Hend) as ->. exists p, [], []. by rewrite (app_nil_r hs1).
  - destruct rd as [chunk|e| |]; try discriminate HR. destruct chunk as [|b chunk].
    + injection HR as <-. pose proof (end_of_headers body hs2 p Heq Hend) as ->. exists p, [], []. by rewrite (app_nil_r hs1).
    + cbn [stream_bytes] in HR. destruct (stream_bytes reads) as [bs eof] eqn:Hbs. injection HR as <- ->.
      destruct (IH (mkProxyState (p ++ b :: chunk) (px_addrs (advance st hs1 p)) (saw_proxy (advance st hs1 p))) hs2 bs)
        as (leftover & rest & R' & Hrun' & HR' & Hbody'); [done|done|cbn; by rewrite <- (assoc app)|].
      exists leftover, rest, R'. split; [|done]. etransitivity; [exact Hrun'|].
      by rewrite <- (advance_app st hs1 hs2 (p ++ b :: chunk) leftover).
Qed.

(** C14: Every way of cutting a stream into reads gives the same messages: the addresses of
    the PROXY headers at its start, if there was one, then one request per line of the
    rest, whole and in order, then the end. *)
Theorem stream_requests_delivered max_line_size hs lines reads :
  is_u64 (max_line_size + 1) -> Forall header_ok hs -> Forall (line_ok max_line_size) lines ->
  body_ok (concat (map request_bytes lines)) ->
  stream_bytes reads = (concat hs.*1 ++ concat (map request_bytes lines), true) ->
  handle_requests ppp_parse max_line_size reads =
    Proxy (match hs with [] => None | _ => Some (sources hs) end) ::
    map (fun line => Request (line ++ [10%Z])) lines ++ [Done].
Proof.
  intros Hm Hhs Hlines Hbody Hreads. unfold handle_requests, read_proxy_headers.
  destruct (read_proxy_loop_spec _ Hbody reads (mkProxyState [] [] false) hs _ Hhs Hreads eq_refl)
    as (leftover & rest & R' & -> & -> & Hrest).
  rewrite Hrest, request_loop_lines by (done || lia). by destruct hs.
Qed.
End headers.

(** ** Witness *)

(** A parser that knows one header, the three bytes 7, 7, 10. *)
Definition ex_ppp (b : Bytes) : HeaderResult :=
  if starts_with b [7; 7; 10]%Z then V2 3 (IPv4 1 80)
  else if bool_decide (b = [7%Z]) || bool_decide (b = [7; 7]%Z) then Incomplete else Invalid.
Definition ex_line : Text := text_of "{}".
Lemma stream_requests_delivered_witness :
  handle_requests ex_ppp 100 [Ok [7%Z]; Ok [7; 10; 123]%Z; Ok [125; 10; 123; 125; 10]%Z] =
    [Proxy (Some [(V4 1, 80%Z)]); Request (ex_line ++ [10%Z]); Request (ex_line ++ [10%Z]); Done].
Proof.
  apply (stream_requests_delivered ex_ppp 100 [([7; 7; 10]%Z, Some (V4 1, 80%Z))] [ex_line; ex_line]).
  - by vm_compute.
  - constructor; [|constructor]. split; cbn [fst snd].
    + done.
    + apply Nat.leb_le. by vm_compute.
    + intros tl. unfold header_step, ex_ppp. by rewrite starts_with_app.
    + intros p tl Hp Htl Heq. destruct p as [|a [|b [|c p]]]; [done|injection Heq as <- _; done|injection Heq as <- <- _; done|].
      injection Heq as <- <- <- Heq. symmetry in Heq. by apply app_nil in Heq as [_ ->].
  - repeat constructor; try vm_decide; try done.
  - intros p tl Heq Hp. left. destruct p as [|a p]; [done|]. injection Heq as <- _. done.
  - reflexivity.
Defined.
