(* ===== verification/ElectrumServerFacts.v ===== *)
(** * Invariants of the Electrum server

    Every operation of a session keeps the gauges in step with the session's
    subscriptions and leaves the connection counts alone ([keeps]); registering and
    finishing a connection move the counts by one.  Over all interleavings of the
    server's steps the gauges are the numbers of live connections and subscriptions,
    the count of a client is the number of its live connections, and no limit is
    exceeded.  The reader delivers the lines of a stream once and in order. *)

From S2P Require Import Prelude Iter RocksDB DB Bitcoin HeaderList Rows Fetch Fees.
From S2P Require Import Indexer IndexerSync ChainQuery Mempool Merkle Query Text Json.
From S2P Require Import ChainView ChainBlocks ChainHistory MempoolIndex MempoolUpdate MempoolQueries QueryFacts.
From S2P Require Import Electrum ElectrumFacts ElectrumServer.

(** ** Sums over a map *)

Section msum.
Context {K V : Type} `{Countable K}.
Implicit Types (f : V -> Z) (m : gmap K V).
Definition msum f m : Z := map_fold (fun _ v acc => (f v + acc)%Z) 0%Z m.
Lemma msum_empty f : msum f ∅ = 0%Z.
Proof. done. Qed.
Lemma msum_insert_new f m k v : m !! k = None -> msum f (<[k := v]> m) = (f v + msum f m)%Z.
Proof. intros Hk. unfold msum. apply (map_fold_insert_L (fun (_ : K) v acc => (f v + acc)%Z)); [intros; lia|done]. Qed.
Lemma msum_delete f m k v : m !! k = Some v -> msum f (delete k m) = (msum f m - f v)%Z.
Proof. intros Hk. rewrite <- (insert_delete_id m k v Hk) at 2. rewrite msum_insert_new by apply lookup_delete_eq. lia. Qed.
Lemma msum_insert f m k v old : m !! k = Some old -> msum f (<[k := v]> m) = (msum f m - f old + f v)%Z.
Proof. intros Hk. rewrite <- insert_delete_eq, msum_insert_new by apply lookup_delete_eq. rewrite (msum_delete f m k old) by done. lia. Qed.
Lemma msum_fmap f (g : V -> V) m : (forall v, f (g v) = f v) -> msum f (g <$> m) = msum f m.
Proof.
  intros Hg. induction m as [|k v m Hk IH] using map_ind; [done|].
  rewrite fmap_insert, !msum_insert_new by (rewrite ?lookup_fmap, ?Hk; done). by rewrite Hg, IH.
Qed.
Lemma msum_size m : msum (fun _ => 1%Z) m = Z.of_nat (size m).
Proof.
  induction m as [|k v m Hk IH] using map_ind; [done|].
  rewrite msum_insert_new, map_size_insert_None by done. lia.
Qed.
Lemma msum_bound f m k v : (forall v, 0 <= f v)%Z -> m !! k = Some v -> (f v <= msum f m)%Z.
Proof.
  intros Hf Hk. rewrite <- (insert_delete_id m k v Hk), msum_insert_new by apply lookup_delete_eq.
  assert (forall m, 0 <= msum f m)%Z as Hp; [|specialize (Hp (delete k m)); lia].
  intros m0. induction m0 as [|k0 v0 m0 Hk0 IH] using map_ind; [done|].
  rewrite msum_insert_new by done. specialize (Hf v0). lia.
Qed.
End msum.

Create HintDb keep.

Section sessions.
Context {D : Type} {RDB : RocksDB D} {BL : BitcoinLib} {W : Wincode} {EL : ElectrumLib}.
Context (cfg : ElectrumConfig) (qcfg : QueryConfig) (mcfg : MempoolConfig).
Context (rpc : QueryRpc) (submit_package : list Text -> result SubmitPackageResult) (sha256d : Bytes -> FullHash).
Implicit Types s : Session D.

(** ** What the operations of a session keep *)

Definition n_subs (c : Connection) : Z := Z.of_nat (size (status_hashes c)).
Record keeps s s' : Prop := {
  k_clients : g_clients s'.1 = g_clients s.1;
  k_counts : client_counts s'.1 = client_counts s.1;
  k_registered : registered_ip s'.2 = registered_ip s.2;
  k_gauge : (g_subscriptions s'.1 - n_subs s'.2 = g_subscriptions s.1 - n_subs s.2)%Z;
  k_limit : size (status_hashes s.2) <= max_subscriptions cfg -> size (status_hashes s'.2) <= max_subscriptions cfg;
  k_chan : exists k, c_chan s'.2 = c_chan s.2 ++ replicate k PeriodicUpdate;
  k_full : length (c_chan s.2) <= CHAN_SIZE -> length (c_chan s'.2) <= CHAN_SIZE }.
#[local] Instance keeps_refl : Reflexive keeps.
Proof. intros s. split; try done. exists 0. by rewrite app_nil_r. Qed.
#[local] Instance keeps_trans : Transitive keeps.
Proof.
  intros s1 s2 s3 [? ? ? ? ? [k1 Hk1] ?] [? ? ? ? ? [k2 Hk2] ?]. split; try congruence; try lia; auto.
  exists (k1 + k2). by rewrite Hk2, Hk1, <- (assoc app), <- replicate_add.
Qed.
Definition keeping {A} (m : SR (Session D) A) : Prop := forall s, keeps s (m s).1.

Lemma keeping_bind {A B} (m : SR (Session D) A) (f : A -> SR (Session D) B) :
  keeping m -> (forall a, keeping (f a)) -> keeping (m ≫= f).
Proof.
  intros Hm Hf s. rewrite sr_bind_eq. specialize (Hm s). destruct (m s) as [s' [a|e| |]]; [|done..].
  etransitivity; [exact Hm|apply Hf].
Qed.
Lemma keeping_ret {A} (a : A) : keeping (mret a).
Proof. intros s. reflexivity. Qed.
Lemma keeping_lift {A} (r : result A) : keeping (lift r).
Proof. intros s. reflexivity. Qed.
Lemma keeping_gets {A} (f : Session D -> A) : keeping (gets f).
Proof. intros s. reflexivity. Qed.
Lemma keeping_reading {A} (f : Query D -> result A) : keeping (reading f).
Proof. intros s. reflexivity. Qed.
Lemma keeping_query {A} (f : SR (Query D) A) : keeping (on_query f).
Proof.
  intros s. unfold on_query. destruct (f (sh_query s.1)) as [q r]. split; try done.
  exists 0. by rewrite app_nil_r.
Qed.
Lemma keeping_header e : keeping (on_conn (fun c => set_last_header c e)).
Proof. intros s. split; try done. exists 0. by rewrite app_nil_r. Qed.
Lemma keeping_request_at now : keeping (on_conn (fun c => set_request_at c now)).
Proof. intros s. split; try done. exists 0. by rewrite app_nil_r. Qed.
Lemma keeping_try_send : keeping (on_conn (try_send PeriodicUpdate)).
Proof.
  intros s. cbn. unfold try_send. destruct (decide _) as [Hlt|Hge]; [|by destruct s].
  split; try done; cbn; [by exists 1|]. rewrite length_app. cbn. lia.
Qed.
Lemma keeping_if {A} (b : bool) (m m' : SR (Session D) A) : keeping m -> keeping m' -> keeping (if b then m else m').
Proof. by destruct b. Qed.
Lemma keeping_map {A B} (f : A -> SR (Session D) B) l : (forall a, keeping (f a)) -> keeping (sr_map f l).
Proof.
  intros Hf. induction l as [|a l IH]; [apply keeping_ret|]. cbn [sr_map].
  apply keeping_bind; [done|]. intros b. apply keeping_bind; [done|]. intros bs. apply keeping_ret.
Qed.

Lemma keeping_subscribe params : keeping (blockchain_scripthash_subscribe cfg params).
Proof.
  unfold blockchain_scripthash_subscribe. apply keeping_bind; [apply keeping_lift|]. intros h s.
  rewrite sr_bind_eq. cbn [gets]. destruct (decide _) as [|Hlim]; [reflexivity|].
  rewrite sr_bind_eq. unfold reading at 1. destruct (current_status cfg _ h) as [st|e| |]; [|reflexivity..].
  rewrite sr_bind_eq. cbn [on_conn modify]. rewrite sr_bind_eq.
  destruct (decide (status_hashes s.2 !! h = None)) as [Hn|Hn]; cbn.
  - split; try done; unfold n_subs; cbn; [..|exists 0; by rewrite app_nil_r].
    + rewrite map_size_insert_None by done. lia.
    + intros _. rewrite map_size_insert_None by done. destruct (decide (max_subscriptions cfg <= size (status_hashes s.2))); [tauto|lia].
  - assert (size (<[h:=st]> (status_hashes s.2)) = size (status_hashes s.2)) as Hs.
    { destruct (status_hashes s.2 !! h) as [old|] eqn:Ho; [|done]. apply map_size_insert_Some. by eexists. }
    split; try done; unfold n_subs; cbn; rewrite ?Hs; [done..|exists 0; by rewrite app_nil_r].
Qed.
Lemma keeping_unsubscribe params : keeping (blockchain_scripthash_unsubscribe params).
Proof.
  unfold blockchain_scripthash_unsubscribe. apply keeping_bind; [apply keeping_lift|]. intros h s.
  rewrite sr_bind_eq. cbn [gets]. rewrite sr_bind_eq. cbn [on_conn modify]. rewrite sr_bind_eq.
  destruct (status_hashes s.2 !! h) as [old|] eqn:Ho.
  - rewrite bool_decide_true by eauto. cbn. assert (size (delete h (status_hashes s.2)) = pred (size (status_hashes s.2))) as Hs by (apply map_size_delete_Some; by eexists).
    assert (size (status_hashes s.2) <> 0) as Hz by (rewrite map_size_non_empty_iff; intros He; by rewrite He in Ho).
    split; try done; unfold n_subs; cbn; [..|exists 0; by rewrite app_nil_r]; rewrite Hs; lia.
  - rewrite bool_decide_false by (by intros [? ?]). cbn.
    split; try done; unfold n_subs; cbn; rewrite ?delete_id by done; [done..|exists 0; by rewrite app_nil_r].
Qed.

#[local] Hint Resolve keeping_ret keeping_lift keeping_gets keeping_reading keeping_query keeping_header
  keeping_request_at keeping_try_send keeping_subscribe keeping_unsubscribe : keep.
Ltac keep := repeat (intros; first [by eauto with keep | apply keeping_bind | apply keeping_map | case_match]).

Lemma keeping_method now later method params h :
  method_handler cfg qcfg mcfg rpc submit_package sha256d now later method params = Some h -> keeping h.
Proof.
  unfold method_handler. repeat (destruct (method_is method _); [intros [= <-]; unfold blockchain_estimatefee,
    blockchain_headers_subscribe, blockchain_relayfee, blockchain_scripthash_get_balance,
    blockchain_scripthash_listunspent, blockchain_transaction_broadcast, blockchain_transaction_broadcast_package; keep|]).
  done.
Qed.
Lemma keeping_value now later value : keeping (handle_value cfg qcfg mcfg rpc submit_package sha256d now later value).
Proof.
  unfold handle_value. repeat case_match; try apply keeping_ret. unfold handle_command.
  destruct (method_handler _ _ _ _ _ _ _ _ _ _) as [h|] eqn:Hh; [|apply keeping_ret].
  apply keeping_method in Hh. intros se. specialize (Hh se). by destruct (h se) as [se' [| | |]].
Qed.
Lemma keeping_line now later line : keeping (handle_line cfg qcfg mcfg rpc submit_package sha256d now later line).
Proof.
  pose proof (keeping_value now later) as Hv. unfold handle_line. repeat case_match; eauto with keep.
  apply keeping_bind; [by apply keeping_map|eauto with keep].
Qed.

(** The update only writes statuses of script hashes that are subscribed. *)
Lemma update_scripts_keep order : forall s,
  (forall h, h ∈ order -> h ∈ dom (status_hashes s.2)) -> keeps s (sr_map (update_script cfg) order s).1.
Proof.
  induction order as [|h order IH]; intros s Hd; [apply keeping_ret|]. cbn [sr_map]. rewrite sr_bind_eq, update_script_run.
  destruct (current_status cfg _ h) as [st|e| |]; [|reflexivity..]. cbn beta iota. rewrite sr_bind_eq.
  set (s1 := (s.1, set_status s.2 (<[h:=st]> (status_hashes s.2)))).
  pose proof (Hd h ltac:(by left)) as [old Ho]%elem_of_dom.
  assert (size (<[h:=st]> (status_hashes s.2)) = size (status_hashes s.2)) as Hs by (apply map_size_insert_Some; by eexists).
  assert (keeps s s1) as Hk.
  { split; try done; unfold n_subs; cbn; rewrite ?Hs; [done..|exists 0; by rewrite app_nil_r]. }
  assert (keeps s1 (sr_map (update_script cfg) order s1).1) as Hk1.
  { apply IH. intros h' Hin. cbn. rewrite dom_insert. apply elem_of_union_r, Hd. by right. }
  destruct (sr_map (update_script cfg) order s1) as [s2 [out|e| |]]; by etransitivity.
Qed.
Lemma update_keeps order s :
  order ≡ₚ elements (dom (status_hashes s.2)) -> keeps s (update_subscriptions cfg order s).1.
Proof.
  intros Hp. assert (forall h, h ∈ order -> h ∈ dom (status_hashes s.2)) as Hd by (intros h; by rewrite Hp, elem_of_elements).
  unfold update_subscriptions. rewrite sr_bind_eq, update_header_run.
  assert (forall s1 hdr, keeps s s1 -> status_hashes s1.2 = status_hashes s.2 ->
    keeps s ((c ← sr_map (update_script cfg) order; mret ((hdr : list Json) ++ concat c)) s1).1) as Htail.
  { intros s1 hdr Hk Hs. etransitivity; [exact Hk|]. rewrite sr_bind_eq.
    pose proof (update_scripts_keep order s1) as Hu. rewrite Hs in Hu. specialize (Hu Hd).
    by destruct (sr_map (update_script cfg) order s1) as [s2 [out|e| |]]. }
  destruct (last_header_entry s.2) as [last|]; [|by apply Htail].
  destruct (best_header _) as [entry|e| |]; [|reflexivity..].
  apply Htail; [apply (keeping_header (Some entry))|done].
Qed.

Lemma handle_message_keeps now later order accepted msg s :
  order ≡ₚ elements (dom (status_hashes s.2)) -> (forall a, msg <> Proxy a) ->
  keeps s (handle_message cfg qcfg mcfg submit_package sha256d rpc now later order accepted msg s).1.
Proof.
  intros Hp Hn. destruct msg as [line| | |a]; cbn [handle_message]; [|..|by destruct (Hn a)].
  - apply keeping_bind; [eauto with keep|]. intros _. apply keeping_bind; [apply keeping_line|].
    intros v. destruct (send_values accepted [v]) as [sent r]. keep.
  - pose proof (update_keeps order s Hp) as Hk. destruct (update_subscriptions cfg order s) as [s' [values|e| |]]; try done.
    by destruct (send_values accepted values) as [sent r].
  - reflexivity.
Qed.
End sessions.

Section servers.
Context {D : Type} {RDB : RocksDB D} {BL : BitcoinLib} {W : Wincode} {EL : ElectrumLib}.
Context (cfg : ElectrumConfig) (qcfg : QueryConfig) (mcfg : MempoolConfig).
Context (ppp_parse : Bytes -> HeaderResult).
Context (submit_package : list Text -> result SubmitPackageResult) (sha256d : Bytes -> FullHash).
Implicit Types (sv : Server (D := D)) (s : Session D) (sh : Shared D).
Abbreviation step := (server_step cfg qcfg mcfg ppp_parse submit_package sha256d).
Abbreviation reachable := (server_reachable cfg qcfg mcfg ppp_parse submit_package sha256d).
Abbreviation handle_msg := (handle_message cfg qcfg mcfg submit_package sha256d).
Abbreviation kept := (keeps cfg).

(** ** The books *)

(** The registered connections of a client, and the PROXY messages to come. *)
Definition is_client (ip : IpAddr) (l : Live) : Z :=
  if decide (registered_ip (l_conn l) = Some ip) then 1 else 0.
Definition is_proxy (m : Message) : bool := match m with Proxy _ => true | _ => false end.
Definition proxies (l : list Message) : nat := length (filter (fun m => is_proxy m = true) l).
Definition registered (c : Connection) : nat := if registered_ip c is Some _ then 1 else 0.

Record books sh (conns : gmap nat Live) : Prop := {
  bk_clients : g_clients sh = Z.of_nat (size conns);
  bk_subs : g_subscriptions sh = msum (fun l => n_subs (l_conn l)) conns;
  bk_counts ip : Z.of_nat (default 0 (client_counts sh !! ip)) = msum (is_client ip) conns;
  bk_nonzero ip : client_counts sh !! ip <> Some 0;
  bk_limit ip n : client_counts sh !! ip = Some n -> n <= connections_per_client cfg }.
Record live_ok (l : Live) : Prop := {
  lv_subs : size (status_hashes (l_conn l)) <= max_subscriptions cfg;
  lv_chan : length (c_chan (l_conn l)) <= CHAN_SIZE;
  lv_proxy : proxies (c_chan (l_conn l)) + proxies (l_unread l) + registered (l_conn l) <= 1 }.
Record server_ok sv : Prop := {
  ok_books : books (sv_shared sv) (sv_conns sv);
  ok_live id l : sv_conns sv !! id = Some l -> live_ok l;
  ok_threads : dom (sv_conns sv) ⊆ threads sv;
  ok_garbage : dom (sv_conns sv) ## garbage sv;
  ok_max : size (threads sv) <= max_clients cfg }.

Lemma proxies_app a b : proxies (a ++ b) = proxies a + proxies b.
Proof. unfold proxies. by rewrite filter_app, length_app. Qed.
Lemma proxies_cons m l : proxies (m :: l) = (if is_proxy m then 1 else 0) + proxies l.
Proof. unfold proxies. rewrite filter_cons. destruct (is_proxy m); [by rewrite decide_True|by rewrite decide_False]. Qed.
Lemma proxies_replicate k : proxies (replicate k PeriodicUpdate) = 0.
Proof. induction k as [|k IH]; [done|]. cbn [replicate]. by rewrite proxies_cons, IH. Qed.

(** A session of the connection [id] that kept its promises is put back. *)
Lemma books_put sh conns id l s u c0 :
  books sh conns -> conns !! id = Some l -> n_subs c0 = n_subs (l_conn l) ->
  registered_ip c0 = registered_ip (l_conn l) -> kept (sh, c0) s ->
  books s.1 (<[id := mkLive s.2 u]> conns).
Proof.
  intros [B1 B2 B3 B4 B5] Hl Hn Hr [K1 K2 K3 K4 _ _ _]. cbn in *. split; rewrite ?K1, ?K2; try done.
  - rewrite map_size_insert_Some by (by eexists). done.
  - rewrite (msum_insert _ _ _ _ l) by done. cbn. lia.
  - intros ip. rewrite (msum_insert _ _ _ _ l) by done. unfold is_client at 2 3. cbn. rewrite K3, Hr, B3. lia.
Qed.
(** Registering a connection that was not. *)
Lemma books_register sh conns id l c u key n :
  books sh conns -> conns !! id = Some l -> registered_ip (l_conn l) = None -> n_subs c = n_subs (l_conn l) ->
  default 0 (client_counts sh !! key) = n -> n < connections_per_client cfg -> registered_ip c = Some key ->
  books (set_counts sh (<[key := S n]> (client_counts sh))) (<[id := mkLive c u]> conns).
Proof.
  intros [B1 B2 B3 B4 B5] Hl Hr Hn Hd Hlt Hc. split; cbn.
  - rewrite map_size_insert_Some by (by eexists). done.
  - rewrite (msum_insert _ _ _ _ l) by done. cbn. lia.
  - intros ip. rewrite (msum_insert _ _ _ _ l) by done. unfold is_client at 2 3. cbn. rewrite Hr, Hc.
    rewrite (decide_False (P := None = Some ip)) by done. specialize (B3 ip).
    destruct (decide (key = ip)) as [->|Hne].
    + rewrite lookup_insert_eq, decide_True by done. cbn. lia.
    + rewrite lookup_insert_ne, decide_False by congruence. lia.
  - intros ip. destruct (decide (key = ip)) as [->|Hne]; [by rewrite lookup_insert_eq|by rewrite lookup_insert_ne].
  - intros ip m. destruct (decide (key = ip)) as [->|Hne]; [rewrite lookup_insert_eq; intros [= <-]; lia|].
    rewrite lookup_insert_ne by done. apply B5.
Qed.
Lemma is_client_nonneg ip l : (0 <= is_client ip l)%Z.
Proof. unfold is_client. by destruct (decide _). Qed.
(** The end of [run]. *)
Lemma books_end sh conns id l :
  is_u64 (Z.of_nat (connections_per_client cfg)) ->
  books sh conns -> conns !! id = Some l -> books (run_end (sh, l_conn l)) (delete id conns).
Proof.
  intros Hu [B1 B2 B3 B4 B5] Hl. unfold run_end. cbn [fst snd].
  assert (size (delete id conns) = pred (size conns)) as Hs by (apply map_size_delete_Some; by eexists).
  assert (size conns <> 0) as Hz by (rewrite map_size_non_empty_iff; intros He; by rewrite He in Hl).
  assert (forall ip, msum (is_client ip) (delete id conns) = msum (is_client ip) conns - is_client ip l)%Z as Hm
    by (intros ip; by apply msum_delete).
  assert (msum (fun l => n_subs (l_conn l)) (delete id conns) = msum (fun l => n_subs (l_conn l)) conns - n_subs (l_conn l))%Z as Hsub
    by (by rewrite (msum_delete _ _ _ l)).
  unfold unregister_client. destruct (registered_ip (l_conn l)) as [key|] eqn:Hr.
  - assert (is_client key l = 1%Z) as H1 by (unfold is_client; by rewrite Hr, decide_True).
    pose proof (msum_bound (is_client key) conns id l (is_client_nonneg key) Hl) as Hb. pose proof (B3 key) as Hk.
    cbn [client_counts set_subscriptions set_clients].
    destruct (client_counts sh !! key) as [n|] eqn:Hn; cbn in Hk; [|lia].
    pose proof (B5 key n Hn). unfold is_u64 in Hu. rewrite wrap64_id by (unfold is_u64; lia).
    replace (Z.to_nat (Z.of_nat n - 1)) with (pred n) by lia.
    assert (forall ip, key <> ip -> is_client ip l = 0%Z) as H0
      by (intros ip Hne; unfold is_client; rewrite Hr; by rewrite decide_False by congruence).
    split; cbn; try (rewrite Hsub, B2; done); try lia.
    + intros ip. rewrite Hm. destruct (decide (key = ip)) as [<-|Hne].
      * destruct (decide (pred n = 0)); rewrite ?lookup_delete_eq, ?lookup_insert_eq; cbn; lia.
      * rewrite (H0 ip Hne), <- (B3 ip). destruct (decide (pred n = 0)); rewrite ?lookup_delete_ne, ?lookup_insert_ne by done; lia.
    + intros ip. destruct (decide (key = ip)) as [<-|Hne].
      * destruct (decide (pred n = 0)); rewrite ?lookup_delete_eq, ?lookup_insert_eq; congruence.
      * destruct (decide (pred n = 0)); rewrite ?lookup_delete_ne, ?lookup_insert_ne by done; apply B4.
    + intros ip m. destruct (decide (key = ip)) as [<-|Hne].
      * destruct (decide (pred n = 0)); rewrite ?lookup_delete_eq, ?lookup_insert_eq; [done|]. intros [= <-]. lia.
      * destruct (decide (pred n = 0)); rewrite ?lookup_delete_ne, ?lookup_insert_ne by done; apply B5.
  - assert (forall ip, is_client ip l = 0%Z) as H0 by (intros ip; unfold is_client; rewrite Hr; by rewrite decide_False).
    split; cbn; try (rewrite Hsub, B2; done); try lia; [|done..]. intros ip. rewrite Hm, H0, B3. lia.
Qed.

(** ** One message *)

Lemma register_cases sh c :
  (forall ip, client_counts sh !! ip <> Some 0) ->
  (exists r, register_client cfg (sh, c) = ((sh, c), r)) \/
  (exists key n, register_client cfg (sh, c) =
     ((set_counts sh (<[key := S n]> (client_counts sh)), set_registered c (Some key)), Ok tt) /\
     default 0 (client_counts sh !! key) = n /\ n < connections_per_client cfg).
Proof.
  intros Hz. unfold register_client. destruct (decide _) as [|Hlim]; [left; by eexists|].
  destruct (client_key c) as [key|]; [|left; by eexists].
  destruct (decide _) as [Hge|Hlt]; [|right; exists key; eexists; split; [done|]; split; [done|cbn in Hlt |- *; lia]].
  left. eexists. rewrite insert_id; [by destruct sh|]. revert Hge. destruct (client_counts sh !! key); [done|cbn; lia].
Qed.
Lemma keeps_live l c0 s :
  size (status_hashes c0) <= max_subscriptions cfg -> length (c_chan c0) <= CHAN_SIZE ->
  proxies (c_chan c0) + proxies (l_unread l) + registered c0 <= 1 ->
  forall sh, kept (sh, c0) s -> live_ok (mkLive s.2 (l_unread l)).
Proof.
  intros Hs Hc Hp sh [_ _ K3 _ K5 [k Hk] K7]. cbn [fst snd] in *. split; cbn [l_conn l_unread]; auto.
  rewrite Hk, proxies_app, proxies_replicate. unfold registered in *. rewrite K3. lia.
Qed.
(** Whatever a message is and however its handling ends, the books stay right. *)
Lemma handle_ok sv id l msg rest rpc now later order accepted s' r :
  server_ok sv -> sv_conns sv !! id = Some l -> c_chan (l_conn l) = msg :: rest ->
  order ≡ₚ elements (dom (status_hashes (l_conn l))) ->
  handle_msg rpc now later order accepted msg (sv_shared sv, set_chan (l_conn l) rest) = (s', r) ->
  books s'.1 (<[id := mkLive s'.2 (l_unread l)]> (sv_conns sv)) /\ live_ok (mkLive s'.2 (l_unread l)).
Proof.
  intros [Hb Hlive _ _ _] Hl Hc Hp Hh. destruct (Hlive id l Hl) as [L1 L2 L3]. rewrite Hc in L2, L3.
  rewrite proxies_cons in L3. cbn [length] in L2. set (c0 := set_chan (l_conn l) rest) in *.
  assert (forall a c, msg = Proxy a -> c = set_proxy_client cfg a c0 ->
    kept (sv_shared sv, c0) (sv_shared sv, c) /\ registered_ip c = None) as Hproxy.
  { intros a c -> ->. split; [split; try done; exists 0; by rewrite app_nil_r|]. cbn in L3.
    unfold registered in L3. cbn. destruct (registered_ip (l_conn l)); [lia|done]. }
  assert (kept (sv_shared sv, c0) s' ->
    books s'.1 (<[id := mkLive s'.2 (l_unread l)]> (sv_conns sv)) /\ live_ok (mkLive s'.2 (l_unread l))) as Hkeep.
  { intros Hk. split; [by apply (books_put (sv_shared sv) _ id l s' _ c0)|]. eapply keeps_live; [..|exact Hk];
      [done|change (length rest <= CHAN_SIZE); lia|].
    change (proxies rest + proxies (l_unread l) + registered (l_conn l) <= 1). lia. }
  destruct msg as [line| | |a]; [apply Hkeep; change s' with (s', r).1; rewrite <- Hh; by apply handle_message_keeps..|].
  change (register_turn cfg (sv_shared sv, set_proxy_client cfg a c0) = (s', r)) in Hh. unfold register_turn in Hh.
  destruct (Hproxy a _ eq_refl eq_refl) as [Hk Hr].
  destruct (register_cases (sv_shared sv) (set_proxy_client cfg a c0)) as [[r' Hr']|(key & n & Hr' & Hn & Hlt)];
    [apply Hb|rewrite Hr' in Hh..].
  - apply Hkeep. by destruct r'; injection Hh as <- _.
  - injection Hh as <- _. split.
    + eapply books_register; try done.
    + split; [done|change (length rest <= CHAN_SIZE); lia|]. change (proxies rest + proxies (l_unread l) + 1 <= 1).
      change (1 + proxies rest + proxies (l_unread l) + registered (l_conn l) <= 1) in L3. lia.
Qed.

(** ** All steps *)

Lemma server_start_ok q : server_ok (server_start q).
Proof. split; cbn; try done. rewrite size_empty. lia. Qed.
Lemma put_ok sv id l s u :
  server_ok sv -> sv_conns sv !! id = Some l -> books s.1 (<[id := mkLive s.2 u]> (sv_conns sv)) ->
  live_ok (mkLive s.2 u) -> server_ok (put sv id s u).
Proof.
  intros [_ Hlive Ht Hg Hm] Hl Hb Hv. assert (id ∈ dom (sv_conns sv)) by (by eapply elem_of_dom_2).
  split; cbn; [done| |set_solver|set_solver|done].
  intros id' l'. destruct (decide (id = id')) as [<-|Hne]; [rewrite lookup_insert_eq; by intros [= <-]|].
  rewrite lookup_insert_ne by done. apply Hlive.
Qed.
Lemma finish_ok sv id l s u :
  is_u64 (Z.of_nat (connections_per_client cfg)) ->
  server_ok sv -> sv_conns sv !! id = Some l -> books s.1 (<[id := mkLive s.2 u]> (sv_conns sv)) ->
  server_ok (finish sv id s).
Proof.
  intros Hu [_ Hlive Ht Hg Hm] Hl Hb.
  assert (books (run_end s) (delete id (sv_conns sv))) as Hend.
  { pose proof (books_end _ _ id _ Hu Hb (lookup_insert_eq _ _ _)) as He. cbn in He.
    rewrite delete_insert_eq in He. by destruct s. }
  split; cbn; [done| |set_solver|set_solver|done].
  intros id' l'. rewrite lookup_delete_Some. intros [_ Hl']. by eapply Hlive.
Qed.
Lemma collect_ok sv : server_ok sv -> server_ok (collect_garbage sv).
Proof.
  intros [Hb Hlive Ht Hg Hm]. split; cbn; [done|done|set_solver|set_solver|].
  etransitivity; [|exact Hm]. apply subseteq_size. set_solver.
Qed.

(** The reader sends one PROXY message, the first. *)
Lemma request_loop_proxies fuel : forall max bytes eof, proxies (request_loop fuel max bytes eof) = 0.
Proof.
  induction fuel as [|fuel IH]; intros max bytes eof; [done|]. cbn [request_loop].
  destruct (read_until _ _) as [[line rest] complete]. destruct (_ && _); [done|]. destruct line as [|b line]; [done|].
  repeat case_match; try done. by rewrite proxies_cons, IH.
Qed.
Lemma handle_requests_proxies max reads : proxies (handle_requests ppp_parse max reads) <= 1.
Proof.
  unfold handle_requests. destruct (read_proxy_headers _ _) as [[[a b] r]| | |]; try (cbn; lia).
  destruct (stream_bytes r) as [bs eof]. rewrite proxies_cons, request_loop_proxies. cbn. lia.
Qed.
Lemma accept_ok sv now id ip reads : server_ok sv -> id ∉ threads sv -> server_ok (accept_stream cfg ppp_parse sv now id ip reads).
Proof.
  intros Hok%collect_ok Hid. unfold accept_stream. destruct (decide _) as [|Hlt]; [done|].
  assert (id ∉ threads (collect_garbage sv)) as Hn by (cbn; set_solver).
  destruct Hok as [[B1 B2 B3 B4 B5] Hlive Ht Hg Hm].
  assert (sv_conns (collect_garbage sv) !! id = None) as Hc by (apply not_elem_of_dom; set_solver).
  split; cbn [sv_shared sv_conns threads garbage].
  - split; cbn [run_start set_clients g_clients g_subscriptions client_counts]; [..|done|done].
    + rewrite map_size_insert_None by done. lia.
    + rewrite msum_insert_new by done. done.
    + intros ip'. rewrite msum_insert_new by done. rewrite B3. done.
  - intros id' l'. destruct (decide (id = id')) as [<-|Hne]; [|rewrite lookup_insert_ne by done; apply Hlive].
    rewrite lookup_insert_eq. intros [= <-]. split; cbn [l_conn l_unread connection_new status_hashes c_chan].
    + rewrite map_size_empty. lia.
    + cbn. lia.
    + pose proof (handle_requests_proxies (max_line_size cfg) reads). cbn [proxies]. unfold registered. cbn. lia.
  - rewrite dom_insert. set_solver.
  - cbn. set_solver.
  - rewrite size_union by set_solver. rewrite size_singleton. lia.
Qed.
Lemma notify_ok sv : server_ok sv -> server_ok (notify sv).
Proof.
  intros [[B1 B2 B3 B4 B5] Hlive Ht Hg Hm].
  assert (forall c, n_subs (try_send PeriodicUpdate c) = n_subs c /\ registered_ip (try_send PeriodicUpdate c) = registered_ip c) as Hts.
  { intros c. unfold try_send. by destruct (decide _). }
  split; cbn; [..|done].
  - split; cbn; [by rewrite map_size_fmap| | |done|done].
    + rewrite msum_fmap; [done|]. intros l. apply Hts.
    + intros ip. rewrite msum_fmap; [done|]. intros l. unfold is_client. cbn. by rewrite (proj2 (Hts (l_conn l))).
  - intros id l'. rewrite lookup_fmap_Some. intros (l & <- & Hl). destruct (Hlive id l Hl) as [L1 L2 L3].
    pose proof (keeping_try_send cfg (sv_shared sv, l_conn l)) as Hk.
    exact (keeps_live l (l_conn l) (sv_shared sv, try_send PeriodicUpdate (l_conn l)) L1 L2 L3 (sv_shared sv) Hk).
  - by rewrite dom_fmap.
  - by rewrite dom_fmap.
Qed.
Lemma step_ok sv sv' : is_u64 (Z.of_nat (connections_per_client cfg)) -> step sv sv' -> server_ok sv -> server_ok sv'.
Proof.
  intros Hu Hs Hok.
  destruct Hs as [sv now id ip reads Hid|sv id l msg unread Hl Hun Hlen|sv|sv q|sv id l msg rest rpc now later order acc s' sent Hl Hc _ Hp Hh
    |sv id l msg rest rpc now later order acc s' sent Hl Hc _ Hp Hh|sv id l msg rest rpc now later order acc s' e Hl Hc _ Hp Hh|sv id l Hl].
  - by apply accept_ok.
  - destruct (ok_live sv Hok id l Hl) as [L1 L2 L3]. rewrite Hun, proxies_cons in L3. apply (put_ok _ _ l); [done|done|..].
    + by apply (books_put (sv_shared sv) _ id l (sv_shared sv, _) unread (set_chan (l_conn l) (c_chan (l_conn l) ++ [msg])));
        [apply Hok|..|apply keeps_refl].
    + split; cbn [l_conn l_unread snd set_chan c_chan status_hashes]; [done|rewrite length_app; cbn; lia|].
      rewrite proxies_app, proxies_cons. change (registered _) with (registered (l_conn l)). cbn [proxies]. change (proxies []) with 0. lia.
  - by apply notify_ok.
  - destruct Hok as [[B1 B2 B3 B4 B5] Hlive Ht Hg Hm]. by split.
  - destruct (handle_ok _ _ _ _ _ _ _ _ _ _ _ _ Hok Hl Hc Hp Hh). by eapply put_ok.
  - destruct (handle_ok _ _ _ _ _ _ _ _ _ _ _ _ Hok Hl Hc Hp Hh). by eapply finish_ok.
  - destruct (handle_ok _ _ _ _ _ _ _ _ _ _ _ _ Hok Hl Hc Hp Hh). by eapply finish_ok.
  - eapply (finish_ok _ _ l _ (l_unread l)); [done|done|done|]. cbn. rewrite insert_id; [apply Hok|]. by destruct l.
Qed.
Lemma reachable_ok sv : is_u64 (Z.of_nat (connections_per_client cfg)) -> reachable sv -> server_ok sv.
Proof. intros Hu. induction 1 as [q|sv sv' _ IH Hs]; [apply server_start_ok|by eapply step_ok]. Qed.

Lemma msum_filter (P : Live -> Prop) `{!forall l, Decision (P l)} (conns : gmap nat Live) :
  msum (fun l => if decide (P l) then 1 else 0)%Z conns = Z.of_nat (size (filter (fun p => P p.2) conns)).
Proof.
  induction conns as [|k l conns Hk IH] using map_ind; [done|]. rewrite msum_insert_new by done.
  destruct (decide (P l)) as [HP|HP].
  - rewrite map_filter_insert_True by done. rewrite map_size_insert_None; [lia|].
    apply map_lookup_filter_None. by left.
  - rewrite map_filter_insert_False, delete_id by done. lia.
Qed.
(** The live connections registered for a client. *)
Definition connections_of (ip : IpAddr) (conns : gmap nat Live) : gmap nat Live :=
  filter (fun p => registered_ip (l_conn p.2) = Some ip) conns.

(** C12: In every state the server can reach, whatever the interleaving of its threads and of
    the clients, the gauge of clients is the number of live connections, the gauge of
    subscriptions the sum of their subscriptions, and the table of clients has an entry
    for exactly the addresses with a registered live connection, holding their number. *)
Theorem server_books_exact sv :
  is_u64 (Z.of_nat (connections_per_client cfg)) -> reachable sv ->
  let sh := sv_shared sv in
  g_clients sh = Z.of_nat (size (sv_conns sv)) /\
  g_subscriptions sh = msum (fun l => n_subs (l_conn l)) (sv_conns sv) /\
  (forall ip n, client_counts sh !! ip = Some n <-> n = size (connections_of ip (sv_conns sv)) /\ 0 < n).
Proof.
  intros Hu Hr. destruct (reachable_ok sv Hu Hr) as [[B1 B2 B3 B4 B5] _ _ _ _].
  split; [done|]. split; [done|]. intros ip n. specialize (B3 ip). specialize (B4 ip).
  unfold is_client in B3. rewrite (msum_filter (fun l => registered_ip (l_conn l) = Some ip)) in B3.
  apply Nat2Z.inj in B3. unfold connections_of.
  destruct (client_counts (sv_shared sv) !! ip) as [m|]; cbn in B3; (split; [|intros [? ?]; f_equal; lia]).
  - intros [= <-]. split; [done|]. destruct m; [done|lia].
  - done.
Qed.
(** C13: No limit of the configuration is ever exceeded: live connections and threads,
    registered connections of one client, subscriptions of one connection, and the
    messages waiting in its channel. *)
Theorem server_limits_hold sv :
  is_u64 (Z.of_nat (connections_per_client cfg)) -> reachable sv ->
  size (sv_conns sv) <= size (threads sv) <= max_clients cfg /\
  (forall ip, size (connections_of ip (sv_conns sv)) <= connections_per_client cfg) /\
  (forall id l, sv_conns sv !! id = Some l ->
     size (status_hashes (l_conn l)) <= max_subscriptions cfg /\ length (c_chan (l_conn l)) <= CHAN_SIZE).
Proof.
  intros Hu Hr. destruct (reachable_ok sv Hu Hr) as [[_ _ B3 _ B5] Hlive Ht _ Hm].
  split; [|split].
  - split; [|done]. rewrite <- size_dom. by apply subseteq_size.
  - intros ip. specialize (B3 ip). unfold is_client in B3.
    rewrite (msum_filter (fun l => registered_ip (l_conn l) = Some ip)) in B3. apply Nat2Z.inj in B3.
    unfold connections_of. rewrite <- B3. destruct (client_counts (sv_shared sv) !! ip) as [m|] eqn:Hc; cbn; [|lia]. by eapply B5.
  - intros id l Hl. by destruct (Hlive id l Hl).
Qed.
End servers.

(** ** Witnesses *)

(** A TCP client that connects, sends nothing and has its PROXY message handled. *)
Definition ex_server (q : Query KvMap) : Server :=
  put (put (accept_stream ex_ecfg (fun _ => Invalid) (server_start q) 0 7 (Some (V4 9)) []) 7
        (mkShared q 1 0 ∅, set_chan (connection_new 0 (Some (V4 9))) [Proxy None]) [Done]) 7
    (mkShared q 1 0 {[V4 9 := 1]}, set_registered (connection_new 0 (Some (V4 9))) (Some (V4 9))) [Done].
Lemma ex_server_reachable (q : Query KvMap) :
  @server_reachable KvMap _ ExampleLib FixintWincode ExampleElectrum ex_ecfg (mkQueryConfig 500 Bitcoin) ex_mcfg
    (fun _ => Invalid) (fun _ => Err (Msg "")) (fun _ => null_hash) (ex_server q).
Proof.
  eapply reach_step; [eapply reach_step; [eapply reach_step|]|]; [apply (reach_start _ _ _ _ _ _ q)|..].
  - apply (step_accept _ _ _ _ _ _ (server_start q) 0 7 (Some (V4 9)) []). apply not_elem_of_empty.
  - apply (step_read _ _ _ _ _ _ _ 7 (mkLive (connection_new 0 (Some (V4 9))) [Proxy None; Done]) (Proxy None) [Done]);
      [reflexivity|reflexivity|cbn; unfold CHAN_SIZE; lia].
  - apply (step_handle _ _ _ _ _ _ _ 7 (mkLive (set_chan (connection_new 0 (Some (V4 9))) [Proxy None]) [Done])
      (Proxy None) [] (mkQueryRpc (mkMempoolRpc (Ok ∅) (fun _ => Ok []) (fun _ => Err (Msg ""))) (fun _ => Err (Msg ""))
        (fun _ => Ok []) (Err (Msg ""))) 1 1 [] 0 _ []); reflexivity.
Qed.
Lemma ex_limit_u64 : is_u64 (Z.of_nat (connections_per_client ex_ecfg)).
Proof. by vm_compute. Qed.
Lemma server_books_exact_witness : exists q : Query KvMap,
  client_counts (sv_shared (ex_server q)) !! V4 9 = Some 1 /\
  1 = size (connections_of (V4 9) (sv_conns (ex_server q))).
Proof.
  destruct ex_both_exist as (q & _). exists q.
  pose proof (server_books_exact ex_ecfg (mkQueryConfig 500 Bitcoin) ex_mcfg (fun _ => Invalid) (fun _ => Err (Msg ""))
    (fun _ => null_hash) (ex_server q) ex_limit_u64 (ex_server_reachable q)) as (_ & _ & Hn).
  assert (client_counts (sv_shared (ex_server q)) !! V4 9 = Some 1) as H1 by reflexivity.
  split; [exact H1|]. exact (proj1 (proj1 (Hn (V4 9) 1) H1)).
Defined.
Lemma server_limits_hold_witness : exists q : Query KvMap,
  size (sv_conns (ex_server q)) <= max_clients ex_ecfg /\
  size (connections_of (V4 9) (sv_conns (ex_server q))) <= connections_per_client ex_ecfg.
Proof.
  destruct ex_both_exist as (q & _). exists q.
  pose proof (server_limits_hold ex_ecfg (mkQueryConfig 500 Bitcoin) ex_mcfg (fun _ => Invalid) (fun _ => Err (Msg ""))
    (fun _ => null_hash) (ex_server q) ex_limit_u64 (ex_server_reachable q)) as ([H1 H2] & H3 & _).
  split; [exact (Nat.le_trans _ _ _ H1 H2)|exact (H3 (V4 9))].
Defined.
