(* ===== verification/Auth.v ===== *)
(** * [auth.rs]: the npub allowlist and NIP-98 authorization

    The allowlist is the set of keys a file of lines names; reloading a broken file
    keeps the old set.  [verify_nip98] is the sequence of checks of the source over the
    decoders it calls (Base64, JSON, Nostr events, SHA-256), which are an interface;
    the theorem says which requests pass all of them. *)

From S2P Require Import Prelude Text Json.

(** Errors of these services are a sum: [inl] for [Err], [inr] for [Ok]. *)
#[export] Instance sum_ret E : MRet (sum E) := fun A a => inr a.
#[export] Instance sum_bind E : MBind (sum E) := fun A B f m =>
  match m with inr a => f a | inl e => inl e end.
(** [o.ok_or(e)] and [if bad { return Err(e) }] *)
Definition or_fail {E A} (e : E) (o : option A) : E + A :=
  match o with Some a => inr a | None => inl e end.
Definition fail_if {E} (bad : bool) (e : E) : E + unit := if bad then inl e else inr tt.

Inductive AuthError :=
  | MissingHeader | BadEncoding | BadJson | BadSignature | WrongKind | UrlMismatch
  | MethodMismatch | Expired | PayloadMismatch | NotAllowlisted | AuthIo (msg : string).

(** What is called outside the repository: [nostr::PublicKey::parse], the Base64
    decoder, [serde_json], [nostr::Event] with its signature check, and SHA-256 in hex. *)
Record NostrEvent := mkEvent { ev_verifies : bool; ev_pubkey : FullHash }.
Class NostrLib := {
  parse_pubkey_line : Text -> option FullHash;
  decode_base64 : Text -> option Bytes;
  json_value : Bytes -> option Json;
  nostr_event : Bytes -> option NostrEvent;
  sha256_hex : Bytes -> Text;
}.
(** A bech32 string consists of ASCII letters and digits. *)
Definition is_alnum (c : Z) : Prop := (48 <= c <= 57 \/ 65 <= c <= 90 \/ 97 <= c <= 122)%Z.
Class NostrLaws `{!NostrLib} : Prop := {
  npub_alnum t k : parse_pubkey_line t = Some k -> starts_with t (text_of "npub1") = true -> Forall is_alnum t;
}.

Section auth.
Context `{!NostrLib}.

(** ** The allowlist *)

(** The lines the parsers skip. *)
Definition skipped_line (line : Text) : bool :=
  bool_decide (line = []) || starts_with line [35%Z].
Fixpoint parse_allowlist_lines (ls : list Text) (keys : gset FullHash) : AuthError + gset FullHash :=
  match ls with
  | [] => inr keys
  | raw :: ls =>
      let line := trim raw in
      if skipped_line line then parse_allowlist_lines ls keys
      else match parse_pubkey_line line with
           | Some pk => parse_allowlist_lines ls ({[pk]} ∪ keys)
           | None => inl (AuthIo "invalid allowlist line")
           end
  end.
(** [file] is the text of the file, if it exists. *)
Definition parse_allowlist_file (file : option Text) : AuthError + gset FullHash :=
  text ← or_fail (AuthIo "No such file") file; parse_allowlist_lines (lines text) ∅.
Definition deny_all : gset FullHash := ∅.
Definition load (file : option Text) : AuthError + gset FullHash :=
  match file with
  | None => inl (AuthIo "allowlist file missing")
  | Some _ => parse_allowlist_file file
  end.
(** A failed reload leaves the keys in force. *)
Definition reload (keys : gset FullHash) (file : option Text) : gset FullHash * (AuthError + unit) :=
  match parse_allowlist_file file with
  | inr keys' => (keys', inr tt)
  | inl e => (keys, inl e)
  end.

(** ** NIP-98 *)

Definition MAX_NIP98_AUTH_EVENT_BYTES : Z := 64 * 1024.
Definition MAX_NIP98_AUTH_ENCODED_BYTES : Z :=
  ((MAX_NIP98_AUTH_EVENT_BYTES / 3 + (if MAX_NIP98_AUTH_EVENT_BYTES mod 3 =? 0 then 0 else 1)) * 4)%Z.

Definition strip_prefix (t p : Text) : option Text :=
  if starts_with t p then Some (drop (length p) t) else None.
Definition to_ascii_lowercase (t : Text) : Text :=
  map (fun c => if ((65 <=? c) && (c <=? 90))%Z then (c + 32)%Z else c) t.

(** The loop over the tags; a tag is used only while none of its name was found. *)
Definition tag_step (acc : option Text * option Text * option Text) (tag : Json)
    : option Text * option Text * option Text :=
  let '(u_tag, method_tag, payload_tag) := acc in
  match as_array tag with
  | Some (first :: rest) =>
      let name := default [] (as_str first) in
      let val := head rest ≫= as_str in
      if bool_decide (name = text_of "u") && bool_decide (u_tag = None)
      then (val, method_tag, payload_tag)
      else if bool_decide (name = text_of "method") && bool_decide (method_tag = None)
      then (u_tag, val, payload_tag)
      else if bool_decide (name = text_of "payload") && bool_decide (payload_tag = None)
      then (u_tag, method_tag, val)
      else acc
  | _ => acc
  end.

Definition verify_nip98 (header : option Text) (method absolute_url : Text) (body : Bytes)
    (now_unix window_secs : Z) (allow : gset FullHash) : AuthError + FullHash :=
  header ← or_fail MissingHeader header;
  encoded ← or_fail MissingHeader
    (match strip_prefix header (text_of "Nostr ") with
     | Some e => Some e | None => strip_prefix header (text_of "nostr ") end);
  let encoded := trim encoded in
  _ ← fail_if (bool_decide (encoded = [])) MissingHeader;
  _ ← fail_if (MAX_NIP98_AUTH_ENCODED_BYTES <? utf8_len encoded)%Z BadEncoding;
  raw ← or_fail BadEncoding (decode_base64 encoded);
  _ ← fail_if (MAX_NIP98_AUTH_EVENT_BYTES <? Z.of_nat (length raw))%Z BadEncoding;
  value ← or_fail BadJson (json_value raw);
  event ← or_fail BadJson (nostr_event raw);
  _ ← fail_if (negb (ev_verifies event)) BadSignature;
  kind ← or_fail WrongKind (json_get value (text_of "kind") ≫= as_u64);
  _ ← fail_if (negb (kind =? 27235)%Z) WrongKind;
  created_at ← or_fail Expired (json_get value (text_of "created_at") ≫= as_u64);
  _ ← fail_if (window_secs <? Z.abs (now_unix - created_at))%Z Expired;
  tags ← or_fail UrlMismatch (json_get value (text_of "tags") ≫= as_array);
  let '(u_tag, method_tag, payload_tag) := fold_left tag_step tags (None, None, None) in
  _ ← fail_if (negb (bool_decide (u_tag = Some absolute_url))) UrlMismatch;
  _ ← fail_if (negb (match method_tag with
                     | Some m => bool_decide (to_ascii_lowercase m = to_ascii_lowercase method)
                     | None => false end)) MethodMismatch;
  _ ← fail_if (match payload_tag with
               | Some payload => negb (bool_decide (to_ascii_lowercase payload = sha256_hex body))
               | None => false end) PayloadMismatch;
  _ ← fail_if (negb (bool_decide (ev_pubkey event ∈ allow))) NotAllowlisted;
  inr (ev_pubkey event).

(** ** What passes *)

(** The value of the first tag of a name that has a string value. *)
Definition tag_value (name : Text) (tag : Json) : option Text :=
  match tag with
  | JArr (JStr n :: JStr v :: _) => if decide (n = name) then Some v else None
  | _ => None
  end.
Definition first_tag (name : Text) (tags : list Json) : option Text := head (omap (tag_value name) tags).
Definition or_first (o : option Text) (name : Text) (tags : list Json) : option Text :=
  match o with Some v => Some v | None => first_tag name tags end.

Lemma or_first_cons o name tag tags :
  or_first o name (tag :: tags) =
    or_first (match o with Some v => Some v | None => tag_value name tag end) name tags.
Proof. destruct o; [done|]. unfold or_first, first_tag. cbn. by destruct (tag_value name tag). Qed.

Lemma tag_step_value u m p tag :
  tag_step (u, m, p) tag =
    (match u with Some v => Some v | None => tag_value (text_of "u") tag end,
     match m with Some v => Some v | None => tag_value (text_of "method") tag end,
     match p with Some v => Some v | None => tag_value (text_of "payload") tag end).
Proof.
  assert (forall A (o : option A), match o with Some v => Some v | None => None end = o) as He by (by intros ? []).
  unfold tag_step. destruct tag as [| | | | |[|first rest]|]; cbn [as_array tag_value]; rewrite ?He; try done.
  destruct first as [| | | |n| |]; cbn [as_str default from_option]; rewrite ?He; try done.
  set (val := head rest ≫= as_str).
  assert (forall name, match rest with JStr v :: _ => if decide (n = name) then Some v else None | _ => None end =
    if decide (n = name) then val else None) as Hv.
  { intros name. unfold val. destruct rest as [|[] rest]; cbn; by case_decide. }
  unfold tag_value. rewrite !Hv. clearbody val. unfold id.
  assert (text_of "u" <> text_of "method" /\ text_of "u" <> text_of "payload" /\
    text_of "method" <> text_of "payload") as (H1 & H2 & H3) by done.
  destruct u, m, p; repeat case_bool_decide; repeat case_decide; simplify_eq; try done.
Qed.
Lemma tag_loop tags u m p :
  fold_left tag_step tags (u, m, p) =
    (or_first u (text_of "u") tags, or_first m (text_of "method") tags, or_first p (text_of "payload") tags).
Proof.
  revert u m p. induction tags as [|tag tags IH]; intros u m p.
  { by destruct u, m, p. }
  cbn [fold_left]. rewrite tag_step_value, IH, <- !or_first_cons. done.
Qed.

Lemma bind_inr {E A B} (m : E + A) (f : A -> E + B) b :
  m ≫= f = inr b <-> exists a, m = inr a /\ f a = inr b.
Proof. destruct m; cbn; naive_solver. Qed.
Lemma or_fail_inr {E A} (e : E) (o : option A) a : or_fail e o = inr a <-> o = Some a.
Proof. destruct o; cbn; naive_solver. Qed.
Lemma fail_if_inr {E} bad (e : E) u : fail_if bad e = inr u <-> bad = false.
Proof. destruct bad, u; cbn; naive_solver. Qed.

(** The credentials of a header. *)
Definition credentials (header : Text) : option Text :=
  match strip_prefix header (text_of "Nostr ") with
  | Some e => Some e | None => strip_prefix header (text_of "nostr ") end.

(** A header that carries an event, of bounded size and correctly signed by [pk]. *)
Definition signed_event (header : option Text) (value : Json) (pk : FullHash) : Prop :=
  exists h encoded raw event, header = Some h /\ credentials h = Some encoded /\
    trim encoded <> [] /\ (utf8_len (trim encoded) <= MAX_NIP98_AUTH_ENCODED_BYTES)%Z /\
    decode_base64 (trim encoded) = Some raw /\ (Z.of_nat (length raw) <= MAX_NIP98_AUTH_EVENT_BYTES)%Z /\
    json_value raw = Some value /\ nostr_event raw = Some event /\
    ev_verifies event = true /\ ev_pubkey event = pk.

Lemma nip98_iff header method url body now window allow pk :
  verify_nip98 header method url body now window allow = inr pk <->
  exists value created tags m, signed_event header value pk /\
    (json_get value (text_of "kind") ≫= as_u64) = Some 27235%Z /\
    (json_get value (text_of "created_at") ≫= as_u64) = Some created /\
    (Z.abs (now - created) <= window)%Z /\
    (json_get value (text_of "tags") ≫= as_array) = Some tags /\
    first_tag (text_of "u") tags = Some url /\
    first_tag (text_of "method") tags = Some m /\ to_ascii_lowercase m = to_ascii_lowercase method /\
    (forall p, first_tag (text_of "payload") tags = Some p -> to_ascii_lowercase p = sha256_hex body) /\
    pk ∈ allow.
Proof.
  split.
  - intros Hok. unfold verify_nip98 in Hok.
    apply bind_inr in Hok as (h & Hh%or_fail_inr & Hok). apply bind_inr in Hok as (encoded & He%or_fail_inr & Hok).
    cbn zeta in Hok. apply bind_inr in Hok as (? & Hne%fail_if_inr%bool_decide_eq_false & Hok).
    apply bind_inr in Hok as (? & Hl%fail_if_inr%Z.ltb_ge & Hok). apply bind_inr in Hok as (raw & Hr%or_fail_inr & Hok).
    apply bind_inr in Hok as (? & Hlr%fail_if_inr%Z.ltb_ge & Hok). apply bind_inr in Hok as (value & Hv%or_fail_inr & Hok).
    apply bind_inr in Hok as (event & Hev%or_fail_inr & Hok).
    apply bind_inr in Hok as (? & Hs%fail_if_inr%negb_false_iff & Hok). apply bind_inr in Hok as (kind & Hk%or_fail_inr & Hok).
    apply bind_inr in Hok as (? & Hk'%fail_if_inr%negb_false_iff%Z.eqb_eq & Hok).
    apply bind_inr in Hok as (created & Hc%or_fail_inr & Hok). apply bind_inr in Hok as (? & Hw%fail_if_inr%Z.ltb_ge & Hok).
    apply bind_inr in Hok as (tags & Ht%or_fail_inr & Hok). rewrite tag_loop in Hok. cbn [or_first] in Hok.
    apply bind_inr in Hok as (? & Hu%fail_if_inr%negb_false_iff%bool_decide_eq_true & Hok).
    apply bind_inr in Hok as (? & Hm%fail_if_inr%negb_false_iff & Hok). apply bind_inr in Hok as (? & Hp%fail_if_inr & Hok).
    apply bind_inr in Hok as (? & Ha%fail_if_inr%negb_false_iff%bool_decide_eq_true & Hok). injection Hok as <-. subst kind.
    destruct (first_tag (text_of "method") tags) as [m|] eqn:Em; [|done]. apply bool_decide_eq_true in Hm.
    exists value, created, tags, m. split_and!; try done; [by exists h, encoded, raw, event|].
    intros p Hpt. rewrite Hpt in Hp. by apply negb_false_iff, bool_decide_eq_true in Hp.
  - intros (value & created & tags & m & (h & encoded & raw & event & -> & He & Hne & Hl & Hr & Hlr & Hv & Hev & Hs & <-)
      & Hk & Hc & Hw & Ht & Hu & Hm & Hmm & Hp & Ha).
    unfold verify_nip98.
    do 2 (apply bind_inr; eexists; split; [by apply or_fail_inr|]). cbn zeta.
    apply bind_inr. exists tt. split; [by apply fail_if_inr, bool_decide_eq_false|].
    apply bind_inr. exists tt. split; [by apply fail_if_inr, Z.ltb_ge|].
    apply bind_inr. eexists. split; [by apply or_fail_inr|].
    apply bind_inr. exists tt. split; [by apply fail_if_inr, Z.ltb_ge|].
    do 2 (apply bind_inr; eexists; split; [by apply or_fail_inr|]).
    apply bind_inr. exists tt. split; [apply fail_if_inr; by rewrite Hs|].
    apply bind_inr. eexists. split; [by apply or_fail_inr|]. apply bind_inr. exists tt. split; [done|].
    apply bind_inr. eexists. split; [by apply or_fail_inr|].
    apply bind_inr. exists tt. split; [by apply fail_if_inr, Z.ltb_ge|].
    apply bind_inr. eexists. split; [by apply or_fail_inr|]. rewrite tag_loop. cbn [or_first]. rewrite Hu, Hm.
    rewrite !bool_decide_eq_true_2 by done. cbn [negb mbind sum_bind fail_if].
    destruct (first_tag (text_of "payload") tags) as [p|]; [|done].
    by rewrite (bool_decide_eq_true_2 (to_ascii_lowercase p = _)) by auto.
Qed.
(** C21: A request is authorized for a key exactly when its header carries a correctly
    signed NIP-98 event of that key, of bounded size, kind 27235 and created within the
    window around now, whose first [u] tag is the requested URL, whose first [method]
    tag is the method up to case, whose [payload] tag, if it has one, is the digest of
    the body, and the key is on the allowlist. *)
Theorem nip98_authorizes header method url body now window allow pk :
  verify_nip98 header method url body now window allow = inr pk <->
  exists value created tags m, signed_event header value pk /\
    (json_get value (text_of "kind") ≫= as_u64) = Some 27235%Z /\
    (json_get value (text_of "created_at") ≫= as_u64) = Some created /\
    (Z.abs (now - created) <= window)%Z /\
    (json_get value (text_of "tags") ≫= as_array) = Some tags /\
    first_tag (text_of "u") tags = Some url /\
    first_tag (text_of "method") tags = Some m /\ to_ascii_lowercase m = to_ascii_lowercase method /\
    (forall p, first_tag (text_of "payload") tags = Some p -> to_ascii_lowercase p = sha256_hex body) /\
    pk ∈ allow.
Proof. apply nip98_iff. Qed.
End auth.

(** ** An instance, for evaluation

    Keys are the last character of an alphanumeric npub; a "Base64" text stands for
    itself and decodes to one fixed event signed by the key of its first byte. *)

#[export] Instance is_alnum_dec c : Decision (is_alnum c).
Proof. unfold is_alnum. apply _. Defined.
Definition ex_tag (name value : string) : Json := JArr [JStr (text_of name); JStr (text_of value)].
Definition ex_event_json : Json :=
  JObj [(text_of "kind", JInt 27235); (text_of "created_at", JInt 1000);
        (text_of "tags", JArr [ex_tag "u" "http://x/tx"; ex_tag "method" "POST"; ex_tag "u" "http://y"])].
#[export] Instance ExampleNostr : NostrLib := {|
  parse_pubkey_line t :=
    if decide (Forall is_alnum t) then hash_repeat <$> last t else None;
  decode_base64 t := Some t;
  json_value _ := Some ex_event_json;
  nostr_event raw := match raw with c :: _ => Some (mkEvent true (hash_repeat c)) | [] => None end;
  sha256_hex _ := [];
|}.
#[export] Instance ExampleNostr_laws : @NostrLaws ExampleNostr.
Proof. split. intros t k. cbn. case_decide; [done|]. by intros ?. Qed.

(** The first URL tag counts, the method is compared without case, the window is
    inclusive and the key must be on the list. *)
Example ex_verify :
  let go now allow := @verify_nip98 ExampleNostr (Some (text_of "Nostr abc")) (text_of "post")
    (text_of "http://x/tx") [] now 60 allow in
  go 1060%Z {[hash_repeat 97]} = inr (hash_repeat 97) /\ go 1061%Z {[hash_repeat 97]} = inl Expired /\
  go 1000%Z ∅ = inl NotAllowlisted.
Proof. vm_compute. done. Qed.
