(* ===== verification/Queue.v ===== *)
(** * [queue.rs]: the approval queue

    The queue file holds one [npub,email] line per pending request; submissions update
    or append a row under rate limits and size caps, and the operator's commands move
    keys to the allowlist file or drop them.  The state of the service is the record of
    the source with the text of its file; a write replaces the whole text ([rename] of
    a sibling file) or, when the file system refuses it, changes nothing, which the
    argument [io] of the operations decides. *)

From S2P Require Import Prelude Text Json Auth.

Record QueueCaps := mkCaps {
  max_rows : Z; max_bytes : Z; per_ip : Z; per_npub : Z; window_secs : Z }.
Definition QueueCaps_default : QueueCaps := mkCaps 10000 (2 * 1024 * 1024) 10 5 60.

Record QueueRow := mkRow { qr_npub : Text; qr_email : Text }.
Inductive QueueError :=
  | InvalidNpub | InvalidEmail | QBadJson | RateLimited | CapExceeded | NotFound | QIo (msg : string).

(** [file] is the text of the queue file, if it exists. *)
Record QueueStore := mkStore {
  caps : QueueCaps;
  ip_hits : gmap IpAddr (list Z);
  npub_hits : gmap FullHash (list Z);
  file : option Text }.

(** ** The file *)

Definition comma : Z := 44.
Definition parse_queue_line (line : Text) : option QueueRow :=
  match split_on comma line with
  | [npub; email] => if decide (trim npub = []) then None else Some (mkRow (trim npub) (trim email))
  | _ => None
  end.
Definition parse_rows (ls : list Text) : list QueueRow :=
  omap (fun raw => let line := trim raw in if decide (line = []) then None else parse_queue_line line) ls.
Definition load_queue (f : option Text) : QueueError + list QueueRow :=
  text ← or_fail (QIo "No such file") f; inr (parse_rows (lines text)).

Definition row_text (r : QueueRow) : Text := qr_npub r ++ comma :: qr_email r.
Definition queue_body (rows : list QueueRow) : Text := unlines (map row_text rows).
(** [write_queue] and [fsync_lines]: the new text, or the old file and an error. *)
Definition write_file (io : bool) (f : option Text) (body : Text) : option Text * (QueueError + unit) :=
  if io then (Some body, inr tt) else (f, inl (QIo "write failed")).
Definition write_queue (io : bool) (f : option Text) (rows : list QueueRow) := write_file io f (queue_body rows).
Definition fsync_lines (io : bool) (f : option Text) (ls : list Text) := write_file io f (unlines ls).

Definition open_store (f : option Text) (c : QueueCaps) : QueueStore :=
  mkStore c ∅ ∅ (match f with Some t => Some t | None => Some [] end).

(** ** Rate limits *)

Definition saturating_sub (a b : Z) : Z := Z.max 0 (a - b).
Definition rate_ok (hits : list Z) (now window max : Z) : list Z * bool :=
  let hits := filter (fun t => saturating_sub now t < window)%Z hits in
  if decide (max <= as_u32 (Z.of_nat (length hits)))%Z then (hits, false)
  else (hits ++ [now], true).

Section queue.
Context `{!NostrLib}.

Definition valid_npub (npub : Text) : QueueError + FullHash :=
  if starts_with npub (text_of "npub1") then or_fail InvalidNpub (parse_pubkey_line npub)
  else inl InvalidNpub.

(** The two limiters; a limiter keeps the times it retained also when it refuses. *)
Definition limit_ip (s : QueueStore) (ip : option IpAddr) (now : Z) : QueueStore * bool :=
  match ip with
  | None => (s, true)
  | Some ip =>
      let '(hits, ok) := rate_ok (default [] (ip_hits s !! ip)) now (window_secs (caps s)) (per_ip (caps s)) in
      (mkStore (caps s) (<[ip := hits]> (ip_hits s)) (npub_hits s) (file s), ok)
  end.
Definition limit_npub (s : QueueStore) (pk : FullHash) (now : Z) : QueueStore * bool :=
  let '(hits, ok) := rate_ok (default [] (npub_hits s !! pk)) now (window_secs (caps s)) (per_npub (caps s)) in
  (mkStore (caps s) (ip_hits s) (<[pk := hits]> (npub_hits s)) (file s), ok).

(** [rows.iter_mut().find(|r| r.npub == npub)] and the assignment through it. *)
Fixpoint update_email (rows : list QueueRow) (npub email : Text) : option (list QueueRow) :=
  match rows with
  | [] => None
  | r :: rows =>
      if decide (qr_npub r = npub) then Some (mkRow npub email :: rows)
      else (fun rs => r :: rs) <$> update_email rows npub email
  end.

(** The part of a submission under the disk lock. *)
Definition store_row (io : bool) (s : QueueStore) (npub email : Text) : QueueStore * (QueueError + QueueRow) :=
  match load_queue (file s) with
  | inl e => (s, inl e)
  | inr rows =>
      let write rows :=
        let '(f, r) := write_queue io (file s) rows in
        (mkStore (caps s) (ip_hits s) (npub_hits s) f, _ ← r; inr (mkRow npub email)) in
      match update_email rows npub email with
      | Some rows' => write rows'
      | None =>
          let line_bytes := (utf8_len npub + 1 + utf8_len email + 1)%Z in
          let current_bytes := match file s with Some t => utf8_len t | None => 0%Z end in
          if decide (max_rows (caps s) <= Z.of_nat (length rows) \/
                     max_bytes (caps s) < Z.min (current_bytes + line_bytes) (u64_mod - 1))%Z
          then (s, inl CapExceeded)
          else write (rows ++ [mkRow npub email])
      end
  end.

Definition submit (io : bool) (s : QueueStore) (ip : option IpAddr) (npub email : Text) (now : Z)
    : QueueStore * (QueueError + QueueRow) :=
  match valid_npub npub with
  | inl e => (s, inl e)
  | inr pk =>
      if decide (comma ∈ email) then (s, inl InvalidEmail)
      else
        let '(s, ok) := limit_ip s ip now in
        if ok : bool then
          let '(s, ok) := limit_npub s pk now in
          if ok : bool then store_row io s npub email else (s, inl RateLimited)
        else (s, inl RateLimited)
  end.

(** ** Operator commands

    The files are the queue and the allowlist; [io_q] and [io_a] say whether writing
    each of them succeeds. *)

(** A line of the allowlist names the key. *)
Definition names_key (pk : FullHash) (raw : Text) : bool :=
  negb (skipped_line (trim raw)) && bool_decide (parse_pubkey_line (trim raw) = Some pk).
Definition upsert_allowlist (io_a : bool) (allow : option Text) (npub : Text)
    : option Text * (QueueError + unit) :=
  match valid_npub npub with
  | inl e => (allow, inl e)
  | inr pk =>
      let ls := lines (default [] allow) in
      let kept := map (fun raw => if names_key pk raw then npub else raw) ls in
      fsync_lines io_a allow (if existsb (names_key pk) ls then kept else kept ++ [npub])
  end.

Definition approve (io_q io_a : bool) (queue allow : option Text) (npub : Text)
    : option Text * option Text * (QueueError + unit) :=
  match valid_npub npub with
  | inl e => (queue, allow, inl e)
  | inr _ =>
      let '(queue, r) :=
        match queue with
        | None => (None, inr tt)
        | Some t => write_queue io_q queue (filter (fun r => qr_npub r <> npub) (parse_rows (lines t)))
        end in
      match r with
      | inl e => (queue, allow, inl e)
      | inr _ => let '(allow, r) := upsert_allowlist io_a allow npub in (queue, allow, r)
      end
  end.

Definition reject (io_q : bool) (queue : option Text) (npub : Text) : option Text * (QueueError + unit) :=
  match (_ ← valid_npub npub; load_queue queue) with
  | inl e => (queue, inl e)
  | inr rows =>
      let rows' := filter (fun r => qr_npub r <> npub) rows in
      if decide (length rows' = length rows) then (queue, inl NotFound)
      else write_queue io_q queue rows'
  end.

Definition remove_npub (io_a : bool) (allow : option Text) (npub : Text) : option Text * (QueueError + unit) :=
  match valid_npub npub with
  | inl e => (allow, inl e)
  | inr pk =>
      fsync_lines io_a allow (filter (fun raw => names_key pk raw = false) (lines (default [] allow)))
  end.

(** ** Requests *)

(** [serde_json::from_str::<PostBody>], UTF-8 and the parser of addresses. *)
Record HttpLib := mkHttpLib {
  utf8_decode : Bytes -> option Text;
  post_body : Text -> option (Text * Text);
  parse_ip : Text -> option IpAddr }.

(** A request as the server reads it; [rq_body] is [None] when reading it fails. *)
Record Request := mkRequest {
  rq_post : bool; rq_ip : option IpAddr; rq_body : option Bytes; rq_now : Z; rq_io : bool }.

(** The first hop of [X-Forwarded-For]. *)
Definition unix_client_ip (lib : HttpLib) (forwarded_for : option Text) : option IpAddr :=
  s ← forwarded_for; first ← head (split_on comma s);
  if decide (trim first = []) then None else parse_ip lib (trim first).

Definition queue_status (r : QueueError + QueueRow) : Z :=
  match r with
  | inr _ => 200
  | inl InvalidNpub | inl InvalidEmail => 400
  | inl RateLimited => 429
  | inl CapExceeded => 507
  | inl _ => 500
  end%Z.
(** One turn of the loop of [run], and [handle_unix_http]: the status of the response. *)
Definition handle (lib : HttpLib) (s : QueueStore) (rq : Request) : QueueStore * Z :=
  if negb (rq_post rq) then (s, 405%Z)
  else match rq_body rq ≫= utf8_decode lib with
  | None => (s, 400%Z)
  | Some body =>
      match post_body lib body with
      | None => (s, 400%Z)
      | Some (npub, email) =>
          let '(s, r) := submit (rq_io rq) s (rq_ip rq) npub email (rq_now rq) in (s, queue_status r)
      end
  end.
(** The requests served, newest first, with the statuses they got. *)
Fixpoint serve (lib : HttpLib) (s : QueueStore) (log : list (Request * Z)) (rqs : list Request)
    : QueueStore * list (Request * Z) :=
  match rqs with
  | [] => (s, log)
  | rq :: rqs => let '(s, code) := handle lib s rq in serve lib s ((rq, code) :: log) rqs
  end.
End queue.
