(* ===== verification/QueueFacts.v ===== *)
(** * What the queue guarantees

    The rate limits bound the requests that get through in any window of time; a
    submission updates or appends one row of the file, whatever the file holds, and
    appending respects the caps; approving and removing change the allowlist by exactly
    the key. *)

From S2P Require Import Prelude Text Json Auth Queue.

(** ** One limiter *)

Section limiter.
Context (window max : Z).
(** The times in the window that ends now, and in the one that ends at [t]. *)
Definition recent_hits (now : Z) (l : list Z) : list Z := filter (fun t => saturating_sub now t < window)%Z l.
Definition in_window (t : Z) (l : list Z) : list Z := filter (fun a => t - window < a <= t)%Z l.

(** [adm] are the times of the requests that got through, [hits] what is remembered. *)
Record limiter_inv (hits adm : list Z) (clock : Z) : Prop := {
  lv_past : Forall (fun t => t <= clock)%Z adm;
  lv_len : (Z.of_nat (length hits) <= max)%Z;
  lv_cover now : (clock <= now)%Z -> length (recent_hits now adm) <= length (recent_hits now hits);
  lv_bound t : (Z.of_nat (length (in_window t adm)) <= max)%Z;
}.

Lemma limiter_init clock : (0 <= max)%Z -> limiter_inv [] [] clock.
Proof. intros H. split; cbn; try lia; constructor. Qed.
Lemma limiter_wait hits adm clock now :
  limiter_inv hits adm clock -> (clock <= now)%Z -> limiter_inv hits adm now.
Proof.
  intros [Hp Hl Hc Hb] Hn. split; try done.
  - eapply Forall_impl; [exact Hp|]. cbn. lia.
  - intros now' Hn'. apply Hc. lia.
Qed.

Lemma recent_recent now now' hits :
  (now <= now')%Z -> recent_hits now' (recent_hits now hits) = recent_hits now' hits.
Proof.
  intros Hn. unfold recent_hits. rewrite list_filter_filter. apply list_filter_iff.
  intros t. unfold saturating_sub. lia.
Qed.

Lemma limiter_step hits adm clock now hits' ok :
  limiter_inv hits adm clock -> (clock <= now)%Z -> (max < u32_mod)%Z ->
  rate_ok hits now window max = (hits', ok) ->
  limiter_inv hits' adm now /\ (ok = true -> limiter_inv hits' (now :: adm) now).
Proof.
  intros Hi Hn Hmax Hr. pose proof (limiter_wait _ _ _ _ Hi Hn) as [Hp Hl Hc Hb].
  unfold rate_ok in Hr. fold (recent_hits now hits) in Hr.
  assert (Z.of_nat (length (recent_hits now hits)) <= max)%Z as HlF.
  { pose proof (length_filter (fun t => saturating_sub now t < window)%Z hits). unfold recent_hits. lia. }
  rewrite as_u32_id in Hr by (unfold is_u32; lia).
  assert (forall now' l, recent_hits now' (l ++ [now]) = recent_hits now' l ++ recent_hits now' [now]) as Happ
    by (intros; unfold recent_hits; apply filter_app).
  assert (forall now', (now <= now')%Z ->
    length (recent_hits now' adm) <= length (recent_hits now' (recent_hits now hits))) as HcF.
  { intros now' Hn'. rewrite recent_recent by done. by apply Hc. }
  case_decide as Hd; injection Hr as <- <-; (split; [|try done]).
  - by split.
  - split; try done; [rewrite length_app; cbn; lia|]. intros now' Hn'. rewrite Happ, length_app.
    specialize (HcF now' Hn'). lia.
  - intros _.
    assert (forall now', (now <= now')%Z -> length (recent_hits now' (now :: adm)) <=
      length (recent_hits now' (recent_hits now hits ++ [now]))) as Hcov.
    { intros now' Hn'. rewrite Happ, length_app. change (now :: adm) with ([now] ++ adm).
      unfold recent_hits at 1. rewrite filter_app, length_app. fold (recent_hits now' [now]) (recent_hits now' adm).
      specialize (HcF now' Hn'). lia. }
    split; [by constructor|rewrite length_app; cbn; lia|done|].
    intros t. destruct (decide (now <= t)%Z) as [Ht|Ht].
    + assert (length (in_window t (now :: adm)) <= length (recent_hits t (now :: adm))) as Hin.
      { clear. unfold in_window, recent_hits. induction (now :: adm) as [|a l IH]; [done|].
        rewrite !filter_cons. unfold saturating_sub in *. repeat case_decide; cbn; lia. }
      specialize (Hcov t Ht).
      pose proof (length_filter (fun t0 => saturating_sub t t0 < window)%Z (recent_hits now hits ++ [now])) as Hlf.
      fold (recent_hits t (recent_hits now hits ++ [now])) in Hlf. rewrite length_app in Hlf. cbn in Hlf. lia.
    + unfold in_window. rewrite filter_cons_False by lia. apply Hb.
Qed.
End limiter.

(** A table of limiters, one per key. *)
Section table.
Context {K : Type} `{Countable K} (window max : Z).
Definition table_inv (m : gmap K (list Z)) (adm : K -> list Z) (clock : Z) : Prop :=
  forall k, limiter_inv window max (default [] (m !! k)) (adm k) clock.

Lemma table_wait m adm clock now :
  table_inv m adm clock -> (clock <= now)%Z -> table_inv m adm now.
Proof. intros Hi Hn k. by eapply limiter_wait. Qed.
Lemma table_ext m adm adm' clock :
  (forall k, adm k = adm' k) -> table_inv m adm clock -> table_inv m adm' clock.
Proof. intros He Hi k. rewrite <- He. apply Hi. Qed.
Lemma table_step m adm clock k now hits ok :
  table_inv m adm clock -> (clock <= now)%Z -> (max < u32_mod)%Z ->
  rate_ok (default [] (m !! k)) now window max = (hits, ok) ->
  table_inv (<[k := hits]> m) adm now /\
  (ok = true -> table_inv (<[k := hits]> m) (fun k' => if decide (k' = k) then now :: adm k' else adm k') now).
Proof.
  intros Hi Hn Hmax Hr. destruct (limiter_step _ _ _ _ _ _ _ _ (Hi k) Hn Hmax Hr) as [H1 H2].
  assert (forall k', k' <> k -> limiter_inv window max (default [] (<[k := hits]> m !! k')) (adm k') now) as Ho.
  { intros k' Hk. rewrite lookup_insert_ne by done. eapply limiter_wait; [apply Hi|done]. }
  split; [|intros Hok]; intros k'; (destruct (decide (k' = k)) as [->|Hk]; [rewrite lookup_insert_eq|by apply Ho]).
  - done.
  - by apply H2.
Qed.
End table.

(** ** Served requests *)

Section served.
Context `{!NostrLib} (lib : HttpLib).

(** The requests that got through the limits: answered 200, 507 or 500. *)
Definition admitted (code : Z) : Prop := code = 200%Z \/ code = 507%Z \/ code = 500%Z.
#[export] Instance admitted_dec code : Decision (admitted code).
Proof. unfold admitted. apply _. Defined.
(** The key a request is about. *)
Definition rq_key (rq : Request) : option FullHash :=
  body ← rq_body rq; text ← utf8_decode lib body; p ← post_body lib text;
  match valid_npub p.1 with inr pk => Some pk | inl _ => None end.
Definition admitted_times {K} `{EqDecision K} (key : Request -> option K) (k : K) (log : list (Request * Z)) : list Z :=
  map (fun p => rq_now p.1) (filter (fun p => key p.1 = Some k /\ admitted p.2) log).

Definition serve_inv (c : QueueCaps) (s : QueueStore) (log : list (Request * Z)) (clock : Z) : Prop :=
  caps s = c /\
  table_inv (window_secs c) (per_ip c) (ip_hits s) (fun ip => admitted_times rq_ip ip log) clock /\
  table_inv (window_secs c) (per_npub c) (npub_hits s) (fun pk => admitted_times rq_key pk log) clock.

Lemma admitted_times_refused {K} `{EqDecision K} key (k : K) rq code log :
  ~ admitted code -> admitted_times key k ((rq, code) :: log) = admitted_times key k log.
Proof. intros Hn. unfold admitted_times. rewrite filter_cons_False; [done|]. cbn. tauto. Qed.
Lemma admitted_times_none {K} `{EqDecision K} (key : Request -> option K) (k : K) rq code log :
  key rq = None -> admitted_times key k ((rq, code) :: log) = admitted_times key k log.
Proof. intros Hn. unfold admitted_times. rewrite filter_cons_False; [done|]. cbn. rewrite Hn. naive_solver. Qed.
Lemma admitted_times_some {K} `{EqDecision K} key (k k' : K) rq code log :
  key rq = Some k -> admitted code ->
  admitted_times key k' ((rq, code) :: log) =
    if decide (k' = k) then rq_now rq :: admitted_times key k' log else admitted_times key k' log.
Proof.
  intros Hk Ha. unfold admitted_times. case_decide as Hd; subst.
  - by rewrite filter_cons_True.
  - rewrite filter_cons_False; [done|]. cbn. rewrite Hk. naive_solver.
Qed.

Lemma refused_inv c s log clock rq code :
  serve_inv c s log clock -> (clock <= rq_now rq)%Z -> ~ admitted code ->
  serve_inv c s ((rq, code) :: log) (rq_now rq).
Proof.
  intros (Hc & Hi & Hp) Hn Ha. split; [done|]. split.
  - eapply table_ext; [intros k; symmetry; by apply admitted_times_refused|by eapply table_wait].
  - eapply table_ext; [intros k; symmetry; by apply admitted_times_refused|by eapply table_wait].
Qed.

Lemma store_row_inv io s npub email s' r :
  store_row io s npub email = (s', r) ->
  caps s' = caps s /\ ip_hits s' = ip_hits s /\ npub_hits s' = npub_hits s /\ admitted (queue_status r).
Proof.
  unfold store_row, load_queue, admitted. destruct (file s) as [t|] eqn:Ef; cbn [or_fail mbind sum_bind].
  - unfold write_queue, write_file. destruct (update_email _ _ _).
    + destruct io; intros [= <- <-]; cbn; tauto.
    + case_decide; [intros [= <- <-]; cbn; tauto|]. destruct io; intros [= <- <-]; cbn; tauto.
  - intros [= <- <-]. cbn. tauto.
Qed.

Lemma limit_ip_inv s log clock rq s1 ok1 :
  let inv m l := table_inv (window_secs (caps s)) (per_ip (caps s)) m (fun ip => admitted_times rq_ip ip l) in
  (per_ip (caps s) < u32_mod)%Z -> inv (ip_hits s) log clock -> (clock <= rq_now rq)%Z ->
  limit_ip s (rq_ip rq) (rq_now rq) = (s1, ok1) ->
  caps s1 = caps s /\ npub_hits s1 = npub_hits s /\ inv (ip_hits s1) log (rq_now rq) /\
  (ok1 = true -> forall code, admitted code -> inv (ip_hits s1) ((rq, code) :: log) (rq_now rq)).
Proof.
  intros inv Hm Hti Hn E1. unfold limit_ip in E1. destruct (rq_ip rq) as [ip|] eqn:Eip.
  - destruct (rate_ok _ _ _ _) as [hits ok] eqn:Er. injection E1 as <- <-.
    destruct (table_step _ _ _ _ _ _ _ _ _ Hti Hn Hm Er) as [H1 H2]. split_and!; try done.
    intros Hok code' Ha. eapply table_ext; [|exact (H2 Hok)]. intros k. symmetry. by apply admitted_times_some.
  - injection E1 as <- <-. assert (inv (ip_hits s) log (rq_now rq)) as Hw by (by eapply table_wait).
    split_and!; try done. intros _ code' _. eapply table_ext; [|exact Hw]. intros k. symmetry.
    by apply admitted_times_none.
Qed.
Lemma handle_inv c s log clock rq s' code :
  (per_ip c < u32_mod)%Z -> (per_npub c < u32_mod)%Z ->
  serve_inv c s log clock -> (clock <= rq_now rq)%Z -> handle lib s rq = (s', code) ->
  serve_inv c s' ((rq, code) :: log) (rq_now rq).
Proof.
  intros Hm1 Hm2 Hi Hn. unfold handle.
  assert (~ admitted 405 /\ ~ admitted 400 /\ ~ admitted 429) as (N405 & N400 & N429) by (unfold admitted; lia).
  destruct (rq_post rq); [|intros [= <- <-]; by eapply refused_inv]. cbn [negb].
  destruct (rq_body rq ≫= utf8_decode lib) as [body|] eqn:Eb; [|intros [= <- <-]; by eapply refused_inv].
  destruct (post_body lib body) as [[npub email]|] eqn:Ep; [|intros [= <- <-]; by eapply refused_inv].
  unfold submit. destruct (valid_npub npub) as [e|pk] eqn:Ev.
  { assert (e = InvalidNpub) as ->.
    { unfold valid_npub, or_fail in Ev. destruct (starts_with _ _); [destruct (parse_pubkey_line npub)|]; by simplify_eq. }
    intros [= <- <-]. by eapply refused_inv. }
  assert (rq_key rq = Some pk) as Hkey.
  { unfold rq_key. destruct (rq_body rq) as [b|]; [|done]. cbn in Eb |- *. rewrite Eb. cbn. rewrite Ep. cbn. by rewrite Ev. }
  case_decide; [intros [= <- <-]; by eapply refused_inv|].
  destruct Hi as (Hc & Hti & Htp). rewrite <- Hc in *.
  destruct (limit_ip s (rq_ip rq) (rq_now rq)) as [s1 ok1] eqn:E1.
  destruct (limit_ip_inv s log clock rq s1 ok1 Hm1 Hti Hn E1) as (Hc1 & Hnp & Ht1 & Ht1').
  destruct ok1.
  2: { intros [= <- <-]. split; [done|]. rewrite Hnp.
       split; (eapply table_ext; [intros k; symmetry; by apply admitted_times_refused|]); [done|by eapply table_wait]. }
  destruct (limit_npub s1 pk (rq_now rq)) as [s2 ok2] eqn:E2. unfold limit_npub in E2. rewrite Hc1, Hnp in E2.
  destruct (rate_ok _ _ _ _) as [hits ok] eqn:Er. injection E2 as <- <-.
  destruct (table_step _ _ _ _ _ _ _ _ _ Htp Hn Hm2 Er) as [Hp1 Hp2].
  destruct ok.
  2: { intros [= <- <-]. split; [done|].
       split; (eapply table_ext; [intros k; symmetry; by apply admitted_times_refused|]); done. }
  destruct (store_row _ _ _ _) as [s3 r] eqn:E3. apply store_row_inv in E3 as (Hc3 & Hi3 & Hn3 & Ha).
  intros [= <- <-]. split; [by rewrite Hc3|]. rewrite Hi3, Hn3. cbn [ip_hits npub_hits]. split; [by apply Ht1'|].
  eapply table_ext; [|exact (Hp2 eq_refl)]. intros k. symmetry. by apply admitted_times_some.
Qed.
End served.

Section properties_limits.
Context `{!NostrLib} (lib : HttpLib).

Lemma serve_keeps c s log clock rqs :
  (per_ip c < u32_mod)%Z -> (per_npub c < u32_mod)%Z -> serve_inv lib c s log clock ->
  StronglySorted (fun a b => rq_now a <= rq_now b)%Z rqs -> Forall (fun rq => clock <= rq_now rq)%Z rqs ->
  exists clock', let r := serve lib s log rqs in serve_inv lib c r.1 r.2 clock'.
Proof.
  intros Hm1 Hm2 Hi Hs. revert s log clock Hi.
  induction Hs as [|rq rqs Hs IH Hf]; intros s log clock Hi Hc; [by exists clock|].
  apply Forall_cons in Hc as [Hc _]. cbn. destruct (handle lib s rq) as [s' code] eqn:E.
  apply (IH _ _ (rq_now rq)); [by eapply handle_inv|done].
Qed.

(** The rate limits hold whatever is submitted: in any window of [window_secs]
    seconds, among the requests served in clock order, at most [per_ip] of one address
    and at most [per_npub] for one key are answered with anything but a refusal. *)
Lemma queue_rate_limited c f rqs t :
  (0 <= per_ip c < u32_mod)%Z -> (0 <= per_npub c < u32_mod)%Z ->
  StronglySorted (fun a b => rq_now a <= rq_now b)%Z rqs ->
  let log := (serve lib (open_store f c) [] rqs).2 in
  (forall ip, (Z.of_nat (length (in_window (window_secs c) t (admitted_times rq_ip ip log))) <= per_ip c)%Z) /\
  (forall pk, (Z.of_nat (length (in_window (window_secs c) t (admitted_times (rq_key lib) pk log))) <= per_npub c)%Z).
Proof.
  intros [H0 H1] [H2 H3] Hs.
  destruct (serve_keeps c (open_store f c) [] (match rqs with [] => 0%Z | rq :: _ => rq_now rq end) rqs)
    as (clock' & _ & Hi & Hp); [done|done| |done| |].
  - split; [done|]. split; intros k; cbn; rewrite lookup_empty; by apply limiter_init.
  - destruct Hs as [|rq rqs Hs Hf]; [constructor|]. constructor; [lia|done].
  - split; intros k; [apply (Hi k)|apply (Hp k)].
Qed.
End properties_limits.

(** ** The queue file *)

Definition no_comma (t : Text) : Prop := comma ∉ t.
(** A row that can be written: its key is trimmed, not empty and has no separator. *)
Record row_ok (r : QueueRow) : Prop := {
  ro_trim : trim (qr_npub r) = qr_npub r;
  ro_nonempty : qr_npub r <> [];
  ro_npub : comma ∉ qr_npub r;
  ro_line : 10%Z ∉ qr_npub r;
  ro_email : comma ∉ qr_email r;
}.
(** What is read back of it: the email up to a line feed, trimmed. *)
Definition stored_email (email : Text) : Text := trim (default [] (head (split_on 10 email))).
Definition stored (r : QueueRow) : QueueRow := mkRow (qr_npub r) (stored_email (qr_email r)).

Lemma parse_row_line npub email :
  row_ok (mkRow npub email) -> parse_queue_line (trim (npub ++ comma :: email)) = Some (mkRow npub (trim email)).
Proof.
  intros [Ht Hne Hc Hl He]. cbn [qr_npub qr_email] in *. rewrite trim_joined by done. unfold parse_queue_line.
  rewrite split_on_joined by done.
  assert (comma ∉ trim_end email) as Hce.
  { unfold trim_end. rewrite elem_of_reverse. intros Hx%skip_while_sub. by rewrite elem_of_reverse in Hx. }
  rewrite split_on_none by done. rewrite Ht, decide_False by done. by rewrite trim_trim_end.
Qed.
Lemma parse_comma_free line : comma ∉ line -> parse_queue_line line = None.
Proof. intros Hn. unfold parse_queue_line. by rewrite split_on_none. Qed.

Lemma parse_rows_app a b : parse_rows (a ++ b) = parse_rows a ++ parse_rows b.
Proof. apply omap_app. Qed.
Lemma parse_rows_free ls : Forall (fun l => comma ∉ l) ls -> parse_rows ls = [].
Proof.
  induction 1 as [|l ls Hl _ IH]; [done|]. unfold parse_rows in *. cbn. rewrite IH.
  case_decide; [done|]. rewrite parse_comma_free; [done|]. intros Hx%trim_sub. done.
Qed.
Lemma parse_rows_strip ls : parse_rows (map strip_cr ls) = parse_rows ls.
Proof. unfold parse_rows. induction ls as [|l ls IH]; [done|]. cbn. by rewrite IH, trim_strip_cr. Qed.

(** The lines of one written row: the row itself and, for an email with line feeds,
    lines without a comma. *)
Lemma parse_row_lines r : row_ok r -> parse_rows (split_on 10 (row_text r)) = [stored r].
Proof.
  intros Hr. pose proof Hr as [Ht Hne Hc Hl He]. unfold row_text.
  assert (10%Z ∉ qr_npub r ++ [comma]) as Hn by (rewrite elem_of_app, list_elem_of_singleton; naive_solver).
  destruct (split_on_app 10 (qr_npub r ++ [comma]) (qr_email r) Hn) as (piece & pieces & Hb & Hs).
  rewrite <- (assoc app) in Hs. cbn in Hs. rewrite Hs.
  assert (forall p, p ∈ piece :: pieces -> comma ∉ p) as Hcp.
  { intros p Hp Hx. rewrite <- Hb in Hp. apply split_on_elem in Hp as [_ Hp]. by apply He, Hp. }
  change (?x :: pieces) with ([x] ++ pieces). rewrite parse_rows_app, (parse_rows_free pieces).
  2: { apply Forall_forall. intros p Hp. apply Hcp. by right. }
  rewrite <- (assoc app). cbn [app]. unfold parse_rows. cbn [omap list_omap]. cbv zeta.
  assert (row_ok (mkRow (qr_npub r) piece)) as Hr' by (split; try done; apply Hcp; by left).
  rewrite decide_False; [rewrite parse_row_line by done|].
  - unfold stored, stored_email. by rewrite Hb.
  - rewrite trim_joined by done. by destruct (qr_npub r).
Qed.

(** Writing rows and loading them again. *)
Lemma load_written rows :
  Forall row_ok rows -> parse_rows (lines (queue_body rows)) = map stored rows.
Proof.
  intros Hr.
  assert (queue_body rows = unlines (concat (map (fun r => split_on 10 (row_text r)) rows))) as ->.
  { unfold queue_body. rewrite unlines_concat, map_map. unfold unlines at 1. f_equal. rewrite map_map. apply map_ext.
    intros r. by rewrite unlines_split. }
  rewrite lines_unlines, parse_rows_strip.
  - induction Hr as [|r rows Hr _ IH]; [done|]. cbn. by rewrite parse_rows_app, parse_row_lines, IH.
  - apply Forall_forall. intros l Hl. rewrite elem_of_concat_map in Hl. destruct Hl as (r & _ & Hl).
    by apply split_on_elem in Hl as [Hl _].
Qed.
(** Rows that were loaded can be written, and are stored as they are. *)
Lemma parse_rows_ok ls r : Forall (fun l => 10%Z ∉ l) ls -> r ∈ parse_rows ls -> row_ok r /\ stored r = r.
Proof.
  intros Hl (raw & Hraw & Hp)%list_elem_of_omap. cbv zeta in Hp. case_decide; [done|]. unfold parse_queue_line in Hp.
  destruct (split_on comma (trim raw)) as [|npub [|email [|]]] eqn:E; try done.
  case_decide as Hd; [done|]. injection Hp as <-. rewrite Forall_forall in Hl.
  assert (forall p, p ∈ [npub; email] -> (comma ∉ p) /\ (10%Z ∉ p)) as Hps.
  { intros p Hp. rewrite <- E in Hp. apply split_on_elem in Hp as [Hc Hp]. split; [done|].
    intros Hx%Hp%trim_sub. by apply (Hl raw). }
  destruct (Hps npub ltac:(by left)) as [Hn1 Hn2], (Hps email ltac:(by right; left)) as [He1 He2].
  assert (forall (c : Z) x, c ∉ x -> c ∉ trim x) as Hts by (intros c x Hx Hy; by apply trim_sub in Hy).
  split; [split; cbn [qr_npub qr_email]; [apply trim_idem|done|auto..]|].
  unfold stored, stored_email. cbn [qr_npub qr_email].
  rewrite split_on_none by auto. cbn [head from_option]. unfold id. by rewrite trim_idem.
Qed.

(** ** Sizes *)

Lemma utf8_len_app a b : utf8_len (a ++ b) = (utf8_len a + utf8_len b)%Z.
Proof. unfold utf8_len. by rewrite map_app, sum_Z_app. Qed.
Lemma utf8_len_nonneg a : (0 <= utf8_len a)%Z.
Proof. unfold utf8_len. apply sum_Z_nonneg, Forall_forall. intros x (c & -> & _)%elem_of_map. repeat case_match; lia. Qed.
Lemma utf8_len_cons c a : utf8_len (c :: a) = (utf8_len [c] + utf8_len a)%Z.
Proof. apply (utf8_len_app [c]). Qed.
Lemma utf8_len_reverse a : utf8_len (reverse a) = utf8_len a.
Proof.
  induction a as [|c a IH]; [done|]. rewrite reverse_cons, utf8_len_app, IH, (utf8_len_cons c a). lia.
Qed.
Lemma skip_while_len p a : (utf8_len (skip_while p a) <= utf8_len a)%Z.
Proof.
  induction a as [|c a IH]; cbn [skip_while]; [lia|]. destruct (p c); [|lia].
  rewrite (utf8_len_cons c a). pose proof (utf8_len_nonneg [c]). lia.
Qed.
Lemma trim_len a : (utf8_len (trim a) <= utf8_len a)%Z.
Proof.
  unfold trim, trim_end, trim_start. rewrite utf8_len_reverse.
  etransitivity; [apply skip_while_len|]. rewrite utf8_len_reverse. apply skip_while_len.
Qed.
Lemma strip_cr_len a : (utf8_len (strip_cr a) <= utf8_len a)%Z.
Proof.
  destruct (strip_cr_cases a) as [->|Ha]; [lia|]. rewrite Ha at 2. rewrite utf8_len_app.
  pose proof (utf8_len_nonneg [13%Z]). lia.
Qed.
Lemma unlines_cons l ls : utf8_len (unlines (l :: ls)) = (utf8_len l + 1 + utf8_len (unlines ls))%Z.
Proof.
  change (unlines (l :: ls)) with ((l ++ [10%Z]) ++ unlines ls). rewrite !utf8_len_app.
  change (utf8_len [10%Z]) with 1%Z. lia.
Qed.
(** The lines of a text are at most as long as the text and one more line feed. *)
Lemma lines_go_len cur t : (utf8_len (unlines (lines_go cur t)) <= utf8_len cur + utf8_len t + 1)%Z.
Proof.
  revert cur. induction t as [|c t IH]; intros cur; cbn [lines_go].
  - destruct cur as [|d cur]; [done|]. rewrite unlines_cons, utf8_len_reverse. change (unlines []) with (@nil Z).
    change (utf8_len []) with 0%Z. lia.
  - rewrite (utf8_len_cons c t). destruct (Z.eqb_spec c 10) as [->|Hc].
    + rewrite unlines_cons. specialize (IH []). pose proof (strip_cr_len (reverse cur)) as Hs.
      rewrite utf8_len_reverse in Hs. change (utf8_len [10%Z]) with 1%Z. change (utf8_len []) with 0%Z in IH. lia.
    + specialize (IH (c :: cur)). rewrite (utf8_len_cons c cur) in IH. lia.
Qed.
Lemma parse_row_len line r : parse_queue_line line = Some r -> (utf8_len (row_text r) <= utf8_len line)%Z.
Proof.
  unfold parse_queue_line. intros Hp.
  destruct (split_on comma line) as [|a [|b [|]]] eqn:E; try done. case_decide; [done|]. injection Hp as <-.
  apply split_on_two in E as ->. unfold row_text. cbn [qr_npub qr_email]. rewrite !utf8_len_app, (utf8_len_cons comma b), (utf8_len_cons comma (trim b)).
  pose proof (trim_len a). pose proof (trim_len b). lia.
Qed.
Lemma parse_rows_len ls : (utf8_len (queue_body (parse_rows ls)) <= utf8_len (unlines ls))%Z.
Proof.
  unfold queue_body. induction ls as [|l ls IH]; [done|]. rewrite unlines_cons.
  pose proof (utf8_len_nonneg l). unfold parse_rows in *. cbn [omap list_omap]. cbv zeta. case_decide; [lia|].
  destruct (parse_queue_line (trim l)) as [r|] eqn:E; [|lia]. cbn [map]. rewrite unlines_cons.
  apply parse_row_len in E. pose proof (trim_len l). lia.
Qed.

(** ** Submissions *)

Section submissions.
Context `{!NostrLib} `{!NostrLaws}.

(** A valid npub is a key that can be written. *)
Lemma valid_npub_inr npub pk :
  valid_npub npub = inr pk <->
  starts_with npub (text_of "npub1") = true /\ parse_pubkey_line npub = Some pk.
Proof.
  unfold valid_npub. destruct (starts_with npub (text_of "npub1")); [|naive_solver].
  rewrite or_fail_inr. naive_solver.
Qed.
Lemma valid_npub_text npub pk :
  valid_npub npub = inr pk -> trim npub = npub /\ npub <> [] /\ (comma ∉ npub) /\ (10%Z ∉ npub) /\
    skipped_line npub = false.
Proof.
  intros [Hst Hp]%valid_npub_inr. pose proof (npub_alnum _ _ Hp Hst) as Ha.
  apply starts_with_spec in Hst as [rest Hr]. split_and!.
  - apply trim_no_space. eapply Forall_impl; [exact Ha|]. intros c Hc. unfold is_alnum, is_whitespace in *.
    destruct Hc as [|[|]]; lia.
  - by rewrite Hr.
  - rewrite Forall_forall in Ha. intros Hx%Ha. unfold is_alnum, comma in Hx. lia.
  - rewrite Forall_forall in Ha. intros Hx%Ha. unfold is_alnum in Hx. lia.
  - by rewrite Hr.
Qed.

Lemma update_email_spec rows npub email :
  match update_email rows npub email with
  | Some rows' => exists pre old post, rows = pre ++ mkRow npub old :: post /\ (npub ∉ map qr_npub pre) /\
      rows' = pre ++ mkRow npub email :: post
  | None => npub ∉ map qr_npub rows
  end.
Proof.
  induction rows as [|[n e] rows IH]; cbn [update_email map qr_npub]; [apply not_elem_of_nil|].
  case_decide as Hd.
  - subst. exists [], e, rows. split; [done|]. split; [apply not_elem_of_nil|done].
  - destruct (update_email rows npub email) as [rows'|]; cbn.
    + destruct IH as (pre & old & post & -> & Hn & ->). exists (mkRow n e :: pre), old, post.
      split; [done|]. split; [|done]. cbn. by apply not_elem_of_cons.
    + by apply not_elem_of_cons.
Qed.

(** What a successful submission does to the rows. *)
Definition upserted (c : QueueCaps) (t t' : Text) (npub email : Text) : Prop :=
  let rows := parse_rows (lines t) in
  (exists pre old post, rows = pre ++ mkRow npub old :: post /\ (npub ∉ map qr_npub pre) /\
     parse_rows (lines t') = pre ++ mkRow npub (stored_email email) :: post) \/
  ((npub ∉ map qr_npub rows) /\ parse_rows (lines t') = rows ++ [mkRow npub (stored_email email)] /\
   (Z.of_nat (length rows) < max_rows c)%Z /\ (utf8_len t' <= max_bytes c + 1)%Z).

Lemma loaded_rows_ok t : Forall (fun r => row_ok r /\ stored r = r) (parse_rows (lines t)).
Proof. apply Forall_forall. intros r. apply parse_rows_ok. apply Forall_forall. intros l. apply lines_elem. Qed.
Lemma map_stored rows : Forall (fun r => row_ok r /\ stored r = r) rows -> map stored rows = rows.
Proof. induction 1 as [|r rows [_ Hr] _ IH]; [done|]. cbn. by rewrite Hr, IH. Qed.

Lemma store_row_upserts io s npub email pk s' r :
  valid_npub npub = inr pk -> comma ∉ email -> (max_bytes (caps s) < u64_mod - 1)%Z ->
  store_row io s npub email = (s', r) ->
  match r with
  | inl _ => file s' = file s
  | inr row => row = mkRow npub email /\
      exists t t', file s = Some t /\ file s' = Some t' /\ upserted (caps s) t t' npub email
  end.
Proof.
  intros Hv He Hmax. destruct (valid_npub_text npub pk Hv) as (Ht & Hne & Hc & Hl & _).
  assert (row_ok (mkRow npub email)) as Hrow by (by split).
  unfold store_row, load_queue. destruct (file s) as [t|] eqn:Ef; cbn [or_fail mbind sum_bind].
  2: { intros [= <- <-]. done. }
  pose proof (loaded_rows_ok t) as Hok. pose proof (update_email_spec (parse_rows (lines t)) npub email) as Hup.
  unfold write_queue, write_file. destruct (update_email _ npub email) as [rows'|].
  - destruct io; intros [= <- <-]; [|done]. split; [done|]. eexists t, _. split; [done|]. split; [done|]. left.
    destruct Hup as (pre & old & post & Hrows & Hn & ->). exists pre, old, post. split; [done|]. split; [done|].
    rewrite Hrows in Hok. apply Forall_app in Hok as [Hpre Hok]. apply Forall_cons in Hok as [_ Hpost].
    rewrite load_written.
    + rewrite map_app. cbn [map]. by rewrite !map_stored.
    + apply Forall_app. split; [|constructor; [done|]]; eapply Forall_impl; (done || naive_solver).
  - case_decide as Hcap; [intros [= <- <-]; done|]. destruct io; intros [= <- <-]; [|done].
    split; [done|]. eexists t, _. split; [done|]. split; [done|]. right. split; [done|]. split; [|split; [lia|]].
    + rewrite load_written; [rewrite map_app; cbn [map]; by rewrite map_stored|].
      apply Forall_app. split; [eapply Forall_impl; (done || naive_solver)|by constructor].
    + unfold queue_body. rewrite map_app, unlines_app, utf8_len_app. cbn [map]. rewrite unlines_cons.
      pose proof (parse_rows_len (lines t)) as Hlen. unfold queue_body in Hlen.
      pose proof (lines_go_len [] t) as Hgo. fold (lines t) in Hgo.
      change (utf8_len []) with 0%Z in Hgo. change (unlines []) with (@nil Z). change (utf8_len []) with 0%Z.
      unfold row_text in *. cbn [qr_npub qr_email]. rewrite utf8_len_app, (utf8_len_cons comma email).
      change (utf8_len [comma]) with 1%Z. lia.
Qed.

(** C22: A submission that succeeds changes the rows of the queue, whatever text the
    file held, by exactly one row: the email of the key's first row is replaced in
    place, or a row is appended for a new key, and then the row and byte caps hold (up
    to the line feed a hand-written last line may lack).  The email read back is the
    one given, trimmed and cut at a line feed.  A submission that fails leaves the file
    as it was. *)
Theorem queue_submit_upserts io s ip npub email now s' r :
  (max_bytes (caps s) < u64_mod - 1)%Z ->
  submit io s ip npub email now = (s', r) ->
  match r with
  | inl _ => file s' = file s
  | inr row => row = mkRow npub email /\
      exists t t', file s = Some t /\ file s' = Some t' /\ upserted (caps s) t t' npub email
  end.
Proof.
  intros Hmax. unfold submit. destruct (valid_npub npub) as [e|pk] eqn:Ev; [by intros [= <- <-]|].
  case_decide as He; [by intros [= <- <-]|].
  destruct (limit_ip s ip now) as [s1 ok1] eqn:E1.
  assert (caps s1 = caps s /\ file s1 = file s) as [Hc1 Hf1].
  { unfold limit_ip in E1. destruct ip; [destruct (rate_ok _ _ _ _)|]; by injection E1 as <- _. }
  destruct ok1; [|by intros [= <- <-]].
  destruct (limit_npub s1 pk now) as [s2 ok2] eqn:E2.
  assert (caps s2 = caps s /\ file s2 = file s) as [Hc2 Hf2].
  { unfold limit_npub in E2. destruct (rate_ok _ _ _ _). by injection E2 as <- _. }
  destruct ok2; [|by intros [= <- <-]]. intros Hst. rewrite <- Hc2 in Hmax.
  pose proof (store_row_upserts io s2 npub email pk s' r Ev He Hmax Hst) as Hres.
  by rewrite Hf2, Hc2 in Hres.
Qed.
End submissions.

(** ** The allowlist *)

Lemma Forall_filtered {A} (P Q : A -> Prop) `{!forall x, Decision (Q x)} l :
  Forall P l -> Forall P (filter Q l).
Proof. rewrite !Forall_forall. intros HP x [_ Hx]%list_elem_of_filter. auto. Qed.

Section allowlist.
Context `{!NostrLib} `{!NostrLaws}.

(** The key a line names, and the lines the parser accepts. *)
Definition line_key (raw : Text) : option FullHash :=
  if skipped_line (trim raw) then None else parse_pubkey_line (trim raw).
Definition line_good (raw : Text) : Prop :=
  skipped_line (trim raw) = true \/ is_Some (parse_pubkey_line (trim raw)).

Lemma parse_allowlist_good ls acc :
  Forall line_good ls -> parse_allowlist_lines ls acc = inr (list_to_set (omap line_key ls) ∪ acc).
Proof.
  intros Hg. revert acc. induction Hg as [|raw ls Hr _ IH]; intros acc; cbn [parse_allowlist_lines]; cbv zeta.
  { cbn. f_equal. set_solver. }
  cbn [omap list_omap].
  assert (line_key raw = if skipped_line (trim raw) then None else parse_pubkey_line (trim raw)) as -> by done.
  destruct (skipped_line (trim raw)) eqn:Es.
  - apply IH.
  - destruct Hr as [Hr|[pk Hp]]; [congruence|]. rewrite Hp, IH. f_equal. cbn. set_solver.
Qed.
Lemma parse_allowlist_inr ls acc keys :
  parse_allowlist_lines ls acc = inr keys ->
  Forall line_good ls /\ keys = list_to_set (omap line_key ls) ∪ acc.
Proof.
  intros Hp. assert (Forall line_good ls) as Hg.
  { clear -Hp. revert acc Hp. induction ls as [|raw ls IH]; intros acc; cbn [parse_allowlist_lines]; cbv zeta; [constructor|].
    destruct (skipped_line (trim raw)) eqn:Es; [intros Hp; constructor; [by left|by eapply IH]|].
    destruct (parse_pubkey_line (trim raw)) eqn:Ep; [|done]. intros Hp. constructor; [right; by eexists|by eapply IH]. }
  split; [done|]. rewrite parse_allowlist_good in Hp by done. by injection Hp as <-.
Qed.
(** Rewriting the file line by line keeps what the lines name. *)
Lemma parse_written ls :
  Forall (fun l => 10%Z ∉ l) ls -> Forall line_good ls ->
  parse_allowlist_file (Some (unlines ls)) = inr (list_to_set (omap line_key ls)).
Proof.
  intros Hn Hg. unfold parse_allowlist_file. cbn [or_fail mbind sum_bind]. rewrite lines_unlines by done.
  assert (forall raw, line_key (strip_cr raw) = line_key raw) as Hk by (intros; unfold line_key; by rewrite trim_strip_cr).
  rewrite parse_allowlist_good.
  - f_equal. rewrite union_empty_r_L. f_equal. clear - Hk. induction ls as [|l ls IH]; [done|]. cbn. by rewrite Hk, IH.
  - clear - Hg. induction Hg as [|l ls Hl _ IH]; cbn; constructor; [|done]. unfold line_good in *. by rewrite trim_strip_cr.
Qed.

Lemma npub_line npub pk : valid_npub npub = inr pk -> line_good npub /\ line_key npub = Some pk.
Proof.
  intros Hv. destruct (valid_npub_text npub pk Hv) as (Ht & _ & _ & _ & Hs). apply valid_npub_inr in Hv as [_ Hp].
  unfold line_good, line_key. rewrite Ht, Hs, Hp. split; [right; by eexists|done].
Qed.
Lemma names_key_spec pk raw : names_key pk raw = true <-> line_key raw = Some pk.
Proof.
  unfold names_key, line_key. destruct (skipped_line (trim raw)); cbn [negb andb]; [done|].
  by rewrite bool_decide_eq_true.
Qed.
Lemma lines_nl t : Forall (fun l => 10%Z ∉ l) (lines t).
Proof. apply Forall_forall. intros l. apply lines_elem. Qed.

Lemma upsert_adds allow npub pk keys :
  valid_npub npub = inr pk -> parse_allowlist_lines (lines (default [] allow)) ∅ = inr keys ->
  exists t', upsert_allowlist true allow npub = (Some t', inr tt) /\
    parse_allowlist_file (Some t') = inr ({[pk]} ∪ keys).
Proof.
  intros Hv Hp. destruct (parse_allowlist_inr _ _ _ Hp) as [Hg ->].
  destruct (npub_line npub pk Hv) as [Hng Hnk]. destruct (valid_npub_text npub pk Hv) as (_ & _ & _ & Hnl & _).
  unfold upsert_allowlist. rewrite Hv. cbv zeta. set (ls := lines _) in *.
  pose proof (names_key_spec pk) as Hnames.
  set (kept := map _ ls).
  assert (Forall (fun l => 10%Z ∉ l) kept /\ Forall line_good kept /\ omap line_key kept = omap line_key ls) as (Hkn & Hkg & Hkk).
  { assert (Forall (fun l => 10%Z ∉ l) ls) as Hnl' by apply lines_nl. unfold kept. clear kept Hp. clearbody ls.
    induction ls as [|raw ls IH]; [by repeat split; try constructor|]. apply Forall_cons in Hg as [Hg1 Hg2], Hnl' as [Hn1 Hn2].
    destruct (IH Hg2 Hn2) as (H1 & H2 & H3). cbn [map omap list_omap].
    destruct (names_key pk raw) eqn:En; [|rewrite H3; split_and!; try done; by constructor].
    rewrite H3, Hnk, (proj1 (Hnames raw) En). split_and!; try done; by constructor. }
  eexists. split; [done|]. destruct (existsb (names_key pk) ls) eqn:Ex.
  - rewrite parse_written, Hkk by done. f_equal. apply existsb_exists in Ex as (raw & Hin%list_elem_of_In & Hr%Hnames).
    assert (pk ∈ omap line_key ls) by (apply list_elem_of_omap; eauto). set_solver.
  - rewrite parse_written by (apply Forall_app; split; [done|by constructor]).
    f_equal. rewrite omap_app, Hkk. cbn. rewrite Hnk. set_solver.
Qed.

(** Approving a valid key takes every row of the key out of the queue and adds the
    key to the allowlist, which stays otherwise the same set; removing the key takes it
    out again.  When the queue cannot be written nothing changes, and when the
    allowlist cannot be written it keeps its text. *)
Lemma approve_moves_key io_q io_a tq allow npub pk keys :
  valid_npub npub = inr pk -> parse_allowlist_lines (lines (default [] allow)) ∅ = inr keys ->
  match approve io_q io_a (Some tq) allow npub with
  | (queue', allow', inr _) => io_q = true /\ io_a = true /\
      (exists tq', queue' = Some tq' /\
         parse_rows (lines tq') = filter (fun r => qr_npub r <> npub) (parse_rows (lines tq))) /\
      parse_allowlist_file allow' = inr ({[pk]} ∪ keys) /\
      exists t, remove_npub true allow' npub = (Some t, inr tt) /\
        parse_allowlist_file (Some t) = inr (keys ∖ {[pk]})
  | (queue', allow', inl _) => allow' = allow /\ (io_q = false -> queue' = Some tq)
  end.
Proof.
  intros Hv Hp. unfold approve. rewrite Hv. unfold write_queue, write_file. destruct io_q; [|done].
  destruct io_a.
  2: { unfold upsert_allowlist, fsync_lines, write_file. rewrite Hv. by repeat split. }
  destruct (upsert_adds allow npub pk keys Hv Hp) as (t' & -> & Hp').
  split; [done|]. split; [done|]. split; [|split; [done|]].
  - eexists. split; [done|]. rewrite load_written; [apply map_stored|]; apply Forall_filtered;
      (eapply Forall_impl; [apply loaded_rows_ok|]); naive_solver.
  - unfold remove_npub. rewrite Hv. cbn [default from_option]. unfold id. eexists. split; [done|].
    unfold parse_allowlist_file in Hp'. cbn [or_fail mbind sum_bind] in Hp'.
    destruct (parse_allowlist_inr _ _ _ Hp') as [Hg Hk]. rewrite union_empty_r_L in Hk.
    rewrite parse_written; [|apply Forall_filtered, lines_nl|by apply Forall_filtered].
    f_equal. apply set_eq. intros k. rewrite elem_of_list_to_set, list_elem_of_omap, elem_of_difference, elem_of_singleton.
    assert (k ∈ {[pk]} ∪ keys <-> k ∈ omap line_key (lines t')) as Hkeys by (rewrite Hk; apply elem_of_list_to_set).
    rewrite elem_of_union, elem_of_singleton, list_elem_of_omap in Hkeys. split.
    + intros (raw & [Hf Hr]%list_elem_of_filter & Hkr).
      assert (k <> pk) by (intros ->; apply names_key_spec in Hkr; congruence).
      split; [|done]. destruct (proj2 Hkeys); [by exists raw|done|done].
    + intros [Hin Hne]. destruct (proj1 Hkeys (or_intror Hin)) as (raw & Hr & Hkr). exists raw. split; [|done].
      apply list_elem_of_filter. split; [|done]. apply not_true_is_false. rewrite names_key_spec. congruence.
Qed.
End allowlist.

(** ** Witnesses *)

(** Bodies are texts [npub,email]; three requests of one address, one too many. *)
Definition ex_http : HttpLib := mkHttpLib Some
  (fun t => match split_on comma t with [a; b] => Some (a, b) | _ => None end) (fun _ => None).
Definition ex_request (now : Z) (body : string) : Request :=
  mkRequest true (Some (V4 7)) (Some (text_of body)) now true.
Definition ex_requests : list Request :=
  [ex_request 10 "npub1a,x@y"; ex_request 20 "npub1b,z"; ex_request 30 "npub1a,w"; ex_request 75 "npub1a,v"].
Definition ex_caps : QueueCaps := mkCaps 10 1000 2 5 60.
Lemma queue_rate_limited_witness :
  map snd (@serve ExampleNostr ex_http (open_store None ex_caps) [] ex_requests).2 = [200; 429; 200; 200]%Z /\
  (Z.of_nat (length (in_window 60 60 (admitted_times rq_ip (V4 7)
     (@serve ExampleNostr ex_http (open_store None ex_caps) [] ex_requests).2))) <= 2)%Z.
Proof.
  split; [vm_compute; reflexivity|].
  unshelve epose proof (@queue_rate_limited ExampleNostr ex_http ex_caps None ex_requests 60 _ _ _) as [H _].
  - vm_decide.
  - vm_decide.
  - repeat constructor; vm_compute; discriminate.
  - exact (H (V4 7)).
Defined.
(** An email with a line feed: what comes after it is not stored. *)
Definition ex_email : Text := text_of "x@y" ++ [10%Z; 122%Z].
Definition ex_queue : QueueStore := open_store (Some (text_of "npub1b, q ")) ex_caps.
Definition ex_submitted : QueueStore * (QueueError + QueueRow) :=
  @submit ExampleNostr true ex_queue None (text_of "npub1a") ex_email 5.
Lemma queue_submit_upserts_witness :
  exists t t', file ex_submitted.1 = Some t' /\ upserted ex_caps t t' (text_of "npub1a") ex_email /\
    parse_rows (lines t') = [mkRow (text_of "npub1b") (text_of "q"); mkRow (text_of "npub1a") (text_of "x@y")].
Proof.
  assert (max_bytes (caps ex_queue) < u64_mod - 1)%Z as Hm by (vm_compute; reflexivity).
  pose proof (@queue_submit_upserts ExampleNostr ExampleNostr_laws true ex_queue None (text_of "npub1a") ex_email 5
    ex_submitted.1 (inr (mkRow (text_of "npub1a") ex_email)) Hm ltac:(vm_compute; reflexivity)) as H.
  destruct H as (_ & t & t' & _ & Hf' & Hu). exists t, t'. split; [exact Hf'|]. split; [exact Hu|].
  assert (file ex_submitted.1 = Some (text_of "npub1b,q" ++ [10%Z] ++ text_of "npub1a,x@y" ++ [10%Z; 122%Z; 10%Z]))
    as Hf by (vm_compute; reflexivity).
  rewrite Hf in Hf'. injection Hf' as <-. vm_compute. reflexivity.
Defined.
Lemma approve_moves_key_witness :
  exists q' a', @approve ExampleNostr true true (Some (text_of "npub1a,x")) (Some (text_of "npub1b")) (text_of "npub1a")
      = (q', a', inr tt) /\
    @parse_allowlist_file ExampleNostr a' = inr ({[hash_repeat 97]} ∪ {[hash_repeat 98]}).
Proof.
  pose proof (@approve_moves_key ExampleNostr ExampleNostr_laws true true (text_of "npub1a,x")
    (Some (text_of "npub1b")) (text_of "npub1a") (hash_repeat 97) {[hash_repeat 98]}
    ltac:(vm_compute; reflexivity) ltac:(vm_compute; reflexivity)) as H.
  destruct (approve true true (Some (text_of "npub1a,x")) (Some (text_of "npub1b")) (text_of "npub1a"))
    as [[q' a'] [e|[]]] eqn:E; [vm_compute in E; discriminate E|].
  exists q', a'. split; [reflexivity|]. exact (proj1 (proj2 (proj2 (proj2 H)))).
Defined.
