(* ===== verification/Sigops.v ===== *)
(** * [util/transaction.rs] (module [sigops]) and the inner scripts of [util/script.rs]

    The cost in signature operations of a transaction, as REST reports it, and the
    scripts wrapped in a spend.  The instruction iterator and the script templates of
    the [bitcoin] crate are an interface.  The counting loop is compared with the rule
    of Bitcoin Core it follows: both agree on scripts in which no signature opcode
    stands directly before a multisig opcode, and differ without that condition. *)

From S2P Require Import Prelude Bitcoin.

(** ** Scripts *)

Inductive Instruction := Op (opcode : Z) | PushBytes (b : Bytes).
(** [script.instructions()]: an item is an instruction or, at the end, an error. *)
Class ScriptLib := {
  instructions : Script -> list (option Instruction);
  is_p2sh : Script -> bool;
  is_p2pk : Script -> bool;
  is_p2pkh : Script -> bool;
  is_p2wsh : Script -> bool;
  is_p2wpkh : Script -> bool;
  is_p2tr : Script -> bool;
  is_witness_program : Script -> bool;
  script_debug : Script -> list Z;
}.
(** An empty script has no instruction and another one has some; a version 0 program
    for a script hash is the opcode zero, a push of 32 bytes and these bytes; the debug
    form of a script is its assembly in the parentheses of [Script(..)]. *)
Class ScriptLaws `{!ScriptLib} : Prop := {
  instructions_nil s : instructions s = [] <-> s = [];
  p2wsh_shape s : is_p2wsh s = true -> length s = 34 /\ head s = Some 0%Z;
  script_debug_shape s : 8 <= length (script_debug s);
}.

Definition OP_CHECKSIG : Z := 172.
Definition OP_CHECKSIGVERIFY : Z := 173.
Definition OP_CHECKMULTISIG : Z := 174.
Definition OP_CHECKMULTISIGVERIFY : Z := 175.

Section sigops.
Context `{!BitcoinLib, !ScriptLib}.

Definition decode_pushnum (op : Z) : option Z :=
  if ((81 <=? op) && (op <=? 96))%Z then Some (op - 80)%Z else None.

Definition is_checksig (op : Z) : bool := ((op =? OP_CHECKSIG) || (op =? OP_CHECKSIGVERIFY))%Z.
Definition is_multisig (op : Z) : bool := ((op =? OP_CHECKMULTISIG) || (op =? OP_CHECKMULTISIGVERIFY))%Z.
(** One turn of the loop over the state [(n, pushnum_cache)]. *)
Definition sigop_step (accurate : bool) (st : Z * option Z) (inst : option Instruction) : Z * option Z :=
  let '(n, pushnum_cache) := st in
  match inst with
  | Some (Op opcode) =>
      if is_checksig opcode then ((n + 1)%Z, pushnum_cache)
      else if is_multisig opcode then
        match accurate, pushnum_cache with
        | true, Some pushnum => ((n + pushnum)%Z, pushnum_cache)
        | _, _ => ((n + 20)%Z, pushnum_cache)
        end
      else (n, decode_pushnum opcode)
  | _ => (n, None)
  end.
Definition count_sigops (script : Script) (accurate : bool) : Z :=
  (fold_left (sigop_step accurate) (instructions script) (0%Z, None)).1.

Definition get_legacy_sigop_count (tx : Transaction) : Z :=
  (sum_Z (map (fun i => count_sigops (script_sig i) false) (tx_input tx)) +
   sum_Z (map (fun o => count_sigops (script_pubkey o) false) (tx_output tx)))%Z.

(** [instructions().last()] when it is a push. *)
Definition last_pushdata (script : Script) : option Bytes :=
  match last (instructions script) with Some (Some (PushBytes b)) => Some b | _ => None end.
Definition get_p2sh_sigop_count (tx : Transaction) (previous_outputs : list TxOut) : Z :=
  if tx_is_coinbase tx then 0%Z
  else sum_Z (map (fun '(input, prevout) =>
         if is_p2sh (script_pubkey prevout) then
           match last_pushdata (script_sig input) with
           | Some redeem => count_sigops redeem true
           | None => 0%Z
           end
         else 0%Z) (zip (tx_input tx) previous_outputs)).

Definition is_push_only (script : Script) : bool :=
  forallb (fun inst => match inst with Some (PushBytes _) => true | _ => false end) (instructions script).
Definition sig_ops (witness : list Bytes) (witness_version : Z) (witness_program : Bytes) : Z :=
  if ((witness_version =? 0)%Z && (length witness_program =? 20)) then 1%Z
  else if ((witness_version =? 0)%Z && (length witness_program =? 32)) then
    match last witness with Some sl => count_sigops sl true | None => 0%Z end
  else 0%Z.
(** [bytes[0]] and [&bytes[2..]] *)
Definition program_sigops (script : Script) (witness : list Bytes) : result Z :=
  if is_p2wsh script then
    version ← unwrap (script !! 0);
    if decide (2 <= length script) then Ok (sig_ops witness version (drop 2 script)) else Panic
  else if is_p2wpkh script then Ok 1%Z
  else Ok 0%Z.
Definition count_with_prevout (spk sig : Script) (witness : list Bytes) : result Z :=
  if is_witness_program spk then program_sigops spk witness
  else if is_p2sh spk && is_push_only sig && negb (bool_decide (sig = [])) then
    script ← unwrap (last_pushdata sig); program_sigops script witness
  else Ok 0%Z.
Definition get_witness_sigop_count (tx : Transaction) (previous_outputs : list TxOut) : result Z :=
  counts ← rmap (fun '(input, prevout) =>
      count_with_prevout (script_pubkey prevout) (script_sig input) (witness input))
    (zip (tx_input tx) previous_outputs);
  Ok (sum_Z counts).

Definition get_sigop_cost (tx : Transaction) (previous_outputs : list TxOut) (verify_p2sh verify_witness : bool) : result Z :=
  let n := (get_legacy_sigop_count tx * 4)%Z in
  if tx_is_coinbase tx then Ok n
  else if negb (length (tx_input tx) =? length previous_outputs) then Err (Msg "unexpected end of script")
  else if verify_witness && negb verify_p2sh then Err (Msg "unexpected end of script")
  else
    let n := if verify_p2sh then (n + get_p2sh_sigop_count tx previous_outputs * 4)%Z else n in
    w ← (if verify_witness then get_witness_sigop_count tx previous_outputs else Ok 0%Z);
    Ok (n + w)%Z.
Definition transaction_sigop_count (tx : Transaction) (prevout_map : gmap Z TxOut) : result Z :=
  prevouts ← (if tx_is_coinbase tx then Ok []
              else rmap (fun idx => ok_or (Msg "unexpected end of script") (prevout_map !! as_u32 (Z.of_nat idx)))
                     (seq 0 (length (tx_input tx))));
  get_sigop_cost tx prevouts true true.

(** ** Inner scripts *)

Record InnerScripts := mkInner { redeem_script : option Script; witness_script : option Script }.
(** The script of a taproot script spend: the second item from the end, or the third
    when the last one is an annex. *)
Definition taproot_script (witness : list Bytes) : option Bytes :=
  let w_len := length witness in
  last_elem ← last witness;
  let pos := if (2 <=? w_len) && bool_decide (head last_elem = Some 80%Z) then 3 else 2 in
  if pos <=? w_len then witness !! (w_len - pos) else None.
Definition get_innerscripts (txin : TxIn) (prevout : TxOut) : InnerScripts :=
  let spk := script_pubkey prevout in
  let redeem := if is_p2sh spk then last_pushdata (script_sig txin) else None in
  let wscript :=
    if is_p2wsh spk || is_p2tr spk || match redeem with Some s => is_p2wsh s | None => false end then
      if is_p2tr spk then taproot_script (witness txin) else last (witness txin)
    else None in
  mkInner redeem wscript.

(** ** The rule of Bitcoin Core *)

(** The loop of [CScript::GetSigOpCount]: the number pushed by the last opcode, whatever
    that opcode was. *)
Definition core_step (accurate : bool) (st : Z * option Z) (inst : option Instruction) : Z * option Z :=
  let '(n, last_num) := st in
  match inst with
  | Some (Op opcode) =>
      if is_checksig opcode then ((n + 1)%Z, None)
      else if is_multisig opcode then
        ((n + match accurate, last_num with true, Some k => k | _, _ => 20 end)%Z, None)
      else (n, decode_pushnum opcode)
  | _ => (n, None)
  end.
Definition core_sigops (script : Script) (accurate : bool) : Z :=
  (fold_left (core_step accurate) (instructions script) (0%Z, None)).1.
(** No multisig opcode directly after a signature opcode. *)
Definition is_sigop (inst : option Instruction) : bool :=
  match inst with Some (Op op) => is_checksig op || is_multisig op | _ => false end.
Definition is_multi (inst : option Instruction) : bool :=
  match inst with Some (Op op) => is_multisig op | _ => false end.
Fixpoint separated (l : list (option Instruction)) : bool :=
  match l with
  | a :: (b :: _) as r => negb (is_sigop a && is_multi b) && separated r
  | _ => true
  end.
End sigops.

Section facts.
Context `{!BitcoinLib, !ScriptLib}.

Lemma decode_pushnum_range op k : decode_pushnum op = Some k -> (1 <= k <= 16)%Z.
Proof. unfold decode_pushnum. destruct (_ && _) eqn:E; [|done]. intros [= <-]. lia. Qed.

(** The two loops run in step; their caches differ only right after a signature opcode. *)
Lemma loops_agree accurate l : forall n c c' prev,
  (accurate = true -> separated (prev :: l) = true) -> (c = c' \/ is_sigop prev = true) ->
  (fold_left (sigop_step accurate) l (n, c)).1 = (fold_left (core_step accurate) l (n, c')).1.
Proof.
  induction l as [|inst l IH]; intros n c c' prev Hs Hc; [done|]. cbn [fold_left].
  assert (forall n d d', (d = d' \/ is_sigop inst = true) ->
    (fold_left (sigop_step accurate) l (n, d)).1 = (fold_left (core_step accurate) l (n, d')).1) as Hgo.
  { intros n0 d d' Hd. apply (IH n0 d d' inst); [|done]. intros Ha. specialize (Hs Ha). cbn in Hs.
    by apply andb_prop in Hs as [_ Hs]. }
  destruct inst as [[op|b]|]; [|by apply Hgo; left..]. unfold sigop_step at 2, core_step at 2.
  destruct (is_checksig op) eqn:Ec; [apply Hgo; right; cbn; by rewrite Ec|].
  destruct (is_multisig op) eqn:Em; [|by apply Hgo; left].
  assert (is_sigop (Some (Op op)) = true) as Hsig by (cbn; by rewrite Em, orb_true_r).
  destruct accurate; [|apply Hgo; by right].
  destruct Hc as [->|Hp].
  - destruct c'; apply Hgo; by right.
  - specialize (Hs eq_refl). cbn [separated] in Hs. rewrite Hp in Hs. cbn in Hs. rewrite Em in Hs. done.
Qed.

(** The count of a script is the one of Bitcoin Core's rule when the number of keys of
    a multisig does not matter, and when no multisig opcode directly follows another
    signature opcode.  (Without the condition it can be smaller: the loop keeps a number
    across signature opcodes.) *)
Lemma count_sigops_core script accurate :
  (accurate = true -> separated (instructions script) = true) ->
  count_sigops script accurate = core_sigops script accurate.
Proof.
  intros Hs. unfold count_sigops, core_sigops.
  apply (loops_agree accurate (instructions script) 0 None None None); [|by left].
  intros Ha. specialize (Hs Ha). destruct (instructions script) as [|i l]; [done|]. exact Hs.
Qed.

Lemma count_sigops_nonneg script accurate : (0 <= count_sigops script accurate)%Z.
Proof.
  unfold count_sigops.
  assert (forall l n c, (0 <= n)%Z -> (forall k, c = Some k -> 0 <= k)%Z ->
    (0 <= (fold_left (sigop_step accurate) l (n, c)).1)%Z) as Hgo; [|by apply Hgo].
  induction l as [|inst l IH]; intros n c Hn Hc; [done|]. cbn [fold_left].
  destruct inst as [[op|b]|]; [|by apply IH..]. cbn [sigop_step].
  destruct (is_checksig op); [apply IH; [lia|done]|]. destruct (is_multisig op).
  - destruct accurate, c as [k|]; apply IH; try done; try lia. specialize (Hc k eq_refl). lia.
  - apply IH; [done|]. intros k Hk%decode_pushnum_range. lia.
Qed.
Lemma sum_map_nonneg {A} (f : A -> Z) l : (forall a, 0 <= f a)%Z -> (0 <= sum_Z (map f l))%Z.
Proof. intros Hf. apply sum_Z_nonneg, Forall_forall. intros x Hx. apply elem_of_map in Hx as (a & -> & _). apply Hf. Qed.

Lemma last_pushdata_some script : ScriptLaws ->
  is_push_only script = true -> script <> [] -> is_Some (last_pushdata script).
Proof.
  intros HL Hp Hne. unfold last_pushdata, is_push_only in *. rewrite forallb_forall in Hp.
  destruct (last (instructions script)) as [i|] eqn:Hl.
  - apply last_Some in Hl as [l Hl]. specialize (Hp i). rewrite Hl in Hp.
    destruct i as [[op|b]|]; [|by eexists|]; discriminate Hp; apply in_or_app; right; by left.
  - apply last_None in Hl. by apply instructions_nil in Hl.
Qed.
Lemma program_sigops_ok script w : ScriptLaws -> exists n, program_sigops script w = Ok n /\ (0 <= n)%Z.
Proof.
  intros HL. unfold program_sigops. destruct (is_p2wsh script) eqn:Hw; [|destruct (is_p2wpkh script); by eexists].
  apply p2wsh_shape in Hw as [Hlen Hh]. destruct script as [|b script]; [done|]. cbn [lookup list_lookup unwrap mbind result_bind].
  rewrite decide_True by lia. eexists. split; [done|]. unfold sig_ops. repeat case_match; try done.
  apply count_sigops_nonneg.
Qed.
Lemma count_with_prevout_ok spk sig w : ScriptLaws -> exists n, count_with_prevout spk sig w = Ok n /\ (0 <= n)%Z.
Proof.
  intros HL. unfold count_with_prevout. destruct (is_witness_program spk); [by apply program_sigops_ok|].
  destruct (_ && _ && _) eqn:E; [|by eexists]. apply andb_prop in E as [[_ Hp]%andb_prop Hne%negb_true_iff].
  apply bool_decide_eq_false in Hne. destruct (last_pushdata_some sig HL Hp Hne) as [s ->]. by apply program_sigops_ok.
Qed.
Lemma rmap_all_ok {A B} (f : A -> result B) (P : B -> Prop) l :
  (forall a, exists b, f a = Ok b /\ P b) -> exists bs, rmap f l = Ok bs /\ Forall P bs.
Proof.
  intros Hf. induction l as [|a l (bs & IH & HP)]; [by exists []|]. destruct (Hf a) as (b & Hb & Hp).
  exists (b :: bs). cbn [rmap]. rewrite Hb. cbn [mbind result_bind]. rewrite IH. by split; [|constructor].
Qed.

Lemma prevouts_collected (prevout_map : gmap Z TxOut) prevouts : forall k,
  (forall i o, prevouts !! i = Some o -> prevout_map !! as_u32 (Z.of_nat (k + i)) = Some o) ->
  rmap (fun idx => ok_or (Msg "unexpected end of script") (prevout_map !! as_u32 (Z.of_nat idx)))
    (seq k (length prevouts)) = Ok prevouts.
Proof.
  induction prevouts as [|o prevouts IH]; intros k Hk; [done|]. cbn [length seq rmap].
  rewrite <- (Nat.add_0_r k) at 1. rewrite (Hk 0 o) by done. cbn [ok_or mbind result_bind]. rewrite IH; [done|].
  intros i o' Hi. replace (S k + i) with (k + S i) by lia. by apply Hk.
Qed.

(** The sigop cost of a transaction whose previous outputs are known is computed
    without panic or error: four times the legacy and pay-to-script-hash counts plus
    the witness counts of its inputs, none of them negative. *)
Lemma sigop_cost_total tx prevout_map prevouts :
  ScriptLaws -> tx_is_coinbase tx = false -> length prevouts = length (tx_input tx) ->
  (forall i o, prevouts !! i = Some o -> prevout_map !! as_u32 (Z.of_nat i) = Some o) ->
  exists ws, Forall2 (fun p w => count_with_prevout (script_pubkey p.2) (script_sig p.1) (witness p.1) = Ok w /\ 0 <= w)%Z
               (zip (tx_input tx) prevouts) ws /\
    transaction_sigop_count tx prevout_map =
      Ok (4 * get_legacy_sigop_count tx + 4 * get_p2sh_sigop_count tx prevouts + sum_Z ws)%Z /\
    (0 <= get_legacy_sigop_count tx)%Z /\ (0 <= get_p2sh_sigop_count tx prevouts)%Z.
Proof.
  intros HL Hcb Hlen Hmap. unfold transaction_sigop_count. rewrite Hcb.
  rewrite <- Hlen, (prevouts_collected prevout_map prevouts 0) by done.
  cbn [mbind result_bind]. unfold get_sigop_cost. rewrite Hcb, <- Hlen, Nat.eqb_refl. cbn [negb andb].
  unfold get_witness_sigop_count.
  destruct (rmap_all_ok (fun '(input, prevout) => count_with_prevout (script_pubkey prevout) (script_sig input) (witness input))
    (fun w => 0 <= w)%Z (zip (tx_input tx) prevouts)) as (ws & Hws & Hpos); [intros [i o]; by apply count_with_prevout_ok|].
  rewrite Hws. exists ws. split.
  { apply rmap_Ok_Forall2 in Hws. clear -Hws Hpos. induction Hws as [|[i o] w ps ws Hw _ IH]; [constructor|].
    apply Forall_cons in Hpos as [Hp Hpos]. by constructor; [|apply IH]. }
  split; [cbn; f_equal; lia|]. split.
  - unfold get_legacy_sigop_count. apply Z.add_nonneg_nonneg; apply sum_map_nonneg; intros; apply count_sigops_nonneg.
  - unfold get_p2sh_sigop_count. rewrite Hcb. apply sum_map_nonneg. intros [i o]. repeat case_match; try done. apply count_sigops_nonneg.
Qed.
End facts.

(** ** Witnesses *)

(** The instructions of a script with pushes of up to 75 bytes. *)
Fixpoint ex_instructions (fuel : nat) (s : Script) : list (option Instruction) :=
  match fuel, s with
  | S fuel, b :: r =>
      if (b <=? 75)%Z then
        if Z.to_nat b <=? length r then Some (PushBytes (take (Z.to_nat b) r)) :: ex_instructions fuel (drop (Z.to_nat b) r)
        else [None]
      else Some (Op b) :: ex_instructions fuel r
  | _, _ => []
  end.
Definition ex_p2wsh (s : Script) : bool := (length s =? 34) && bool_decide (take 2 s = [0; 32]%Z).
Definition ex_p2sh (s : Script) : bool := (length s =? 23) && bool_decide (take 2 s = [169; 20]%Z).
Definition ex_p2wpkh (s : Script) : bool := (length s =? 22) && bool_decide (take 2 s = [0; 20]%Z).
Definition ExampleScripts : ScriptLib := {|
  instructions s := ex_instructions (length s) s;
  is_p2sh := ex_p2sh; is_p2pk _ := false; is_p2pkh _ := false;
  is_p2wsh := ex_p2wsh; is_p2wpkh := ex_p2wpkh; is_p2tr _ := false;
  is_witness_program s := ex_p2wsh s || ex_p2wpkh s;
  script_debug s := [83; 99; 114; 105; 112; 116; 40]%Z ++ s ++ [41]%Z;
|}.
Lemma ExampleScripts_laws : @ScriptLaws ExampleScripts.
Proof.
  split; cbn.
  - intros s. split; [|by intros ->]. destruct s as [|b s]; [done|]. cbn. by repeat case_match.
  - intros s [Hl Hs]%andb_prop. apply Nat.eqb_eq in Hl. split; [done|]. apply bool_decide_eq_true in Hs.
    destruct s as [|a s]; [done|]. by injection Hs as -> _.
  - intros s. rewrite length_app. cbn. lia.
Qed.
(** A two-of-three multisig, and one after a signature opcode. *)
Definition ex_multisig : Script := [82; 1; 7; 1; 8; 1; 9; 83; 174]%Z.
Lemma count_sigops_core_witness :
  @count_sigops ExampleScripts ex_multisig true = @core_sigops ExampleScripts ex_multisig true /\
  @core_sigops ExampleScripts ex_multisig true = 3%Z.
Proof. split; [|reflexivity]. apply (@count_sigops_core ExampleScripts). reflexivity. Defined.
(** The condition is needed: two keys, a signature check and a multisig. *)
Example count_sigops_below_core :
  @count_sigops ExampleScripts [82; 172; 174]%Z true = 3%Z /\ @core_sigops ExampleScripts [82; 172; 174]%Z true = 21%Z.
Proof. done. Qed.

Definition ex_p2wsh_spend : Transaction :=
  mkTx 2 0 [mkTxIn (mkOutPoint (hash_repeat 5) 0) [] 0 [ex_multisig]] [mkTxOut 1 [118; 172]%Z].
Definition ex_prevout : TxOut := mkTxOut 2 ([0; 32]%Z ++ replicate 32 1%Z).
Lemma sigop_cost_total_witness :
  exists ws, @transaction_sigop_count ExampleLib ExampleScripts ex_p2wsh_spend {[0%Z := ex_prevout]} =
    Ok (4 * @get_legacy_sigop_count ExampleScripts ex_p2wsh_spend +
        4 * @get_p2sh_sigop_count ExampleLib ExampleScripts ex_p2wsh_spend [ex_prevout] + sum_Z ws)%Z.
Proof.
  destruct (@sigop_cost_total ExampleLib ExampleScripts ex_p2wsh_spend {[0%Z := ex_prevout]} [ex_prevout]
    ExampleScripts_laws) as (ws & _ & Heq & _); [reflexivity|reflexivity| |exists ws; exact Heq].
  intros [|i] o Hi; [injection Hi as <-; reflexivity|discriminate Hi].
Defined.
