(* ===== verification/RestValues.v ===== *)
(** * [rest.rs]: the values of the REST API

    The structs that the REST server and the mempool watcher show, how they are made
    from chain data, and their JSON form: blocks with their difficulty, transactions
    with their previous outputs, outputs with the class of their script, unspent
    outputs and spends.  [prepare_txs] looks the previous outputs up in the mempool and
    the chain at once and leaves out what cannot be shown completely.  The paging helpers
    of the history endpoints are here too. *)

From Stdlib Require Import SpecFloat.
From S2P Require Import Prelude Iter RocksDB DB Bitcoin HeaderList Rows Fetch Fees.
From S2P Require Import Indexer IndexerSync ChainQuery ChainView ChainBlocks ChainHistory.
From S2P Require Import Mempool MempoolIndex MempoolUpdate MempoolQueries Query QueryFacts.
From S2P Require Import Text Json Electrum Sigops.

Definition TTL_LONG : Z := 157784630.
Definition TTL_SHORT : Z := 10.
Definition CONF_FINAL : Z := 10.

(** [Transaction::total_size] of the [bitcoin] crate. *)
Class TxSize := tx_total_size : Transaction -> Z.

(** A field that is left out when it is [None]. *)
Definition jskip (key : string) (o : option Json) : list (string * Json) :=
  match o with Some v => [(key, v)] | None => [] end.

(** ** The structs *)

Record BlockValue := mkBlockValue {
  bv_id : Text; bv_height : Z; bv_version : Z; bv_timestamp : Z; bv_tx_count : Z; bv_size : Z;
  bv_weight : Z; bv_merkle_root : Text; bv_previousblockhash : option Text; bv_mediantime : Z;
  bv_nonce : Z; bv_bits : Z; bv_difficulty : f64 }.
Record TxOutValue := mkTxOutValue {
  tov_scriptpubkey : Script; tov_scriptpubkey_asm : Text; tov_scriptpubkey_type : string;
  tov_scriptpubkey_address : option Text; tov_value : Z }.
Record TxInValue := mkTxInValue {
  tiv_txid : Txid; tiv_vout : Z; tiv_prevout : option TxOutValue; tiv_scriptsig : Script;
  tiv_scriptsig_asm : Text; tiv_witness : option (list Text); tiv_is_coinbase : bool; tiv_sequence : Z;
  tiv_inner_redeemscript_asm : option Text; tiv_inner_witnessscript_asm : option Text }.
Record TransactionValue := mkTransactionValue {
  tv_txid : Txid; tv_version : Z; tv_locktime : Z; tv_vin : list TxInValue; tv_vout : list TxOutValue;
  tv_size : Z; tv_weight : Z; tv_sigops : Z; tv_fee : Z; tv_status : option TransactionStatus }.
Record UtxoValue := mkUtxoValue { uv_txid : Txid; uv_vout : Z; uv_status : TransactionStatus; uv_value : Z }.
Record SpendingValue := mkSpendingValue {
  sv_spent : bool; sv_txid : option Txid; sv_vin : option Z; sv_status : option TransactionStatus }.

(** ** Difficulty *)

(** The compact target [bits]: an exponent byte and three bytes of mantissa. *)
Definition difficulty_new (bh : BlockHeader) : f64 :=
  let n_shift := Z.to_nat (Z.land (Z.shiftr (bits bh) 24) 255) in
  let d_diff := f64_div (f64_of_Z 65535) (f64_of_Z (Z.land (bits bh) 16777215)) in
  let d_diff := Nat.iter (29 - n_shift) (fun d => f64_mul d (f64_of_Z 256)) d_diff in
  Nat.iter (n_shift - 29) (fun d => f64_div d (f64_of_Z 256)) d_diff.

(** ** Script classes *)

(** Indexing is within bounds: the guards on the length come first. *)
Definition byte_at (b : Bytes) (i : nat) : Z := default 0%Z (b !! i).
Definition is_bare_multisig (script : Script) : bool :=
  let len := length script in
  (37 <=? len) && ((byte_at script (len - 1) =? 174) && (81 <=? byte_at script (len - 2))
    && (byte_at script (len - 2) <=? 95) && (81 <=? byte_at script 0)
    && (byte_at script 0 <=? byte_at script (len - 2)))%Z.
Definition is_anchor (script : Script) : bool :=
  (length script =? 4) && ((byte_at script 0 =? 81) && (byte_at script 1 =? 2)
    && (byte_at script 2 =? 78) && (byte_at script 3 =? 115))%Z.

Section values.
Context {BL : BitcoinLib} {SL : ScriptLib} {EL : ElectrumLib} {TS : TxSize}.
Context (network : Network).

(** [asm[7..asm.len() - 1]] of the debug form. *)
Definition to_asm (script : Script) : result Text :=
  let asm := script_debug script in
  if decide (8 <= length asm) then Ok (drop 7 (take (length asm - 1) asm)) else Panic.

Definition script_type (script : Script) : string :=
  if bool_decide (script = []) then "empty"
  else if is_provably_unspendable_ script then "op_return"
  else if is_p2pk script then "p2pk"
  else if is_p2pkh script then "p2pkh"
  else if is_p2sh script then "p2sh"
  else if is_p2wpkh script then "v0_p2wpkh"
  else if is_p2wsh script then "v0_p2wsh"
  else if is_p2tr script then "v1_p2tr"
  else if is_anchor script then "anchor"
  else if is_bare_multisig script then "multisig"
  else "unknown".

(** ** Making the values *)

Definition BlockValue_new (blockhm : BlockHeaderMeta) : BlockValue :=
  let entry := bhm_header_entry blockhm in
  let header := he_header entry in
  mkBlockValue (display_hash (block_hash header)) (as_u32 (Z.of_nat (he_height entry)))
    (as_u32 (bh_version header)) (bh_time header)
    (meta_tx_count (bhm_meta blockhm)) (meta_size (bhm_meta blockhm)) (meta_weight (bhm_meta blockhm))
    (display_hash (merkle_root header))
    (if decide (prev_blockhash header = null_hash) then None else Some (display_hash (prev_blockhash header)))
    (bhm_mtp blockhm) (nonce header) (bits header) (difficulty_new header).

Definition TxOutValue_new (txout : TxOut) : result TxOutValue :=
  let script := script_pubkey txout in
  script_asm ← to_asm script;
  Ok (mkTxOutValue script script_asm (script_type script) (to_address_str script network) (txo_value txout)).

(** [o.map(f)] for a function that may panic. *)
Definition opt_result {A B} (f : A -> result B) (o : option A) : result (option B) :=
  match o with Some a => b ← f a; Ok (Some b) | None => Ok None end.

Definition TxInValue_new (txin : TxIn) (prevout : option TxOut) : result TxInValue :=
  let witness' := match witness txin with [] => None | w => Some (map hex_encode w) end in
  let innerscripts := get_innerscripts txin <$> prevout in
  prevout' ← opt_result TxOutValue_new prevout;
  scriptsig_asm ← to_asm (script_sig txin);
  redeem ← opt_result to_asm (innerscripts ≫= redeem_script);
  witness_asm ← opt_result to_asm (innerscripts ≫= witness_script);
  Ok (mkTxInValue (op_txid (previous_output txin)) (op_vout (previous_output txin)) prevout'
        (script_sig txin) scriptsig_asm witness' (is_coinbase txin) (sequence txin) redeem witness_asm).

(** Any error of counting is this one. *)
Definition TransactionValue_new (tx : Transaction) (blockid : option BlockId)
    (txos : gmap OutPoint TxOut) : result TransactionValue :=
  prevouts ← extract_tx_prevouts tx txos;
  sigops ← chain_err "Couldn't count sigops" (transaction_sigop_count tx prevouts);
  vins ← rmap (fun '(index, txin) => TxInValue_new txin (prevouts !! as_u32 (Z.of_nat index)))
    (enumerate (tx_input tx));
  vouts ← rmap TxOutValue_new (tx_output tx);
  Ok (mkTransactionValue (get_txid tx) (as_u32 (tx_version tx)) (lock_time tx) vins vouts
        (as_u32 (tx_total_size tx)) (as_u32 (tx_weight tx)) (as_u32 sigops) (get_tx_fee tx prevouts)
        (Some (TransactionStatus_from blockid))).

Definition UtxoValue_from (utxo : Utxo) : UtxoValue :=
  mkUtxoValue (ut_txid utxo) (ut_vout utxo) (TransactionStatus_from (ut_confirmed utxo)) (ut_value utxo).
Definition SpendingValue_default : SpendingValue := mkSpendingValue false None None None.
Definition SpendingValue_from (spend : SpendingInput) : SpendingValue :=
  mkSpendingValue true (Some (si_txid spend)) (Some (si_vin spend))
    (Some (TransactionStatus_from (si_confirmed spend))).
Definition spending_value (o : option SpendingInput) : SpendingValue :=
  match o with Some spend => SpendingValue_from spend | None => SpendingValue_default end.

(** ** Their JSON form *)

Definition TransactionStatus_json (s : TransactionStatus) : Json :=
  jobj ([("confirmed", JBool (ts_confirmed s))]
        ++ jskip "block_height" ((fun h => JInt (Z.of_nat h)) <$> ts_block_height s)
        ++ jskip "block_hash" (jhash <$> ts_block_hash s)
        ++ jskip "block_time" (JInt <$> ts_block_time s)).
Definition BlockStatus_json (s : BlockStatus) : Json :=
  jobj [("in_best_chain", JBool (in_best_chain s));
        ("height", jopt ((fun h => JInt (Z.of_nat h)) <$> status_height s));
        ("next_best", jopt (jhash <$> next_best s))].
Definition BlockValue_json (v : BlockValue) : Json :=
  jobj [("id", JStr (bv_id v)); ("height", JInt (bv_height v)); ("version", JInt (bv_version v));
        ("timestamp", JInt (bv_timestamp v)); ("tx_count", JInt (bv_tx_count v)); ("size", JInt (bv_size v));
        ("weight", JInt (bv_weight v)); ("merkle_root", JStr (bv_merkle_root v));
        ("previousblockhash", jopt (JStr <$> bv_previousblockhash v)); ("mediantime", JInt (bv_mediantime v));
        ("nonce", JInt (bv_nonce v)); ("bits", JInt (bv_bits v)); ("difficulty", JFloat (bv_difficulty v))].
Definition TxOutValue_json (v : TxOutValue) : Json :=
  jobj ([("scriptpubkey", JStr (hex_encode (tov_scriptpubkey v)));
         ("scriptpubkey_asm", JStr (tov_scriptpubkey_asm v));
         ("scriptpubkey_type", jstr (tov_scriptpubkey_type v))]
        ++ jskip "scriptpubkey_address" (JStr <$> tov_scriptpubkey_address v)
        ++ [("value", JInt (tov_value v))]).
Definition TxInValue_json (v : TxInValue) : Json :=
  jobj ([("txid", jhash (tiv_txid v)); ("vout", JInt (tiv_vout v));
         ("prevout", jopt (TxOutValue_json <$> tiv_prevout v));
         ("scriptsig", JStr (hex_encode (tiv_scriptsig v))); ("scriptsig_asm", JStr (tiv_scriptsig_asm v))]
        ++ jskip "witness" ((fun w => JArr (map JStr w)) <$> tiv_witness v)
        ++ [("is_coinbase", JBool (tiv_is_coinbase v)); ("sequence", JInt (tiv_sequence v))]
        ++ jskip "inner_redeemscript_asm" (JStr <$> tiv_inner_redeemscript_asm v)
        ++ jskip "inner_witnessscript_asm" (JStr <$> tiv_inner_witnessscript_asm v)).
Definition TransactionValue_json (v : TransactionValue) : Json :=
  jobj ([("txid", jhash (tv_txid v)); ("version", JInt (tv_version v)); ("locktime", JInt (tv_locktime v));
         ("vin", JArr (map TxInValue_json (tv_vin v))); ("vout", JArr (map TxOutValue_json (tv_vout v)));
         ("size", JInt (tv_size v)); ("weight", JInt (tv_weight v)); ("sigops", JInt (tv_sigops v));
         ("fee", JInt (tv_fee v))]
        ++ jskip "status" (TransactionStatus_json <$> tv_status v)).
Definition UtxoValue_json (v : UtxoValue) : Json :=
  jobj [("txid", jhash (uv_txid v)); ("vout", JInt (uv_vout v)); ("status", TransactionStatus_json (uv_status v));
        ("value", JInt (uv_value v))].
Definition SpendingValue_json (v : SpendingValue) : Json :=
  jobj ([("spent", JBool (sv_spent v))] ++ jskip "txid" (jhash <$> sv_txid v)
        ++ jskip "vin" (JInt <$> sv_vin v) ++ jskip "status" (TransactionStatus_json <$> sv_status v)).
Definition ScriptStats_json (s : ScriptStats) : Json :=
  jobj [("tx_count", JInt (tx_count s)); ("funded_txo_count", JInt (funded_txo_count s));
        ("spent_txo_count", JInt (spent_txo_count s)); ("funded_txo_sum", JInt (funded_txo_sum s));
        ("spent_txo_sum", JInt (spent_txo_sum s))].
Definition TxHistorySummary_json (s : TxHistorySummary) : Json :=
  jobj [("txid", jhash (sm_txid s)); ("height", JInt (Z.of_nat (sm_height s))); ("value", JInt (sm_value s));
        ("time", JInt (sm_time s)); ("tx_position", JInt (sm_tx_position s))].
Definition TxOverview_json (o : TxOverview) : Json :=
  jobj [("txid", jhash (ov_txid o)); ("fee", JInt (ov_fee o)); ("vsize", JInt (ov_vsize o)); ("value", JInt (ov_value o))].
Definition BacklogStats_json (s : BacklogStats) : Json :=
  jobj [("count", JInt (bl_count s)); ("vsize", JInt (bl_vsize s)); ("total_fee", JInt (bl_total_fee s));
        ("fee_histogram", JArr (map (fun p => JArr [JFloat p.1; JInt p.2]) (fee_histogram s)))].

(** ** Transactions of the index *)

Section prepare.
Context {D : Type} {RDB : RocksDB D} {W : Wincode}.
Implicit Types q : Query D.

Definition prepare_txs q (txs : list (Transaction * option BlockId)) : result (list TransactionValue) :=
  let outpoints := list_to_set (concat (map (fun p => tx_previous_outputs p.1) txs)) in
  prevouts ← Query.lookup_txos q outpoints;
  it_collect (it_filter_map (fun p => ok (TransactionValue_new p.1 p.2 prevouts)) (it_of txs)).
Definition transactions_as_json q (txs : list (Transaction * option BlockId)) : result (list Json) :=
  values ← prepare_txs q txs; Ok (map TransactionValue_json values).

(** [best_height - height] is in [usize]. *)
Definition ttl_by_depth (height : option nat) q : Z :=
  match height with
  | Some height =>
      if (CONF_FINAL <=? wrap64 (best_height (q_chain q) - Z.of_nat height))%Z then TTL_LONG else TTL_SHORT
  | None => TTL_SHORT
  end.

(** ** Paging *)

Inductive TxidLocation := InMempool | InChain (height : Z) | Nowhere.
Definition find_txid (txid : Txid) q : result TxidLocation :=
  match Mempool.lookup_txn (q_mempool q) txid with
  | Some _ => Ok InMempool
  | None =>
      o ← tx_confirming_block (q_chain q) txid;
      Ok (match o with Some block => InChain (as_u32 (Z.of_nat (bid_height block))) | None => Nowhere end)
  end.
Definition confirmed_after_txid (location : TxidLocation) (after_txid : option Txid) : option Txid :=
  match location with InMempool | Nowhere => None | InChain _ => after_txid end.
End prepare.
End values.

(** The last value of a name, as the query string is collected into a map. *)
Definition query_param (query_params : list (Text * Text)) (name : string) : option Text :=
  snd <$> last (filter (fun p : Text * Text => p.1 = text_of name) query_params).
Definition clamp_query_max_txs (query_params : list (Text * Text)) (cap : Z) : Z :=
  Z.min cap (default cap (query_param query_params "max_txs" ≫= parse_usize)).
