(* ===== verification/Rest.v ===== *)
(** * [rest.rs]: the REST server

    A request is a method, a URI, headers and a body; a handler is code over the query
    that ends in a response, in an [HttpError] or in a panic.  The [match] of
    [handle_request] over the method and the first five segments of the path is a table
    of routes in the order of the source, each with its handler.  [par_order] is the
    order in which the thread pool delivers the transactions of a history page.  What
    the server calls outside the repository (bitcoind, addresses, hexadecimal, JSON, the
    URL encoding) are parameters. *)

From Stdlib Require Import SpecFloat.
From S2P Require Import Prelude Iter RocksDB DB Bitcoin HeaderList Rows Fetch Fees.
From S2P Require Import Indexer ChainQuery Merkle Mempool Query.
From S2P Require Import Text Json Electrum Auth Sigops RestValues.

Definition ADDRESS_SEARCH_LIMIT : nat := 10.
Definition MULTI_ADDRESS_LIMIT : Z := 300.
Definition TTL_MEMPOOL_RECENT : Z := 5.
Definition MAX_BODY_SIZE : Z := 1000000.
Definition NIP98_WINDOW_SECS : Z := 60.

(** ** Floating-point literals *)

(** [f64::from_str]: the value [m * 10^e] rounded once, to nearest. *)
Definition decimal_f64 (neg : bool) (m e : Z) : f64 :=
  let x := if (0 <=? e)%Z then binary_normalize 53 1024 (m * 10 ^ e) 0 false
    else
      let k := (1200 + 4 * - e)%Z in
      let q := (m * 2 ^ k / 10 ^ (- e))%Z in
      let sticky := if (m * 2 ^ k mod 10 ^ (- e) =? 0)%Z then 0%Z else 1%Z in
      binary_normalize 53 1024 (2 * q + sticky) (- k - 1) false in
  if neg then SFopp x else x.
Definition is_digit_b (c : Z) : bool := ((48 <=? c) && (c <=? 57))%Z.
Definition digits_val (acc : Z) (t : Text) : Z := fold_left (fun a c => a * 10 + (c - 48))%Z t acc.
Definition is_exp_mark (c : Z) : bool := ((c =? 101) || (c =? 69))%Z.
Definition signed (t : Text) : bool * Text :=
  match t with
  | c :: r => if (c =? 45)%Z then (true, r) else if (c =? 43)%Z then (false, r) else (false, t)
  | [] => (false, [])
  end.
(** The exponent part: nothing, or a mark, a sign and at least one digit. *)
Definition parse_exp (t : Text) : option Z :=
  match t with
  | [] => Some 0%Z
  | c :: r =>
      if negb (is_exp_mark c) then None
      else
        let '(neg, r) := signed r in
        if bool_decide (r = []) || negb (forallb is_digit_b r) then None
        else Some (if neg then - digits_val 0 r else digits_val 0 r)%Z
  end.
Definition parse_f64 (t : Text) : option f64 :=
  let '(neg, t) := signed t in
  let lower := to_ascii_lowercase t in
  if bool_decide (lower = text_of "inf") || bool_decide (lower = text_of "infinity") then Some (S754_infinity neg)
  else if bool_decide (lower = text_of "nan") then Some S754_nan
  else
    let int := take_while is_digit_b t in
    let rest := skip_while is_digit_b t in
    let '(frac, rest) :=
      match rest with
      | c :: r => if (c =? 46)%Z then (take_while is_digit_b r, skip_while is_digit_b r) else ([], rest)
      | [] => ([], [])
      end in
    if bool_decide (int = []) && bool_decide (frac = []) then None
    else
      e ← parse_exp rest;
      Some (decimal_f64 neg (digits_val (digits_val 0 int) frac) (e - Z.of_nat (length frac))).

(** ** Requests and responses *)

Record HttpResponse := mkResponse { rs_status : Z; rs_headers : list (Text * Text); rs_body : Bytes }.
Record HttpError := mkHttpError { err_status : Z; err_msg : Text }.

Definition OK : Z := 200.
Definition SWITCHING_PROTOCOLS : Z := 101.
Definition BAD_REQUEST : Z := 400.
Definition UNAUTHORIZED : Z := 401.
Definition FORBIDDEN : Z := 403.
Definition NOT_FOUND : Z := 404.
Definition METHOD_NOT_ALLOWED : Z := 405.
Definition REQUEST_TIMEOUT : Z := 408.
Definition PAYLOAD_TOO_LARGE : Z := 413.
Definition UNPROCESSABLE_ENTITY : Z := 422.
Definition INTERNAL_SERVER_ERROR : Z := 500.
Definition SERVICE_UNAVAILABLE : Z := 503.
Definition GATEWAY_TIMEOUT : Z := 504.

Definition not_found (msg : string) : HttpError := mkHttpError NOT_FOUND (text_of msg).
Definition forbidden (msg : string) : HttpError := mkHttpError FORBIDDEN (text_of msg).
Definition bad_request (msg : string) : HttpError := mkHttpError BAD_REQUEST (text_of msg).
Definition unprocessable (msg : string) : HttpError := mkHttpError UNPROCESSABLE_ENTITY (text_of msg).

(** The message of bitcoind for an unknown block; 34 is the quotation mark. *)
Definition block_not_found_msg : Text :=
  text_of "getblock RPC error: {" ++ [34%Z] ++ text_of "code" ++ [34%Z] ++ text_of ":-5," ++ [34%Z]
  ++ text_of "message" ++ [34%Z] ++ text_of ":" ++ [34%Z] ++ text_of "Block not found" ++ [34%Z] ++ text_of "}".
(** [From<errors::Error>] *)
Definition HttpError_from (e : ErrorKind) : HttpError :=
  match e with
  | DaemonBusy _ => mkHttpError SERVICE_UNAVAILABLE (display_error e)
  | DaemonUnavailable _ => mkHttpError GATEWAY_TIMEOUT (display_error e)
  | Prelude.Connection msg => mkHttpError GATEWAY_TIMEOUT (text_of msg)
  | Msg s =>
      if bool_decide (text_of s = block_not_found_msg) then not_found "Block not found"
      else mkHttpError BAD_REQUEST (display_error e)
  | _ => mkHttpError BAD_REQUEST (display_error e)
  end.

(** [full_body(text)] *)
Definition max_age (ttl : Z) : Text := text_of "public, max-age=" ++ display_usize ttl.
Definition plain (status : Z) (message : Text) : HttpResponse :=
  mkResponse status [(text_of "content-type", text_of "text/plain")] (utf8_encode message).
Definition http_message (status : Z) (message : Text) (ttl : Z) : HttpResponse :=
  mkResponse status [(text_of "content-type", text_of "text/plain"); (text_of "cache-control", max_age ttl)]
    (utf8_encode message).
Definition json_response `{!ElectrumLib} (value : Json) (ttl : Z) : HttpResponse :=
  mkResponse OK [(text_of "content-type", text_of "application/json"); (text_of "cache-control", max_age ttl)]
    (utf8_encode (json_display value)).
Definition json_response_no_store `{!ElectrumLib} (value : Json) : HttpResponse :=
  mkResponse OK [(text_of "content-type", text_of "application/json"); (text_of "cache-control", text_of "no-store")]
    (utf8_encode (json_display value)).
Definition raw_response (content_type : string) (body : Bytes) (ttl : Z) : HttpResponse :=
  mkResponse OK [(text_of "content-type", text_of content_type); (text_of "cache-control", max_age ttl)] body.

(** ** Handlers *)

Inductive outcome (A : Type) := Done (a : A) | Failed (e : HttpError) | Crashed | Stuck.
Arguments Done {A} a.
Arguments Failed {A} e.
Arguments Crashed {A}.
Arguments Stuck {A}.

Definition H (D A : Type) : Type := Query D -> Query D * outcome A.
#[export] Instance H_ret D : MRet (H D) := fun A a q => (q, Done a).
#[export] Instance H_bind D : MBind (H D) := fun A B f m q =>
  match m q with
  | (q', Done a) => f a q'
  | (q', Failed e) => (q', Failed e)
  | (q', Crashed) => (q', Crashed)
  | (q', Stuck) => (q', Stuck)
  end.
(** [r?] on a [Result] of the index. *)
Definition outcome_of {A} (r : result A) : outcome A :=
  match r with Ok a => Done a | Err e => Failed (HttpError_from e) | Panic => Crashed | Diverge => Stuck end.
Definition ask {D A} (f : Query D -> result A) : H D A := fun q => (q, outcome_of (f q)).
Definition observe {D A} (f : Query D -> outcome A) : H D A := fun q => (q, f q).
Definition run {D A} (m : SR (Query D) A) : H D A := fun q => let '(q', r) := m q in (q', outcome_of r).
Definition fail {D A} (e : HttpError) : H D A := fun q => (q, Failed e).
Definition need {D A} (e : HttpError) (o : option A) : H D A :=
  match o with Some a => mret a | None => fail e end.
Definition guard_ {D} (bad : bool) (e : HttpError) : H D unit := if bad then fail e else mret tt.
(** [r.map_err(|err| HttpError::from(err.to_string()))?] *)
Definition need_msg {D A} (r : Text + A) : H D A :=
  match r with inr a => mret a | inl msg => fail (mkHttpError BAD_REQUEST msg) end.

(** ** The libraries *)

Class RestLib := {
  UncheckedAddress : Type;
  parse_address : Text -> option UncheckedAddress;
  (** [require_network(net).ok()] and the script of the address *)
  require_network : UncheckedAddress -> Network -> option Script;
  hex_decode : Text -> option Bytes;
  (** the message for a text that is no hash, for bytes that are no UTF-8, and [{:?}] of a text *)
  hash_error : Text -> Text;
  utf8_error : Bytes -> Text;
  debug_str : Text -> Text;
  (** [serde_json::from_slice::<Vec<String>>] *)
  strings_from_slice : Bytes -> Text + list Text;
  parse_query : Text -> list (Text * Text);
  merkle_block : BlockHeader -> list Txid -> Txid -> Bytes;
  parse_header_value : Text -> option Text;
  derive_accept_key : Text -> Text;
}.
(** What bitcoind answers to requests that are passed on. *)
Record RestRpc := mkRestRpc {
  rr_query : QueryRpc;
  rr_test_mempool_accept : list Text -> option f64 -> result Json;
  rr_submit_package : list Text -> option f64 -> option f64 -> result SubmitPackageResult;
  rr_getblocktemplate : result Json }.
(** The options of the server. *)
Record RestConfig := mkRestConfig {
  rc_query : QueryConfig; rc_mempool : MempoolConfig; rc_electrum : ElectrumConfig;
  address_search_enabled : bool; enable_mining_rest : bool; public_health : bool; cors : option Text;
  rest_default_block_limit : nat; rest_default_chain_txs_per_page : Z; rest_default_max_mempool_txs : Z;
  rest_default_max_address_summary_txs : Z; rest_max_mempool_page_size : Z; rest_max_mempool_txid_page_size : Z }.

(** ** Script hashes *)

Definition testnet_family : list Network := [Testnet; Regtest; Signet; Testnet4].
(** [iter().find_map(f)] *)
Definition find_map {A B} (f : A -> option B) (l : list A) : option B := head (omap f l).

Section scripthash.
Context {BL : BitcoinLib} {RL : RestLib} {D : Type}.

Definition address_to_scripthash (addr : Text) (network : Network) : HttpError + FullHash :=
  match parse_address addr with
  | None => inl (bad_request "Invalid Bitcoin address")
  | Some unchecked =>
      let script :=
        if bool_decide (network ∈ testnet_family) then find_map (require_network unchecked) testnet_family
        else require_network unchecked network in
      match script with
      | None => inl (bad_request "Address on invalid network")
      | Some script => inr (compute_script_hash script)
      end
  end.
(** [full_hash] of 32 bytes *)
Definition parse_scripthash (scripthash : Text) : HttpError + FullHash :=
  match hex_decode scripthash with
  | None => inl (bad_request "Invalid hex string")
  | Some bytes =>
      match mk_hash bytes with
      | None => inl (bad_request "Invalid scripthash")
      | Some h => inr h
      end
  end.
Definition to_scripthash (script_type script_str : Text) (network : Network) : HttpError + FullHash :=
  if bool_decide (script_type = text_of "address") then address_to_scripthash script_str network
  else if bool_decide (script_type = text_of "scripthash") then parse_scripthash script_str
  else inl (bad_request "Invalid script type").
Definition multi_address_too_long (body : Bytes) : bool :=
  ((8 + 64) * MULTI_ADDRESS_LIMIT <? Z.of_nat (length body))%Z.

(** The scripts of a body, as both routes for groups read them; what is no script is
    left out. *)
Definition group_script_type (script_types : Text) : Text :=
  if bool_decide (script_types = text_of "addresses") then text_of "address"
  else if bool_decide (script_types = text_of "scripthashes") then text_of "scripthash"
  else [].
Definition group_scripts (script_types : Text) (body : Bytes) (network : Network) : H D (list FullHash) :=
  _ ← guard_ (multi_address_too_long body) (unprocessable "body too long");
  script_hashes ← need_msg (strings_from_slice body);
  _ ← guard_ (MULTI_ADDRESS_LIMIT <? Z.of_nat (length script_hashes))%Z (unprocessable "body too long");
  mret (omap (fun script_str =>
    match to_scripthash (group_script_type script_types) script_str network with inr h => Some h | inl _ => None end)
    script_hashes).
(** [to_scripthash(..)?] *)
Definition need_scripthash (script_type script_str : Text) (network : Network) : H D FullHash :=
  match to_scripthash script_type script_str network with inr h => mret h | inl e => fail e end.
(** [hash.parse::<BlockHash>().map_err(..)?], the same for a [Txid] *)
Definition need_hash {EL : ElectrumLib} (hash : Text) : H D FullHash :=
  need (mkHttpError BAD_REQUEST (hash_error hash)) (parse_hash hash).
(** [index.parse()?] *)
Definition need_usize (t : Text) : H D Z := need (bad_request "Invalid number") (parse_usize t).
Definition parse_u32 (t : Text) : option Z :=
  n ← parse_usize t; if decide (n < u32_mod)%Z then Some n else None.
Definition need_u32 (t : Text) : H D Z := need (bad_request "Invalid number") (parse_u32 t).
Definition need_utf8 (b : Bytes) : H D Text := need (mkHttpError BAD_REQUEST (utf8_error b)) (from_utf8 b).
End scripthash.

(** ** Handlers *)

Abbreviation TxEntry := (Transaction * option BlockId)%type.
Abbreviation PageItem := (Transaction * option BlockId * Z)%type.
(** The comparison of the history endpoints: the higher block first, in a block the
    later position. *)
Definition page_height (i : PageItem) : Z := match i.1.2 with Some b => Z.of_nat (bid_height b) | None => -1 end.
Definition page_le (a b : PageItem) : Prop :=
  (page_height b < page_height a)%Z \/ (page_height a = page_height b /\ (b.2 <= a.2)%Z).
#[export] Instance page_le_dec : RelDecision page_le.
Proof. intros a b. unfold page_le. apply _. Defined.

Section rest.
Context {D : Type} {RDB : RocksDB D} {BL : BitcoinLib} {W : Wincode}.
Context {EL : ElectrumLib} {SL : ScriptLib} {TS : TxSize} {RL : RestLib}.
Context (cfg : RestConfig) (rpc : RestRpc) (sha256d : Bytes -> FullHash) (now later : Z).
Context (par_order : list PageItem -> list PageItem).
Implicit Types q : Query D.
Abbreviation network := (network_type (rc_query cfg)).
Abbreviation handler := (H D HttpResponse).

(** [json_response(prepare_txs(txs, query, config), ttl)] *)
Definition txs_response (txs : list TxEntry) (ttl : Z) : handler :=
  values ← ask (fun q => prepare_txs network q txs);
  mret (json_response (JArr (map TransactionValue_json values)) ttl).
Definition ask_ttl (height : option nat) : H D Z := ask (fun q => Ok (ttl_by_depth height q)).
Definition block_not_found {A} (o : option A) : H D A := need (not_found "Block not found") o.

(** *** Blocks *)

Definition tip_hash_ : handler :=
  hash ← ask (fun q => best_hash (q_chain q)); mret (http_message OK (display_hash hash) TTL_SHORT).
Definition tip_height : handler :=
  height ← ask (fun q => Ok (best_height (q_chain q))); mret (http_message OK (display_usize height) TTL_SHORT).

(** The loop of [blocks], [limit] turns at most. *)
Fixpoint blocks_loop q (limit : nat) (current_hash : BlockHash) : outcome (list BlockValue) :=
  match limit with
  | 0 => Done []
  | S limit =>
      match get_block_with_meta (q_chain q) current_hash with
      | Ok None => Failed (not_found "Block not found")
      | Ok (Some blockhm) =>
          let current_hash := prev_blockhash (he_header (bhm_header_entry blockhm)) in
          let value := BlockValue_new blockhm in
          if decide (current_hash = null_hash) then Done [value]
          else match blocks_loop q limit current_hash with
               | Done values => Done (value :: values)
               | r => r
               end
      | r => outcome_of (_ ← r; Ok [])
      end
  end.
Definition blocks (start_height : option Z) : handler :=
  current_hash ← (match start_height with
    | Some height =>
        o ← ask (fun q => cq_header_by_height (q_chain q) (Z.to_nat height));
        header ← block_not_found o; mret (he_hash header)
    | None => ask (fun q => best_hash (q_chain q))
    end);
  values ← observe (fun q => blocks_loop q (rest_default_block_limit cfg) current_hash);
  mret (json_response (JArr (map BlockValue_json values)) TTL_SHORT).
Definition get_blocks (start_height : option Text) : handler := blocks (start_height ≫= parse_usize).
Definition block_height (height : Text) : handler :=
  height ← need_usize height;
  o ← ask (fun q => cq_header_by_height (q_chain q) (Z.to_nat height));
  header ← block_not_found o;
  ttl ← ask_ttl (Some (Z.to_nat height));
  mret (http_message OK (display_hash (he_hash header)) ttl).
Definition get_block (hash : Text) : handler :=
  hash ← need_hash hash;
  o ← ask (fun q => get_block_with_meta (q_chain q) hash);
  blockhm ← block_not_found o;
  mret (json_response (BlockValue_json (BlockValue_new blockhm)) TTL_LONG).
Definition block_status (hash : Text) : handler :=
  hash ← need_hash hash;
  status ← ask (fun q => get_block_status (q_chain q) hash);
  ttl ← ask_ttl (status_height status);
  mret (json_response (BlockStatus_json status) ttl).
Definition block_txids (hash : Text) : handler :=
  hash ← need_hash hash;
  o ← ask (fun q => get_block_txids (q_chain q) hash);
  txids ← block_not_found o;
  mret (json_response (JArr (map jhash txids)) TTL_LONG).
Definition internal_block_txs (hash : Text) : handler :=
  hash ← need_hash hash;
  block_id ← ask (fun q => Ok (blockid_by_hash (q_chain q) hash));
  o ← ask (fun q => get_block_txs (q_chain q) hash);
  txs ← block_not_found o;
  ttl ← ask_ttl (bid_height <$> block_id);
  txs_response (map (fun tx => (tx, block_id)) txs) ttl.
Definition block_header_ (hash : Text) : handler :=
  hash ← need_hash hash;
  o ← ask (fun q => Ok (get_block_header (q_chain q) hash));
  header ← block_not_found o;
  mret (http_message OK (hex_encode (serialize_header header)) TTL_LONG).
Definition block_raw (hash : Text) : handler :=
  hash ← need_hash hash;
  o ← ask (fun q => get_block_raw (q_chain q) hash);
  raw ← block_not_found o;
  mret (raw_response "application/octet-stream" raw TTL_LONG).
Definition block_txid (hash index : Text) : handler :=
  hash ← need_hash hash;
  index ← need_usize index;
  o ← ask (fun q => get_block_txids (q_chain q) hash);
  txids ← block_not_found o;
  txid ← need (not_found "tx index out of range") (txids !! Z.to_nat index);
  mret (http_message OK (display_hash txid) TTL_LONG).
(** A page size of zero divides zero only ([usize::is_multiple_of]). *)
Definition is_multiple_of (x y : Z) : bool := if (y =? 0)%Z then (x =? 0)%Z else (x mod y =? 0)%Z.
Definition block_txs (hash : Text) (start_index : option Text) : handler :=
  hash ← need_hash hash;
  o ← ask (fun q => get_block_txids (q_chain q) hash);
  txids ← block_not_found o;
  let start_index := default 0%Z (start_index ≫= parse_u32) in
  let page := rest_default_chain_txs_per_page cfg in
  _ ← guard_ (Z.of_nat (length txids) <=? start_index)%Z (not_found "start index out of range");
  _ ← guard_ (negb (is_multiple_of start_index page))
        (mkHttpError BAD_REQUEST (text_of "start index must be a multipication of " ++ display_usize page));
  confirmed_blockid ← ask (fun q => Ok (blockid_by_hash (q_chain q) hash));
  found ← ask (fun q => rmap (Query.lookup_txn q) (take (Z.to_nat page) (drop (Z.to_nat start_index) txids)));
  txs ← need (bad_request "missing tx") (mapM id found);
  ttl ← ask_ttl (bid_height <$> confirmed_blockid);
  txs_response (map (fun tx => (tx, confirmed_blockid)) txs) ttl.

(** *** Scripts *)

Definition script_stats (script_type script_str : Text) : handler :=
  script_hash ← need_scripthash script_type script_str network;
  stats ← run (Query.stats script_hash);
  mret (json_response (JObj [(script_type, JStr script_str); (text_of "chain_stats", ScriptStats_json stats.1);
                             (text_of "mempool_stats", ScriptStats_json stats.2)]) TTL_SHORT).

(** A page of confirmed transactions, sorted after the thread pool delivered it. *)
Definition confirmed_page (history : ChainQuery D -> iter (Transaction * BlockId * Z)) : H D (list PageItem) :=
  items ← ask (fun q => it_collect (history (q_chain q)));
  mret (merge_sort page_le (par_order (map (fun '(tx, blockid, tx_position) => (tx, Some blockid, tx_position)) items))).
Definition locate (txid : option Txid) : H D TxidLocation :=
  match txid with Some txid => ask (fun q => find_txid txid q) | None => mret InMempool end.
(** The body of the routes for one script and for a group of scripts. *)
Definition merged_history (mempool_history : Mempool -> option Txid -> nat -> result (list Transaction))
    (chain_history : ChainQuery D -> option Txid -> option Z -> nat -> iter (Transaction * BlockId * Z))
    (after_txid : option Txid) (max_txs : nat) : H D (list TxEntry) :=
  after_txid_location ← locate after_txid;
  r ← (match after_txid_location with
    | InMempool =>
        txs ← ask (fun q => mempool_history (q_mempool q) after_txid max_txs);
        mret (map (fun tx => (tx, None)) txs, None)
    | Nowhere => fail (unprocessable "after_txid not found")
    | InChain height => mret ([], Some height)
    end);
  let '(txs, confirmed_block_height) := r in
  if decide (length txs < max_txs) then
    let after_txid_ref := confirmed_after_txid after_txid_location after_txid in
    confirmed_txs ← confirmed_page (fun chain =>
      chain_history chain after_txid_ref confirmed_block_height (max_txs - length txs));
    mret (txs ++ map fst confirmed_txs)
  else mret txs.
Definition page_params (query_params : list (Text * Text)) : option Txid * nat :=
  (query_param query_params "after_txid" ≫= parse_hash,
   Z.to_nat (clamp_query_max_txs query_params (rest_default_max_mempool_txs cfg))).

Definition script_txs (query_params : list (Text * Text)) (script_type script_str : Text) : handler :=
  script_hash ← need_scripthash script_type script_str network;
  let '(after_txid, max_txs) := page_params query_params in
  txs ← merged_history (fun m => Mempool.history m script_hash) (fun c => ChainQuery.history c script_hash) after_txid max_txs;
  txs_response txs TTL_SHORT.
Definition group_txs (query_params : list (Text * Text)) (body : Bytes) (script_types : Text) : handler :=
  script_hashes ← group_scripts script_types body network;
  let '(after_txid, max_txs) := page_params query_params in
  txs ← merged_history (fun m => Mempool.history_group m script_hashes) (fun c => ChainQuery.history_group c script_hashes)
          after_txid max_txs;
  txs_response txs TTL_SHORT.
Definition script_txs_chain (query_params : list (Text * Text)) (script_type script_str : Text)
    (last_seen_txid : option Text) : handler :=
  script_hash ← need_scripthash script_type script_str network;
  let last_seen_txid := last_seen_txid ≫= parse_hash in
  let max_txs := Z.to_nat (clamp_query_max_txs query_params (rest_default_chain_txs_per_page cfg)) in
  txs ← confirmed_page (fun chain => ChainQuery.history chain script_hash last_seen_txid None max_txs);
  txs_response (map fst txs) TTL_SHORT.

(** The body of the two summary routes. *)
Definition summary_page (summary : ChainQuery D -> option Txid -> option Z -> nat -> result (list TxHistorySummary))
    (query_params : list (Text * Text)) (last_seen_txid : option Text) : handler :=
  let last_seen_txid := last_seen_txid ≫= parse_hash in
  let max_txs := Z.to_nat (clamp_query_max_txs query_params (rest_default_max_address_summary_txs cfg)) in
  location ← locate last_seen_txid;
  confirmed_block_height ← (match location with
    | InMempool => mret None
    | Nowhere => fail (unprocessable "after_txid not found")
    | InChain height => mret (Some height)
    end);
  summary ← ask (fun q => summary (q_chain q) last_seen_txid confirmed_block_height max_txs);
  mret (json_response (JArr (map TxHistorySummary_json summary)) TTL_SHORT).
Definition script_summary (query_params : list (Text * Text)) (script_type script_str : Text)
    (last_seen_txid : option Text) : handler :=
  script_hash ← need_scripthash script_type script_str network;
  summary_page (fun c => ChainQuery.summary c script_hash) query_params last_seen_txid.
Definition group_summary (query_params : list (Text * Text)) (body : Bytes) (script_types : Text)
    (last_seen_txid : option Text) : handler :=
  script_hashes ← group_scripts script_types body network;
  summary_page (fun c => ChainQuery.summary_group c script_hashes) query_params last_seen_txid.

Definition script_txs_mempool (query_params : list (Text * Text)) (script_type script_str : Text) : handler :=
  script_hash ← need_scripthash script_type script_str network;
  let max_txs := Z.to_nat (clamp_query_max_txs query_params (rest_default_max_mempool_txs cfg)) in
  txs ← ask (fun q => Mempool.history (q_mempool q) script_hash None max_txs);
  txs_response (map (fun tx => (tx, None)) txs) TTL_SHORT.
Definition script_utxo (script_type script_str : Text) : handler :=
  script_hash ← need_scripthash script_type script_str network;
  utxos ← run (Query.utxo (rc_query cfg) script_hash);
  mret (json_response (JArr (map (fun u => UtxoValue_json (UtxoValue_from u)) utxos)) TTL_SHORT).
Definition address_prefix (prefix : Text) : handler :=
  _ ← guard_ (negb (address_search_enabled cfg)) (bad_request "address search disabled");
  results ← ask (fun q => Ok (address_search (q_chain q) (utf8_encode prefix) ADDRESS_SEARCH_LIMIT));
  mret (json_response (JArr (map JStr results)) TTL_SHORT).

(** *** Transactions *)

Definition tx_not_found {A} (o : option A) : H D A := need (not_found "Transaction not found") o.
Definition get_tx (hash : Text) : handler :=
  hash ← need_hash hash;
  o ← ask (fun q => Query.lookup_txn q hash);
  tx ← tx_not_found o;
  blockid ← ask (fun q => tx_confirming_block (q_chain q) hash);
  ttl ← ask_ttl (bid_height <$> blockid);
  values ← ask (fun q => prepare_txs network q [(tx, blockid)]);
  match values with
  | [] => mret (http_message INTERNAL_SERVER_ERROR (text_of "Transaction missing prevouts") 0)
  | value :: _ => mret (json_response (TransactionValue_json value) ttl)
  end.
(** The ids of a body; a text that is no id is answered at once. *)
Definition body_txids (body : Bytes) (then_ : list Txid -> handler) : handler :=
  txid_strings ← need_msg (strings_from_slice body);
  match mapM parse_hash txid_strings with
  | Some txids => then_ txids
  | None =>
      let bad := default [] (find_map (fun t => match parse_hash t with Some _ => None | None => Some t end) txid_strings) in
      mret (http_message BAD_REQUEST (hash_error bad) 0)
  end.
Definition internal_txs (body : Bytes) : handler :=
  body_txids body (fun txids =>
    txs ← ask (fun q => it_collect (it_filter_map (fun txid =>
      o ← Query.lookup_txn q txid;
      match o with
      | Some tx => blockid ← tx_confirming_block (q_chain q) txid; Ok (Some (tx, blockid))
      | None => Ok None
      end) (it_of txids)));
    txs_response txs 0).
Definition tx_raw (hash out_type : Text) : handler :=
  hash ← need_hash hash;
  o ← ask (fun q => Query.lookup_raw_txn q hash);
  rawtx ← tx_not_found o;
  status ← ask (fun q => get_tx_status q hash);
  ttl ← ask_ttl (ts_block_height status);
  if bool_decide (out_type = text_of "raw") then mret (raw_response "application/octet-stream" rawtx ttl)
  else mret (raw_response "text/plain" (utf8_encode (hex_encode rawtx)) ttl).
Definition tx_status (hash : Text) : handler :=
  hash ← need_hash hash;
  status ← ask (fun q => get_tx_status q hash);
  ttl ← ask_ttl (ts_block_height status);
  mret (json_response (TransactionStatus_json status) ttl).
Definition unconfirmed {A} (o : option A) : H D A :=
  need (not_found "Transaction not found or is unconfirmed") o.
Definition tx_merkle_proof (hash : Text) : handler :=
  hash ← need_hash hash;
  o ← ask (fun q => tx_confirming_block (q_chain q) hash);
  blockid ← unconfirmed o;
  proof ← ask (fun q => get_tx_merkle_proof sha256d (q_chain q) hash (bid_hash blockid));
  ttl ← ask_ttl (Some (bid_height blockid));
  mret (json_response (jobj [("block_height", JInt (Z.of_nat (bid_height blockid)));
                             ("merkle", JArr (map jhash proof.1)); ("pos", JInt (Z.of_nat proof.2))]) ttl).
(** [get_merkleblock_proof] of the chain: the header and the encoded proof. *)
Definition get_merkleblock_proof (c : ChainQuery D) (txid : Txid) : result (option (BlockHeader * Bytes)) :=
  and_then (tx_confirming_block c txid) (fun blockid =>
  and_then (Ok (header_by_hash c (bid_hash blockid))) (fun headerentry =>
  and_then (get_block_txids c (bid_hash blockid)) (fun block_txids =>
    Ok (Some (he_header headerentry, merkle_block (he_header headerentry) block_txids txid))))).
Definition tx_merkleblock_proof (hash : Text) : handler :=
  hash ← need_hash hash;
  o ← ask (fun q => get_merkleblock_proof (q_chain q) hash);
  merkleblock ← unconfirmed o;
  height ← ask (fun q => Ok (height_by_hash (q_chain q) (block_hash merkleblock.1)));
  ttl ← ask_ttl height;
  mret (http_message OK (hex_encode merkleblock.2) ttl).
Definition tx_outspend (hash index : Text) : handler :=
  hash ← need_hash hash;
  vout ← need_u32 index;
  spend ← ask (fun q => Query.lookup_spend q (mkOutPoint hash vout));
  ttl ← ask_ttl (sv_status (spending_value spend) ≫= ts_block_height);
  mret (json_response (SpendingValue_json (spending_value spend)) ttl).
Definition spends_json (spends : list (option SpendingInput)) : Json :=
  JArr (map (fun s => SpendingValue_json (spending_value s)) spends).
Definition tx_outspends (hash : Text) : handler :=
  hash ← need_hash hash;
  o ← ask (fun q => Query.lookup_txn q hash);
  tx ← tx_not_found o;
  spends ← ask (fun q => lookup_tx_spends q tx);
  mret (json_response (spends_json spends) TTL_SHORT).
Definition broadcast (post : bool) (query_params : list (Text * Text)) (body : Bytes) : handler :=
  txhex ← (if post then need_utf8 body else need (bad_request "Missing tx") (query_param query_params "tx"));
  txid ← run (broadcast_raw (rc_mempool cfg) (rr_query rpc) txhex);
  mret (http_message OK (display_hash txid) 0).

(** The transactions of a body, at most 25, and an optional rate or amount. *)
Definition body_txhexes (body : Bytes) : H D (list Text) :=
  text ← need_utf8 body;
  txhexes ← need_msg (strings_from_slice (utf8_encode text));
  _ ← guard_ (25 <? Z.of_nat (length txhexes))%Z (bad_request "Exceeded maximum of 25 transactions");
  mret txhexes.
Definition float_param (query_params : list (Text * Text)) (name : string) : H D (option f64) :=
  match query_param query_params name with
  | None => mret None
  | Some s => x ← need (bad_request ("Invalid " +:+ name)) (parse_f64 s); mret (Some x)
  end.
Fixpoint precheck (index : nat) (txhexes : list Text) : H D unit :=
  match txhexes with
  | [] => mret tt
  | txhex :: txhexes =>
      let item := display_usize (Z.of_nat index) in
      _ ← guard_ (negb ((120 <=? utf8_len txhex) && (utf8_len txhex <? 800000)))%Z
            (mkHttpError BAD_REQUEST (text_of "Invalid transaction size for item " ++ item));
      _ ← need (mkHttpError BAD_REQUEST (text_of "Invalid transaction hex for item " ++ item)) (hex_decode txhex);
      precheck (S index) txhexes
  end.
Definition txs_test (query_params : list (Text * Text)) (body : Bytes) : handler :=
  txhexes ← body_txhexes body;
  maxfeerate ← float_param query_params "maxfeerate";
  _ ← precheck 0 txhexes;
  result ← ask (fun _ => rr_test_mempool_accept rpc txhexes maxfeerate);
  mret (json_response result TTL_SHORT).
Definition txs_package (query_params : list (Text * Text)) (body : Bytes) : handler :=
  txhexes ← body_txhexes body;
  maxfeerate ← float_param query_params "maxfeerate";
  maxburnamount ← float_param query_params "maxburnamount";
  _ ← precheck 0 txhexes;
  result ← ask (fun _ => rr_submit_package rpc txhexes maxfeerate maxburnamount);
  mret (json_response (pk_value result) TTL_SHORT).
(** The spends of the outputs of one transaction, none for an unknown one. *)
Definition outspends_of q (txid_str : Text) : result (list (option SpendingInput)) :=
  match parse_hash txid_str with
  | None => Ok []
  | Some txid => o ← Query.lookup_txn q txid; match o with Some tx => lookup_tx_spends q tx | None => Ok [] end
  end.
Definition txs_outspends (query_params : list (Text * Text)) : handler :=
  param ← need (bad_request "No txids specified") (query_param query_params "txids");
  let txid_strings := split_on 44 param in
  if (50 <? Z.of_nat (length txid_strings))%Z then mret (http_message BAD_REQUEST (text_of "Too many txids requested") 0)
  else
    spends ← ask (fun q => rmap (outspends_of q) txid_strings);
    mret (json_response (JArr (map spends_json spends)) TTL_SHORT).
Definition outspends_by_txid (body : Bytes) : handler :=
  txid_strings ← need_msg (strings_from_slice body);
  spends ← ask (fun q => rmap (outspends_of q) txid_strings);
  mret (json_response (JArr (map spends_json spends)) TTL_SHORT).
Definition outspend_of q (outpoint_str : Text) : result (option SpendingInput) :=
  match split_on 58 outpoint_str with
  | hash :: index :: _ =>
      match parse_hash hash, parse_u32 index with
      | Some txid, Some vout => Query.lookup_spend q (mkOutPoint txid vout)
      | _, _ => Ok None
      end
  | _ => Ok None
  end.
Definition outspends_by_outpoint (body : Bytes) : handler :=
  outpoint_strings ← need_msg (strings_from_slice body);
  spends ← ask (fun q => rmap (outspend_of q) outpoint_strings);
  mret (json_response (spends_json spends) TTL_SHORT).

(** *** The mempool and the daemon *)

Definition mempool_stats : handler :=
  s ← ask (fun q => Ok (backlog_stats (q_mempool q))); mret (json_response (BacklogStats_json s) TTL_SHORT).
Definition mempool_txids : handler :=
  l ← ask (fun q => Ok (txids (q_mempool q))); mret (json_response (JArr (map jhash l)) TTL_SHORT).
Definition mempool_txids_page (query_params : list (Text * Text)) (last_seen_txid : option Text) : handler :=
  let max_txs := Z.to_nat (clamp_query_max_txs query_params (rest_max_mempool_txid_page_size cfg)) in
  l ← ask (fun q => Ok (txids_page (q_mempool q) max_txs (last_seen_txid ≫= parse_hash)));
  mret (json_response (JArr (map jhash l)) TTL_SHORT).
Definition mempool_txs_all : handler :=
  l ← ask (fun q => Ok (txs (q_mempool q))); txs_response (map (fun tx => (tx, None)) l) TTL_SHORT.
Definition mempool_txs (body : Bytes) : handler :=
  body_txids body (fun txids =>
    l ← ask (fun q => Ok (omap (Mempool.lookup_txn (q_mempool q)) txids));
    txs_response (map (fun tx => (tx, None)) l) 0).
Definition mempool_txs_page (query_params : list (Text * Text)) (last_seen_txid : option Text) : handler :=
  let max_txs := Z.to_nat (clamp_query_max_txs query_params (rest_max_mempool_page_size cfg)) in
  l ← ask (fun q => Ok (txs_page (q_mempool q) max_txs (last_seen_txid ≫= parse_hash)));
  txs_response (map (fun tx => (tx, None)) l) TTL_SHORT.
Definition mempool_recent : handler :=
  l ← ask (fun q => Ok (recent_txs_overview (q_mempool q)));
  mret (json_response (JArr (map TxOverview_json l)) TTL_MEMPOOL_RECENT).
Definition fee_estimates : handler :=
  m ← run (estimate_fee_map (rr_query rpc) now later);
  mret (json_response (JObj (map (fun p : Z * f64 => (display_usize p.1, JFloat p.2)) (map_to_list m))) TTL_SHORT).
Definition mining_rest_disabled_error (enable_mining_rest : bool) : option HttpError :=
  if enable_mining_rest then None else Some (forbidden "mining REST endpoints are disabled").
Definition handle_block_template : handler :=
  match mining_rest_disabled_error (enable_mining_rest cfg) with
  | Some err => fail err
  | None => value ← ask (fun _ => rr_getblocktemplate rpc); mret (json_response_no_store value)
  end.
Definition electrum_jsonrpc (body : Bytes) : handler :=
  body_str ← need (bad_request "Electrum JSON-RPC body must be UTF-8") (from_utf8 body);
  value ← run (handle_http_jsonrpc_body (rc_electrum cfg) (rc_query cfg) (rc_mempool cfg) (rr_query rpc)
                 (fun txhexes => rr_submit_package rpc txhexes None None) now later body_str);
  mret (json_response_no_store value).

(** *** Routing *)

(** A pattern for one segment of the path: a literal, one of some literals, any
    segment, an optional segment, no segment. *)
Inductive Pat := Lit (s : string) | OneOf (l : list string) | Var | Opt | End_.
Definition seg_matches (p : Pat) (seg : option Text) : bool :=
  match p, seg with
  | Lit s, Some t => bool_decide (t = text_of s)
  | OneOf l, Some t => existsb (fun s => bool_decide (t = text_of s)) l
  | Var, Some _ => true
  | Opt, _ => true
  | End_, None => true
  | _, _ => false
  end.
Definition path_matches (pats : list Pat) (path : list Text) : bool :=
  forallb (fun '(i, p) => seg_matches p (path !! i)) (enumerate pats).
Record Route := mkRoute { rt_method : string; rt_path : list Pat; rt_handler : (nat -> option Text) -> handler }.
Definition route (method : string) (path : list Pat) (h : (nat -> option Text) -> handler) : Route :=
  mkRoute method path h.
Definition script_kinds : Pat := OneOf ["address"; "scripthash"]%string.
Definition group_kinds : Pat := OneOf ["addresses"; "scripthashes"]%string.

(** The arms of the [match] in their order; [p i] is segment [i] where the pattern has one. *)
Definition routes (query_params : list (Text * Text)) (body : Bytes) : list Route :=
  let str (p : nat -> option Text) (i : nat) : Text := default [] (p i) in
  let get := route "GET" in
  let post := route "POST" in
  [ get [Lit "blocks"; Lit "tip"; Lit "hash"; End_; End_] (fun _ => tip_hash_);
    get [Lit "blocks"; Lit "tip"; Lit "height"; End_; End_] (fun _ => tip_height);
    get [Lit "block-template"; End_; End_; End_; End_] (fun _ => handle_block_template);
    post [Lit "electrum"; End_; End_; End_; End_] (fun _ => electrum_jsonrpc body);
    get [Lit "blocks"; Opt; End_; End_; End_] (fun p => get_blocks (p 1));
    get [Lit "block-height"; Var; End_; End_; End_] (fun p => block_height (str p 1));
    get [Lit "block"; Var; End_; End_; End_] (fun p => get_block (str p 1));
    get [Lit "block"; Var; Lit "status"; End_; End_] (fun p => block_status (str p 1));
    get [Lit "block"; Var; Lit "txids"; End_; End_] (fun p => block_txids (str p 1));
    get [Lit "internal"; Lit "block"; Var; Lit "txs"; End_] (fun p => internal_block_txs (str p 2));
    get [Lit "block"; Var; Lit "header"; End_; End_] (fun p => block_header_ (str p 1));
    get [Lit "block"; Var; Lit "raw"; End_; End_] (fun p => block_raw (str p 1));
    get [Lit "block"; Var; Lit "txid"; Var; End_] (fun p => block_txid (str p 1) (str p 3));
    get [Lit "block"; Var; Lit "txs"; Opt; End_] (fun p => block_txs (str p 1) (p 3));
    get [script_kinds; Var; End_; End_; End_] (fun p => script_stats (str p 0) (str p 1));
    get [script_kinds; Var; Lit "txs"; End_; End_] (fun p => script_txs query_params (str p 0) (str p 1));
    post [group_kinds; Lit "txs"; End_; End_; End_] (fun p => group_txs query_params body (str p 0));
    get [script_kinds; Var; Lit "txs"; Lit "chain"; Opt]
      (fun p => script_txs_chain query_params (str p 0) (str p 1) (p 4));
    get [script_kinds; Var; Lit "txs"; Lit "summary"; Opt]
      (fun p => script_summary query_params (str p 0) (str p 1) (p 4));
    post [group_kinds; Lit "txs"; Lit "summary"; Opt; End_] (fun p => group_summary query_params body (str p 0) (p 3));
    get [script_kinds; Var; Lit "txs"; Lit "mempool"; End_]
      (fun p => script_txs_mempool query_params (str p 0) (str p 1));
    get [script_kinds; Var; Lit "utxo"; End_; End_] (fun p => script_utxo (str p 0) (str p 1));
    get [Lit "address-prefix"; Var; End_; End_; End_] (fun p => address_prefix (str p 1));
    get [Lit "tx"; Var; End_; End_; End_] (fun p => get_tx (str p 1));
    post [Lit "internal"; Lit "txs"; End_; End_; End_] (fun _ => internal_txs body);
    get [Lit "tx"; Var; OneOf ["hex"; "raw"]%string; End_; End_] (fun p => tx_raw (str p 1) (str p 2));
    get [Lit "tx"; Var; Lit "status"; End_; End_] (fun p => tx_status (str p 1));
    get [Lit "tx"; Var; Lit "merkle-proof"; End_; End_] (fun p => tx_merkle_proof (str p 1));
    get [Lit "tx"; Var; Lit "merkleblock-proof"; End_; End_] (fun p => tx_merkleblock_proof (str p 1));
    get [Lit "tx"; Var; Lit "outspend"; Var; End_] (fun p => tx_outspend (str p 1) (str p 3));
    get [Lit "tx"; Var; Lit "outspends"; End_; End_] (fun p => tx_outspends (str p 1));
    get [Lit "broadcast"; End_; End_; End_; End_] (fun _ => broadcast false query_params body);
    post [Lit "tx"; End_; End_; End_; End_] (fun _ => broadcast true query_params body);
    post [Lit "txs"; Lit "test"; End_; End_; End_] (fun _ => txs_test query_params body);
    post [Lit "txs"; Lit "package"; End_; End_; End_] (fun _ => txs_package query_params body);
    get [Lit "txs"; Lit "outspends"; End_; End_; End_] (fun _ => txs_outspends query_params);
    post [Lit "internal"; Lit "txs"; Lit "outspends"; Lit "by-txid"; End_] (fun _ => outspends_by_txid body);
    post [Lit "internal"; Lit "txs"; Lit "outspends"; Lit "by-outpoint"; End_] (fun _ => outspends_by_outpoint body);
    get [Lit "mempool"; End_; End_; End_; End_] (fun _ => mempool_stats);
    get [Lit "mempool"; Lit "txids"; End_; End_; End_] (fun _ => mempool_txids);
    get [Lit "mempool"; Lit "txids"; Lit "page"; Opt; End_] (fun p => mempool_txids_page query_params (p 3));
    get [Lit "internal"; Lit "mempool"; Lit "txs"; Lit "all"; End_] (fun _ => mempool_txs_all);
    post [Lit "internal"; Lit "mempool"; Lit "txs"; End_; End_] (fun _ => mempool_txs body);
    get [Lit "internal"; Lit "mempool"; Lit "txs"; Opt; End_] (fun p => mempool_txs_page query_params (p 3));
    get [Lit "mempool"; Lit "recent"; End_; End_; End_] (fun _ => mempool_recent);
    get [Lit "fee-estimates"; End_; End_; End_; End_] (fun _ => fee_estimates) ].
Definition route_matches (method : Text) (path : list Text) (r : Route) : Prop :=
  bool_decide (method = text_of (rt_method r)) && path_matches (rt_path r) path = true.
#[export] Instance route_matches_dec method path r : Decision (route_matches method path r).
Proof. unfold route_matches. apply _. Defined.

Definition handle_request (method uri_path : Text) (uri_query : option Text) (body : Bytes) : handler :=
  let path := drop 1 (split_on 47 uri_path) in
  let query_params := match uri_query with Some value => parse_query value | None => [] end in
  match list_find (route_matches method path) (routes query_params body) with
  | Some (_, r) => rt_handler r (fun i => path !! i)
  | None => fail (mkHttpError NOT_FOUND (text_of "endpoint does not exist " ++ debug_str uri_path))
  end.
End rest.
