(* ===== verification/RestFacts.v ===== *)
(** * What the REST server shows

    The history endpoints page through one list, the unconfirmed transactions of a script
    followed by its confirmed ones from the newest to the oldest, whatever order the
    thread pool delivers a page in.  [prepare_txs] shows every transaction whose previous
    outputs are known, with these outputs, and no other.  [blocks] walks the best chain
    down.  A mempool cursor stops the summary endpoints. *)

From Stdlib Require Import SpecFloat.
From S2P Require Import Prelude Iter RocksDB DB Bitcoin HeaderList Rows Fetch Fees.
From S2P Require Import Indexer IndexerSync ChainQuery ChainView ChainBlocks ChainHistory Merkle.
From S2P Require Import Mempool MempoolIndex MempoolUpdate MempoolQueries Query QueryFacts.
From S2P Require Import Text Json Electrum ElectrumFacts Auth Sigops RestValues Rest.

(** ** Lists *)

Lemma filter_Forall {A} (P : A -> Prop) `{forall a, Decision (P a)} l : Forall P l -> filter P l = l.
Proof. induction 1 as [|a l Ha _ IH]; [done|]. by rewrite filter_cons_True, IH. Qed.

Section after.
Context {A K : Type} `{EqDecision K}.
Implicit Types (f : A -> K) (l : list A).

Lemma list_find_here f (x : K) l1 a l2 :
  f a = x -> x ∉ f <$> l1 -> list_find (fun t => t = x) (f <$> (l1 ++ a :: l2)) = Some (length l1, x).
Proof.
  intros <- Hn. apply list_find_Some. split; [|split; [done|]].
  - rewrite fmap_app. rewrite lookup_app_r by (by rewrite length_fmap). by rewrite length_fmap, Nat.sub_diag.
  - intros j y Hj Hlt. rewrite fmap_app, lookup_app_l in Hj by (by rewrite length_fmap).
    intros ->. apply Hn. by apply list_elem_of_lookup_2 in Hj.
Qed.
(** The page after the key of a member is what follows it. *)
Lemma after_key_mid f l1 a l2 : f a ∉ f <$> l1 -> after_key f (l1 ++ a :: l2) (Some (f a)) = l2.
Proof.
  intros Hn. unfold after_key. rewrite (list_find_here f (f a)) by done.
  rewrite drop_app_ge by lia. replace (S (length l1) - length l1) with 1 by lia. done.
Qed.
Lemma after_key_split f l x :
  NoDup (f <$> l) -> x ∈ f <$> l ->
  exists l1 a l2, (l = l1 ++ a :: l2) /\ f a = x /\ (x ∉ f <$> l1) /\ after_key f l (Some x) = l2.
Proof.
  intros Hnd (a & -> & Ha)%list_elem_of_fmap. apply list_elem_of_split in Ha as (l1 & l2 & ->).
  rewrite fmap_app in Hnd. apply NoDup_app in Hnd as (_ & Hd & _).
  assert (f a ∉ f <$> l1) as Hn by (intros Hx; apply (Hd _ Hx); rewrite fmap_cons; by left).
  exists l1, a, l2. by rewrite after_key_mid.
Qed.
(** Paging over two lists one after the other. *)
Lemma after_key_app_l f l l' x :
  NoDup (f <$> l) -> x ∈ f <$> l -> after_key f (l ++ l') (Some x) = after_key f l (Some x) ++ l'.
Proof.
  intros Hnd Hx. destruct (after_key_split f l x Hnd Hx) as (l1 & a & l2 & -> & <- & Hn & ->).
  rewrite <- (assoc app). by apply after_key_mid.
Qed.
Lemma after_key_app_r f l l' x :
  NoDup (f <$> l') -> x ∉ f <$> l -> x ∈ f <$> l' -> after_key f (l ++ l') (Some x) = after_key f l' (Some x).
Proof.
  intros Hnd Hn Hx. destruct (after_key_split f l' x Hnd Hx) as (l1 & a & l2 & -> & <- & Hn1 & ->).
  rewrite (assoc app). apply after_key_mid. set_solver.
Qed.
(** A filter that keeps the member and all that follows it does not change the page. *)
Lemma after_key_filter (P : A -> Prop) `{forall a, Decision (P a)} f l x :
  NoDup (f <$> l) -> x ∈ f <$> l -> (forall a, a ∈ l -> f a = x -> P a) -> Forall P (after_key f l (Some x)) ->
  after_key f (filter P l) (Some x) = after_key f l (Some x).
Proof.
  intros Hnd Hx Ha HP. destruct (after_key_split f l x Hnd Hx) as (l1 & a & l2 & -> & Hf & Hn1 & Hl).
  rewrite Hl in *. rewrite filter_app, filter_cons_True by (apply Ha; set_solver).
  rewrite (filter_Forall P l2) by done. subst x. apply after_key_mid.
  intros (a' & Hin & [_ Hin']%list_elem_of_filter)%list_elem_of_fmap. apply Hn1. apply list_elem_of_fmap. eauto.
Qed.
End after.

Lemma after_key_fmap {A B K} `{EqDecision K} (g : A -> B) (f : B -> K) l x :
  after_key f (g <$> l) x = g <$> after_key (fun a => f (g a)) l x.
Proof.
  unfold after_key. destruct x as [x|]; [|done]. rewrite <- list_fmap_compose.
  change (f ∘ g <$> l) with ((fun a => f (g a)) <$> l).
  destruct (list_find _ _) as [[k y]|]; [|done]. by rewrite fmap_drop.
Qed.

(** Running a handler. *)
Lemma H_done {D A B} (m : H D A) (f : A -> H D B) q q' a : m q = (q', Done a) -> (m ≫= f) q = f a q'.
Proof. unfold mbind, H_bind. by intros ->. Qed.
Lemma ask_done {D A} (f : Query D -> result A) q a : f q = Ok a -> ask f q = (q, Done a).
Proof. unfold ask. by intros ->. Qed.

(** ** Pages of the chain *)

#[export] Instance page_le_trans : Transitive page_le.
Proof. intros a b c. unfold page_le. lia. Qed.
#[export] Instance page_le_total : Total page_le.
Proof. intros a b. unfold page_le. lia. Qed.

Section pages.
Context {D : Type} {RDB : RocksDB D} {RDBL : RocksDBLaws D}.
Context {BL : BitcoinLib} {BLaws : BitcoinLaws} {W : Wincode} {WL : WincodeLaws}.
Context (cfg : IndexerConfig) (block_of : BlockHash -> Block).
Implicit Types (q : Query D) (c : ChainQuery D).
Abbreviation item := (Transaction * BlockId * Z)%type.
Abbreviation query_synced := (query_synced cfg block_of).
Abbreviation listing := (listing cfg block_of).
Abbreviation chain_of := (chain_of block_of).

(** The positions of the blocks fit their field, and a block has no transaction twice. *)
Definition positions_fit c : Prop :=
  forall b, b ∈ chain_of c -> NoDup (txdata (be_block b)) /\ (Z.of_nat (length (txdata (be_block b))) < u16_mod)%Z.

Definition page_item (i : item) : PageItem := let '(tx, blockid, tx_position) := i in (tx, Some blockid, tx_position).
Lemma page_le_item i i' : page_le (page_item i) (page_item i') <-> item_newer i i'.
Proof. destruct i as [[tx b] p], i' as [[tx' b'] p']. unfold page_le, item_newer, page_height. cbn. lia. Qed.

(** An item is known by its transaction, and by its height and position. *)
Definition chain_item c (i : item) : Prop :=
  exists b idx, b ∈ chain_of c /\ txdata (be_block b) !! idx = Some i.1.1 /\
    i.1.2 = BlockId_from (be_entry b) /\ i.2 = as_u16 (Z.of_nat idx).
Lemma small_u16 n : (Z.of_nat n < u16_mod)%Z -> as_u16 (Z.of_nat n) = Z.of_nat n.
Proof. intros H. apply as_u16_id. unfold is_u16. lia. Qed.
Lemma item_by_txid c i i' :
  query_synced c -> positions_fit c -> chain_item c i -> chain_item c i' -> item_txid i = item_txid i' -> i = i'.
Proof.
  intros Hs Hp (b & idx & Hb & Htx & H2 & H3) (b' & idx' & Hb' & Htx' & H2' & H3') Hid.
  destruct (cs_tx _ (sy_sane _ _ _ Hs) b b' i.1.1 i'.1.1) as [<- Heq]; try done.
  1-2: by eapply list_elem_of_lookup_2.
  destruct (Hp b Hb) as [Hnd _]. rewrite <- Heq in Htx'. pose proof (NoDup_lookup _ _ _ _ Hnd Htx Htx') as ->.
  destruct i as [[??]?], i' as [[??]?]. cbn in *. congruence.
Qed.
Lemma item_by_position c i i' :
  query_synced c -> positions_fit c -> chain_item c i -> chain_item c i' ->
  bid_height i.1.2 = bid_height i'.1.2 -> i.2 = i'.2 -> i = i'.
Proof.
  intros Hs Hp (b & idx & Hb & Htx & H2 & H3) (b' & idx' & Hb' & Htx' & H2' & H3') Hh Hpos.
  rewrite H2, H2' in Hh. cbn in Hh.
  pose proof (cs_height _ (sy_sane _ _ _ Hs) b b' Hb Hb' Hh) as <-.
  destruct (Hp b Hb) as [_ Hlen].
  pose proof (lookup_lt_Some _ _ _ Htx). pose proof (lookup_lt_Some _ _ _ Htx').
  rewrite !small_u16 in * by lia. assert (idx = idx') as <- by lia.
  destruct i as [[??]?], i' as [[??]?]. cbn in *. congruence.
Qed.
Lemma listing_items c shs start L i : listing c shs start L -> i ∈ L -> chain_item c i.
Proof. intros HL Hi. exact (li_block _ _ _ _ _ _ HL i Hi). Qed.
Lemma newer_antisym c i i' :
  query_synced c -> positions_fit c -> chain_item c i -> chain_item c i' ->
  item_newer i i' -> item_newer i' i -> i = i'.
Proof. intros Hs Hp Hi Hi' Hn Hn'. unfold item_newer in *. apply (item_by_position c); try done; lia. Qed.

(** Sorting a page restores the order of the chain. *)
Lemma sorted_page c shs start L l (par_order : list PageItem -> list PageItem) :
  query_synced c -> positions_fit c -> (forall l, par_order l ≡ₚ l) -> listing c shs start L ->
  StronglySorted item_newer l -> (forall i, i ∈ l -> i ∈ L) ->
  merge_sort page_le (par_order (map page_item l)) = map page_item l.
Proof.
  intros Hs Hp Hpar HL Hsort Hsub.
  apply (StronglySorted_unique_strong page_le).
  - intros x x' Hx Hx' H1 H2.
    rewrite merge_sort_Permutation, Hpar in Hx.
    apply elem_of_map in Hx as (i & -> & Hi), Hx' as (i' & -> & Hi').
    rewrite page_le_item in H1, H2. f_equal.
    apply (newer_antisym c); eauto using listing_items.
  - by apply StronglySorted_merge_sort; apply _.
  - clear -Hsort. induction Hsort as [|i l Hs IH Hf]; cbn; constructor; [done|].
    apply Forall_forall. intros x (i' & -> & Hi')%elem_of_map. apply page_le_item.
    rewrite Forall_forall in Hf. by apply Hf.
  - by rewrite merge_sort_Permutation, Hpar.
Qed.

(** Scanning from the block of a member keeps it and all that is older. *)
Definition from_height (h : nat) (i : item) : Prop := bid_height i.1.2 <= h.
#[export] Instance from_height_dec h i : Decision (from_height h i).
Proof. unfold from_height. apply _. Defined.
Lemma listing_from c shs h L L' :
  query_synced c -> positions_fit c -> (Z.of_nat h < u32_mod - 1)%Z ->
  listing c shs None L -> listing c shs (Some (Z.of_nat h)) L' ->
  L' = filter (from_height h) L.
Proof.
  intros Hs Hp Hh HL HL'.
  assert (forall p, (exists sh, sh ∈ shs /\ script_event cfg block_of c sh p) -> forall i, chain_item c i ->
    item_txid i = row_get_txid p.1 -> Z.of_nat (bid_height i.1.2) = confirmed_height p.1 /\
      (hk_tx_position p.1 < u16_mod - 1)%Z) as Hev.
  { intros p (sh & _ & Hp1) i Hi Hid.
    destruct (event_item cfg block_of c sh p Hs Hp1) as (j & b & idx & Hb & Htx & Hjd & Hj2 & _ & Hj3 & Hj4 & Hj5).
    assert (i = j) as ->.
    { apply (item_by_txid c); try done; [exists b, idx; done|]. unfold item_txid at 2. congruence. }
    split; [done|]. rewrite <- Hj4, Hj3. destruct (Hp b Hb) as [_ Hlen].
    pose proof (lookup_lt_Some _ _ _ Htx). rewrite small_u16 by lia. lia. }
  apply (StronglySorted_unique_strong item_newer).
  - intros x x' Hx [_ Hx']%list_elem_of_filter. apply (newer_antisym c); eauto using listing_items.
  - exact (li_newest _ _ _ _ _ _ HL').
  - apply StronglySorted_filter, (li_newest _ _ _ _ _ _ HL).
  - assert (NoDup L) as HndL by (by apply (NoDup_fmap_1 item_txid), (li_unique _ _ _ _ _ _ HL)).
    assert (NoDup L') as HndL' by (by apply (NoDup_fmap_1 item_txid), (li_unique _ _ _ _ _ _ HL')).
    apply NoDup_Permutation; [done|by apply NoDup_filter|]. intros i. rewrite list_elem_of_filter.
    assert (forall M start M' start', listing c shs start M -> listing c shs start' M' -> i ∈ M ->
      (forall p, scanned cfg block_of c shs start p -> row_get_txid p.1 = item_txid i ->
        scanned cfg block_of c shs start' p) -> i ∈ M') as Hmove.
    { intros M start M' start' HM HM' Hi Himp.
      assert (item_txid i ∈ item_txid <$> M') as (i' & Hid & Hi')%list_elem_of_fmap.
      { apply (li_exact _ _ _ _ _ _ HM'). assert (item_txid i ∈ item_txid <$> M) as Hin by (apply list_elem_of_fmap; eauto).
        apply (li_exact _ _ _ _ _ _ HM) in Hin as (p & Hsc & Hid). exists p. auto. }
      assert (i = i') as -> by (apply (item_by_txid c); eauto using listing_items). done. }
    split.
    + intros Hi. split.
      * assert (item_txid i ∈ item_txid <$> L') as Hin by (apply list_elem_of_fmap; eauto).
        apply (li_exact _ _ _ _ _ _ HL') in Hin as (p & (sh & Hsh & Hp1 & Hin) & Hid).
        destruct (Hev p ltac:(eauto) i ltac:(eauto using listing_items) (eq_sym Hid)). unfold from_height. cbn in Hin. lia.
      * apply (Hmove L' (Some (Z.of_nat h)) L None); try done. intros p (sh & Hsh & Hp1 & Hin) _.
        exists sh. split_and!; try done. cbn in *. lia.
    + intros [Hfrom Hi]. apply (Hmove L None L' (Some (Z.of_nat h))); try done. intros p (sh & Hsh & Hp1 & Hin) Hid.
      destruct (Hev p ltac:(eauto) i ltac:(eauto using listing_items) (eq_sym Hid)) as [? ?].
      exists sh. split_and!; try done. unfold from_height in Hfrom. cbn. lia.
Qed.

(** ** One list of unconfirmed and confirmed transactions *)

Definition entry_txid (e : TxEntry) : Txid := get_txid e.1.
Definition pool_entry (tx : Transaction) : TxEntry := (tx, None).
Definition chain_entry (i : item) : TxEntry := (i.1.1, Some i.1.2).
Lemma page_item_entry l : map fst (map page_item l) = map chain_entry l.
Proof. rewrite map_map. apply map_ext. by intros [[tx b] p]. Qed.

(** What the two sources of a merged history answer for one query. *)
Record history_sources (par_order : list PageItem -> list PageItem) q
    (mempool_history : Mempool -> option Txid -> nat -> result (list Transaction))
    (chain_history : ChainQuery D -> option Txid -> option Z -> nat -> iter item)
    (U : list Transaction) (L : list item) : Prop := {
  hs_pool last limit : (forall t, last = Some t -> t ∈ get_txid <$> U) ->
    mempool_history (q_mempool q) last limit = Ok (take limit (after_key get_txid U last));
  hs_newest limit : chain_history (q_chain q) None None limit = it_of (take limit L);
  hs_after i limit : i ∈ L ->
    chain_history (q_chain q) (Some (item_txid i)) (Some (Z.of_nat (bid_height i.1.2))) limit =
      it_of (take limit (after_key item_txid L (Some (item_txid i))));
  hs_sorted l : StronglySorted item_newer l -> (forall i, i ∈ l -> i ∈ L) ->
    merge_sort page_le (par_order (map page_item l)) = map page_item l;
  hs_newer : StronglySorted item_newer L;
  hs_unique : NoDup (entry_txid <$> map pool_entry U ++ map chain_entry L);
  hs_in_pool tx : tx ∈ U -> find_txid (get_txid tx) q = Ok InMempool;
  hs_in_chain i : i ∈ L -> find_txid (item_txid i) q = Ok (InChain (Z.of_nat (bid_height i.1.2)));
}.

Section merged.
Context (par_order : list PageItem -> list PageItem) (q : Query D).
Context (mempool_history : Mempool -> option Txid -> nat -> result (list Transaction)).
Context (chain_history : ChainQuery D -> option Txid -> option Z -> nat -> iter item).
Context (U : list Transaction) (L : list item).
Context (Hsrc : history_sources par_order q mempool_history chain_history U L).

Lemma confirmed_page_of (history : ChainQuery D -> iter item) l :
  history (q_chain q) = it_of l -> StronglySorted item_newer l -> (forall i, i ∈ l -> i ∈ L) ->
  confirmed_page par_order history q = (q, Done (map page_item l)).
Proof.
  intros Hh Hs Hsub. unfold confirmed_page, mbind, H_bind, ask. rewrite Hh.
  assert (it_collect (it_of l) = Ok l) as -> by apply it_collect_of. cbn [outcome_of].
  unfold mret, H_ret. do 2 f_equal. by apply (hs_sorted _ _ _ _ _ _ Hsrc).
Qed.
Lemma merged_tail (txs : list TxEntry) location after start l max :
  chain_history (q_chain q) (confirmed_after_txid location after) start (max - length txs) = it_of (take (max - length txs) l) ->
  StronglySorted item_newer l -> (forall i, i ∈ l -> i ∈ L) -> length txs <= max ->
  (if decide (length txs < max) then
     confirmed_txs ← confirmed_page par_order (fun chain =>
       chain_history chain (confirmed_after_txid location after) start (max - length txs));
     mret (txs ++ map fst confirmed_txs)
   else mret txs : H D (list TxEntry)) q = (q, Done (take max (txs ++ map chain_entry l))).
Proof.
  intros Hh Hs Hsub Hle. case_decide as Hlt.
  - unfold mbind, H_bind. rewrite (confirmed_page_of _ _ Hh).
    + unfold mret, H_ret. rewrite page_item_entry, take_app, (take_ge txs), <- !firstn_map by lia. done.
    + rewrite <- (take_drop (max - length txs) l) in Hs. by apply StronglySorted_app_1_l in Hs.
    + intros i Hi. apply Hsub. by apply (subseteq_take _ _ _ Hi).
  - unfold mret, H_ret. assert (length txs = max) as <- by lia. by rewrite take_app_length.
Qed.

Definition full_history : list TxEntry := map pool_entry U ++ map chain_entry L.
Lemma pool_keys : entry_txid <$> map pool_entry U = get_txid <$> U.
Proof. change (map pool_entry U) with (pool_entry <$> U). by rewrite <- list_fmap_compose. Qed.
Lemma chain_keys : entry_txid <$> map chain_entry L = item_txid <$> L.
Proof. change (map chain_entry L) with (chain_entry <$> L). by rewrite <- list_fmap_compose. Qed.
Lemma keys_unique : NoDup (get_txid <$> U) /\ NoDup (item_txid <$> L) /\
  forall t, t ∈ get_txid <$> U -> t ∈ item_txid <$> L -> False.
Proof.
  pose proof (hs_unique _ _ _ _ _ _ Hsrc) as Hnd. rewrite fmap_app, pool_keys, chain_keys in Hnd.
  apply NoDup_app in Hnd as (? & Hd & ?). split; [done|]. split; [done|]. intros t H1 H2. by apply (Hd t).
Qed.

(** After a cursor among the confirmed transactions only confirmed ones follow. *)
Lemma merged_after_chain i max :
  i ∈ L -> merged_history par_order mempool_history chain_history (Some (item_txid i)) max q =
    (q, Done (take max (after_key entry_txid full_history (Some (item_txid i))))).
Proof.
  intros Hi. destruct keys_unique as (HU & HL & Hd).
  assert (item_txid i ∈ item_txid <$> L) as Hin by (apply list_elem_of_fmap; eauto).
  unfold full_history. rewrite after_key_app_r.
  2: { by rewrite chain_keys. } 2: { rewrite pool_keys. intros Hx. by apply (Hd _ Hx). } 2: { by rewrite chain_keys. }
  change (map chain_entry L) with (chain_entry <$> L). rewrite after_key_fmap. change (fun a => entry_txid (chain_entry a)) with item_txid.
  unfold merged_history. rewrite (H_done _ _ q q (InChain (Z.of_nat (bid_height i.1.2)))) by
    (apply ask_done, (hs_in_chain _ _ _ _ _ _ Hsrc i Hi)).
  rewrite (H_done _ _ q q ([], Some (Z.of_nat (bid_height i.1.2)))) by done.
  rewrite (merged_tail [] (InChain (Z.of_nat (bid_height i.1.2))) (Some (item_txid i)) _ (after_key item_txid L (Some (item_txid i)))).
  all: cbn [length app confirmed_after_txid]; try lia.
  - done.
  - by rewrite (hs_after _ _ _ _ _ _ Hsrc i).
  - destruct (after_key_split item_txid L (item_txid i) HL Hin) as (l1 & a & l2 & HeqL & _ & _ & ->).
    pose proof (hs_newer _ _ _ _ _ _ Hsrc) as Hs. rewrite HeqL in Hs.
    by apply StronglySorted_app_1_r, StronglySorted_cons in Hs as [_ Hs].
  - intros j Hj. by apply after_key_sub in Hj.
Qed.
(** After a cursor among the unconfirmed ones, or from the start. *)
Lemma merged_after_pool last max :
  (forall t, last = Some t -> t ∈ get_txid <$> U) ->
  merged_history par_order mempool_history chain_history last max q =
    (q, Done (take max (after_key entry_txid full_history last))).
Proof.
  intros Hl. destruct keys_unique as (HU & HL & Hd).
  assert (after_key entry_txid full_history last = map pool_entry (after_key get_txid U last) ++ map chain_entry L) as ->.
  { unfold full_history. change (map pool_entry U) with (pool_entry <$> U).
    change (map pool_entry (after_key get_txid U last)) with (pool_entry <$> after_key get_txid U last).
    destruct last as [t|]; [|done]. rewrite after_key_app_l.
    - by rewrite after_key_fmap.
    - by rewrite <- pool_keys in HU.
    - specialize (Hl t eq_refl). by rewrite <- pool_keys in Hl. }
  assert (locate last q = (q, Done InMempool)) as Hloc.
  { unfold locate. destruct last as [t|]; [|done]. unfold ask.
    destruct (proj1 (list_elem_of_fmap _ _ _) (Hl t eq_refl)) as (tx & -> & Htx).
    by rewrite (hs_in_pool _ _ _ _ _ _ Hsrc tx Htx). }
  unfold merged_history. rewrite (H_done _ _ _ _ _ Hloc).
  rewrite (H_done _ _ q q (map pool_entry (take max (after_key get_txid U last)), None)).
  2: { rewrite (H_done _ _ q q (take max (after_key get_txid U last))); [done|].
       apply ask_done, (hs_pool _ _ _ _ _ _ Hsrc last max Hl). }
  rewrite (merged_tail _ InMempool last None L).
  - do 2 f_equal. set (l := after_key get_txid U last). change (fun tx => (tx, None)) with pool_entry.
    rewrite <- firstn_map. destruct (decide (length l <= max)) as [Hle|Hgt].
    + by rewrite (take_ge (map pool_entry l)) by (by rewrite length_map).
    + rewrite !take_app, take_take, length_take, length_map, Nat.min_id.
      replace (max - length l) with 0 by lia. replace (max - max `min` length l) with 0 by lia. done.
  - apply (hs_newest _ _ _ _ _ _ Hsrc).
  - apply (hs_newer _ _ _ _ _ _ Hsrc).
  - done.
  - rewrite length_map, length_take. lia.
Qed.
End merged.

(** No transaction is both stored in the mempool and confirmed. *)
Definition pool_disjoint q : Prop :=
  forall b tx, b ∈ chain_of (q_chain q) -> tx ∈ txdata (be_block b) -> txstore (q_mempool q) !! get_txid tx = None.

Lemma Forall2_functional {A B} (R : A -> B -> Prop) l k k' :
  (forall a b b', R a b -> R a b' -> b = b') -> Forall2 R l k -> Forall2 R l k' -> k = k'.
Proof.
  intros HR H. revert k'. induction H as [|a b l k Hab _ IH]; intros k' H'; inversion H'; subst; [done|].
  f_equal; eauto.
Qed.

Section sources.
Context (mcfg : MempoolConfig) (par_order : list PageItem -> list PageItem) (q : Query D).
Context (A : gmap Txid (Transaction * gmap Z TxOut)) (shs : list FullHash) (ids : list Txid).
Context (Hsync : query_synced (q_chain q)) (Hfull : full_mode cfg (q_chain q)) (Hfit : positions_fit (q_chain q)).
Context (Hpar : forall l, par_order l ≡ₚ l) (Href : refines mcfg (q_mempool q) A) (Hdisj : pool_disjoint q).
Context (Hids : NoDup ids) (HidsA : forall t, t ∈ ids -> is_Some (A !! t)).
Context (rows : option Z -> iter TxHistoryRow).
Context (Hrows : forall start, start_ok start -> reads cfg block_of (q_chain q) shs start (rows start)).

Lemma item_height_small L i :
  listing (q_chain q) shs None L -> i ∈ L -> (Z.of_nat (bid_height i.1.2) < u32_mod - 1)%Z.
Proof.
  intros HL Hi. assert (item_txid i ∈ item_txid <$> L) as Hin by (apply list_elem_of_fmap; eauto).
  apply (li_exact _ _ _ _ _ _ HL) in Hin as (p & (sh & _ & Hp & Hsc) & Hid).
  destruct (event_item cfg block_of (q_chain q) sh p Hsync Hp) as (j & Hj).
  destruct Hj as (b & idx & Hb & Htx & Hjd & Hj2 & _ & Hj3 & _ & Hj5).
  assert (i = j) as ->.
  { apply (item_by_txid (q_chain q)); eauto using listing_items; [exists b, idx; done|]. unfold item_txid at 2. congruence. }
  cbn in Hsc. lia.
Qed.
Lemma find_in_chain L i :
  listing (q_chain q) shs None L -> i ∈ L -> find_txid (item_txid i) q = Ok (InChain (Z.of_nat (bid_height i.1.2))).
Proof.
  intros HL Hi. destruct (listing_items _ _ _ _ _ HL Hi) as (b & idx & Hb & Htx & H2 & _).
  apply list_elem_of_lookup_2 in Htx. unfold find_txid, Mempool.lookup_txn, item_txid. rewrite (Hdisj b i.1.1) by done.
  rewrite (tx_confirming_block_in cfg block_of (q_chain q) b i.1.1) by done. cbn [mbind result_bind]. do 2 f_equal.
  rewrite <- H2. rewrite as_u32_id; [done|]. rewrite H2. cbn. by apply br_height, (cs_range _ (sy_sane _ _ _ Hsync)).
Qed.
Lemma chain_after L i limit :
  listing (q_chain q) shs None L -> i ∈ L ->
  history_page (q_chain q) (rows (Some (Z.of_nat (bid_height i.1.2)))) (Some (item_txid i)) limit =
    it_of (take limit (after_key item_txid L (Some (item_txid i)))).
Proof.
  intros HL Hi. pose proof (item_height_small L i HL Hi) as Hh.
  assert (start_ok (Some (Z.of_nat (bid_height i.1.2)))) as Hst by (unfold start_ok, is_u32, u32_mod in *; lia).
  destruct (reads_listing cfg block_of (q_chain q) shs _ _ Hsync Hfull (Hrows _ Hst)) as (L' & HL' & Hp & _).
  rewrite Hp, (listing_from _ _ _ L L' Hsync Hfit Hh HL HL'). do 2 f_equal.
  apply after_key_filter.
  - exact (li_unique _ _ _ _ _ _ HL).
  - apply list_elem_of_fmap; eauto.
  - intros a Ha Hid. assert (a = i) as -> by (apply (item_by_txid (q_chain q)); eauto using listing_items).
    unfold from_height. lia.
  - destruct (after_key_split item_txid L (item_txid i)) as (l1 & a & l2 & Heq & Hid & _ & ->).
    + exact (li_unique _ _ _ _ _ _ HL).
    + apply list_elem_of_fmap; eauto.
    + assert (a ∈ L) as Ha by (rewrite Heq; set_solver).
      assert (a = i) as -> by (apply (item_by_txid (q_chain q)); eauto using listing_items).
      pose proof (li_newest _ _ _ _ _ _ HL) as Hs. rewrite Heq in Hs.
      apply StronglySorted_app_1_r, StronglySorted_cons in Hs as [Hf _].
      eapply Forall_impl; [exact Hf|]. unfold item_newer, from_height. lia.
Qed.

Lemma sources_exist :
  exists (U : list Transaction) L, listing (q_chain q) shs None L /\ Forall2 (fun t tx => txstore (q_mempool q) !! t = Some tx) ids U /\
    forall mempool_history chain_history,
      (forall last limit, mempool_history (q_mempool q) last limit = history_tail (q_mempool q) ids last limit) ->
      (forall last start limit, chain_history (q_chain q) last start limit = history_page (q_chain q) (rows start) last limit) ->
      history_sources par_order q mempool_history chain_history U L.
Proof.
  set (stored := fun (t : Txid) (tx : Transaction) => txstore (q_mempool q) !! t = Some tx).
  destruct (history_tail_after mcfg (q_mempool q) A ids None (length ids) Href Hids HidsA) as (U & _ & HU).
  change (Forall2 stored (take (length ids) ids) U) in HU. rewrite take_ge in HU by done.
  assert (get_txid <$> U = ids) as HUk.
  { clear -HU Href. induction HU as [|t tx ids U Ht _ IH]; [done|]. rewrite fmap_cons, IH.
    by destruct (rf_keys _ _ _ Href t tx Ht) as [-> _]. }
  destruct (reads_listing cfg block_of (q_chain q) shs None _ Hsync Hfull (Hrows None I)) as (L & HL & Hp & _).
  exists U, L. split; [done|]. split; [done|]. intros mh ch Hmh Hch. split.
  - intros last limit _. rewrite Hmh.
    destruct (history_tail_after mcfg (q_mempool q) A ids last limit Href Hids HidsA) as (txs & -> & Htxs). f_equal.
    eapply (Forall2_functional stored); [|exact Htxs|]; [unfold stored; congruence|]. apply Forall2_take.
    apply after_key_Forall2; [done|]. by rewrite list_fmap_id.
  - intros limit. rewrite Hch, Hp. done.
  - intros i limit Hi. rewrite Hch. by apply chain_after.
  - intros l Hs Hsub. by apply (sorted_page (q_chain q) shs None L).
  - exact (li_newest _ _ _ _ _ _ HL).
  - rewrite fmap_app, pool_keys, chain_keys. apply NoDup_app. split; [by rewrite HUk|]. split; [|exact (li_unique _ _ _ _ _ _ HL)].
    intros t Ht (i & -> & Hi)%list_elem_of_fmap. rewrite HUk in Ht. destruct (HidsA _ Ht) as [p Hp'].
    apply elem_of_dom_2, (rf_stored _ _ _ Href), elem_of_dom in Hp' as [tx Htx].
    destruct (listing_items _ _ _ _ _ HL Hi) as (b & idx & Hb & Hidx & _).
    unfold item_txid in Htx. rewrite (Hdisj b i.1.1) in Htx; [done..|by eapply list_elem_of_lookup_2].
  - intros tx Htx. assert (get_txid tx ∈ ids) as Hin by (rewrite <- HUk; apply list_elem_of_fmap; eauto).
    destruct (HidsA _ Hin) as [p Hp']. apply elem_of_dom_2, (rf_stored _ _ _ Href), elem_of_dom in Hp' as [tx' Htx'].
    unfold find_txid, Mempool.lookup_txn. by rewrite Htx'.
  - intros i Hi. by apply (find_in_chain L).
Qed.
End sources.
End pages.

Section history_pages.
Context {D : Type} {RDB : RocksDB D} {RDBL : RocksDBLaws D}.
Context {BL : BitcoinLib} {BLaws : BitcoinLaws} {W : Wincode} {WL : WincodeLaws}.
Context (cfg : IndexerConfig) (block_of : BlockHash -> Block).
Context (mcfg : MempoolConfig) (par_order : list PageItem -> list PageItem).
Implicit Types (q : Query D) (A : gmap Txid (Transaction * gmap Z TxOut)).

(** The mempool and the chain agree, as far as the pages depend on it. *)
Record serves q (A : gmap Txid (Transaction * gmap Z TxOut)) : Prop := {
  se_synced : query_synced cfg block_of (q_chain q);
  se_full : full_mode cfg (q_chain q);
  se_fit : positions_fit block_of (q_chain q);
  se_pool : refines mcfg (q_mempool q) A;
  se_disjoint : pool_disjoint block_of q;
}.
(** An accepted transaction touches one of the scripts. *)
Definition pool_touches A (shs : list FullHash) (txid : Txid) : Prop :=
  exists sh p e, sh ∈ shs /\ A !! txid = Some p /\ (sh, e) ∈ tx_entries mcfg txid p.
(** The list behind the endpoints: the unconfirmed transactions of some scripts, then
    the confirmed ones newest first. *)
Record history_of q A (shs : list FullHash) (l : list TxEntry) : Prop := {
  ho_unique : NoDup (entry_txid <$> l);
  ho_parts : exists U L, l = full_history U L /\ listing cfg block_of (q_chain q) shs None L /\
    (forall t, t ∈ get_txid <$> U <-> pool_touches A shs t) /\
    Forall (fun tx => txstore (q_mempool q) !! get_txid tx = Some tx) U;
}.
(** A merged history answers every page of that list. *)
Definition answers_pages q mempool_history chain_history (l : list TxEntry) : Prop :=
  forall after max, (forall t, after = Some t -> t ∈ entry_txid <$> l) ->
    merged_history par_order mempool_history chain_history after max q =
      (q, Done (take max (after_key entry_txid l after))).

Lemma group_ids m A shs :
  refines mcfg m A -> NoDup (history_txids_iter_group m shs) /\
  forall t, t ∈ history_txids_iter_group m shs <-> pool_touches A shs t.
Proof.
  intros Hr. unfold history_txids_iter_group, unique_txids_of.
  set (es := concat (omap (fun sh => mp_history m !! sh) shs)). split.
  { pose proof (unique_by_NoDup (@id Txid) (map info_get_txid es)) as Hn. by rewrite list_fmap_id in Hn. }
  assert (forall e, e ∈ es <-> exists sh, sh ∈ shs /\ e ∈ entries_of m sh) as Hes.
  { intros e. unfold es. rewrite list_elem_of_In, in_concat. split.
    - intros (l & Hl & He). apply list_elem_of_In in Hl, He. apply list_elem_of_omap in Hl as (sh & Hsh & Hm).
      exists sh. split; [done|]. unfold entries_of. by rewrite Hm.
    - intros (sh & Hsh & He). unfold entries_of in He. destruct (mp_history m !! sh) as [l|] eqn:E; [|by apply elem_of_nil in He].
      exists l. rewrite <- !list_elem_of_In. split; [|done]. apply list_elem_of_omap. eauto. }
  intros t. unfold pool_touches. split.
  - intros Ht%unique_by_elem. apply elem_of_map in Ht as (e & -> & (sh & Hsh & He)%Hes).
    apply (entries_elem mcfg m A sh e Hr), hist_of_elem in He as (u & p & Hp & He).
    pose proof (tx_entries_txid _ _ _ _ He) as Hu. cbn in Hu. rewrite Hu. eauto 6.
  - intros (sh & p & e & Hsh & Hp & He).
    destruct (unique_by_cover id (map info_get_txid es) t) as (y & Hy & Heq); [|by cbn in Heq; subst].
    apply elem_of_map. exists e. split; [by apply tx_entries_txid in He|]. apply Hes. exists sh. split; [done|].
    apply (entries_elem mcfg m A sh e Hr), hist_of_elem. eauto.
Qed.

Lemma merged_pages q A shs ids rows mempool_history chain_history :
  serves q A -> (forall l, par_order l ≡ₚ l) ->
  NoDup ids -> (forall t, t ∈ ids <-> pool_touches A shs t) ->
  (forall start, start_ok start -> reads cfg block_of (q_chain q) shs start (rows start)) ->
  (forall last limit, mempool_history (q_mempool q) last limit = history_tail (q_mempool q) ids last limit) ->
  (forall last start limit, chain_history (q_chain q) last start limit = history_page (q_chain q) (rows start) last limit) ->
  exists l, history_of q A shs l /\ answers_pages q mempool_history chain_history l.
Proof.
  intros [Hs Hf Hfit Hr Hd] Hpar Hnd Hids Hrows Hmh Hch.
  destruct (sources_exist cfg block_of mcfg par_order q A shs ids Hs Hf Hfit Hpar Hr Hd Hnd) with (rows := rows)
    as (U & L & HL & HU & Hsrc); [|done|].
  { intros t (sh & p & e & _ & -> & _)%Hids. by eexists. }
  specialize (Hsrc mempool_history chain_history Hmh Hch).
  assert (get_txid <$> U = ids) as HUk.
  { clear -HU Hr. induction HU as [|t tx ids U Ht _ IH]; [done|]. rewrite fmap_cons, IH.
    by destruct (rf_keys _ _ _ Hr t tx Ht) as [-> _]. }
  exists (full_history U L). split; [split|].
  - exact (hs_unique _ _ _ _ _ _ Hsrc).
  - exists U, L. split; [done|]. split; [done|]. split; [by rewrite HUk|].
    apply Forall_forall. intros tx (k & Hk)%list_elem_of_lookup.
    destruct (Forall2_lookup_r _ _ _ _ _ HU Hk) as (t & _ & Ht). by destruct (rf_keys _ _ _ Hr t tx Ht) as [-> _].
  - intros after max Hafter. unfold full_history in Hafter. setoid_rewrite fmap_app in Hafter.
    destruct after as [t|]; [|by apply (merged_after_pool _ _ _ _ _ _ Hsrc)].
    destruct (proj1 (elem_of_app _ _ _) (Hafter t eq_refl)) as [Ht|Ht].
    + rewrite pool_keys in Ht. apply (merged_after_pool _ _ _ _ _ _ Hsrc). by intros ? [= <-].
    + rewrite chain_keys in Ht. apply list_elem_of_fmap in Ht as (i & -> & Hi).
      by apply (merged_after_chain _ _ _ _ _ _ Hsrc).
Qed.

(** C25: The history of a script pages through one list: the accepted unconfirmed
    transactions that touch the script, then the confirmed ones newest first, each
    once.  Without a cursor a page starts that list; after a transaction of the list,
    unconfirmed or confirmed, it goes on right behind it.  The order in which the thread
    pool delivers a page does not matter. *)
Theorem script_history_pages q A sh :
  serves q A -> (forall l, par_order l ≡ₚ l) ->
  exists l, history_of q A [sh] l /\
    answers_pages q (fun m => Mempool.history m sh) (fun c => ChainQuery.history c sh) l.
Proof.
  intros Hq Hpar. apply (merged_pages q A [sh] (script_txids (q_mempool q) sh)
    (fun start => history_iter_scan_reverse (q_chain q) 72 sh start)); try done.
  - apply script_txids_NoDup.
  - intros t. rewrite (script_txids_elem mcfg _ A sh t (se_pool _ _ Hq)). unfold pool_touches. split.
    + intros (p & e & ?). exists sh, p, e. split; [by left|done].
    + intros (sh' & p & e & ->%list_elem_of_singleton & ?). eauto.
  - intros start Hst. apply (scan_reverse_reads cfg block_of); [exact (se_synced _ _ Hq)|done].
  - intros last limit. unfold Mempool.history, _history, script_txids, entries_of.
    destruct (mp_history (q_mempool q) !! sh); [done|]. unfold history_tail. cbn. by destruct last, limit.
Qed.
(** The same for a group of scripts. *)
Lemma group_history_pages_merged q A shs :
  serves q A -> (forall l, par_order l ≡ₚ l) ->
  exists l, history_of q A shs l /\
    answers_pages q (fun m => Mempool.history_group m shs) (fun c => ChainQuery.history_group c shs) l.
Proof.
  intros Hq Hpar. destruct (group_ids (q_mempool q) A shs (se_pool _ _ Hq)) as [Hnd Hids].
  apply (merged_pages q A shs (history_txids_iter_group (q_mempool q) shs)
    (fun start => history_iter_scan_group_reverse (q_chain q) 72 shs start)); try done.
  intros start Hst. apply (group_reverse_reads cfg block_of); [exact (se_synced _ _ Hq)|done].
Qed.
End history_pages.

(** ** Transactions with their previous outputs *)

Section shown.
Context {D : Type} {RDB : RocksDB D} {RDBL : RocksDBLaws D}.
Context {BL : BitcoinLib} {BLaws : BitcoinLaws} {W : Wincode} {WL : WincodeLaws}.
Context {EL : ElectrumLib} {SL : ScriptLib} {SLaws : ScriptLaws} {TS : TxSize}.
Context (cfg : IndexerConfig) (block_of : BlockHash -> Block) (network : Network).
Implicit Types (q : Query D) (tx : Transaction).

(** An output that is confirmed or made by a stored transaction. *)
Definition known_output q (o : OutPoint) : option TxOut :=
  resolve (chain_avail (q_chain q)) (txstore (q_mempool q)) o.
Definition complete q (e : TxEntry) : Prop := Forall (fun o => is_Some (known_output q o)) (tx_previous_outputs e.1).
#[export] Instance complete_dec q e : Decision (complete q e).
Proof. unfold complete. apply _. Defined.
(** A coinbase spends nothing, any other transaction spends with every input. *)
Definition regular tx : Prop :=
  if tx_is_coinbase tx then tx_previous_outputs tx = []
  else Forall (fun txin => has_prevout txin = true) (tx_input tx) /\ (Z.of_nat (length (tx_input tx)) <= u32_mod)%Z.
#[export] Instance regular_dec tx : Decision (regular tx).
Proof. unfold regular. destruct (tx_is_coinbase tx); apply _. Defined.

Definition shows_output (txo : TxOut) (v : TxOutValue) : Prop :=
  tov_value v = txo_value txo /\ tov_scriptpubkey v = script_pubkey txo /\
  tov_scriptpubkey_type v = script_type (script_pubkey txo) /\
  tov_scriptpubkey_address v = to_address_str (script_pubkey txo) network.
(** The output an input spends is shown with it, when it spends one. *)
Definition shows_input q (txin : TxIn) (v : TxInValue) : Prop :=
  mkOutPoint (tiv_txid v) (tiv_vout v) = previous_output txin /\
  match tiv_prevout v with
  | Some ov => has_prevout txin = true /\
      exists txo, known_output q (previous_output txin) = Some txo /\ shows_output txo ov
  | None => has_prevout txin = false
  end.
Record shows q (e : TxEntry) (v : TransactionValue) : Prop := {
  sh_txid : tv_txid v = get_txid e.1;
  sh_status : tv_status v = Some (TransactionStatus_from e.2);
  sh_inputs : Forall2 (shows_input q) (tx_input e.1) (tv_vin v);
  sh_outputs : Forall2 shows_output (tx_output e.1) (tv_vout v);
  sh_fee : tx_is_coinbase e.1 = false ->
    tv_fee v = wrap64 (sum_Z (map txo_value (omap (known_output q) (map previous_output (tx_input e.1))))
                       - sum_Z (map txo_value (tx_output e.1)));
}.

Lemma to_asm_ok s : exists t, to_asm s = Ok t.
Proof. unfold to_asm. pose proof (script_debug_shape s). rewrite decide_True by done. by eexists. Qed.
Lemma txout_value_ok txo : exists v, TxOutValue_new network txo = Ok v /\ shows_output txo v.
Proof.
  unfold TxOutValue_new. destruct (to_asm_ok (script_pubkey txo)) as [t ->]. eexists. split; [done|]. done.
Qed.
Lemma opt_result_ok {A B} (f : A -> result B) o :
  (forall a, exists b, f a = Ok b) -> exists r, opt_result f o = Ok r /\ (o = None <-> r = None).
Proof.
  intros Hf. destruct o as [a|]; [|by exists None]. destruct (Hf a) as [b Hb]. exists (Some b). cbn. rewrite Hb. done.
Qed.
Lemma txin_value_ok txin p :
  exists v, TxInValue_new network txin p = Ok v /\ mkOutPoint (tiv_txid v) (tiv_vout v) = previous_output txin /\
    match p, tiv_prevout v with
    | Some txo, Some ov => shows_output txo ov | None, None => True | _, _ => False end.
Proof.
  unfold TxInValue_new.
  destruct (to_asm_ok (script_sig txin)) as [sa Hsa].
  destruct (opt_result_ok to_asm ((get_innerscripts txin <$> p) ≫= redeem_script) to_asm_ok) as (r1 & Hr1 & _).
  destruct (opt_result_ok to_asm ((get_innerscripts txin <$> p) ≫= witness_script) to_asm_ok) as (r2 & Hr2 & _).
  assert (exists r, opt_result (TxOutValue_new network) p = Ok r /\
    match p, r with Some txo, Some ov => shows_output txo ov | None, None => True | _, _ => False end) as (r & Hr & Hs).
  { destruct p as [txo|]; [|by exists None]. destruct (txout_value_ok txo) as (v & Hv & Hs). exists (Some v).
    cbn. by rewrite Hv. }
  rewrite Hr. cbn [mbind result_bind]. rewrite Hsa. cbn [mbind result_bind]. rewrite Hr1. cbn [mbind result_bind].
  rewrite Hr2. cbn [mbind result_bind]. eexists. split; [done|]. split; [by destruct txin as [[] ]|done].
Qed.

(** The previous outputs by input index, as a list of pairs. *)
Lemma fold_insert_list_to_map {V} (l : list (Z * V)) :
  NoDup l.*1 -> fold_left (fun acc '(i, o) => <[i := o]> acc) l (∅ : gmap Z V) = list_to_map l.
Proof.
  intros Hnd. assert (forall acc : gmap Z V, fold_left (fun acc '(i, o) => <[i := o]> acc) l acc = list_to_map l ∪ acc) as H.
  { induction l as [|[i o] l IH]; intros acc; cbn; [by rewrite map_empty_union|].
    apply NoDup_cons in Hnd as [Hi Hnd]. rewrite IH by done. rewrite <- insert_union_r; [by rewrite insert_union_l|].
    by apply not_elem_of_list_to_map_1. }
  rewrite H. apply map_union_empty.
Qed.
Definition indexed_prevouts (k : nat) (txos : list TxOut) : list (Z * TxOut) :=
  imap (fun i o => (Z.of_nat (k + i), o)) txos.
Lemma mapM_prevouts (R : OutPoint -> option TxOut) l txos : forall k,
  (Z.of_nat (k + length l) <= u32_mod)%Z ->
  Forall2 (fun txin txo => has_prevout txin = true /\ R (previous_output txin) = Some txo) l txos ->
  mapM (fun '(i, txi) => txo ← R (previous_output txi); Some (as_u32 (Z.of_nat i), txo))
    (filter (fun '(_, txi) => has_prevout txi = true) (imap (fun i x => (k + i, x)) l)) =
  Some (indexed_prevouts k txos).
Proof.
  intros k Hk H. revert k Hk. unfold indexed_prevouts.
  induction H as [|txin txo l txos [Hp Hr] _ IH]; intros k Hk; [done|]. rewrite !imap_cons, !Nat.add_0_r.
  rewrite filter_cons_True by done. cbn [mapM]. rewrite Hr. cbn [mbind option_bind].
  cbn [length] in Hk. rewrite as_u32_id by (unfold is_u32; lia).
  rewrite (imap_ext _ (fun i x => (S k + i, x)) l) by (intros; cbn; f_equal; lia).
  rewrite IH by lia. cbn [mbind option_bind]. do 2 f_equal. apply imap_ext. intros. cbn. do 2 f_equal. lia.
Qed.
Lemma indexed_keys k txos : NoDup (indexed_prevouts k txos).*1.
Proof.
  assert ((indexed_prevouts k txos).*1 = Z.of_nat <$> seq k (length txos)) as ->.
  { unfold indexed_prevouts. revert k. induction txos as [|o txos IH]; intros k; [done|].
    rewrite imap_cons, Nat.add_0_r. cbn. f_equal. rewrite <- (IH (S k)). f_equal. apply imap_ext. intros. cbn. do 2 f_equal. lia. }
  apply NoDup_fmap_2; [intros ???; lia|apply NoDup_seq].
Qed.
Lemma indexed_values k txos : map (fun p : Z * TxOut => txo_value p.2) (indexed_prevouts k txos) = map txo_value txos.
Proof.
  unfold indexed_prevouts. change (map ?f ?l) with (f <$> l). rewrite fmap_imap. 
  induction txos as [|o txos IH]; [done|]. rewrite imap_cons. cbn. f_equal. exact IH.
Qed.
Lemma indexed_lookup txos i : (list_to_map (indexed_prevouts 0 txos) : gmap Z TxOut) !! Z.of_nat i = txos !! i.
Proof.
  destruct (txos !! i) as [o|] eqn:E.
  - apply elem_of_list_to_map_1; [apply indexed_keys|]. apply list_elem_of_lookup. exists i.
    unfold indexed_prevouts. by rewrite list_lookup_imap, E.
  - apply not_elem_of_list_to_map_1. intros ([j o] & Hj & Hin)%list_elem_of_fmap. cbn in Hj.
    apply list_elem_of_lookup in Hin as [k Hk]. unfold indexed_prevouts in Hk. rewrite list_lookup_imap in Hk.
    destruct (txos !! k) eqn:Ek; cbn in Hk; [|done]. injection Hk as Hj' _. assert (k = i) as -> by lia. congruence.
Qed.
(** Of a complete regular transaction that is no coinbase. *)
Lemma resolve_all R tx :
  Forall (fun txin => has_prevout txin = true) (tx_input tx) -> (Z.of_nat (length (tx_input tx)) <= u32_mod)%Z ->
  Forall (fun o => is_Some (R o)) (tx_previous_outputs tx) ->
  exists txos, Forall2 (fun txin txo => has_prevout txin = true /\ R (previous_output txin) = Some txo) (tx_input tx) txos /\
    resolve_prevouts R tx = Some (list_to_map (indexed_prevouts 0 txos)).
Proof.
  intros Hp Hlen Hr. unfold tx_previous_outputs in Hr. rewrite filter_Forall in Hr by done.
  destruct (Forall2_choose (fun txin txo => has_prevout txin = true /\ R (previous_output txin) = Some txo) (tx_input tx))
    as [txos Htxos].
  { rewrite Forall_forall in Hp. rewrite Forall_forall in Hr. apply Forall_forall. intros txin Hin.
    destruct (Hr (previous_output txin)) as [txo Htxo]; [apply elem_of_map; eauto|]. eauto. }
  exists txos. split; [done|]. unfold resolve_prevouts, enumerate.
  change (imap pair (tx_input tx)) with (imap (fun i x => (0 + i, x)) (tx_input tx)).
  rewrite (mapM_prevouts R _ txos 0) by (done || lia). cbn [mbind option_bind]. f_equal.
  apply fold_insert_list_to_map, indexed_keys.
Qed.
Lemma resolve_missing R tx :
  ~ Forall (fun o => is_Some (R o)) (tx_previous_outputs tx) -> resolve_prevouts R tx = None.
Proof.
  intros Hn. unfold resolve_prevouts. destruct (mapM _ _) as [pairs|] eqn:E; [|done]. destruct Hn.
  apply mapM_Some_1 in E. apply Forall_forall. intros o (txi & -> & [Hp Hin]%list_elem_of_filter)%elem_of_map.
  apply list_elem_of_lookup in Hin as [j Hj]. apply enumerate_elem in Hj.
  assert ((j, txi) ∈ filter (fun '(_, txi) => has_prevout txi = true) (enumerate (tx_input tx))) as Hf
    by (by apply list_elem_of_filter).
  apply list_elem_of_lookup in Hf as [k Hk]. destruct (Forall2_lookup_l _ _ _ _ _ E Hk) as (y & _ & Hy).
  cbn in Hy. destruct (R (previous_output txi)); [by eexists|done].
Qed.

Lemma Forall2_enumerate {A B} (R : nat * A -> B -> Prop) (Q : A -> B -> Prop) l bs :
  Forall2 R (enumerate l) bs -> (forall i a b, l !! i = Some a -> R (i, a) b -> Q a b) -> Forall2 Q l bs.
Proof.
  intros HR HQ. apply Forall2_same_length_lookup. split.
  - apply Forall2_length in HR. unfold enumerate in HR. by rewrite length_imap in HR.
  - intros i a b Ha Hb. destruct (Forall2_lookup_r _ _ _ _ _ HR Hb) as (p & Hp & HRp).
    unfold enumerate in Hp. rewrite list_lookup_imap, Ha in Hp. cbn in Hp. injection Hp as <-. by apply (HQ i).
Qed.

(** What is known of the inputs of a complete regular transaction. *)
Lemma inputs_resolved q e txos :
  (forall o, o ∈ tx_previous_outputs e.1 -> txos !! o = known_output q o) -> regular e.1 -> complete q e ->
  exists pv n, extract_tx_prevouts e.1 txos = Ok pv /\ transaction_sigop_count e.1 pv = Ok n /\
    (forall i txin, tx_input e.1 !! i = Some txin ->
      pv !! as_u32 (Z.of_nat i) = if has_prevout txin then known_output q (previous_output txin) else None) /\
    (tx_is_coinbase e.1 = false ->
      map_to_list pv ≡ₚ indexed_prevouts 0 (omap (known_output q) (map previous_output (tx_input e.1)))).
Proof.
  intros Htxos Hreg Hc. rewrite (extract_resolve (known_output q) e.1 txos Htxos).
  unfold regular in Hreg. destruct (tx_is_coinbase e.1) eqn:Ecb.
  - assert (forall txin, txin ∈ tx_input e.1 -> has_prevout txin = false) as Hno.
    { intros txin Hin. apply not_true_is_false. intros Hp.
      assert (previous_output txin ∈ tx_previous_outputs e.1) as Hx by (apply elem_of_map; exists txin; by rewrite list_elem_of_filter).
      rewrite Hreg in Hx. by apply elem_of_nil in Hx. }
    assert (resolve_prevouts (known_output q) e.1 = Some ∅) as ->.
    { unfold resolve_prevouts. destruct (filter _ _) as [|[i txi] l] eqn:E; [done|].
      assert ((i, txi) ∈ filter (fun '(_, txi) => has_prevout txi = true) (enumerate (tx_input e.1))) as Hin by (rewrite E; by left).
      apply list_elem_of_filter in Hin as [Hp Hin%enumerate_elem%list_elem_of_lookup_2]. rewrite Hno in Hp; done. }
    exists ∅, (get_legacy_sigop_count e.1 * 4)%Z. split; [done|]. split.
    { unfold transaction_sigop_count, get_sigop_cost. rewrite Ecb. done. }
    split; [|done]. intros i txin Hi%list_elem_of_lookup_2. by rewrite lookup_empty, Hno.
  - destruct Hreg as [Hp Hlen].
    destruct (resolve_all (known_output q) e.1 Hp Hlen Hc) as (outs & HF & ->).
    assert (forall i o, outs !! i = Some o ->
      (list_to_map (indexed_prevouts 0 outs) : gmap Z TxOut) !! as_u32 (Z.of_nat i) = Some o) as Hlk.
    { intros i o Hi. rewrite as_u32_id; [by rewrite indexed_lookup|].
      apply lookup_lt_Some in Hi. rewrite <- (Forall2_length _ _ _ HF) in Hi. unfold is_u32. lia. }
    destruct (sigop_cost_total e.1 (list_to_map (indexed_prevouts 0 outs)) outs SLaws Ecb
      (eq_sym (Forall2_length _ _ _ HF)) Hlk) as (ws & _ & Hn & _).
    eexists _, _. split; [done|]. split; [exact Hn|]. split.
    + intros i txin Hi. destruct (Forall2_lookup_l _ _ _ _ _ HF Hi) as (o & Ho & Hpv & HR). by rewrite Hpv, HR, (Hlk i o).
    + intros _. rewrite map_to_list_to_map by apply indexed_keys.
      assert (omap (known_output q) (map previous_output (tx_input e.1)) = outs) as ->; [|done].
      clear -HF. induction HF as [|txin o l outs [_ HR] _ IH]; [done|]. cbn. rewrite HR. by f_equal.
Qed.
Lemma tx_value_ok q e txos :
  (forall o, o ∈ tx_previous_outputs e.1 -> txos !! o = known_output q o) -> regular e.1 -> complete q e ->
  exists v, TransactionValue_new network e.1 e.2 txos = Ok v /\ shows q e v.
Proof.
  intros Htxos Hreg Hc. destruct (inputs_resolved q e txos Htxos Hreg Hc) as (pv & n & Hpv & Hn & Hin & Hfee).
  unfold TransactionValue_new. rewrite Hpv. cbn [mbind result_bind]. rewrite Hn. cbn [chain_err mbind result_bind].
  set (f := fun '(index, txin) => TxInValue_new network txin (pv !! as_u32 (Z.of_nat index))).
  destruct (rmap_total f (enumerate (tx_input e.1))) as [vins Hvins].
  { intros [i txin] _. destruct (txin_value_ok txin (pv !! as_u32 (Z.of_nat i))) as (v & Hv & _). by exists v. }
  destruct (rmap_total (TxOutValue_new network) (tx_output e.1)) as [vouts Hvouts].
  { intros o _. destruct (txout_value_ok o) as (v & Hv & _). by exists v. }
  rewrite Hvins. cbn [mbind result_bind]. rewrite Hvouts. cbn [mbind result_bind]. eexists. split; [done|].
  apply rmap_Ok_Forall2 in Hvins, Hvouts. split; cbn [tv_txid tv_status tv_vin tv_vout tv_fee]; try done.
  - eapply Forall2_enumerate; [exact Hvins|]. intros i txin v Hi Hv. cbn in Hv.
    destruct (txin_value_ok txin (pv !! as_u32 (Z.of_nat i))) as (v' & Hv' & Hop & Hs).
    assert (v = v') as -> by congruence. split; [done|]. rewrite (Hin i txin Hi) in Hs.
    destruct (has_prevout txin) eqn:Ep; [|by destruct (tiv_prevout v')].
    destruct (known_output q (previous_output txin)) as [txo|] eqn:Ek.
    + destruct (tiv_prevout v'); [|done]. eauto.
    + exfalso. unfold complete in Hc. rewrite Forall_forall in Hc.
      destruct (Hc (previous_output txin)) as [? ?]; [|congruence].
      apply elem_of_map. exists txin. rewrite list_elem_of_filter. by apply list_elem_of_lookup_2 in Hi.
  - eapply Forall2_impl; [exact Hvouts|]. intros o v Hv. destruct (txout_value_ok o) as (v' & Hv' & Hs). congruence.
  - intros Hcb. unfold get_tx_fee. rewrite Hcb. specialize (Hfee Hcb). unfold wrap64. rewrite <- Zminus_mod. do 2 f_equal.
    by rewrite (Permutation_map (fun p : Z * TxOut => txo_value p.2) Hfee), indexed_values.
Qed.
Lemma tx_value_missing q e txos :
  (forall o, o ∈ tx_previous_outputs e.1 -> txos !! o = known_output q o) -> ~ complete q e ->
  TransactionValue_new network e.1 e.2 txos = Err (Msg "missing outpoint").
Proof.
  intros Htxos Hn. unfold TransactionValue_new. rewrite (extract_resolve (known_output q) e.1 txos Htxos).
  by rewrite resolve_missing.
Qed.

Lemma prepare_txs_ok q txs :
  query_synced cfg block_of (q_chain q) -> Forall (fun e : TxEntry => regular e.1) txs ->
  exists values, prepare_txs network q txs = Ok values /\ Forall2 (shows q) (filter (complete q) txs) values.
Proof.
  intros Hs Hreg. unfold prepare_txs, Query.lookup_txos.
  set (outs := list_to_set _ : gset OutPoint).
  destruct (mp_lookup_txos_ok (q_chain q) (chain_avail (q_chain q)) (txstore (q_mempool q)) outs) as (txos & -> & Htxos).
  { intros o. by apply (chain_avail_ok cfg block_of). }
  cbn [mbind result_bind].
  assert (forall e, e ∈ txs -> forall o, o ∈ tx_previous_outputs e.1 -> txos !! o = known_output q o) as Ho.
  { intros e He o Hx. apply Htxos. unfold outs. rewrite elem_of_list_to_set, list_elem_of_In, in_concat.
    exists (tx_previous_outputs e.1). rewrite <- !list_elem_of_In. split; [|done]. apply elem_of_map. eauto. }
  clearbody outs. clear Htxos. induction Hreg as [|e txs Hr Hreg IH]; [by exists []|].
  destruct IH as (values & Hv & HF); [intros; eapply Ho; [by right|done]|].
  unfold it_collect in *. cbn [it_of map it_filter_map mbind result_bind].
  specialize (Ho e ltac:(by left)). rewrite filter_cons. destruct (decide (complete q e)) as [Hc|Hc].
  - destruct (tx_value_ok q e txos Ho Hr Hc) as (v & Hok & Hsh). rewrite Hok. cbn [ok mbind result_bind rmap id].
    fold (it_of txs). rewrite Hv. exists (v :: values). split; [done|by constructor].
  - rewrite (tx_value_missing q e txos Ho Hc). exists values. split; [exact Hv|done].
Qed.
(** C26: Preparing transactions for a response succeeds and shows exactly those whose
    previous outputs are all confirmed or made by stored transactions, in their order.
    Each is shown with its status, its outputs, for every input the output it spends,
    and the fee these outputs leave over. *)
Theorem prepare_txs_shows q txs :
  query_synced cfg block_of (q_chain q) -> Forall (fun e : TxEntry => regular e.1) txs ->
  exists values, prepare_txs network q txs = Ok values /\ Forall2 (shows q) (filter (complete q) txs) values.
Proof. apply prepare_txs_ok. Qed.
End shown.

(** ** Lists of blocks *)

Section block_list.
Context {D : Type} {RDB : RocksDB D} {RDBL : RocksDBLaws D}.
Context {BL : BitcoinLib} {BLaws : BitcoinLaws} {W : Wincode} {WL : WincodeLaws} {EL : ElectrumLib}.
Context (cfg : IndexerConfig) (block_of : BlockHash -> Block).
Implicit Types q : Query D.
Abbreviation chain_headers q := (headers (cq_headers (q_chain q))).

(** A value shows the block of a header entry. *)
Definition shows_block (e : HeaderEntry) (v : BlockValue) : Prop :=
  bv_id v = display_hash (he_hash e) /\ bv_height v = Z.of_nat (he_height e) /\
  bv_previousblockhash v = (if decide (he_height e = 0) then None else Some (display_hash (prev_blockhash (he_header e)))) /\
  bv_tx_count v = as_u32 (Z.of_nat (length (txdata (block_of (he_hash e))))).

Lemma block_shown q h e :
  query_synced cfg block_of (q_chain q) -> full_mode cfg (q_chain q) -> hashes_distinct (chain_headers q) ->
  chain_headers q !! h = Some e ->
  exists hm, get_block_with_meta (q_chain q) (he_hash e) = Ok (Some hm) /\ bhm_header_entry hm = e /\
    shows_block e (BlockValue_new hm) /\
    (prev_blockhash (he_header e) = null_hash <-> h = 0) /\
    forall h' e', h = S h' -> chain_headers q !! h' = Some e' -> prev_blockhash (he_header e) = he_hash e'.
Proof.
  intros Hs Hf Hd He. pose proof (sy_wf _ _ _ Hs) as Hwf. destruct (wf_chain _ Hwf) as [Hh Hhash Hgen Hlink].
  fold (cq_headers (q_chain q)) in Hh, Hhash, Hgen, Hlink.
  assert (entry_block block_of e ∈ chain_of block_of (q_chain q)) as Hb.
  { apply blocks_of_elem. exists e. split; [by eapply list_elem_of_lookup_2|done]. }
  pose proof (Hh h e He) as Hheight.
  assert (prev_blockhash (he_header e) = null_hash <-> h = 0) as Hnull.
  { split; [|intros ->; by apply Hgen]. intros Hn. destruct h as [|h]; [done|].
    destruct (lookup_lt_is_Some_2 (chain_headers q) h) as [e' He']; [apply lookup_lt_Some in He; lia|].
    rewrite (Hlink h e' e He' He) in Hn. destruct (hd_null _ Hd e'); [by eapply list_elem_of_lookup_2|done]. }
  pose proof (block_header_entry cfg block_of (q_chain q) (entry_block block_of e) Hs Hb) as H1.
  pose proof (block_meta_in cfg block_of (q_chain q) (entry_block block_of e) Hs Hf Hb) as H2.
  cbn [be_entry entry_block] in H1, H2. unfold get_block_with_meta, and_then. rewrite H1. cbn [mbind result_bind].
  rewrite H2. cbn [mbind result_bind].
  assert (exists m, get_mtp (cq_headers (q_chain q)) h = Ok m) as [m Hm].
  { destruct h as [|h]; [|destruct (get_mtp_median (cq_headers (q_chain q)) (S h)) as (m & Hm & _); eauto;
      apply lookup_lt_Some in He; lia].
    unfold get_mtp. rewrite head_lookup, He. by eexists. }
  unfold cq_get_mtp. rewrite Hheight, Hm. cbn [mbind result_bind]. eexists. split; [done|]. split; [done|].
  split; [|split; [done|]].
  - unfold shows_block, BlockValue_new. cbn. rewrite (Hhash e) by (by eapply list_elem_of_lookup_2). split; [done|].
    rewrite Hheight. split.
    { apply as_u32_id. rewrite <- Hheight. exact (br_height _ (cs_range _ (sy_sane _ _ _ Hs) _ Hb)). }
    split; [|done]. destruct (decide (prev_blockhash (he_header e) = null_hash)), (decide (h = 0)); tauto.
  - intros h' e' -> He'. by apply (Hlink h').
Qed.

(** The list of blocks from a height goes down the best chain block by block, to the
    genesis block or to the configured number of blocks, and shows each of them. *)
Lemma blocks_descend q limit h e :
  query_synced cfg block_of (q_chain q) -> full_mode cfg (q_chain q) -> hashes_distinct (chain_headers q) ->
  chain_headers q !! h = Some e ->
  exists values, blocks_loop q limit (he_hash e) = Done values /\ length values = Nat.min limit (S h) /\
    forall k v, values !! k = Some v -> exists e', chain_headers q !! (h - k) = Some e' /\ shows_block e' v.
Proof.
  intros Hs Hf Hd. revert h e. induction limit as [|limit IH]; intros h e He; cbn [blocks_loop].
  { exists []. split; [done|]. split; [done|]. intros k v Hk. by rewrite lookup_nil in Hk. }
  destruct (block_shown q h e Hs Hf Hd He) as (hm & -> & -> & Hshow & Hnull & Hprev).
  destruct (decide (prev_blockhash (he_header e) = null_hash)) as [Hn|Hn].
  - apply Hnull in Hn as ->. eexists. split; [done|]. split; [cbn; lia|].
    intros [|k] v Hk; [|by rewrite lookup_cons, lookup_nil in Hk]. injection Hk as <-. by exists e.
  - destruct h as [|h]; [by destruct Hn; apply Hnull|].
    destruct (lookup_lt_is_Some_2 (chain_headers q) h) as [e' He']; [apply lookup_lt_Some in He; lia|].
    rewrite (Hprev h e' eq_refl He'). destruct (IH h e' He') as (values & -> & Hlen & Hv).
    eexists. split; [done|]. split; [cbn; lia|]. intros [|k] v Hk; cbn in Hk.
    + injection Hk as <-. rewrite Nat.sub_0_r. by exists e.
    + destruct (Hv k v Hk) as (e2 & He2 & Hs2). exists e2. by replace (S h - S k) with (h - k) by lia.
Qed.
End block_list.

(** ** Summaries after an unconfirmed transaction *)

Section summaries.
Context {D : Type} {RDB : RocksDB D} {RDBL : RocksDBLaws D}.
Context {BL : BitcoinLib} {BLaws : BitcoinLaws} {W : Wincode} {WL : WincodeLaws}.
Context {EL : ElectrumLib} {SL : ScriptLib} {TS : TxSize} {RL : RestLib}.
Context (cfg : IndexerConfig) (block_of : BlockHash -> Block) (mcfg : MempoolConfig) (rcfg : RestConfig).
Implicit Types q : Query D.

Lemma skip_while_nothing {A} (p : A -> bool) l : Forall (fun a => p a = true) l -> skip_while p l = [].
Proof. induction 1 as [|a l Ha _ IH]; [done|]. cbn. by rewrite Ha. Qed.

(** After a transaction of the mempool a script's summary is empty, whatever its
    confirmed history is: the cursor, which no confirmed transaction matches, is handed
    to the chain unchanged.  (The [txs] routes start from the newest confirmed
    transaction instead.) *)
Lemma summary_after_pool_cursor q A sh query_params last t :
  serves cfg block_of mcfg q A -> t ∈ dom (txstore (q_mempool q)) -> parse_hash last = Some t ->
  summary_page rcfg (fun c => ChainQuery.summary c sh) query_params (Some last) q =
    (q, Done (json_response (JArr []) TTL_SHORT)).
Proof.
  intros [Hs Hf _ _ Hd] [tx Ht]%elem_of_dom Hp. unfold summary_page. cbn [mbind option_bind]. rewrite Hp.
  rewrite (H_done _ _ q q InMempool).
  2: { apply ask_done. unfold find_txid, Mempool.lookup_txn. by rewrite Ht. }
  rewrite (H_done _ _ q q None) by done. rewrite (H_done _ _ q q []); [done|]. apply ask_done.
  unfold ChainQuery.summary, collate_summaries.
  destruct (scan_reverse_reads cfg block_of (q_chain q) sh None Hs I) as (ps & -> & Hps & _).
  assert (forall p, p ∈ ps -> row_get_txid p.1 <> t) as Hno.
  { intros p (sh' & _ & (b & Hb & He & _) & _)%Hps <-.
    assert (exists tx', tx' ∈ txdata (be_block b) /\ get_txid tx' = row_get_txid p.1) as (tx' & Htx' & Hid).
    { destruct (hist_event_facts cfg _ _ _ (sy_sane _ _ _ Hs) Hb He) as (_ & _ & _ & tx' & ? & ?). eauto. }
    rewrite <- Hid, (Hd b tx') in Ht; done. }
  rewrite (it_map_of _ (fun row => (row_get_txid row, txinfo row, hk_tx_position row))) by done.
  fold (it_of (map (fun row => (row_get_txid row, txinfo row, hk_tx_position row)) (map fst ps))).
  rewrite it_unique_by_of, !it_skip_while_of.
  rewrite (skip_while_nothing (fun '(txid, _, _) => bool_decide (t <> txid))); [done|].
  apply Forall_forall. intros [[txid info] pos] Hin%unique_by_elem. rewrite map_map in Hin.
  apply elem_of_map in Hin as (p & [= -> _ _] & Hin). apply bool_decide_eq_true_2. intros ->. by apply (Hno p).
Qed.
End summaries.

(** ** Witnesses *)

Lemma ex_serves : exists (q : Query KvMap) A,
  @serves KvMap _ ExampleLib FixintWincode ex_cfg ex_block_of ex_mcfg q A /\
  @chain_of KvMap ExampleLib ex_block_of (q_chain q) = ex_chain /\ cq_headers (q_chain q) = ex_hl /\
  dom (txstore (q_mempool q)) = {[pack_hash 71; pack_hash 72]}.
Proof.
  destruct ex_query_exists as (c & Hc & Hhl & _ & Hl & _), ex_pool_exists as (m & A & Hr & _ & Hdom).
  assert (@chain_of KvMap ExampleLib ex_block_of c = ex_chain) as Hch by (unfold chain_of; by rewrite Hhl).
  exists (query_new c m), A. split; [split|by rewrite <- Hch]; cbn [q_chain q_mempool query_new].
  - exact Hc.
  - by split.
  - unfold positions_fit. rewrite Hch. intros b Hb.
    assert (Forall (fun b => NoDup (txdata (be_block b)) /\ (Z.of_nat (length (txdata (be_block b))) < u16_mod)%Z) ex_chain) as HF by vm_decide.
    rewrite Forall_forall in HF. by apply HF.
  - exact Hr.
  - intros b tx. cbn [q_chain q_mempool query_new]. rewrite Hch. intros Hb Htx. apply not_elem_of_dom. rewrite Hdom.
    assert (Forall (fun b => Forall (fun tx => @get_txid ExampleLib tx ∉ ({[pack_hash 71; pack_hash 72]} : gset Txid)) (txdata (be_block b))) ex_chain) as HF by vm_decide.
    rewrite Forall_forall in HF. specialize (HF b Hb). rewrite Forall_forall in HF. by apply HF.
Qed.
Lemma script_history_pages_witness :
  exists (q : Query KvMap) (l : list TxEntry), NoDup (@entry_txid ExampleLib <$> l) /\
    @merged_history KvMap _ reverse (fun m => Mempool.history m ex_script)
      (fun c => @ChainQuery.history KvMap _ ExampleLib FixintWincode c ex_script) None 25 q = (q, Done (take 25 l)).
Proof.
  destruct ex_serves as (q & A & Hq & _). exists q.
  destruct (@script_history_pages KvMap _ _ ExampleLib ExampleLib_laws FixintWincode FixintWincode_laws
    ex_cfg ex_block_of ex_mcfg reverse q A ex_script Hq) as (l & Hl & Hp).
  { intros l. apply reverse_Permutation. }
  exists l. split; [exact (ho_unique _ _ _ _ _ _ _ Hl)|]. apply (Hp None 25). intros t [=].
Defined.
Definition ex_size : TxSize := fun tx => (60 + Z.of_nat (length (tx_input tx)))%Z.
Definition ex_missing : Transaction := mkTx 2 88 [mkTxIn (mkOutPoint (hash_repeat 5) 0) [] 0 []] [mkTxOut 1 [118]%Z].
(** The transaction of the genesis block is shown, one with an unknown previous output is not. *)
Lemma prepare_txs_shows_witness :
  exists (q : Query KvMap) values,
    @prepare_txs ExampleLib ExampleScripts ExampleElectrum ex_size Bitcoin KvMap _ FixintWincode q
      [(ex_coinbase 101 [118; 1]%Z, None); (ex_missing, None)] = Ok values /\
    length values <= 2.
Proof.
  destruct ex_serves as (q & A & Hq & _). exists q.
  destruct (@prepare_txs_shows KvMap _ ExampleLib ExampleLib_laws FixintWincode ExampleElectrum
    ExampleScripts ExampleScripts_laws ex_size ex_cfg ex_block_of Bitcoin q
    [(ex_coinbase 101 [118; 1]%Z, None); (ex_missing, None)] (se_synced _ _ _ _ _ Hq)) as (values & Hv & HF).
  { repeat constructor. vm_compute. congruence. }
  exists values. split; [exact Hv|]. rewrite <- (Forall2_length _ _ _ HF). apply (length_filter _ [_; _]).
Defined.
Lemma blocks_descend_witness :
  exists (q : Query KvMap) values,
    @blocks_loop KvMap _ ExampleLib FixintWincode ExampleElectrum q 2 (pack_hash 3) = Done values /\ length values = 2.
Proof.
  destruct ex_serves as (q & A & Hq & _ & Hhl & _). exists q.
  assert (exists e, headers ex_hl !! 2 = Some e /\ he_hash e = pack_hash 3) as (e & He & Hh)
    by (eexists; split; vm_compute; reflexivity).
  destruct (@blocks_descend KvMap _ ExampleLib FixintWincode FixintWincode_laws ExampleElectrum ex_cfg ex_block_of
    q 2 2 e (se_synced _ _ _ _ _ Hq) (se_full _ _ _ _ _ Hq)) as (values & Hv & Hl & _).
  - rewrite Hhl. apply hashes_distinct_NoDup; vm_decide.
  - rewrite Hhl. exact He.
  - exists values. split; [rewrite <- Hh; exact Hv|exact Hl].
Defined.
Definition ex_rcfg : RestConfig :=
  mkRestConfig ex_qcfg ex_mcfg ex_ecfg false false false None 10 25 50 5000 1000 10000.
Lemma summary_after_pool_cursor_witness :
  exists q : Query KvMap,
    @summary_page KvMap _ ExampleElectrum ex_rcfg
      (fun c => @ChainQuery.summary KvMap _ FixintWincode c ex_script) [] (Some (ex_display (pack_hash 71))) q =
      (q, Done (@json_response ExampleElectrum (JArr []) TTL_SHORT)).
Proof.
  destruct ex_serves as (q & A & Hq & _ & _ & Hdom). exists q.
  apply (@summary_after_pool_cursor KvMap _ _ ExampleLib FixintWincode FixintWincode_laws ExampleElectrum
    ex_cfg ex_block_of ex_mcfg ex_rcfg q A ex_script [] (ex_display (pack_hash 71)) (pack_hash 71) Hq).
  - rewrite Hdom. set_solver.
  - apply (@parse_display_hash ExampleElectrum ExampleElectrum_laws).
Defined.
