(* ===== verification/Mwck.v ===== *)
(** * [mwck.rs]: the mempool watcher

    The hub behind [/api/v1/ws]: what a websocket client subscribes to, which of its
    keys a transaction touches, and what it is told when the mempool changes, when blocks
    are confirmed and when the tip moves to another branch.  Transactions are the JSON
    values of [rest.rs].  The channel of a client is the list of the events in it.  The
    build without the test fixtures is modelled. *)

From S2P Require Import Prelude Iter RocksDB DB Bitcoin HeaderList Rows Fetch Fees.
From S2P Require Import Indexer ChainQuery Mempool Query.
From S2P Require Import Text Json Electrum Auth Sigops RestValues Rest.

Definition MAX_MEMPOOL_TX_BODIES : nat := 256 * 256.

(** A [BTreeMap] with text keys, in key order. *)
Definition text_iter {A} (m : gmap Text A) : list (Text * A) :=
  merge_sort (fun x y : Text * A => bytes_le x.1 y.1) (map_to_list m).
(** [map.insert(key, value)] on the fields of a JSON object. *)
Definition obj_insert (fields : list (Text * Json)) (key : Text) (v : Json) : list (Text * Json) :=
  filter (fun p : Text * Json => p.1 <> key) fields ++ [(key, v)].

(** ** Keys *)

Definition is_hexdigit (c : Z) : bool :=
  (((48 <=? c) && (c <=? 57)) || ((65 <=? c) && (c <=? 70)) || ((97 <=? c) && (c <=? 102)))%Z.
Definition is_hex (s : Text) : bool := negb (bool_decide (s = [])) && forallb is_hexdigit s.
(** On hexadecimal digits the length in bytes is that of the list. *)
Definition is_hex_len (s : Text) (n : nat) : bool := (length s =? n) && forallb is_hexdigit s.
Definition in_range (lo hi c : Z) : bool := ((lo <=? c) && (c <=? hi))%Z.
Definition is_base58_char (c : Z) : bool :=
  in_range 49 57 c || in_range 65 72 c || in_range 74 78 c || in_range 80 90 c || in_range 97 107 c || in_range 109 122 c.
Definition is_base58_addr (s : Text) : bool :=
  let n := utf8_len s in
  ((n =? 80)%Z || in_range 26 35 n) && forallb is_base58_char (utf8_encode s).
Definition is_bech32_hrp_lower (b : Z) : bool := in_range 97 122 b.
Definition is_bech32_hrp_upper (b : Z) : bool := in_range 65 90 b.
Definition is_bech32_data_lower (b : Z) : bool :=
  in_range 97 104 b || (b =? 106)%Z || (b =? 107)%Z || (b =? 109)%Z || (b =? 110)%Z || in_range 112 122 b
  || (b =? 48)%Z || in_range 50 57 b.
Definition is_bech32_data_upper (b : Z) : bool :=
  in_range 65 72 b || (b =? 74)%Z || (b =? 75)%Z || (b =? 77)%Z || (b =? 78)%Z || in_range 80 90 b
  || (b =? 48)%Z || in_range 50 57 b.
Definition bech32_shape (s : Text) (hrp data : Z -> bool) : bool :=
  let bytes := utf8_encode s in
  match list_find (fun b => b = 49%Z) bytes with
  | None => false
  | Some (sep, _) =>
      if negb ((2 <=? sep) && (sep <=? 5)) then false
      else
        let rest := length bytes - sep - 1 in
        if negb ((8 <=? rest) && (rest <=? 100)) then false
        else forallb hrp (take sep bytes) && forallb data (drop (sep + 1) bytes)
  end.
Definition is_bech32_lower (s : Text) : bool := bech32_shape s is_bech32_hrp_lower is_bech32_data_lower.
Definition is_bech32_upper (s : Text) : bool := bech32_shape s is_bech32_hrp_upper is_bech32_data_upper.

Definition canonical_track_key (raw : Text) : option Text :=
  let s := trim raw in
  let prefix := take 2 s in
  if bool_decide (s = []) then None
  else if is_hex_len s 66 && (bool_decide (prefix = text_of "02") || bool_decide (prefix = text_of "03")) then
    Some (text_of "21" ++ to_ascii_lowercase s ++ text_of "ac")
  else if is_hex_len s 130 && bool_decide (prefix = text_of "04") then
    Some (text_of "41" ++ to_ascii_lowercase s ++ text_of "ac")
  else if is_bech32_upper s then Some (to_ascii_lowercase s)
  else if is_bech32_lower s || is_base58_addr s then Some s
  else None.

(** ** Transactions *)

Definition is_full_tx_object (v : Json) : bool :=
  bool_decide (is_Some (json_get v (text_of "vin"))) || bool_decide (is_Some (json_get v (text_of "vout"))).
Definition json_txid (v : Json) : option Text := json_get v (text_of "txid") ≫= as_str.

(** The addresses, also in canonical form, and the scripts of one side of a transaction. *)
Definition side_elements (tx : Json) (side : string) : list Json :=
  default [] (json_get tx (text_of side) ≫= as_array).
Definition touched_output (side : string) (el : Json) : Json :=
  if String.eqb side "vin" then default el (json_get el (text_of "prevout")) else el.
Definition element_addresses (prev : Json) : list Text :=
  match json_get prev (text_of "scriptpubkey_address") ≫= as_str with
  | Some a => a :: match canonical_track_key a with Some canon => [canon] | None => [] end
  | None => []
  end.
Definition element_spks (prev : Json) : list Text :=
  match json_get prev (text_of "scriptpubkey") ≫= as_str with Some s => [to_ascii_lowercase s] | None => [] end.
Definition tx_touch_set (tx : Json) : gset Text * gset Text :=
  let outputs := map (touched_output "vin") (side_elements tx "vin") ++ map (touched_output "vout") (side_elements tx "vout") in
  (list_to_set (concat (map element_addresses outputs)), list_to_set (concat (map element_spks outputs))).
Definition tx_matches (tx : Json) (key : Text) : bool :=
  let '(addresses, spks) := tx_touch_set tx in bool_decide (key ∈ addresses) || bool_decide (key ∈ spks).

Record TxBuckets := mkBuckets { b_mempool : list Json; b_confirmed : list Json; b_removed : list Json }.
Definition buckets_default : TxBuckets := mkBuckets [] [] [].
Definition TxBuckets_json (b : TxBuckets) : Json :=
  jobj [("mempool", JArr (b_mempool b)); ("confirmed", JArr (b_confirmed b)); ("removed", JArr (b_removed b))].
(** [emit_multi], the fields of the object. *)
Definition emit_multi (event_key : string) (per_key : list (Text * TxBuckets)) : list (Text * Json) :=
  [(text_of event_key, JObj (map (fun p : Text * TxBuckets => (p.1, TxBuckets_json p.2)) per_key))].
Definition prefer_full_removed (removed : list Json) (available : gmap Text Json) : list Json :=
  map (fun v =>
    if is_full_tx_object v then v
    else match json_txid v with
    | None => v
    | Some txid =>
        match available !! txid with
        | Some full => if is_full_tx_object full then full else jobj [("txid", JStr txid)]
        | None => jobj [("txid", JStr txid)]
        end
    end) removed.

(** ** Subscriptions *)

Record ClientState := mkClient {
  track_address : option Text; track_address_original : option Text;
  track_addresses : gmap Text Text; track_scriptpubkeys : list Text }.
Definition client_default : ClientState := mkClient None None ∅ [].

Definition apply_track_address (state : ClientState) (v : Json) : ClientState :=
  let set a o := mkClient a o (track_addresses state) (track_scriptpubkeys state) in
  match as_str v with
  | None => set None None
  | Some s => match canonical_track_key s with Some canon => set (Some canon) (Some s) | None => set None None end
  end.
Definition tracked_map (arr : list Json) : gmap Text Text :=
  fold_left (fun map item =>
    match as_str item with
    | Some s => match canonical_track_key s with Some canon => <[s := canon]> map | None => map end
    | None => map
    end) arr ∅.
Definition apply_track_addresses (state : ClientState) (v : Json) : ClientState * option (gmap Text Text) :=
  let set m := mkClient (track_address state) (track_address_original state) m (track_scriptpubkeys state) in
  let map := match as_array v with Some arr => tracked_map arr | None => ∅ end in
  if bool_decide (map = ∅) then (set ∅, None) else (set map, Some map).
(** The loop over the items; [seen] is the set of the scripts so far. *)
Fixpoint tracked_spks (arr : list Json) (seen : gset Text) : list Text :=
  match arr with
  | [] => []
  | item :: arr =>
      match as_str item with
      | Some s =>
          let lower := to_ascii_lowercase s in
          if is_hex s && bool_decide (lower ∉ seen) then lower :: tracked_spks arr ({[lower]} ∪ seen)
          else tracked_spks arr seen
      | None => tracked_spks arr seen
      end
  end.
Definition apply_track_scriptpubkeys (state : ClientState) (v : Json) : ClientState * option (list Text) :=
  let set l := mkClient (track_address state) (track_address_original state) (track_addresses state) l in
  let spks := match as_array v with Some arr => tracked_spks arr ∅ | None => [] end in
  if bool_decide (spks = []) then (set [], None) else (set spks, Some spks).

Definition reply_of (out : list (Text * Json)) : option Json :=
  match out with [] => None | _ => Some (JObj out) end.
Definition handle_client_json (state : ClientState) (msg : Json) : ClientState * option Json :=
  match msg with
  | JObj _ =>
      let state := match json_get msg (text_of "track-address") with
        | Some v => apply_track_address state v | None => state end in
      let '(state, map) := match json_get msg (text_of "track-addresses") with
        | Some v => apply_track_addresses state v | None => (state, None) end in
      let out := match map with
        | Some map => emit_multi "multi-address-transactions" (List.map (fun p : Text * Text => (p.1, buckets_default)) (text_iter map))
        | None => [] end in
      let '(state, spks) := match json_get msg (text_of "track-scriptpubkeys") with
        | Some v => apply_track_scriptpubkeys state v | None => (state, None) end in
      let out := out ++ match spks with
        | Some spks => emit_multi "multi-scriptpubkey-transactions" (List.map (fun spk => (spk, buckets_default)) spks)
        | None => [] end in
      (state, reply_of out)
  | _ => (state, None)
  end.

(** The transactions that touch a key. *)
Definition hits (txs : list Json) (key : Text) : list Json := filter (fun tx => tx_matches tx key = true) txs.
Definition hit_field (name : string) (l : list Json) : list (Text * Json) :=
  match l with [] => [] | _ => [(text_of name, JArr l)] end.
(** One bucket per key that has hits, the event only if there is one. *)
Definition multi_field (name : string) (keys : list (Text * Text)) (bucket : Text -> TxBuckets) : list (Text * Json) :=
  let per_key := filter (fun p : Text * TxBuckets =>
      b_mempool p.2 <> [] \/ b_confirmed p.2 <> [] \/ b_removed p.2 <> [])
    (map (fun p : Text * Text => (p.1, bucket p.2)) keys) in
  match per_key with [] => [] | _ => emit_multi name per_key end.
Definition spk_keys (state : ClientState) : list (Text * Text) := map (fun spk => (spk, spk)) (track_scriptpubkeys state).

Definition on_mempool (state : ClientState) (added removed : list Json) : option Json :=
  let bucket key := mkBuckets (hits added key) [] (hits removed key) in
  reply_of (
    match track_address state with
    | Some canon => hit_field "address-transactions" (hits added canon)
                    ++ hit_field "address-removed-transactions" (hits removed canon)
    | None => []
    end
    ++ multi_field "multi-address-transactions" (text_iter (track_addresses state)) bucket
    ++ multi_field "multi-scriptpubkey-transactions" (spk_keys state) bucket).
Definition on_block (state : ClientState) (confirmed : list Json) : option Json :=
  let bucket key := mkBuckets [] (hits confirmed key) [] in
  reply_of (
    match track_address state with
    | Some canon => hit_field "block-transactions" (hits confirmed canon)
    | None => []
    end
    ++ multi_field "multi-address-transactions" (text_iter (track_addresses state)) bucket
    ++ multi_field "multi-scriptpubkey-transactions" (spk_keys state) bucket).

(** ** The hub *)

Record MempoolTxBodies := mkBodies { by_txid : gmap Text Json; order : list Text }.
Record TipBlock := mkTipBlock { tb_hash : BlockHash; tb_txs : list Json }.
(** The events in the channel of a client, when a socket reads them. *)
Record HubClient := mkHubClient { hc_state : ClientState; hc_out : option (list Json) }.
Record MwckHub := mkHub {
  clients : gmap Z HubClient; next_id : Z;
  recent_confirmed : gmap nat TipBlock; mempool_tx_bodies : MempoolTxBodies }.
Definition hub_new : MwckHub := mkHub ∅ 1 ∅ (mkBodies ∅ []).
Definition with_clients (hub : MwckHub) (c : gmap Z HubClient) : MwckHub :=
  mkHub c (next_id hub) (recent_confirmed hub) (mempool_tx_bodies hub).
Definition with_recent (hub : MwckHub) (r : gmap nat TipBlock) : MwckHub :=
  mkHub (clients hub) (next_id hub) r (mempool_tx_bodies hub).
Definition with_bodies (hub : MwckHub) (b : MempoolTxBodies) : MwckHub :=
  mkHub (clients hub) (next_id hub) (recent_confirmed hub) b.

(** [while by_txid.len() >= MAX_MEMPOOL_TX_BODIES] *)
Fixpoint evict (bodies : gmap Text Json) (order : list Text) : MempoolTxBodies :=
  if decide (MAX_MEMPOOL_TX_BODIES <= size bodies) then
    match order with
    | old :: order => evict (delete old bodies) order
    | [] => mkBodies bodies []
    end
  else mkBodies bodies order.
Definition remember_mempool_body (cache : MempoolTxBodies) (tx : Json) : MempoolTxBodies :=
  if negb (is_full_tx_object tx) then cache
  else match json_txid tx with
  | None => cache
  | Some txid =>
      match by_txid cache !! txid with
      | Some _ => mkBodies (<[txid := tx]> (by_txid cache)) (order cache)
      | None =>
          let cache := evict (by_txid cache) (order cache) in
          mkBodies (<[txid := tx]> (by_txid cache)) (order cache ++ [txid])
      end
  end.
Definition remember_mempool_bodies (hub : MwckHub) (txs : list Json) : MwckHub :=
  with_bodies hub (fold_left remember_mempool_body txs (mempool_tx_bodies hub)).

(** Clients come and go. *)
Definition attach (hub : MwckHub) (state : ClientState) (out : option (list Json)) : MwckHub * Z :=
  let id := next_id hub in
  (mkHub (<[id := mkHubClient state out]> (clients hub)) (wrap64 (id + 1)) (recent_confirmed hub) (mempool_tx_bodies hub), id).
Definition register_socket (hub : MwckHub) : MwckHub * Z := attach hub client_default (Some []).
Definition set_client_state (hub : MwckHub) (id : Z) (state : ClientState) : MwckHub :=
  match clients hub !! id with
  | Some client => with_clients hub (<[id := mkHubClient state (hc_out client)]> (clients hub))
  | None => hub
  end.
Definition detach_client (hub : MwckHub) (id : Z) : MwckHub := with_clients hub (delete id (clients hub)).
(** Each client with an event and a channel gets it. *)
Definition deliver (event : ClientState -> option Json) (client : HubClient) : HubClient :=
  match event (hc_state client), hc_out client with
  | Some ev, Some out => mkHubClient (hc_state client) (Some (out ++ [ev]))
  | _, _ => client
  end.
Definition broadcast_event (hub : MwckHub) (event : ClientState -> option Json) : MwckHub :=
  with_clients hub (deliver event <$> clients hub).
Definition notify_block (hub : MwckHub) (confirmed : list Json) : MwckHub :=
  broadcast_event hub (fun state => on_block state confirmed).
Definition notify_blocks (hub : MwckHub) (blocks : list (list Json)) : MwckHub :=
  match concat blocks with [] => hub | confirmed => notify_block hub confirmed end.

Section hub.
Context {D : Type} {RDB : RocksDB D} {BL : BitcoinLib} {W : Wincode}.
Context {EL : ElectrumLib} {SL : ScriptLib} {TS : TxSize} {RL : RestLib}.
Context (cfg : RestConfig).
Implicit Types q : Query D.
Abbreviation network := (network_type (rc_query cfg)).

(** *** Dropped transactions *)

(** The texts of the ids of removed transactions whose body is not given. *)
Definition stub_txids (removed : list Json) : list Text :=
  omap (fun v => if is_full_tx_object v then None else json_txid v) removed.
Definition body_of q (txid_s : Text) : result (option Json) :=
  match parse_hash txid_s with
  | None => Ok None
  | Some txid =>
      o ← Query.lookup_txn q txid;
      match o with
      | None => Ok None
      | Some tx => values ← transactions_as_json network q [(tx, None)]; Ok (head values)
      end
  end.
Fixpoint bodies_from_query q (txids : list Text) (available : gmap Text Json) : result (gmap Text Json) :=
  match txids with
  | [] => Ok available
  | txid_s :: txids =>
      match available !! txid_s with
      | Some _ => bodies_from_query q txids available
      | None =>
          o ← body_of q txid_s;
          bodies_from_query q txids (match o with Some full => <[txid_s := full]> available | None => available end)
      end
  end.
Definition bodies_from_cache (cache : MempoolTxBodies) (txids : list Text) : gmap Text Json :=
  fold_left (fun available txid_s =>
    match by_txid cache !! txid_s with Some full => <[txid_s := full]> available | None => available end) txids ∅.
(** The bodies are dropped from the map and stay in the queue. *)
Definition forget_bodies (cache : MempoolTxBodies) (removed : list Json) : MempoolTxBodies :=
  mkBodies (fold_left (fun m v => match json_txid v with Some txid => delete txid m | None => m end) removed (by_txid cache))
    (order cache).
Definition enrich_removed q (hub : MwckHub) (removed : list Json) : result (MwckHub * list Json) :=
  let cache := mempool_tx_bodies hub in
  available ← bodies_from_query q (stub_txids removed) (bodies_from_cache cache (stub_txids removed));
  Ok (with_bodies hub (forget_bodies cache removed), prefer_full_removed removed available).

Definition notify_mempool q (hub : MwckHub) (added removed : list Json) : result MwckHub :=
  let hub := remember_mempool_bodies hub added in
  r ← enrich_removed q hub removed;
  let '(hub, removed) := r in
  Ok (broadcast_event hub (fun state => on_mempool state added removed)).

(** *** A new tip *)

Definition block_at q (height : nat) : result (option TipBlock) :=
  and_then (hash_by_height (q_chain q) height) (fun hash =>
    o ← get_block_txs (q_chain q) hash;
    match o with
    | Some txs =>
        let blockid := blockid_by_hash (q_chain q) hash in
        values ← transactions_as_json network q (map (fun tx => (tx, blockid)) txs);
        Ok (Some (mkTipBlock hash values))
    | None => Ok (Some (mkTipBlock hash []))
    end).
(** The entries of the [BTreeMap] by height. *)
Definition height_le {A} (x y : nat * A) : Prop := x.1 <= y.1.
#[export] Instance height_le_dec {A} : RelDecision (@height_le A).
Proof. intros x y. unfold height_le. apply _. Defined.
Definition height_iter {A} (m : gmap nat A) : list (nat * A) := merge_sort height_le (map_to_list m).
Definition is_stale q (p : nat * TipBlock) : result bool :=
  cur ← block_at q p.1;
  Ok (match cur with Some cur => negb (bool_decide (tb_hash cur = tb_hash p.2)) | None => true end).
(** The loop over the stale heights: what was orphaned and what replaces it. *)
Fixpoint replace_stale q (stale : list (nat * TipBlock)) : result (list Json * list (nat * TipBlock)) :=
  match stale with
  | [] => Ok ([], [])
  | (h, old) :: stale =>
      cur ← block_at q h;
      r ← replace_stale q stale;
      Ok (tb_txs old ++ r.1, match cur with Some cur => (h, cur) :: r.2 | None => r.2 end)
  end.
Fixpoint forward_blocks q (heights : list nat) : result (list (nat * TipBlock)) :=
  match heights with
  | [] => Ok []
  | h :: heights =>
      cur ← block_at q h;
      r ← forward_blocks q heights;
      Ok (match cur with Some cur => (h, cur) :: r | None => r end)
  end.
Definition store_blocks (recent : gmap nat TipBlock) (to_store : list (nat * TipBlock)) : gmap nat TipBlock :=
  fold_left (fun m p => <[p.1 := p.2]> m) to_store recent.
(** The sequence of [retain] on a [BTreeMap]. *)
Definition retain_from (keep_from : nat) (m : gmap nat TipBlock) : gmap nat TipBlock :=
  filter (fun p : nat * TipBlock => keep_from <= p.1) m.
Definition notify_new_tip q (hub : MwckHub) (prev_height new_height : nat) : result MwckHub :=
  let recent := recent_confirmed hub in
  flags ← rmap (is_stale q) (height_iter recent);
  let stale := map fst (filter (fun p : nat * TipBlock * bool => p.2 = true) (zip (height_iter recent) flags)) in
  r ← replace_stale q stale;
  let '(orphaned, replacements) := r in
  let recent := fold_left (fun m p => delete p.1 m) stale recent in
  let new_heights := filter (fun h => recent !! h = None /\ h ∉ replacements.*1)
    (seq (prev_height + 1) (new_height - prev_height)) in
  forward ← forward_blocks q new_heights;
  hub ← (match orphaned with [] => Ok (with_recent hub recent) | _ => notify_mempool q (with_recent hub recent) [] orphaned end);
  let to_store := replacements ++ forward in
  let hub := notify_blocks hub (filter (fun l => l <> []) (map (fun p => tb_txs p.2) to_store)) in
  Ok (with_recent hub (retain_from (new_height - 16) (store_blocks (recent_confirmed hub) to_store))).

(** *** Subscribing *)

Definition parse_address_script (addr : Text) : option Script :=
  unchecked ← parse_address addr;
  if bool_decide (network ∈ testnet_family) then find_map (require_network unchecked) testnet_family
  else require_network unchecked network.
Definition nonempty_script (hex : Text) : option Script :=
  match hex_decode hex with Some [] => None | o => o end.
Definition script_from_address_key (orig canon : Text) : option Script :=
  if is_hex_len orig 66 || is_hex_len orig 130 then nonempty_script canon else parse_address_script orig.
Definition snapshot_from_script q (script : Script) : result TxBuckets :=
  let scripthash := compute_script_hash script in
  let limit := Z.to_nat (rest_default_max_mempool_txs cfg) in
  pool ← Mempool.history (q_mempool q) scripthash None limit;
  mempool ← transactions_as_json network q (map (fun tx => (tx, None)) pool);
  txids ← ChainQuery.history_txids (q_chain q) scripthash (limit - length mempool);
  confirmed_pairs ← it_collect (it_filter_map (fun p : Txid * BlockId =>
      map_opt (fun tx => (tx, Some p.2)) (Query.lookup_txn q p.1)) (it_of txids));
  confirmed ← transactions_as_json network q confirmed_pairs;
  Ok (mkBuckets mempool confirmed []).
Definition snapshot_from_address q (orig canon : Text) : result TxBuckets :=
  match script_from_address_key orig canon with Some script => snapshot_from_script q script | None => Ok buckets_default end.
Definition snapshot_from_spk q (spk : Text) : result TxBuckets :=
  match nonempty_script spk with Some script => snapshot_from_script q script | None => Ok buckets_default end.
Definition snapshot_for q (orig : Text) (canon : option Text) : result TxBuckets :=
  match canon with Some canon => snapshot_from_address q orig canon | None => snapshot_from_spk q orig end.
(** The loop over the keys of one event of the reply. *)
Fixpoint fill_keys q (hub : MwckHub) (keys : list (Text * option Text)) (obj : list (Text * Json))
    : result (MwckHub * list (Text * Json)) :=
  match keys with
  | [] => Ok (hub, obj)
  | (orig, canon) :: keys =>
      buckets ← snapshot_for q orig canon;
      fill_keys q (remember_mempool_bodies hub (b_mempool buckets)) keys (obj_insert obj orig (TxBuckets_json buckets))
  end.
(** [reply.get_mut(name).and_then(|v| v.as_object_mut())] *)
Definition fill_event q (hub : MwckHub) (name : string) (keys : list (Text * option Text)) (reply : Json)
    : result (MwckHub * Json) :=
  match reply, json_get reply (text_of name) with
  | JObj fields, Some (JObj obj) =>
      r ← fill_keys q hub keys obj;
      Ok (r.1, JObj (map (fun p : Text * Json => if decide (p.1 = text_of name) then (p.1, JObj r.2) else p) fields))
  | _, _ => Ok (hub, reply)
  end.
Definition fill_subscribe_snapshot q (hub : MwckHub) (state : ClientState) (reply : Json) : result (MwckHub * Json) :=
  r ← fill_event q hub "multi-address-transactions"
        (map (fun p : Text * Text => (p.1, Some p.2)) (text_iter (track_addresses state))) reply;
  fill_event q r.1 "multi-scriptpubkey-transactions" (map (fun spk => (spk, None)) (track_scriptpubkeys state)) r.2.

Definition handle_authorized_json (allow : gset FullHash) (pubkey : FullHash) (state : ClientState) (msg : Json)
    : ClientState * option Json :=
  if bool_decide (pubkey ∈ allow) then handle_client_json state msg else (state, None).
Definition handle_socket q (hub : MwckHub) (allow : gset FullHash) (pubkey : FullHash) (state : ClientState) (msg : Json)
    : result (MwckHub * ClientState * option Json) :=
  match handle_authorized_json allow pubkey state msg with
  | (state, None) => Ok (hub, state, None)
  | (state, Some reply) =>
      r ← fill_subscribe_snapshot q hub state reply; Ok (r.1, state, Some r.2)
  end.
End hub.
