(* ===== verification/MwckFacts.v ===== *)
(** * What the mempool watcher keeps and tells

    The cache of transaction bodies is bounded in every hub that can arise, but the queue
    that orders it is not.  An event mentions exactly the transactions that touch a
    tracked key.  When the tip moves, clients are told of the transactions of the orphaned
    blocks and then of those of the new ones, and the hub remembers the current blocks. *)

From S2P Require Import Prelude Iter RocksDB DB Bitcoin HeaderList Rows Fetch Fees.
From S2P Require Import Indexer IndexerSync ChainQuery ChainView ChainBlocks ChainHistory Mempool Query QueryFacts.
From S2P Require Import Text Json Electrum ElectrumFacts Auth Sigops RestValues Rest RestFacts Mwck.

(** ** The cache of bodies *)

Lemma max_bodies_pos : 0 < MAX_MEMPOOL_TX_BODIES.
Proof. unfold MAX_MEMPOOL_TX_BODIES. apply Nat.mul_pos_pos; lia. Qed.
#[local] Opaque MAX_MEMPOOL_TX_BODIES.

(** The map is bounded, every body in it is queued, and is kept under its own id. *)
Record bodies_ok (b : MempoolTxBodies) : Prop := {
  bo_size : size (by_txid b) <= MAX_MEMPOOL_TX_BODIES;
  bo_queued txid : is_Some (by_txid b !! txid) -> txid ∈ order b;
  bo_own txid tx : by_txid b !! txid = Some tx -> json_txid tx = Some txid /\ is_full_tx_object tx = true;
}.
Lemma bodies_new_ok : bodies_ok (mempool_tx_bodies hub_new).
Proof.
  split; cbn.
  - rewrite map_size_empty. lia.
  - intros t [x Hx]. by rewrite lookup_empty in Hx.
  - intros t x Hx. by rewrite lookup_empty in Hx.
Qed.
Lemma evict_ok order : forall bodies,
  (forall txid, is_Some (bodies !! txid) -> txid ∈ order) ->
  size (by_txid (evict bodies order)) < MAX_MEMPOOL_TX_BODIES /\
  (forall txid, is_Some (by_txid (evict bodies order) !! txid) -> txid ∈ Mwck.order (evict bodies order)) /\
  by_txid (evict bodies order) ⊆ bodies.
Proof.
  pose proof max_bodies_pos as Hpos.
  induction order as [|old order IH]; intros bodies Hq; cbn [evict].
  - assert (bodies = ∅) as ->.
    { apply map_empty. intros t. destruct (bodies !! t) as [x|] eqn:E; [|done].
      specialize (Hq t (mk_is_Some _ _ E)). by apply elem_of_nil in Hq. }
    rewrite decide_False by (rewrite map_size_empty; lia). cbn [by_txid Mwck.order]. rewrite map_size_empty.
    split; [lia|]. split; [|done]. intros t [x Hx]. by rewrite lookup_empty in Hx.
  - case_decide as Hsz; cbn [by_txid Mwck.order].
    + destruct (IH (delete old bodies)) as (H1 & H2 & H3).
      { intros t [x [Hne Hx]%lookup_delete_Some]. specialize (Hq t (mk_is_Some _ _ Hx)). set_solver. }
      split; [done|]. split; [done|]. etrans; [exact H3|apply delete_subseteq].
    + split; [lia|]. done.
Qed.
Lemma remember_ok b tx : bodies_ok b -> bodies_ok (remember_mempool_body b tx).
Proof.
  intros Hb. unfold remember_mempool_body. destruct (is_full_tx_object tx) eqn:Ef; [|done]. cbn [negb].
  destruct (json_txid tx) as [txid|] eqn:Et; [|done]. destruct (by_txid b !! txid) as [old|] eqn:Eb.
  - split; cbn.
    + rewrite map_size_insert_Some by (by eexists). exact (bo_size _ Hb).
    + intros t [x Hx]. destruct (decide (txid = t)) as [<-|Hne]; [by apply (bo_queued _ Hb); eexists|].
      rewrite lookup_insert_ne in Hx by done. by apply (bo_queued _ Hb); eexists.
    + intros t x. rewrite lookup_insert_Some. intros [[<- <-]|[_ Hx]]; [done|by apply (bo_own _ Hb)].
  - destruct (evict_ok (order b) (by_txid b) (bo_queued _ Hb)) as (H1 & H2 & H3).
    assert (by_txid (evict (by_txid b) (order b)) !! txid = None) as Hn.
    { destruct (by_txid (evict _ _) !! txid) as [x|] eqn:E; [|done].
      rewrite (lookup_weaken _ _ _ _ E H3) in Eb. done. }
    split; cbn.
    + rewrite map_size_insert_None by done. lia.
    + intros t [x Hx]. rewrite elem_of_app, list_elem_of_singleton.
      destruct (decide (txid = t)) as [<-|Hne]; [by right|]. rewrite lookup_insert_ne in Hx by done. left. apply H2. by eexists.
    + intros t x. rewrite lookup_insert_Some. intros [[<- <-]|[_ Hx]]; [done|].
      apply (bo_own _ Hb). by eapply lookup_weaken.
Qed.
Lemma remember_all_ok b txs : bodies_ok b -> bodies_ok (fold_left remember_mempool_body txs b).
Proof. revert b. induction txs as [|tx txs IH]; intros b Hb; [done|]. cbn. by apply IH, remember_ok. Qed.
Lemma forget_sub (removed : list Json) : forall m : gmap Text Json,
  fold_left (fun m v => match json_txid v with Some txid => delete txid m | None => m end) removed m ⊆ m.
Proof.
  induction removed as [|v removed IH]; intros m; [done|]. cbn. etrans; [apply IH|].
  destruct (json_txid v); [apply delete_subseteq|done].
Qed.
Lemma forget_ok b removed : bodies_ok b -> bodies_ok (forget_bodies b removed).
Proof.
  intros Hb. pose proof (forget_sub removed (by_txid b)) as Hsub. split; cbn.
  - etrans; [by apply map_subseteq_size|exact (bo_size _ Hb)].
  - intros t [x Hx]. apply (bo_queued _ Hb). exists x. by eapply lookup_weaken.
  - intros t x Hx. apply (bo_own _ Hb). by eapply lookup_weaken.
Qed.

(** ** Hubs that arise *)

Lemma tx_json_full `{!ElectrumLib} v :
  is_full_tx_object (TransactionValue_json v) = true /\ json_txid (TransactionValue_json v) = Some (display_hash (tv_txid v)).
Proof.
  unfold is_full_tx_object, json_txid, TransactionValue_json. cbn [app]. autorewrite with json.
  repeat (destruct (decide _); try done).
Qed.

Section hubs.
Context {D : Type} {RDB : RocksDB D} {BL : BitcoinLib} {W : Wincode}.
Context {EL : ElectrumLib} {SL : ScriptLib} {TS : TxSize} {RL : RestLib}.
Context (cfg : RestConfig).
Implicit Types (q : Query D) (hub : MwckHub).
Abbreviation network := (network_type (rc_query cfg)).

Definition all_full (l : list Json) : Prop := Forall (fun v => is_full_tx_object v = true) l.
(** Blocks remember whole transactions, not ids. *)
Definition blocks_full (l : list (nat * TipBlock)) : Prop := Forall (fun p => all_full (tb_txs p.2)) l.
Definition recent_ok (r : gmap nat TipBlock) : Prop := map_Forall (fun _ tb => all_full (tb_txs tb)) r.

Lemma json_full q txs values : transactions_as_json network q txs = Ok values -> all_full values.
Proof.
  unfold transactions_as_json. intros H. rsimp. apply Forall_forall. intros v (tv & -> & _)%elem_of_map.
  apply tx_json_full.
Qed.
Lemma block_at_full q h tb : block_at cfg q h = Ok (Some tb) -> all_full (tb_txs tb).
Proof.
  unfold block_at, and_then. intros H. apply bind_Ok in H as ([hash|] & _ & H); [|done].
  apply bind_Ok in H as ([txs|] & _ & H); [|injection H as <-; constructor].
  apply bind_Ok in H as (values & Hv & H). injection H as <-. by eapply json_full.
Qed.
Lemma replace_stale_full q stale : forall o r,
  blocks_full stale -> replace_stale cfg q stale = Ok (o, r) -> all_full o /\ blocks_full r.
Proof.
  induction stale as [|[h old] stale IH]; intros o r Hs H; cbn [replace_stale] in H.
  { injection H as <- <-. split; constructor. }
  apply Forall_cons in Hs as [Hold Hs]. apply bind_Ok in H as (x & Hx & H).
  apply bind_Ok in H as ([o' r'] & Hrest & H). injection H as <- <-. destruct (IH o' r' Hs Hrest) as [Ho Hr].
  split; [by apply Forall_app|]. destruct x as [tb|]; [|done]. constructor; [by eapply block_at_full|done].
Qed.
Lemma forward_full q heights : forall r, forward_blocks cfg q heights = Ok r -> blocks_full r.
Proof.
  induction heights as [|h heights IH]; intros r H; cbn [forward_blocks] in H; [injection H as <-; constructor|].
  apply bind_Ok in H as (x & Hx & H). apply bind_Ok in H as (r' & Hr & H). injection H as <-.
  destruct x as [tb|]; [|by apply IH]. constructor; [by eapply block_at_full|by apply IH].
Qed.
Lemma height_iter_elem {A} (m : gmap nat A) h a : (h, a) ∈ height_iter m <-> m !! h = Some a.
Proof. unfold height_iter. by rewrite merge_sort_Permutation, elem_of_map_to_list. Qed.
Lemma stale_sub {A B} (l : list A) (flags : list B) (P : A * B -> Prop) `{forall x, Decision (P x)} x :
  x ∈ map fst (filter P (zip l flags)) -> x ∈ l.
Proof.
  intros (p & -> & [_ Hp]%list_elem_of_filter)%elem_of_map. destruct p as [a b]. by apply elem_of_zip_l in Hp.
Qed.
Lemma store_lookup to_store : forall (r : gmap nat TipBlock) h tb,
  store_blocks r to_store !! h = Some tb -> (h, tb) ∈ to_store \/ r !! h = Some tb.
Proof.
  unfold store_blocks. induction to_store as [|[k x] l IH]; intros r h tb H; [by right|]. cbn in H.
  apply IH in H as [H|H]; [left; by right|]. apply lookup_insert_Some in H as [[<- <-]|[_ H]]; [left; by left|by right].
Qed.
Lemma recent_delete_ok stale : forall r : gmap nat TipBlock,
  recent_ok r -> recent_ok (fold_left (fun m (p : nat * TipBlock) => delete p.1 m) stale r).
Proof.
  induction stale as [|p stale IH]; intros r Hr; [done|]. cbn. apply IH. by apply map_Forall_delete.
Qed.

(** The parts of the hub a notification leaves alone. *)
Lemma notify_mempool_parts q hub added removed hub' :
  notify_mempool cfg q hub added removed = Ok hub' -> bodies_ok (mempool_tx_bodies hub) ->
  bodies_ok (mempool_tx_bodies hub') /\ recent_confirmed hub' = recent_confirmed hub.
Proof.
  unfold notify_mempool, enrich_removed. intros H Hb. rsimp. split; [|done]. apply forget_ok. by apply remember_all_ok.
Qed.
Lemma notify_blocks_parts hub blocks :
  mempool_tx_bodies (notify_blocks hub blocks) = mempool_tx_bodies hub /\
  recent_confirmed (notify_blocks hub blocks) = recent_confirmed hub.
Proof. unfold notify_blocks. by destruct (concat blocks). Qed.

Definition hub_ok hub : Prop := bodies_ok (mempool_tx_bodies hub) /\ recent_ok (recent_confirmed hub).

Lemma new_tip_ok q hub prev_height new_height hub' :
  notify_new_tip cfg q hub prev_height new_height = Ok hub' -> hub_ok hub ->
  hub_ok hub' /\ forall h, is_Some (recent_confirmed hub' !! h) -> new_height - 16 <= h.
Proof.
  intros H [Hb Hr]. unfold notify_new_tip in H. apply bind_Ok in H as (flags & Hflags & H).
  set (stale := map fst _) in H.
  apply bind_Ok in H as ([orphaned replacements] & Hrep & H). apply bind_Ok in H as (forward & Hfwd & H).
  apply bind_Ok in H as (hub1 & Hhub1 & H). injection H as <-.
  assert (blocks_full stale) as Hstale.
  { apply Forall_forall. intros [h tb] Hin%stale_sub. apply height_iter_elem in Hin. exact (Hr h tb Hin). }
  destruct (replace_stale_full q stale _ _ Hstale Hrep) as [_ Hfull].
  apply forward_full in Hfwd.
  assert (bodies_ok (mempool_tx_bodies hub1) /\ recent_confirmed hub1 = fold_left (fun m p => delete p.1 m) stale (recent_confirmed hub)) as [Hb1 Hr1].
  { destruct orphaned as [|o orphaned]; [by injection Hhub1 as <-|].
    apply notify_mempool_parts in Hhub1 as [H1 H2]; done. }
  destruct (notify_blocks_parts hub1 (filter (fun l => l <> []) (map (fun p => tb_txs p.2) (replacements ++ forward)))) as [Hnb Hnr].
  split; [split|].
  - cbn. by rewrite Hnb.
  - cbn. rewrite Hnr, Hr1. intros h tb Hin. unfold retain_from in Hin. apply map_lookup_filter_Some in Hin as [Hin _].
    apply store_lookup in Hin as [Hin|Hin].
    + assert (blocks_full (replacements ++ forward)) as Hall by (by apply Forall_app).
      unfold blocks_full in Hall. rewrite Forall_forall in Hall. exact (Hall _ Hin).
    + by apply (recent_delete_ok stale (recent_confirmed hub) Hr h tb).
  - cbn. intros h [tb Hin]. unfold retain_from in Hin. by apply map_lookup_filter_Some in Hin as [_ Hin].
Qed.
Lemma fill_keys_ok q keys : forall hub obj hub' obj',
  fill_keys cfg q hub keys obj = Ok (hub', obj') -> hub_ok hub -> hub_ok hub'.
Proof.
  induction keys as [|[orig canon] keys IH]; intros hub obj hub' obj' H Hh; cbn [fill_keys] in H.
  { by injection H as <- <-. }
  apply bind_Ok in H as (b & _ & H). eapply IH; [exact H|]. destruct Hh as [H1 H2]. split; [by apply remember_all_ok|done].
Qed.
Lemma fill_event_ok q hub name keys reply r :
  fill_event cfg q hub name keys reply = Ok r -> hub_ok hub -> hub_ok r.1.
Proof.
  unfold fill_event. intros H Hh. destruct reply; try (by injection H as <-).
  destruct (json_get _ _) as [[]|]; try (by injection H as <-).
  apply bind_Ok in H as ([hub' obj'] & Hk & H). injection H as <-. by eapply fill_keys_ok.
Qed.

(** The events in the life of a hub. *)
Inductive hub_step : MwckHub -> MwckHub -> Prop :=
  | HS_register hub : hub_step hub (register_socket hub).1
  | HS_state hub id state : hub_step hub (set_client_state hub id state)
  | HS_detach hub id : hub_step hub (detach_client hub id)
  | HS_mempool hub q added removed hub' :
      notify_mempool cfg q hub added removed = Ok hub' -> hub_step hub hub'
  | HS_tip hub q prev_height new_height hub' :
      notify_new_tip cfg q hub prev_height new_height = Ok hub' -> hub_step hub hub'
  | HS_socket hub q allow pubkey state msg hub' state' reply :
      handle_socket cfg q hub allow pubkey state msg = Ok (hub', state', reply) -> hub_step hub hub'.
Inductive hub_reachable : MwckHub -> Prop :=
  | HR_new : hub_reachable hub_new
  | HR_step hub hub' : hub_reachable hub -> hub_step hub hub' -> hub_reachable hub'.

Lemma hub_step_ok hub hub' : hub_step hub hub' -> hub_ok hub -> hub_ok hub'.
Proof.
  intros [] Hh; try done.
  - unfold set_client_state. by destruct (clients _ !! id).
  - destruct Hh as [Hb Hr]. apply notify_mempool_parts in H as [H1 H2]; [|done]. split; [done|by rewrite H2].
  - by apply new_tip_ok in H as [H _].
  - unfold handle_socket in H. destruct (handle_authorized_json allow pubkey state msg) as [st [r|]].
    + apply bind_Ok in H as ([hub1 j] & Hf & H). injection H as <- <- <-. unfold fill_subscribe_snapshot in Hf.
      apply bind_Ok in Hf as ([hub2 j2] & Hf2 & Hf). apply fill_event_ok in Hf2; [|done]. by apply fill_event_ok in Hf.
    + by injection H as <- <- <-.
Qed.

(** In every hub that can arise the cache holds at most 65,536 transaction bodies,
    each a whole transaction under its own id and queued for eviction, and the recent
    blocks remember whole transactions. *)
Lemma hub_bodies_bounded hub : hub_reachable hub -> hub_ok hub.
Proof.
  induction 1 as [|hub hub' _ IH Hs]; [|by eapply hub_step_ok]. split; [exact bodies_new_ok|apply map_Forall_empty].
Qed.

(** A transaction that enters and leaves the mempool leaves its id in the queue. *)
Definition passing_tx : Json := jobj [("txid", jstr "aa"); ("vin", JArr [])].
Lemma passing_round q hub :
  by_txid (mempool_tx_bodies hub) = ∅ ->
  exists hub1 hub2, notify_mempool cfg q hub [passing_tx] [] = Ok hub1 /\ notify_mempool cfg q hub1 [] [passing_tx] = Ok hub2 /\
    by_txid (mempool_tx_bodies hub2) = ∅ /\ length (order (mempool_tx_bodies hub2)) = S (length (order (mempool_tx_bodies hub))).
Proof.
  intros He. eexists _, _. split; [reflexivity|]. split; [reflexivity|].
  cbn [broadcast_event with_clients mempool_tx_bodies with_bodies remember_mempool_bodies fold_left forget_bodies].
  assert (remember_mempool_body (mempool_tx_bodies hub) passing_tx =
    mkBodies {[text_of "aa" := passing_tx]} (order (mempool_tx_bodies hub) ++ [text_of "aa"])) as ->.
  { unfold remember_mempool_body. change (is_full_tx_object passing_tx) with true.
    change (json_txid passing_tx) with (Some (text_of "aa")). cbn [negb]. rewrite He, lookup_empty.
    assert (evict ∅ (order (mempool_tx_bodies hub)) = mkBodies ∅ (order (mempool_tx_bodies hub))) as ->.
    { pose proof max_bodies_pos. destruct (order (mempool_tx_bodies hub)); cbn [evict];
        rewrite decide_False by (rewrite map_size_empty; lia); done. }
    done. }
  cbn [by_txid order]. change (json_txid passing_tx) with (Some (text_of "aa")). cbn iota beta.
  split; [apply delete_singleton_eq|].
  change (length (order (mempool_tx_bodies hub) ++ [text_of "aa"]) = S (length (order (mempool_tx_bodies hub)))).
  rewrite length_app. cbn. lia.
Qed.

(** The queue behind the cache has no bound: for any number there is a hub that can
    arise, with no body in its cache and that many ids in its queue. *)
Lemma body_queue_unbounded (q0 : Query D) n :
  exists hub, hub_reachable hub /\ by_txid (mempool_tx_bodies hub) = ∅ /\ length (order (mempool_tx_bodies hub)) = n.
Proof.
  induction n as [|n (hub & Hr & He & Hn)]; [exists hub_new; split; [constructor|done]|].
  destruct (passing_round q0 hub He) as (hub1 & hub2 & H1 & H2 & He2 & Hn2). exists hub2. rewrite Hn2, Hn.
  split; [|done]. eapply HR_step; [eapply HR_step; [exact Hr|]|]; eapply HS_mempool; eauto.
Qed.
End hubs.

(** ** What an event says *)

Lemma json_get_app f1 f2 k :
  json_get (JObj (f1 ++ f2)) k = match json_get (JObj f1) k with Some v => Some v | None => json_get (JObj f2) k end.
Proof.
  induction f1 as [|[k' v] f1 IH]; [done|]. cbn. destruct (decide (k' = k)); [done|]. cbn in IH.
  destruct (list_find _ (f1 ++ f2)) as [[i p]|], (list_find _ f1) as [[j p']|]; cbn in *; congruence.
Qed.
Lemma json_get_In (l : list (Text * Json)) k v :
  NoDup l.*1 -> json_get (JObj l) k = Some v <-> (k, v) ∈ l.
Proof.
  intros Hnd. cbn. split.
  - destruct (list_find _ l) as [[i [k' v']]|] eqn:E; [|done]. apply list_find_Some in E as (Hi & <- & _).
    cbn. intros [= <-]. by eapply list_elem_of_lookup_2.
  - intros Hin. destruct (list_find _ l) as [[i [k' v']]|] eqn:E.
    + apply list_find_Some in E as (Hi & Hk & _). cbn in *. subst k'. f_equal.
      apply list_elem_of_lookup in Hin as [j Hj].
      assert (i = j) as ->; [|congruence]. eapply (NoDup_lookup l.*1); [done|..]; rewrite list_lookup_fmap; [by rewrite Hi|by rewrite Hj].
    + exfalso. apply list_find_None in E. rewrite Forall_forall in E. by apply (E _ Hin).
Qed.
Lemma json_get_none (l : list (Text * Json)) k : k ∉ l.*1 -> json_get (JObj l) k = None.
Proof.
  intros Hn. cbn. destruct (list_find _ l) as [[i [k' v']]|] eqn:E; [|done]. exfalso.
  apply list_find_Some in E as (Hi & Hk & _). cbn in Hk. subst k'. apply Hn. apply list_elem_of_fmap. exists (k, v').
  split; [done|by eapply list_elem_of_lookup_2].
Qed.

(** A list of transactions is mentioned when it is not empty. *)
Definition shown (l : list Json) : option Json := match l with [] => None | _ => Some (JArr l) end.
Definition bucket_shown (b : TxBuckets) : option Json :=
  if decide (b_mempool b <> [] \/ b_confirmed b <> [] \/ b_removed b <> []) then Some (TxBuckets_json b) else None.
(** The field of a key in the object of an event. *)
Definition event_key (ev : Json) (name : string) (key : Text) : option Json :=
  json_get ev (text_of name) ≫= fun o => json_get o key.

Lemma hit_field_get name l key :
  json_get (JObj (hit_field name l)) (text_of key) = if decide (name = key) then shown l else None.
Proof.
  destruct l as [|v l]; cbn; [by destruct (decide _)|]. destruct (decide (name = key)) as [->|Hne]; [by rewrite decide_True|].
  rewrite decide_False; [done|by intros ?%text_of_inj].
Qed.
Lemma multi_field_other name keys bucket key :
  name <> key -> json_get (JObj (multi_field name keys bucket)) (text_of key) = None.
Proof.
  intros Hne. apply json_get_none. unfold multi_field. destruct (filter _ _); [set_solver|]. cbn. set_unfold.
  intros [H|[]]. by apply text_of_inj in H.
Qed.
Lemma multi_field_get name keys bucket key :
  (forall k c c', (k, c) ∈ keys -> (k, c') ∈ keys -> c = c') ->
  event_key (JObj (multi_field name keys bucket)) name key =
    (canon ← snd <$> (snd <$> list_find (fun p : Text * Text => p.1 = key) keys); bucket_shown (bucket canon)).
Proof.
  intros Hf. unfold multi_field, event_key.
  set (P := fun p : Text * TxBuckets => b_mempool p.2 <> [] \/ b_confirmed p.2 <> [] \/ b_removed p.2 <> []).
  set (per_key := filter P (map (fun p : Text * Text => (p.1, bucket p.2)) keys)).
  transitivity (json_get (JObj (map (fun p : Text * TxBuckets => (p.1, TxBuckets_json p.2)) per_key)) key).
  { destruct per_key as [|p l] eqn:E; [done|]. cbn [emit_multi]. cbn. by rewrite decide_True. }
  subst per_key. induction keys as [|[k c] keys IH]; [done|]. cbn [map]. rewrite filter_cons. cbn [list_find fst snd].
  specialize (IH ltac:(intros; eapply Hf; by right)).
  assert (forall k' c', list_find (fun p : Text * Text => p.1 = key) keys = Some (k', c') -> k = key -> c'.2 = c) as Hsame.
  { intros i [k2 c2] (Hi & Hk & _)%list_find_Some ->. cbn in *. subst k2. eapply Hf; [right; by eapply list_elem_of_lookup_2|by left]. }
  destruct (decide (k = key)) as [->|Hne].
  - destruct (decide (P (key, bucket c))) as [HP|HP].
    + cbn. rewrite decide_True by done. cbn. unfold bucket_shown. by rewrite decide_True.
    + rewrite IH. destruct (list_find _ keys) as [[i c']|] eqn:E; cbn.
      * by rewrite (Hsame i c' eq_refl eq_refl).
      * unfold bucket_shown. by rewrite decide_False.
  - destruct (decide (P (k, bucket c))) as [HP|HP].
    + cbn. rewrite decide_False by done. cbn in IH.
      destruct (list_find _ (map _ (filter P _))) as [[i p]|], (list_find _ keys) as [[j c']|]; cbn in *; done.
    + rewrite IH. destruct (list_find _ keys) as [[j c']|]; done.
Qed.

Lemma text_iter_elem {A} (m : gmap Text A) k a : (k, a) ∈ text_iter m <-> m !! k = Some a.
Proof. unfold text_iter. by rewrite merge_sort_Permutation, elem_of_map_to_list. Qed.
Lemma find_assoc (l : list (Text * Text)) key c :
  (forall k c c', (k, c) ∈ l -> (k, c') ∈ l -> c = c') ->
  snd <$> (snd <$> list_find (fun p : Text * Text => p.1 = key) l) = Some c <-> (key, c) ∈ l.
Proof.
  intros Hf. destruct (list_find _ l) as [[i [k c']]|] eqn:E; cbn.
  - apply list_find_Some in E as (Hi & Hk & _). cbn in Hk. subst k. apply list_elem_of_lookup_2 in Hi. split.
    + by intros [= <-].
    + intros Hin. f_equal. by apply (Hf key).
  - apply list_find_None in E. rewrite Forall_forall in E. split; [done|]. intros Hin. by destruct (E _ Hin).
Qed.
Lemma text_iter_fun {A} (m : gmap Text A) k c c' : (k, c) ∈ text_iter m -> (k, c') ∈ text_iter m -> c = c'.
Proof. rewrite !text_iter_elem. congruence. Qed.
Lemma spk_keys_fun state k c c' : (k, c) ∈ spk_keys state -> (k, c') ∈ spk_keys state -> c = c'.
Proof. unfold spk_keys. rewrite !elem_of_map. naive_solver. Qed.
Lemma find_text_iter (m : gmap Text Text) key :
  snd <$> (snd <$> list_find (fun p : Text * Text => p.1 = key) (text_iter m)) = m !! key.
Proof.
  apply option_eq. intros c. rewrite find_assoc by (intros; by eapply text_iter_fun). by rewrite text_iter_elem.
Qed.
Lemma find_spk state key :
  snd <$> (snd <$> list_find (fun p : Text * Text => p.1 = key) (spk_keys state)) =
    if decide (key ∈ track_scriptpubkeys state) then Some key else None.
Proof.
  apply option_eq. intros c. rewrite find_assoc by (intros; by eapply spk_keys_fun).
  unfold spk_keys. rewrite elem_of_map. destruct (decide _); naive_solver.
Qed.

(** The keys a client asked for, in the form that is compared. *)
Definition tracks (state : ClientState) (key : Text) : Prop :=
  track_address state = Some key \/ (exists orig, track_addresses state !! orig = Some key) \/ key ∈ track_scriptpubkeys state.

Lemma reply_fields out : default (JObj []) (reply_of out) = JObj out.
Proof. by destruct out. Qed.
Lemma multi_field_empty name keys bucket :
  multi_field name keys bucket = [] <-> forall k c, (k, c) ∈ keys -> bucket_shown (bucket c) = None.
Proof.
  unfold multi_field, bucket_shown.
  set (P := fun p : Text * TxBuckets => b_mempool p.2 <> [] \/ b_confirmed p.2 <> [] \/ b_removed p.2 <> []).
  transitivity (filter P (map (fun p : Text * Text => (p.1, bucket p.2)) keys) = []); [by destruct (filter _ _)|].
  split.
  - intros He k c Hin. destruct (decide _) as [HP|HP]; [|done]. exfalso.
    assert ((k, bucket c) ∈ filter P (map (fun p : Text * Text => (p.1, bucket p.2)) keys)) as Hx.
    { apply list_elem_of_filter. split; [done|]. apply elem_of_map. by exists (k, c). }
    rewrite He in Hx. by apply elem_of_nil in Hx.
  - intros Hn. destruct (filter _ _) as [|p l] eqn:E; [done|]. exfalso.
    assert (p ∈ filter P (map (fun p : Text * Text => (p.1, bucket p.2)) keys)) as Hx by (rewrite E; by left).
    apply list_elem_of_filter in Hx as [HP ([k c] & -> & Hin)%elem_of_map]. specialize (Hn k c Hin).
    destruct (decide _); [done|]. by apply n.
Qed.

(** A client is sent an event for a change of the mempool exactly when an added or
    removed transaction touches a key it tracks.  The event lists, for the single
    address, the added and the removed transactions that touch it, and for every tracked
    address and script that one of them touches its added and removed ones; nothing else. *)
Lemma on_mempool_exact state added removed :
  let ev := default (JObj []) (on_mempool state added removed) in
  let bucket key := bucket_shown (mkBuckets (hits added key) [] (hits removed key)) in
  json_get ev (text_of "address-transactions") = (canon ← track_address state; shown (hits added canon)) /\
  json_get ev (text_of "address-removed-transactions") = (canon ← track_address state; shown (hits removed canon)) /\
  (forall orig, event_key ev "multi-address-transactions" orig = (canon ← track_addresses state !! orig; bucket canon)) /\
  (forall spk, event_key ev "multi-scriptpubkey-transactions" spk =
     if decide (spk ∈ track_scriptpubkeys state) then bucket spk else None) /\
  (on_mempool state added removed = None <-> forall key, tracks state key -> hits added key = [] /\ hits removed key = []).
Proof.
  intros ev bucket. subst ev. unfold on_mempool. rewrite reply_fields.
  set (b := fun key => mkBuckets (hits added key) [] (hits removed key)).
  set (single := match track_address state with Some canon => _ | None => [] end).
  set (ma := multi_field "multi-address-transactions" _ b). set (ms := multi_field "multi-scriptpubkey-transactions" _ b).
  assert (forall name, json_get (JObj single) (text_of name) = canon ← track_address state;
    if decide ("address-transactions"%string = name) then shown (hits added canon)
    else if decide ("address-removed-transactions"%string = name) then shown (hits removed canon) else None) as Hsingle.
  { intros name. subst single. destruct (track_address state) as [canon|]; [|done]. cbn [mbind option_bind].
    rewrite json_get_app, !hit_field_get. destruct (decide (_ = name)) as [<-|]; [|by destruct (decide _)].
    by destruct (shown (hits added canon)). }
  assert (forall name, "multi-address-transactions"%string <> name -> json_get (JObj ma) (text_of name) = None) as Hma
    by (intros; by apply multi_field_other).
  assert (forall name, "multi-scriptpubkey-transactions"%string <> name -> json_get (JObj ms) (text_of name) = None) as Hms
    by (intros; by apply multi_field_other).
  split; [|split; [|split; [|split]]].
  - rewrite !json_get_app, Hsingle, Hma, Hms by done. destruct (track_address state) as [c|]; [|done].
    cbn [mbind option_bind]. rewrite decide_True by done. by destruct (shown (hits added c)).
  - rewrite !json_get_app, Hsingle, Hma, Hms by done. destruct (track_address state) as [c|]; [|done].
    cbn [mbind option_bind]. rewrite decide_False, decide_True by done. by destruct (shown (hits removed c)).
  - intros orig. unfold event_key. rewrite !json_get_app, Hsingle, Hms by done.
    transitivity (event_key (JObj ma) "multi-address-transactions" orig).
    + unfold event_key. destruct (track_address state); cbn [mbind option_bind]; by destruct (json_get (JObj ma) _).
    + unfold ma. rewrite multi_field_get by (intros; by eapply text_iter_fun). by rewrite find_text_iter.
  - intros spk. unfold event_key. rewrite !json_get_app, Hsingle, Hma by done.
    transitivity (event_key (JObj ms) "multi-scriptpubkey-transactions" spk).
    + unfold event_key. by destruct (track_address state).
    + unfold ms. rewrite multi_field_get by (intros; by eapply spk_keys_fun). rewrite find_spk. by destruct (decide _).
  - transitivity (single ++ ma ++ ms = []); [by destruct (single ++ ma ++ ms)|].
    rewrite !app_nil. unfold ma, ms. rewrite !multi_field_empty.
    assert (forall key, bucket_shown (b key) = None <-> hits added key = [] /\ hits removed key = []) as Hb.
    { intros key. unfold bucket_shown, b. cbn [b_mempool b_confirmed b_removed].
      destruct (decide _) as [HP|HP].
      - split; [done|]. intros [E1 E2]. rewrite E1, E2 in HP. tauto.
      - split; [intros _|done]. split.
        + destruct (hits added key); [done|]. destruct HP. by left.
        + destruct (hits removed key); [done|]. destruct HP. right. by right. }
    assert (single = [] <-> forall key, track_address state = Some key -> hits added key = [] /\ hits removed key = []) as Hs.
    { subst single. destruct (track_address state) as [c|]; [|naive_solver]. rewrite app_nil. split.
      - intros [H1 H2] key [= <-]. by destruct (hits added c), (hits removed c).
      - intros Hk. destruct (Hk c eq_refl) as [-> ->]. done. }
    rewrite Hs. setoid_rewrite Hb. setoid_rewrite text_iter_elem. unfold tracks, spk_keys. setoid_rewrite elem_of_map.
    split; [naive_solver|]. intros Hk. split_and!; [eauto|eauto|]. intros k c (x & [= -> ->] & Hx). eauto.
Qed.

(** ** Which transactions touch a script *)

(** [hex::encode] gives lower-case digits, different ones for different bytes. *)
Class HexLaws `{!ElectrumLib} : Prop := {
  hex_lower b : to_ascii_lowercase (hex_encode b) = hex_encode b;
  hex_inj b b' : hex_encode b = hex_encode b' -> b = b';
}.

Section touched.
Context {D : Type} {RDB : RocksDB D} {W : Wincode} {BL : BitcoinLib} {EL : ElectrumLib} {HL : HexLaws} {SL : ScriptLib}.
Context (network : Network).
Implicit Types q : Query D.

(** The outputs a value shows: the previous ones and its own. *)
Definition touched_values (v : TransactionValue) : list TxOutValue := omap tiv_prevout (tv_vin v) ++ tv_vout v.

Lemma output_fields ov :
  json_get (TxOutValue_json ov) (text_of "scriptpubkey") = Some (JStr (hex_encode (tov_scriptpubkey ov))) /\
  json_get (TxOutValue_json ov) (text_of "scriptpubkey_address") = JStr <$> tov_scriptpubkey_address ov.
Proof.
  unfold TxOutValue_json. destruct (tov_scriptpubkey_address ov); cbn [jskip fmap option_fmap option_map app];
    autorewrite with json; repeat (destruct (decide _); try done).
Qed.
Lemma input_prevout iv : json_get (TxInValue_json iv) (text_of "prevout") = Some (jopt (TxOutValue_json <$> tiv_prevout iv)).
Proof. unfold TxInValue_json. cbn [app]. autorewrite with json. repeat (destruct (decide _); try done). Qed.
Lemma value_sides v :
  side_elements (TransactionValue_json v) "vin" = map TxInValue_json (tv_vin v) /\
  side_elements (TransactionValue_json v) "vout" = map TxOutValue_json (tv_vout v).
Proof.
  unfold side_elements, TransactionValue_json. cbn [app]. autorewrite with json.
  repeat (destruct (decide _); try done).
Qed.
(** A null previous output touches nothing. *)
Lemma touched_scripts v key :
  key ∈ (tx_touch_set (TransactionValue_json v)).2 <->
  exists ov, ov ∈ touched_values v /\ key = to_ascii_lowercase (hex_encode (tov_scriptpubkey ov)).
Proof.
  unfold tx_touch_set. destruct (value_sides v) as [-> ->]. cbn [fst snd].
  rewrite elem_of_list_to_set, map_app, concat_app, elem_of_app. unfold touched_values. setoid_rewrite elem_of_app.
  rewrite !map_map, !list_elem_of_In, !in_concat. setoid_rewrite <- list_elem_of_In. setoid_rewrite elem_of_map.
  setoid_rewrite list_elem_of_omap.
  assert (forall ov, element_spks (TxOutValue_json ov) = [to_ascii_lowercase (hex_encode (tov_scriptpubkey ov))]) as Ho.
  { intros ov. unfold element_spks. by rewrite (proj1 (output_fields ov)). }
  assert (forall iv, element_spks (touched_output "vin" (TxInValue_json iv)) =
    match tiv_prevout iv with Some ov => [to_ascii_lowercase (hex_encode (tov_scriptpubkey ov))] | None => [] end) as Hi.
  { intros iv. unfold touched_output. cbn [String.eqb]. rewrite input_prevout. cbn [default].
    destruct (tiv_prevout iv); cbn; [apply Ho|done]. }
  split.
  - intros [(x & (iv & -> & Hiv) & Hk)|(x & (ov & -> & Hov) & Hk)].
    + rewrite Hi in Hk. destruct (tiv_prevout iv) as [ov|] eqn:E; [|by apply elem_of_nil in Hk].
      apply list_elem_of_singleton in Hk as ->. exists ov. eauto.
    + change (touched_output "vout" (TxOutValue_json ov)) with (TxOutValue_json ov) in Hk.
      rewrite Ho in Hk. apply list_elem_of_singleton in Hk as ->. exists ov. eauto.
  - intros (ov & [(iv & Hiv & E)|Hov] & ->).
    + left. eexists. split; [by exists iv|]. rewrite Hi, E. by left.
    + right. eexists. split; [by exists ov|].
      change (touched_output "vout" (TxOutValue_json ov)) with (TxOutValue_json ov). rewrite Ho. by left.
Qed.
Lemma touched_addresses v key :
  key ∈ (tx_touch_set (TransactionValue_json v)).1 ->
  exists ov a, ov ∈ touched_values v /\ tov_scriptpubkey_address ov = Some a /\ (key = a \/ canonical_track_key a = Some key).
Proof.
  unfold tx_touch_set. destruct (value_sides v) as [-> ->]. cbn [fst snd].
  rewrite elem_of_list_to_set, map_app, concat_app, elem_of_app. unfold touched_values. setoid_rewrite elem_of_app.
  rewrite !map_map, !list_elem_of_In, !in_concat. setoid_rewrite <- list_elem_of_In. setoid_rewrite elem_of_map.
  setoid_rewrite list_elem_of_omap.
  assert (forall ov, key ∈ element_addresses (TxOutValue_json ov) -> exists a,
    tov_scriptpubkey_address ov = Some a /\ (key = a \/ canonical_track_key a = Some key)) as Ho.
  { intros ov. unfold element_addresses. rewrite (proj2 (output_fields ov)).
    destruct (tov_scriptpubkey_address ov) as [a|]; cbn; [|by intros ?%elem_of_nil].
    rewrite elem_of_cons. intros [->|Hk]; [eauto|]. exists a. split; [done|right].
    destruct (canonical_track_key a); [by apply list_elem_of_singleton in Hk as ->|by apply elem_of_nil in Hk]. }
  intros [(x & (iv & -> & Hiv) & Hk)|(x & (ov & -> & Hov) & Hk)].
  - unfold touched_output in Hk. cbn [String.eqb] in Hk. rewrite input_prevout in Hk. cbn [default] in Hk.
    destruct (tiv_prevout iv) as [ov|] eqn:E; cbn in Hk; [|by apply elem_of_nil in Hk].
    destruct (Ho ov Hk) as (a & Ha & Hc). exists ov, a. split_and!; [left; by exists iv|done..].
  - destruct (Ho ov Hk) as (a & Ha & Hc). exists ov, a. eauto.
Qed.

(** An output of the transaction, or one it spends, has the script. *)
Definition pays_or_spends q (tx : Transaction) (s : Script) : Prop :=
  (exists txo, txo ∈ tx_output tx /\ script_pubkey txo = s) \/
  (exists txin txo, txin ∈ tx_input tx /\ has_prevout txin = true /\
     known_output q (previous_output txin) = Some txo /\ script_pubkey txo = s).

Lemma touched_of_shown q e v s :
  shows network q e v -> (exists ov, ov ∈ touched_values v /\ tov_scriptpubkey ov = s) <-> pays_or_spends q e.1 s.
Proof.
  intros Hsh. pose proof (sh_inputs _ _ _ _ Hsh) as Hin. pose proof (sh_outputs _ _ _ _ Hsh) as Hout.
  unfold touched_values, pays_or_spends. setoid_rewrite elem_of_app. setoid_rewrite list_elem_of_omap. split.
  - intros (ov & [(iv & (k & Hk)%list_elem_of_lookup & E)|(k & Hk)%list_elem_of_lookup] & <-).
    + destruct (Forall2_lookup_r _ _ _ _ _ Hin Hk) as (txin & Htx%list_elem_of_lookup_2 & _ & Hp). rewrite E in Hp.
      destruct Hp as (Hp & txo & Ho & _ & Hs & _). right. by exists txin, txo.
    + destruct (Forall2_lookup_r _ _ _ _ _ Hout Hk) as (txo & Htx%list_elem_of_lookup_2 & _ & Hs & _). left. by exists txo.
  - intros [(txo & (k & Hk)%list_elem_of_lookup & <-)|(txin & txo & (k & Hk)%list_elem_of_lookup & Hp & Ho & <-)].
    + destruct (Forall2_lookup_l _ _ _ _ _ Hout Hk) as (ov & Hov%list_elem_of_lookup_2 & _ & Hs & _). eauto.
    + destruct (Forall2_lookup_l _ _ _ _ _ Hin Hk) as (iv & Hiv%list_elem_of_lookup_2 & _ & Hx).
      destruct (tiv_prevout iv) as [ov|] eqn:E; [|congruence]. destruct Hx as (_ & txo' & Ho' & _ & Hs & _).
      exists ov. split; [eauto|congruence].
Qed.

(** A transaction in the form REST shows it touches a tracked script exactly when it
    pays the script or spends an output of it (addresses, in either form, are not the
    hexadecimal text of the script). *)
Lemma watched_script_exact q e v s :
  shows network q e v ->
  (forall sc a, to_address_str sc network = Some a -> a <> hex_encode s /\ canonical_track_key a <> Some (hex_encode s)) ->
  tx_matches (TransactionValue_json v) (hex_encode s) = true <-> pays_or_spends q e.1 s.
Proof.
  intros Hsh Haddr. rewrite <- (touched_of_shown q e v s Hsh). unfold tx_matches.
  pose proof (touched_scripts v (hex_encode s)) as Hs. pose proof (touched_addresses v (hex_encode s)) as Ha.
  destruct (tx_touch_set (TransactionValue_json v)) as [addresses spks]. cbn [fst snd] in *.
  rewrite orb_true_iff, !bool_decide_eq_true, Hs. split.
  - intros [(ov & a & Hov & Hadr & Hk)%Ha|(ov & Hov & Hk)].
    + exfalso. assert (exists sc, to_address_str sc network = Some a) as (sc & Hsc).
      { unfold touched_values in Hov. apply elem_of_app in Hov as [(iv & (k & Hi)%list_elem_of_lookup & E)%list_elem_of_omap|(k & Hi)%list_elem_of_lookup].
        - destruct (Forall2_lookup_r _ _ _ _ _ (sh_inputs _ _ _ _ Hsh) Hi) as (txin & _ & _ & Hp). rewrite E in Hp.
          destruct Hp as (_ & txo & _ & _ & _ & _ & Hx). exists (script_pubkey txo). congruence.
        - destruct (Forall2_lookup_r _ _ _ _ _ (sh_outputs _ _ _ _ Hsh) Hi) as (txo & _ & _ & _ & _ & Hx).
          exists (script_pubkey txo). congruence. }
      destruct (Haddr sc a Hsc) as [H1 H2]. destruct Hk; congruence.
    + exists ov. split; [done|]. rewrite hex_lower in Hk. by apply hex_inj in Hk.
  - intros (ov & Hov & <-). right. exists ov. by rewrite hex_lower.
Qed.
End touched.

(** ** Subscriptions *)

(** A tracked address has its canonical form, and scripts are lower-case digits without
    repetition. *)
Record client_wf (state : ClientState) : Prop := {
  cw_address : match track_address_original state with
    | Some s => is_Some (track_address state) /\ track_address state = canonical_track_key s
    | None => track_address state = None end;
  cw_addresses : map_Forall (fun s canon => canonical_track_key s = Some canon) (track_addresses state);
  cw_distinct : NoDup (track_scriptpubkeys state);
  cw_scripts : Forall (fun s => is_hex s = true /\ to_ascii_lowercase s = s) (track_scriptpubkeys state);
}.
Lemma lower_hexdigit c (f := fun c => if ((65 <=? c) && (c <=? 90))%Z then (c + 32)%Z else c) :
  is_hexdigit c = true -> is_hexdigit (f c) = true /\ f (f c) = f c.
Proof.
  subst f. unfold is_hexdigit. cbn beta. intros H.
  destruct ((65 <=? c) && (c <=? 90))%Z eqn:E; rewrite ?E; split; try lia.
  assert ((65 <=? c + 32) && (c + 32 <=? 90) = false)%Z as -> by lia. done.
Qed.
Lemma lower_hex s : is_hex s = true -> is_hex (to_ascii_lowercase s) = true /\
  to_ascii_lowercase (to_ascii_lowercase s) = to_ascii_lowercase s.
Proof.
  unfold is_hex, to_ascii_lowercase. rewrite !andb_true_iff. intros [Hne Hall]. rewrite forallb_forall in Hall. split; [split|].
  - by destruct s.
  - rewrite forallb_forall. intros c (x & <- & Hx%Hall)%in_map_iff. by apply lower_hexdigit.
  - rewrite map_map. apply map_ext_in. intros c Hc%Hall. by apply lower_hexdigit.
Qed.
Lemma tracked_spks_wf arr : forall seen,
  NoDup (tracked_spks arr seen) /\
  Forall (fun s => s ∉ seen /\ is_hex s = true /\ to_ascii_lowercase s = s) (tracked_spks arr seen).
Proof.
  induction arr as [|item arr IH]; intros seen; cbn; [split; constructor|].
  destruct (as_str item) as [s|]; [|done]. destruct (is_hex s && bool_decide _) eqn:E; [|done].
  apply andb_true_iff in E as [Hhex Hnew%bool_decide_eq_true].
  destruct (IH ({[to_ascii_lowercase s]} ∪ seen)) as [Hnd Hall]. rewrite Forall_forall in Hall. split.
  - constructor; [|done]. intros Hin. destruct (Hall _ Hin) as [Hn _]. set_solver.
  - constructor; [by split; [|apply lower_hex]|]. apply Forall_forall. intros t Ht. destruct (Hall t Ht) as [Hn Hrest].
    split; [set_solver|done].
Qed.
Lemma tracked_map_wf arr : map_Forall (fun s canon => canonical_track_key s = Some canon) (tracked_map arr).
Proof.
  unfold tracked_map. generalize (map_Forall_empty (M := gmap Text) (fun s canon => canonical_track_key s = Some canon)).
  generalize (∅ : gmap Text Text). induction arr as [|item arr IH]; intros m Hm; [done|]. cbn. apply IH.
  destruct (as_str item) as [s|]; [|done]. destruct (canonical_track_key s) eqn:E; [|done]. by apply map_Forall_insert_2.
Qed.
Lemma handle_client_json_wf state msg : client_wf state -> client_wf (handle_client_json state msg).1.
Proof.
  intros Hw. unfold handle_client_json. destruct msg; try done. set (msg := JObj _).
  set (st := match json_get msg (text_of "track-address") with Some _ => _ | None => _ end).
  assert (client_wf st) as Hst.
  { subst st. destruct (json_get _ _) as [v|]; [|done]. unfold apply_track_address. destruct Hw.
    destruct (as_str v) as [s|]; [destruct (canonical_track_key s) eqn:E|]; by split; cbn; rewrite ?E. }
  clearbody st. clear Hw.
  set (st2 := match json_get msg (text_of "track-addresses") with Some _ => _ | None => _ end).
  assert (client_wf st2.1) as Hst2.
  { subst st2. destruct (json_get _ _) as [v|]; [|done]. unfold apply_track_addresses. destruct Hst. pose proof tracked_map_wf.
    case_bool_decide; split; cbn; try done. by destruct (as_array v). }
  clearbody st2. clear Hst. destruct st2 as [st2 o]. cbn in Hst2.
  set (st3 := match json_get msg (text_of "track-scriptpubkeys") with Some _ => _ | None => _ end).
  assert (client_wf st3.1) as Hst3.
  { subst st3. destruct (json_get _ _) as [v|]; [|done]. unfold apply_track_scriptpubkeys. destruct Hst2.
    case_bool_decide; split; cbn; try done; try constructor; destruct (as_array v) as [arr|]; try constructor.
    - apply tracked_spks_wf.
    - eapply Forall_impl; [apply (tracked_spks_wf arr ∅)|]. by intros s (_ & ? & ?). }
  clearbody st3. by destruct st3.
Qed.

(** C28: Whatever messages a client sends, its subscription is well formed: the tracked
    address is the canonical form of the text it sent, so is every entry of the tracked
    addresses, and the tracked scripts are non-empty lower-case hexadecimal texts, each
    once. *)
Theorem client_state_typed msgs :
  client_wf (fold_left (fun state msg => (handle_client_json state msg).1) msgs client_default).
Proof.
  assert (client_wf client_default) as H by (split; cbn; [done|apply map_Forall_empty|constructor..]).
  revert H. generalize client_default. induction msgs as [|msg msgs IH]; intros state H; [done|]. cbn.
  by apply IH, handle_client_json_wf.
Qed.

(** ** Witnesses *)

Definition ExampleRest : RestLib := {|
  UncheckedAddress := Text; parse_address := Some; require_network a _ := Some a; hex_decode := Some;
  hash_error t := t; utf8_error t := t; debug_str t := t; strings_from_slice b := inl b; parse_query _ := [];
  merkle_block _ _ _ := []; parse_header_value := Some; derive_accept_key t := t;
|}.
Lemma hub_bodies_bounded_witness :
  exists hub : MwckHub, size (clients hub) = 1 /\ hub_ok hub.
Proof.
  exists (register_socket hub_new).1. split; [reflexivity|].
  apply (@hub_bodies_bounded KvMap _ ExampleLib FixintWincode ExampleElectrum ExampleScripts ex_size ExampleRest ex_rcfg).
  eapply HR_step; [apply HR_new|apply HS_register].
Defined.

(** Digits shifted past the upper-case letters, and scripts that no address is shown for. *)
Definition ex_digit (b : Z) : Z := if (b <? 65)%Z then b else (b + 26)%Z.
Definition HexElectrum : ElectrumLib := {|
  parse_hash := ex_parse; display_hash := ex_display; hex_encode := map ex_digit;
  json_parse t := inl t; json_display _ := [];
|}.
Lemma HexElectrum_laws : @HexLaws HexElectrum.
Proof.
  split; cbn.
  - intros b. unfold to_ascii_lowercase. rewrite map_map. apply map_ext. intros x. unfold ex_digit.
    destruct (x <? 65)%Z eqn:E.
    + by assert ((65 <=? x)%Z = false) as -> by lia.
    + assert ((x + 26 <=? 90)%Z = false) as -> by lia. by rewrite andb_false_r.
  - assert (forall x y, ex_digit x = ex_digit y -> x = y) as Hd.
    { intros x y. unfold ex_digit. destruct (Z.ltb_spec x 65), (Z.ltb_spec y 65); lia. }
    induction b as [|x b IH]; intros [|y b'] [=]; [done|]. f_equal; auto.
Qed.
Definition BareLib : BitcoinLib := {|
  compute_txid := @compute_txid ExampleLib; block_hash := @block_hash ExampleLib; sha256 := @sha256 ExampleLib;
  serialize_tx := @serialize_tx ExampleLib; deserialize_tx := @deserialize_tx ExampleLib;
  serialize_txout := @serialize_txout ExampleLib; deserialize_txout := @deserialize_txout ExampleLib;
  serialize_header := @serialize_header ExampleLib; deserialize_header := @deserialize_header ExampleLib;
  serialize_block := @serialize_block ExampleLib; deserialize_block := @deserialize_block ExampleLib;
  serialize_u32 := @serialize_u32 ExampleLib; decode_u32 := @decode_u32 ExampleLib;
  serialize_varint := @serialize_varint ExampleLib; outpoint_is_null := @outpoint_is_null ExampleLib;
  tx_is_coinbase := @tx_is_coinbase ExampleLib; tx_weight := @tx_weight ExampleLib;
  block_weight := @block_weight ExampleLib; block_total_size := @block_total_size ExampleLib;
  classify_legacy := @classify_legacy ExampleLib; address_from_script _ _ := None;
|}.
(** A coinbase that pays one script. *)
Definition ex_paying : Transaction := @ex_coinbase 901 [118; 7]%Z.
Definition ex_paying_value : TransactionValue :=
  mkTransactionValue (@get_txid BareLib ex_paying) 2 901
    [mkTxInValue null_hash (u32_mod - 1) None [] [] None true 0 None None]
    [mkTxOutValue [118; 7]%Z [] (@script_type BareLib ExampleScripts [118; 7]%Z) None 50] 60 400 0 0 (Some (TransactionStatus_from None)).
Lemma watched_script_exact_witness :
  exists q : Query KvMap,
    tx_matches (@TransactionValue_json HexElectrum ex_paying_value) (@hex_encode HexElectrum [118; 7]%Z) = true.
Proof.
  destruct ex_serves as (q & A & _). exists q.
  apply (@watched_script_exact KvMap _ FixintWincode BareLib HexElectrum HexElectrum_laws ExampleScripts
    Bitcoin q (ex_paying, None) ex_paying_value [118; 7]%Z).
  - split; [reflexivity|reflexivity| | |]; cbn.
    + repeat constructor.
    + repeat constructor.
    + discriminate.
  - discriminate.
  - left. eexists. split; [by left|reflexivity].
Defined.
