(* ===== verification/MwckTip.v ===== *)
(** * The mempool watcher when the tip moves

    A hub remembers the blocks it told its clients about.  When the tip moves it tells
    them first of the transactions of the remembered blocks that the chain no longer has,
    then of the transactions of the blocks that took their place and of the blocks above
    the previous tip, and of the last blocks it remembers those it has told of and the chain
    still has.  A message of a client does not crash it. *)

From S2P Require Import Prelude Iter RocksDB DB Bitcoin HeaderList Rows Fetch Fees.
From S2P Require Import Indexer IndexerSync ChainQuery ChainView ChainBlocks ChainHistory Mempool MempoolIndex MempoolQueries Query QueryFacts.
From S2P Require Import Text Json Electrum ElectrumFacts Auth Sigops RestValues Rest RestFacts Mwck MwckFacts.

(** ** Lists *)

Lemma zip_map_filter {A} (f : A -> bool) (l : list A) :
  map fst (filter (fun p : A * bool => p.2 = true) (zip l (map f l))) = filter (fun x => f x = true) l.
Proof.
  induction l as [|x l IH]; [done|]. cbn [map zip zip_with]. rewrite !filter_cons. cbn [snd].
  destruct (decide (f x = true)); [|done]. cbn [map fst]. by rewrite IH.
Qed.
Lemma omap_filter_agree {A B} (f : A -> option B) (P Q : A -> Prop) `{!forall x, Decision (P x), !forall x, Decision (Q x)} (l : list A) :
  (forall x, is_Some (f x) -> P x <-> Q x) -> omap f (filter P l) = omap f (filter Q l).
Proof.
  intros H. induction l as [|x l IH]; [done|]. rewrite !filter_cons.
  destruct (f x) as [y|] eqn:E.
  - specialize (H x (mk_is_Some _ _ E)). destruct (decide (P x)), (decide (Q x)); cbn; rewrite ?E, ?IH; tauto || done.
  - destruct (decide (P x)), (decide (Q x)); cbn; by rewrite ?E, ?IH.
Qed.
Lemma concat_nonempty {A} (l : list (list A)) : concat (filter (fun x => x <> []) l) = concat l.
Proof.
  induction l as [|x l IH]; [done|]. rewrite filter_cons. destruct (decide (x <> [])) as [|Hn]; cbn; rewrite IH; [done|].
  by apply dec_stable in Hn as ->.
Qed.

(** ** Events without transactions *)

Lemma multi_field_none name keys : multi_field name keys (fun _ => buckets_default) = [].
Proof. by apply multi_field_empty. Qed.
Lemma on_mempool_nil state : on_mempool state [] [] = None.
Proof. unfold on_mempool. cbn [hits filter]. rewrite !(multi_field_none _ _). by destruct (track_address state). Qed.
Lemma on_block_nil state : on_block state [] = None.
Proof. unfold on_block. cbn [hits filter]. rewrite !(multi_field_none _ _). by destruct (track_address state). Qed.
Lemma deliver_none event (m : gmap Z HubClient) : (forall state, event state = None) -> deliver event <$> m = m.
Proof.
  intros He. rewrite <- (map_fmap_id m) at 2. apply map_fmap_ext. intros k c _. unfold deliver. by rewrite He.
Qed.
Lemma notify_blocks_clients hub blocks :
  clients (notify_blocks hub blocks) = deliver (fun state => on_block state (concat blocks)) <$> clients hub.
Proof.
  unfold notify_blocks. destruct (concat blocks) as [|v l]; [|done]. symmetry. apply deliver_none, on_block_nil.
Qed.
Lemma prefer_full_id removed available : all_full removed -> prefer_full_removed removed available = removed.
Proof.
  intros Hf. unfold prefer_full_removed. rewrite <- (map_id removed) at 2. apply map_ext_in. intros v Hv%list_elem_of_In.
  unfold all_full in Hf. rewrite Forall_forall in Hf. by rewrite Hf.
Qed.
Lemma stub_txids_full removed : all_full removed -> stub_txids removed = [].
Proof. induction 1 as [|v l Hv _ IH]; [done|]. unfold stub_txids in *. cbn. by rewrite Hv. Qed.

(** ** The heights of a hub *)

Lemma delete_all_lookup (l : list (nat * TipBlock)) : forall (m : gmap nat TipBlock) h,
  fold_left (fun m (p : nat * TipBlock) => delete p.1 m) l m !! h = if decide (h ∈ l.*1) then None else m !! h.
Proof.
  induction l as [|[k x] l IH]; intros m h; cbn [fold_left fmap list_fmap fst].
  { by rewrite decide_False by apply not_elem_of_nil. }
  rewrite IH. destruct (decide (h ∈ l.*1)); [by rewrite decide_True by set_solver|].
  destruct (decide (k = h)) as [->|Hne]; [by rewrite lookup_delete_eq, decide_True by set_solver|].
  rewrite lookup_delete_ne by done. by rewrite decide_False by set_solver.
Qed.
Lemma store_all_lookup (B : nat -> option TipBlock) (hs : list nat) : forall (m : gmap nat TipBlock) h,
  store_blocks m (omap (fun h => pair h <$> B h) hs) !! h =
    if decide (h ∈ hs) then match B h with Some tb => Some tb | None => m !! h end else m !! h.
Proof.
  unfold store_blocks. induction hs as [|k hs IH]; intros m h; cbn.
  { by rewrite decide_False by apply not_elem_of_nil. }
  destruct (B k) as [tb|] eqn:E; cbn; rewrite IH.
  - destruct (decide (k = h)) as [->|Hne].
    + rewrite E, lookup_insert_eq, (decide_True (P := h ∈ h :: hs)) by set_solver. by destruct (decide (h ∈ hs)).
    + rewrite lookup_insert_ne by done. destruct (decide (h ∈ hs)); [by rewrite decide_True by set_solver|].
      by rewrite decide_False by set_solver.
  - destruct (decide (k = h)) as [->|Hne].
    + rewrite E, (decide_True (P := h ∈ h :: hs)) by set_solver. by destruct (decide (h ∈ hs)).
    + destruct (decide (h ∈ hs)); [by rewrite decide_True by set_solver|]. by rewrite decide_False by set_solver.
Qed.

(** ** Moving the tip *)

Section tip.
Context {D : Type} {RDB : RocksDB D} {BL : BitcoinLib} {W : Wincode}.
Context {EL : ElectrumLib} {SL : ScriptLib} {TS : TxSize}.
Context (cfg : RestConfig) (q : Query D) (B : nat -> option TipBlock).
Context (HB : forall h, block_at cfg q h = Ok (B h)).
Implicit Types hub : MwckHub.

(** The chain still has the remembered block. *)
Definition current (p : nat * TipBlock) : Prop := tb_hash <$> B p.1 = Some (tb_hash p.2).
#[export] Instance current_dec p : Decision (current p).
Proof. unfold current. apply _. Defined.

Lemma is_stale_flag p : is_stale cfg q p = Ok (bool_decide (~ current p)).
Proof.
  unfold is_stale. rewrite HB. cbn [mbind result_bind]. f_equal. symmetry.
  assert (current p <-> exists tb, B p.1 = Some tb /\ tb_hash tb = tb_hash p.2) as Hc.
  { unfold current. rewrite fmap_Some. naive_solver. }
  destruct (B p.1) as [tb|] eqn:E; cbn.
  - rewrite <- bool_decide_not. apply bool_decide_ext. rewrite Hc. naive_solver.
  - apply bool_decide_true. rewrite Hc. naive_solver.
Qed.
Lemma replace_stale_blocks stale :
  replace_stale cfg q stale = Ok (concat (map (fun p => tb_txs p.2) stale), omap (fun h => pair h <$> B h) stale.*1).
Proof.
  induction stale as [|[h old] stale IH]; [done|]. cbn [replace_stale]. rewrite HB, IH. cbn. by destruct (B h).
Qed.
Lemma forward_blocks_all hs : forward_blocks cfg q hs = Ok (omap (fun h => pair h <$> B h) hs).
Proof. induction hs as [|h hs IH]; [done|]. cbn [forward_blocks]. rewrite HB, IH. cbn. by destruct (B h). Qed.

Definition stale_blocks hub : list (nat * TipBlock) := filter (fun p => ~ current p) (height_iter (recent_confirmed hub)).
Definition unseen_heights hub (prev_height new_height : nat) : list nat :=
  filter (fun h => recent_confirmed hub !! h = None) (seq (prev_height + 1) (new_height - prev_height)).
Definition orphaned_txs hub : list Json := concat (map (fun p => tb_txs p.2) (stale_blocks hub)).
(** The blocks in place of the stale ones, then those above the previous tip. *)
Definition fresh_blocks hub prev_height new_height : list TipBlock :=
  omap B (stale_blocks hub).*1 ++ omap B (unseen_heights hub prev_height new_height).

Lemma omap_pair_snd {A} (hs : list nat) (f : nat -> option TipBlock) (g : TipBlock -> A) :
  map (fun p => g p.2) (omap (fun h => pair h <$> f h) hs) = map g (omap f hs).
Proof. induction hs as [|h hs IH]; [done|]. cbn. destruct (f h); cbn; by rewrite IH. Qed.
Lemma omap_pair_fst (hs : list nat) h : h ∈ (omap (fun h => pair h <$> B h) hs).*1 <-> h ∈ hs /\ is_Some (B h).
Proof.
  rewrite list_elem_of_fmap. setoid_rewrite list_elem_of_omap. split.
  - intros ([h' tb] & -> & x & Hx & E). cbn. destruct (B x) as [tb'|] eqn:Ex; cbn in E; [|done].
    injection E as <- <-. rewrite Ex. by split.
  - intros [Hh [tb E]]. exists (h, tb). split; [done|]. exists h. by rewrite E.
Qed.
Lemma stale_heights hub h :
  h ∈ (stale_blocks hub).*1 <-> exists old, recent_confirmed hub !! h = Some old /\ ~ current (h, old).
Proof.
  unfold stale_blocks. rewrite list_elem_of_fmap. setoid_rewrite list_elem_of_filter. split.
  - intros ([h' old] & -> & Hc & Hin). apply height_iter_elem in Hin. eauto.
  - intros (old & Ho & Hc). exists (h, old). by rewrite height_iter_elem.
Qed.

(** The block remembered at a height afterwards. *)
Definition remembered hub (prev_height new_height h : nat) : option TipBlock :=
  if decide (new_height - 16 <= h) then
    match recent_confirmed hub !! h with
    | Some old => if decide (current (h, old)) then Some old else B h
    | None => if decide (prev_height < h <= new_height) then B h else None
    end
  else None.

Lemma retain_lookup n (m : gmap nat TipBlock) h : retain_from n m !! h = if decide (n <= h) then m !! h else None.
Proof.
  apply option_eq. intros tb. unfold retain_from. rewrite map_lookup_filter_Some. cbn. case_decide; naive_solver.
Qed.
Lemma orphaned_full hub : recent_ok (recent_confirmed hub) -> all_full (orphaned_txs hub).
Proof.
  intros Hr. apply Forall_concat, Forall_map, Forall_forall. intros [h old] [_ Hin]%list_elem_of_filter.
  apply height_iter_elem in Hin. exact (Hr h old Hin).
Qed.
Lemma notify_full hub removed :
  all_full removed -> exists hub', notify_mempool cfg q hub [] removed = Ok hub' /\
    recent_confirmed hub' = recent_confirmed hub /\
    clients hub' = deliver (fun state => on_mempool state [] removed) <$> clients hub.
Proof.
  intros Hf. unfold notify_mempool, enrich_removed. rewrite (stub_txids_full _ Hf). cbn [bodies_from_query mbind result_bind].
  rewrite (prefer_full_id _ _ Hf). by eexists.
Qed.

(** What is left of the remembered blocks, and the heights the second loop visits. *)
Definition kept hub : gmap nat TipBlock :=
  fold_left (fun m (p : nat * TipBlock) => delete p.1 m) (stale_blocks hub) (recent_confirmed hub).
Definition forward_heights hub (prev_height new_height : nat) : list nat :=
  filter (fun h => kept hub !! h = None /\ h ∉ (omap (fun h => pair h <$> B h) (stale_blocks hub).*1).*1)
    (seq (prev_height + 1) (new_height - prev_height)).

Lemma forward_unseen hub prev_height new_height :
  omap B (forward_heights hub prev_height new_height) = omap B (unseen_heights hub prev_height new_height).
Proof.
  apply omap_filter_agree. intros h Hh. unfold kept. rewrite delete_all_lookup.
  pose proof (omap_pair_fst (stale_blocks hub).*1 h) as Hrep. pose proof (stale_heights hub h) as Hst.
  destruct (decide (h ∈ _)) as [Hin|Hin]; [|tauto].
  destruct (proj1 Hst Hin) as (old & Ho & Hc). rewrite Ho. split; [intros [_ []]; tauto|done].
Qed.
Lemma stored_remembered hub prev_height new_height h :
  retain_from (new_height - 16) (store_blocks (kept hub)
    (omap (fun h => pair h <$> B h) ((stale_blocks hub).*1 ++ forward_heights hub prev_height new_height))) !! h =
  remembered hub prev_height new_height h.
Proof.
  unfold remembered. rewrite retain_lookup. case_decide; [|done]. rewrite store_all_lookup.
  pose proof (delete_all_lookup (stale_blocks hub) (recent_confirmed hub) h) as Hrest. fold (kept hub) in Hrest.
  assert (h ∈ forward_heights hub prev_height new_height <->
    (kept hub !! h = None /\ ~ (h ∈ (stale_blocks hub).*1 /\ is_Some (B h))) /\ prev_height < h <= new_height) as Hin.
  { unfold forward_heights. rewrite list_elem_of_filter, omap_pair_fst, elem_of_seq. intuition lia. }
  pose proof (stale_heights hub h) as Hst. set (heights := forward_heights _ _ _) in *. clearbody heights.
  destruct (recent_confirmed hub !! h) as [old|] eqn:Ho.
  - destruct (decide (current (h, old))) as [Hc|Hc].
    + assert (h ∉ (stale_blocks hub).*1) as Hn by (rewrite Hst; naive_solver).
      rewrite decide_False in Hrest by done. rewrite Hrest in *. rewrite decide_False; [done|].
      rewrite elem_of_app, Hin. naive_solver.
    + assert (h ∈ (stale_blocks hub).*1) as Hn by (rewrite Hst; eauto). rewrite decide_True in Hrest by done.
      rewrite Hrest, decide_True by (apply elem_of_app; by left). by destruct (B h).
  - assert (h ∉ (stale_blocks hub).*1) as Hn by (rewrite Hst; naive_solver).
    rewrite decide_False in Hrest by done. rewrite Hrest in *.
    assert (h ∈ (stale_blocks hub).*1 ++ heights <-> prev_height < h <= new_height) as Happ by (rewrite elem_of_app, Hin; tauto).
    destruct (decide (h ∈ _)), (decide (prev_height < h <= new_height)); try tauto. by destruct (B h).
Qed.

Lemma new_tip_told hub prev_height new_height :
  hub_ok hub ->
  exists hub', notify_new_tip cfg q hub prev_height new_height = Ok hub' /\
    clients hub' = deliver (fun state => on_block state (concat (map tb_txs (fresh_blocks hub prev_height new_height)))) <$>
      (deliver (fun state => on_mempool state [] (orphaned_txs hub)) <$> clients hub) /\
    forall h, recent_confirmed hub' !! h = remembered hub prev_height new_height h.
Proof.
  intros [_ Hrecent]. unfold notify_new_tip. rewrite (rmap_Ok _ (fun p => bool_decide (~ current p))) by (intros; apply is_stale_flag).
  cbn [mbind result_bind]. rewrite zip_map_filter.
  replace (filter (fun p => bool_decide (~ current p) = true) (height_iter (recent_confirmed hub))) with (stale_blocks hub)
    by (apply list_filter_iff; intros p; by rewrite bool_decide_eq_true).
  rewrite replace_stale_blocks. cbn [mbind result_bind]. fold (orphaned_txs hub) (kept hub).
  rewrite forward_blocks_all. cbn [mbind result_bind]. fold (forward_heights hub prev_height new_height).
  assert (exists hub1, match orphaned_txs hub with [] => Ok (with_recent hub (kept hub))
      | _ => notify_mempool cfg q (with_recent hub (kept hub)) [] (orphaned_txs hub) end = Ok hub1 /\
    recent_confirmed hub1 = kept hub /\
    clients hub1 = deliver (fun state => on_mempool state [] (orphaned_txs hub)) <$> clients hub) as (hub1 & -> & Hr1 & Hc1).
  { pose proof (orphaned_full hub Hrecent) as Hfull. destruct (orphaned_txs hub) as [|v l] eqn:E.
    - eexists. split; [done|]. split; [done|]. symmetry. apply deliver_none, on_mempool_nil.
    - destruct (notify_full (with_recent hub (kept hub)) (v :: l) Hfull) as (hub1 & H1 & H2 & H3). eauto. }
  cbn [mbind result_bind]. eexists. split; [done|]. split.
  - cbn [with_recent clients]. rewrite notify_blocks_clients, Hc1, concat_nonempty, map_app, !omap_pair_snd, <- map_app.
    unfold fresh_blocks. by rewrite forward_unseen.
  - intros h. cbn [with_recent recent_confirmed]. rewrite (proj2 (notify_blocks_parts _ _)), Hr1, <- omap_app.
    apply stored_remembered.
Qed.
End tip.

(** ** The chain behind the hub *)

Section chain.
Context {D : Type} {RDB : RocksDB D} {RDBL : RocksDBLaws D}.
Context {BL : BitcoinLib} {BLaws : BitcoinLaws} {W : Wincode} {WL : WincodeLaws}.
Context {EL : ElectrumLib} {SL : ScriptLib} {SLaws : ScriptLaws} {TS : TxSize}.
Context (icfg : IndexerConfig) (block_of : BlockHash -> Block) (cfg : RestConfig).
Implicit Types q : Query D.
Abbreviation network := (network_type (rc_query cfg)).

(** A block of the chain as clients are told of it: its hash, and its transactions as
    REST shows them. *)
Definition block_told q (h : nat) (o : option TipBlock) : Prop :=
  match headers (cq_headers (q_chain q)) !! h, o with
  | Some e, Some tb => tb_hash tb = he_hash e /\ exists values, tb_txs tb = map TransactionValue_json values /\
      Forall2 (shows network q) (filter (complete q)
        (map (fun tx => (tx, Some (BlockId_from e))) (txdata (block_of (he_hash e))))) values
  | None, None => True
  | _, _ => False
  end.
Definition chain_regular q : Prop := forall b tx, b ∈ chain_of block_of (q_chain q) -> tx ∈ txdata (be_block b) -> regular tx.

Lemma block_at_told q h :
  query_synced icfg block_of (q_chain q) -> full_mode icfg (q_chain q) -> chain_regular q ->
  exists o, block_at cfg q h = Ok o /\ block_told q h o.
Proof.
  intros Hs Hf Hreg. pose proof (sy_wf _ _ _ Hs) as Hwf. unfold block_at, hash_by_height, map_opt, block_told.
  fold (cq_headers (q_chain q)) in Hwf. rewrite (header_by_height_wf _ _ Hwf). cbn [mbind result_bind].
  destruct (headers _ !! h) as [e|] eqn:He; [|by exists None]. unfold and_then. cbn [mbind result_bind].
  assert (entry_block block_of e ∈ chain_of block_of (q_chain q)) as Hb.
  { apply blocks_of_elem. exists e. split; [by eapply list_elem_of_lookup_2|done]. }
  pose proof (block_header_entry icfg block_of (q_chain q) _ Hs Hb) as Hh.
  pose proof (block_txids_in icfg block_of (q_chain q) _ Hs Hf Hb) as Ht.
  pose proof (lookup_all_in icfg block_of (q_chain q) (entry_block block_of e)) as Ha. cbn [be_entry be_block entry_block] in *.
  unfold get_block_txs, and_then. cbn [fmap option_fmap option_map mbind result_bind]. rewrite Ht. cbn [mbind result_bind]. rewrite Ha by done. cbn [mbind result_bind].
  unfold blockid_by_hash. unfold header_by_hash in Hh. rewrite Hh. cbn [fmap option_fmap option_map].
  unfold transactions_as_json.
  destruct (prepare_txs_ok icfg block_of network q (map (fun tx => (tx, Some (BlockId_from e))) (txdata (block_of (he_hash e)))) Hs)
    as (values & -> & HF).
  - apply Forall_forall. intros p (tx & -> & Htx)%elem_of_map. by eapply Hreg.
  - eexists. split; [reflexivity|]. split; [done|]. by exists values.
Qed.

(** ** Queries over which every transaction can be shown *)

(** A query over a synced index whose transactions can all be shown. *)
Record query_ok q : Prop := {
  qo_synced : query_synced icfg block_of (q_chain q);
  qo_full : full_mode icfg (q_chain q);
  qo_chain : chain_regular q;
  qo_pool t tx : txstore (q_mempool q) !! t = Some tx -> get_txid tx = t /\ regular tx;
}.
Lemma lookup_ok q txid : query_ok q -> exists o, Query.lookup_txn q txid = Ok o /\
  forall tx, o = Some tx -> get_txid tx = txid /\ regular tx.
Proof.
  intros Hq. pose proof (transaction_lookup_exact icfg block_of (q_chain q) txid (qo_synced q Hq) (qo_full q Hq)) as Hl.
  unfold Query.lookup_txn, or_else. destruct (ChainQuery.lookup_txn (q_chain q) txid None) as [[tx|]| | |]; [| |done..].
  - destruct Hl as (Hid & b & Hb & Htx & _). exists (Some tx). split; [done|]. intros tx' [= <-]. split; [done|]. by eapply (qo_chain q Hq).
  - eexists. split; [done|]. intros tx Htx. by apply (qo_pool q Hq).
Qed.

(** A message of a socket is handled without a crash: the snapshot it may ask for reads
    the mempool and the index. *)
Lemma shown_json q (txs : list (Transaction * option BlockId)) :
  query_ok q -> Forall (fun e => regular e.1) txs -> is_ok (transactions_as_json network q txs).
Proof.
  intros Hq Hreg. unfold transactions_as_json.
  destruct (prepare_txs_ok icfg block_of network q txs (qo_synced q Hq) Hreg) as (values & -> & _). by eexists.
Qed.
Lemma confirmed_pairs_ok q (txids : list (Txid * BlockId)) : query_ok q ->
  exists pairs, it_collect (it_filter_map (fun p : Txid * BlockId =>
      map_opt (fun tx => (tx, Some p.2)) (Query.lookup_txn q p.1)) (it_of txids)) = Ok pairs /\
    Forall (fun e : Transaction * option BlockId => regular e.1) pairs.
Proof.
  intros Hq. unfold it_collect. induction txids as [|[txid b] txids (pairs & IH & HF)]; [by exists []|].
  destruct (lookup_ok q txid Hq) as (o & Ho & Hreg). cbn [it_of map it_filter_map mbind result_bind fst snd].
  unfold map_opt at 1. rewrite Ho. cbn [mbind result_bind]. unfold it_of in IH. destruct o as [tx|]; cbn [fmap option_fmap option_map].
  - exists ((tx, Some b) :: pairs). split; [|constructor; [by apply Hreg|done]].
    cbn [rmap id mbind result_bind]. by rewrite IH.
  - by exists pairs.
Qed.
Lemma snapshot_ok q A script : query_ok q -> refines (rc_mempool cfg) (q_mempool q) A -> is_ok (snapshot_from_script cfg q script).
Proof.
  intros Hq HA. unfold snapshot_from_script. set (sh := compute_script_hash script). set (limit := Z.to_nat _).
  destruct (mempool_history_pages (rc_mempool cfg) (q_mempool q) A sh None limit HA) as (_ & _ & _ & pool & -> & HF).
  cbn [mbind result_bind].
  destruct (shown_json q (map (fun tx => (tx, None)) pool) Hq) as [mempool Hm].
  { apply Forall_forall. intros p (tx & -> & [i Hi]%list_elem_of_lookup)%elem_of_map.
    destruct (Forall2_lookup_r _ _ _ _ _ HF Hi) as (t & _ & Ht). by apply (qo_pool q Hq t tx). }
  rewrite Hm. cbn [mbind result_bind].
  destruct (history_txids_oldest_first icfg block_of (q_chain q) sh (qo_synced q Hq)) as (L & _ & _ & _ & ->). cbn [mbind result_bind].
  destruct (confirmed_pairs_ok q (take (limit - length mempool) L) Hq) as (pairs & -> & Hp). cbn [mbind result_bind].
  destruct (shown_json q pairs Hq Hp) as [confirmed ->]. by eexists.
Qed.
(** C27: When the tip moves, over a synced index that is not in light mode and whose
    transactions can be shown, every client that listens is told first of the
    transactions of the remembered blocks that the chain no longer has, as removed, then of
    those of the blocks at these heights and of the blocks above the previous tip, as
    confirmed.  From 16 blocks below the tip on, the hub then remembers the blocks it
    kept, the ones that replaced others and the new ones, and no others; all of them are
    blocks of the chain at their height.  A hub that remembered all of the last 17 heights
    and whose tip did not go down remembers all of the last 17 heights again (a hub that
    started later remembers only the blocks it has seen). *)
Theorem new_tip_replays q hub prev_height new_height :
  query_synced icfg block_of (q_chain q) -> full_mode icfg (q_chain q) -> chain_regular q -> hub_ok hub ->
  exists (B : nat -> option TipBlock) hub',
    (forall h, block_told q h (B h)) /\
    notify_new_tip cfg q hub prev_height new_height = Ok hub' /\
    clients hub' = deliver (fun state => on_block state (concat (map tb_txs (fresh_blocks B hub prev_height new_height)))) <$>
      (deliver (fun state => on_mempool state [] (orphaned_txs B hub)) <$> clients hub) /\
    (forall h, recent_confirmed hub' !! h = remembered B hub prev_height new_height h) /\
    (forall h tb, recent_confirmed hub' !! h = Some tb ->
      exists e, headers (cq_headers (q_chain q)) !! h = Some e /\ tb_hash tb = he_hash e) /\
    (prev_height <= new_height -> (forall h, prev_height - 16 <= h <= prev_height -> is_Some (recent_confirmed hub !! h)) ->
      forall h e, new_height - 16 <= h <= new_height -> headers (cq_headers (q_chain q)) !! h = Some e ->
        exists tb, recent_confirmed hub' !! h = Some tb /\ tb_hash tb = he_hash e).
Proof.
  intros Hs Hf Hreg Hok. set (B := fun h => match block_at cfg q h with Ok o => o | _ => None end).
  assert (forall h, block_at cfg q h = Ok (B h) /\ block_told q h (B h)) as HB.
  { intros h. destruct (block_at_told q h Hs Hf Hreg) as (o & Ho & Ht). subst B. cbn. by rewrite Ho. }
  destruct (new_tip_told cfg q B (fun h => proj1 (HB h)) hub prev_height new_height Hok) as (hub' & Hn & Hc & Hr).
  assert (forall h tb, tb_hash <$> B h = Some (tb_hash tb) ->
    exists e, headers (cq_headers (q_chain q)) !! h = Some e /\ tb_hash tb = he_hash e) as Hon.
  { intros h tb (tb' & Hb & Heq)%fmap_Some. pose proof (proj2 (HB h)) as Ht. unfold block_told in Ht. rewrite Hb in Ht.
    destruct (headers _ !! h) as [e|]; [|done]. destruct Ht as [Ht _]. exists e. split; [done|]. congruence. }
  exists B, hub'. split; [apply HB|]. split; [done|]. split; [done|]. split; [done|]. split.
  { intros h tb. rewrite Hr. unfold remembered. case_decide; [|done].
    destruct (recent_confirmed hub !! h) as [old|].
    - destruct (decide (current B (h, old))) as [Hcur|_]; [intros [= <-]; by apply Hon|]. intros E. apply Hon. by rewrite E.
    - case_decide; [|done]. intros E. apply Hon. by rewrite E. }
  intros Hle Hwin h e Hh He. rewrite Hr. unfold remembered. rewrite decide_True by lia.
  pose proof (proj2 (HB h)) as Ht. unfold block_told in Ht. rewrite He in Ht.
  destruct (B h) as [tb|] eqn:EB; [|done]. destruct Ht as [Ht _].
  destruct (recent_confirmed hub !! h) as [old|] eqn:Eo.
  - destruct (decide (current B (h, old))) as [Hcur|_]; [|by exists tb]. exists old. split; [done|].
    unfold current in Hcur. cbn [fst snd] in Hcur. rewrite EB in Hcur. cbn in Hcur. congruence.
  - rewrite decide_True; [by exists tb|]. destruct (decide (h <= prev_height)) as [Hp|Hp]; [|lia].
    destruct (Hwin h) as [x Hx]; [lia|congruence].
Qed.
End chain.

Section messages.
Context {D : Type} {RDB : RocksDB D} {RDBL : RocksDBLaws D}.
Context {BL : BitcoinLib} {BLaws : BitcoinLaws} {W : Wincode} {WL : WincodeLaws}.
Context {EL : ElectrumLib} {SL : ScriptLib} {SLaws : ScriptLaws} {TS : TxSize} {RL : RestLib}.
Context (icfg : IndexerConfig) (block_of : BlockHash -> Block) (cfg : RestConfig).
Implicit Types q : Query D.

Lemma snapshot_for_ok q A orig canon : query_ok icfg block_of q -> refines (rc_mempool cfg) (q_mempool q) A ->
  is_ok (snapshot_for cfg q orig canon).
Proof.
  intros Hq HA. unfold snapshot_for, snapshot_from_address, snapshot_from_spk.
  destruct canon as [canon|]; [destruct (script_from_address_key _ _ _)|destruct (nonempty_script _)];
    try (by eexists); by eapply snapshot_ok.
Qed.
Lemma fill_keys_returns q A keys : query_ok icfg block_of q -> refines (rc_mempool cfg) (q_mempool q) A ->
  forall hub obj, is_ok (fill_keys cfg q hub keys obj).
Proof.
  intros Hq HA. induction keys as [|[orig canon] keys IH]; intros hub obj; [by eexists|]. cbn [fill_keys].
  destruct (snapshot_for_ok q A orig canon Hq HA) as [b ->]. cbn [mbind result_bind]. apply IH.
Qed.
Lemma fill_event_returns q A hub name keys reply : query_ok icfg block_of q -> refines (rc_mempool cfg) (q_mempool q) A ->
  is_ok (fill_event cfg q hub name keys reply).
Proof.
  intros Hq HA. unfold fill_event. destruct reply; try (by eexists). destruct (json_get _ _) as [[]|]; try (by eexists).
  match goal with |- is_ok (fill_keys _ _ _ ?k ?o ≫= _) => destruct (fill_keys_returns q A k Hq HA hub o) as [r ->] end. by eexists.
Qed.
Lemma handle_socket_ok q A hub allow pubkey state msg :
  query_ok icfg block_of q -> refines (rc_mempool cfg) (q_mempool q) A ->
  is_ok (handle_socket cfg q hub allow pubkey state msg).
Proof.
  intros Hq HA. unfold handle_socket. destruct (handle_authorized_json _ _ _ _) as [st [reply|]]; [|by eexists].
  unfold fill_subscribe_snapshot.
  match goal with |- context [fill_event cfg q hub ?n ?k reply] => destruct (fill_event_returns q A hub n k reply Hq HA) as [r ->] end.
  cbn [mbind result_bind].
  match goal with |- context [fill_event cfg q r.1 ?n ?k r.2] => destruct (fill_event_returns q A r.1 n k r.2 Hq HA) as [r' ->] end.
  by eexists.
Qed.
End messages.


(** ** Witness *)

(** A hub that remembers, at height 1, a block the chain does not have. *)
Definition ex_stale_hub : MwckHub := with_recent hub_new {[1 := mkTipBlock (hash_repeat 9) [passing_tx]]}.
Lemma ex_stale_hub_ok : hub_ok ex_stale_hub.
Proof. split; [exact bodies_new_ok|]. apply map_Forall_singleton. by repeat constructor. Qed.
Lemma new_tip_replays_witness :
  exists (q : Query KvMap) hub' tb,
    @notify_new_tip KvMap _ ExampleLib FixintWincode ExampleElectrum ExampleScripts ex_size ex_rcfg q ex_stale_hub 1 2 = Ok hub' /\
    recent_confirmed hub' !! 1 = Some tb /\ tb_hash tb = pack_hash 2.
Proof.
  destruct ex_serves as (q & A & Hq & Hch & Hhl & _). exists q.
  destruct (@new_tip_replays KvMap _ ExampleLib ExampleLib_laws FixintWincode FixintWincode_laws ExampleElectrum ExampleScripts
    ExampleScripts_laws ex_size ex_cfg ex_block_of ex_rcfg q ex_stale_hub 1 2) as (B & hub' & HB & Hn & _ & Hr & Hon & _).
  - exact (se_synced _ _ _ _ _ Hq).
  - exact (se_full _ _ _ _ _ Hq).
  - unfold chain_regular. rewrite Hch. intros b tx Hb Htx.
    assert (Forall (fun b => Forall (@regular ExampleLib) (txdata (be_block b))) ex_chain) as HF by vm_decide.
    rewrite Forall_forall in HF. specialize (HF b Hb). rewrite Forall_forall in HF. by apply HF.
  - exact ex_stale_hub_ok.
  - pose proof (HB 1) as H1. unfold block_told in H1. rewrite Hhl in H1.
    assert (exists e, headers ex_hl !! 1 = Some e /\ he_hash e = pack_hash 2) as (e & He & Hh) by (eexists; split; vm_compute; reflexivity).
    rewrite He in H1. destruct (B 1) as [tb|] eqn:EB; [|done]. destruct H1 as [H1 _].
    exists hub', tb. split; [exact Hn|]. split; [|by rewrite H1].
    rewrite Hr. unfold remembered. rewrite decide_True by lia.
    change (recent_confirmed ex_stale_hub !! 1) with (Some (mkTipBlock (hash_repeat 9) [passing_tx])). cbn iota.
    rewrite decide_False; [exact EB|]. unfold current. cbn [fst snd]. rewrite EB. cbn. rewrite H1, Hh. vm_compute. congruence.
Defined.
