(* ===== verification/RestServer.v ===== *)
(** * [rest.rs]: serving requests and websockets

    What stands between a connection and the handlers: the NIP-98 gate, the limits on the
    body, the upgrade of [/api/v1/ws] to a websocket, and the loop that serves one
    websocket.  Reading the body is a parameter of the request, the clock an argument.
    The loop takes the events that the [select!] yields one after the other, each with
    the time it arrives and the time the loop is back at its start; the allowlist is a
    function of time, since it can be reloaded at any moment. *)

From S2P Require Import Prelude Iter RocksDB DB Bitcoin HeaderList Rows Fetch Fees.
From S2P Require Import Indexer ChainQuery Mempool Query.
From S2P Require Import Text Json Electrum Auth Sigops RestValues Rest Mwck.

Definition WS_ALLOWLIST_POLL : Z := 2.

(** ** Headers *)

(** [hyper::Request] without its body; header names are in lower case. *)
Record HttpRequest := mkRequest {
  rq_method : Text; rq_path : Text; rq_query : option Text; rq_path_and_query : option Text;
  rq_headers : list (Text * Bytes) }.
Definition header_get (req : HttpRequest) (name : string) : option Bytes :=
  snd <$> (snd <$> list_find (fun p : Text * Bytes => p.1 = text_of name) (rq_headers req)).
(** [HeaderValue::to_str]: visible ASCII and tabs. *)
Definition header_to_str (v : Bytes) : option Text :=
  if forallb (fun b => ((32 <=? b) && (b <? 127) || (b =? 9))%Z) v then Some v else None.
Definition header_str (req : HttpRequest) (name : string) : option Text := header_get req name ≫= header_to_str.
Fixpoint text_contains (t p : Text) : bool :=
  starts_with t p || match t with [] => false | _ :: t => text_contains t p end.
Definition eq_ignore_ascii_case (a b : Text) : bool := bool_decide (to_ascii_lowercase a = to_ascii_lowercase b).
(** [HeaderMap::insert] *)
Definition insert_header (resp : HttpResponse) (name : string) (value : Text) : HttpResponse :=
  mkResponse (rs_status resp)
    (filter (fun p : Text * Text => p.1 <> text_of name) (rs_headers resp) ++ [(text_of name, value)]) (rs_body resp).

(** ** The gate *)

Inductive HttpAuthOutcome := PublicHealth | Pubkey (pk : FullHash).

Definition is_public_health_path (path : Text) : bool :=
  bool_decide (path = text_of "/blocks/tip/hash") || bool_decide (path = text_of "/blocks/tip/height").
Definition reconstruct_absolute_url (forwarded_proto host : option Text) (path_and_query : Text) : Text :=
  let proto := trim (default (text_of "http") (head (split_on 44 (default (text_of "http") forwarded_proto)))) in
  let proto := if bool_decide (proto = []) then text_of "http" else proto in
  let host := trim (default (text_of "localhost") host) in
  let host := if bool_decide (host = []) then text_of "localhost" else host in
  let path := if bool_decide (path_and_query = []) then text_of "/" else path_and_query in
  proto ++ text_of "://" ++ host ++ path.
Definition reconstruct_from_req (req : HttpRequest) : Text :=
  reconstruct_absolute_url (header_str req "x-forwarded-proto") (header_str req "host")
    (default (rq_path req) (rq_path_and_query req)).
Definition auth_header_from (req : HttpRequest) : option Text := header_str req "authorization".
Definition is_websocket_upgrade (req : HttpRequest) : bool :=
  let upgrade := match header_str req "upgrade" with
    | Some s => eq_ignore_ascii_case s (text_of "websocket") | None => false end in
  let conn := match header_str req "connection" with
    | Some s => text_contains (to_ascii_lowercase s) (text_of "upgrade") | None => false end in
  upgrade && conn.

(** [Display] of an error of the gate. *)
Definition display_auth_error (e : AuthError) : Text :=
  match e with
  | MissingHeader => text_of "missing Authorization header"
  | BadEncoding => text_of "bad Authorization encoding"
  | BadJson => text_of "bad Authorization JSON"
  | BadSignature => text_of "bad NIP-98 signature"
  | WrongKind => text_of "NIP-98 kind is not 27235"
  | UrlMismatch => text_of "NIP-98 u tag does not match URL"
  | MethodMismatch => text_of "NIP-98 method tag does not match"
  | Expired => text_of "NIP-98 created_at outside window"
  | PayloadMismatch => text_of "NIP-98 payload does not match body"
  | NotAllowlisted => text_of "pubkey is not on the allowlist"
  | AuthIo s => text_of "allowlist io: " ++ text_of s
  end.
Definition unauthorized_response (err : AuthError) : HttpResponse :=
  mkResponse UNAUTHORIZED [(text_of "content-type", text_of "text/plain"); (text_of "www-authenticate", text_of "Nostr")]
    (utf8_encode (display_auth_error err)).

Definition http_ws_auth_gate `{!NostrLib} (method path : Text) (authorization : option Text) (absolute_url : Text)
    (body : Bytes) (now_unix : Z) (public_health : bool) (allow : gset FullHash) : AuthError + HttpAuthOutcome :=
  if public_health && eq_ignore_ascii_case method (text_of "GET") && is_public_health_path path then inr PublicHealth
  else pk ← verify_nip98 authorization method absolute_url body now_unix NIP98_WINDOW_SECS allow; inr (Pubkey pk).
Definition mwck_upgrade_http_status (gate : AuthError + HttpAuthOutcome) (is_websocket_upgrade has_sec_websocket_key : bool) : Z :=
  match gate with
  | inr (Pubkey _) => if negb is_websocket_upgrade || negb has_sec_websocket_key then BAD_REQUEST else SWITCHING_PROTOCOLS
  | inr PublicHealth | inl _ => UNAUTHORIZED
  end.

(** ** Upgrading to a websocket *)

Section server.
Context {D : Type} {RDB : RocksDB D} {BL : BitcoinLib} {W : Wincode} {NL : NostrLib}.
Context {EL : ElectrumLib} {SL : ScriptLib} {TS : TxSize} {RL : RestLib}.
(** [now] and [later] are readings of the monotonic clock, which the handlers use; the
    signature of a request is checked against the time of day, [now_unix] in seconds. *)
Context (cfg : RestConfig) (rpc : RestRpc) (sha256d : Bytes -> FullHash) (now later : Z).
Context (par_order : list PageItem -> list PageItem).
(** [VERSION_STRING] and [BITCOIND_SUBVER] *)
Context (version_string : Text) (bitcoind_subver : option Text).
Implicit Types q : Query D.

(** The response, and the key for which a websocket is served when the upgrade is done. *)
Definition handle_mwck_upgrade (req : HttpRequest) (allow : gset FullHash) (now_unix : Z) : HttpResponse * option FullHash :=
  let gate := http_ws_auth_gate (rq_method req) (rq_path req) (auth_header_from req) (reconstruct_from_req req) []
    now_unix (public_health cfg) allow in
  let ws := is_websocket_upgrade req in
  let has_key := bool_decide (is_Some (header_get req "sec-websocket-key")) in
  let status := mwck_upgrade_http_status gate ws has_key in
  if (status =? UNAUTHORIZED)%Z then
    (unauthorized_response (match gate with inl e => e | inr _ => NotAllowlisted end), None)
  else if (status =? BAD_REQUEST)%Z then
    (plain BAD_REQUEST (if negb ws then text_of "expected WebSocket upgrade on GET /api/v1/ws"
                        else text_of "missing Sec-WebSocket-Key"), None)
  else match gate with
  | inr (Pubkey pubkey) =>
      match header_get req "sec-websocket-key" with
      | Some key =>
          (mkResponse SWITCHING_PROTOCOLS
            [(text_of "upgrade", text_of "websocket"); (text_of "connection", text_of "Upgrade");
             (text_of "sec-websocket-accept", derive_accept_key key)] [], Some pubkey)
      | None => (plain BAD_REQUEST (text_of "missing Sec-WebSocket-Key"), None)
      end
  | _ => (unauthorized_response NotAllowlisted, None)
  end.

(** [origins.parse().unwrap()] panics on a text that is no header value. *)
Definition apply_common_headers (resp : HttpResponse) : result HttpResponse :=
  let resp := insert_header resp "x-powered-by" version_string in
  resp ← (match cors cfg with
          | Some origins => v ← unwrap (parse_header_value origins); Ok (insert_header resp "access-control-allow-origin" v)
          | None => Ok resp
          end);
  Ok (match bitcoind_subver with Some subver => insert_header resp "x-bitcoin-version" subver | None => resp end).

(** ** One request *)

(** [timeout(REQUEST_BODY_TIMEOUT, body.collect()).await] *)
Inductive BodyResult := Collected (bytes : Bytes) | BodyFailed | BodyTimeout.
(** A response, with the websocket it starts, or a connection that ends with an error. *)
Inductive Served := Answered (resp : HttpResponse) (socket : option FullHash) | Dropped.

Definition handle_one_rest_request (req : HttpRequest) (body_result : BodyResult) (allow : gset FullHash) (now_unix : Z)
    : Query D -> Query D * result Served := fun q =>
  if bool_decide (rq_path req = text_of "/api/v1/ws") then
    let '(resp, socket) := handle_mwck_upgrade req allow now_unix in
    (q, resp ← apply_common_headers resp; Ok (Answered resp socket))
  else match body_result with
  | BodyFailed => (q, Ok Dropped)
  | BodyTimeout => (q, Ok (Answered (plain REQUEST_TIMEOUT (text_of "Request timeout")) None))
  | Collected body =>
      if (MAX_BODY_SIZE <? Z.of_nat (length body))%Z then
        (q, Ok (Answered (plain PAYLOAD_TOO_LARGE (text_of "Request body too large")) None))
      else match http_ws_auth_gate (rq_method req) (rq_path req) (auth_header_from req) (reconstruct_from_req req) body
                   now_unix (public_health cfg) allow with
      | inl e => (q, resp ← apply_common_headers (unauthorized_response e); Ok (Answered resp None))
      | inr _ =>
          match handle_request cfg rpc sha256d now later par_order (rq_method req) (rq_path req) (rq_query req) body q with
          | (q', Done resp) => (q', resp ← apply_common_headers resp; Ok (Answered resp None))
          | (q', Failed err) => (q', resp ← apply_common_headers (plain (err_status err) (err_msg err)); Ok (Answered resp None))
          | (q', Crashed) => (q', Panic)
          | (q', Stuck) => (q', Diverge)
          end
      end
  end.

(** ** One websocket *)

Inductive WsMessage :=
  | WsText (t : Text) | WsBinary (b : Bytes) | WsPing (b : Bytes) | WsPong (b : Bytes) | WsClose | WsFrame.
(** What the [select!] yields: a tick, an event of the hub, or what the stream has (its
    end, an error or a message). *)
Inductive SocketEvent := OnTick | OnOut | OnIncoming (m : option (unit + WsMessage)).
(** When it arrives, what the other tasks have done to the hub and the query until then,
    whether the client takes what is sent to it, and when the loop is back at its start. *)
Record SocketTurn := mkTurn {
  tn_event : SocketEvent; tn_at : Z; tn_hub : MwckHub -> MwckHub; tn_query : Query D; tn_sends : bool; tn_done : Z }.
Record SocketState := mkSocket { ss_hub : MwckHub; ss_state : ClientState; ss_sent : list WsMessage }.

(** [rx.recv()], [None] while nothing is in the channel. *)
Definition recv_out (hub : MwckHub) (id : Z) : option (option Json * MwckHub) :=
  match clients hub !! id with
  | Some (mkHubClient state (Some (v :: out))) =>
      Some (Some v, with_clients hub (<[id := mkHubClient state (Some out)]> (clients hub)))
  | Some (mkHubClient _ (Some [])) => None
  | _ => Some (None, hub)
  end.
(** [if sink.send(m).await.is_err() { break; }]; [true] to go on. *)
Definition send_ws (s : SocketState) (sends : bool) (m : WsMessage) : SocketState * bool :=
  if sends then (mkSocket (ss_hub s) (ss_state s) (ss_sent s ++ [m]), true) else (s, false).

Section socket.
Context (allow : Z -> gset FullHash) (pubkey : FullHash) (id : Z).
Definition allowed (t : Z) : bool := bool_decide (pubkey ∈ allow t).

Definition socket_text (e : SocketTurn) (s : SocketState) (t : Text) : result (SocketState * bool) :=
  if negb (allowed (tn_at e)) then Ok (s, false)
  else match json_parse t with
  | inl _ => Ok (s, true)
  | inr msg =>
      r ← handle_socket cfg (tn_query e) (ss_hub s) (allow (tn_at e)) pubkey (ss_state s) msg;
      let '(hub, state, reply) := r in
      let s := mkSocket (set_client_state hub id state) state (ss_sent s) in
      Ok (match reply with Some out => send_ws s (tn_sends e) (WsText (json_display out)) | None => (s, true) end)
  end.
Definition socket_turn (e : SocketTurn) (s : SocketState) : result (SocketState * bool) :=
  let s := mkSocket (tn_hub e (ss_hub s)) (ss_state s) (ss_sent s) in
  match tn_event e with
  | OnTick => Ok (s, allowed (tn_at e))
  | OnOut =>
      match recv_out (ss_hub s) id with
      | Some (Some v, hub) => Ok (send_ws (mkSocket hub (ss_state s) (ss_sent s)) (tn_sends e) (WsText (json_display v)))
      | Some (None, _) => Ok (s, false)
      | None => Ok (s, true)
      end
  | OnIncoming (Some (inr (WsText t))) => socket_text e s t
  | OnIncoming (Some (inr (WsPing p))) => Ok (send_ws s (tn_sends e) (WsPong p))
  | OnIncoming (Some (inr WsClose)) | OnIncoming None | OnIncoming (Some (inl _)) => Ok (s, false)
  | OnIncoming (Some (inr (WsBinary _))) | OnIncoming (Some (inr (WsPong _))) | OnIncoming (Some (inr WsFrame)) => Ok (s, true)
  end.
Definition close_socket (s : SocketState) : SocketState :=
  mkSocket (detach_client (ss_hub s) id) (ss_state s) (ss_sent s ++ [WsClose]).
(** The loop from the time [now]; [true] when it has ended and the socket is closed. *)
Fixpoint socket_loop (now : Z) (turns : list SocketTurn) (s : SocketState) : result (SocketState * bool) :=
  if negb (allowed now) then Ok (close_socket s, true)
  else match turns with
  | [] => Ok (s, false)
  | e :: turns =>
      r ← socket_turn e s;
      if (r : SocketState * bool).2 then socket_loop (tn_done e) turns r.1 else Ok (close_socket r.1, true)
  end.
End socket.

Definition run_mwck_socket (allow : Z -> gset FullHash) (pubkey : FullHash) (hub : MwckHub) (now : Z) (turns : list SocketTurn)
    : result (SocketState * bool) :=
  let '(hub, id) := register_socket hub in socket_loop allow pubkey id now turns (mkSocket hub client_default []).
End server.
