(* ===== verification/RestServerFacts.v ===== *)
(** * Who is served, and for how long

    Nothing reaches the handlers or a websocket without passing the gate, and a websocket
    whose key leaves the allowlist is closed, in time given by the timer of its loop. *)

From S2P Require Import Prelude Iter RocksDB DB Bitcoin HeaderList Rows Fetch Fees.
From S2P Require Import Indexer IndexerSync ChainQuery ChainView ChainBlocks ChainHistory Mempool MempoolIndex MempoolUpdate Query QueryFacts.
From S2P Require Import Text Json Electrum ElectrumFacts Auth Sigops RestValues Rest RestFacts Mwck MwckFacts MwckTip RestServer.

(** ** The gate *)

Lemma verify_nip98_listed `{!NostrLib} header method url body now window allow pk :
  verify_nip98 header method url body now window allow = inr pk -> pk ∈ allow.
Proof.
  unfold verify_nip98. intros H. do 14 (apply bind_inr in H as (? & _ & H); cbn zeta in H).
  destruct (fold_left tag_step _ _) as [[u m] p]. do 3 (apply bind_inr in H as (? & _ & H)).
  apply bind_inr in H as (? & Ha%fail_if_inr%negb_false_iff%bool_decide_eq_true & H). by injection H as <-.
Qed.

Section gate.
Context {D : Type} {RDB : RocksDB D} {BL : BitcoinLib} {W : Wincode} {NL : NostrLib}.
Context {EL : ElectrumLib} {SL : ScriptLib} {TS : TxSize} {RL : RestLib}.
Context (cfg : RestConfig) (rpc : RestRpc) (sha256d : Bytes -> FullHash) (clock later : Z).
Context (par_order : list PageItem -> list PageItem) (version_string : Text) (bitcoind_subver : option Text).
Implicit Types q : Query D.
Abbreviation serve := (handle_one_rest_request cfg rpc sha256d clock later par_order version_string bitcoind_subver).

(** A health check of the tip when these are public, or a request signed, over its URL
    and this body, by a key of the allowlist. *)
Definition signed_request (req : HttpRequest) (body : Bytes) (now : Z) (allow : gset FullHash) (pk : FullHash) : Prop :=
  verify_nip98 (auth_header_from req) (rq_method req) (reconstruct_from_req req) body now NIP98_WINDOW_SECS allow = inr pk /\ pk ∈ allow.
Definition public_request (req : HttpRequest) : Prop :=
  public_health cfg = true /\ to_ascii_lowercase (rq_method req) = text_of "get" /\
  (rq_path req = text_of "/blocks/tip/hash" \/ rq_path req = text_of "/blocks/tip/height").
Definition authorized (req : HttpRequest) (body : Bytes) (now : Z) (allow : gset FullHash) : Prop :=
  public_request req \/ exists pk, signed_request req body now allow pk.

Lemma gate_passes req body now allow :
  match http_ws_auth_gate (rq_method req) (rq_path req) (auth_header_from req) (reconstruct_from_req req) body now
          (public_health cfg) allow with
  | inr PublicHealth => public_request req
  | inr (Pubkey pk) => signed_request req body now allow pk
  | inl e => ~ authorized req body now allow
  end.
Proof.
  unfold http_ws_auth_gate, eq_ignore_ascii_case, is_public_health_path.
  change (to_ascii_lowercase (text_of "GET")) with (text_of "get").
  destruct (public_health cfg && _ && _) eqn:E.
  - apply andb_true_iff in E as [[E1 E2%bool_decide_eq_true]%andb_true_iff E3].
    rewrite orb_true_iff, !bool_decide_eq_true in E3. done.
  - destruct (verify_nip98 _ _ _ _ _ _ _) as [e|pk] eqn:Ev; cbn.
    + intros [(H1 & H2 & H3)|(pk & Hv & _)]; [|congruence]. rewrite H1, H2, bool_decide_true in E by done. cbn in E.
      rewrite orb_false_iff, !bool_decide_eq_false in E. tauto.
    + split; [done|]. by eapply verify_nip98_listed.
Qed.

Lemma upgrade_gated req allow now resp socket :
  handle_mwck_upgrade cfg req allow now = (resp, socket) ->
  match socket with
  | Some pk => signed_request req [] now allow pk /\ rs_status resp = SWITCHING_PROTOCOLS /\ is_websocket_upgrade req = true
  | None => rs_status resp = UNAUTHORIZED \/ (rs_status resp = BAD_REQUEST /\ exists pk, signed_request req [] now allow pk)
  end.
Proof.
  unfold handle_mwck_upgrade. pose proof (gate_passes req [] now allow) as Hg.
  destruct (http_ws_auth_gate _ _ _ _ _ _ _ _) as [e|[|pk]]; cbn [mwck_upgrade_http_status].
  - intros [= <- <-]. by left.
  - intros [= <- <-]. by left.
  - destruct (is_websocket_upgrade req) eqn:Ew; cbn [negb orb].
    + destruct (header_get req "sec-websocket-key") as [key|].
      * rewrite bool_decide_true by done. intros [= <- <-]. done.
      * rewrite bool_decide_false by (by intros []). intros [= <- <-]. right. eauto.
    + intros [= <- <-]. right. eauto.
Qed.

(** The headers that every response of a handler gets change neither status nor body. *)
Lemma common_headers_status resp resp' :
  apply_common_headers cfg version_string bitcoind_subver resp = Ok resp' -> rs_status resp' = rs_status resp /\ rs_body resp' = rs_body resp.
Proof.
  unfold apply_common_headers. intros H. destruct (cors cfg).
  - apply bind_Ok in H as (r & Hr & H). apply bind_Ok in Hr as (v & _ & Hr). injection Hr as <-. injection H as <-.
    by destruct bitcoind_subver.
  - cbn in H. injection H as <-. by destruct bitcoind_subver.
Qed.

(** C23: A request that is neither a public health check nor signed by a listed key over
    its URL and body changes nothing and starts no websocket: it is answered 401, 408 or
    413, or dropped.  A websocket is served only for a listed key that signed the
    request, and only on the path of websockets.  An authorized request whose body fits is
    answered with the status and body its handler gives. *)
Theorem requests_gated req body_result allow now q q' served :
  serve req body_result allow now q = (q', Ok served) ->
  let body := match body_result with Collected b => if decide (rq_path req = text_of "/api/v1/ws") then [] else b | _ => [] end in
  (~ authorized req body now allow ->
    q' = q /\ match served with
    | Answered resp socket => socket = None /\ rs_status resp ∈ [UNAUTHORIZED; REQUEST_TIMEOUT; PAYLOAD_TOO_LARGE]
    | Dropped => True end) /\
  (forall resp pk, served = Answered resp (Some pk) ->
    rq_path req = text_of "/api/v1/ws" /\ signed_request req [] now allow pk /\ q' = q) /\
  (forall b, body_result = Collected b -> rq_path req <> text_of "/api/v1/ws" -> (Z.of_nat (length b) <= MAX_BODY_SIZE)%Z ->
    authorized req b now allow ->
    exists r resp resp', handle_request cfg rpc sha256d clock later par_order (rq_method req) (rq_path req) (rq_query req) b q = (q', r) /\
      (r = Done resp \/ exists err, r = Failed err /\ resp = plain (err_status err) (err_msg err)) /\
      served = Answered resp' None /\ rs_status resp' = rs_status resp /\ rs_body resp' = rs_body resp).
Proof.
  unfold handle_one_rest_request. intros H. cbn zeta.
  destruct (decide (rq_path req = text_of "/api/v1/ws")) as [Hp|Hp].
  - rewrite bool_decide_true in H by done. destruct (handle_mwck_upgrade cfg req allow now) as [resp socket] eqn:E.
    apply upgrade_gated in E. injection H as <- H. apply bind_Ok in H as (resp' & Hr & H). injection H as <-.
    apply common_headers_status in Hr as [Hst _]. split; [|split; [|done]].
    + intros Hna. split; [done|]. assert (forall pk, ~ signed_request req [] now allow pk) as Hno.
      { intros pk Hs. apply Hna. right. exists pk. destruct body_result; exact Hs. }
      destruct socket as [pk|]; [destruct E as [Hs _]; by destruct (Hno pk Hs)|]. split; [done|]. rewrite Hst.
      destruct E as [->|[_ [pk Hs]]]; [set_solver|by destruct (Hno pk Hs)].
    + intros resp2 pk [= -> ->]. by destruct E.
  - rewrite bool_decide_false in H by done. destruct body_result as [b| |].
    2, 3: injection H as <- <-; split; [intros _; split; [done|]; set_solver|by split].
    destruct (Z.ltb_spec MAX_BODY_SIZE (Z.of_nat (length b))) as [Hl|Hl].
    { injection H as <- <-. split; [intros _; split; [done|]; set_solver|]. split; [done|]. intros b' [= <-]. lia. }
    pose proof (gate_passes req b now allow) as Hg. destruct (http_ws_auth_gate _ _ _ _ _ _ _ _) as [e|o].
    + injection H as <- H. apply bind_Ok in H as (resp' & Hr & H). injection H as <-.
      apply common_headers_status in Hr as [Hst _]. split; [|split; [done|]].
      * intros _. split; [done|]. split; [done|]. rewrite Hst. set_solver.
      * intros b' [= <-] _ _ Ha. done.
    + assert (authorized req b now allow) as Ha by (destruct o; [by left|right; eauto]). split; [tauto|].
      destruct (handle_request _ _ _ _ _ _ _ _ _ _ q) as [q1 [resp1|err| |]] eqn:Eh; try done;
        injection H as <- H; apply bind_Ok in H as (resp' & Hr & H); injection H as <-;
        apply common_headers_status in Hr as [Hst Hb]; (split; [done|]); intros b' [= <-] _ _ _.
      * exists (Done resp1), resp1, resp'. by split_and!; [|left|..].
      * exists (Failed err), (plain (err_status err) (err_msg err)), resp'. split_and!; [done|right; by exists err|done..].
Qed.
End gate.

(** ** Websockets *)

Section sockets.
Context {D : Type} {RDB : RocksDB D} {RDBL : RocksDBLaws D}.
Context {BL : BitcoinLib} {BLaws : BitcoinLaws} {W : Wincode} {WL : WincodeLaws} {NL : NostrLib}.
Context {EL : ElectrumLib} {SL : ScriptLib} {SLaws : ScriptLaws} {TS : TxSize} {RL : RestLib}.
Context (icfg : IndexerConfig) (block_of : BlockHash -> Block).
Context (cfg : RestConfig) (allow : Z -> gset FullHash) (pubkey : FullHash) (id : Z).
Implicit Types (e : SocketTurn (D := D)) (s : SocketState).
Abbreviation turn := (socket_turn cfg allow pubkey id).
Abbreviation loop := (socket_loop cfg allow pubkey id).

(** The query a turn reads is over a synced index with a consistent mempool. *)
Definition turn_sound e : Prop :=
  query_ok icfg block_of (tn_query e) /\ exists A, refines (rc_mempool cfg) (q_mempool (tn_query e)) A.
(** Hub events and pings are answered without looking at the allowlist. *)
Definition unchecked e : Prop := tn_event e = OnOut \/ exists p, tn_event e = OnIncoming (Some (inr (WsPing p))).

Lemma send_ws_one s sends m :
  exists l, ss_sent (send_ws s sends m).1 = ss_sent s ++ l /\ length l <= 1 /\ ss_state (send_ws s sends m).1 = ss_state s.
Proof.
  destruct sends; [exists [m]|exists []; rewrite app_nil_r]; split_and!; try done; cbn; lia.
Qed.

(** A turn ends, sends at most one message, and subscribes to nothing for a key that is
    not listed. *)
Lemma turn_effect e s : turn_sound e ->
  exists s' go l, turn e s = Ok (s', go) /\ ss_sent s' = ss_sent s ++ l /\ length l <= 1 /\
    (pubkey ∉ allow (tn_at e) -> ss_state s' = ss_state s /\ (l <> [] -> unchecked e)).
Proof.
  intros [Hq [A HA]]. unfold socket_turn. set (s0 := mkSocket (tn_hub e (ss_hub s)) _ _).
  assert (forall s' (go : bool), ss_sent s' = ss_sent s -> ss_state s' = ss_state s -> exists s2 (go2 : bool) l,
      (Ok (s', go) : result (SocketState * bool)) = Ok (s2, go2) /\ ss_sent s2 = ss_sent s ++ l /\ length l <= 1 /\
      (pubkey ∉ allow (tn_at e) -> ss_state s2 = ss_state s /\ (l <> [] -> unchecked e))) as Hquiet.
  { intros s' go H1 H2. exists s', go, []. rewrite app_nil_r. split_and!; [done..|cbn; lia|done]. }
  destruct (tn_event e) as [| |[[u|m]|]] eqn:Ee; try (by apply Hquiet).
  - destruct (recv_out _ _) as [[[v|] hub]|]; try (by apply Hquiet).
    pose proof (send_ws_one (mkSocket hub (ss_state s0) (ss_sent s0)) (tn_sends e) (WsText (json_display v))) as Hs.
    destruct (send_ws _ _ _) as [s' go]. destruct Hs as (l & H1 & H2 & H3). exists s', go, l. split_and!; try done. intros _. split; [done|]. by left.
  - destruct m; try (by apply Hquiet).
    + unfold socket_text, allowed. case_bool_decide as Ha; [cbn [negb]|by apply Hquiet].
      destruct (json_parse t) as [err|msg]; [by apply Hquiet|].
      destruct (handle_socket_ok icfg block_of cfg (tn_query e) A (ss_hub s0) (allow (tn_at e)) pubkey (ss_state s0) msg Hq HA)
        as [[[hub state] reply] ->]. cbn [mbind result_bind].
      destruct reply as [out|].
      * set (s1 := mkSocket _ state _). pose proof (send_ws_one s1 (tn_sends e) (WsText (json_display out))) as Hs.
        destruct (send_ws _ _ _) as [s' go]. destruct Hs as (l & H1 & H2 & H3). exists s', go, l. by split_and!.
      * eexists _, _, []. split; [done|]. rewrite app_nil_r. split_and!; [done|cbn; lia|done].
    + pose proof (send_ws_one s0 (tn_sends e) (WsPong b)) as Hs.
      destruct (send_ws _ _ _) as [s' go]. destruct Hs as (l & H1 & H2 & H3). exists s', go, l. split_and!; try done.
      intros _. split; [done|]. right. eauto.
Qed.

(** The time at which the loop is back at its start. *)
Definition back_at (now : Z) (turns : list (SocketTurn (D := D))) : Z := fold_left (fun _ e => tn_done e) turns now.
(** [tokio::time::interval(WS_ALLOWLIST_POLL)] in the [select!]: the first tick is ready
    at once, the tick after one that was due at [next] is due a period later, a tick is
    not taken before it is due, and the [select!] waits no longer than until the tick it
    waits for is due. *)
Fixpoint ticking (next now : Z) (turns : list (SocketTurn (D := D))) : Prop :=
  match turns with
  | [] => True
  | e :: turns => (now <= tn_at e <= Z.max now next)%Z /\ (tn_event e = OnTick -> next <= tn_at e)%Z /\ (tn_at e <= tn_done e)%Z /\
      ticking (match tn_event e with OnTick => next + WS_ALLOWLIST_POLL | _ => next end)%Z (tn_done e) turns
  end.

(** So a turn starts at most a period after the loop is back at its start. *)
Lemma ticking_prompt turns1 e turns2 : forall next now, (next <= now + WS_ALLOWLIST_POLL)%Z ->
  ticking next now (turns1 ++ e :: turns2) ->
  (tn_at e <= back_at now turns1 + WS_ALLOWLIST_POLL)%Z.
Proof.
  induction turns1 as [|x turns1 IH]; intros next now Hn; cbn [app ticking].
  - intros ([H1 H2] & _). cbn. unfold WS_ALLOWLIST_POLL in *. lia.
  - intros ([H1 H2] & Ht & Hd & H). apply IH in H; [done|].
    destruct (tn_event x); [specialize (Ht eq_refl)|..]; unfold WS_ALLOWLIST_POLL in *; lia.
Qed.
Lemma loop_app turns1 turns2 : forall now s,
  loop now (turns1 ++ turns2) s =
    match loop now turns1 s with Ok (s1, false) => loop (back_at now turns1) turns2 s1 | r => r end.
Proof.
  induction turns1 as [|e turns1 IH]; intros now s; cbn [app socket_loop].
  - destruct (allowed allow pubkey now) eqn:E; cbn [negb]; [done|]. destruct turns2; cbn [socket_loop]; by rewrite E.
  - destruct (allowed allow pubkey now); cbn [negb]; [|done].
    destruct (turn e s) as [[s1 go]|err| |]; cbn [mbind result_bind fst snd]; [|done..]. destruct go; [apply IH|done].
Qed.
Lemma back_before T turns : forall now, (now < T)%Z -> Forall (fun e => tn_done e < T)%Z turns -> (back_at now turns < T)%Z.
Proof. induction turns as [|e turns IH]; intros now Hn Hf; [done|]. apply Forall_cons in Hf as [H1 H2]. by apply IH. Qed.
Lemma loop_closed turns : forall now s s1, loop now turns s = Ok (s1, true) -> clients (ss_hub s1) !! id = None.
Proof.
  assert (forall s, clients (ss_hub (close_socket id s)) !! id = None) as Hc by (intros; apply lookup_delete_eq).
  induction turns as [|e turns IH]; intros now s s1; cbn [socket_loop]; destruct (negb _); try (by intros [= <-]).
  intros H. apply bind_Ok in H as ([s2 go] & _ & H). destruct go; [by apply IH in H|by injection H as <-].
Qed.
Lemma loop_returns turns : Forall turn_sound turns -> forall now s, is_ok (loop now turns s).
Proof.
  induction 1 as [|e turns He _ IH]; intros now s; cbn [socket_loop]; destruct (negb _); try (by eexists).
  destruct (turn_effect e s He) as (s1 & go & l & -> & _). cbn [mbind result_bind fst snd]. destruct go; [apply IH|by eexists].
Qed.

(** C24: The key of a websocket leaves the allowlist at time [T] for good.  Let the turns of
    the loop read a synced index with a consistent mempool, and let the timer tick every
    [WS_ALLOWLIST_POLL] seconds.  Then no turn crashes, and at the latest in the first turn
    that ends after [T] the socket is closed and its client removed from the hub, whatever
    comes later; that turn starts at most two seconds after [T].  It sends at most one
    message before the closing one.  If it starts after [T] it takes no subscription, and
    the one message can only be a hub event or the answer to a ping; a turn that started
    before [T] may still take the subscription it was sent. *)
Theorem revoked_socket_closes now turns1 e turns2 s T :
  (now < T)%Z -> Forall (fun e => tn_done e < T)%Z turns1 -> (T <= tn_done e)%Z ->
  ticking now now (turns1 ++ e :: turns2) -> Forall turn_sound (turns1 ++ e :: turns2) ->
  (forall t, (T <= t)%Z -> pubkey ∉ allow t) ->
  (tn_at e <= T + WS_ALLOWLIST_POLL)%Z /\
  exists s', loop now (turns1 ++ e :: turns2) s = Ok (s', true) /\ clients (ss_hub s') !! id = None /\
    exists s1 ended, loop now turns1 s = Ok (s1, ended) /\
      if ended : bool then s' = s1
      else exists late, ss_sent s' = ss_sent s1 ++ late ++ [WsClose] /\ length late <= 1 /\
        ((T <= tn_at e)%Z -> ss_state s' = ss_state s1 /\ (late <> [] -> unchecked e)).
Proof.
  intros Hn Hf He Hp Hsound Hrev. split.
  { apply ticking_prompt in Hp; [|unfold WS_ALLOWLIST_POLL; lia]. pose proof (back_before T turns1 now Hn Hf). lia. }
  apply Forall_app in Hsound as [Hs1 [Hse Hs2]%Forall_cons].
  destruct (loop_returns turns1 Hs1 now s) as [[s1 ended] E1]. rewrite loop_app, E1.
  destruct ended.
  { exists s1. split; [done|]. split; [by eapply loop_closed|]. by exists s1, true. }
  pose proof (loop_closed (e :: turns2) (back_at now turns1) s1) as Hcl.
  cbn [socket_loop] in *. destruct (allowed allow pubkey (back_at now turns1)) eqn:Ea; cbn [negb] in *.
  - destruct (turn_effect e s1 Hse) as (s2 & go & late & Ht & Hl & Hlen & Hrest). rewrite Ht in *. cbn [mbind result_bind fst snd] in *.
    assert ((if go then loop (tn_done e) turns2 s2 else Ok (close_socket id s2, true)) = Ok (close_socket id s2, true)) as Heq.
    { destruct go; [|done]. assert (allowed allow pubkey (tn_done e) = false) as Hx by (by apply bool_decide_eq_false, Hrev).
      destruct turns2; cbn [socket_loop]; by rewrite Hx. }
    rewrite Heq in *. eexists. split; [done|]. split; [by eapply Hcl|]. exists s1, false. split; [done|].
    exists late. split; [cbn [close_socket ss_sent]; by rewrite Hl, <- app_assoc|]. split; [done|]. intros Hat. apply Hrest. by apply Hrev.
  - eexists. split; [done|]. split; [by eapply Hcl|]. exists s1, false. split; [done|]. exists []. split; [done|]. split; [cbn; lia|].
    done.
Qed.
End sockets.

(** ** Witnesses *)

Definition ex_rest_rpc : RestRpc :=
  mkRestRpc (mkQueryRpc (mkMempoolRpc (Ok ∅) (fun _ => Ok []) (fun _ => Err (Msg "offline"))) (fun _ => Err (Msg "offline")) (fun _ => Err (Msg "offline")) (Err (Msg "offline")))
    (fun _ _ => Err (Msg "offline")) (fun _ _ _ => Err (Msg "offline")) (Err (Msg "offline")).
Definition ex_unsigned : HttpRequest := mkRequest (text_of "GET") (text_of "/mempool") None (Some (text_of "/mempool")) [].
Lemma requests_gated_witness :
  exists (q : Query KvMap) resp,
    @handle_one_rest_request KvMap _ ExampleLib FixintWincode ExampleNostr ExampleElectrum ExampleScripts ex_size ExampleRest
      ex_rcfg ex_rest_rpc (fun _ => null_hash) 0 0 reverse (text_of "splora") None ex_unsigned (Collected []) ∅ 0 q
      = (q, Ok (Answered resp None)) /\ rs_status resp ∈ [UNAUTHORIZED; REQUEST_TIMEOUT; PAYLOAD_TOO_LARGE].
Proof.
  destruct ex_serves as (q & A & _). exists q. eexists. split; [reflexivity|].
  destruct (@requests_gated KvMap _ ExampleLib FixintWincode ExampleNostr ExampleElectrum ExampleScripts ex_size ExampleRest
    ex_rcfg ex_rest_rpc (fun _ => null_hash) 0 0 reverse (text_of "splora") None ex_unsigned (Collected []) ∅ 0 q q
    (Answered (insert_header (unauthorized_response MissingHeader) "x-powered-by" (text_of "splora")) None) eq_refl) as [Hg _].
  apply Hg. intros [(H & _)|(pk & H & _)]; discriminate H.
Defined.

(** The key is listed until time 10; a tick comes at 8, and a ping and a tick at 10. *)
Definition ex_allow (t : Z) : gset FullHash := if (t <? 10)%Z then {[hash_repeat 3]} else ∅.
Definition ex_turn (ev : SocketEvent) (t : Z) (q : Query KvMap) : SocketTurn := mkTurn ev t (fun hub => hub) q true t.
Lemma revoked_socket_closes_witness :
  exists (q : Query KvMap) s',
    @run_mwck_socket KvMap _ ExampleLib FixintWincode ExampleElectrum ExampleScripts ex_size ExampleRest ex_rcfg ex_allow (hash_repeat 3)
      hub_new 8 [ex_turn OnTick 8 q; ex_turn (OnIncoming (Some (inr (WsPing [])))) 10 q; ex_turn OnTick 10 q] = Ok (s', true) /\
    clients (ss_hub s') !! 1%Z = None.
Proof.
  destruct ex_query_exists as (c & Hc & Hhl & _ & Hl & _). set (q := query_new c (mempool_new ex_mcfg 100)). exists q.
  destruct (@revoked_socket_closes KvMap _ _ ExampleLib ExampleLib_laws FixintWincode FixintWincode_laws ExampleElectrum ExampleScripts
    ExampleScripts_laws ex_size ExampleRest ex_cfg ex_block_of
    ex_rcfg ex_allow (hash_repeat 3) 1 8 [ex_turn OnTick 8 q] (ex_turn (OnIncoming (Some (inr (WsPing [])))) 10 q)
    [ex_turn OnTick 10 q] (mkSocket (register_socket hub_new).1 client_default []) 10) as (_ & s' & Hs & Hid & _).
  - lia.
  - repeat constructor.
  - cbn. lia.
  - cbn. unfold WS_ALLOWLIST_POLL. split_and!; (lia || discriminate || (intros _; lia) || exact I).
  - assert (@turn_sound KvMap _ ExampleLib FixintWincode ex_cfg ex_block_of ex_rcfg (ex_turn OnTick 8 q)) as Hq.
    { split; [|exists ∅; exact (@refines_new ExampleLib ex_mcfg 100)]. split; [exact Hc|by split| |done].
      intros b tx Hb. assert (b ∈ ex_chain) as Hb'.
      { revert Hb. unfold chain_of. cbn. rewrite Hhl. done. }
      assert (Forall (fun b => Forall (@regular ExampleLib) (txdata (be_block b))) ex_chain) as HF by vm_decide.
      rewrite Forall_forall in HF. specialize (HF b Hb'). rewrite Forall_forall in HF. apply HF. }
    do 3 (constructor; [exact Hq|]). constructor.
  - intros t Ht. unfold ex_allow. rewrite (proj2 (Z.ltb_ge t 10)) by lia. set_solver.
  - exists s'. split; [exact Hs|exact Hid].
Defined.
