(* ===== verification/Front.v ===== *)
(** * [http_front/mod.rs], [frontend/splora-api] and [frontend/web/src/auth.rs]

    The way of a request from the web client to an indexer: the client signs the URL of
    the indexer's own path and fetches it below the prefix of its network; the public
    front strips the prefix and passes the request on to the socket of that network.
    The HTTP client of the front is a parameter: what a socket replies to a request, and
    the [Host] it names when a request has none. *)

From S2P Require Import Prelude Text Json Auth Rest Mwck RestServer.

(** ** The prefix table and the header builder of [splora-api] *)

Module Api.
Inductive ApiNetwork := Mainnet | Testnet3 | Testnet4 | Mutinynet | Liquid.
Definition api_prefix (network : ApiNetwork) : Text :=
  match network with
  | Mainnet => text_of "/api"
  | Testnet3 => text_of "/testnet/api"
  | Testnet4 => text_of "/testnet4/api"
  | Mutinynet => text_of "/mutinynet/api"
  | Liquid => text_of "/liquid/api"
  end.

Definition KIND_NIP98 : Z := 27235.
Definition nip98_tags (url method : Text) (payload_sha256_hex : option Text) : list (list Text) :=
  [[text_of "u"; url]; [text_of "method"; method]] ++
  match payload_sha256_hex with Some hash => [[text_of "payload"; hash]] | None => [] end.

Definition BASE64_ALPHABET : Text :=
  text_of "ABCDEFGHIJKLMNOPQRSTUVWXYZabcdefghijklmnopqrstuvwxyz0123456789+/".
(** The characters that [push_quantum] appends; every index is below 64. *)
Definition push_quantum (b0 b1 b2 : Z) (significant : nat) : Text :=
  let n := Z.lor (Z.lor (Z.shiftl b0 16) (Z.shiftl b1 8)) b2 in
  let indexes := [Z.land (Z.shiftr n 18) 63; Z.land (Z.shiftr n 12) 63; Z.land (Z.shiftr n 6) 63; Z.land n 63] in
  map (fun index => nth (Z.to_nat index) BASE64_ALPHABET 0%Z) (take significant indexes) ++ replicate (4 - significant) 61%Z.
Fixpoint standard_base64 (input : Bytes) : Text :=
  match input with
  | b0 :: b1 :: b2 :: rest => push_quantum b0 b1 b2 4 ++ standard_base64 rest
  | [b0] => push_quantum b0 0 0 2
  | [b0; b1] => push_quantum b0 b1 0 3
  | [] => []
  end.
Definition authorization_header (event_json : Text) : option Text :=
  if text_contains event_json (text_of "nsec1") then None
  else Some (text_of "Nostr " ++ standard_base64 (utf8_encode event_json)).
End Api.

(** ** The web client *)

Inductive ClientError := MissingSigner | RejectedEvent | IndexerError (msg : Text).
Record UnsignedNip98 := mkUnsigned {
  un_pubkey : Text; un_created_at : Z; un_kind : Z; un_tags : list (list Text); un_content : Text }.
(** [trait Nip98Signer] *)
Record Nip98Signer := mkSigner {
  public_key_hex : ClientError + Text;
  sign_event_json : UnsignedNip98 -> ClientError + Text }.

Definition nip98_u_url (origin indexer_path : Text) : Text := origin ++ indexer_path.
Definition browser_fetch_url (origin : Text) (network : Api.ApiNetwork) (indexer_path : Text) : Text :=
  origin ++ Api.api_prefix network ++ indexer_path.
Definition unsigned_method (pubkey : Text) (created_at : Z) (origin indexer_path method : Text) : UnsignedNip98 :=
  mkUnsigned pubkey created_at Api.KIND_NIP98 (Api.nip98_tags (nip98_u_url origin indexer_path) method None) [].
Definition unsigned_get (pubkey : Text) (created_at : Z) (origin indexer_path : Text) : UnsignedNip98 :=
  unsigned_method pubkey created_at origin indexer_path (text_of "GET").
(** [transport] is what fetches a URL with a header. *)
Definition fetch_indexer {A} (signer : option Nip98Signer) (origin : Text) (network : Api.ApiNetwork) (indexer_path : Text)
    (now_unix : Z) (transport : Text -> Text -> ClientError + A) : ClientError + A :=
  signer ← or_fail MissingSigner signer;
  pubkey ← public_key_hex signer;
  let unsigned := unsigned_get pubkey now_unix origin indexer_path in
  signed ← sign_event_json signer unsigned;
  header ← or_fail RejectedEvent (Api.authorization_header signed);
  transport (browser_fetch_url origin network indexer_path) header.


(** [FAIL_CLOSED], shown instead of what a failed request would have given. *)
Definition FAIL_CLOSED : Text := text_of "A NIP-07 signer is required. The indexer was not called.".
Definition text_after_signed_get (result : ClientError + Text) : Text :=
  match result with inr text => text | inl _ => FAIL_CLOSED end.
Definition signer_from_presence (present : bool) : ClientError + unit := if present then inr tt else inl MissingSigner.

Definition allowed_post_path (path : Text) : bool :=
  bool_decide (path = text_of "/tx") || bool_decide (path = text_of "/txs/test").
(** [strings] reads a JSON array of strings. *)
Definition allowed_post (strings : Text -> option (list Text)) (path body : Text) : bool :=
  if allowed_post_path path then true
  else if negb (bool_decide (path = text_of "/txs/package")) then false
  else match strings body with
  | None => false
  | Some rows => (1 <? length rows) && forallb (fun row => is_hex (trim row)) rows
  end.
Definition post_indexer {A} (strings : Text -> option (list Text)) (signer : option Nip98Signer) (origin : Text)
    (network : Api.ApiNetwork) (indexer_path : Text) (now_unix : Z) (payload : Text)
    (transport : Text -> Text -> Text -> Text -> ClientError + A) : ClientError + A :=
  _ ← fail_if (text_contains payload (text_of "nsec1") || negb (allowed_post strings indexer_path payload)) RejectedEvent;
  signer ← or_fail MissingSigner signer;
  pubkey ← public_key_hex signer;
  let unsigned := unsigned_method pubkey now_unix origin indexer_path (text_of "POST") in
  signed ← sign_event_json signer unsigned;
  _ ← fail_if (text_contains signed (text_of "nsec1")) RejectedEvent;
  header ← or_fail RejectedEvent (Api.authorization_header signed);
  transport (text_of "POST") (browser_fetch_url origin network indexer_path) header payload.

(** ** The front *)

Inductive NetworkId := Mainnet | Testnet3 | Testnet4 | Mutinynet | Liquid.
Definition http_socket_file_name (n : NetworkId) : Text :=
  match n with
  | Mainnet => text_of "mainnet.http.sock"
  | Testnet3 => text_of "testnet3.http.sock"
  | Testnet4 => text_of "testnet4.http.sock"
  | Mutinynet => text_of "mutinynet.http.sock"
  | Liquid => text_of "liquid.http.sock"
  end.
Inductive Route := Redirect307 (location : Text) | Proxy (network : NetworkId) (backend_path : Text) | NotFound.

Definition strip_named_prefix (path prefix : Text) : option Text :=
  if bool_decide (path = prefix) then Some []
  else rest ← strip_prefix path prefix; if starts_with rest (text_of "/") then Some rest else None.
Definition backend_path (path_with_api : Text) : Text :=
  if bool_decide (path_with_api = text_of "/api/v1/ws") || starts_with path_with_api (text_of "/api/v1/ws/") then path_with_api
  else match strip_prefix path_with_api (text_of "/api") with
  | Some [] => text_of "/"
  | Some rest => rest
  | None => path_with_api
  end.
Definition is_api_path (path : Text) : bool := bool_decide (path = text_of "/api") || starts_with path (text_of "/api/").
Definition proxy_after_network (network : NetworkId) (after_network : Text) : Route :=
  if negb (is_api_path after_network) then NotFound else Proxy network (backend_path after_network).
Definition route (path : Text) : Route :=
  match strip_named_prefix path (text_of "/signet") with
  | Some suffix => Redirect307 (text_of "/mutinynet" ++ suffix)
  | None =>
  match strip_named_prefix path (text_of "/testnet4") with
  | Some rest => proxy_after_network Testnet4 rest
  | None =>
  match strip_named_prefix path (text_of "/testnet") with
  | Some rest => proxy_after_network Testnet3 rest
  | None =>
  match strip_named_prefix path (text_of "/mutinynet") with
  | Some rest => proxy_after_network Mutinynet rest
  | None =>
  match strip_named_prefix path (text_of "/liquid") with
  | Some rest => proxy_after_network Liquid rest
  | None => if is_api_path path then proxy_after_network Mainnet path else NotFound
  end end end end end.

(** [Path::join] with a relative name, and [Path::file_name]. *)
Definition path_join (dir name : Text) : Text :=
  match last dir with
  | None => name
  | Some c => if (c =? 47)%Z then dir ++ name else dir ++ [47%Z] ++ name
  end.
Definition file_name (path : Text) : option Text :=
  match last (filter (fun c : Text => c <> [] /\ c <> text_of ".") (split_on 47 path)) with
  | Some c => if bool_decide (c = text_of "..") then None else Some c
  | None => None
  end.
Definition ends_with (t s : Text) : bool := starts_with (reverse t) (reverse s).
Definition http_socket_path (socket_dir : Text) (network : NetworkId) : Text :=
  path_join socket_dir (http_socket_file_name network).
Definition is_electrum_socket (path : Text) : bool :=
  match file_name path with Some n => ends_with n (text_of "electrum.sock") | None => false end.

(** ** Passing a request on *)

Definition TEMPORARY_REDIRECT : Z := 307.
Definition BAD_GATEWAY : Z := 502.
(** The reply of a socket: none, or a response whose body may fail to arrive. *)
Inductive BackendReply := NoReply | Replied (resp : HttpResponse) (complete : bool).

Section front.
Context (backend : Text -> HttpRequest -> Bytes -> BackendReply) (unix_authority : Text -> Text).

(** The headers as they arrive at the socket. *)
Definition forwarded_headers (socket : Text) (headers : list (Text * Bytes)) : list (Text * Bytes) :=
  let absent name := bool_decide (Forall (fun p : Text * Bytes => p.1 <> text_of name) headers) in
  headers ++ (if absent "x-forwarded-proto" then [(text_of "x-forwarded-proto", text_of "https")] else [])
          ++ (if absent "host" then [(text_of "host", unix_authority socket)] else []).
Definition backend_request (method socket backend_path : Text) (query : option Text) (headers : list (Text * Bytes)) : HttpRequest :=
  let uri_path := match query with Some q => backend_path ++ text_of "?" ++ q | None => backend_path end in
  mkRequest method backend_path query (Some uri_path) (forwarded_headers socket headers).
(** The response, and whether the connection becomes a tunnel to the socket. *)
Definition relay (reply : BackendReply) (upgrade : bool) : HttpResponse * bool :=
  match reply with
  | NoReply => (mkResponse BAD_GATEWAY [] (utf8_encode (text_of "backend unavailable")), false)
  | Replied resp complete =>
      if (rs_status resp =? SWITCHING_PROTOCOLS)%Z && upgrade then (mkResponse (rs_status resp) (rs_headers resp) [], true)
      else if complete then (resp, false)
      else (mkResponse BAD_GATEWAY [] (utf8_encode (text_of "backend unavailable")), false)
  end.
Definition proxy_unix (method socket backend_path : Text) (query : option Text) (headers : list (Text * Bytes))
    (body : Bytes) (upgrade : bool) : HttpResponse * bool :=
  relay (backend socket (backend_request method socket backend_path query headers) body) upgrade.
Definition dispatch (method path : Text) (query : option Text) (headers : list (Text * Bytes)) (body : Bytes)
    (upgrade : bool) (socket_dir : Text) : HttpResponse * bool :=
  match route path with
  | Redirect307 location =>
      let location := match query with Some q => location ++ text_of "?" ++ q | None => location end in
      (mkResponse TEMPORARY_REDIRECT [(text_of "location", location)] [], false)
  | NotFound => (mkResponse NOT_FOUND [] (utf8_encode (text_of "not found")), false)
  | Proxy network backend_path =>
      let socket := http_socket_path socket_dir network in
      if is_electrum_socket socket then
        (mkResponse INTERNAL_SERVER_ERROR [] (utf8_encode (text_of "electrum socket refused")), false)
      else proxy_unix method socket backend_path query headers body upgrade
  end.
(** [None] for a body that cannot be read. *)
Definition handle_front (req : HttpRequest) (body : option Bytes) (socket_dir : Text) : HttpResponse * bool :=
  let upgrade := bool_decide (is_Some (header_get req "upgrade")) in
  match body with
  | None => (mkResponse BAD_REQUEST [] (utf8_encode (text_of "bad body")), false)
  | Some bytes => dispatch (rq_method req) (rq_path req) (rq_query req) (rq_headers req) bytes upgrade socket_dir
  end.
End front.
