(* ===== verification/FrontFacts.v ===== *)
(** * From the web client to the indexer

    Base64 headers decode; the front sends a path to the socket of the network its prefix
    names and to no other; and a GET or POST that the web client signs passes, over
    HTTP/1.1, the gate of the indexer it is sent to, the URL the client signs being the one
    the indexer rebuilds, and over HTTP/2 and HTTP/3, which have no [Host] header, it does
    not. *)

From S2P Require Import Prelude Text Json Auth Rest RestServer Front.

(** ** Base64 *)

(** A decoder of RFC 4648 with padding. *)
Definition b64_index (c : Z) : option Z :=
  Z.of_nat ∘ fst <$> list_find (fun x => x = c) Api.BASE64_ALPHABET.
Definition b64_quantum (i0 i1 i2 i3 : Z) : Z := (i0 * 262144 + i1 * 4096 + i2 * 64 + i3)%Z.
Fixpoint b64_decode (t : Text) : option Bytes :=
  match t with
  | [] => Some []
  | c0 :: c1 :: c2 :: c3 :: t =>
      i0 ← b64_index c0; i1 ← b64_index c1;
      if (c3 =? 61)%Z then
        if bool_decide (t = []) then
          if (c2 =? 61)%Z then Some [b64_quantum i0 i1 0 0 / 65536]%Z
          else i2 ← b64_index c2; let n := b64_quantum i0 i1 i2 0 in Some [n / 65536; n / 256 mod 256]%Z
        else None
      else
        i2 ← b64_index c2; i3 ← b64_index c3; rest ← b64_decode t;
        let n := b64_quantum i0 i1 i2 i3 in Some ([n / 65536; n / 256 mod 256; n mod 256]%Z ++ rest)
  | _ => None
  end.

Definition is_byte (b : Z) : Prop := (0 <= b < 256)%Z.
Definition b64_char (i : Z) : Z := nth (Z.to_nat i) Api.BASE64_ALPHABET 0%Z.

Lemma b64_chars i : (0 <= i < 64)%Z ->
  b64_index (b64_char i) = Some i /\ (b64_char i =? 61)%Z = false /\ is_whitespace (b64_char i) = false /\ (33 <= b64_char i < 127)%Z.
Proof.
  intros Hi. assert (Forall (fun k => b64_index (b64_char (Z.of_nat k)) = Some (Z.of_nat k) /\ (b64_char (Z.of_nat k) =? 61)%Z = false /\
    is_whitespace (b64_char (Z.of_nat k)) = false /\ (33 <= b64_char (Z.of_nat k) < 127)%Z) (seq 0 64)) as HF by vm_decide.
  rewrite Forall_forall in HF. rewrite <- (Z2Nat.id i) by lia. apply HF. apply elem_of_seq. lia.
Qed.
Lemma quantum_indexes b0 b1 b2 : is_byte b0 -> is_byte b1 -> is_byte b2 ->
  let n := (b0 * 65536 + b1 * 256 + b2)%Z in
  Z.lor (Z.lor (Z.shiftl b0 16) (Z.shiftl b1 8)) b2 = n /\
  Z.land (Z.shiftr n 18) 63 = (n / 262144 mod 64)%Z /\ Z.land (Z.shiftr n 12) 63 = (n / 4096 mod 64)%Z /\
  Z.land (Z.shiftr n 6) 63 = (n / 64 mod 64)%Z /\ Z.land n 63 = (n mod 64)%Z.
Proof.
  intros H0 H1 H2 n. unfold is_byte in *. split.
  - assert (forall a b k, (0 <= k)%Z -> (0 <= b < 2 ^ k)%Z -> Z.lor (a * 2 ^ k) b = (a * 2 ^ k + b)%Z) as Hlor.
    { intros a b k Hk Hb. assert (Z.land (a * 2 ^ k) b = 0)%Z as Hz.
      { apply Z.bits_inj'. intros i Hi. rewrite Z.land_spec, Z.bits_0. destruct (Z.lt_ge_cases i k).
        - by rewrite Z.mul_pow2_bits_low.
        - rewrite <- (Z.mod_small b (2 ^ k)), Z.mod_pow2_bits_high by lia. apply andb_false_r. }
      rewrite <- Z.lxor_lor by done. symmetry. by apply Z.add_nocarry_lxor. }
    rewrite !Z.shiftl_mul_pow2 by lia.
    rewrite (Hlor b0 (b1 * 2 ^ 8)%Z 16%Z) by (cbn; lia). rewrite (Z.lor_comm _ b2).
    replace (b0 * 2 ^ 16 + b1 * 2 ^ 8)%Z with ((b0 * 256 + b1) * 2 ^ 8)%Z by (cbn; lia). rewrite Z.lor_comm.
    rewrite Hlor by (cbn; lia). subst n. cbn. lia.
  - change 63%Z with (Z.ones 6). rewrite !Z.land_ones by lia. rewrite !Z.shiftr_div_pow2 by lia. done.
Qed.
Lemma b64_shape b0 b1 b2 k : is_byte b0 -> is_byte b1 -> is_byte b2 -> k <= 4 ->
  let n := (b0 * 65536 + b1 * 256 + b2)%Z in
  Api.push_quantum b0 b1 b2 k =
    take k [b64_char (n / 262144 mod 64); b64_char (n / 4096 mod 64); b64_char (n / 64 mod 64); b64_char (n mod 64)]
    ++ replicate (4 - k) 61%Z.
Proof.
  intros H0 H1 H2 Hk n. unfold Api.push_quantum. destruct (quantum_indexes b0 b1 b2 H0 H1 H2) as (-> & -> & -> & -> & ->).
  rewrite <- firstn_map. done.
Qed.

Lemma quantum_join n : (0 <= n < 16777216)%Z ->
  b64_quantum (n / 262144 mod 64) (n / 4096 mod 64) (n / 64 mod 64) (n mod 64) = n.
Proof. intros Hn. unfold b64_quantum. Z.to_euclidean_division_equations. lia. Qed.
Lemma quantum_bytes b0 b1 b2 (n := (b0 * 65536 + b1 * 256 + b2)%Z) : is_byte b0 -> is_byte b1 -> is_byte b2 ->
  (0 <= n < 16777216)%Z /\ (n / 65536 = b0)%Z /\ (n / 256 mod 256 = b1)%Z /\ (n mod 256 = b2)%Z /\
  (b2 = 0 -> n mod 64 = 0)%Z /\ (b1 = 0 -> b2 = 0 -> n / 64 mod 64 = 0)%Z.
Proof. unfold is_byte. intros H0 H1 H2. subst n. split_and!; intros; Z.to_euclidean_division_equations; lia. Qed.
Lemma standard_base64_ind (P : Bytes -> Prop) :
  P [] -> (forall b0, P [b0]) -> (forall b0 b1, P [b0; b1]) -> (forall b0 b1 b2 rest, P rest -> P (b0 :: b1 :: b2 :: rest)) ->
  forall l, P l.
Proof.
  intros H0 H1 H2 H3 l. remember (length l) as n eqn:Hn. revert l Hn. induction (lt_wf n) as [n _ IH].
  intros [|b0 [|b1 [|b2 rest]]] ->; auto. apply H3. eapply IH; [|done]. cbn. lia.
Qed.
(** Decoding gives the bytes back. *)
Lemma base64_roundtrip input : Forall is_byte input -> b64_decode (Api.standard_base64 input) = Some input.
Proof.
  induction input as [|b0|b0 b1|b0 b1 b2 rest IH] using standard_base64_ind; intros Hb; rewrite ?Forall_cons in Hb.
  - done.
  - destruct Hb as (H0 & _). cbn [Api.standard_base64]. rewrite b64_shape by (done || unfold is_byte; lia).
    set (n := (b0 * 65536 + 0 * 256 + 0)%Z). cbn [take replicate Nat.sub app b64_decode].
    rewrite !(proj1 (b64_chars _ (Z.mod_pos_bound _ 64 eq_refl))). cbn [mbind option_bind Z.eqb Pos.eqb].
    rewrite bool_decide_true by done.
    destruct (quantum_bytes b0 0 0) as (Hn & Hq0 & _ & _ & Hz & Hz'); [done|done|done|]. fold n in Hn, Hq0, Hz, Hz'.
    rewrite <- (Hz eq_refl) at 2. rewrite <- (Hz' eq_refl eq_refl) at 1. by rewrite quantum_join, Hq0.
  - destruct Hb as (H0 & H1 & _). cbn [Api.standard_base64]. rewrite b64_shape by (done || unfold is_byte; lia).
    set (n := (b0 * 65536 + b1 * 256 + 0)%Z). cbn [take replicate Nat.sub app b64_decode].
    rewrite !(proj1 (b64_chars _ (Z.mod_pos_bound _ 64 eq_refl))). cbn [mbind option_bind Z.eqb Pos.eqb].
    rewrite (proj1 (proj2 (b64_chars _ (Z.mod_pos_bound _ 64 eq_refl)))), bool_decide_true by done.
    destruct (quantum_bytes b0 b1 0) as (Hn & Hq0 & Hq1 & _ & Hz & _); [done|done|done|]. fold n in Hn, Hq0, Hq1, Hz.
    rewrite <- (Hz eq_refl) at 1 2. cbn zeta. by rewrite quantum_join, Hq0, Hq1.
  - destruct Hb as (H0 & H1 & H2 & Hr). cbn [Api.standard_base64]. rewrite b64_shape by (done || unfold is_byte; lia).
    set (n := (b0 * 65536 + b1 * 256 + b2)%Z). cbn [take replicate Nat.sub app b64_decode].
    rewrite !(proj1 (b64_chars _ (Z.mod_pos_bound _ 64 eq_refl))). cbn [mbind option_bind].
    rewrite (proj1 (proj2 (b64_chars _ (Z.mod_pos_bound _ 64 eq_refl)))), IH by done. cbn [mbind option_bind app].
    destruct (quantum_bytes b0 b1 b2) as (Hn & Hq0 & Hq1 & Hq2 & _); [done..|]. fold n in Hn, Hq0, Hq1, Hq2.
    by rewrite quantum_join, Hq0, Hq1, Hq2.
Qed.

(** The encoded text has no blanks, only visible ASCII, and four characters for three bytes. *)
Definition is_token_char (c : Z) : Prop := is_whitespace c = false /\ (33 <= c < 127)%Z.
Lemma quantum_chars b0 b1 b2 k : is_byte b0 -> is_byte b1 -> is_byte b2 -> k <= 4 ->
  Forall is_token_char (Api.push_quantum b0 b1 b2 k) /\ length (Api.push_quantum b0 b1 b2 k) = 4.
Proof.
  intros H0 H1 H2 Hk. rewrite b64_shape by done. set (n := (b0 * 65536 + b1 * 256 + b2)%Z). split.
  - apply Forall_app. split; [|apply Forall_replicate; split; [done|lia]].
    apply Forall_take. repeat constructor; apply b64_chars, Z.mod_pos_bound; lia.
  - rewrite length_app, length_take, length_replicate. cbn [length]. lia.
Qed.
Lemma base64_chars input : Forall is_byte input ->
  Forall is_token_char (Api.standard_base64 input) /\ length (Api.standard_base64 input) = 4 * ((length input + 2) / 3).
Proof.
  assert (is_byte 0) as Hz by (unfold is_byte; lia).
  induction input as [|b0|b0 b1|b0 b1 b2 rest IH] using standard_base64_ind; intros Hb; rewrite ?Forall_cons in Hb;
    cbn [Api.standard_base64].
  1: by split; [constructor|].
  1, 2: destruct Hb as [H0 Hb]; apply quantum_chars; try done; try apply Hb; lia.
  destruct Hb as (H0 & H1 & H2 & Hr), (IH Hr) as [Hf Hl]. destruct (quantum_chars b0 b1 b2 4) as [Hq Hlq]; [done..|lia|].
  split; [by apply Forall_app|]. rewrite length_app, Hlq, Hl. cbn [length].
  replace (S (S (S (length rest))) + 2) with (length rest + 2 + 1 * 3) by lia. rewrite Nat.div_add by lia. lia.
Qed.
Lemma utf8_bytes t : Forall is_char t -> Forall is_byte (utf8_encode t).
Proof.
  induction 1 as [|c t Hc _ IH]; [constructor|]. unfold utf8_encode. cbn [map concat]. apply Forall_app. split; [|exact IH].
  unfold is_char in Hc. unfold utf8_char, is_byte. repeat case_match; repeat constructor; Z.to_euclidean_division_equations; lia.
Qed.
Lemma ascii_utf8_len t : Forall is_token_char t -> utf8_len t = Z.of_nat (length t).
Proof.
  induction 1 as [|c t [_ Hc] _ IH]; [done|]. unfold utf8_len in *. cbn [map]. rewrite sum_Z_cons, IH.
  rewrite (proj2 (Z.ltb_lt c 128)) by lia. cbn [length]. lia.
Qed.

(** ** Routing *)

(** The rest of a path after a whole segment. *)
Definition at_segment (rest : Text) : Prop := rest = [] \/ exists r, rest = text_of "/" ++ r.
Definition front_prefix (n : NetworkId) : Text :=
  match n with
  | Mainnet => []
  | Testnet3 => text_of "/testnet"
  | Testnet4 => text_of "/testnet4"
  | Mutinynet => text_of "/mutinynet"
  | Liquid => text_of "/liquid"
  end.

Lemma strip_prefix_spec t p rest : strip_prefix t p = Some rest <-> t = p ++ rest.
Proof.
  unfold strip_prefix. destruct (starts_with t p) eqn:E.
  - apply starts_with_spec in E as [r ->]. rewrite drop_app_length. split; [congruence|]. by intros ->%app_inv_head.
  - split; [done|]. intros ->. by rewrite starts_with_app in E.
Qed.
Lemma strip_named_spec path p rest : strip_named_prefix path p = Some rest <-> path = p ++ rest /\ at_segment rest.
Proof.
  unfold strip_named_prefix, at_segment. case_bool_decide as E.
  - split; [intros [= <-]; rewrite app_nil_r; auto|]. intros [-> _]. f_equal.
    apply (app_inv_head p). by rewrite app_nil_r.
  - rewrite bind_Some. setoid_rewrite strip_prefix_spec. split.
    + intros (r & -> & H). destruct (starts_with r _) eqn:Es; [|done]. injection H as <-. apply starts_with_spec in Es. auto.
    + intros [-> [->|[r ->]]]; [by rewrite app_nil_r in E|]. eexists. split; [done|]. by rewrite starts_with_app.
Qed.
Lemma strip_named_none path p : (forall rest, path <> p ++ rest) -> strip_named_prefix path p = None.
Proof.
  intros H. destruct (strip_named_prefix path p) as [r|] eqn:E; [|done]. apply strip_named_spec in E as [-> _]. by destruct (H r).
Qed.
Lemma is_api_spec path : is_api_path path = true <-> exists rest, path = text_of "/api" ++ rest /\ at_segment rest.
Proof.
  unfold is_api_path, at_segment. rewrite orb_true_iff, bool_decide_eq_true, starts_with_spec. split.
  - intros [->|[r ->]]; [by exists []; auto|]. exists (text_of "/" ++ r). eauto.
  - intros (rest & -> & [->|[r ->]]); [by left|]. right. by exists r.
Qed.
Lemma route_proxy n api : is_api_path api = true -> route (front_prefix n ++ api) = Proxy n (backend_path api).
Proof.
  intros Ha. assert (proxy_after_network n api = Proxy n (backend_path api)) as Hp by (unfold proxy_after_network; by rewrite Ha).
  apply is_api_spec in Ha as Hs. destruct Hs as (rest & Happ & Hrest).
  assert (strip_named_prefix (front_prefix n ++ api) (front_prefix n) = Some api) as Hst.
  { apply strip_named_spec. split; [done|]. right. rewrite Happ. by eexists (text_of "api" ++ rest). }
  unfold route. destruct n; cbn [front_prefix] in *;
    repeat (rewrite (strip_named_none (_ ++ _)) by (intros r Hr; rewrite Happ in Hr; discriminate Hr));
    rewrite ?Hst; try done.
  cbn [app] in *. repeat (rewrite (strip_named_none api) by (intros r Hr; rewrite Happ in Hr; discriminate Hr)).
  by rewrite Ha.
Qed.

(** Where every path goes. *)
Lemma route_exact path :
  match route path with
  | Redirect307 location => exists suffix, path = text_of "/signet" ++ suffix /\ at_segment suffix /\
      location = text_of "/mutinynet" ++ suffix
  | Proxy n bp => exists api, path = front_prefix n ++ api /\ is_api_path api = true /\ bp = backend_path api
  | NotFound => (forall suffix, at_segment suffix -> path <> text_of "/signet" ++ suffix) /\
      forall n api, is_api_path api = true -> path <> front_prefix n ++ api
  end.
Proof.
  assert (forall n rest, path = front_prefix n ++ rest ->
    match proxy_after_network n rest with
    | Proxy m bp => exists api, path = front_prefix m ++ api /\ is_api_path api = true /\ bp = backend_path api
    | _ => True end) as Hproxy.
  { intros n rest Hp. unfold proxy_after_network. destruct (is_api_path rest) eqn:E; cbn; [by exists rest|done]. }
  destruct (route path) as [loc|n bp|] eqn:E.
  - unfold route in E. destruct (strip_named_prefix path (text_of "/signet")) as [suffix|] eqn:E1.
    + apply strip_named_spec in E1 as [-> Hs]. injection E as <-. by exists suffix.
    + repeat (destruct (strip_named_prefix _ _)); unfold proxy_after_network in E; repeat destruct (is_api_path _); done.
  - unfold route in E. destruct (strip_named_prefix path (text_of "/signet")) as [suffix|]; [done|].
    destruct (strip_named_prefix path (text_of "/testnet4")) as [r|] eqn:E2;
      [apply strip_named_spec in E2 as [E2 _]; specialize (Hproxy Testnet4 r E2); by rewrite E in Hproxy|].
    destruct (strip_named_prefix path (text_of "/testnet")) as [r|] eqn:E3;
      [apply strip_named_spec in E3 as [E3 _]; specialize (Hproxy Testnet3 r E3); by rewrite E in Hproxy|].
    destruct (strip_named_prefix path (text_of "/mutinynet")) as [r|] eqn:E4;
      [apply strip_named_spec in E4 as [E4 _]; specialize (Hproxy Mutinynet r E4); by rewrite E in Hproxy|].
    destruct (strip_named_prefix path (text_of "/liquid")) as [r|] eqn:E5;
      [apply strip_named_spec in E5 as [E5 _]; specialize (Hproxy Liquid r E5); by rewrite E in Hproxy|].
    destruct (is_api_path path); [|done]. specialize (Hproxy Mainnet path eq_refl). by rewrite E in Hproxy.
  - split.
    + intros suffix Hs ->. unfold route in E. by rewrite (proj2 (strip_named_spec _ _ suffix)) in E.
    + intros n api Ha ->. by rewrite route_proxy in E.
Qed.

(** ** Sockets *)

Lemma last_split_suffix (c : Z) (a b : Text) : c ∉ b -> last (split_on c (a ++ c :: b)) = Some b.
Proof.
  intros Hb. assert (exists init, split_on c (a ++ c :: b) = init ++ [b]) as [init ->]; [|apply last_snoc].
  induction a as [|x a [init IH]]; cbn [app split_on].
  - rewrite Z.eqb_refl. exists [[]]. by rewrite split_on_none.
  - destruct (x =? c)%Z; [exists ([] :: init); by rewrite IH|]. rewrite IH.
    destruct init as [|p init]; cbn; [|by exists ((x :: p) :: init)].
    exfalso. clear -IH Hb. assert (c ∈ b); [|done].
    assert (forall t : Text, length (split_on c t) = 1 -> c ∉ t) as Hone.
    { induction t as [|y t IHt]; [by intros _ ?%elem_of_nil|]. cbn. destruct (Z.eqb_spec y c); cbn.
      - destruct (split_on c t) eqn:E; [|done]. destruct t; cbn in E; [done|]. repeat case_match; done.
      - destruct (split_on c t) as [|p ps] eqn:E; cbn; intros H; [|rewrite not_elem_of_cons; split; [done|by apply IHt]].
        destruct t; cbn in E; [done|]. repeat case_match; done. }
    exfalso. apply (Hone (a ++ c :: b)); [by rewrite IH|set_solver].
Qed.
Lemma socket_file_name dir n : file_name (http_socket_path dir n) = Some (http_socket_file_name n).
Proof.
  assert (47%Z ∉ http_socket_file_name n) as Hn by (destruct n; vm_decide).
  assert (last (split_on 47 (http_socket_path dir n)) = Some (http_socket_file_name n)) as Hl.
  { unfold http_socket_path, path_join. destruct (last dir) as [c|] eqn:E.
    - apply last_Some in E as [d ->]. destruct (Z.eqb_spec c 47) as [->|].
      + rewrite <- app_assoc. by apply last_split_suffix.
      + by apply last_split_suffix.
    - by rewrite split_on_none. }
  unfold file_name. apply last_Some in Hl as [init ->]. rewrite filter_app.
  assert (filter (fun c : Text => c <> [] /\ c <> text_of ".") [http_socket_file_name n] = [http_socket_file_name n]) as ->
    by (by destruct n).
  rewrite last_snoc. by destruct n.
Qed.
(** The front never connects to an Electrum socket. *)
Lemma no_electrum_socket dir n : is_electrum_socket (http_socket_path dir n) = false.
Proof. unfold is_electrum_socket. rewrite socket_file_name. by destruct n. Qed.

(** ** From the client to the gate *)

Definition network_id (n : Api.ApiNetwork) : NetworkId :=
  match n with
  | Api.Mainnet => Mainnet | Api.Testnet3 => Testnet3 | Api.Testnet4 => Testnet4
  | Api.Mutinynet => Mutinynet | Api.Liquid => Liquid
  end.
Lemma api_prefix_front n : Api.api_prefix n = front_prefix (network_id n) ++ text_of "/api".
Proof. by destruct n. Qed.

(** A path of the indexer with its query, as it stands in a URL. *)
Definition with_query (path : Text) (query : option Text) : Text :=
  match query with Some q => path ++ text_of "?" ++ q | None => path end.
(** What a browser sends for the URL of a fetch: over HTTP/1.1 with a [Host] header, over
    HTTP/2 and HTTP/3, which name the host in the URI, without one. *)
Inductive HttpVersion := Http11 | Http2or3.
Definition browser_headers (v : HttpVersion) (host header : Text) : list (Text * Bytes) :=
  match v with
  | Http11 => [(text_of "host", host); (text_of "authorization", header)]
  | Http2or3 => [(text_of "authorization", header)]
  end.
Definition browser_request (v : HttpVersion) (method host : Text) (n : Api.ApiNetwork) (path : Text) (query : option Text) (header : Text)
    : HttpRequest :=
  let p := Api.api_prefix n ++ path in mkRequest method p query (Some (with_query p query)) (browser_headers v host header).
(** Paths of the REST interface; the front keeps those of websockets below [/api]. *)
Definition rest_path (path : Text) : Prop :=
  (exists r, path = text_of "/" ++ r) /\ path <> text_of "/v1/ws" /\ starts_with path (text_of "/v1/ws/") = false.
Definition clean_host (host : Text) : Prop := host <> [] /\ Forall is_token_char host.

Lemma backend_path_rest path : rest_path path -> backend_path (text_of "/api" ++ path) = path.
Proof.
  intros ((r & Hr) & Hne & Hs). unfold backend_path.
  rewrite (bool_decide_eq_false_2 (_ = text_of "/api/v1/ws")).
  2: { intros H. apply Hne. by apply (app_inv_head (text_of "/api")). }
  assert (starts_with (text_of "/api" ++ path) (text_of "/api/v1/ws/") = starts_with path (text_of "/v1/ws/")) as -> by done.
  rewrite Hs. cbn [orb]. rewrite (proj2 (strip_prefix_spec _ _ path) eq_refl). rewrite Hr. done.
Qed.
Lemma header_to_str_clean t : Forall is_token_char t -> header_to_str t = Some t.
Proof.
  intros H. unfold header_to_str. rewrite (proj2 (forallb_forall _ _)); [done|]. intros c Hc%list_elem_of_In.
  rewrite Forall_forall in H. destruct (H c Hc) as [_ Hr]. lia.
Qed.
Lemma token_no_space t : Forall is_token_char t -> Forall (fun c => is_whitespace c = false) t.
Proof. intros H. eapply Forall_impl; [exact H|]. by intros c []. Qed.

Section signed.
Context {NL : NostrLib}.

(** What a signer promises: the event it returns has the fields it was given and a
    signature of its key, and fits the limit of a header. *)
Definition signs (signer : Nip98Signer) (pk : FullHash) (un : UnsignedNip98) : Prop :=
  exists signed value, sign_event_json signer un = inr signed /\ signed <> [] /\ Forall is_char signed /\
    text_contains signed (text_of "nsec1") = false /\
    (Z.of_nat (length (utf8_encode signed)) <= MAX_NIP98_AUTH_EVENT_BYTES)%Z /\
    json_value (utf8_encode signed) = Some value /\ nostr_event (utf8_encode signed) = Some (mkEvent true pk) /\
    (json_get value (text_of "kind") ≫= as_u64) = Some (un_kind un) /\
    (json_get value (text_of "created_at") ≫= as_u64) = Some (un_created_at un) /\
    (json_get value (text_of "tags") ≫= as_array) = Some (map (fun tag => JArr (map JStr tag)) (un_tags un)).
(** The decoder of the indexer follows RFC 4648. *)
Definition decodes_base64 : Prop := forall b, Forall is_byte b -> decode_base64 (Api.standard_base64 b) = Some b.

Context (Hb64 : decodes_base64).

(** The header of a signed event is accepted for the URL, method and time it names. *)
Lemma header_verifies signer pk pubkey now url method body now' allow :
  let un := mkUnsigned pubkey now Api.KIND_NIP98 (Api.nip98_tags url method None) [] in
  signs signer pk un -> pk ∈ allow -> (Z.abs (now' - now) <= NIP98_WINDOW_SECS)%Z ->
  exists header, Forall (fun c => is_token_char c \/ c = 32%Z) header /\
    sign_event_json signer un ≫=
      (fun signed => or_fail RejectedEvent (Api.authorization_header signed)) = inr header /\
    verify_nip98 (Some header) method url body now' NIP98_WINDOW_SECS allow = inr pk.
Proof.
  intros un (signed & value & -> & Hne & Hch & Hns & Hlen & Hv & Hev & Hk & Hc & Ht) Hpk Hnow.
  pose proof (utf8_bytes signed Hch) as Hbytes. destruct (base64_chars _ Hbytes) as [Htok Hl].
  set (enc := Api.standard_base64 (utf8_encode signed)) in *.
  exists (text_of "Nostr " ++ enc). split; [|split].
  - apply Forall_app. split; [|eapply Forall_impl; [exact Htok|by left]].
    unfold is_token_char. vm_decide.
  - cbn. unfold Api.authorization_header. by rewrite Hns.
  - assert (length (utf8_encode signed) <> 0) as Hpos.
    { destruct signed as [|c t]; [done|]. unfold utf8_encode, utf8_char. cbn [map concat]. repeat case_match; cbn; lia. }
    assert (trim enc = enc) as Htrim by (by apply trim_no_space, token_no_space).
    apply nip98_iff. exists value, now, (map (fun tag => JArr (map JStr tag)) (un_tags un)), method.
    split_and!; try done.
    exists (text_of "Nostr " ++ enc), enc, (utf8_encode signed), (mkEvent true pk). split_and!; try done.
    + unfold credentials. by rewrite (proj2 (strip_prefix_spec _ _ enc)).
    + rewrite Htrim. intros He. rewrite He in Hl. cbn [length] in Hl.
      pose proof (Nat.div_str_pos (length (utf8_encode signed) + 2) 3 ltac:(lia)) as Hd.
      set (d := (length (utf8_encode signed) + 2) / 3) in *. lia.
    + rewrite Htrim, ascii_utf8_len, Hl by done. change MAX_NIP98_AUTH_ENCODED_BYTES with 87384%Z.
      change MAX_NIP98_AUTH_EVENT_BYTES with 65536%Z in Hlen. rewrite Nat2Z.inj_mul, Nat2Z.inj_div, Nat2Z.inj_add.
      change (Z.of_nat 4) with 4%Z. change (Z.of_nat 3) with 3%Z. change (Z.of_nat 2) with 2%Z.
      Z.to_euclidean_division_equations. lia.
    + rewrite Htrim. by apply Hb64.
Qed.
End signed.

Lemma with_query_app p path query : with_query (p ++ path) query = p ++ with_query path query.
Proof. destruct query; cbn; [by rewrite <- app_assoc|done]. Qed.
(** The URL the indexer rebuilds from the headers of the front. *)
Lemma rebuilt_url method path query headers host
    (req := mkRequest method path query (Some (with_query path query)) headers) :
  clean_host host -> path <> [] -> header_get req "host" = Some host -> header_get req "x-forwarded-proto" = Some (text_of "https") ->
  reconstruct_from_req req = text_of "https://" ++ host ++ with_query path query.
Proof.
  intros [Hne Htok] Hp Hh Hx. unfold reconstruct_from_req, header_str. rewrite Hh, Hx. cbn [mbind option_bind].
  rewrite (header_to_str_clean host Htok). unfold reconstruct_absolute_url.
  change (default (text_of "localhost") (Some host)) with host. cbn zeta.
  rewrite (trim_no_space host) by (by apply token_no_space). rewrite (bool_decide_eq_false_2 (host = [])) by done.
  cbn [rq_path rq_path_and_query req]. change (default path (Some (with_query path query))) with (with_query path query).
  rewrite (bool_decide_eq_false_2 (with_query path query = [])); [reflexivity|]. destruct query; [|done]. by destruct path.
Qed.
(** The request that arrives at the socket. *)
Lemma forwarded_request v method socket ua host path query header :
  let req := backend_request ua method socket path query (browser_headers v host header) in
  let seen := match v with Http11 => host | Http2or3 => ua socket end in
  clean_host seen -> Forall (fun c => is_token_char c \/ c = 32%Z) header -> path <> [] ->
  rq_method req = method /\ rq_path req = path /\ rq_query req = query /\
  auth_header_from req = Some header /\ reconstruct_from_req req = text_of "https://" ++ seen ++ with_query path query.
Proof.
  intros req seen Hseen Hh Hp. do 3 (split; [done|]).
  assert (rq_headers req = match v with
    | Http11 => [(text_of "host", host); (text_of "authorization", header); (text_of "x-forwarded-proto", text_of "https")]
    | Http2or3 => [(text_of "authorization", header); (text_of "x-forwarded-proto", text_of "https"); (text_of "host", ua socket)]
    end) as Hreq.
  { subst req. unfold backend_request, forwarded_headers. cbn [rq_headers]. destruct v; cbn [browser_headers].
    - rewrite bool_decide_true by (repeat constructor; by vm_compute).
      rewrite bool_decide_false by (intros Hf; by apply Forall_cons in Hf as [Hf _]). done.
    - by rewrite !bool_decide_true by (repeat constructor; by vm_compute). }
  assert (header_to_str header = Some header) as Hstr.
  { unfold header_to_str. rewrite (proj2 (forallb_forall _ _)); [done|]. intros c Hc%list_elem_of_In. rewrite Forall_forall in Hh.
    destruct (Hh c Hc) as [[_ ?]| ->]; lia. }
  split.
  - unfold auth_header_from, header_str, header_get. rewrite Hreq.
    by destruct v; cbn [list_find fst snd]; [rewrite decide_False, decide_True by done|rewrite decide_True by done]; cbn.
  - apply (rebuilt_url method path query (rq_headers req) seen); [done..| |]; unfold header_get; cbn [rq_headers]; rewrite Hreq; by destruct v.
Qed.
(** An event is accepted for one URL only. *)
Lemma verified_url `{!NostrLib} header method method' url url' body body' now now' window allow allow' pk pk' :
  verify_nip98 header method url body now window allow = inr pk ->
  verify_nip98 header method' url' body' now' window allow' = inr pk' -> url = url'.
Proof.
  intros (value & _ & tags & _ & (h & enc & raw & ev & -> & He & _ & _ & Hr & _ & Hv & _) & _ & _ & _ & Ht & Hu & _)%nip98_iff.
  intros (value' & _ & tags' & _ & (h' & enc' & raw' & ev' & [= <-] & He' & _ & _ & Hr' & _ & Hv' & _) & _ & _ & _ & Ht' & Hu' & _)%nip98_iff.
  rewrite He in He'. injection He' as <-. rewrite Hr in Hr'. injection Hr' as <-. rewrite Hv in Hv'. injection Hv' as <-.
  rewrite Ht in Ht'. injection Ht' as <-. congruence.
Qed.

(** C29: A request the web client signs, a GET or one of its POSTs, over HTTP/1.1 reaches
    the indexer it is meant for and passes its gate: the client fetches the URL of the
    path below the prefix of its network, the front relays it to the socket of that network
    under the path itself, and the indexer rebuilds exactly the URL that was signed, so
    that it takes the request as authorized by the key of the signer (or as a public health
    check) when the clocks differ by at most a minute.  Over HTTP/2 and HTTP/3, where the
    request carries no [Host] header, the indexer rebuilds the URL from the name the client
    library gives the socket and does not take the request as signed by anybody, unless
    that name is the host. *)
Theorem client_request_authorized {NL : NostrLib} signer hex pk host n path query method now now' allow dir body ph :
  let origin := text_of "https://" ++ host in
  let url := browser_fetch_url origin n (with_query path query) in
  decodes_base64 -> public_key_hex signer = inr hex ->
  (method = text_of "GET" \/ method = text_of "POST") ->
  signs signer pk (unsigned_method hex now origin (with_query path query) method) ->
  pk ∈ allow -> (Z.abs (now' - now) <= NIP98_WINDOW_SECS)%Z -> clean_host host -> rest_path path ->
  exists header,
    (method = text_of "GET" -> forall A (transport : Text -> Text -> ClientError + A),
      fetch_indexer (Some signer) origin n (with_query path query) now transport = transport url header) /\
    (method = text_of "POST" -> forall A strings payload (transport : Text -> Text -> Text -> Text -> ClientError + A),
      text_contains payload (text_of "nsec1") = false -> allowed_post strings (with_query path query) payload = true ->
      post_indexer strings (Some signer) origin n (with_query path query) now payload transport =
      transport (text_of "POST") url header payload) /\
    (forall v, url = origin ++ with_query (rq_path (browser_request v method host n path query header)) query) /\
    forall v backend ua, exists req,
      handle_front backend ua (browser_request v method host n path query header) (Some body) dir =
        relay (backend (http_socket_path dir (network_id n)) req body) false /\
      rq_method req = method /\ rq_path req = path /\ rq_query req = query /\
      let gate := http_ws_auth_gate (rq_method req) (rq_path req) (auth_header_from req) (reconstruct_from_req req) body now' ph allow in
      match v with
      | Http11 => gate = inr PublicHealth \/ gate = inr (Pubkey pk)
      | Http2or3 => let name := ua (http_socket_path dir (network_id n)) in
          clean_host name -> name <> host -> forall pk', gate <> inr (Pubkey pk')
      end.
Proof.
  intros origin url Hb64 Hhex Hmethod Hsign Hpk Hnow Hhost Hpath.
  destruct (header_verifies Hb64 signer pk hex now (nip98_u_url origin (with_query path query)) method body now' allow
    Hsign Hpk Hnow) as (header & Hh & Hheader & Hver).
  assert (path <> []) as Hne by (destruct Hpath as ((r & ->) & _); done).
  exists header. split; [|split; [|split]].
  - intros -> A transport. unfold fetch_indexer. cbn [or_fail mbind sum_bind]. rewrite Hhex. cbn [mbind sum_bind].
    unfold unsigned_get, unsigned_method. destruct (sign_event_json signer _) as [e|signed]; [done|].
    cbn [mbind sum_bind] in Hheader |- *. by rewrite Hheader.
  - intros -> A strings payload transport Hsec Hallow. unfold post_indexer. rewrite Hsec, Hallow. cbn [orb negb fail_if or_fail mbind sum_bind].
    rewrite Hhex. cbn [mbind sum_bind].
    unfold unsigned_method. destruct (sign_event_json signer _) as [e|signed]; [done|].
    cbn [mbind sum_bind] in Hheader |- *. unfold Api.authorization_header in *.
    destruct (text_contains signed (text_of "nsec1")); [done|]. cbn [fail_if mbind sum_bind]. by rewrite Hheader.
  - intros v. unfold url, browser_fetch_url, browser_request. cbn [rq_path]. by rewrite with_query_app.
  - intros v backend ua. set (socket := http_socket_path dir (network_id n)).
    exists (backend_request ua method socket path query (browser_headers v host header)).
    split.
    { unfold handle_front, browser_request, dispatch. cbn [rq_method rq_path rq_query rq_headers].
      rewrite api_prefix_front, <- app_assoc, route_proxy.
      2: { apply is_api_spec. exists path. split; [done|]. right. apply Hpath. }
      rewrite no_electrum_socket, backend_path_rest by done. unfold proxy_unix. fold socket.
      by destruct v. }
    unfold nip98_u_url, origin in Hver. rewrite <- app_assoc in Hver.
    do 3 (split; [done|]). cbn zeta. destruct v.
    + destruct (forwarded_request Http11 method socket ua host path query header Hhost Hh Hne) as (_ & _ & _ & -> & ->).
      unfold http_ws_auth_gate. cbn [rq_method rq_path backend_request]. rewrite Hver. cbn [mbind sum_bind].
      destruct (_ && _); auto.
    + intros Hname Hother pk'.
      destruct (forwarded_request Http2or3 method socket ua host path query header Hname Hh Hne) as (_ & _ & _ & -> & ->).
      unfold http_ws_auth_gate. destruct (_ && _); [done|].
      intros (pk2 & Hv & [= ->])%bind_inr. pose proof (verified_url _ _ _ _ _ _ _ _ _ _ _ _ _ _ Hver Hv) as Hurl.
      apply (app_inv_head (text_of "https://")), app_inv_tail in Hurl. by apply Hother.
Qed.

(** A signed request of the client fails before the network is used unless there is a
    signer that signs, and then its event carries no secret; a POST moreover only goes to
    the three paths that take transactions, and a package to its path only. *)
Lemma client_fails_closed {A} strings signer origin n path now payload (transport : Text -> Text -> Text -> Text -> ClientError + A) r :
  post_indexer strings signer origin n path now payload transport = r ->
  (exists e, r = inl e /\ forall transport', post_indexer strings signer origin n path now payload transport' = @inl _ A e) \/
  (exists sg signed header, signer = Some sg /\ allowed_post strings path payload = true /\
    text_contains payload (text_of "nsec1") = false /\ text_contains signed (text_of "nsec1") = false /\
    Api.authorization_header signed = Some header /\ r = transport (text_of "POST") (browser_fetch_url origin n path) header payload).
Proof.
  unfold post_indexer. destruct (text_contains payload (text_of "nsec1")); [intros <-; left; by eexists|].
  destruct (allowed_post strings path payload); [|intros <-; left; by eexists].
  destruct signer as [sg|]; [|intros <-; left; by eexists]. cbn [orb negb fail_if or_fail mbind sum_bind].
  destruct (public_key_hex sg) as [e|pk]; [intros <-; left; by eexists|]. cbn [mbind sum_bind].
  destruct (sign_event_json sg _) as [e|signed]; [intros <-; left; by eexists|]. cbn [mbind sum_bind].
  destruct (text_contains signed (text_of "nsec1")) eqn:En; [intros <-; left; by eexists|]. cbn [fail_if mbind sum_bind].
  destruct (Api.authorization_header signed) as [header|] eqn:Eh; [|intros <-; left; by eexists]. cbn [or_fail mbind sum_bind].
  intros <-. right. by exists sg, signed, header.
Qed.

(** ** Witness *)

(** A signer of one event, which the instance of the indexer's libraries knows. *)
Definition ex_fetch_path : Text := text_of "/tx/ab".
Definition ex_unsigned_get : UnsignedNip98 := unsigned_get (text_of "aa") 1000 (text_of "https://h") ex_fetch_path.
Definition ex_signer : Nip98Signer := mkSigner (inr (text_of "aa")) (fun _ => inr (text_of "e")).
Definition ex_signed_json : Json :=
  jobj [("kind", JInt (un_kind ex_unsigned_get)); ("created_at", JInt (un_created_at ex_unsigned_get));
        ("tags", JArr (map (fun tag => JArr (map JStr tag)) (un_tags ex_unsigned_get)))].
Definition SignedNostr : NostrLib := {|
  parse_pubkey_line _ := None; decode_base64 := b64_decode; json_value _ := Some ex_signed_json;
  nostr_event _ := Some (mkEvent true (hash_repeat 3)); sha256_hex b := b;
|}.
Lemma client_request_authorized_witness :
  exists header, fetch_indexer (Some ex_signer) (text_of "https://h") Api.Testnet4 ex_fetch_path 1000 (fun url header => inr (url, header)) =
    inr (text_of "https://h/testnet4/api/tx/ab", header).
Proof.
  destruct (@client_request_authorized SignedNostr ex_signer (text_of "aa") (hash_repeat 3) (text_of "h") Api.Testnet4 ex_fetch_path None
    (text_of "GET") 1000 1010 {[hash_repeat 3]} (text_of "/run/splora") [] false) as (header & H & _).
  - intros b. apply base64_roundtrip.
  - reflexivity.
  - by left.
  - exists (text_of "e"), ex_signed_json. split_and!; try done; vm_decide.
  - set_solver.
  - vm_compute. discriminate.
  - split; [done|]. unfold is_token_char. vm_decide.
  - split_and!; [by eexists (text_of "tx/ab")|done|done].
  - exists header. exact (H eq_refl _ (fun url header => inr (url, header))).
Defined.
