(* ===== verification/DaemonRpc.v ===== *)
(** * [daemon.rs] and [signal.rs]: the JSON-RPC client of bitcoind

    [Daemon] sends batches of requests over one HTTP connection, reads the replies line
    by line, matches them by their id, retries after a lost connection and decodes the
    results.  The sockets, the cookie file and the signals are an interface ([Net]): an
    abstract outside world [W] that every input and output steps.  The loops of the code
    that have no bound of their own (connecting, waiting, reading lines, retrying) take
    [fuel] and give [Diverge] when it is used up. *)

From Stdlib Require Import SpecFloat.
From S2P Require Import Prelude Text Json Bitcoin HeaderList Rows Fetch Mempool Query Electrum Rest.

(** ** The outside world *)

(** [recv_deadline] of the channel of signals. *)
Inductive SignalEvent := Signal (sig : Z) | Timeout | Disconnected.
(** [tcp_connect] and [tcp_clone] tell whether they succeeded, [write_all] as well.
    [next_line] is [Lines::next]: [None] at the end, [Some None] for an error. *)
Class Net (W : Type) := {
  net_connect : W -> W * bool;
  net_clone : W -> W * bool;
  net_write_all : Text -> W -> W * bool;
  net_next_line : W -> W * option (option Text);
  net_cookie : W -> result Bytes;
  net_signal : Z -> W -> W * SignalEvent;
}.

(** Decoders of serde, hex and base64, as far as they are not in the other interfaces. *)
Record BlockchainInfo := mkBlockchainInfo {
  bi_blocks : Z; bi_headers : Z; bi_pruned : bool; bi_initialblockdownload : option bool }.
Record NetworkInfo := mkNetworkInfo { ni_version : Z; ni_subversion : Text; ni_relayfee : f64 }.
Class DaemonLib := {
  base64_encode : Bytes -> Text;
  unhex : Text -> option Bytes;
  blockchain_info : Json -> option BlockchainInfo;
  mempool_loaded : Json -> option bool;
  network_info : Json -> option NetworkInfo;
  txid_set : Json -> option (gset Txid);
  accept_results : Json -> option Json;
  package_result : Json -> option SubmitPackageResult;
}.

(** A [String] of the code as the bytes that [ErrorKind] carries. *)
Definition string_of (t : Text) : string :=
  String.string_of_list_ascii (map (fun b => Ascii.ascii_of_N (Z.to_N b)) (utf8_encode t)).

(** ** [signal.rs] *)

Definition SIGUSR1 : Z := 10.
(** The connection, the counter of messages and the remembered signal. *)
Record DaemonState (W : Type) := mkDaemonState { ds_net : W; message_id : Z; interrupted : Z }.
Arguments mkDaemonState {W} _ _ _.
Arguments ds_net {W} _. Arguments message_id {W} _. Arguments interrupted {W} _.

Section world.
Context {W : Type} {N : Net W} (fuel : nat).
Implicit Types (s : DaemonState W).

Definition set_net (w : W) s : DaemonState W := mkDaemonState w (message_id s) (interrupted s).
Definition io {A} (f : W -> W * A) : SR (DaemonState W) A := fun s =>
  let '(w, a) := f (ds_net s) in (set_net w s, Ok a).
Definition remember (sig : Z) s : DaemonState W := mkDaemonState (ds_net s) (message_id s) sig.

(** [deadline] is fixed over the recursion. *)
Fixpoint wait_deadline (n : nat) (deadline : Z) (accept_sigusr : bool) : SR (DaemonState W) unit :=
  match n with
  | 0 => lift Diverge
  | S n =>
      sig ← gets interrupted;
      if negb (sig =? 0)%Z then lift (Err (Interrupt sig))
      else
        event ← io (net_signal deadline);
        match event with
        | Signal sig =>
            if (sig =? SIGUSR1)%Z then if accept_sigusr then mret tt else wait_deadline n deadline accept_sigusr
            else _ ← modify (remember sig); lift (Err (Interrupt sig))
        | Timeout => mret tt
        | Disconnected => lift (Err (Msg "signal hook channel disconnected"))
        end
  end.
(** The deadline is given by the seconds from now. *)
Definition wait (seconds : Z) (accept_sigusr : bool) : SR (DaemonState W) unit :=
  wait_deadline fuel seconds accept_sigusr.

(** ** Connections *)

Fixpoint tcp_connect (n : nat) : SR (DaemonState W) unit :=
  match n with
  | 0 => lift Diverge
  | S n =>
      ok ← io net_connect;
      if (ok : bool) then mret tt else _ ← wait 3 false; tcp_connect n
  end.
Definition connection_open : SR (DaemonState W) unit :=
  _ ← tcp_connect fuel;
  ok ← io net_clone;
  if (ok : bool) then mret tt else lift (Err (Msg "failed to clone")).
Definition conn_reconnect : SR (DaemonState W) unit := connection_open.

Context {EL : ElectrumLib} {DL : DaemonLib}.

Definition LF : Text := [10%Z].
Definition http_request (cookie : Bytes) (request : Text) : Text :=
  text_of "POST / HTTP/1.1" ++ LF ++ text_of "Authorization: Basic " ++ base64_encode cookie ++ LF ++
  text_of "Content-Length: " ++ display_usize (utf8_len request) ++ LF ++ LF ++ request.
Definition send (request : Text) : SR (DaemonState W) unit :=
  cookie ← (fun s => (s, net_cookie (ds_net s)));
  ok ← io (net_write_all (http_request cookie request));
  if (ok : bool) then mret tt else lift (Err (Prelude.Connection "disconnected from daemon while sending")).

(** [line.splitn(2, ": ")] when it has two parts. *)
Fixpoint split_header (line : Text) : option (Text * Text) :=
  match line with
  | [] => None
  | c :: rest =>
      if starts_with line (text_of ": ") then Some ([], drop 2 line)
      else (fun p : Text * Text => (c :: p.1, p.2)) <$> split_header rest
  end.
(** The loop over the lines after the status: the first line after the headers, if any. *)
Fixpoint read_contents (n : nat) (in_header : bool) (headers : gmap Text Text)
    : SR (DaemonState W) (option Text * gmap Text Text) :=
  match n with
  | 0 => lift Diverge
  | S n =>
      line ← io net_next_line;
      match line with
      | None => mret (None, headers)
      | Some None => lift (Err (Prelude.Connection "failed to read"))
      | Some (Some []) => read_contents n false headers
      | Some (Some line) =>
          if in_header then
            read_contents n in_header
              (match split_header line with Some (k, v) => <[k := v]> headers | None => headers end)
          else mret (Some line, headers)
      end
  end.
Definition classify_daemon_http_status (status contents : Text) : result Text :=
  if bool_decide (status = text_of "HTTP/1.1 200 OK") then Ok contents
  else if bool_decide (status = text_of "HTTP/1.1 500 Internal Server Error") then Ok contents
  else if starts_with status (text_of "HTTP/1.1 503") then Err (DaemonBusy (string_of contents))
  else if starts_with status (text_of "HTTP/1.1 504") then Err (DaemonUnavailable (string_of contents))
  else Err (Msg "request failed").
(** [contents_length - 1] is in [usize]. *)
Definition check_contents (status : Text) (contents : option Text) (headers : gmap Text Text) : result Text :=
  contents ← ok_or (Prelude.Connection "no reply from daemon") contents;
  contents_length ← ok_or (Msg "Content-Length is missing") (headers !! text_of "Content-Length");
  contents_length ← ok_or (Msg "invalid Content-Length") (parse_usize contents_length);
  let expected_length := wrap64 (contents_length - 1) in
  if negb (expected_length =? utf8_len contents)%Z then
    Err (Prelude.Connection (string_of (text_of "expected " ++ display_usize expected_length ++ text_of " bytes, got " ++
      display_usize (utf8_len contents))))
  else classify_daemon_http_status status contents.
Definition recv : SR (DaemonState W) Text :=
  line ← io net_next_line;
  line ← lift (ok_or (Prelude.Connection "disconnected from daemon while receiving") line);
  status ← lift (ok_or (Prelude.Connection "failed to read status") line);
  p ← read_contents fuel true ∅;
  lift (check_contents status p.1 p.2).

(** ** Requests *)

Definition is_null (j : Json) : bool := match j with JNull => true | _ => false end.
Definition as_i64 (j : Json) : option Z :=
  match j with JInt n => if decide (i64_min <= n <= i64_max)%Z then Some n else None | _ => None end.
Definition parse_error_code (err : Json) : option Z := json_get err (text_of "code") ≫= as_i64.
(** A reply of the batch with the id [expected_id]. *)
Definition parse_jsonrpc_reply (reply : Json) (method : Text) (expected_id : Z) : result Json :=
  match reply with
  | JObj _ =>
      _ ← (match json_get reply (text_of "error") with
           | Some err =>
               match (if is_null err then None else parse_error_code err) with
               | Some code =>
                   if (code =? -28)%Z then Err (Prelude.Connection (string_of (json_display err)))
                   else Err (Msg (string_of (method ++ text_of " RPC error: " ++ json_display err)))
               | None => Ok tt
               end
           | None => Ok tt
           end);
      id ← ok_or (Msg "no id in reply") (json_get reply (text_of "id"));
      if negb (bool_decide (as_u64 id = Some expected_id)) then
        Err (Msg (string_of (text_of "wrong " ++ method ++ text_of " response id " ++ json_display id ++
          text_of ", expected " ++ display_usize expected_id)))
      else ok_or (Msg "no result in reply") (json_get reply (text_of "result"))
  | _ => Err (Msg "non-object reply")
  end.

Definition call_jsonrpc (request : Json) : SR (DaemonState W) Json :=
  _ ← send (json_display request);
  response ← recv;
  match json_parse response with inr result => mret result | inl _ => lift (Err (Msg "invalid JSON")) end.

(** [(failure_threshold * total as f64).round() as u64]: half away from zero, saturating. *)
Definition round_u64 (x : f64) : Z :=
  match x with
  | S754_finite false m e =>
      Z.min (u64_mod - 1) (if (0 <=? e)%Z then Zpos m * 2 ^ e else (Zpos m + 2 ^ (- e - 1)) / 2 ^ (- e))%Z
  | S754_infinity false => (u64_mod - 1)%Z
  | _ => 0%Z
  end.
Definition failure_limit (failure_threshold : f64) (total : nat) : Z :=
  round_u64 (f64_mul failure_threshold (f64_of_Z (Z.of_nat total))).
Definition f64_zero : f64 := f64_of_Z 0.
Definition f64_quarter : f64 := SFdiv 53 1024 (f64_of_Z 1) (f64_of_Z 4).

(** The replies of one chunk: the results so far and the number of failures so far. *)
Fixpoint take_replies (method : Text) (id threshold : Z) (replies results : list Json) (failed_requests : Z)
    : result (list Json * Z) :=
  match replies with
  | [] => Ok (results, failed_requests)
  | reply :: replies =>
      match parse_jsonrpc_reply reply method id with
      | Ok parsed_reply => take_replies method id threshold replies (results ++ [parsed_reply]) failed_requests
      | Err e =>
          let failed_requests := (failed_requests + 1)%Z in
          if (threshold <? failed_requests)%Z then Err e
          else take_replies method id threshold replies results failed_requests
      | Panic => Panic
      | Diverge => Diverge
      end
  end.
Fixpoint send_chunks (method : Text) (id threshold : Z) (chunks : list (list Json)) (results : list Json) (failed_requests : Z)
    : SR (DaemonState W) (list Json) :=
  match chunks with
  | [] => mret results
  | reqs :: chunks =>
      replies ← call_jsonrpc (JArr reqs);
      match as_array replies with
      | None => lift (Err (Msg "non-array replies"))
      | Some replies =>
          p ← lift (take_replies method id threshold replies results failed_requests);
          send_chunks method id threshold chunks p.1 p.2
      end
  end.
(** [Counter::next] *)
Definition counter_next : SR (DaemonState W) Z := fun s =>
  let id := wrap64 (message_id s + 1) in (mkDaemonState (ds_net s) id (interrupted s), Ok id).
Definition batch_chunk : nat := Z.to_nat 50000.
Definition rpc_call (method : Text) (id : Z) (params : Json) : Json :=
  jobj [("method", JStr method); ("params", params); ("id", JInt id)].
Definition handle_request_batch (method : string) (params_list : list Json) (failure_threshold : f64)
    : SR (DaemonState W) (list Json) :=
  id ← counter_next;
  let method := text_of method in
  send_chunks method id (failure_limit failure_threshold (length params_list))
    (chunks batch_chunk (map (rpc_call method id) params_list)) [] 0.

Fixpoint retry_loop (n : nat) (method : string) (params_list : list Json) (failure_threshold : f64)
    : SR (DaemonState W) (list Json) := fun s =>
  match n with
  | 0 => (s, Diverge)
  | S n =>
      match handle_request_batch method params_list failure_threshold s with
      | (s, Err (Prelude.Connection _)) =>
          (_ ← wait 3 false; _ ← conn_reconnect; retry_loop n method params_list failure_threshold) s
      | r => r
      end
  end.
Definition retry_request_batch (method : string) (params_list : list Json) (failure_threshold : f64)
    : SR (DaemonState W) (list Json) := retry_loop fuel method params_list failure_threshold.

(** [assert_eq!(values.len(), 1); values.remove(0)] *)
Definition only_value (values : list Json) : result Json := match values with [v] => Ok v | _ => Panic end.
Definition request (method : string) (params : list Json) : SR (DaemonState W) Json :=
  values ← retry_request_batch method [JArr params] f64_zero; lift (only_value values).
Definition request_proxied (method : string) (params : list Json) : SR (DaemonState W) Json := fun s =>
  match handle_request_batch method [JArr params] f64_zero s with
  | (s, Ok values) => (s, only_value values)
  | (s, Err (Prelude.Connection msg)) => (s, Err (DaemonUnavailable (method +:+ " failed: " +:+ msg)))
  | (s, r) => (s, r ≫= only_value)
  end.
Definition requests (method : string) (params_list : list Json) : SR (DaemonState W) (list Json) :=
  retry_request_batch method params_list f64_zero.

(** ** Decoding results *)

Context {BL : BitcoinLib}.

Definition parse_hash_value (value : Json) : result FullHash :=
  s ← ok_or (Msg (string_of (text_of "non-string value: " ++ json_display value))) (as_str value);
  ok_or (Msg "failed to parse hash") (parse_hash s).
Definition header_from_value (value : Json) : result BlockHeader :=
  header_hex ← ok_or (Msg (string_of (text_of "non-string header: " ++ json_display value))) (as_str value);
  header_bytes ← ok_or (Msg "non-hex header") (unhex header_hex);
  ok_or (Msg (string_of (text_of "failed to parse header " ++ header_hex))) (deserialize_header header_bytes).
Definition block_from_value (value : Json) : result Block :=
  block_hex ← ok_or (Msg "non-string block") (as_str value);
  block_bytes ← ok_or (Msg "non-hex block") (unhex block_hex);
  ok_or (Msg (string_of (text_of "failed to parse block " ++ block_hex))) (deserialize_block block_bytes).
Definition tx_from_value (value : Json) : result Transaction :=
  tx_hex ← ok_or (Msg "non-string tx") (as_str value);
  tx_bytes ← ok_or (Msg "non-hex tx") (unhex tx_hex);
  ok_or (Msg (string_of (text_of "failed to parse tx " ++ tx_hex))) (deserialize_tx tx_bytes).

(** ** The API of bitcoind *)

Definition getblockchaininfo : SR (DaemonState W) BlockchainInfo :=
  info ← request "getblockchaininfo" []; lift (ok_or (Msg "invalid blockchain info") (blockchain_info info)).
Definition getmempoolinfo : SR (DaemonState W) bool :=
  info ← request "getmempoolinfo" []; lift (ok_or (Msg "invalid mempool info") (mempool_loaded info)).
Definition getnetworkinfo : SR (DaemonState W) NetworkInfo :=
  info ← request "getnetworkinfo" []; lift (ok_or (Msg "invalid network info") (network_info info)).
Definition getbestblockhash : SR (DaemonState W) BlockHash :=
  value ← request "getbestblockhash" []; lift (parse_hash_value value).
Definition getblockheader (blockhash : BlockHash) : SR (DaemonState W) BlockHeader :=
  value ← request "getblockheader" [jhash blockhash; JBool false]; lift (header_from_value value).
Definition rpc_getblockhashes (heights : list nat) : SR (DaemonState W) (list Json) :=
  requests "getblockhash" (map (fun height => JArr [JInt (Z.of_nat height)]) heights).
Definition rpc_getblockheaders (heights : list nat) : SR (DaemonState W) (list BlockHeader) :=
  hashes ← rpc_getblockhashes heights;
  values ← requests "getblockheader" (map (fun hash => JArr [hash; JBool false]) hashes);
  lift (rmap header_from_value values).
Definition getblock (blockhash : BlockHash) : SR (DaemonState W) Block :=
  value ← request "getblock" [jhash blockhash; JBool false];
  block ← lift (block_from_value value);
  _ ← lift (rassert (bool_decide (block_hash (block_header block) = blockhash)));
  mret block.
Definition getblock_raw (blockhash : BlockHash) (verbose : Z) : SR (DaemonState W) Json :=
  request "getblock" [jhash blockhash; JInt verbose].
Definition getblocks (blockhashes : list BlockHash) : SR (DaemonState W) (list Block) :=
  values ← requests "getblock" (map (fun hash => JArr [jhash hash; JBool false]) blockhashes);
  lift (rmap block_from_value values).
Definition rpc_gettransactions (txhashes : list Txid) : SR (DaemonState W) (list Transaction) :=
  values ← retry_request_batch "getrawtransaction" (map (fun txhash => JArr [jhash txhash; JBool false]) txhashes) f64_quarter;
  lift (rmap tx_from_value values).
Definition gettransaction_raw (txid : Txid) (blockhash : BlockHash) (verbose : bool) : SR (DaemonState W) Json :=
  request "getrawtransaction" [jhash txid; JBool verbose; jhash blockhash].
Definition rpc_getmempooltx (txhash : Txid) : SR (DaemonState W) Transaction :=
  value ← request "getrawtransaction" [jhash txhash; JBool false]; lift (tx_from_value value).
Definition rpc_getmempooltxids : SR (DaemonState W) (gset Txid) :=
  res ← request "getrawmempool" [JBool false]; lift (ok_or (Msg "invalid getrawmempool reply") (txid_set res)).
Definition getblocktemplate (rules : list Text) : SR (DaemonState W) Json :=
  request_proxied "getblocktemplate" [jobj [("rules", JArr (map JStr rules))]].
Definition sendrawtransaction_params (txhex : Text) : list Json := [JStr txhex; JInt 0].
Definition daemon_broadcast_raw (txhex : Text) : SR (DaemonState W) Txid :=
  txid ← request_proxied "sendrawtransaction" (sendrawtransaction_params txhex);
  s ← lift (ok_or (Msg "non-string txid") (as_str txid));
  lift (ok_or (Msg "failed to parse txid") (parse_hash s)).
Definition daemon_broadcast (tx : Transaction) : SR (DaemonState W) Txid :=
  daemon_broadcast_raw (hex_encode (serialize_tx tx)).

(** [format!("{:.8}", x)]: eight decimals, the exact value rounded half to even. *)
Definition round_half_even (num den : Z) : Z :=
  let q := (num / den)%Z in
  match (2 * (num - q * den) ?= den)%Z with Lt => q | Gt => q + 1 | Eq => if Z.even q then q else q + 1 end%Z.
Definition pad_zeros (n : nat) (t : Text) : Text := replicate (n - length t) 48%Z ++ t.
Fixpoint digits_go (fuel : nat) (n : Z) (acc : Text) : Text :=
  match fuel with
  | 0 => acc
  | S fuel => let acc := (48 + n mod 10)%Z :: acc in if (n <? 10)%Z then acc else digits_go fuel (n / 10) acc
  end.
Definition fixed_8 (x : f64) : Text :=
  match x with
  | S754_nan => text_of "NaN"
  | S754_infinity neg => (if neg then text_of "-" else []) ++ text_of "inf"
  | S754_zero neg => (if neg then text_of "-" else []) ++ text_of "0.00000000"
  | S754_finite neg m e =>
      let scaled := (if (0 <=? e)%Z then Zpos m * 100000000 * 2 ^ e else round_half_even (Zpos m * 100000000) (2 ^ (- e)))%Z in
      (if neg then text_of "-" else []) ++ digits_go 400 (scaled / 100000000) [] ++ text_of "." ++
        pad_zeros 8 (digits_go 8 (scaled mod 100000000) [])
  end.
Definition test_mempool_accept (txhex : list Text) (maxfeerate : option f64) : SR (DaemonState W) Json :=
  let txs := JArr (map JStr txhex) in
  let params := match maxfeerate with Some rate => [txs; JStr (fixed_8 rate)] | None => [txs] end in
  result ← request_proxied "testmempoolaccept" params;
  lift (ok_or (Msg "invalid testmempoolaccept reply") (accept_results result)).
Definition daemon_submit_package (txhex : list Text) (maxfeerate maxburnamount : option f64) : SR (DaemonState W) SubmitPackageResult :=
  let txs := JArr (map JStr txhex) in
  let params := match maxfeerate, maxburnamount with
    | Some rate, Some burn => [txs; JStr (fixed_8 rate); JStr (fixed_8 burn)]
    | Some rate, None => [txs; JStr (fixed_8 rate)]
    | None, Some burn => [txs; JNull; JStr (fixed_8 burn)]
    | None, None => [txs]
    end in
  result ← request_proxied "submitpackage" params;
  lift (ok_or (Msg "invalid submitpackage reply") (package_result result)).

(** [reply["errors"].is_null()] and [reply["feerate"].as_f64()] *)
Definition as_f64 (j : Json) : option f64 :=
  match j with JInt n => Some (f64_of_Z n) | JFloat x => Some x | _ => None end.
Definition fee_reply (reply : Json) : FeeReply :=
  mkFeeReply (is_null (default JNull (json_get reply (text_of "errors"))))
    (as_f64 (default JNull (json_get reply (text_of "feerate")))).
Definition rpc_estimatesmartfee (conf_targets : list Z) : SR (DaemonState W) (list FeeReply) :=
  replies ← requests "estimatesmartfee" (map (fun t => JArr [JInt t]) conf_targets); mret (map fee_reply replies).
Definition rpc_relayfee : SR (DaemonState W) f64 := info ← getnetworkinfo; mret (ni_relayfee info).
(** The height in the verbose header of the tip, as [get_all_headers] reads it. *)
Definition rpc_block_height (tip : BlockHash) : SR (DaemonState W) nat :=
  info ← request "getblockheader" [jhash tip];
  height ← lift (unwrap (json_get info (text_of "height")));
  height ← lift (unwrap (as_u64 height));
  mret (Z.to_nat height).

(** ** Start-up *)

Fixpoint wait_synced (n : nat) (network : Network) : SR (DaemonState W) unit :=
  match n with
  | 0 => lift Diverge
  | S n =>
      info ← getblockchaininfo;
      loaded ← getmempoolinfo;
      let ibd_done := if is_regtest network then (bi_blocks info =? bi_headers info)%Z
                      else negb (default false (bi_initialblockdownload info)) in
      if (loaded : bool) && ibd_done && (bi_blocks info =? bi_headers info)%Z then mret tt
      else _ ← wait 5 false; wait_synced n network
  end.
(** [Daemon::new] on a world without a connection; the subversion of bitcoind is published. *)
Definition daemon_new (network : Network) : SR (DaemonState W) Text :=
  _ ← connection_open;
  network_info ← getnetworkinfo;
  _ ← lift (if (ni_version network_info <? 160000)%Z
            then Err (Msg (string_of (ni_subversion network_info ++ text_of " is not supported - please use bitcoind 0.16+")))
            else Ok tt);
  info ← getblockchaininfo;
  _ ← lift (if bi_pruned info then Err (Msg "pruned node is not supported (use '-prune=0' bitcoind flag)") else Ok tt);
  _ ← wait_synced fuel network;
  mret (ni_subversion network_info).
(** [Daemon::reconnect]: another client with a connection and a counter of its own. *)
Definition daemon_reconnect : SR (DaemonState W) unit :=
  _ ← conn_reconnect; modify (fun s => mkDaemonState (ds_net s) 0 (interrupted s)).
End world.
