(* ===== verification/DaemonFacts.v ===== *)
(** * The client of bitcoind

    What a batch of requests gives whatever the network does, that lost connections are
    survived and signals are not, and that over a connection to a node that answers, the
    client fetches exactly the blocks, headers and transactions of the node. *)

From Stdlib Require Import SpecFloat.
From S2P Require Import Prelude Text Json Bitcoin HeaderList Rows Fetch Mempool Query Electrum ElectrumFacts Rest DaemonRpc.

(** ** Replies *)

Section replies.
Context {EL : ElectrumLib}.

Definition success_of (r : result Json) : option Json := match r with Ok v => Some v | _ => None end.
Definition failure_of (r : result Json) : option ErrorKind := match r with Err e => Some e | _ => None end.
(** The results and the errors of a list of replies to the request [id]. *)
Definition successes (method : Text) (id : Z) (replies : list Json) : list Json :=
  omap (fun reply => success_of (parse_jsonrpc_reply reply method id)) replies.
Definition failures (method : Text) (id : Z) (replies : list Json) : list ErrorKind :=
  omap (fun reply => failure_of (parse_jsonrpc_reply reply method id)) replies.

Lemma parse_reply_total reply method id :
  (exists v, parse_jsonrpc_reply reply method id = Ok v) \/ (exists e, parse_jsonrpc_reply reply method id = Err e).
Proof.
  destruct reply; cbn [parse_jsonrpc_reply]; eauto.
  assert (forall (m : result unit) (k : result Json), (m = Ok tt \/ exists e, m = Err e) ->
    ((exists v, k = Ok v) \/ (exists e, k = Err e)) ->
    (exists v, (m ≫= fun _ => k) = Ok v) \/ (exists e, (m ≫= fun _ => k) = Err e)) as Hb.
  { intros m k [->|[e ->]] Hk; cbn; eauto. }
  apply Hb.
  - repeat case_match; eauto.
  - destruct (json_get _ (text_of "id")); cbn; eauto. destruct (negb _); cbn; eauto.
    unfold ok_or. case_match; eauto.
Qed.
(** A result is taken only from a reply that carries the id of the request. *)
Lemma parse_reply_Ok reply method id v : parse_jsonrpc_reply reply method id = Ok v ->
  json_get reply (text_of "result") = Some v /\ (json_get reply (text_of "id") ≫= as_u64) = Some id /\
  (forall err, json_get reply (text_of "error") = Some err -> err = JNull \/ parse_error_code err = None).
Proof.
  destruct reply as [| | | | | |fields]; try done. cbn [parse_jsonrpc_reply]. set (reply := JObj fields).
  intros (u & Herr & H)%bind_Ok. apply bind_Ok in H as (j & Hid & H).
  destruct (json_get reply (text_of "id")) as [j'|]; [|done]. injection Hid as ->.
  case_bool_decide as Hj; [|done]. cbn [negb] in H. split_and!; [|done|].
  { destruct (json_get reply (text_of "result")); [|done]. by injection H as ->. }
  intros err He. rewrite He in Herr. destruct (is_null err) eqn:En; [left; by destruct err|right].
  destruct (parse_error_code err); [|done]. by repeat case_match.
Qed.

Lemma take_replies_eq method id threshold replies results failed : (0 <= failed <= threshold)%Z ->
  take_replies method id threshold replies results failed =
    match failures method id replies !! Z.to_nat (threshold - failed) with
    | Some e => Err e
    | None => Ok (results ++ successes method id replies, failed + Z.of_nat (length (failures method id replies)))%Z
    end.
Proof.
  revert results failed. induction replies as [|r rs IH]; intros results failed Hf; cbn [take_replies].
  { cbn. by rewrite app_nil_r, Z.add_0_r. }
  unfold failures, successes. cbn [omap list_omap].
  destruct (parse_reply_total r method id) as [[v ->]|[e ->]]; cbn [success_of failure_of].
  - rewrite IH by done. unfold failures, successes. by rewrite <- app_assoc.
  - fold (failures method id rs) (successes method id rs). case_match eqn:E.
    + apply Z.ltb_lt in E. by replace (threshold - failed)%Z with 0%Z by lia.
    + apply Z.ltb_ge in E. rewrite IH by lia.
      replace (Z.to_nat (threshold - failed)) with (S (Z.to_nat (threshold - (failed + 1)))) by lia. cbn [lookup list_lookup length].
      destruct (failures method id rs !! _); [done|]. do 2 f_equal. lia.
Qed.
Lemma successes_app method id a b : successes method id (a ++ b) = successes method id a ++ successes method id b.
Proof. apply omap_app. Qed.
Lemma failures_app method id a b : failures method id (a ++ b) = failures method id a ++ failures method id b.
Proof. apply omap_app. Qed.
End replies.

(** ** Batches *)

Section batches.
Context {W : Type} {N : Net W} (fuel : nat) {EL : ElectrumLib} {DL : DaemonLib}.
Implicit Types (s : DaemonState W).

(** The chunks are sent in order and each is answered by an array. *)
Inductive exchanged : list (list Json) -> DaemonState W -> list (list Json) -> DaemonState W -> Prop :=
  | exchanged_nil s : exchanged [] s [] s
  | exchanged_cons reqs chunks s replies s1 arrays s2 :
      call_jsonrpc fuel (JArr reqs) s = (s1, Ok (JArr replies)) -> exchanged chunks s1 arrays s2 ->
      exchanged (reqs :: chunks) s (replies :: arrays) s2.

Lemma send_chunks_Ok method id threshold chunks results failed s s' vs : (0 <= failed <= threshold)%Z ->
  send_chunks fuel method id threshold chunks results failed s = (s', Ok vs) <->
  exists arrays, exchanged chunks s arrays s' /\
    (Z.of_nat (length (failures method id (concat arrays))) <= threshold - failed)%Z /\
    vs = results ++ successes method id (concat arrays).
Proof.
  revert results failed s. induction chunks as [|reqs chunks IH]; intros results failed s Hf.
  - cbn. split.
    + intros [= <- <-]. exists []. cbn. split_and!; [constructor|lia|by rewrite app_nil_r].
    + intros (arrays & H & _ & ->). inversion H; subst. cbn. by rewrite app_nil_r.
  - cbn [send_chunks]. rewrite sr_bind_eq. destruct (call_jsonrpc fuel (JArr reqs) s) as [s1 [j| | |]] eqn:Ecall.
    2-4: split; [done|]; intros (arrays & H & _); inversion H; subst; congruence.
    destruct (as_array j) as [replies|] eqn:Ej; cbn [as_array].
    2: { split; [done|]. intros (arrays & H & _). inversion H; subst. rewrite Ecall in *. simplify_eq. }
    assert (j = JArr replies) as -> by (destruct j; simplify_eq/=; done).
    rewrite sr_bind_eq. unfold lift. rewrite take_replies_eq by done.
    destruct (failures method id replies !! _) as [e|] eqn:El.
    + split; [done|]. intros (arrays & H & Hlen & _). inversion H; subst. rewrite Ecall in *. simplify_eq.
      apply lookup_lt_Some in El. cbn [concat] in Hlen. rewrite failures_app, length_app in Hlen. lia.
    + apply lookup_ge_None in El. cbn [fst snd]. rewrite IH by lia. split.
      * intros (arrays & He & Hlen & ->). exists (replies :: arrays). cbn [concat].
        rewrite failures_app, successes_app, length_app, app_assoc. split_and!; [by econstructor|lia|done].
      * intros (arrays & H & Hlen & ->). inversion H; subst. rewrite Ecall in *. simplify_eq. cbn [concat] in *.
        rewrite failures_app, length_app in Hlen. exists arrays0. rewrite successes_app, app_assoc. split_and!; [done|lia|done].
Qed.
(** The first error beyond the threshold ends the batch, without a further chunk. *)
Lemma send_chunks_Err method id threshold chunks rest results failed s s' arrays replies e : (0 <= failed <= threshold)%Z ->
  exchanged chunks s (arrays ++ [replies]) s' ->
  (Z.of_nat (length (failures method id (concat arrays))) <= threshold - failed)%Z ->
  failures method id (concat arrays ++ replies) !! Z.to_nat (threshold - failed) = Some e ->
  send_chunks fuel method id threshold (chunks ++ rest) results failed s = (s', Err e).
Proof.
  revert results failed s chunks. induction arrays as [|a arrays IH]; intros results failed s chunks Hf Hx Hlen He.
  - inversion Hx as [|reqs cs s0 r s1 a2 s2 Hcall Hrest]; subst. inversion Hrest; subst. cbn [app send_chunks concat] in *.
    rewrite sr_bind_eq, Hcall. cbn [as_array]. rewrite sr_bind_eq. unfold lift. by rewrite take_replies_eq, He.
  - inversion Hx as [|reqs cs s0 r s1 a2 s2 Hcall Hrest]; subst. cbn [app send_chunks concat] in *.
    rewrite failures_app, length_app in Hlen. rewrite sr_bind_eq, Hcall. cbn [as_array]. rewrite sr_bind_eq. unfold lift.
    rewrite take_replies_eq by done. rewrite (proj2 (lookup_ge_None _ _)) by lia. cbn [fst snd].
    apply IH; [lia|done|lia|]. rewrite <- app_assoc, failures_app, lookup_app_r in He by lia.
    rewrite <- He. f_equal. lia.
Qed.

Definition tick s : DaemonState W := mkDaemonState (ds_net s) (wrap64 (message_id s + 1)) (interrupted s).
Lemma failure_limit_pos x n : (0 <= failure_limit x n)%Z.
Proof.
  unfold failure_limit, round_u64. destruct (f64_mul _ _) as [?|[]| |[] m e]; try (done || unfold u64_mod; lia).
  apply Z.min_glb; [unfold u64_mod; lia|]. destruct (Z.leb_spec 0 e) as [He|He]; [pose proof (Z.pow_nonneg 2 e); lia|]. apply Z.div_pos; [|apply Z.pow_pos_nonneg; lia].
  pose proof (Z.pow_nonneg 2 (- e - 1)). lia.
Qed.

(** C37: A batch of requests accounts for every reply.  Whatever the network delivers,
    [handle_request_batch] succeeds exactly when all its chunks of at most 50,000
    requests were answered by arrays whose failing replies, counted over all chunks,
    are within the threshold, and then gives the results of the others in the order of
    the replies; the first failure beyond the threshold is its error, and no further
    chunk is sent.  A result is taken only from a reply with the id of this call. *)
Theorem batch_accounts_replies method params threshold s (m := text_of method) (id := wrap64 (message_id s + 1))
    (limit := failure_limit threshold (length params)) (reqs := chunks batch_chunk (map (rpc_call m id) params)) :
  (forall s' vs, handle_request_batch fuel method params threshold s = (s', Ok vs) <->
    exists arrays, exchanged reqs (tick s) arrays s' /\
      (Z.of_nat (length (failures m id (concat arrays))) <= limit)%Z /\ vs = successes m id (concat arrays)) /\
  (forall s' sent rest arrays replies e, reqs = sent ++ rest -> exchanged sent (tick s) (arrays ++ [replies]) s' ->
    (Z.of_nat (length (failures m id (concat arrays))) <= limit)%Z ->
    failures m id (concat arrays ++ replies) !! Z.to_nat limit = Some e ->
    handle_request_batch fuel method params threshold s = (s', Err e)) /\
  (forall replies v, v ∈ successes m id replies -> exists reply, reply ∈ replies /\
    json_get reply (text_of "result") = Some v /\ (json_get reply (text_of "id") ≫= as_u64) = Some id).
Proof.
  pose proof (failure_limit_pos threshold (length params)) as Hpos. fold limit in Hpos.
  assert (forall s, handle_request_batch fuel method params threshold s =
    send_chunks fuel (text_of method) (wrap64 (message_id s + 1)) (failure_limit threshold (length params))
      (chunks batch_chunk (map (rpc_call (text_of method) (wrap64 (message_id s + 1))) params)) [] 0 (tick s)) as Heq by done.
  split_and!.
  - intros s' vs. rewrite Heq. fold limit m id reqs. rewrite send_chunks_Ok, Z.sub_0_r by lia. done.
  - intros s' sent rest arrays replies e Hr Hx Hl He. rewrite Heq. fold limit m id reqs. rewrite Hr.
    eapply send_chunks_Err; rewrite ?Z.sub_0_r; (done || lia).
  - intros replies v Hv. apply list_elem_of_omap in Hv as (reply & Hin & Hs). exists reply. split; [done|].
    destruct (parse_jsonrpc_reply reply m id) eqn:E; simplify_eq/=. apply parse_reply_Ok in E as (? & ? & _). done.
Qed.

(** ** Lost connections *)

Definition lost {A} (r : result A) : Prop := exists msg, r = Err (Prelude.Connection msg).
Lemma wait_deadline_not_lost n d b s : ~ lost (wait_deadline n d b s).2.
Proof.
  revert s. induction n as [|n IH]; intros s [msg H]; [done|]. cbn [wait_deadline] in H.
  rewrite sr_bind_eq in H. unfold gets in H. destruct (negb _); [done|]. rewrite sr_bind_eq in H.
  unfold io in H. destruct (net_signal d (ds_net s)) as [w [sig| |]]; [|done|done].
  destruct (sig =? SIGUSR1)%Z; [destruct b; [done|]|done]. apply (IH (set_net w s)). by exists msg.
Qed.
Lemma tcp_connect_not_lost n s : ~ lost (tcp_connect fuel n s).2.
Proof.
  revert s. induction n as [|n IH]; intros s [msg H]; [done|]. cbn [tcp_connect] in H. rewrite sr_bind_eq in H.
  unfold io in H. destruct (net_connect (ds_net s)) as [w []]; [done|]. rewrite sr_bind_eq in H.
  pose proof (wait_deadline_not_lost fuel 3 false (set_net w s)) as Hw. fold (wait fuel 3 false (set_net w s)) in Hw.
  destruct (wait fuel 3 false (set_net w s)) as [s1 [[]|e| |]]; cbn [snd] in *; try done.
  - apply (IH s1). by exists msg.
  - apply Hw. by exists msg.
Qed.
Lemma reconnect_not_lost s : ~ lost (conn_reconnect fuel s).2.
Proof.
  intros [msg H]. unfold conn_reconnect, connection_open in H. rewrite sr_bind_eq in H.
  pose proof (tcp_connect_not_lost fuel s) as Hw. destruct (tcp_connect fuel fuel s) as [s1 [[]|e| |]]; cbn [snd] in *; try done.
  - rewrite sr_bind_eq in H. unfold io in H. destruct (net_clone (ds_net s1)) as [w []]; done.
  - apply Hw. by exists msg.
Qed.

(** A termination signal is remembered: every later wait fails with it. *)
Lemma interrupt_sticky n d b s s' sig : wait_deadline n d b s = (s', Err (Interrupt sig)) -> sig <> 0%Z ->
  forall n' d' b', 0 < n' -> wait_deadline n' d' b' s' = (s', Err (Interrupt sig)).
Proof.
  intros H Hsig n' d' b' Hn'. assert (interrupted s' = sig) as Hi.
  { revert s H. induction n as [|n IH]; intros s H; [done|]. cbn [wait_deadline] in H. rewrite sr_bind_eq in H. unfold gets in H.
    destruct (negb _); [by inversion H|]. rewrite sr_bind_eq in H. unfold io in H.
    destruct (net_signal d (ds_net s)) as [w [g| |]]; [|done|done].
    destruct (g =? SIGUSR1)%Z; [destruct b; [done|by eapply IH]|]. by inversion H. }
  destruct n' as [|n']; [lia|]. cbn [wait_deadline]. rewrite sr_bind_eq. unfold gets. rewrite Hi.
  by rewrite (proj2 (Z.eqb_neq _ _) Hsig).
Qed.

Context (method : string) (params : list Json) (threshold : f64).
(** The attempts of a request: after [k] lost connections, each followed by a pause and
    a reconnection, comes an outcome, or a pause that is interrupted. *)
Inductive recovers : nat -> DaemonState W -> DaemonState W -> result (list Json) -> Prop :=
  | recovers_done s s' r :
      handle_request_batch fuel method params threshold s = (s', r) -> ~ lost r -> recovers 0 s s' r
  | recovers_stop s s1 s2 msg e :
      handle_request_batch fuel method params threshold s = (s1, Err (Prelude.Connection msg)) ->
      wait fuel 3 false s1 = (s2, Err e) -> recovers 0 s s2 (Err e)
  | recovers_again k s s1 s2 s3 s' r msg :
      handle_request_batch fuel method params threshold s = (s1, Err (Prelude.Connection msg)) ->
      wait fuel 3 false s1 = (s2, Ok tt) -> conn_reconnect fuel s2 = (s3, Ok tt) ->
      recovers k s3 s' r -> recovers (S k) s s' r.

Lemma retry_loop_recovers k n s s' r : recovers k s s' r -> k < n -> retry_loop fuel n method params threshold s = (s', r).
Proof.
  intros H. revert n. induction H as [s s' r Hh Hl|s s1 s2 msg e Hh Hw|k s s1 s2 s3 s' r msg Hh Hw Hc _ IH];
    intros [|n] Hn; try lia; cbn [retry_loop]; rewrite Hh.
  - destruct r as [|[]| |]; try done. destruct Hl. by eexists.
  - by rewrite sr_bind_eq, Hw.
  - rewrite sr_bind_eq, Hw, sr_bind_eq, Hc. apply IH. lia.
Qed.
Lemma retry_loop_not_lost n s : ~ lost (retry_loop fuel n method params threshold s).2.
Proof.
  revert s. induction n as [|n IH]; intros s [msg H]; [done|]. cbn [retry_loop] in H.
  destruct (handle_request_batch _ _ _ _ s) as [s1 [|[]| |]]; try done.
  rewrite sr_bind_eq in H. pose proof (wait_deadline_not_lost fuel 3 false s1) as Hw. fold (wait fuel 3 false s1) in Hw.
  destruct (wait fuel 3 false s1) as [s2 [[]|e| |]]; cbn [snd] in *; try done; [|injection H as ->; apply Hw; by exists msg].
  rewrite sr_bind_eq in H. pose proof (reconnect_not_lost s2) as Hr.
  destruct (conn_reconnect fuel s2) as [s3 [[]|e| |]]; cbn [snd] in *; try done; [|injection H as ->; apply Hr; by exists msg].
  apply (IH s3). by exists msg.
Qed.
End batches.

(** C38: A request survives lost connections.  However many times the connection is lost,
    [retry_request_batch] pauses, reconnects and asks again, and ends with the first
    outcome that is not a lost connection; it never ends with one, and a termination
    signal seen in the past or during a pause ends it.  A request for a client is made
    once: a lost connection is the error that bitcoind is unavailable. *)
Theorem retry_survives_disconnects {W} {N : Net W} {EL : ElectrumLib} {DL : DaemonLib} fuel method params threshold :
  (forall k s s' r, recovers fuel method params threshold k s s' r -> k < fuel ->
    retry_request_batch fuel method params threshold s = (s', r)) /\
  (forall s, ~ lost (retry_request_batch fuel method params threshold s).2) /\
  (forall s s1 msg, 0 < fuel -> handle_request_batch fuel method params threshold s = (s1, Err (Prelude.Connection msg)) ->
    interrupted s1 <> 0%Z -> retry_request_batch fuel method params threshold s = (s1, Err (Interrupt (interrupted s1)))) /\
  (forall p s, let r := handle_request_batch fuel method [JArr p] f64_zero s in
    (request_proxied fuel method p s).1 = r.1 /\ ~ lost (request_proxied fuel method p s).2 /\
    (lost r.2 -> exists msg, (request_proxied fuel method p s).2 = Err (DaemonUnavailable msg))).
Proof.
  split_and!.
  - intros k s s' r H Hk. by apply (retry_loop_recovers fuel method params threshold k).
  - apply retry_loop_not_lost.
  - intros s s1 msg Hf Hh Hi. apply (retry_loop_recovers fuel method params threshold 0); [|done].
    apply (recovers_stop _ _ _ _ s s1 s1 msg); [done|]. destruct fuel as [|n]; [lia|]. unfold wait. cbn [wait_deadline].
    rewrite sr_bind_eq. unfold gets. by rewrite (proj2 (Z.eqb_neq _ _) Hi).
  - intros p s r. unfold request_proxied. fold r. destruct r as [s1 r]. cbn [fst snd].
    assert (forall vs, ~ lost (only_value vs)) as Hv by (intros [|v [|]] [msg Hm]; done).
    destruct r as [vs|[]| |]; cbn; split_and!; try done; try (by intros [? ?]); eauto.
Qed.

(** ** A node that answers *)

Section node.
Context {W : Type} {N : Net W} (fuel : nat) {EL : ElectrumLib} {DL : DaemonLib}.
Implicit Types (s : DaemonState W).

(** What the node answers to a method with parameters: an error or a result. *)
Context (node : Text -> Json -> Json + Json).
Definition answer (m : Text) (id : Z) (params : Json) : Json :=
  match node m params with
  | inr v => jobj [("result", v); ("error", JNull); ("id", JInt id)]
  | inl err => jobj [("result", JNull); ("error", err); ("id", JInt id)]
  end.
Inductive reads : W -> list Text -> W -> Prop :=
  | reads_nil w : reads w [] w
  | reads_cons w w1 w2 l ls : net_next_line w = (w1, Some (Some l)) -> reads w1 ls w2 -> reads w (l :: ls) w2.
(** The headers of a response, as the client collects them. *)
Definition collect_headers (lines : list Text) (headers : gmap Text Text) : gmap Text Text :=
  fold_left (fun h l => match split_header l with Some (k, v) => <[k := v]> h | None => h end) lines headers.
(** An exchange with the node: the request is written and the response read, its body
    one line, the answers in order. *)
Definition answers (w : W) (m : Text) (id : Z) (params : list Json) (w' : W) : Prop :=
  exists cookie sent headers body,
    net_cookie w = Ok cookie /\
    net_write_all (http_request cookie (json_display (JArr (map (rpc_call m id) params)))) w = (sent, true) /\
    reads sent ([text_of "HTTP/1.1 200 OK"] ++ headers ++ [[]; body]) w' /\
    ([] ∉ headers) /\ body <> [] /\ length headers + 2 <= fuel /\
    collect_headers headers ∅ !! text_of "Content-Length" = Some (display_usize (utf8_len body + 1)) /\
    is_u64 (utf8_len body + 1) /\ json_parse body = inr (JArr (map (answer m id) params)).
(** A connection to the node that has nothing pending stays so, and can be made anew;
    errors have a code, and the node is not warming up. *)
Record bitcoind (idle : W -> Prop) : Prop := {
  bn_answers w m id params : idle w -> params <> [] -> exists w', answers w m id params w' /\ idle w';
  bn_connect w : idle w -> exists w1 w2, net_connect w = (w1, true) /\ net_clone w1 = (w2, true) /\ idle w2;
  bn_errors m params err : node m params = inl err -> exists code, parse_error_code err = Some code /\ code <> (-28)%Z;
  bn_fuel : 0 < fuel;
}.

Lemma read_contents_eq n headers hs body s w' :
  reads (ds_net s) (hs ++ [[]; body]) w' -> [] ∉ hs -> body <> [] -> length hs + 2 <= n ->
  read_contents n true headers s = (set_net w' s, Ok (Some body, collect_headers hs headers)).
Proof.
  revert n headers s. induction hs as [|l hs IH]; intros n headers s Hr Hne Hb Hn.
  - cbn in Hr, Hn. destruct n as [|[|n]]; [lia|lia|]. inversion Hr as [|? w1 ? ? ? Hl Hr1]; subst.
    inversion Hr1 as [|? w2 ? ? ? Hl2 Hr2]; subst. inversion Hr2; subst. destruct body as [|c body]; [done|].
    cbn [read_contents]. rewrite sr_bind_eq. unfold io at 1. rewrite Hl. rewrite sr_bind_eq. unfold io at 1.
    cbn [set_net ds_net]. rewrite Hl2. done.
  - cbn in Hr, Hn. destruct n as [|n]; [lia|]. inversion Hr as [|? w1 ? ? ? Hl Hr1]; subst.
    cbn [read_contents]. rewrite sr_bind_eq. unfold io. rewrite Hl. destruct l as [|c l]; [set_solver|].
    rewrite (IH _ _ (set_net w1 s)); [done|done|set_solver|done|lia].
Qed.
Lemma call_answers m id params s w' : answers (ds_net s) m id params w' ->
  call_jsonrpc fuel (JArr (map (rpc_call m id) params)) s = (set_net w' s, Ok (JArr (map (answer m id) params))).
Proof.
  intros (cookie & sent & headers & body & Hc & Hw & Hr & Hne & Hb & Hf & Hlen & Hsz & Hj).
  unfold call_jsonrpc. rewrite sr_bind_eq. unfold send. rewrite sr_bind_eq, Hc, sr_bind_eq. unfold io. rewrite Hw.
  cbn [mret SR_ret]. rewrite sr_bind_eq. unfold recv. rewrite sr_bind_eq. unfold io. cbn [set_net ds_net].
  inversion Hr as [|? w1 ? ? ? Hl Hr1]; subst. rewrite Hl. rewrite sr_bind_eq. cbn [lift ok_or]. rewrite sr_bind_eq. cbn [lift ok_or].
  rewrite sr_bind_eq, (read_contents_eq _ _ headers body _ w') by done. unfold lift. cbn [fst snd].
  unfold check_contents. cbn [ok_or mbind result_bind]. rewrite Hlen. cbn [ok_or mbind result_bind].
  rewrite parse_display_usize by done. cbn [ok_or mbind result_bind]. rewrite Z.add_simpl_r, wrap64_id.
  - rewrite Z.eqb_refl. cbn [negb]. unfold classify_daemon_http_status. rewrite bool_decide_eq_true_2 by done. by rewrite Hj.
  - destruct Hsz as [_ Hsz]. split; [|lia].
    apply sum_Z_nonneg, Forall_map, Forall_true. intros c. cbn. repeat case_match; lia.
Qed.

Context (idle : W -> Prop) (Hnode : bitcoind idle).
(** What the node gives for a list of parameters: the results and the errors. *)
Definition node_values (m : Text) (params : list Json) : list Json :=
  omap (fun p => match node m p with inr v => Some v | inl _ => None end) params.
Definition rpc_error (m : Text) (err : Json) : ErrorKind :=
  Msg (string_of (m ++ text_of " RPC error: " ++ json_display err)).
Definition node_errors (m : Text) (params : list Json) : list ErrorKind :=
  omap (fun p => match node m p with inr _ => None | inl err => Some (rpc_error m err) end) params.

Lemma parse_reply_obj fields method id (get := fun key => json_get (jobj fields) (text_of key)) :
  parse_jsonrpc_reply (jobj fields) method id =
    (_ ← (match get "error" with
          | Some err =>
              match (if is_null err then None else parse_error_code err) with
              | Some code =>
                  if (code =? -28)%Z then Err (Prelude.Connection (string_of (json_display err))) else Err (rpc_error method err)
              | None => Ok tt
              end
          | None => Ok tt
          end);
     i ← ok_or (Msg "no id in reply") (get "id");
     if negb (bool_decide (as_u64 i = Some id)) then
       Err (Msg (string_of (text_of "wrong " ++ method ++ text_of " response id " ++ json_display i ++
         text_of ", expected " ++ display_usize id)))
     else ok_or (Msg "no result in reply") (get "result")).
Proof. done. Qed.
Lemma parse_answer m id p : is_u64 id ->
  parse_jsonrpc_reply (answer m id p) m id = match node m p with inr v => Ok v | inl err => Err (rpc_error m err) end.
Proof.
  intros Hid. unfold answer. destruct (node m p) as [err|v] eqn:E; rewrite parse_reply_obj; cbv beta; autorewrite with json;
    repeat first [rewrite decide_True by reflexivity | rewrite decide_False by discriminate]; cbn [ok_or mbind result_bind].
  - destruct (bn_errors _ Hnode m p err E) as (code & Hc & Hne).
    assert (is_null err = false) as Hn by (by destruct err). rewrite Hn, Hc.
    by rewrite (proj2 (Z.eqb_neq code (-28)) Hne).
  - cbn [is_null as_u64 mbind result_bind]. rewrite decide_True by done. by rewrite bool_decide_eq_true_2 by done.
Qed.
Lemma answered m id params : is_u64 id ->
  successes m id (map (answer m id) params) = node_values m params /\
  failures m id (map (answer m id) params) = node_errors m params.
Proof.
  intros Hid. unfold successes, failures, node_values, node_errors.
  induction params as [|p ps [IH1 IH2]]; [done|]. cbn [map omap list_omap]. rewrite parse_answer, IH1, IH2 by done.
  destruct (node m p); done.
Qed.
Lemma send_chunks_node m id threshold cs results failed s : is_u64 id -> idle (ds_net s) -> (0 <= failed <= threshold)%Z ->
  Forall (fun c => c <> []) cs -> exists s', idle (ds_net s') /\
  send_chunks fuel m id threshold (map (map (rpc_call m id)) cs) results failed s =
    (s', match node_errors m (concat cs) !! Z.to_nat (threshold - failed) with
         | Some e => Err e | None => Ok (results ++ node_values m (concat cs)) end).
Proof.
  intros Hid. revert results failed s. induction cs as [|c cs IH]; intros results failed s Hs Hf Hne.
  - exists s. cbn. by rewrite app_nil_r.
  - apply Forall_cons in Hne as [Hc Hne]. destruct (bn_answers _ Hnode _ m id c Hs Hc) as (w' & Ha & Hw').
    cbn [map send_chunks concat]. rewrite sr_bind_eq, (call_answers _ _ _ _ w') by done. cbn [as_array].
    rewrite sr_bind_eq. unfold lift. rewrite take_replies_eq by done. destruct (answered m id c Hid) as [-> ->].
    unfold node_errors, node_values. rewrite !omap_app. fold (node_errors m c) (node_values m c) (node_errors m (concat cs)) (node_values m (concat cs)).
    destruct (node_errors m c !! _) as [e|] eqn:E.
    + exists (set_net w' s). split; [done|]. by rewrite (lookup_app_l_Some _ _ _ _ E).
    + pose proof (proj1 (lookup_ge_None _ _) E) as Hlen. cbn [fst snd].
      destruct (IH (results ++ node_values m c) (failed + Z.of_nat (length (node_errors m c)))%Z (set_net w' s)) as (s' & Hs' & Heq);
        [done|lia|done|].
      exists s'. split; [done|]. rewrite Heq, lookup_app_r, <- app_assoc by lia.
      replace (Z.to_nat (threshold - failed) - length (node_errors m c)) with
        (Z.to_nat (threshold - (failed + Z.of_nat (length (node_errors m c))))) by lia. done.
Qed.
Lemma chunks_map {A B} (f : A -> B) n l : chunks n (map f l) = map (map f) (chunks n l).
Proof.
  unfold chunks. rewrite length_map. generalize (length l). intros k. revert l.
  induction k as [|k IH]; intros [|x l]; try done. cbn [chunks_go map].
  change (f x :: map f l) with (map f (x :: l)). by rewrite firstn_map, skipn_map, IH.
Qed.
(** Over the node a batch gives what the node gives, up to the limit of failures. *)
Lemma batch_node method params threshold s : idle (ds_net s) -> exists s', idle (ds_net s') /\
  handle_request_batch fuel method params threshold s =
    (s', match node_errors (text_of method) params !! Z.to_nat (failure_limit threshold (length params)) with
         | Some e => Err e | None => Ok (node_values (text_of method) params) end).
Proof.
  intros Hs. pose proof (failure_limit_pos threshold (length params)) as Hpos.
  destruct (send_chunks_node (text_of method) (wrap64 (message_id s + 1)) (failure_limit threshold (length params))
    (chunks batch_chunk params) [] 0 (tick s)) as (s' & Hs' & Heq).
  - apply Z.mod_pos_bound. done.
  - done.
  - lia.
  - apply Forall_forall. intros c Hc. apply (chunks_nonempty batch_chunk params c); [unfold batch_chunk; lia|done].
  - exists s'. split; [done|]. rewrite Z.sub_0_r, chunks_concat in Heq by (unfold batch_chunk; lia). rewrite <- chunks_map in Heq. exact Heq.
Qed.
Lemma retry_node method params threshold s : idle (ds_net s) -> exists s', idle (ds_net s') /\
  retry_request_batch fuel method params threshold s =
    (s', match node_errors (text_of method) params !! Z.to_nat (failure_limit threshold (length params)) with
         | Some e => Err e | None => Ok (node_values (text_of method) params) end).
Proof.
  intros Hs. destruct (batch_node method params threshold s Hs) as (s' & Hs' & Heq). exists s'. split; [done|].
  apply (retry_loop_recovers fuel method params threshold 0); [|apply (bn_fuel _ Hnode)]. constructor; [done|].
  intros [msg Hm]. destruct (node_errors _ _ !! _) as [e|] eqn:E; [|done]. simplify_eq.
  apply list_elem_of_lookup_2, list_elem_of_omap in E as (p & _ & Hp). by destruct (node _ p); simplify_eq/=.
Qed.
Lemma failure_limit_zero n : failure_limit f64_zero n = 0%Z.
Proof. unfold failure_limit, f64_mul. by destruct (f64_of_Z (Z.of_nat n)) as [[]|[]| |[]]. Qed.
(** A quarter of the requests, rounded half up, may fail. *)
Example quarter_limits :
  map (failure_limit f64_quarter) [0; 1; 2; 3; 4; 5; 6; 10; 101; 1001] = [0; 0; 1; 1; 1; 1; 2; 3; 25; 250]%Z.
Proof. vm_compute. reflexivity. Qed.
Lemma requests_node {A} method (params : A -> Json) (value : A -> Json) (l : list A) s : idle (ds_net s) ->
  (forall a, a ∈ l -> node (text_of method) (params a) = inr (value a)) ->
  exists s', idle (ds_net s') /\ requests fuel method (map params l) s = (s', Ok (map value l)).
Proof.
  intros Hs Hl. destruct (retry_node method (map params l) f64_zero s Hs) as (s' & Hs' & Heq). exists s'. split; [done|].
  unfold requests. rewrite Heq, failure_limit_zero.
  assert (node_errors (text_of method) (map params l) = [] /\ node_values (text_of method) (map params l) = map value l) as [-> ->].
  { clear Heq. unfold node_errors, node_values. induction l as [|a l IH]; [done|]. cbn [map omap list_omap].
    rewrite (Hl a) by set_solver. destruct IH as [-> ->]; [set_solver|done]. }
  done.
Qed.
Lemma request_node method params v s : idle (ds_net s) -> node (text_of method) (JArr params) = inr v ->
  exists s', idle (ds_net s') /\ request fuel method params s = (s', Ok v).
Proof.
  intros Hs Hv. destruct (requests_node method (fun _ : unit => JArr params) (fun _ => v) [tt] s Hs) as (s' & Hs' & Heq); [done|].
  exists s'. split; [done|]. unfold request. rewrite sr_bind_eq. unfold requests in Heq. cbn [map] in Heq. by rewrite Heq.
Qed.
End node.

(** Hexadecimal decodes. *)
Class DaemonLaws `{!ElectrumLib} `{!DaemonLib} : Prop := { unhex_hex b : unhex (hex_encode b) = Some b }.

Section chain_node.
Context {W : Type} {N : Net W} (fuel : nat) {EL : ElectrumLib} {ELL : ElectrumLibLaws} {DL : DaemonLib} {DLL : DaemonLaws}.
Context {BL : BitcoinLib} {BLaws : BitcoinLaws}.
Context (node : Text -> Json -> Json + Json) (idle : W -> Prop).

(** The blocks, the best chain and the transactions a node has. *)
Record NodeData := mkNodeData {
  nd_known : gset BlockHash; nd_block_of : BlockHash -> Block; nd_chain : list BlockHash; nd_tip : BlockHash;
  nd_pool : gset Txid; nd_txs : gmap Txid Transaction }.
Definition hex_value (b : Bytes) : Json := JStr (hex_encode b).
(** The node answers the methods from its data. *)
Record answers_from (d : NodeData) : Prop := {
  af_best : node (text_of "getbestblockhash") (JArr []) = inr (jhash (nd_tip d));
  af_hash i h : nd_chain d !! i = Some h -> node (text_of "getblockhash") (JArr [JInt (Z.of_nat i)]) = inr (jhash h);
  af_known h : h ∈ nd_chain d -> h ∈ nd_known d;
  af_header h : h ∈ nd_known d -> node (text_of "getblockheader") (JArr [jhash h; JBool false]) =
    inr (hex_value (serialize_header (block_header (nd_block_of d h))));
  af_block h : h ∈ nd_known d -> node (text_of "getblock") (JArr [jhash h; JBool false]) =
    inr (hex_value (serialize_block (nd_block_of d h)));
  af_pool : exists v, node (text_of "getrawmempool") (JArr [JBool false]) = inr v /\ txid_set v = Some (nd_pool d);
  af_tx t tx : nd_txs d !! t = Some tx ->
    node (text_of "getrawtransaction") (JArr [jhash t; JBool false]) = inr (hex_value (serialize_tx tx));
  af_no_tx t : nd_txs d !! t = None -> exists err, node (text_of "getrawtransaction") (JArr [jhash t; JBool false]) = inl err;
}.
Context (Hnode : bitcoind fuel node idle) (d : NodeData) (Hd : answers_from d).

(** The replies of bitcoind as the indexer sees them, each asked of the client in the same
    state [s].  The theorem below is for every idle state and shows that a call leaves an
    idle one, so that calls made one after the other get these replies too. *)
Definition rpc_daemon (base : Daemon) (s : DaemonState W) : Daemon := {|
  d_reconnect := (daemon_reconnect fuel s).2;
  d_getbestblockhash := (getbestblockhash fuel s).2;
  d_block_height h := (rpc_block_height fuel h s).2;
  d_getblockhashes hs := (rpc_getblockhashes fuel hs s).2 ≫= rmap parse_hash_value;
  d_getblockheader h := (getblockheader fuel h s).2;
  d_getblocks hs := (getblocks fuel hs s).2;
  d_magic := d_magic base; d_list_blk_files := d_list_blk_files base; d_xor_key := d_xor_key base;
  d_block_txids := d_block_txids base; d_block_meta := d_block_meta base; d_block_raw := d_block_raw base;
  d_gettransaction_raw := d_gettransaction_raw base;
  d_getmempooltxids := (rpc_getmempooltxids fuel s).2;
  d_gettransactions ts := (rpc_gettransactions fuel ts s).2;
  d_getmempooltx t := (rpc_getmempooltx fuel t s).2;
  d_broadcast tx := (daemon_broadcast fuel tx s).2;
|}.

Lemma header_value h : header_from_value (hex_value (serialize_header h)) = Ok h.
Proof. unfold header_from_value, hex_value. cbn. rewrite unhex_hex. cbn. by rewrite de_ser_header. Qed.
Lemma block_value b : block_from_value (hex_value (serialize_block b)) = Ok b.
Proof. unfold block_from_value, hex_value. cbn. rewrite unhex_hex. cbn. by rewrite de_ser_block. Qed.
Lemma tx_value t : tx_from_value (hex_value (serialize_tx t)) = Ok t.
Proof. unfold tx_from_value, hex_value. cbn. rewrite unhex_hex. cbn. by rewrite de_ser_tx. Qed.
Lemma hash_value h : parse_hash_value (jhash h) = Ok h.
Proof. unfold parse_hash_value, jhash. cbn. by rewrite parse_display_hash. Qed.
Lemma rmap_map {A B C} (f : B -> result C) (g : A -> B) (k : A -> C) l :
  (forall a, f (g a) = Ok (k a)) -> rmap f (map g l) = Ok (map k l).
Proof. intros H. induction l as [|a l IH]; [done|]. cbn. rewrite H. cbn. by rewrite IH. Qed.

Lemma getblocks_node s hashes : idle (ds_net s) -> Forall (fun h => h ∈ nd_known d) hashes ->
  exists s', idle (ds_net s') /\ getblocks fuel hashes s = (s', Ok (map (nd_block_of d) hashes)).
Proof.
  intros Hs Hk. rewrite Forall_forall in Hk.
  destruct (requests_node fuel node idle Hnode "getblock" (fun h => JArr [jhash h; JBool false])
    (fun h => hex_value (serialize_block (nd_block_of d h))) hashes s Hs) as (s' & Hs' & Heq).
  { intros h Hh. by apply af_block, Hk. }
  exists s'. split; [done|]. unfold getblocks. rewrite sr_bind_eq, Heq. unfold lift. f_equal.
  apply rmap_map. intros h. apply block_value.
Qed.
Lemma getheaders_node s heights hashes : idle (ds_net s) -> Forall2 (fun i h => nd_chain d !! i = Some h) heights hashes ->
  exists s', idle (ds_net s') /\ rpc_getblockheaders fuel heights s = (s', Ok (map (fun h => block_header (nd_block_of d h)) hashes)).
Proof.
  intros Hs HF. assert (heights = (zip heights hashes).*1 /\ hashes = (zip heights hashes).*2) as [H1 H2].
  { apply Forall2_length in HF. rewrite fst_zip, snd_zip by lia. done. }
  assert (forall p, p ∈ zip heights hashes -> nd_chain d !! p.1 = Some p.2) as Hz.
  { intros [i h] Hp. apply list_elem_of_lookup in Hp as [k Hk]. apply lookup_zip_Some in Hk as [Hi Hh].
    by apply (Forall2_lookup_lr _ _ _ _ _ _ HF Hi Hh). }
  destruct (requests_node fuel node idle Hnode "getblockhash" (fun p : nat * BlockHash => JArr [JInt (Z.of_nat p.1)])
    (fun p => jhash p.2) (zip heights hashes) s Hs) as (s1 & Hs1 & Heq1).
  { intros p Hp. by apply (af_hash d Hd), Hz. }
  destruct (requests_node fuel node idle Hnode "getblockheader" (fun h => JArr [jhash h; JBool false])
    (fun h => hex_value (serialize_header (block_header (nd_block_of d h)))) hashes s1 Hs1) as (s' & Hs' & Heq).
  { intros h Hh. apply (af_header d Hd), (af_known d Hd). rewrite H2 in Hh.
    apply list_elem_of_fmap in Hh as (p & -> & Hp). eapply list_elem_of_lookup_2, Hz, Hp. }
  exists s'. split; [done|]. unfold rpc_getblockheaders, rpc_getblockhashes. rewrite sr_bind_eq.
  rewrite H1 at 1. rewrite map_map, Heq1. rewrite sr_bind_eq.
  assert (map (fun p : nat * BlockHash => jhash p.2) (zip heights hashes) = map jhash hashes) as ->.
  { rewrite H2 at 2. by rewrite map_map. }
  rewrite map_map, Heq. unfold lift. f_equal. apply rmap_map. intros h. apply header_value.
Qed.
Definition missing (txids : list Txid) : list Txid := filter (fun t => nd_txs d !! t = None) txids.
Lemma gettransactions_node s txids : idle (ds_net s) -> exists s', idle (ds_net s') /\
  if decide (Z.of_nat (length (missing txids)) <= failure_limit f64_quarter (length txids))%Z
  then rpc_gettransactions fuel txids s = (s', Ok (omap (fun t => nd_txs d !! t) txids))
  else exists e, rpc_gettransactions fuel txids s = (s', Err e).
Proof.
  intros Hs. set (params := map (fun t => JArr [jhash t; JBool false]) txids).
  destruct (retry_node fuel node idle Hnode "getrawtransaction" params f64_quarter s Hs) as (s' & Hs' & Heq).
  exists s'. split; [done|].
  assert (length (node_errors node (text_of "getrawtransaction") params) = length (missing txids) /\
    rmap tx_from_value (node_values node (text_of "getrawtransaction") params) = Ok (omap (fun t => nd_txs d !! t) txids)) as [Hlen Hvals].
  { clear Heq. unfold params, missing, node_errors, node_values. induction txids as [|t ts [IH1 IH2]]; [done|].
    cbn [map omap list_omap]. rewrite filter_cons. destruct (nd_txs d !! t) as [tx|] eqn:E.
    - rewrite (af_tx d Hd t tx E), decide_False by done. split; [exact IH1|]. cbn [rmap]. rewrite tx_value. cbn [mbind result_bind].
      by rewrite IH2.
    - destruct (af_no_tx d Hd t E) as [err ->]. rewrite decide_True by done. split; [cbn; by f_equal|exact IH2]. }
  pose proof (failure_limit_pos f64_quarter (length txids)) as Hpos.
  unfold rpc_gettransactions. rewrite sr_bind_eq. fold params. rewrite Heq.
  assert (length params = length txids) as -> by apply length_map.
  case_decide as Hl.
  - rewrite (proj2 (lookup_ge_None _ _)) by lia. unfold lift. by rewrite Hvals.
  - destruct (lookup_lt_is_Some_2 (node_errors node (text_of "getrawtransaction") params)
      (Z.to_nat (failure_limit f64_quarter (length txids)))) as [e ->]; [lia|]. by exists e.
Qed.
Lemma reconnect_node s : idle (ds_net s) -> exists s', idle (ds_net s') /\ daemon_reconnect fuel s = (s', Ok tt).
Proof.
  intros Hs. destruct (bn_connect _ _ _ Hnode _ Hs) as (w1 & w2 & Hc & Hcl & Hw2). pose proof (bn_fuel _ _ _ Hnode) as Hf.
  unfold daemon_reconnect, conn_reconnect, connection_open. rewrite sr_bind_eq, sr_bind_eq.
  destruct fuel as [|n]; [lia|]. cbn [tcp_connect]. rewrite sr_bind_eq. unfold io. rewrite Hc. cbn [mret SR_ret].
  rewrite sr_bind_eq. cbn [set_net ds_net]. rewrite Hcl. eexists. split; [|reflexivity]. exact Hw2.
Qed.

(** C39: Over a connection to a node that answers, the client gives the node's data: the
    best block, the headers at heights of its chain, its blocks and the ids of its
    mempool, and of a list of transactions those the node has, in order, when at most a
    quarter of them (rounded) is missing, and an error otherwise.  The connection stays
    usable after each call, and the block fetcher of the indexer, asking through the
    client, delivers the node's blocks. *)
Theorem client_fetches_node base s : idle (ds_net s) ->
  (exists s', idle (ds_net s') /\ getbestblockhash fuel s = (s', Ok (nd_tip d))) /\
  (forall heights hashes, Forall2 (fun i h => nd_chain d !! i = Some h) heights hashes ->
    exists s', idle (ds_net s') /\ rpc_getblockheaders fuel heights s = (s', Ok (map (fun h => block_header (nd_block_of d h)) hashes))) /\
  (forall hashes, Forall (fun h => h ∈ nd_known d) hashes ->
    exists s', idle (ds_net s') /\ getblocks fuel hashes s = (s', Ok (map (nd_block_of d) hashes))) /\
  (exists s', idle (ds_net s') /\ rpc_getmempooltxids fuel s = (s', Ok (nd_pool d))) /\
  (forall txids, exists s', idle (ds_net s') /\
    if decide (Z.of_nat (length (missing txids)) <= failure_limit f64_quarter (length txids))%Z
    then rpc_gettransactions fuel txids s = (s', Ok (omap (fun t => nd_txs d !! t) txids))
    else exists e, rpc_gettransactions fuel txids s = (s', Err e)) /\
  (forall entries, Forall (fun e => he_hash e ∈ nd_known d) entries ->
    bitcoind_fetcher (rpc_daemon base s) entries = Ok (map (map (entry_block (nd_block_of d))) (chunks 100 entries))).
Proof.
  intros Hs. split_and!.
  - destruct (request_node fuel node idle Hnode "getbestblockhash" [] _ s Hs (af_best d Hd)) as (s' & Hs' & Heq).
    exists s'. split; [done|]. unfold getbestblockhash. rewrite sr_bind_eq, Heq. unfold lift. by rewrite hash_value.
  - intros heights hashes. by apply getheaders_node.
  - intros hashes. by apply getblocks_node.
  - destruct (af_pool d Hd) as (v & Hv & Hset).
    destruct (request_node fuel node idle Hnode "getrawmempool" [JBool false] v s Hs Hv) as (s' & Hs' & Heq).
    exists s'. split; [done|]. unfold rpc_getmempooltxids. rewrite sr_bind_eq, Heq. unfold lift. by rewrite Hset.
  - intros txids. by apply gettransactions_node.
  - intros entries He. unfold bitcoind_fetcher. cbn [rpc_daemon d_reconnect].
    destruct (reconnect_node s Hs) as (s1 & _ & ->). cbn [snd mbind result_bind]. apply rmap_Ok. intros c Hc.
    apply (fetch_chunk_blocks (rpc_daemon base s) (nd_block_of d) c).
    destruct (getblocks_node s (map he_hash c) Hs) as (s' & _ & Heq).
    { apply Forall_map. eapply Forall_impl; [|intros e H; exact H]. apply Forall_forall. intros e Hin.
      rewrite Forall_forall in He. apply He. rewrite <- (chunks_concat 100 entries) by lia.
      apply list_elem_of_In, in_concat. exists c. by rewrite <- !list_elem_of_In. }
    cbn [rpc_daemon d_getblocks]. by rewrite Heq.
Qed.
End chain_node.

(** ** Witnesses: a node in memory *)

(** A code for JSON values, for libraries that can be evaluated. *)
Definition JsonLeaf : Type := unit + (bool + (Z + ((Z * bool * positive * Z) + (Text + list Text)))).
Definition float_code (x : spec_float) : Z * bool * positive * Z :=
  match x with
  | S754_zero s => (0, s, 1%positive, 0) | S754_infinity s => (1, s, 1%positive, 0)
  | S754_nan => (2, false, 1%positive, 0) | S754_finite s m e => (3, s, m, e)
  end%Z.
Definition code_float (c : Z * bool * positive * Z) : spec_float :=
  let '(k, s, m, e) := c in
  if decide (k = 0)%Z then S754_zero s else if decide (k = 1)%Z then S754_infinity s
  else if decide (k = 2)%Z then S754_nan else S754_finite s m e.
Fixpoint json_tree (j : Json) : gen_tree JsonLeaf :=
  match j with
  | JNull => GenLeaf (inl tt)
  | JBool b => GenLeaf (inr (inl b))
  | JInt n => GenLeaf (inr (inr (inl n)))
  | JFloat x => GenLeaf (inr (inr (inr (inl (float_code x)))))
  | JStr s => GenLeaf (inr (inr (inr (inr (inl s)))))
  | JArr l => GenNode 0 (map json_tree l)
  | JObj fields => GenNode 1 (GenLeaf (inr (inr (inr (inr (inr (map fst fields)))))) :: map (fun p => json_tree p.2) fields)
  end.
Fixpoint tree_json (t : gen_tree JsonLeaf) : Json :=
  match t with
  | GenLeaf (inl _) => JNull
  | GenLeaf (inr (inl b)) => JBool b
  | GenLeaf (inr (inr (inl n))) => JInt n
  | GenLeaf (inr (inr (inr (inl c)))) => JFloat (code_float c)
  | GenLeaf (inr (inr (inr (inr (inl s))))) => JStr s
  | GenNode 1 (GenLeaf (inr (inr (inr (inr (inr keys))))) :: l) => JObj (zip keys (map tree_json l))
  | GenNode _ l => JArr (map tree_json l)
  | _ => JNull
  end.
Fixpoint tree_json_tree (j : Json) : tree_json (json_tree j) = j.
Proof.
  destruct j as [|b|n|x|s|l|fields]; cbn; try done.
  - by destruct x.
  - f_equal. rewrite map_map. induction l as [|j l IH]; [done|]. cbn. by rewrite tree_json_tree, IH.
  - f_equal. rewrite map_map. induction fields as [|[k j] l IH]; [done|]. cbn. by rewrite tree_json_tree, IH.
Qed.
Definition WireElectrum : ElectrumLib := {|
  parse_hash := ex_parse; display_hash := ex_display; hex_encode b := b;
  json_parse t := match t with [Zpos p] => from_option (fun tr => inr (tree_json tr)) (inl []) (decode p) | _ => inl [] end;
  json_display j := [Zpos (encode (json_tree j))];
|}.
Lemma wire_json j : @json_parse WireElectrum (@json_display WireElectrum j) = inr j.
Proof. cbn. rewrite decode_encode. cbn. by rewrite tree_json_tree. Qed.
Lemma WireElectrum_laws : @ElectrumLibLaws WireElectrum.
Proof. destruct ExampleElectrum_laws as [H1 H2 H3]. split; [exact H1|exact H2|exact H3]. Qed.
Definition WireDaemonLib : DaemonLib := {|
  base64_encode b := b; unhex t := Some t; blockchain_info _ := None; mempool_loaded _ := None; network_info _ := None;
  txid_set _ := Some {[hash_repeat 8]}; accept_results _ := None; package_result _ := None;
|}.
Lemma WireDaemon_laws : @DaemonLaws WireElectrum WireDaemonLib.
Proof. by split. Qed.
(** A world: is the connection down, and the lines that wait to be read. *)
Definition WireWorld : Type := bool * list Text.
Section wire.
Existing Instance WireElectrum.
Context (node : Text -> Json -> Json + Json).
Definition respond (req : Json) : Json :=
  match json_get req (text_of "method"), json_get req (text_of "params"), json_get req (text_of "id") with
  | Some (JStr m), Some params, Some (JInt id) => answer node m id params
  | _, _, _ => JNull
  end.
Definition response (request : Text) : list Text :=
  match last request with
  | Some c =>
      match json_parse [c] with
      | inr (JArr reqs) =>
          let body := json_display (JArr (map respond reqs)) in
          [text_of "HTTP/1.1 200 OK"; text_of "Content-Length: " ++ display_usize (utf8_len body + 1); []; body]
      | _ => []
      end
  | None => []
  end.
Definition WireNet : Net WireWorld := {|
  net_connect w := ((false, []), true);
  net_clone w := (w, true);
  net_write_all msg w := if w.1 then (w, false) else ((false, w.2 ++ response msg), true);
  net_next_line w := match w.2 with l :: ls => ((w.1, ls), Some (Some l)) | [] => (w, None) end;
  net_cookie _ := Ok [];
  net_signal _ w := (w, Timeout);
|}.

Lemma respond_call m id params : respond (rpc_call m id params) = answer node m id params.
Proof.
  unfold respond, rpc_call. autorewrite with json.
  by repeat first [rewrite decide_True by reflexivity | rewrite decide_False by discriminate].
Qed.
Lemma wire_length c : let n := (utf8_len [c] + 1)%Z in
  is_u64 n /\ split_header (text_of "Content-Length: " ++ display_usize n) = Some (text_of "Content-Length", display_usize n).
Proof.
  unfold utf8_len. cbn [map sum_Z foldr]. repeat case_match; (split; [unfold is_u64; vm_compute; done|reflexivity]).
Qed.
Lemma wire_bitcoind :
  (forall m params err, node m params = inl err -> exists code, parse_error_code err = Some code /\ code <> (-28)%Z) ->
  @bitcoind WireWorld WireNet 10 WireElectrum WireDaemonLib node (fun w => w = (false, [])).
Proof.
  intros Herr. split; [|by intros w ->; eexists _, _|exact Herr|lia].
  intros w m id params -> _. exists (false, []). split; [|done].
  set (req := JArr (map (rpc_call m id) params)). set (body := json_display (JArr (map (answer node m id) params))).
  set (n := (utf8_len body + 1)%Z).
  exists [], (false, [text_of "HTTP/1.1 200 OK"; text_of "Content-Length: " ++ display_usize n; []; body]),
    [text_of "Content-Length: " ++ display_usize n], body.
  destruct (wire_length (Zpos (encode (json_tree (JArr (map (answer node m id) params)))))) as [Hsz Hsplit].
  split_and!; try done.
  - cbn [net_write_all WireNet fst snd app]. do 2 f_equal. unfold response, http_request. rewrite !app_assoc.
    fold req. change (json_display req) with [Zpos (encode (json_tree req))]. rewrite last_snoc.
    change ([Zpos (encode (json_tree req))]) with (json_display req). rewrite wire_json. unfold req.
    rewrite map_map, (map_ext _ (answer node m id)) by (intros; apply respond_call). done.
  - repeat econstructor.
  - apply not_elem_of_cons. split; [done|apply not_elem_of_nil].
  - cbn. lia.
  - unfold collect_headers. cbn [fold_left]. change (split_header (text_of "Content-Length: " ++ display_usize n) = Some (text_of "Content-Length", display_usize n)) in Hsplit.
    rewrite Hsplit. by rewrite lookup_insert_eq.
  - apply wire_json.
Qed.
End wire.

Definition ex_wire_header : BlockHeader := mkHeader 1 null_hash null_hash 0 0 5.
Definition ex_chain_hash : BlockHash := @block_hash ExampleLib ex_wire_header.
Definition ex_node_data : NodeData :=
  mkNodeData {[ex_chain_hash]} (fun _ => mkBlock ex_wire_header []) [ex_chain_hash] ex_chain_hash {[hash_repeat 8]}
    {[hash_repeat 8 := mkTx 2 7 [] []]}.
Definition ex_error : Json := jobj [("code", JInt (-5))].
Definition ex_answer (m : Text) (params : Json) : Json + Json :=
  let named name := bool_decide (m = text_of name) in
  match params with
  | JArr [] => if named "getbestblockhash" then inr (@jhash WireElectrum ex_chain_hash) else inl ex_error
  | JArr [JInt 0] => if named "getblockhash" then inr (@jhash WireElectrum ex_chain_hash) else inl ex_error
  | JArr [JBool false] => if named "getrawmempool" then inr JNull else inl ex_error
  | JArr [JStr h; JBool false] =>
      if named "getblock" then inr (JStr (@serialize_block ExampleLib (mkBlock ex_wire_header [])))
      else if named "getblockheader" then inr (JStr (@serialize_header ExampleLib ex_wire_header))
      else if named "getrawtransaction" then
        match ex_parse h ≫= (fun t => nd_txs ex_node_data !! t) with
        | Some tx => inr (JStr (@serialize_tx ExampleLib tx)) | None => inl ex_error end
      else inl ex_error
  | _ => inl ex_error
  end.
Lemma ex_answers_from :
  @answers_from WireElectrum WireDaemonLib ExampleLib ex_answer ex_node_data.
Proof.
  pose proof (@parse_display_hash _ WireElectrum_laws) as Hp. split.
  - done.
  - intros [|[|i]] h H; cbn in H; simplify_eq. done.
  - cbn. set_solver.
  - done.
  - done.
  - by exists JNull.
  - intros t tx H. cbn -[ex_parse ex_display nd_txs]. pose proof (Hp t) as Ht. cbn -[ex_parse ex_display] in Ht. rewrite Ht. cbn [mbind option_bind].
    by rewrite H.
  - intros t H. exists ex_error. cbn -[ex_parse ex_display nd_txs]. pose proof (Hp t) as Ht. cbn -[ex_parse ex_display] in Ht. rewrite Ht. cbn [mbind option_bind].
    by rewrite H.
Qed.
Lemma ex_errors m params err : ex_answer m params = inl err -> exists code, parse_error_code err = Some code /\ code <> (-28)%Z.
Proof.
  intros H. assert (err = ex_error) as -> by (unfold ex_answer in H; repeat case_match; simplify_eq; done).
  exists (-5)%Z. done.
Qed.
Definition ex_wire : DaemonState WireWorld := mkDaemonState (false, []) 0 0.
Definition ex_wire_down : DaemonState WireWorld := mkDaemonState (true, []) 0 0.

Lemma client_fetches_node_witness :
  exists s', @getblocks WireWorld (WireNet ex_answer) 10 WireElectrum WireDaemonLib ExampleLib [ex_chain_hash; ex_chain_hash] ex_wire =
    (s', Ok [mkBlock ex_wire_header []; mkBlock ex_wire_header []]).
Proof.
  destruct (@client_fetches_node WireWorld (WireNet ex_answer) 10 WireElectrum WireElectrum_laws WireDaemonLib
    WireDaemon_laws ExampleLib ExampleLib_laws ex_answer (fun w => w = (false, []))
    (wire_bitcoind ex_answer ex_errors) ex_node_data ex_answers_from ex_daemon ex_wire eq_refl) as (_ & _ & H & _).
  destruct (H [ex_chain_hash; ex_chain_hash]) as (s' & _ & Heq).
  - repeat constructor; apply elem_of_singleton_2; reflexivity.
  - exists s'. exact Heq.
Defined.

Lemma batch_accounts_replies_witness :
  exists s', @handle_request_batch WireWorld (WireNet ex_answer) 10 WireElectrum WireDaemonLib "getblockhash"
    [JArr [JInt 0]; JArr [JInt 9]; JArr [JInt 0]] f64_quarter ex_wire =
    (s', Ok [@jhash WireElectrum ex_chain_hash; @jhash WireElectrum ex_chain_hash]).
Proof.
  destruct (@batch_accounts_replies WireWorld (WireNet ex_answer) 10 WireElectrum WireDaemonLib "getblockhash"
    [JArr [JInt 0]; JArr [JInt 9]; JArr [JInt 0]] f64_quarter ex_wire) as (H & _).
  eexists. apply H. eexists. split_and!.
  - eapply exchanged_cons; [|apply exchanged_nil].
    apply (@call_answers WireWorld (WireNet ex_answer) 10 WireElectrum WireDaemonLib ex_answer (text_of "getblockhash") 1
      [JArr [JInt 0]; JArr [JInt 9]; JArr [JInt 0]] (tick ex_wire) (false, [])).
    destruct (bn_answers _ _ _ (wire_bitcoind ex_answer ex_errors) (false, []) (text_of "getblockhash") 1%Z
      [JArr [JInt 0]; JArr [JInt 9]; JArr [JInt 0]]) as (w' & Ha & ->); [done|done|]. exact Ha.
  - apply (bool_decide_unpack _). vm_compute. exact I.
  - vm_compute. reflexivity.
Defined.

Lemma retry_survives_disconnects_witness :
  exists s', @retry_request_batch WireWorld (WireNet ex_answer) 10 WireElectrum WireDaemonLib "getblockhash" [JArr [JInt 0]] f64_zero ex_wire_down =
    (s', Ok [@jhash WireElectrum ex_chain_hash]).
Proof.
  destruct (@retry_survives_disconnects WireWorld (WireNet ex_answer) WireElectrum WireDaemonLib 10 "getblockhash" [JArr [JInt 0]] f64_zero)
    as (H & _).
  destruct (@batch_node WireWorld (WireNet ex_answer) 10 WireElectrum WireDaemonLib ex_answer _ (wire_bitcoind ex_answer ex_errors)
    "getblockhash" [JArr [JInt 0]] f64_zero (mkDaemonState (false, []) 1 0) eq_refl) as (s' & _ & Heq).
  exists s'. apply (H 1); [|lia]. eapply recovers_again; [vm_compute; reflexivity|reflexivity|reflexivity|].
  apply recovers_done; [exact Heq|]. intros [msg Hm]. discriminate Hm.
Defined.
