(* ===== verification/Precache.v ===== *)
(** * [new_index/precache.rs]: filling the caches ahead of time

    At start-up the statistics and the unspent outputs of popular scripts can be
    computed once so that their cache entries are there when clients ask.  The scripts
    are taken in the order in which the thread pool gets to them; a script's two queries
    read and write entries of that script only. *)

From S2P Require Import Prelude Iter RocksDB DB Bitcoin HeaderList Rows Fetch Indexer.
From S2P Require Import IndexerSync ChainQuery ChainView ScriptStats ScriptUtxo Text.

Definition usize_max : Z := (u64_mod - 1)%Z.

Section precache.
Context {D : Type} {RDB : RocksDB D} {BL : BitcoinLib} {W : Wincode}.
Implicit Types (q : ChainQuery D).

(** The result of [utxo] is dropped, its error as well. *)
Definition precache_script q (scripthash : FullHash) : result (ChainQuery D) :=
  r ← stats q scripthash;
  let q := with_cache q r.2 in
  match utxo q scripthash usize_max with
  | Ok r => Ok (with_cache q r.2)
  | Err _ => Ok q
  | Panic => Panic
  | Diverge => Diverge
  end.
Fixpoint precache q (scripthashes : list FullHash) : result (ChainQuery D) :=
  match scripthashes with
  | [] => Ok q
  | scripthash :: scripthashes => q ← precache_script q scripthash; precache q scripthashes
  end.

(** The lines of the file, [None] for one that cannot be read; [full_hash] takes the
    first 32 bytes and panics when there are fewer. *)
Definition scripthash_line (unhex : Text -> option Bytes) (line : option Text) : result FullHash :=
  line ← ok_or (Msg "cannot read scripthash line") line;
  bytes ← ok_or (Msg "invalid hex") (unhex line);
  unwrap (mk_hash (take 32 bytes)).
Definition scripthashes_from_file (unhex : Text -> option Bytes) (file : option (list (option Text))) : result (list FullHash) :=
  lines ← ok_or (Msg "cannot open precache scripthash file") file;
  rmap (scripthash_line unhex) lines.
End precache.

(** ** The caches stay valid *)

Section transparent.
Context {D : Type} {RDB : RocksDB D} {RDBL : RocksDBLaws D}.
Context {BL : BitcoinLib} {BLaws : BitcoinLaws} {W : Wincode} {WL : WincodeLaws}.
Context (cfg : IndexerConfig) (block_of : BlockHash -> Block).
Implicit Types (q : ChainQuery D).

(** Every entry is right for the history of its script. *)
Definition caches_ok q : Prop := forall sh rows, history_view cfg block_of q sh rows ->
  stats_cache_ok q sh rows /\ utxo_cache_ok q sh rows.
Definition cache_get q (k : Bytes) : option Bytes := db_get (cache_db (cq_store q)) k.

Lemma with_cache_synced q c : query_synced cfg block_of q -> query_synced cfg block_of (with_cache q c).
Proof. intros [? ? ? ? ? ?]. by split. Qed.
Lemma with_cache_view q c sh rows :
  history_view cfg block_of (with_cache q c) sh rows -> history_view cfg block_of q sh rows.
Proof. intros [H1 H2 H3]. split; [exact H1|exact H2|exact H3]. Qed.
Lemma with_cache_twice q c c' : with_cache (with_cache q c) c' = with_cache q c'.
Proof. done. Qed.

Lemma write_keeps (c : D) r k : is_Some (db_get c k) -> is_Some (db_get (db_write c [r]) k).
Proof.
  intros Hk. destruct (decide (dbr_key r = k)) as [<-|Hne]; [by exists (dbr_value r); apply get_db_write_one|].
  unfold db_get. rewrite get_db_write_other; [done|]. by intros r' ->%list_elem_of_singleton.
Qed.
(** A query writes at most the entry of its script. *)
Lemma stats_writes q sh st c' : stats q sh = Ok (st, c') ->
  forall k, k <> stats_cache_key sh -> db_get c' k = cache_get q k.
Proof.
  unfold stats. intros H k Hk. apply bind_Ok in H as (cache & _ & H). apply bind_Ok in H as ([ns lb] & _ & H). injection H as _ <-.
  unfold cache_get. destruct lb; [|done]. case_decide; [|done].
  apply get_db_write_other. intros r ->%list_elem_of_singleton Heq. apply Hk. symmetry. exact Heq.
Qed.
Lemma utxo_writes q sh limit l c' : utxo q sh limit = Ok (l, c') ->
  forall k, k <> utxo_cache_key sh -> db_get c' k = cache_get q k.
Proof.
  unfold utxo, utxo_set. intros H k Hk. apply bind_Ok in H as ([m c1] & H & [= _ <-]).
  apply bind_Ok in H as (cache & _ & H). apply bind_Ok in H as ([[nu lb] n] & _ & H). injection H as _ <-.
  unfold cache_get. destruct lb; [|done]. destruct (_ || _); [|done].
  apply get_db_write_other. intros r ->%list_elem_of_singleton Heq. apply Hk. symmetry. exact Heq.
Qed.
Lemma cache_keys_inj sh sh' : (stats_cache_key sh = stats_cache_key sh' -> sh = sh') /\
  (utxo_cache_key sh = utxo_cache_key sh' -> sh = sh') /\ stats_cache_key sh <> utxo_cache_key sh'.
Proof.
  unfold stats_cache_key, utxo_cache_key. cbn. split_and!; [intros [= H]|intros [= H]|discriminate]; by apply as_bytes_inj.
Qed.
(** With one entry replaced by a right one, the caches are still valid. *)
Lemma caches_stats q sh rows st c' : caches_ok q -> stats q sh = Ok (st, c') -> history_view cfg block_of q sh rows ->
  stats_cache_ok (with_cache q c') sh rows -> caches_ok (with_cache q c').
Proof.
  intros Hc Hst Hv Hok sh' rows' Hv'%with_cache_view. pose proof (stats_writes q sh st c' Hst) as Hw. destruct (Hc sh' rows' Hv') as [Hs Hu]. split.
  - destruct (decide (sh' = sh)) as [->|Hne]; [by rewrite <- (history_view_unique cfg block_of q sh rows rows' Hv Hv')|].
    intros c Hget. cbn in Hget. rewrite Hw in Hget; [by apply Hs|]. intros H. by apply Hne, (proj1 (cache_keys_inj sh' sh)).
  - intros c Hget. cbn in Hget. rewrite Hw in Hget; [by apply Hu|]. intros H. symmetry in H. by apply (proj2 (proj2 (cache_keys_inj sh sh'))) in H.
Qed.
Lemma caches_utxo q sh rows limit l c' : caches_ok q -> utxo q sh limit = Ok (l, c') -> history_view cfg block_of q sh rows ->
  utxo_cache_ok (with_cache q c') sh rows -> caches_ok (with_cache q c').
Proof.
  intros Hc Hst Hv Hok sh' rows' Hv'%with_cache_view. pose proof (utxo_writes q sh limit l c' Hst) as Hw.
  destruct (Hc sh' rows' Hv') as [Hs Hu]. split.
  - intros c Hget. cbn in Hget. rewrite Hw in Hget; [by apply Hs|]. by apply (proj2 (proj2 (cache_keys_inj sh' sh))).
  - destruct (decide (sh' = sh)) as [->|Hne]; [by rewrite <- (history_view_unique cfg block_of q sh rows rows' Hv Hv')|].
    intros c Hget. cbn in Hget. rewrite Hw in Hget; [by apply Hu|]. intros H. by apply Hne, (proj1 (proj2 (cache_keys_inj sh' sh))).
Qed.

(** ** The entries are there *)

Definition worth_caching (st : ScriptStats) : Prop :=
  (MIN_HISTORY_ITEMS_TO_CACHE < wrap64 (funded_txo_count st + spent_txo_count st))%Z.
Lemma stats_loop_lastblock rows : forall st seen bh st' lb, stats_loop st seen (Some bh) rows = Ok (st', lb) -> lb <> None.
Proof.
  induction rows as [|item rows IH]; intros st seen bh st' lb H; cbn in H; [by injection H as _ <-|].
  apply bind_Ok in H as ([h b] & _ & H). by eapply IH.
Qed.
Lemma stats_leaves_entry q sh st c' : stats q sh = Ok (st, c') -> worth_caching st -> is_Some (db_get c' (stats_cache_key sh)).
Proof.
  unfold stats. intros H Hw. apply bind_Ok in H as (cache & Hcache & H). apply bind_Ok in H as ([ns lb] & Hd & H). injection H as -> <-.
  destruct lb as [bh|].
  - rewrite decide_True by exact Hw. pose proof (get_db_write_one (cache_db (cq_store q)) (stats_cache_row sh st bh)) as Hg.
    by exists (dbr_value (stats_cache_row sh st bh)).
  - unfold stats_cached in Hcache. destruct (db_get (cache_db (cq_store q)) (stats_cache_key sh)) as [c|] eqn:E; [by exists c|].
    injection Hcache as <-. unfold stats_delta in Hd. destruct (confirmed_rows q sh 0) as [|item rest]; cbn in Hd.
    + injection Hd as <-. by vm_compute in Hw.
    + apply bind_Ok in Hd as ([h b] & _ & Hd). by apply stats_loop_lastblock in Hd.
Qed.
(** The entry a query writes for its script replaces the one that was there. *)
Lemma stats_keeps q sh st c' k : stats q sh = Ok (st, c') -> is_Some (cache_get q k) -> is_Some (db_get c' k).
Proof.
  unfold stats. intros H Hk. apply bind_Ok in H as (cache & _ & H). apply bind_Ok in H as ([ns lb] & _ & H). injection H as _ <-.
  destruct lb as [bh|]; [|done]. case_decide; [|done]. by apply write_keeps.
Qed.
Lemma utxo_keeps q sh limit l c' k : utxo q sh limit = Ok (l, c') -> is_Some (cache_get q k) -> is_Some (db_get c' k).
Proof.
  unfold utxo, utxo_set. intros H Hk. apply bind_Ok in H as ([m c1] & H & [= _ <-]).
  apply bind_Ok in H as (cache & _ & H). apply bind_Ok in H as ([[nu lb] n] & _ & H). injection H as _ <-.
  destruct lb; [|done]. destruct (_ || _); [|done]. by apply write_keeps.
Qed.

Lemma precache_script_spec q sh rows : query_synced cfg block_of q -> (Z.of_nat (length (headers (cq_headers q))) < u32_mod)%Z ->
  caches_ok q -> history_view cfg block_of q sh rows ->
  exists c, precache_script q sh = Ok (with_cache q c) /\ caches_ok (with_cache q c) /\
    (forall k, is_Some (cache_get q k) -> is_Some (db_get c k)) /\
    (worth_caching (stats_of rows) -> is_Some (db_get c (stats_cache_key sh))).
Proof.
  intros Hs Hlen Hc Hv. destruct (Hc sh rows Hv) as [Hsc _].
  destruct (stats_transparent cfg block_of q sh rows Hs Hv Hsc Hlen) as (c1 & Hst & Hok).
  pose proof (caches_stats q sh rows _ c1 Hc Hst Hv Hok) as Hc1.
  assert (history_view cfg block_of (with_cache q c1) sh rows) as Hv1 by (destruct Hv as [H1 H2 H3]; split; [exact H1|exact H2|exact H3]).
  destruct (Hc1 sh rows Hv1) as [_ Hu1].
  destruct (utxo_transparent cfg block_of (with_cache q c1) sh rows usize_max (with_cache_synced q c1 Hs) Hv1 Hu1 Hlen) as [_ Hut].
  unfold precache_script. rewrite Hst. cbn [mbind result_bind snd].
  destruct (utxo (with_cache q c1) sh usize_max) as [[l c2]|e| |] eqn:Eu.
  - exists c2. rewrite with_cache_twice. split; [done|]. split_and!.
    + apply (caches_utxo (with_cache q c1) sh rows usize_max l c2 Hc1 Eu Hv1).
      unfold utxo in Eu. destruct (utxo_set _ _ _) as [[m c3]| | |]; [|done..]. injection Eu as _ <-. by apply Hut.
    + intros k Hk. eapply utxo_keeps; [exact Eu|]. by eapply stats_keeps.
    + intros Hw. eapply utxo_keeps; [exact Eu|]. by eapply stats_leaves_entry.
  - exists c1. split_and!; [done..| |].
    + intros k Hk. by eapply stats_keeps.
    + intros Hw. by eapply stats_leaves_entry.
  - unfold utxo in Eu. by destruct (utxo_set _ _ _) as [[m c3]| | |].
  - unfold utxo in Eu. by destruct (utxo_set _ _ _) as [[m c3]| | |].
Qed.
(** Filling the caches never fails and changes nothing but the caches, which stay valid,
    so that every query answers as before; and the statistics of every listed script
    with enough history have an entry afterwards. *)
Lemma precache_transparent hashes q : query_synced cfg block_of q -> (Z.of_nat (length (headers (cq_headers q))) < u32_mod)%Z ->
  caches_ok q ->
  exists c, precache q hashes = Ok (with_cache q c) /\ caches_ok (with_cache q c) /\
    (forall k, is_Some (cache_get q k) -> is_Some (db_get c k)) /\
    (forall sh rows, sh ∈ hashes -> history_view cfg block_of q sh rows -> worth_caching (stats_of rows) ->
      is_Some (db_get c (stats_cache_key sh))).
Proof.
  revert q. induction hashes as [|sh hashes IH]; intros q Hs Hlen Hc.
  - exists (cache_db (cq_store q)). assert (with_cache q (cache_db (cq_store q)) = q) as -> by (by destruct q as [[]]).
    split_and!; [done..|set_solver].
  - destruct (history_view_exists cfg block_of q sh Hs) as [rows Hv].
    destruct (precache_script_spec q sh rows Hs Hlen Hc Hv) as (c1 & Hp & Hc1 & Hk1 & He1).
    destruct (IH (with_cache q c1)) as (c & Hpc & Hcc & Hk & He); [by apply with_cache_synced|done|done|].
    exists c. cbn [precache]. rewrite Hp. cbn [mbind result_bind]. rewrite Hpc, with_cache_twice. split_and!; [done..| |].
    + intros k H. by apply Hk, Hk1.
    + intros sh' rows' [->|Hin]%elem_of_cons Hv' Hw.
      * apply Hk, He1. by rewrite (history_view_unique cfg block_of q sh rows rows' Hv Hv').
      * apply (He sh' rows' Hin); [|done]. destruct Hv' as [H1 H2 H3]. split; [exact H1|exact H2|exact H3].
Qed.
End transparent.
