(* ===== verification/Popular.v ===== *)
(** * [bin/popular-scripts.rs]: the scripts with long histories

    The tool scans the history rows in sections, one thread for each, and prints the
    scripts with at least a threshold of rows.  Where every section is entered by some row
    and some row follows the histories, it prints exactly those scripts, once each
    ([popular_scripts_exact]); without that a script is printed twice
    ([empty_section_repeats]) or the last one is not printed at all ([last_script_lost]). *)

From S2P Require Import Prelude RocksDB Bitcoin HeaderList.

(** ** The tool *)

(** [bytes]: the first bytes of the sections; [u8::is_multiple_of(0)] holds of 0 only. *)
Definition u8_multiple_of (n m : Z) : bool := if (m =? 0)%Z then (n =? 0)%Z else (n mod m =? 0)%Z.
Definition section_bytes (thread_count : Z) : result (list Z) :=
  if (thread_count =? 0)%Z then Panic
  else let increment := (256 / thread_count)%Z in Ok (filter (fun n => u8_multiple_of n (increment mod 256) = true) (seqZ 0 256)).
Fixpoint sections (bytes : list Z) : list (Z * option Z) :=
  match bytes with [] => [] | first_byte :: bytes => (first_byte, head bytes) :: sections bytes end.

Section tool.
Context {D : Type} {RDB : RocksDB D} (high_usage_threshold : nat).

Definition send_if_popular (total_entries : nat) (curr_scripthash : FullHash) : list FullHash :=
  if high_usage_threshold <=? total_entries then [curr_scripthash] else [].
Definition is_finished (next_byte : option Z) (key : Bytes) : bool :=
  match next_byte with Some next => starts_with key [72; next]%Z | None => negb (starts_with key [72%Z]) end.
(** [key[1..33].try_into().unwrap()] *)
Definition entry_hash (key : Bytes) : result FullHash := unwrap (mk_hash (take 32 (drop 1 key))).
(** The loop over the keys; what is sent, in order.  The loop also ends when the
    iterator does, and then nothing more is sent. *)
Fixpoint visit (next_byte : option Z) (keys : list Bytes) (curr_scripthash : FullHash) (total_entries : nat) : result (list FullHash) :=
  match keys with
  | [] => Ok []
  | key :: keys =>
      if bool_decide (head key <> Some 72%Z) || is_finished next_byte key then Ok (send_if_popular total_entries curr_scripthash)
      else
        entry ← entry_hash key;
        if bool_decide (curr_scripthash <> entry) then
          rest ← visit next_byte keys entry 1;
          Ok (send_if_popular total_entries curr_scripthash ++ rest)
        else visit next_byte keys curr_scripthash (total_entries + 1)
  end.
Definition run_iterator (db : D) (s : Z * option Z) : result (list FullHash) :=
  visit s.2 (map fst (rdb_iter_from db [72; s.1]%Z)) null_hash 0.
(** What the threads send; the receiver prints it in some order. *)
Definition popular_scripts (db : D) (thread_count : Z) : result (list FullHash) :=
  bytes ← section_bytes thread_count;
  sent ← rmap (run_iterator db) (sections bytes);
  Ok (concat sent).
End tool.

(** ** Counting runs *)

Section runs.
Context (threshold : nat) (Hpos : 0 < threshold).
Definition hash_le (h h' : FullHash) : Prop := bytes_le (as_bytes h) (as_bytes h').
Definition count (h : FullHash) (hs : list FullHash) : nat := length (filter (fun x => x = h) hs).
Fixpoint tally (hs : list FullHash) (curr : FullHash) (total : nat) : list FullHash :=
  match hs with
  | [] => send_if_popular threshold total curr
  | h :: hs => if bool_decide (curr <> h) then send_if_popular threshold total curr ++ tally hs h 1 else tally hs curr (total + 1)
  end.
Lemma send_elem total curr h : h ∈ send_if_popular threshold total curr <-> h = curr /\ threshold <= total.
Proof. unfold send_if_popular. destruct (Nat.leb_spec threshold total); [rewrite list_elem_of_singleton|rewrite elem_of_nil]; lia || naive_solver lia. Qed.
Lemma count_cons h x hs : count h (x :: hs) = (if decide (x = h) then 1 else 0) + count h hs.
Proof. unfold count. rewrite filter_cons. by case_decide. Qed.
Lemma count_notin h hs : h ∉ hs -> count h hs = 0.
Proof. intros Hn. unfold count. rewrite filter_none; [done|]. by intros x Hx ->. Qed.
(** In sorted runs each hash is sent once, when it has enough entries. *)
Lemma tally_spec hs : forall curr total, StronglySorted hash_le (curr :: hs) ->
  NoDup (tally hs curr total) /\ forall h, h ∈ tally hs curr total <-> threshold <= (if decide (h = curr) then total else 0) + count h hs.
Proof using Hpos.
  induction hs as [|x hs IH]; intros curr total Hs.
  - cbn. split; [unfold send_if_popular; case_match; repeat constructor; set_solver|]. intros h. rewrite send_elem. unfold count. cbn.
    case_decide; [naive_solver lia|]. split; [naive_solver|lia].
  - apply StronglySorted_cons in Hs as [Hf Hs]. cbn [tally]. case_bool_decide as Hne.
    + destruct (IH x 1 Hs) as [Hnd Hel]. assert (curr ∉ x :: hs) as Hn.
      { intros Hin. apply elem_of_cons in Hin as [|Hin]; [done|]. apply StronglySorted_cons in Hs as [Hf' _].
        apply Hne, as_bytes_inj, (anti_symm bytes_le); [by apply (Forall_cons_1 _ _ _ Hf)|by apply (proj1 (Forall_forall _ _) Hf')]. }
      split.
      * apply NoDup_app. split_and!; [unfold send_if_popular; case_match; repeat constructor; set_solver| |done].
        intros h [-> _]%send_elem Hin%Hel. rewrite decide_False in Hin by done. rewrite count_notin in Hin by set_solver. lia.
      * intros h. rewrite elem_of_app, send_elem, Hel, count_cons. destruct (decide (h = curr)) as [->|].
        -- rewrite !decide_False by (done || by intros ->). rewrite count_notin by set_solver. naive_solver lia.
        -- destruct (decide (h = x)) as [->|]; [rewrite decide_True by done|rewrite decide_False by done]; naive_solver lia.
    + assert (curr = x) as -> by (destruct (decide (curr = x)); tauto). destruct (IH x (total + 1) Hs) as [Hnd Hel]. split; [done|].
      intros h. rewrite Hel, count_cons. destruct (decide (h = x)) as [->|]; [rewrite decide_True by done; lia|rewrite decide_False by done; lia].
Qed.
End runs.

(** ** A section of the keys *)

(** The first place where a test holds splits a list. *)
Lemma first_split {A} (f : A -> bool) l x : x ∈ l -> f x = true ->
  exists l1 y l2, l = l1 ++ y :: l2 /\ f y = true /\ forall z, z ∈ l1 -> f z = false.
Proof.
  induction l as [|y l IH]; [by intros ?%elem_of_nil|]. intros Hin Hx. destruct (f y) eqn:Ey; [exists [], y, l; split_and!; [done..|by intros ? ?%elem_of_nil]|].
  destruct IH as (l1 & z & l2 & -> & Hz & Hl); [by apply elem_of_cons in Hin as [->|]; [congruence|]|done|]. exists (y :: l1), z, l2.
  split_and!; [done..|]. intros w [->|Hw]%elem_of_cons; auto.
Qed.
(** In a sorted list what lies before an element of the first part is in the first part. *)
Lemma sorted_before l1 (y : Bytes) l2 a b : StronglySorted bytes_lt (l1 ++ y :: l2) -> a ∈ l1 -> b ∈ l1 ++ y :: l2 -> bytes_lt b a -> b ∈ l1.
Proof.
  intros Hs Ha Hb Hlt. apply elem_of_app in Hb as [|Hb]; [done|exfalso]. apply StronglySorted_app in Hs as (Hs & _ & _).
  apply (irreflexivity bytes_lt a). transitivity b; [by apply Hs|done].
Qed.
Definition bytes_ok (l : Bytes) : Prop := Forall (fun b => (0 <= b < 256)%Z) l.
Lemma zeros_least n l : length l = n -> bytes_ok l -> bytes_le (replicate n 0%Z) l.
Proof.
  intros <-. induction 1 as [|b l Hb _ IH]; [reflexivity|]. unfold bytes_le in *. cbn. destruct b; [exact IH|discriminate|lia].
Qed.
(** A history key: [H], the hash of a script, and more. *)
Definition history_key (sh : FullHash) (key : Bytes) : Prop := exists rest, key = 72%Z :: as_bytes sh ++ rest.
Lemma entry_hash_key sh key : history_key sh key -> entry_hash key = Ok sh.
Proof. intros [rest ->]. unfold entry_hash. change (drop 1 (72%Z :: as_bytes sh ++ rest)) with (as_bytes sh ++ rest). rewrite take_app_length' by (symmetry; apply as_bytes_length). by rewrite mk_hash_as_bytes. Qed.
Definition first_of (sh : FullHash) : Z := default 0%Z (head (as_bytes sh)).
Lemma hash_first sh : exists rest, as_bytes sh = first_of sh :: rest.
Proof. unfold first_of. pose proof (as_bytes_length sh). destruct (as_bytes sh) as [|b rest]; [done|]. by exists rest. Qed.
Lemma history_key_first sh key : history_key sh key -> exists rest, key = 72%Z :: first_of sh :: rest.
Proof. intros [r ->]. destruct (hash_first sh) as [s ->]. cbn. eauto. Qed.
Lemma bytes_lt_two a b x y : bytes_lt (a :: x) (b :: y) <-> (a < b)%Z \/ a = b /\ bytes_lt x y.
Proof. unfold bytes_lt. cbn. destruct (Z.compare_spec a b); naive_solver lia. Qed.
Lemma hash_order sh sh' key key' : history_key sh key -> history_key sh' key' -> bytes_lt key key' -> hash_le sh sh'.
Proof.
  intros [r ->] [r' ->] Hlt. unfold bytes_lt in Hlt. cbn in Hlt. rewrite bcmp_app_r in Hlt by (by rewrite !as_bytes_length).
  unfold hash_le, bytes_le. by destruct (bcmp (as_bytes sh) (as_bytes sh')).
Qed.

Section exactness.
Context {D : Type} {RDB : RocksDB D} {RDBL : RocksDBLaws D} (db : D).
Definition has_key (key : Bytes) : Prop := is_Some (rdb_get db key).
(** The keys under [H] are those of histories, and the bytes are bytes. *)
Context (Hkeys : forall key, has_key key -> head key = Some 72%Z -> exists sh, history_key sh key /\ bytes_ok (as_bytes sh)).
(** Some key follows the histories. *)
Context (after : Bytes) (Hafter : has_key after /\ exists b rest, after = b :: rest /\ (72 < b)%Z).

Definition keys_from (start : Bytes) : list Bytes := map fst (rdb_iter_from db start).
Lemma keys_from_sorted start : StronglySorted bytes_lt (keys_from start).
Proof using RDBL. unfold keys_from. pose proof (iter_from_sorted db start) as Hs. induction Hs as [|p l _ IH Hf]; cbn; constructor; [done|]. by apply Forall_map. Qed.
Lemma keys_from_elem start key : key ∈ keys_from start <-> has_key key /\ bytes_le start key.
Proof using RDBL.
  unfold keys_from, has_key. rewrite elem_of_map. split.
  - intros ([k v] & -> & [Hg Hle]%iter_from_elem). eauto.
  - intros [[v Hv] Hle]. exists (key, v). split; [done|]. by apply iter_from_elem.
Qed.
(** The number of rows of a script. *)
Definition rows_of (sh : FullHash) : nat := length (filter (fun key => starts_with key (72%Z :: as_bytes sh) = true) (keys_from [72%Z])).

(** A section ends at a key that starts with the next byte, if there is one. *)
Definition entered (s : Z * option Z) : Prop := match s.2 with Some next => (s.1 < next)%Z /\ exists rest, has_key (72 :: next :: rest)%Z | None => True end.
Definition in_section (s : Z * option Z) (sh : FullHash) : Prop := (s.1 <= first_of sh)%Z /\ match s.2 with Some next => (first_of sh < next)%Z | None => True end.
Definition stops (next : option Z) (key : Bytes) : bool := bool_decide (head key <> Some 72%Z) || is_finished next key.
Lemma stops_history next sh key : history_key sh key -> stops next key = match next with Some n => (n =? first_of sh)%Z | None => false end.
Proof.
  intros (rest & ->)%history_key_first. unfold stops.
  rewrite bool_decide_false by (cbn; congruence). destruct next as [n|]; cbn [orb is_finished starts_with].
  - rewrite Z.eqb_refl. replace (starts_with rest []) with true by (by destruct rest). by rewrite andb_true_r.
  - done.
Qed.
Lemma from_first first sh key : history_key sh key -> bytes_le [72; first]%Z key <-> (first <= first_of sh)%Z.
Proof.
  intros (rest & ->)%history_key_first. rewrite <- bytes_not_lt, !bytes_lt_two. split; [|intros ? [?|[_ [?|[_ Hl]]]]; [lia|lia|by destruct rest]].
  intros Hn. destruct (Z.le_gt_cases first (first_of sh)) as [|Hgt]; [done|]. destruct Hn. right. split; [done|by left].
Qed.
(** A key at which a section stops is after the keys of the section. *)
Lemma stop_after s sh key stop : has_key stop -> bytes_le [72; s.1]%Z stop -> stops s.2 stop = true -> history_key sh key -> in_section s sh -> bytes_lt key stop.
Proof using Hkeys.
  intros Hs Hle Hstop Hk [_ Hin]. destruct (decide (head stop = Some 72%Z)) as [Hh|Hh].
  - destruct (Hkeys stop Hs Hh) as (sh' & Hk' & _). rewrite (stops_history _ sh' stop Hk') in Hstop. destruct s as [first [next|]]; [|done]. cbn in *.
    apply Z.eqb_eq in Hstop as ->. apply history_key_first in Hk as (r & ->). apply history_key_first in Hk' as (r' & ->). rewrite !bytes_lt_two. lia.
  - apply history_key_first in Hk as (r & ->). destruct stop as [|b stop]; [by apply bytes_not_lt in Hle|]. apply bytes_lt_two. left.
    apply bytes_not_lt in Hle. rewrite bytes_lt_two in Hle. cbn in Hh. assert (b <> 72%Z) by congruence. lia.
Qed.
Lemma section_split s : entered s -> (0 <= s.1)%Z -> exists sec stop rest, keys_from [72; s.1]%Z = sec ++ stop :: rest /\ stops s.2 stop = true /\
  (forall key, key ∈ sec -> stops s.2 key = false) /\
  forall key, key ∈ sec <-> has_key key /\ exists sh, history_key sh key /\ in_section s sh.
Proof using RDBL Hkeys Hafter.
  intros Hent H0. destruct s as [first next]. cbn [fst snd] in *.
  assert (exists k, k ∈ keys_from [72; first]%Z /\ stops next k = true) as (k & Hk & Hst).
  { destruct Hafter as [Ha (b & rest & -> & Hb)]. exists (b :: rest). split; [|unfold stops; cbn; rewrite bool_decide_true by congruence || (intros [= ->]; lia); done].
    apply keys_from_elem. split; [done|]. apply bytes_lt_le, bytes_lt_two. by left. }
  destruct (first_split (stops next) _ k Hk Hst) as (sec & stop & rest & Hsp & Hstop & Hsec). exists sec, stop, rest. split_and!; [done..|].
  pose proof (keys_from_sorted [72; first]%Z) as Hsorted. rewrite Hsp in Hsorted.
  assert (forall x, x ∈ sec ++ stop :: rest <-> has_key x /\ bytes_le [72; first]%Z x) as Hel by (intros x; rewrite <- Hsp; apply keys_from_elem).
  intros key. split.
  - intros Hin. assert (key ∈ sec ++ stop :: rest) as [Hhas Hle]%Hel by (apply elem_of_app; by left). split; [done|]. pose proof (Hsec key Hin) as Hns.
    assert (head key = Some 72%Z) as Hh by (unfold stops in Hns; apply orb_false_iff in Hns as [Hns _]; by apply bool_decide_eq_false in Hns; apply dec_stable).
    destruct (Hkeys key Hhas Hh) as (sh & Hk' & _). exists sh. split; [done|]. split; [by apply (from_first first sh key)|]. cbn.
    rewrite (stops_history next sh key Hk') in Hns. destruct next as [n|]; [|done]. apply Z.eqb_neq in Hns. destruct Hent as [Hfn [r Hn]].
    destruct (Z.lt_ge_cases (first_of sh) n) as [|Hge]; [done|exfalso].
    assert (history_key sh key) as (r' & Ek)%history_key_first by done.
    assert ((72 :: n :: r)%Z ∈ sec) as Hbad.
    { apply (sorted_before sec stop rest key); [done..| |].
      - apply Hel. split; [done|]. apply bytes_lt_le. rewrite !bytes_lt_two. right. split; [done|by left].
      - rewrite Ek, !bytes_lt_two. right. split; [done|]. left. lia. }
    specialize (Hsec _ Hbad). unfold stops in Hsec. cbn [is_finished] in Hsec.
    change (72 :: n :: r)%Z with ([72; n] ++ r)%Z in Hsec. by rewrite starts_with_app, orb_true_r in Hsec.
  - intros (Hhas & sh & Hk' & Hin). assert (key ∈ sec ++ stop :: rest) as Hall by (apply Hel; split; [done|]; apply (from_first first sh key); [done|]; apply Hin).
    assert (has_key stop /\ bytes_le [72; first]%Z stop) as [Hs1 Hs2] by (apply Hel, elem_of_app; right; by left).
    pose proof (stop_after (first, next) sh key stop Hs1 Hs2 Hstop Hk' Hin) as Hlt. apply elem_of_app in Hall as [|Hall]; [done|exfalso].
    apply (irreflexivity bytes_lt key). apply StronglySorted_app in Hsorted as (_ & _ & Hss). apply StronglySorted_cons in Hss as [Hf _].
    apply elem_of_cons in Hall as [->|Hall]; [done|]. transitivity stop; [done|]. by apply (proj1 (Forall_forall _ _) Hf).
Qed.

Lemma history_key_starts sh sh' key : history_key sh' key -> starts_with key (72%Z :: as_bytes sh) = true <-> sh' = sh.
Proof.
  intros [rest ->]. rewrite starts_with_spec. split; [|intros ->; eauto]. intros [r [= E]]. apply as_bytes_inj.
  by apply (app_inj_1 (as_bytes sh') (as_bytes sh) rest r) in E as [? _]; [|by rewrite !as_bytes_length].
Qed.
Lemma visit_tally threshold next sec stop rest hs : Forall2 history_key hs sec -> (forall key, key ∈ sec -> stops next key = false) -> stops next stop = true ->
  forall curr total, visit threshold next (sec ++ stop :: rest) curr total = Ok (tally threshold hs curr total).
Proof.
  intros Hf Hns Hst. induction Hf as [|h key hs sec Hk _ IH]; intros curr total; cbn [app visit tally].
  - unfold stops in Hst. by rewrite Hst.
  - pose proof (Hns key ltac:(by left)) as Hn. unfold stops in Hn. rewrite Hn, (entry_hash_key h key Hk). cbn [mbind result_bind].
    assert (forall key, key ∈ sec -> stops next key = false) as Hns' by (intros; apply Hns; by right). destruct (decide (curr = h)) as [->|Hne].
    + rewrite !bool_decide_false by (intros ?; done). by apply IH.
    + rewrite !bool_decide_true by done. by rewrite (IH Hns').
Qed.
Lemma hashes_of sec : (forall key, key ∈ sec -> exists sh, history_key sh key) -> exists hs, Forall2 history_key hs sec.
Proof.
  induction sec as [|key sec IH]; intros H; [by exists []|]. destruct (H key ltac:(by left)) as [sh Hsh]. destruct IH as [hs Hhs]; [intros; apply H; by right|].
  exists (sh :: hs). by constructor.
Qed.
Lemma hashes_sorted hs sec : Forall2 history_key hs sec -> StronglySorted bytes_lt sec -> StronglySorted hash_le hs.
Proof.
  intros Hf. induction Hf as [|h key hs sec Hk Hf IH]; intros Hs; [constructor|]. apply StronglySorted_cons in Hs as [Hall Hs]. constructor; [by apply IH|].
  apply Forall_forall. intros h' (i & Hi)%list_elem_of_lookup. destruct (Forall2_lookup_l _ _ _ _ _ Hf Hi) as (key' & Hi' & Hk').
  apply (hash_order h h' key key'); [done..|]. apply (proj1 (Forall_forall _ _) Hall). by eapply list_elem_of_lookup_2.
Qed.
Lemma hashes_count hs sec sh : Forall2 history_key hs sec -> count sh hs = length (filter (fun key => starts_with key (72%Z :: as_bytes sh) = true) sec).
Proof.
  induction 1 as [|h key hs sec Hk _ IH]; [done|]. rewrite count_cons, filter_cons, IH. pose proof (history_key_starts sh h key Hk) as Hiff.
  destruct (decide (h = sh)); [rewrite decide_True by (by apply Hiff)|rewrite decide_False by (by intros ?%Hiff)]; done.
Qed.
Lemma bytes_lt_unique l l' : StronglySorted bytes_lt l -> StronglySorted bytes_lt l' -> (forall x, x ∈ l <-> x ∈ l') -> l = l'.
Proof.
  assert (forall k, StronglySorted bytes_lt k -> NoDup k) as Hnd.
  { induction 1 as [|x k _ IH Hf]; constructor; [|done]. intros Hx. apply (irreflexivity bytes_lt x). by apply (proj1 (Forall_forall _ _) Hf). }
  intros H1 H2 He. eapply (StronglySorted_unique_strong bytes_lt); [|done|done|by apply NoDup_Permutation; auto].
  intros x y _ _ Hxy Hyx. destruct (irreflexivity bytes_lt x). by transitivity y.
Qed.

Lemma rows_first sh : 0 < rows_of sh -> (0 <= first_of sh)%Z.
Proof using RDBL Hkeys.
  unfold rows_of. intros Hlen. destruct (filter _ _) as [|key l] eqn:E; [by apply Nat.lt_irrefl in Hlen|]. assert (key ∈ key :: l) as Hin by (by left). rewrite <- E in Hin.
  apply list_elem_of_filter in Hin as [Hst [Hhas _]%keys_from_elem]. apply starts_with_spec in Hst as [r ->]. destruct (Hkeys _ Hhas eq_refl) as (sh' & Hk & Hb).
  assert (sh' = sh) as -> by (apply (history_key_starts sh sh' _ Hk), (starts_with_app (72%Z :: as_bytes sh))). destruct (hash_first sh) as [rest Eh].
  rewrite Eh in Hb. apply Forall_cons in Hb as [? _]. lia.
Qed.
Context (threshold : nat) (Hpos : 0 < threshold).
Lemma run_section s : entered s -> (0 <= s.1)%Z ->
  exists out, run_iterator threshold db s = Ok out /\ NoDup out /\ forall sh, sh ∈ out <-> in_section s sh /\ threshold <= rows_of sh.
Proof using RDBL Hkeys Hafter Hpos.
  intros Hent H0. destruct (section_split s Hent H0) as (sec & stop & rest & Hsp & Hstop & Hns & Hel).
  destruct (hashes_of sec) as [hs Hhs]; [intros key (_ & sh & Hk & _)%Hel; eauto|].
  pose proof (keys_from_sorted [72; s.1]%Z) as Hsorted. rewrite Hsp in Hsorted. apply StronglySorted_app in Hsorted as (_ & Hsorted & _).
  assert (forall h, h ∈ hs -> in_section s h /\ bytes_ok (as_bytes h)) as Hin.
  { intros h (i & Hi)%list_elem_of_lookup. destruct (Forall2_lookup_l _ _ _ _ _ Hhs Hi) as (key & Hi' & Hk). apply list_elem_of_lookup_2 in Hi'.
    apply Hel in Hi' as (Hhas & sh & Hk' & Hs). pose proof (entry_hash_key h key Hk) as E. rewrite (entry_hash_key sh key Hk') in E. injection E as ->. split; [done|].
    assert (head key = Some 72%Z) as Hh by (by destruct Hk as [? ->]). destruct (Hkeys key Hhas Hh) as (sh & Hk2 & Hb).
    pose proof (entry_hash_key h key Hk) as E. rewrite (entry_hash_key sh key Hk2) in E. by injection E as ->. }
  assert (StronglySorted hash_le (null_hash :: hs)) as Hss.
  { constructor; [by apply (hashes_sorted hs sec)|]. apply Forall_forall. intros h [_ Hb]%Hin. apply (zeros_least 32); [apply as_bytes_length|done]. }
  destruct (tally_spec threshold Hpos hs null_hash 0 Hss) as [Hnd Hout]. exists (tally threshold hs null_hash 0). split; [|split; [done|]].
  - unfold run_iterator. fold (keys_from [72; s.1]%Z). rewrite Hsp. by apply visit_tally.
  - intros sh. rewrite Hout. replace (if decide (sh = null_hash) then 0 else 0) with 0 by (by case_decide). cbn [Nat.add].
    assert (in_section s sh -> count sh hs = rows_of sh) as Hc.
    { intros Hs. rewrite (hashes_count hs sec sh Hhs). unfold rows_of. f_equal. apply bytes_lt_unique; [by apply StronglySorted_filter|apply StronglySorted_filter, keys_from_sorted|].
      intros key. rewrite !list_elem_of_filter, Hel, keys_from_elem. split; intros (Hst & Hhas & Hx); (split; [done|]); (split; [done|]).
      - apply starts_with_le. apply starts_with_spec in Hst as [r ->]. apply (starts_with_app [72%Z]).
      - apply starts_with_spec in Hst as [r ->]. exists sh. split; [by exists r|done]. }
    split; [|intros [Hs Hle]; by rewrite Hc]. intros Hle. assert (in_section s sh) as Hs; [|by rewrite <- Hc].
    destruct (decide (sh ∈ hs)) as [Hh|Hh]; [by apply Hin|]. rewrite count_notin in Hle by done. lia.
Qed.

Lemma run_sections bs : StronglySorted Z.lt bs -> Forall (fun b => (0 <= b)%Z) bs -> (forall b, b ∈ tail bs -> exists rest, has_key (72 :: b :: rest)%Z) ->
  exists outs, rmap (run_iterator threshold db) (sections bs) = Ok outs /\ NoDup (concat outs) /\
    forall sh, sh ∈ concat outs <-> (exists b, head bs = Some b /\ (b <= first_of sh)%Z) /\ threshold <= rows_of sh.
Proof using RDBL Hkeys Hafter Hpos.
  induction bs as [|b bs IH]; intros Hs H0 Hk; cbn [sections rmap].
  { exists []. split; [done|]. split; [constructor|]. intros sh. rewrite elem_of_nil. naive_solver. }
  apply StronglySorted_cons in Hs as [Hlt Hs]. apply Forall_cons in H0 as [Hb H0].
  destruct (run_section (b, head bs)) as (out & -> & Hnd & Hout); [|done|].
  { unfold entered. cbn. destruct bs as [|b' bs]; [done|]. split; [by apply Forall_cons in Hlt as [? _]|]. apply Hk. by left. }
  destruct IH as (outs & -> & Hnds & Houts); [done..|intros b' Hb'; apply Hk; destruct bs; [by apply elem_of_nil in Hb'|by right]|].
  cbn. exists (out :: outs). split; [done|]. cbn [concat]. unfold in_section in Hout. cbn [fst snd] in Hout. split.
  - apply NoDup_app. split_and!; [done| |done]. intros sh [[_ Hn] _]%Hout [(b' & Hb' & Hle) _]%Houts. rewrite Hb' in Hn. lia.
  - intros sh. rewrite elem_of_app, Hout, Houts. split.
    + intros [[[Hle _] Hr]|[(b' & Hb' & Hle) Hr]]; (split; [|done]); exists b; (split; [done|]); [done|].
      destruct bs as [|b'' bs]; [done|]. injection Hb' as ->. apply Forall_cons in Hlt as [Hlt _]. lia.
    + intros [(b0 & [= <-] & Hle) Hr]. destruct bs as [|b' bs]; [left; by split|]. cbn in *.
      destruct (Z.lt_ge_cases (first_of sh) b'); [left; by split|right; split; [|done]; exists b'; split; [done|lia]].
Qed.
End exactness.

(** The first bytes of the sections start with 0 and ascend. *)
Lemma section_bytes_ok thread_count : thread_count <> 0%Z -> exists bs, section_bytes thread_count = Ok (0%Z :: bs) /\ StronglySorted Z.lt (0%Z :: bs).
Proof.
  intros H0. unfold section_bytes. rewrite (proj2 (Z.eqb_neq _ _)) by done. set (m := ((256 / thread_count) mod 256)%Z).
  assert (filter (fun n => u8_multiple_of n m = true) (seqZ 0 256) = 0%Z :: filter (fun n => u8_multiple_of n m = true) (seqZ 1 255)) as E.
  { change (seqZ 0 256) with (0%Z :: seqZ 1 255). rewrite filter_cons, decide_True; [done|]. unfold u8_multiple_of. by destruct (m =? 0)%Z. }
  rewrite E. eexists. split; [done|]. rewrite <- E. apply StronglySorted_filter. vm_compute. repeat constructor.
Qed.

(** C36: Let the keys under [H] of the history database be those of histories, some key
    follow them and some history start with the first byte of each section but the first;
    then the scripts printed are exactly those with at least the threshold of rows, each
    once, whatever the number of threads. *)
Theorem popular_scripts_exact {D} `{RDBL : RocksDBLaws D} (db : D) threshold thread_count after :
  0 < threshold -> thread_count <> 0%Z ->
  (forall key, has_key db key -> head key = Some 72%Z -> exists sh, history_key sh key /\ bytes_ok (as_bytes sh)) ->
  (has_key db after /\ exists b rest, after = b :: rest /\ (72 < b)%Z) ->
  (forall bytes b, section_bytes thread_count = Ok bytes -> b ∈ tail bytes -> exists rest, has_key db (72 :: b :: rest)%Z) ->
  exists out, popular_scripts threshold db thread_count = Ok out /\ NoDup out /\ forall sh, sh ∈ out <-> threshold <= rows_of db sh.
Proof.
  intros Hpos Htc Hkeys Hafter Hsec. destruct (section_bytes_ok thread_count Htc) as (bs & Hb & Hs). unfold popular_scripts. rewrite Hb. cbn [mbind result_bind].
  destruct (run_sections db Hkeys after Hafter threshold Hpos (0%Z :: bs)) as (outs & -> & Hnd & Hout); [done| |intros b; by apply (Hsec (0%Z :: bs))|].
  - apply StronglySorted_cons in Hs as [Hf _]. constructor; [done|]. eapply Forall_impl; [exact Hf|]. intros x Hx. cbn in Hx. lia.
  - exists (concat outs). split; [done|]. split; [done|]. intros sh. rewrite Hout. split; [by intros []|]. intros Hle. split; [|done].
    exists 0%Z. split; [done|]. apply (rows_first db Hkeys). lia.
Qed.

(** ** Small databases *)

Definition history_row (p : Z) (i : Z) : Bytes := 72%Z :: as_bytes (pack_hash p) ++ [i].
Definition db_of (keys : list Bytes) : KvMap := list_to_map (map (fun key => (key, [])) keys).
Lemma has_key_db_of keys key : has_key (db_of keys) key -> key ∈ keys.
Proof.
  intros [v Hv]. assert ((key, v) ∈ map (fun key : Bytes => (key, [] : Bytes)) keys) as Hin by (by apply elem_of_list_to_map_2). apply elem_of_map in Hin as (k & [= -> _] & Hk). done.
Qed.
Lemma popular_scripts_exact_witness :
  exists out, popular_scripts 2 (db_of [history_row 5 1; history_row 5 2; history_row 200 1; [72; 128] ++ replicate 31 0 ++ [3]; [83]]%Z) 2 = Ok out /\
    NoDup out /\ pack_hash 5 ∈ out /\ pack_hash 200 ∉ out.
Proof.
  set (db := db_of _). destruct (popular_scripts_exact (D := KvMap) db 2 2 [83%Z]) as (out & Hout & Hnd & Hel).
  - lia.
  - done.
  - intros key Hk%has_key_db_of Hh. rewrite !elem_of_cons, elem_of_nil in Hk. destruct Hk as [->|[->|[->|[->|[->|[]]]]]]; [exists (pack_hash 5)|exists (pack_hash 5)|exists (pack_hash 200)|exists (pack_hash 128)|done].
    all: (split; [eexists; reflexivity|]); repeat constructor; done.
  - split; [by eexists|]. exists 83%Z, []. split; [done|lia].
  - intros bytes b [= <-] Hb. apply list_elem_of_singleton in Hb as ->. exists (replicate 31 0%Z ++ [3%Z]). by eexists.
  - exists out. split_and!; [done..| |].
    + apply Hel. vm_compute. lia.
    + rewrite Hel. vm_compute. lia.
Defined.
(** A section that no history enters is scanned by the thread before it too: with four
    threads and one script, of two rows, the script is printed four times. *)
Lemma empty_section_repeats : (map first_of <$> popular_scripts 2 (db_of [history_row 200 1; history_row 200 2; [83%Z]]) 4) = Ok [200; 200; 200; 200]%Z.
Proof. vm_compute. reflexivity. Qed.
(** When no key follows the histories the last script is not printed. *)
Lemma last_script_lost : let db := db_of [history_row 5 1; history_row 5 2] in
  popular_scripts 2 db 1 = Ok [] /\ rows_of db (pack_hash 5) = 2.
Proof. vm_compute. by split. Qed.
