(* ===== verification/Server.v ===== *)
(** * [bin/electrs.rs]: the server as a whole

    After start-up one thread runs the loop of [run_server]: it brings the index up to
    bitcoind's tip, tells the watchers, brings the mempool up to bitcoind's, tells the
    watchers what changed, and wakes the Electrum server; the other threads only read
    the shared query or add single transactions to its mempool.  The store that the
    indexer writes is the one the query reads. *)

From S2P Require Import Prelude Iter RocksDB DB Bitcoin HeaderList Rows Fetch Indexer IndexerSync ChainQuery ChainView.
From S2P Require Import ChainBlocks ChainHistory ScriptStats ScriptUtxo Mempool MempoolIndex MempoolUpdate MempoolQueries.
From S2P Require Import Query QueryFacts Text Json Electrum Sigops RestValues Rest RestFacts Mwck MwckFacts MwckTip.

(** The shared query, the mode of the indexer, the hub, the tip seen last, and how often
    the Electrum server was told to update its clients. *)
Record ServerState (D : Type) := mkServer {
  sv_query : Query D; sv_flush : DBFlush; sv_from : FetchFrom; sv_hub : MwckHub; sv_tip : BlockHash; sv_notified : nat }.
Arguments mkServer {D} _ _ _ _ _ _.
Arguments sv_query {D} _. Arguments sv_flush {D} _. Arguments sv_from {D} _.
Arguments sv_hub {D} _. Arguments sv_tip {D} _. Arguments sv_notified {D} _.

Section server.
Context {D : Type} {RDB : RocksDB D} {BL : BitcoinLib} {W : Wincode}.
Context {EL : ElectrumLib} {SL : ScriptLib} {TS : TxSize}.
Context (cfg : RestConfig) (iconfig : IndexerConfig).
Implicit Types (q : Query D) (s : ServerState D).
Abbreviation network := (network_type (rc_query cfg)).
Abbreviation mconfig := (rc_mempool cfg).

Definition fetch_from (jsonrpc_import : bool) (store : Store D) : FetchFrom :=
  if jsonrpc_import || done_initial_sync store then Bitcoind else BlkFiles.

Definition set_chain_store q (store : Store D) : Query D :=
  mkQuery (mkChainQuery store (cq_daemon (q_chain q)) (cq_light_mode (q_chain q)))
    (q_mempool q) (cached_estimates q) (cached_relayfee q).
Definition set_query q s : ServerState D := mkServer q (sv_flush s) (sv_from s) (sv_hub s) (sv_tip s) (sv_notified s).
Definition set_hub (hub : MwckHub) s : ServerState D :=
  mkServer (sv_query s) (sv_flush s) (sv_from s) hub (sv_tip s) (sv_notified s).
Definition set_tip (tip : BlockHash) s : ServerState D :=
  mkServer (sv_query s) (sv_flush s) (sv_from s) (sv_hub s) tip (sv_notified s).
Definition set_indexer (ix : Indexer D) s : ServerState D :=
  mkServer (set_chain_store (sv_query s) (ix_store ix)) (ix_flush ix) (ix_from ix) (sv_hub s) (sv_tip s) (sv_notified s).
Definition the_indexer s : Indexer D := mkIndexer (cq_store (q_chain (sv_query s))) (sv_flush s) (sv_from s) iconfig.

(** ** New blocks *)

Definition indexer_update (fuel : nat) (daemon : Daemon) : SR (ServerState D) BlockHash := fun s =>
  let '(ix, r) := ix_update fuel daemon (the_indexer s) in (set_indexer ix s, r).
Definition server_height s : nat := Z.to_nat (best_height (q_chain (sv_query s))).
Definition tell_tip (prev_height new_height : nat) : SR (ServerState D) unit :=
  transition (fun s => hub ← notify_new_tip cfg (sv_query s) (sv_hub s) prev_height new_height; Ok (set_hub hub s)).
(** Bitcoind is asked for its best block twice: [best] is its answer to the loop, and
    [daemon] answers the indexer, which asks again. *)
Definition index_new_blocks (fuel : nat) (best : result BlockHash) (daemon : Daemon) : SR (ServerState D) unit :=
  prev_height ← gets server_height;
  current_tip ← lift best;
  tip ← gets sv_tip;
  if decide (current_tip = tip) then mret tt
  else
    _ ← indexer_update fuel daemon;
    _ ← modify (set_tip current_tip);
    new_height ← gets server_height;
    tell_tip prev_height new_height.

(** ** The mempool *)

(** A transaction as it is shown, if it is known and complete. *)
Definition txid_body q (txid : Txid) : result (option Json) :=
  o ← Query.lookup_txn q txid;
  match o with
  | None => Ok None
  | Some tx => values ← transactions_as_json network q [(tx, None)]; Ok (head values)
  end.
Definition added_bodies q (txids : list Txid) : result (list Json) :=
  bodies ← rmap (txid_body q) txids; Ok (omap (M:=list) (fun o : option Json => o) bodies).
Definition insert_body (available : gmap Text Json) (p : Txid * option Json) : gmap Text Json :=
  match p.2 with Some full => <[display_hash p.1 := full]> available | None => available end.
Definition available_bodies q (txids : list Txid) : result (gmap Text Json) :=
  bodies ← rmap (txid_body q) txids;
  Ok (fold_left insert_body (zip txids bodies) ∅).
(** The differences of the two sets of ids, in any order, as the clients are told. *)
Definition mempool_changes q (prev_txids now_txids : gset Txid) : result (list Json * list Json) :=
  added ← added_bodies q (elements (now_txids ∖ prev_txids));
  let gone := elements (prev_txids ∖ now_txids) in
  let removed_stubs := map (fun txid => jobj [("txid", jhash txid)]) gone in
  available ← available_bodies q gone;
  Ok (added, prefer_full_removed removed_stubs available).
Definition tell_mempool (prev_txids : gset Txid) s : result (ServerState D) :=
  let q := sv_query s in
  changes ← mempool_changes q prev_txids (unique_txids (q_mempool q));
  match changes with
  | ([], []) => Ok s
  | (added, removed) => hub ← notify_mempool cfg q (sv_hub s) added removed; Ok (set_hub hub s)
  end.
(** An error of the update is logged; what it changed before stays. *)
Definition update_mempool (prev_txids : gset Txid) (daemon : MempoolRpc) (now : Z) : SR (ServerState D) unit := fun s =>
  let q := sv_query s in
  match Mempool.update mconfig (q_chain q) daemon now (q_mempool q) with
  | (m, Ok _) => transition (tell_mempool prev_txids) (set_query (set_mempool q m) s)
  | (m, Err _) => (set_query (set_mempool q m) s, Ok tt)
  | (m, Panic) => (set_query (set_mempool q m) s, Panic)
  | (m, Diverge) => (set_query (set_mempool q m) s, Diverge)
  end.

(** ** A turn of the loop *)

Definition notify_electrum s : ServerState D :=
  mkServer (sv_query s) (sv_flush s) (sv_from s) (sv_hub s) (sv_tip s) (S (sv_notified s)).
Definition main_turn (fuel : nat) (best : result BlockHash) (daemon : Daemon) (mempool_rpc : MempoolRpc) (now : Z) : SR (ServerState D) unit :=
  prev_txids ← gets (fun s => unique_txids (q_mempool (sv_query s)));
  _ ← index_new_blocks fuel best daemon;
  _ ← update_mempool prev_txids mempool_rpc now;
  modify notify_electrum.

(** ** Start and stop *)

(** The first update of the mempool is repeated until it succeeds; an attempt has
    bitcoind's answers, the time, and how the pause after a failure ends. *)
Fixpoint initial_mempool (chain : ChainQuery D) (attempts : list (MempoolRpc * Z * result unit)) : SR Mempool unit := fun m =>
  match attempts with
  | [] => (m, Diverge)
  | (daemon, now, paused) :: attempts =>
      match Mempool.update mconfig chain daemon now m with
      | (m, Err _) => match paused with Ok _ => initial_mempool chain attempts m | r => (m, r) end
      | r => r
      end
  end.

Inductive ShutdownPhase := RestStop | Flush | BoundedElectrumJoin | ArmWatchdog.
Definition shutdown_phases : list ShutdownPhase := [RestStop; Flush; BoundedElectrumJoin; ArmWatchdog].
Definition INDEX_STORE_FLUSH_DBS : list string := ["txstore_db"; "history_db"; "cache_db"]%string.
(** What a shutdown does, in order. *)
Inductive ShutdownAction := StopRest | FlushDb (db : string) | StopElectrum | ForceExit | SpawnWatchdog.
Definition flush_index_store : list ShutdownAction := map FlushDb INDEX_STORE_FLUSH_DBS.
(** [join_thread_within]: what the polls of the thread see, with the time elapsed. *)
Fixpoint join_thread_within (timeout poll : Z) (polls : list (bool * Z)) : option bool :=
  match polls with
  | [] => None
  | (finished, elapsed) :: polls =>
      if finished then Some true
      else if (timeout <=? elapsed)%Z || (poll =? 0)%Z then Some false
      else join_thread_within timeout poll polls
  end.
(** [joined] is the outcome of the bounded join, if there was a thread to join. *)
Fixpoint shutdown (phases : list ShutdownPhase) (joined : option bool) : list ShutdownAction :=
  match phases with
  | [] => []
  | RestStop :: phases => StopRest :: shutdown phases joined
  | Flush :: phases => flush_index_store ++ shutdown phases joined
  | BoundedElectrumJoin :: phases =>
      StopElectrum :: match joined with Some false => [ForceExit] | _ => shutdown phases joined end
  | ArmWatchdog :: phases => SpawnWatchdog :: shutdown phases joined
  end.

(** A turn of the loop: how its pause ends and what bitcoind answers. *)
Record MainTurn := mkMainTurn { mt_wait : result unit; mt_best : result BlockHash; mt_daemon : Daemon; mt_mempool : MempoolRpc; mt_now : Z }.
Fixpoint main_loop (fuel : nat) (joined : option bool) (turns : list MainTurn) : SR (ServerState D) (list ShutdownAction) :=
  match turns with
  | [] => lift Diverge
  | turn :: turns =>
      match mt_wait turn with
      | Err _ => mret (shutdown shutdown_phases joined)
      | Ok _ => _ ← main_turn fuel (mt_best turn) (mt_daemon turn) (mt_mempool turn) (mt_now turn); main_loop fuel joined turns
      | Panic => lift Panic
      | Diverge => lift Diverge
      end
  end.
End server.
