(* ===== verification/ServerFacts.v ===== *)
(** * What the server's loop keeps true

    A turn of the loop over a bitcoind that answers with one tip leaves the index of
    bitcoind's chain, the mempool of bitcoind's mempool and a well-formed hub; what is
    remembered when the tip moves within the turn; which changes of the mempool the
    watchers hear of; and in which order the server stops. *)

From S2P Require Import Prelude Iter RocksDB DB Bitcoin HeaderList Rows Fetch Indexer IndexerSync ChainQuery ChainView.
From S2P Require Import ChainBlocks ChainHistory ScriptStats ScriptUtxo Mempool MempoolIndex MempoolUpdate MempoolQueries.
From S2P Require Import Query QueryFacts Text Json Electrum ElectrumFacts Sigops RestValues Rest RestFacts Mwck MwckFacts MwckTip Server.

Section turns.
Context {D : Type} {RDB : RocksDB D} {RDBL : RocksDBLaws D}.
Context {BL : BitcoinLib} {BLaws : BitcoinLaws} {W : Wincode} {WL : WincodeLaws}.
Context {EL : ElectrumLib} {SL : ScriptLib} {SLaws : ScriptLaws} {TS : TxSize}.
Context (cfg : RestConfig) (icfg : IndexerConfig) (block_of : BlockHash -> Block).
Implicit Types (q : Query D) (s : ServerState D).
Abbreviation network := (network_type (rc_query cfg)).
Abbreviation mcfg := (rc_mempool cfg).

(** The body of a transaction is shown under its own id. *)
Lemma txid_body_ok q txid : query_ok icfg block_of q -> exists o, txid_body cfg q txid = Ok o /\
  forall v, o = Some v -> json_txid v = Some (display_hash txid) /\ is_full_tx_object v = true.
Proof.
  intros Hq. unfold txid_body. destruct (lookup_ok icfg block_of q txid Hq) as (o & -> & Ho). cbn [mbind result_bind].
  destruct o as [tx|]; [|by exists None]. destruct (Ho tx eq_refl) as [Hid Hreg].
  unfold transactions_as_json. destruct (prepare_txs_ok icfg block_of network q [(tx, None)] (qo_synced _ _ q Hq)) as (values & -> & HF).
  { by constructor. }
  cbn [mbind result_bind]. eexists. split; [done|]. intros v Hv. destruct values as [|x values]; [done|]. injection Hv as <-.
  apply Forall2_cons_inv_r in HF as (e & l & Hsh & _ & He). rewrite filter_cons in He. case_decide; [|done]. injection He as <- _.
  destruct (tx_json_full x) as [Hf _]. split; [|done]. unfold json_txid. cbn. rewrite (sh_txid _ _ _ _ Hsh). by rewrite <- Hid.
Qed.
Lemma bodies_ok_all q txids : query_ok icfg block_of q -> exists bodies, rmap (txid_body cfg q) txids = Ok bodies /\
  Forall2 (fun txid o => txid_body cfg q txid = Ok o) txids bodies.
Proof.
  intros Hq. induction txids as [|txid txids (bodies & IH & HF)]; [by exists []|]. destruct (txid_body_ok q txid Hq) as (o & Ho & _).
  exists (o :: bodies). cbn [rmap]. rewrite Ho. cbn [mbind result_bind]. rewrite IH. split; [done|by constructor].
Qed.
Lemma body_of_ok q txid_s : query_ok icfg block_of q -> is_ok (body_of cfg q txid_s).
Proof.
  intros Hq. unfold body_of. destruct (parse_hash txid_s) as [txid|]; [|by eexists].
  destruct (txid_body_ok q txid Hq) as (o & Ho & _). by exists o.
Qed.
Lemma bodies_from_query_ok q txids : query_ok icfg block_of q -> forall available, is_ok (bodies_from_query cfg q txids available).
Proof.
  intros Hq. induction txids as [|txid_s txids IH]; intros available; [by eexists|]. cbn [bodies_from_query].
  destruct (available !! txid_s); [apply IH|]. destruct (body_of_ok q txid_s Hq) as [o ->]. cbn [mbind result_bind]. apply IH.
Qed.
Lemma notify_mempool_ok q hub added removed : query_ok icfg block_of q -> hub_ok hub ->
  exists hub', notify_mempool cfg q hub added removed = Ok hub' /\ hub_ok hub'.
Proof.
  intros Hq [Hb Hr]. assert (exists hub', notify_mempool cfg q hub added removed = Ok hub') as [hub' Hn].
  { unfold notify_mempool, enrich_removed. destruct (bodies_from_query_ok q (stub_txids removed) Hq
      (bodies_from_cache (mempool_tx_bodies (remember_mempool_bodies hub added)) (stub_txids removed))) as [a Ha].
    rewrite Ha. cbn [mbind result_bind]. by eexists. }
  exists hub'. split; [done|]. destruct (notify_mempool_parts cfg q hub added removed hub' Hn Hb) as [H1 H2].
  split; [done|]. by rewrite H2.
Qed.

(** ** What the watchers hear of the mempool *)

Lemma available_lookup (l : list (Txid * option Json)) k full :
  fold_left insert_body l ∅ !! k = Some full ->
  exists txid o, (txid, o) ∈ l /\ o = Some full /\ display_hash txid = k.
Proof.
  assert (forall m : gmap Text Json,
    fold_left insert_body l m !! k = Some full -> m !! k = Some full \/ exists txid o, (txid, o) ∈ l /\ o = Some full /\ display_hash txid = k) as Hg.
  { induction l as [|[txid o] l IH]; intros m H; [by left|]. cbn in H. apply IH in H as [H|(t' & o' & Hin & H)]; [|right; set_solver].
    unfold insert_body in H. destruct o as [f|]; [|by left]. cbn in H. destruct (decide (display_hash txid = k)) as [<-|Hne].
    - rewrite lookup_insert_eq in H. injection H as ->. right. set_solver.
    - rewrite lookup_insert_ne in H by done. by left. }
  intros H. apply Hg in H as [H|H]; [by rewrite lookup_empty in H|done].
Qed.
(** The bodies of the new transactions, and for every id that left a body or a stub. *)
Lemma changes_exact q prev_txids now_txids : query_ok icfg block_of q -> exists added removed,
  mempool_changes cfg q prev_txids now_txids = Ok (added, removed) /\
  (forall v, v ∈ added <-> exists txid, txid ∈ now_txids /\ txid ∉ prev_txids /\ txid_body cfg q txid = Ok (Some v)) /\
  (forall t, t ∈ omap json_txid removed <-> exists txid, txid ∈ prev_txids /\ txid ∉ now_txids /\ t = display_hash txid).
Proof.
  intros Hq. unfold mempool_changes, added_bodies, available_bodies.
  destruct (bodies_ok_all q (elements (now_txids ∖ prev_txids)) Hq) as (bodies & -> & HF). cbn [mbind result_bind].
  destruct (bodies_ok_all q (elements (prev_txids ∖ now_txids)) Hq) as (bodies' & -> & HF'). cbn [mbind result_bind].
  eexists _, _. split; [done|]. split.
  - intros v. rewrite list_elem_of_omap. split.
    + intros (o & Ho & ->). apply list_elem_of_lookup in Ho as [i Hi].
      destruct (Forall2_lookup_r _ _ _ _ _ HF Hi) as (txid & Htx & Hb). apply list_elem_of_lookup_2 in Htx. exists txid. set_solver.
    + intros (txid & Hn & Hp & Hb). assert (txid ∈ elements (now_txids ∖ prev_txids)) as Hin by set_solver.
      apply list_elem_of_lookup in Hin as [i Hi]. destruct (Forall2_lookup_l _ _ _ _ _ HF Hi) as (o & Ho & Hb').
      exists (Some v). split; [|done]. eapply list_elem_of_lookup_2. rewrite Ho. congruence.
  - intros t. unfold prefer_full_removed. rewrite map_map. set (gone := elements (prev_txids ∖ now_txids)) in *.
    match goal with |- context [map ?f gone] => set (told := f) end.
    assert (forall txid, txid ∈ gone -> json_txid (told txid) = Some (display_hash txid)) as Htold.
    { intros txid Hin. subst told. cbn beta. assert (is_full_tx_object (jobj [("txid", jhash txid)]) = false) as -> by done.
      assert (json_txid (jobj [("txid", jhash txid)]) = Some (display_hash txid)) as Hstub by done. rewrite Hstub.
      match goal with |- context [?m !! display_hash txid] => set (avail := m) end.
      destruct (avail !! display_hash txid) as [full|] eqn:Ea; [|done]. destruct (is_full_tx_object full); [|done].
      apply available_lookup in Ea as (txid' & o & Hz & -> & Hk). apply list_elem_of_lookup in Hz as [i Hz].
      apply lookup_zip_Some in Hz as [Hi Ho]. pose proof (Forall2_lookup_lr _ _ _ _ _ _ HF' Hi Ho) as Hb.
      destruct (txid_body_ok q txid' Hq) as (o & Hb' & Hv). rewrite Hb in Hb'. injection Hb' as <-.
      rewrite <- Hk. by apply Hv. }
    rewrite list_elem_of_omap. split.
    + intros (v & (txid & -> & Hin)%elem_of_map & Hv). rewrite Htold in Hv by done. injection Hv as <-. exists txid. set_solver.
    + intros (txid & Hp & Hn & ->). assert (txid ∈ gone) as Hin by (subst gone; set_solver). exists (told txid).
      split; [|by apply Htold]. apply elem_of_map. by exists txid.
Qed.

(** ** A turn *)

(** The index, the mempool and the hub are sound, and, for [server_ok], the tip seen last
    is the tip of the index. *)
Definition server_sound s (A : gmap Txid (Transaction * gmap Z TxOut)) : Prop :=
  query_ok icfg block_of (sv_query s) /\ refines mcfg (q_mempool (sv_query s)) A /\ hub_ok (sv_hub s).
Abbreviation store_of s := (cq_store (q_chain (sv_query s))).
Abbreviation chain_of_server s := (headers (cq_headers (q_chain (sv_query s)))).
Definition server_ok s (A : gmap Txid (Transaction * gmap Z TxOut)) : Prop :=
  server_sound s A /\ sv_tip s = tip_hash (indexed_headers (store_of s)).

(** Bitcoind's chain, with the given tip, is a branch that attaches to the indexed chain,
    of blocks that were not found indexed at start-up. *)
Record branches (fuel : nat) (daemon : Daemon) s (tip : BlockHash) (chain : list HeaderEntry) : Prop := {
  br_serves : Fetch.serves daemon block_of;
  br_delivers : delivers block_of (sv_from s) daemon;
  br_best : d_getbestblockhash daemon = Ok tip;
  br_branch : exists hs n, chain = take n (chain_of_server s) ++ entries_from n hs /\
    get_new_headers fuel daemon (indexed_headers (store_of s)) tip = Ok hs /\
    linked hs /\ attaches (indexed_headers (store_of s)) hs n /\ last_hash (entries_from n hs) = tip /\
    forall h, h ∈ hs -> block_hash h ∉ indexed_blockhashes (store_of s);
  br_distinct : hashes_distinct (chain_of_server s);
  br_distinct_new : hashes_distinct chain;
  br_sane : chain_sane (blocks_of block_of chain);
}.
(** Bitcoind's tip and chain: those of the index, or a branch. *)
Definition follows (fuel : nat) (daemon : Daemon) s (tip : BlockHash) (chain : list HeaderEntry) : Prop :=
  (tip = tip_hash (indexed_headers (store_of s)) /\ chain = chain_of_server s) \/
  (tip <> tip_hash (indexed_headers (store_of s)) /\ branches fuel daemon s tip chain).
Definition blocks_regular (chain : list HeaderEntry) : Prop :=
  forall b tx, b ∈ blocks_of block_of chain -> tx ∈ txdata (be_block b) -> regular tx.

(** A turn that sees a new tip indexes bitcoind's chain as it is when the indexer asks. *)
Lemma index_new_blocks_branch fuel daemon s A best tip chain :
  server_sound s A -> best <> sv_tip s -> branches fuel daemon s tip chain -> blocks_regular chain ->
  exists s', index_new_blocks cfg icfg fuel (Ok best) daemon s = (s', Ok tt) /\ server_sound s' A /\
    chain_of_server s' = chain /\ tip_hash (indexed_headers (store_of s')) = tip /\ sv_tip s' = best /\
    q_mempool (sv_query s') = q_mempool (sv_query s) /\ sv_notified s' = sv_notified s.
Proof.
  intros (Hq & Hr & Hh) Hne [Hsv Hdl Ht (hs & n & -> & Hnew & Hl & Hat & Hlast & Hix) Hd1 Hd2 Hsane] Hreg.
  unfold index_new_blocks, gets. rewrite !sr_bind_eq. unfold lift. rewrite sr_bind_eq, decide_False by done.
  destruct (update_store_syncs icfg block_of fuel daemon (sv_from s) (store_of s) hs n tip (qo_synced _ _ _ Hq)) as (st & Hup & Hsy & Hch);
    [done..|].
  rewrite sr_bind_eq. unfold indexer_update, ix_update, the_indexer. cbn [ix_from ix_config ix_store]. rewrite Hup.
  rewrite sr_bind_eq. unfold modify. rewrite sr_bind_eq. set (s1 := set_tip best _).
  assert (query_ok icfg block_of (sv_query s1)) as Hq1.
  { split; [exact Hsy|exact (qo_full _ _ _ Hq)| |exact (qo_pool _ _ _ Hq)]. intros b tx Hb. apply Hreg.
    change (b ∈ blocks_of block_of (headers (indexed_headers st))) in Hb. rewrite Hch in Hb. exact Hb. }
  unfold tell_tip, transition. set (B := fun h => match block_at cfg (sv_query s1) h with Ok o => o | _ => None end).
  assert (forall h, block_at cfg (sv_query s1) h = Ok (B h)) as HB.
  { intros h. destruct (block_at_told icfg block_of cfg (sv_query s1) h (qo_synced _ _ _ Hq1) (qo_full _ _ _ Hq1) (qo_chain _ _ _ Hq1)) as (o & Ho & _).
    unfold B. by rewrite Ho. }
  destruct (new_tip_told cfg (sv_query s1) B HB (sv_hub s1) (server_height s) (server_height s1) Hh) as (hub' & Hn & _).
  rewrite Hn. cbn [mbind result_bind]. eexists. split; [done|]. split_and!; try done.
  - split; [done|]. split; [done|]. by eapply new_tip_ok.
  - cbn. by rewrite (wf_tip _ (sy_wf _ _ _ Hsy)), Hch, (last_hash_attached _ _ _ _ Hat).
Qed.
Lemma index_new_blocks_ok fuel daemon s A tip chain :
  server_ok s A -> follows fuel daemon s tip chain -> blocks_regular chain ->
  exists s', index_new_blocks cfg icfg fuel (Ok tip) daemon s = (s', Ok tt) /\ server_ok s' A /\
    chain_of_server s' = chain /\ sv_tip s' = tip /\
    q_mempool (sv_query s') = q_mempool (sv_query s) /\ sv_notified s' = sv_notified s.
Proof.
  intros [Hs Htip] [[-> ->]|[Hne Hbr]] Hreg.
  { exists s. unfold index_new_blocks, gets. rewrite !sr_bind_eq. unfold lift. rewrite sr_bind_eq, decide_True by done. done. }
  rewrite <- Htip in Hne.
  destruct (index_new_blocks_branch fuel daemon s A tip tip chain Hs Hne Hbr Hreg) as (s' & Hi & Hs' & Hch & Ht & Hsv & Hm & Hn).
  exists s'. split; [done|]. split; [split; [done|by rewrite Ht]|]. done.
Qed.
(** When bitcoind's tip moves from [best] to [tip] between the two questions, the loop
    remembers [best]; should bitcoind then go back to [best], the loop does not index it. *)
Lemma tip_remembered_stale fuel daemon daemon' s A best tip chain :
  server_sound s A -> best <> sv_tip s -> best <> tip -> branches fuel daemon s tip chain -> blocks_regular chain ->
  exists s', index_new_blocks cfg icfg fuel (Ok best) daemon s = (s', Ok tt) /\
    index_new_blocks cfg icfg fuel (Ok best) daemon' s' = (s', Ok tt) /\
    tip_hash (indexed_headers (store_of s')) = tip.
Proof.
  intros Hs Hne Hne' Hbr Hreg.
  destruct (index_new_blocks_branch fuel daemon s A best tip chain Hs Hne Hbr Hreg) as (s' & Hi & _ & _ & Ht & Hsv & _).
  exists s'. split; [done|]. split; [|done]. unfold index_new_blocks, gets. rewrite !sr_bind_eq. unfold lift.
  by rewrite sr_bind_eq, decide_True by done.
Qed.
Lemma tell_mempool_ok prev s A : server_sound s A -> exists s', tell_mempool cfg prev s = Ok s' /\ server_sound s' A /\
  sv_query s' = sv_query s /\ sv_tip s' = sv_tip s /\ sv_notified s' = sv_notified s.
Proof.
  intros (Hq & Hr & Hh). unfold tell_mempool.
  destruct (changes_exact (sv_query s) prev (unique_txids (q_mempool (sv_query s))) Hq) as (added & removed & -> & _).
  cbn [mbind result_bind]. destruct (notify_mempool_ok (sv_query s) (sv_hub s) added removed Hq Hh) as (hub' & Hn & Hh').
  assert (exists s', (hub ← notify_mempool cfg (sv_query s) (sv_hub s) added removed; Ok (set_hub hub s)) = Ok s' /\ server_sound s' A /\
    sv_query s' = sv_query s /\ sv_tip s' = sv_tip s /\ sv_notified s' = sv_notified s) as Hs'.
  { rewrite Hn. cbn [mbind result_bind]. eexists. split; [done|]. done. }
  destruct added, removed; try exact Hs'. by exists s.
Qed.
Lemma update_mempool_ok prev daemon now s A all txs :
  server_sound s A -> getmempooltxids daemon = Ok all ->
  gettransactions daemon (elements (all ∖ dom (txstore (q_mempool (sv_query s))))) = Ok txs ->
  Forall (fun tx => weighty tx /\ regular tx) txs ->
  list_to_set (map get_txid txs) = all ∖ dom (txstore (q_mempool (sv_query s))) ->
  exists s' A', update_mempool cfg prev daemon now s = (s', Ok tt) /\ server_sound s' A' /\
    q_chain (sv_query s') = q_chain (sv_query s) /\ dom (txstore (q_mempool (sv_query s'))) = all /\
    sv_tip s' = sv_tip s /\ sv_notified s' = sv_notified s.
Proof.
  intros (Hq & Hr & Hh) Hall Hget Htxs Hids. unfold update_mempool.
  destruct (update_stored mcfg (q_chain (sv_query s)) (chain_avail (q_chain (sv_query s))) daemon now (q_mempool (sv_query s)) A all txs)
    as (m' & A' & Hup & Hr' & Hdom & _ & _ & Hst).
  { intros o. apply (chain_avail_ok icfg block_of), Hq. }
  1-3: done.
  { eapply Forall_impl; [exact Htxs|by intros ? []]. }
  { done. }
  rewrite Hup. set (s1 := set_query (set_mempool (sv_query s) m') s).
  assert (server_sound s1 A') as Hs1.
  { split; [|done]. split; [exact (qo_synced _ _ _ Hq)|exact (qo_full _ _ _ Hq)|exact (qo_chain _ _ _ Hq)|].
    intros t tx Ht. split; [apply (rf_keys _ _ _ Hr' t tx Ht)|]. apply Hst in Ht as [Ht|Hin].
    - by eapply (qo_pool _ _ _ Hq).
    - rewrite Forall_forall in Htxs. by apply Htxs. }
  destruct (tell_mempool_ok prev s1 A' Hs1) as (s' & Ht & Hok & Hqs & Htip & Hn). unfold transition. rewrite Ht.
  exists s', A'. rewrite Hqs, Htip, Hn. split_and!; done.
Qed.

(** C10: A turn of the server's loop follows bitcoind.  Let the index be synced, not in
    light mode, with its tip the tip seen last, and let bitcoind answer, with one tip
    throughout the turn: the tip of the index, or a tip whose chain attaches to the indexed
    one with blocks that were not found indexed at start-up.  Then the turn ends without an
    error or a panic, the index is that of bitcoind's chain and its tip is again the tip
    seen last, the mempool is exactly bitcoind's, indexed as far as parents are known, the
    hub is well-formed, and the Electrum server is told to update its clients. *)
Theorem main_turn_follows fuel daemon mempool_rpc now s A tip chain all txs :
  server_ok s A -> follows fuel daemon s tip chain -> blocks_regular chain ->
  getmempooltxids mempool_rpc = Ok all ->
  gettransactions mempool_rpc (elements (all ∖ dom (txstore (q_mempool (sv_query s))))) = Ok txs ->
  Forall (fun tx => weighty tx /\ regular tx) txs ->
  list_to_set (map get_txid txs) = all ∖ dom (txstore (q_mempool (sv_query s))) ->
  exists s' A', main_turn cfg icfg fuel (Ok tip) daemon mempool_rpc now s = (s', Ok tt) /\ server_ok s' A' /\
    chain_of_server s' = chain /\ tip_hash (indexed_headers (store_of s')) = tip /\ sv_tip s' = tip /\
    dom (txstore (q_mempool (sv_query s'))) = all /\ sv_notified s' = S (sv_notified s).
Proof.
  intros Hok Hf Hreg Hall Hget Htxs Hids. unfold main_turn. rewrite sr_bind_eq. unfold gets. rewrite sr_bind_eq.
  destruct (index_new_blocks_ok fuel daemon s A tip chain Hok Hf Hreg) as (s1 & -> & [Hok1 Htie] & Hch & Htip & Hm & Hn).
  rewrite sr_bind_eq. rewrite <- Hm in Hget, Hids.
  destruct (update_mempool_ok (unique_txids (q_mempool (sv_query s))) mempool_rpc now s1 A all txs) as (s2 & A2 & -> & Hok2 & Hc2 & Hd2 & Ht2 & Hn2);
    [done..|].
  exists (notify_electrum s2), A2. split; [done|]. unfold server_ok, notify_electrum. cbn [sv_query sv_tip sv_notified].
  rewrite Hc2, Ht2, Hn2, Hn. split_and!; try done. by rewrite <- Htie.
Qed.

(** A transaction that was already stored when the turn began, because a client had it
    broadcast, is never told as added: the watchers do not hear of it. *)
Lemma broadcast_not_told s A prev txid : server_sound s A -> txid ∈ prev ->
  (forall h h', display_hash h = display_hash h' -> h = h') ->
  exists added removed, mempool_changes cfg (sv_query s) prev (unique_txids (q_mempool (sv_query s))) = Ok (added, removed) /\
    display_hash txid ∉ omap json_txid added.
Proof.
  intros (Hq & _) Hin Hinj.
  destruct (changes_exact (sv_query s) prev (unique_txids (q_mempool (sv_query s))) Hq) as (added & removed & Hc & Ha & _).
  exists added, removed. split; [done|]. intros (v & Hv & Hj)%list_elem_of_omap.
  apply Ha in Hv as (txid' & _ & Hp & Hb). destruct (txid_body_ok (sv_query s) txid' Hq) as (o & Hb' & Ho).
  rewrite Hb in Hb'. injection Hb' as <-. destruct (Ho v eq_refl) as [Hj' _]. rewrite Hj in Hj'. injection Hj' as Hd.
  apply Hinj in Hd as ->. done.
Qed.
(** When bitcoind fails to deliver the new transactions, those that left the mempool are
    already removed, and nobody is told of them. *)
Lemma failed_update_silent prev daemon now s A all e :
  server_sound s A -> getmempooltxids daemon = Ok all ->
  gettransactions daemon (elements (all ∖ dom (txstore (q_mempool (sv_query s))))) = Err e ->
  exists s', update_mempool cfg prev daemon now s = (s', Ok tt) /\ sv_hub s' = sv_hub s /\
    dom (txstore (q_mempool (sv_query s'))) = dom (txstore (q_mempool (sv_query s))) ∩ all.
Proof.
  intros (Hq & Hr & Hh) Hall Hget. set (m := q_mempool (sv_query s)) in *.
  destruct (remove_refines mcfg m A (dom (txstore m) ∖ all) Hr) as (m1 & E1 & _ & S1 & _); [set_solver|].
  exists (set_query (set_mempool (sv_query s) m1) s). split; [|split; [done|]].
  - unfold update_mempool, update. fold m. rewrite !sr_bind_eq. unfold gets, lift. rewrite Hall. cbn [chain_err]. rewrite !sr_bind_eq.
    unfold transition. unfold unique_txids. rewrite E1, sr_bind_eq. by rewrite Hget.
  - cbn. rewrite S1, dom_without. set_solver.
Qed.
End turns.

(** ** Stopping *)

(** Before the process can exit by force, the requests are stopped and all three
    databases are flushed. *)
Lemma shutdown_flushes_first joined i : shutdown shutdown_phases joined !! i = Some ForceExit \/ shutdown shutdown_phases joined !! i = Some SpawnWatchdog ->
  forall db, db ∈ INDEX_STORE_FLUSH_DBS -> exists j, j < i /\ shutdown shutdown_phases joined !! j = Some (FlushDb db).
Proof.
  intros H db Hdb. assert (4 < i) as Hi.
  { destruct i as [|[|[|[|[|i]]]]]; [| | | | |lia]; destruct joined as [[]|]; destruct H; done. }
  unfold INDEX_STORE_FLUSH_DBS in Hdb. rewrite !elem_of_cons in Hdb. destruct Hdb as [->|[->|[->|Hdb]]].
  - exists 1. split; [lia|done].
  - exists 2. split; [lia|done].
  - exists 3. split; [lia|done].
  - by apply not_elem_of_nil in Hdb.
Qed.
(** The join is given up at the first poll after the timeout. *)
Lemma join_bounded timeout poll polls : (exists finished elapsed, (finished, elapsed) ∈ polls /\ (timeout <= elapsed)%Z) ->
  is_Some (join_thread_within timeout poll polls).
Proof.
  induction polls as [|[f e] polls IH]; intros (f' & e' & Hin & He); [by apply not_elem_of_nil in Hin|]. cbn.
  destruct f; [done|]. destruct (Z.leb_spec timeout e) as [|Hlt]; [done|]. cbn. destruct (poll =? 0)%Z; [done|]. apply IH.
  apply elem_of_cons in Hin as [[= -> ->]|Hin]; [lia|eauto].
Qed.

(** ** Witness *)

(** Bitcoind has moved to the fork and has one new transaction. *)
Definition ex_pool_rpc : MempoolRpc := mkMempoolRpc (Ok {[pack_hash 71]}) (fun _ => Ok [ex_parent]) (fun _ => Ok ex_parent).
Lemma main_turn_follows_witness :
  exists s s' : ServerState KvMap, sv_tip s = pack_hash 3 /\
    @main_turn KvMap _ ExampleLib FixintWincode ExampleElectrum ExampleScripts ex_size ex_rcfg ex_cfg 10 (Ok (pack_hash 6))
      ex_daemon ex_pool_rpc 200 s = (s', Ok tt) /\
    headers (cq_headers (q_chain (sv_query s'))) = headers ex_forked /\ sv_tip s' = pack_hash 6 /\
    dom (txstore (q_mempool (sv_query s'))) = {[pack_hash 71]} /\ sv_notified s' = 1.
Proof.
  destruct ex_query_exists as (c & Hc & Hhl & _ & Hl & Hix).
  set (s := mkServer (query_new c (mempool_new ex_mcfg 100)) Enable Bitcoind hub_new (pack_hash 3) 0). exists s.
  assert (forall hl, hl = ex_hl \/ hl = ex_forked -> forall b tx, b ∈ @blocks_of ExampleLib ex_block_of (headers hl) ->
    tx ∈ txdata (be_block b) -> @regular ExampleLib tx) as Hreg.
  { assert (Forall (fun b => Forall (@regular ExampleLib) (txdata (be_block b)))
      (@blocks_of ExampleLib ex_block_of (headers ex_hl) ++ @blocks_of ExampleLib ex_block_of (headers ex_forked))) as HF by vm_decide.
    rewrite Forall_app, !Forall_forall in HF. intros hl Hhl' b tx Hb. revert tx. rewrite <- Forall_forall.
    destruct Hhl' as [->| ->]; [exact (proj1 HF b Hb)|exact (proj2 HF b Hb)]. }
  assert (cq_headers (q_chain (sv_query s)) = ex_hl) as Hhs by exact Hhl.
  destruct (@main_turn_follows KvMap _ _ ExampleLib ExampleLib_laws FixintWincode FixintWincode_laws ExampleElectrum ExampleScripts
    ExampleScripts_laws ex_size ex_rcfg ex_cfg ex_block_of 10 ex_daemon ex_pool_rpc 200 s ∅ (pack_hash 6)
    (headers ex_forked) {[pack_hash 71]} [ex_parent]) as (s' & A' & H & _ & Hch & _ & Ht & Hd & Hn).
  - split.
    + split; [split; [exact Hc|by split| |done]|].
      * intros b tx Hb. apply (Hreg ex_hl); [by left|]. revert Hb. unfold chain_of. cbn. by rewrite Hhl.
      * split; [exact (@refines_new ExampleLib ex_mcfg 100)|]. split; [exact bodies_new_ok|]. apply map_Forall_empty.
    + change (indexed_headers _) with (cq_headers c). rewrite Hhl. vm_compute. reflexivity.
  - right. change (indexed_headers _) with (cq_headers c). rewrite Hhl. split; [vm_compute; congruence|]. split.
    + split; [reflexivity|]. intros. reflexivity.
    + apply serves_delivers. split; [reflexivity|]. intros. reflexivity.
    + reflexivity.
    + exists ex_fork, 1. change (indexed_headers _) with (cq_headers c). rewrite Hhs, Hhl. split_and!.
      * vm_compute. reflexivity.
      * vm_compute. reflexivity.
      * intros [|[|[|i]]] h h' Hh Hh'; cbn in Hh, Hh'; simplify_eq; reflexivity.
      * eexists. split; [reflexivity|]. right. split; [vm_compute; congruence|].
        exists (mkEntry 0 (pack_hash 1) ex_genesis). split; [vm_compute; left|]. by split.
      * reflexivity.
      * intros h _. cbn. rewrite Hix. apply not_elem_of_empty.
    + rewrite Hhs. apply hashes_distinct_NoDup; vm_decide.
    + apply hashes_distinct_NoDup; vm_decide.
    + apply ex_chain_sane. by right.
  - intros b tx. apply Hreg. by right.
  - reflexivity.
  - reflexivity.
  - repeat constructor; vm_decide.
  - apply (bool_decide_unpack _). vm_compute. exact I.
  - exists s'. split; [done|]. split; [exact H|]. by split_and!.
Defined.
