(* ===== verification/Discovery.v ===== *)
(** * [electrum/discovery.rs]: the peers of the Electrum server

    With the discovery feature a server keeps a queue of health checks, one per service
    of a peer, and the table of the services that were healthy on their last check.
    Peers are built in or add themselves; one thread takes the next check from the
    queue, connects to the peer and files the result.  Here are the operations of
    [DiscoveryManager], the conversion of [electrum/client.rs], the table of
    [discovery/default_servers.rs] and the manager as a transition system: the thread
    takes the locks of the queue and of the table one after the other, and requests
    arrive in between.

    Name resolution and what a peer replies are arguments.  A [BinaryHeap] is the list
    of its elements; [pop] takes one that no other exceeds. *)

From S2P Require Import Prelude Text Json Bitcoin Electrum Front.

(** ** Data *)

Inductive ServerAddr := Clearnet (ip : IpAddr) | Onion (hostname : Text).
#[export] Instance ServerAddr_eq_dec : EqDecision ServerAddr.
Proof. solve_decision. Defined.
#[export] Instance ServerAddr_countable : Countable ServerAddr.
Proof.
  apply (inj_countable' (fun a => match a with Clearnet ip => inl ip | Onion h => inr h end)
    (fun s => match s with inl ip => Clearnet ip | inr h => Onion h end)). by intros [].
Defined.
Inductive Service := Tcp (port : Z) | Ssl (port : Z).
#[export] Instance Service_eq_dec : EqDecision Service.
Proof. solve_decision. Defined.
#[export] Instance Service_countable : Countable Service.
Proof.
  apply (inj_countable' (fun a => match a with Tcp p => inl p | Ssl p => inr p end)
    (fun s => match s with inl p => Tcp p | inr p => Ssl p end)). by intros [].
Defined.

(** Instants are nanoseconds of the monotonic clock. *)
Record HealthCheck := mkCheck {
  hc_addr : ServerAddr; hc_hostname : Text; hc_service : Service; is_default : bool;
  added_by : option IpAddr; last_check : option Z; last_healthy : option Z; consecutive_failures : Z }.
Record PeerServer := mkPeer { services : gset Service; ps_hostname : Text; ps_features : ServerFeatures }.
Record DiscoveryManager := mkManager {
  dm_queue : list HealthCheck; dm_healthy : gmap ServerAddr PeerServer;
  our_version : ProtocolVersion; our_addrs : gset ServerAddr; our_features : ServerFeatures;
  announce : bool; tor_proxy : option SocketAddr }.
Definition set_queue (q : list HealthCheck) (d : DiscoveryManager) : DiscoveryManager :=
  mkManager q (dm_healthy d) (our_version d) (our_addrs d) (our_features d) (announce d) (tor_proxy d).
Definition set_healthy (h : gmap ServerAddr PeerServer) (d : DiscoveryManager) : DiscoveryManager :=
  mkManager (dm_queue d) h (our_version d) (our_addrs d) (our_features d) (announce d) (tor_proxy d).

Definition HEALTH_CHECK_FREQ : Z := 3600 * 1000000000.
Definition MAX_CONSECUTIVE_FAILURES : Z := 24.
Definition MAX_QUEUE_SIZE : nat := 500.
Definition MAX_SERVERS_PER_REQUEST : nat := 3.
Definition MAX_SERVICES_PER_REQUEST : nat := 6.

(** ** A health check *)

Definition new_check (addr : ServerAddr) (hostname : Text) (service : Service) (by_ : option IpAddr) : HealthCheck :=
  mkCheck addr hostname service (bool_decide (by_ = None)) by_ None None 0.
Definition is_healthy (job : HealthCheck) : bool :=
  match last_check job, last_healthy job with
  | Some last_check, Some last_healthy => (last_check =? last_healthy)%Z
  | _, _ => false
  end.
Definition should_retry (job : HealthCheck) : bool :=
  (bool_decide (is_Some (last_healthy job)) || is_default job) &&
  (consecutive_failures job <? MAX_CONSECUTIVE_FAILURES)%Z.

(** [Ord] of [Option<Instant>], and of a check: the one checked longest ago is greatest. *)
Definition cmp_instant (a b : option Z) : comparison :=
  match a, b with
  | None, None => Eq | None, Some _ => Lt | Some _, None => Gt
  | Some a, Some b => Z.compare a b
  end.
Definition check_cmp (a b : HealthCheck) : comparison := CompOpp (cmp_instant (last_check a) (last_check b)).
(** [BinaryHeap::pop]: which of several greatest elements it takes is not specified. *)
Definition heap_pop (q : list HealthCheck) (job : HealthCheck) (rest : list HealthCheck) : Prop :=
  q ≡ₚ job :: rest /\ Forall (fun j => check_cmp j job <> Gt) rest.
(** One such element, for [peek] and for runs. *)
Fixpoint pop_max (q : list HealthCheck) : option (HealthCheck * list HealthCheck) :=
  match q with
  | [] => None
  | j :: q =>
      match pop_max q with
      | None => Some (j, [])
      | Some (m, rest) => match check_cmp m j with Gt => Some (m, j :: rest) | _ => Some (j, q) end
      end
  end.

(** ** Addresses *)

(** What the Standard Library and the derived decoder of [serde] do: reading and
    printing IP addresses, Unicode lower case, a JSON value as server features. *)
Class DiscoveryLib := {
  ip_from_str : Text -> option IpAddr;
  display_ip : IpAddr -> Text;
  to_lowercase : Text -> Text;
  features_from_value : Json -> option ServerFeatures;
}.

Definition is_loopback (ip : IpAddr) : bool :=
  match ip with V4 n => (n / 2 ^ 24 =? 127)%Z | V6 n => (n =? 1)%Z end.
Definition is_unspecified (ip : IpAddr) : bool := match ip with V4 n | V6 n => (n =? 0)%Z end.
Definition is_multicast (ip : IpAddr) : bool :=
  match ip with V4 n => (n / 2 ^ 28 =? 14)%Z | V6 n => (n / 2 ^ 120 =? 255)%Z end.
(** 10.0.0.0/8, 172.16.0.0/12, 192.168.0.0/16 *)
Definition is_private_v4 (n : Z) : bool :=
  ((n / 2 ^ 24 =? 10) || (n / 2 ^ 20 =? 172 * 16 + 1) || (n / 2 ^ 16 =? 192 * 256 + 168))%Z.
Definition is_remote_addr (addr : ServerAddr) : bool :=
  match addr with
  | Onion _ => true
  | Clearnet ip =>
      negb (is_loopback ip) && negb (is_unspecified ip) && negb (is_multicast ip) &&
      negb (match ip with V4 n => is_private_v4 n | V6 _ => false end)
  end.

Section discovery.
Context `{!DiscoveryLib}.
(** [to_socket_addrs]: the addresses that a name with a port resolves to, or an error. *)
Definition Resolver : Type := Text -> option (list IpAddr).
Implicit Types (dns : Resolver) (d : DiscoveryManager) (job : HealthCheck).

Definition display_addr (addr : ServerAddr) : Text :=
  match addr with Clearnet ip => display_ip ip | Onion hostname => hostname end.
Definition display_service (s : Service) : Text :=
  match s with
  | Tcp port => text_of "t" ++ display_usize port
  | Ssl port => text_of "s" ++ display_usize port
  end.
Definition resolve dns (host : Text) : result ServerAddr :=
  if ends_with host (text_of ".onion") then Ok (Onion host)
  else match ip_from_str host with
  | Some ip => Ok (Clearnet ip)
  | None =>
      addrs ← ok_or (Msg "hostname resolution failed") (dns (host ++ text_of ":1"));
      ip ← ok_or (Msg "hostname resolution failed") (head addrs);
      Ok (Clearnet ip)
  end.

(** ** Adding peers *)

Definition verify_compatibility d (features : ServerFeatures) : result unit :=
  if negb (bool_decide (genesis_hash features = genesis_hash (our_features d))) then Err (Msg "incompatible networks")
  else if negb (bool_decide (version_cmp (protocol_min features) (our_version d) <> Gt) &&
                bool_decide (version_cmp (protocol_max features) (our_version d) <> Lt))
  then Err (Msg "incompatible protocol versions")
  else if negb (bool_decide (hash_function features = text_of "sha256")) then Err (Msg "incompatible hash function")
  else Ok tt.

Definition existing_services (q : list HealthCheck) : gmap ServerAddr (gset Service) :=
  foldl (fun m job => <[hc_addr job := {[hc_service job]} ∪ default ∅ (m !! hc_addr job)]> m) ∅ q.
(** The host of a request, if its services may be added. *)
Definition candidate_host dns (our : gset ServerAddr) (by_ : IpAddr) (host : Text * ServerPorts)
    : option (ServerAddr * Text * ServerPorts) :=
  let hostname := to_lowercase host.1 in
  if (100 <? utf8_len hostname)%Z then None
  else match resolve dns hostname with
  | Ok addr =>
      if negb (is_remote_addr addr) || bool_decide (addr ∈ our) then None
      else match addr with
      | Clearnet ip => if bool_decide (ip <> by_) then None else Some (addr, hostname, host.2)
      | Onion _ => Some (addr, hostname, host.2)
      end
  | _ => None
  end.
Definition port_services (ports : ServerPorts) : list Service :=
  option_list (Tcp <$> tcp_port ports) ++ option_list (Ssl <$> ssl_port ports).
Definition host_checks (existing : gmap ServerAddr (gset Service)) (by_ : IpAddr)
    (c : ServerAddr * Text * ServerPorts) : list HealthCheck :=
  let '(addr, hostname, ports) := c in
  map (fun service => new_check addr hostname service (Some by_))
    (List.filter (fun service => match existing !! addr with
                                 | Some s => negb (bool_decide (service ∈ s)) | None => true end)
      (port_services ports)).
Definition request_checks dns d (by_ : IpAddr) (features : ServerFeatures) : list HealthCheck :=
  take MAX_SERVICES_PER_REQUEST
    (concat (map (host_checks (existing_services (dm_queue d)) by_)
      (omap (candidate_host dns (our_addrs d) by_) (take MAX_SERVERS_PER_REQUEST (hosts features))))).
Definition add_server_request dns (by_ : IpAddr) (features : ServerFeatures) : SR DiscoveryManager unit :=
  transition (fun d =>
    _ ← verify_compatibility d features;
    let queue := dm_queue d in
    if negb (length queue <? MAX_QUEUE_SIZE) then Err (Msg "queue size exceeded")
    else
      let jobs := request_checks dns d by_ features in
      if negb (length queue + length jobs <=? MAX_QUEUE_SIZE) then Err (Msg "queue size exceeded")
      else Ok (set_queue (queue ++ jobs) d)).
Definition add_default_server dns (hostname : Text) (services : list Service) : SR DiscoveryManager unit :=
  addr ← lift (resolve dns hostname);
  modify (fun d => set_queue (dm_queue d ++ map (fun service => new_check addr hostname service None) services) d).

(** ** [discovery/default_servers.rs] *)

Definition default_servers_bitcoin : list (string * list Service) :=
  [ ("3smoooajg7qqac2y.onion", [Tcp 50001; Ssl 50002]); ("81-7-10-251.blue.kundencontroller.de", [Ssl 50002]);
    ("E-X.not.fyi", [Tcp 50001; Ssl 50002]); ("VPS.hsmiths.com", [Tcp 50001; Ssl 50002]);
    ("b.ooze.cc", [Tcp 50001; Ssl 50002]); ("bauerjda5hnedjam.onion", [Tcp 50001; Ssl 50002]);
    ("bauerjhejlv6di7s.onion", [Tcp 50001; Ssl 50002]); ("bitcoin.corgi.party", [Tcp 50001; Ssl 50002]);
    ("bitcoin3nqy3db7c.onion", [Tcp 50001; Ssl 50002]); ("bitcoins.sk", [Tcp 50001; Ssl 50002]);
    ("btc.cihar.com", [Tcp 50001; Ssl 50002]); ("btc.xskyx.net", [Tcp 50001; Ssl 50002]);
    ("currentlane.lovebitco.in", [Tcp 50001; Ssl 50002]); ("daedalus.bauerj.eu", [Tcp 50001; Ssl 50002]);
    ("electrum.jochen-hoenicke.de", [Tcp 50003; Ssl 50005]); ("dragon085.startdedicated.de", [Ssl 50002]);
    ("e-1.claudioboxx.com", [Tcp 50001; Ssl 50002]); ("e.keff.org", [Tcp 50001; Ssl 50002]);
    ("electrum-server.ninja", [Tcp 50001; Ssl 50002]); ("electrum-unlimited.criptolayer.net", [Ssl 50002]);
    ("electrum.eff.ro", [Tcp 50001; Ssl 50002]); ("electrum.festivaldelhumor.org", [Tcp 50001; Ssl 50002]);
    ("electrum.hsmiths.com", [Tcp 50001; Ssl 50002]); ("electrum.leblancnet.us", [Tcp 50001; Ssl 50002]);
    ("electrum.mindspot.org", [Ssl 50002]); ("electrum.qtornado.com", [Tcp 50001; Ssl 50002]);
    ("electrum.taborsky.cz", [Ssl 50002]); ("electrum.villocq.com", [Tcp 50001; Ssl 50002]);
    ("electrum2.eff.ro", [Tcp 50001; Ssl 50002]); ("electrum2.villocq.com", [Tcp 50001; Ssl 50002]);
    ("electrumx.bot.nu", [Tcp 50001; Ssl 50002]); ("electrumx.ddns.net", [Tcp 50001; Ssl 50002]);
    ("electrumx.ftp.sh", [Ssl 50002]); ("electrumx.ml", [Tcp 50001; Ssl 50002]);
    ("electrumx.soon.it", [Tcp 50001; Ssl 50002]); ("electrumxhqdsmlu.onion", [Tcp 50001]);
    ("elx01.knas.systems", [Tcp 50001; Ssl 50002]); ("enode.duckdns.org", [Tcp 50001; Ssl 50002]);
    ("fedaykin.goip.de", [Tcp 50001; Ssl 50002]); ("fn.48.org", [Tcp 50003; Ssl 50002]);
    ("helicarrier.bauerj.eu", [Tcp 50001; Ssl 50002]); ("hsmiths4fyqlw5xw.onion", [Tcp 50001; Ssl 50002]);
    ("hsmiths5mjk6uijs.onion", [Tcp 50001; Ssl 50002]); ("icarus.tetradrachm.net", [Tcp 50001; Ssl 50002]);
    ("electrum.emzy.de", [Tcp 50001; Ssl 50002]); ("ndnd.selfhost.eu", [Tcp 50001; Ssl 50002]);
    ("ndndword5lpb7eex.onion", [Tcp 50001]); ("orannis.com", [Tcp 50001; Ssl 50002]);
    ("ozahtqwp25chjdjd.onion", [Tcp 50001; Ssl 50002]); ("qtornadoklbgdyww.onion", [Tcp 50001; Ssl 50002]);
    ("rbx.curalle.ovh", [Ssl 50002]); ("s7clinmo4cazmhul.onion", [Tcp 50001]);
    ("tardis.bauerj.eu", [Tcp 50001; Ssl 50002]); ("technetium.network", [Ssl 50002]);
    ("tomscryptos.com", [Tcp 50001; Ssl 50002]); ("ulrichard.ch", [Tcp 50001; Ssl 50002]);
    ("vmd27610.contaboserver.net", [Tcp 50001; Ssl 50002]); ("vmd30612.contaboserver.net", [Tcp 50001; Ssl 50002]);
    ("wsw6tua3xl24gsmi264zaep6seppjyrkyucpsmuxnjzyt3f3j6swshad.onion", [Tcp 50001; Ssl 50002]);
    ("xray587.startdedicated.de", [Ssl 50002]); ("yuio.top", [Tcp 50001; Ssl 50002]);
    ("bitcoin.dragon.zone", [Tcp 50003; Ssl 50004]); ("ecdsa.net", [Tcp 50001; Ssl 110]);
    ("btc.usebsv.com", [Ssl 50006]); ("e2.keff.org", [Tcp 50001; Ssl 50002]);
    ("electrum.hodlister.co", [Ssl 50002]); ("electrum3.hodlister.co", [Ssl 50002]);
    ("electrum5.hodlister.co", [Ssl 50002]); ("electrumx.electricnewyear.net", [Ssl 50002]);
    ("fortress.qtornado.com", [Tcp 50001; Ssl 443]);
    ("green-gold.westeurope.cloudapp.azure.com", [Tcp 56001; Ssl 56002]);
    ("electrumx.erbium.eu", [Tcp 50001; Ssl 50002]) ]%string.
Definition default_servers_testnet : list (string * list Service) :=
  [ ("hsmithsxurybd7uh.onion", [Tcp 53011; Ssl 53012]); ("testnet.hsmiths.com", [Tcp 53011; Ssl 53012]);
    ("testnet.qtornado.com", [Tcp 51001; Ssl 51002]); ("testnet1.bauerj.eu", [Tcp 50001; Ssl 50002]);
    ("tn.not.fyi", [Tcp 55001; Ssl 55002]); ("bitcoin.cluelessperson.com", [Tcp 51001; Ssl 51002]) ]%string.
Definition default_servers (network : Network) : list (string * list Service) :=
  match network with
  | Bitcoin => default_servers_bitcoin
  | Testnet => default_servers_testnet
  | _ => []
  end.
(** Each [add_default_server(..).ok()] in turn. *)
Definition add_default_servers dns (network : Network) (d : DiscoveryManager) : DiscoveryManager :=
  foldl (fun d p => (add_default_server dns (text_of p.1) p.2 d).1) d (default_servers network).
Definition discovery_new dns (our_network : Network) (features : ServerFeatures) (version : ProtocolVersion)
    (announce : bool) (tor_proxy : option SocketAddr) : DiscoveryManager :=
  let our_addrs := list_to_set (omap (fun p : Text * ServerPorts =>
    match resolve dns p.1 with Ok addr => Some addr | _ => None end) (hosts features)) in
  add_default_servers dns our_network (mkManager [] ∅ version our_addrs features announce tor_proxy).

(** ** Listing peers *)

Definition feature_strs (s : PeerServer) : list Text :=
  (text_of "v" ++ display_version (protocol_max (ps_features s))) ::
  option_list ((fun p => text_of "p" ++ display_usize p) <$> pruning (ps_features s)) ++
  map display_service (elements (services s)).
Definition ServerEntry : Type := ServerAddr * Text * list Text.
Definition get_servers d : list ServerEntry :=
  map (fun p : ServerAddr * PeerServer => (p.1, ps_hostname p.2, feature_strs p.2)) (map_to_list (dm_healthy d)).
Definition entry_json (e : ServerEntry) : Json :=
  JArr [JStr (display_addr e.1.1); JStr e.1.2; JArr (map JStr e.2)].
Definition server_peers_subscribe (discovery : option DiscoveryManager) : Json :=
  match discovery with None => JArr [] | Some d => JArr (map entry_json (get_servers d)) end.
(** [ip]: that of the stream, when it is a TCP connection. *)
Definition server_add_peer dns (ip : option IpAddr) (params : list Json) (discovery : option DiscoveryManager)
    : option DiscoveryManager * result Json :=
  match ip, discovery with
  | None, _ => (discovery, Err (Msg "Can't add peer with Unix sockets enabled"))
  | Some _, None => (None, Err (Msg "discovery is disabled"))
  | Some ip, Some d =>
      match params with
      | [] => (discovery, Err (Msg "missing features param"))
      | features :: _ =>
          match features_from_value features with
          | None => (discovery, Err (Msg "invalid features"))
          | Some features =>
              let r := add_server_request dns ip features d in (Some r.1, (fun _ => JBool true) <$> r.2)
          end
      end
  end.

(** ** Checking a peer *)

(** The reply of [server.features] as the [electrum-client] crate has it. *)
Record ServerFeaturesRes := mkRes {
  res_genesis_hash : FullHash; res_server_version : Text; res_protocol_min : Text; res_protocol_max : Text;
  res_pruning : option Z; res_hash_function : option Text }.
Lemma reverse_hash_len (h : FullHash) : length (reverse (as_bytes h)) = 32.
Proof. by rewrite length_reverse, as_bytes_length. Qed.
Definition reverse_hash (h : FullHash) : FullHash := dexist (reverse (as_bytes h)) (reverse_hash_len h).
Definition features_of_res (r : ServerFeaturesRes) : result ServerFeatures :=
  protocol_min ← chain_err "invalid protocol_min" (version_from_str (res_protocol_min r));
  protocol_max ← chain_err "invalid protocol_max" (version_from_str (res_protocol_max r));
  hash_function ← ok_or (Msg "missing hash_function") (res_hash_function r);
  Ok (mkFeatures [] (reverse_hash (res_genesis_hash r)) (res_server_version r) protocol_min protocol_max
        (wrap64 <$> res_pruning r) hash_function).

Definition server_url (addr : ServerAddr) (hostname : Text) (service : Service) : Text :=
  match addr, service with
  | Clearnet ip, Tcp port => text_of "tcp://" ++ display_ip ip ++ text_of ":" ++ display_usize port
  | Clearnet _, Ssl port => text_of "ssl://" ++ hostname ++ text_of ":" ++ display_usize port
  | Onion onion_host, Tcp port => text_of "tcp://" ++ onion_host ++ text_of ":" ++ display_usize port
  | Onion onion_host, Ssl port => text_of "ssl://" ++ onion_host ++ text_of ":" ++ display_usize port
  end.
(** What the client of the crate gets from a URL, through a proxy or not. *)
Definition Peers : Type := Text -> option SocketAddr -> ErrorKind + ServerFeaturesRes.
Definition check_server (peers : Peers) d (addr : ServerAddr) (hostname : Text) (service : Service)
    : result ServerFeatures :=
  proxy ← match addr with
          | Onion _ => Some <$> ok_or (Msg "no tor proxy configured, onion hosts are unsupported") (tor_proxy d)
          | Clearnet _ => Ok None
          end;
  res ← match peers (server_url addr hostname service) proxy with inl e => Err e | inr res => Ok res end;
  features ← features_of_res res;
  _ ← verify_compatibility d features;
  if announce d then Err (Msg "server.add_peer is not on this electrum-client") else Ok features.

(** ** Filing the result *)

Definition save_healthy_service job (features : ServerFeatures) : SR DiscoveryManager unit :=
  modify (fun d =>
    let server := default (mkPeer ∅ (hc_hostname job) features) (dm_healthy d !! hc_addr job) in
    set_healthy (<[hc_addr job := mkPeer ({[hc_service job]} ∪ services server) (ps_hostname server)
                                         (ps_features server)]> (dm_healthy d)) d).
Definition remove_unhealthy_service job : SR DiscoveryManager unit :=
  transition (fun d =>
    match dm_healthy d !! hc_addr job with
    | Some server =>
        _ ← rassert (bool_decide (hc_service job ∈ services server));
        let services := services server ∖ {[hc_service job]} in
        Ok (set_healthy (if bool_decide (services = ∅) then delete (hc_addr job) (dm_healthy d)
              else <[hc_addr job := mkPeer services (ps_hostname server) (ps_features server)]> (dm_healthy d)) d)
    | None => Panic
    end).

(** The first lock: the table of healthy services. *)
Definition file_result job (check : result ServerFeatures) : SR DiscoveryManager unit :=
  match check with
  | Ok features => if is_healthy job then mret tt else save_healthy_service job features
  | Err _ => if is_healthy job then remove_unhealthy_service job else mret tt
  | Panic => lift Panic
  | Diverge => lift Diverge
  end.
Definition checked (now : Z) job (check : result ServerFeatures) : HealthCheck :=
  match check with
  | Ok _ => mkCheck (hc_addr job) (hc_hostname job) (hc_service job) (is_default job) (added_by job)
              (Some now) (Some now) 0
  | _ => mkCheck (hc_addr job) (hc_hostname job) (hc_service job) (is_default job) (added_by job)
           (Some now) (last_healthy job) (wrap64 (consecutive_failures job + 1))
  end.
(** The second: the next check of this service, if there is to be one. *)
Definition rescheduled (now : Z) job (check : result ServerFeatures) : option HealthCheck :=
  let job := checked now job check in
  match check with Ok _ => Some job | _ => if should_retry job then Some job else None end.
Definition push_check job : SR DiscoveryManager unit := modify (fun d => set_queue (dm_queue d ++ [job]) d).

(** [t.elapsed() < HEALTH_CHECK_FREQ] for the next check; [elapsed] saturates. *)
Definition too_early (now : Z) d : bool :=
  match pop_max (dm_queue d) with
  | None => true
  | Some (next, _) =>
      match last_check next with
      | Some t => (Z.max 0 (now - t) <? HEALTH_CHECK_FREQ)%Z
      | None => false
      end
  end.
(** The whole of one run, with [pop] the choice of the heap and [later] the time after the check. *)
Definition run_health_check (pop : list HealthCheck -> option (HealthCheck * list HealthCheck)) (peers : Peers)
    (now later : Z) : SR DiscoveryManager unit :=
  early ← gets (too_early now);
  if early : bool then mret tt
  else
    p ← (q ← gets dm_queue; lift (unwrap (pop q)));
    _ ← modify (set_queue p.2);
    check ← gets (fun d => check_server peers d (hc_addr p.1) (hc_hostname p.1) (hc_service p.1));
    _ ← file_result p.1 check;
    _ ← match rescheduled later p.1 check with Some job => push_check job | None => mret tt end;
    lift ((fun _ => tt) <$> check).

(** ** The jobs thread among requests *)

(** Where the thread is: between two runs, after the look at the queue, with the check it
    took, before it puts the check back, or gone in a panic. *)
Inductive JobsThread := Waiting | Peeked | Checking (job : HealthCheck) | Pushing (job : HealthCheck) | Crashed.
Record DiscoveryState := mkState { ds_manager : DiscoveryManager; ds_thread : JobsThread; ds_clock : Z }.

Inductive discovery_step : DiscoveryState -> DiscoveryState -> Prop :=
  | step_tick d th now now' :
      (now <= now')%Z -> discovery_step (mkState d th now) (mkState d th now')
  | step_add d th now dns by_ features :
      discovery_step (mkState d th now) (mkState (add_server_request dns by_ features d).1 th now)
  | step_peek d now :
      too_early now d = false -> discovery_step (mkState d Waiting now) (mkState d Peeked now)
  | step_pop d now job rest :
      heap_pop (dm_queue d) job rest ->
      discovery_step (mkState d Peeked now) (mkState (set_queue rest d) (Checking job) now)
  | step_pop_empty d now :
      dm_queue d = [] -> discovery_step (mkState d Peeked now) (mkState d Crashed now)
  | step_file d now job peers check d' :
      check = check_server peers d (hc_addr job) (hc_hostname job) (hc_service job) ->
      file_result job check d = (d', Ok tt) ->
      discovery_step (mkState d (Checking job) now)
        (mkState d' (match rescheduled now job check with Some job' => Pushing job' | None => Waiting end) now)
  | step_file_panic d now job peers d' :
      file_result job (check_server peers d (hc_addr job) (hc_hostname job) (hc_service job)) d = (d', Panic) ->
      discovery_step (mkState d (Checking job) now) (mkState d' Crashed now)
  | step_push d now job :
      discovery_step (mkState d (Pushing job) now) (mkState (push_check job d).1 Waiting now).

(** The checks that exist: those of the queue and the one the thread holds. *)
Definition thread_check (th : JobsThread) : list HealthCheck :=
  match th with Checking job | Pushing job => [job] | _ => [] end.
Definition all_checks (s : DiscoveryState) : list HealthCheck := thread_check (ds_thread s) ++ dm_queue (ds_manager s).
Definition check_key job : ServerAddr * Service := (hc_addr job, hc_service job).
End discovery.
