(* ===== verification/DiscoveryFacts.v ===== *)
(** * What peer discovery keeps

    In every interleaving of requests with the jobs thread: the queue is bounded, every
    check was admitted by the rules for its kind, a failing peer is given up after
    twenty-four checks ([discovery_bounded]).  As long as no two checks are for the same
    service of the same address, the table of healthy services is exactly the checks
    that passed last, and the thread never panics ([discovery_table_exact]).  Nothing in
    the code keeps checks apart in this way: [duplicate_hosts_crash] follows one request
    with two names of one address to the panic. *)

From S2P Require Import Prelude Text Json Bitcoin Electrum Front Discovery.

(** ** The heap *)

Lemma cmp_instant_antisym a b : cmp_instant b a = CompOpp (cmp_instant a b).
Proof. destruct a, b; cbn; try done. apply Z.compare_antisym. Qed.
Lemma cmp_instant_le_trans a b c : cmp_instant a b <> Gt -> cmp_instant b c <> Gt -> cmp_instant a c <> Gt.
Proof. destruct a, b, c; cbn; try done. intros H1 H2 H3. apply Z.compare_gt_iff in H3. rewrite Z.compare_gt_iff in *. lia. Qed.
(** [a] was checked no later than [b]. *)
Lemma check_cmp_le a b : check_cmp b a <> Gt <-> cmp_instant (last_check a) (last_check b) <> Gt.
Proof. unfold check_cmp. rewrite cmp_instant_antisym. by destruct (cmp_instant (last_check a) (last_check b)). Qed.
Lemma check_cmp_gt a b : check_cmp a b = Gt -> check_cmp b a <> Gt.
Proof. unfold check_cmp. rewrite (cmp_instant_antisym (last_check a)). by destruct (cmp_instant _ _). Qed.

Lemma pop_max_heap q m rest : pop_max q = Some (m, rest) -> heap_pop q m rest.
Proof.
  revert m rest. induction q as [|j q IH]; intros m rest; [done|]. cbn.
  destruct (pop_max q) as [[m' rest']|] eqn:E.
  - destruct (IH _ _ eq_refl) as [Hp Hle]. destruct (check_cmp m' j) eqn:Ec; intros [= <- <-].
    1,2: split; [done|]; rewrite Hp; constructor; [congruence|];
      eapply Forall_impl; [exact Hle|]; cbn; intros x Hx; rewrite check_cmp_le in *;
      eapply cmp_instant_le_trans; [|exact Hx]; apply check_cmp_le; congruence.
    split; [by rewrite Hp, Permutation_swap|]. constructor; [by apply check_cmp_gt|done].
  - destruct q as [|k q]; [|cbn in E; destruct (pop_max q) as [[]|]; [by destruct (check_cmp _ k)|done]].
    intros [= <- <-]. split; [done|constructor].
Qed.
Lemma pop_max_None q : pop_max q = None <-> q = [].
Proof.
  split; [|by intros ->]. destruct q as [|j q]; [done|]. cbn.
  destruct (pop_max q) as [[m r]|]; [by destruct (check_cmp m j)|done].
Qed.

(** A check whose turn has come. *)
Definition due (now : Z) (job : HealthCheck) : Prop :=
  forall t, last_check job = Some t -> (t + HEALTH_CHECK_FREQ <= now)%Z.
Lemma due_later now now' job : (now <= now')%Z -> due now job -> due now' job.
Proof. intros Hle Hd t Ht. specialize (Hd t Ht). lia. Qed.
Lemma due_before now a b : cmp_instant (last_check a) (last_check b) <> Gt -> due now b -> due now a.
Proof.
  unfold due. intros Hle Hb t Ht. rewrite Ht in Hle. destruct (last_check b) as [u|]; cbn in Hle; [|done].
  specialize (Hb u eq_refl). rewrite Z.compare_gt_iff in Hle. lia.
Qed.
Lemma too_early_false now d :
  too_early now d = false -> exists job, job ∈ dm_queue d /\ due now job.
Proof.
  unfold too_early. destruct (pop_max (dm_queue d)) as [[next rest]|] eqn:E; [|done].
  apply pop_max_heap in E as [Hp _]. intros H. exists next. split; [rewrite Hp; by left|].
  intros t Ht. rewrite Ht in H. apply Z.ltb_ge in H. unfold HEALTH_CHECK_FREQ in *. lia.
Qed.
(** What the heap gives is due when anything in it is. *)
Lemma heap_pop_due now q job rest j : heap_pop q job rest -> j ∈ q -> due now j -> due now job.
Proof.
  intros [Hp Hle] Hj Hd. rewrite Hp in Hj. apply elem_of_cons in Hj as [->|Hj]; [done|].
  rewrite Forall_forall in Hle. apply (due_before now job j); [|done]. by apply check_cmp_le, Hle.
Qed.

Section facts.
Context `{!DiscoveryLib}.
Implicit Types (dns : Resolver) (d : DiscoveryManager) (job : HealthCheck) (s : DiscoveryState).

(** ** Requests *)

(** What a request may add: never a local address or our own, and an IP address only from
    the client that has it. *)
Record admitted (our : gset ServerAddr) job : Prop := {
  adm_default : is_default job = bool_decide (added_by job = None);
  adm_remote ip : added_by job = Some ip -> is_remote_addr (hc_addr job) = true;
  adm_foreign ip : added_by job = Some ip -> hc_addr job ∉ our;
  adm_source ip ip' : added_by job = Some ip -> hc_addr job = Clearnet ip' -> ip' = ip;
  adm_hostname ip : added_by job = Some ip -> (utf8_len (hc_hostname job) <= 100)%Z }.
(** A check as it is when it is added. *)
Definition fresh job : Prop := last_check job = None /\ last_healthy job = None /\ consecutive_failures job = 0%Z.

Lemma candidate_host_Some dns our by_ host addr hostname ports :
  candidate_host dns our by_ host = Some (addr, hostname, ports) ->
  is_remote_addr addr = true /\ (addr ∉ our) /\ (forall ip, addr = Clearnet ip -> ip = by_) /\
  (utf8_len hostname <= 100)%Z /\ resolve dns hostname = Ok addr /\ hostname = to_lowercase host.1 /\ ports = host.2.
Proof.
  unfold candidate_host. destruct (Z.ltb_spec 100 (utf8_len (to_lowercase host.1))); [done|].
  destruct (resolve dns (to_lowercase host.1)) as [a| | |] eqn:E; [|done..].
  destruct (is_remote_addr a) eqn:Er; [|done]. cbn [negb orb].
  destruct (bool_decide_reflect (a ∈ our)); [done|]. destruct a as [ip|h].
  - destruct (bool_decide_reflect (ip <> by_)) as [|Hip]; [done|]. intros [= <- <- <-]. apply dec_stable in Hip as ->.
    repeat split; naive_solver.
  - intros [= <- <- <-]. repeat split; naive_solver.
Qed.
Lemma host_checks_elem existing by_ c job :
  job ∈ host_checks existing by_ c ->
  exists service, job = new_check c.1.1 c.1.2 service (Some by_) /\ service ∈ port_services c.2 /\
    (forall sv, existing !! c.1.1 = Some sv -> service ∉ sv).
Proof.
  destruct c as [[addr hostname] ports]. cbn. rewrite list_elem_of_fmap. intros (service & -> & Hs).
  exists service. split; [done|]. rewrite list_elem_of_In, filter_In, <- list_elem_of_In in Hs. destruct Hs as [Hs Hn].
  split; [done|]. intros sv Hsv Hin. rewrite Hsv in Hn. by rewrite bool_decide_eq_true_2 in Hn.
Qed.
Lemma request_checks_elem dns d by_ features job :
  job ∈ request_checks dns d by_ features -> added_by job = Some by_ /\ admitted (our_addrs d) job /\ fresh job.
Proof.
  unfold request_checks. intros Hj. apply elem_of_take in Hj as (i & Hj & _). apply list_elem_of_lookup_2 in Hj.
  apply elem_of_concat_map in Hj as ([[addr hostname] ports] & Hc & Hj).
  apply list_elem_of_omap in Hc as (host & _ & Hc). apply candidate_host_Some in Hc as (Hr & Ho & Hip & Hlen & _).
  apply host_checks_elem in Hj as (service & -> & _). cbn in *. repeat split; cbn; naive_solver.
Qed.
Lemma request_checks_length dns d by_ features : length (request_checks dns d by_ features) <= MAX_SERVICES_PER_REQUEST.
Proof. unfold request_checks. rewrite length_take. lia. Qed.
(** A request is refused, or its checks join the queue within the limit. *)
Lemma add_server_request_cases dns by_ features d :
  (add_server_request dns by_ features d).1 = d \/
  ((add_server_request dns by_ features d).1 = set_queue (dm_queue d ++ request_checks dns d by_ features) d /\
   length (dm_queue d ++ request_checks dns d by_ features) <= MAX_QUEUE_SIZE).
Proof.
  unfold add_server_request, transition. destruct (verify_compatibility d features) as [[]| | |]; cbn [mbind result_bind]; [|by left..].
  destruct (length (dm_queue d) <? MAX_QUEUE_SIZE); cbn [negb]; [|by left].
  destruct (Nat.leb_spec (length (dm_queue d) + length (request_checks dns d by_ features)) MAX_QUEUE_SIZE); cbn [negb]; [|by left].
  right. split; [done|]. by rewrite length_app.
Qed.

(** ** Checks *)

Lemma verify_compatibility_cases d features :
  verify_compatibility d features = Ok tt \/ exists e, verify_compatibility d features = Err e.
Proof. unfold verify_compatibility. repeat case_match; eauto. Qed.
Lemma features_of_res_cases r : is_ok (features_of_res r) \/ exists e, features_of_res r = Err e.
Proof.
  assert (forall t, is_ok (version_from_str t) \/ exists e, version_from_str t = Err e) as Hv.
  { intros t. unfold version_from_str. destruct (head (split_on 46 t)) as [a|]; cbn; [|eauto].
    destruct (parse_usize a); cbn; [|eauto]. destruct (head (tail (split_on 46 t))) as [b|]; cbn; [|eauto].
    destruct (parse_usize b); cbn; [|eauto]. left. by eexists. }
  unfold features_of_res. destruct (Hv (res_protocol_min r)) as [[v1 ->]|[e ->]]; cbn; [|eauto].
  destruct (Hv (res_protocol_max r)) as [[v2 ->]|[e ->]]; cbn; [|eauto].
  destruct (res_hash_function r); cbn; [|eauto]. left. by eexists.
Qed.
Lemma check_server_cases peers d addr hostname service :
  (exists f, check_server peers d addr hostname service = Ok f) \/
  exists e, check_server peers d addr hostname service = Err e.
Proof.
  unfold check_server.
  destruct (match addr with Onion _ => _ | Clearnet _ => _ end) as [proxy| | |] eqn:Ep; cbn; [|eauto|..];
    [|destruct addr; [done|]; destruct (tor_proxy d); done..].
  destruct (peers _ proxy) as [e|res]; cbn; [eauto|].
  destruct (features_of_res_cases res) as [[f ->]|[e ->]]; cbn; [|eauto].
  destruct (verify_compatibility_cases d f) as [->|[e ->]]; cbn; [|eauto]. destruct (announce d); eauto.
Qed.
(** A server that is to announce itself finds no peer healthy. *)
Lemma announce_finds_none peers d addr hostname service f :
  announce d = true -> check_server peers d addr hostname service <> Ok f.
Proof.
  intros Ha. unfold check_server. rewrite Ha.
  destruct (match addr with Onion _ => _ | Clearnet _ => _ end); cbn; try done.
  destruct (peers _ _); cbn; [done|]. destruct (features_of_res _); cbn; try done.
  destruct (verify_compatibility _ _); done.
Qed.

(** ** Every interleaving *)

(** A check that exists: when it was made, what is known of it, and how often it failed. *)
Record check_ok (our : gset ServerAddr) (builtin : list ServerAddr) (now : Z) job : Prop := {
  ok_admitted : admitted our job;
  ok_builtin : is_default job = true -> hc_addr job ∈ builtin;
  ok_times : match last_check job with
             | None => last_healthy job = None
             | Some t => (t <= now)%Z /\ forall t', last_healthy job = Some t' -> (t' <= t)%Z
             end;
  ok_failures : (0 <= consecutive_failures job < MAX_CONSECUTIVE_FAILURES)%Z;
  ok_kept : (0 < consecutive_failures job)%Z -> is_Some (last_healthy job) \/ is_default job = true }.
Definition peer_ok (our : gset ServerAddr) (builtin : list ServerAddr) (addr : ServerAddr) : Prop :=
  addr ∈ builtin \/ (is_remote_addr addr = true /\ addr ∉ our).
Definition thread_ok s : Prop :=
  match ds_thread s with
  | Peeked => exists job, job ∈ dm_queue (ds_manager s) /\ due (ds_clock s) job
  | Checking job => due (ds_clock s) job
  | _ => True
  end.
Record discovery_inv (our : gset ServerAddr) (builtin : list ServerAddr) s : Prop := {
  inv_our : our_addrs (ds_manager s) = our;
  inv_checks : Forall (check_ok our builtin (ds_clock s)) (all_checks s);
  inv_thread : thread_ok s;
  inv_length : length (all_checks s) <= S MAX_QUEUE_SIZE;
  inv_listed addr : is_Some (dm_healthy (ds_manager s) !! addr) -> peer_ok our builtin addr }.

Lemma check_ok_later our builtin now now' job :
  (now <= now')%Z -> check_ok our builtin now job -> check_ok our builtin now' job.
Proof. intros Hle []. split; try done. destruct (last_check job); [|done]. naive_solver lia. Qed.
Lemma fresh_ok our builtin now job :
  fresh job -> admitted our job -> (is_default job = true -> hc_addr job ∈ builtin) -> check_ok our builtin now job.
Proof.
  intros (Hc & Hh & Hf) Ha Hb. split; try done; rewrite ?Hc, ?Hf; unfold MAX_CONSECUTIVE_FAILURES; [done|lia..].
Qed.
Lemma check_ok_peer our builtin now job : check_ok our builtin now job -> peer_ok our builtin (hc_addr job).
Proof.
  intros [Ha Hb _ _ _]. destruct (added_by job) as [ip|] eqn:E.
  - right. split; [by eapply adm_remote|by eapply adm_foreign].
  - left. apply Hb. rewrite (adm_default _ _ Ha), E. by apply bool_decide_eq_true_2.
Qed.
(** A due check was last healthy before now. *)
Lemma due_healthy_past our builtin now job t :
  check_ok our builtin now job -> due now job -> last_healthy job = Some t -> (t < now)%Z.
Proof.
  intros [_ _ Ht _ _] Hd Hh. destruct (last_check job) as [u|] eqn:E; [|congruence]. specialize (Hd u E).
  unfold HEALTH_CHECK_FREQ in Hd. destruct Ht as [_ Ht]. specialize (Ht t Hh). lia.
Qed.
(** What is put back, or forgotten. *)
Lemma rescheduled_ok our builtin now job peers d job' :
  check_ok our builtin now job ->
  rescheduled now job (check_server peers d (hc_addr job) (hc_hostname job) (hc_service job)) = Some job' ->
  check_ok our builtin now job' /\ check_key job' = check_key job.
Proof.
  intros [[A1 A2 A3 A4 A5] Hb Ht Hf Hk] Hr. unfold rescheduled in Hr.
  destruct (check_server_cases peers d (hc_addr job) (hc_hostname job) (hc_service job)) as [[f E]|[e E]]; rewrite E in Hr; cbn in Hr.
  - injection Hr as <-. split; [|done]. split; cbn; [by split|done|split; [lia|naive_solver lia]|unfold MAX_CONSECUTIVE_FAILURES; lia|lia].
  - destruct (should_retry _) eqn:Er; [|done]. injection Hr as <-. split; [|done].
    apply andb_prop in Er as [Er1 Er2]. cbn in Er1, Er2. apply Z.ltb_lt in Er2. apply orb_prop in Er1.
    assert (0 <= wrap64 (consecutive_failures job + 1))%Z by (unfold wrap64, u64_mod; apply Z.mod_pos_bound; lia).
    split; cbn; [by split|done| |done|].
    + split; [lia|]. intros t' Hh. rewrite Hh in Ht. destruct (last_check job); [|done]. destruct Ht as [? Ht]. specialize (Ht _ eq_refl). lia.
    + intros _. destruct Er1 as [Er1|]; [|by right]. left. by apply bool_decide_eq_true_1 in Er1.
Qed.
(** The table gains an address only from a check. *)
Lemma file_result_listed job check d d' r addr :
  file_result job check d = (d', r) -> is_Some (dm_healthy d' !! addr) ->
  addr = hc_addr job \/ is_Some (dm_healthy d !! addr).
Proof.
  unfold file_result. destruct check as [f|e| |]; [destruct (is_healthy job)..|by intros [= <- <-]; auto|by intros [= <- <-]; auto].
  - intros [= <- <-]. auto.
  - intros [= <- <-]. cbn. destruct (decide (addr = hc_addr job)) as [->|Hne]; [by left|]. rewrite lookup_insert_ne by done. auto.
  - unfold remove_unhealthy_service, transition. destruct (dm_healthy d !! hc_addr job) as [server|] eqn:E; [|intros [= <- <-]; auto].
    destruct (bool_decide (hc_service job ∈ services server)); cbn; intros [= <- <-]; cbn; [|by auto].
    case_bool_decide; destruct (decide (addr = hc_addr job)) as [->|Hne]; auto.
    + rewrite lookup_delete_ne by done. auto.
    + rewrite lookup_insert_ne by done. auto.
  - intros [= <- <-]. auto.
Qed.
Lemma file_result_frame job check d d' r :
  file_result job check d = (d', r) -> dm_queue d' = dm_queue d /\ our_addrs d' = our_addrs d.
Proof.
  unfold file_result. destruct check as [f|e| |]; [destruct (is_healthy job)..|by intros [= <- <-]; auto|by intros [= <- <-]; auto];
    try by intros [= <- <-].
  unfold remove_unhealthy_service, transition. destruct (dm_healthy d !! hc_addr job) as [server|]; [|by intros [= <- <-]].
  destruct (bool_decide (hc_service job ∈ services server)); cbn; by intros [= <- <-].
Qed.

Lemma add_request_inv our builtin dns by_ features d th now :
  discovery_inv our builtin (mkState d th now) ->
  discovery_inv our builtin (mkState (add_server_request dns by_ features d).1 th now).
Proof.
  intros Hi. destruct (add_server_request_cases dns by_ features d) as [->|[-> Hlen]]; [done|].
  destruct Hi as [Ho Hc Ht _ Hl]. split; cbn in *; try done.
  - unfold all_checks in *. cbn in *. rewrite (assoc app). apply Forall_app. split; [done|].
    apply Forall_forall. intros job Hj. apply request_checks_elem in Hj as (Hby & Ha & Hf). rewrite Ho in Ha.
    apply fresh_ok; [done..|]. rewrite (adm_default _ _ Ha), Hby. done.
  - destruct th; try done. destruct Ht as (job & Hj & Hd). exists job. set_solver.
  - unfold all_checks. cbn. rewrite length_app. destruct th; cbn in *; lia.
Qed.
(** Every step keeps the invariant. *)
Lemma step_inv our builtin s s' : discovery_step s s' -> discovery_inv our builtin s -> discovery_inv our builtin s'.
Proof.
  intros Hs Hi. destruct Hs as [d th now now' Hle|d th now dns by_ features|d now He|d now job rest Hp|d now He
    |d now job peers check d' Hck Hf|d now job peers d' Hf|d now job].
  - destruct Hi as [Ho Hc Ht Hn Hl]. split; try done; cbn in *.
    + eapply Forall_impl; [exact Hc|]. intros job. by apply check_ok_later.
    + unfold thread_ok in *. cbn in *. destruct th; try done; [|by eapply due_later].
      destruct Ht as (job & Hj & Hd). exists job. split; [done|by eapply due_later].
  - by apply add_request_inv.
  - destruct Hi as [Ho Hc Ht Hn Hl]. split; try done. by apply too_early_false.
  - destruct Hi as [Ho Hc (j & Hj & Hd) Hn Hl]. cbn in *. pose proof (heap_pop_due _ _ _ _ _ Hp Hj Hd) as Hdue.
    destruct Hp as [Hp _]. unfold all_checks in *. cbn in *. split; try done; unfold all_checks; cbn.
    + by rewrite <- Hp.
    + change (length (job :: rest) <= S MAX_QUEUE_SIZE). by rewrite <- Hp.
  - destruct Hi as [Ho Hc Ht Hn Hl]. by split.
  - destruct Hi as [Ho Hc Ht Hn Hl]. destruct (file_result_frame _ _ _ _ _ Hf) as [Hq Ho'].
    unfold all_checks, thread_ok in *. cbn in *. apply Forall_cons in Hc as [Hjob Hc].
    assert (forall addr, is_Some (dm_healthy d' !! addr) -> peer_ok our builtin addr) as Hlisted.
    { intros addr Ha. destruct (file_result_listed _ _ _ _ _ _ Hf Ha) as [->|Ha']; [by eapply check_ok_peer|auto]. }
    subst check. destruct (rescheduled now job _) as [job'|] eqn:Er; split; unfold all_checks, thread_ok; cbn; rewrite ?Hq; try done;
      [congruence| |congruence|lia].
    constructor; [|done]. by eapply (rescheduled_ok our builtin).
  - destruct Hi as [Ho Hc Ht Hn Hl]. destruct (file_result_frame _ _ _ _ _ Hf) as [Hq Ho'].
    unfold all_checks in *. cbn in *. apply Forall_cons in Hc as [Hjob Hc].
    split; unfold all_checks; cbn; rewrite ?Hq; try done; [congruence|lia|].
    intros addr Ha. destruct (file_result_listed _ _ _ _ _ _ Hf Ha) as [->|Ha']; [by eapply check_ok_peer|auto].
  - destruct Hi as [Ho Hc Ht Hn Hl]. unfold all_checks in *. cbn in *. split; try done; unfold all_checks; cbn.
    + apply Forall_cons in Hc as [? ?]. apply Forall_app. by split; [|constructor].
    + rewrite length_app. cbn. lia.
Qed.

(** ** The table of healthy services *)

Definition listed d (addr : ServerAddr) (service : Service) : Prop :=
  exists server, dm_healthy d !! addr = Some server /\ service ∈ services server.
(** The table has the services whose last check passed, and no server without a service. *)
Record table_exact s : Prop := {
  te_listed addr service : listed (ds_manager s) addr service <->
    exists job, job ∈ all_checks s /\ check_key job = (addr, service) /\ is_healthy job = true;
  te_nonempty addr server : dm_healthy (ds_manager s) !! addr = Some server -> services server <> ∅ }.

Lemma fresh_unhealthy job : fresh job -> is_healthy job = false.
Proof. intros (H1 & H2 & _). unfold is_healthy. by rewrite H1. Qed.
Lemma checked_ok_healthy now job f : is_healthy (checked now job (Ok f)) = true.
Proof. apply Z.eqb_refl. Qed.
Lemma checked_err_unhealthy our builtin now job e :
  check_ok our builtin now job -> due now job -> is_healthy (checked now job (Err e)) = false.
Proof.
  intros Hok Hd. unfold is_healthy. cbn. destruct (last_healthy job) as [t|] eqn:E; [|done].
  apply Z.eqb_neq. pose proof (due_healthy_past _ _ _ _ _ Hok Hd E). lia.
Qed.
(** Exactness only depends on which checks there are and which of them are healthy. *)
Lemma table_exact_ext s s' :
  dm_healthy (ds_manager s') = dm_healthy (ds_manager s) ->
  (forall key, (exists job, job ∈ all_checks s' /\ check_key job = key /\ is_healthy job = true) <->
               (exists job, job ∈ all_checks s /\ check_key job = key /\ is_healthy job = true)) ->
  table_exact s -> table_exact s'.
Proof.
  intros Hh Hk [Hl Hn]. split; [|intros addr server; rewrite Hh; apply Hn].
  intros addr service. unfold listed. rewrite Hh. rewrite (Hk (addr, service)). apply Hl.
Qed.
Lemma save_listed job f d addr service :
  listed (save_healthy_service job f d).1 addr service <->
  (addr, service) = check_key job \/ listed d addr service.
Proof.
  unfold listed, check_key. cbn. destruct (decide (addr = hc_addr job)) as [->|Hne].
  - rewrite lookup_insert_eq. split.
    + intros (server & [= <-] & Hs). cbn in Hs. apply elem_of_union in Hs as [->%elem_of_singleton|Hs]; [by left|right].
      destruct (dm_healthy d !! hc_addr job) as [server|] eqn:E; cbn in Hs; [by exists server|by apply elem_of_empty in Hs].
    + intros [[= ->]|(server & -> & Hs)]; eexists; (split; [done|]); cbn; set_solver.
  - rewrite lookup_insert_ne by done. split; [by right|]. intros [[= -> ->]|Hd]; done.
Qed.
Lemma save_nonempty job f d addr server :
  (forall a sv, dm_healthy d !! a = Some sv -> services sv <> ∅) ->
  dm_healthy (save_healthy_service job f d).1 !! addr = Some server -> services server <> ∅.
Proof.
  intros Hn. cbn. destruct (decide (addr = hc_addr job)) as [->|Hne].
  - rewrite lookup_insert_eq. intros [= <-]. cbn. set_solver.
  - rewrite lookup_insert_ne by done. apply Hn.
Qed.
(** Removing a listed service succeeds and removes it alone. *)
Lemma remove_listed job d :
  listed d (hc_addr job) (hc_service job) ->
  exists d', remove_unhealthy_service job d = (d', Ok tt) /\
    (forall addr service, listed d' addr service <-> listed d addr service /\ (addr, service) <> check_key job) /\
    ((forall a sv, dm_healthy d !! a = Some sv -> services sv <> ∅) ->
     forall a sv, dm_healthy d' !! a = Some sv -> services sv <> ∅).
Proof.
  intros (server & E & Hs). unfold remove_unhealthy_service, transition, listed, check_key. rewrite E.
  rewrite (bool_decide_eq_true_2 (hc_service job ∈ services server)) by done. cbn [rassert mbind result_bind].
  eexists. split; [done|]. cbn. case_bool_decide as Hempty; split.
  - intros addr service. destruct (decide (addr = hc_addr job)) as [->|Hne].
    + rewrite lookup_delete_eq. split; [naive_solver|]. intros ((sv & Hsv & Hin) & Hk). simplify_eq. exfalso.
      apply (not_elem_of_empty (C:=gset Service) service). rewrite <- Hempty. apply elem_of_difference. split; [done|].
      rewrite elem_of_singleton. congruence.
    + rewrite lookup_delete_ne by done. naive_solver.
  - intros Hn a sv. destruct (decide (a = hc_addr job)) as [->|Hne]; [by rewrite lookup_delete_eq|].
    rewrite lookup_delete_ne by done. apply Hn.
  - intros addr service. destruct (decide (addr = hc_addr job)) as [->|Hne].
    + rewrite lookup_insert_eq, E. split.
      * intros (sv & [= <-] & Hin). cbn in Hin. split; [exists server; set_solver|]. intros [= ->]. set_solver.
      * intros ((sv & [= <-] & Hin) & Hk). eexists. split; [done|]. cbn.
        apply elem_of_difference. split; [done|]. rewrite elem_of_singleton. congruence.
    + rewrite lookup_insert_ne by done. naive_solver.
  - intros Hn a sv. destruct (decide (a = hc_addr job)) as [->|Hne]; [rewrite lookup_insert_eq; by intros [= <-]|].
    rewrite lookup_insert_ne by done. apply Hn.
Qed.

(** The result of a check is filed without a panic, and the table stays exact. *)
Lemma file_exact our builtin d now job peers :
  let s := mkState d (Checking job) now in
  let check := check_server peers d (hc_addr job) (hc_hostname job) (hc_service job) in
  discovery_inv our builtin s -> NoDup (check_key <$> all_checks s) -> table_exact s ->
  exists d', file_result job check d = (d', Ok tt) /\
    table_exact (mkState d' (match rescheduled now job check with Some job' => Pushing job' | None => Waiting end) now).
Proof.
  intros s check Hi Hnd Hte. destruct Hi as [Ho Hc Hdue _ _]. unfold all_checks, thread_ok in Hc, Hdue. cbn in Hc, Hdue.
  apply Forall_cons in Hc as [Hjob _]. cbn in Hnd. apply NoDup_cons in Hnd as [Hnew _].
  assert (forall th d' r, file_result job check d = (d', r) -> forall j, j ∈ all_checks (mkState d' th now) <->
    j ∈ thread_check th \/ j ∈ dm_queue d) as Hall.
  { intros th d' r Hf j. unfold all_checks. cbn. destruct (file_result_frame _ _ _ _ _ Hf) as [-> _]. apply elem_of_app. }
  assert (forall j, j ∈ dm_queue d -> check_key j <> check_key job) as Hother.
  { intros j Hj He. apply Hnew. rewrite <- He. by apply list_elem_of_fmap_2. }
  assert (forall addr service, listed d addr service <->
    exists j, (j = job \/ j ∈ dm_queue d) /\ check_key j = (addr, service) /\ is_healthy j = true) as Htl.
  { intros addr service. pose proof (te_listed s Hte addr service) as Hl. unfold s, all_checks in Hl. cbn in Hl.
    rewrite Hl. by setoid_rewrite elem_of_cons. }
  subst check.
  destruct (check_server_cases peers d (hc_addr job) (hc_hostname job) (hc_service job)) as [[f E]|[e E]]; rewrite E in *; cbn.
  - pose proof (checked_ok_healthy now job f) as Hhealthy. cbn in Hhealthy. destruct (is_healthy job) eqn:Eh.
    + exists d. split; [done|]. apply (table_exact_ext s); [done| |done]. intros key.
      unfold all_checks. cbn. setoid_rewrite elem_of_cons. split; intros (j & [->|Hj] & Hk & Hhj); eauto.
    + eexists. split; [done|]. split; [|intros a sv; apply save_nonempty, (te_nonempty _ Hte)].
      intros addr service. rewrite (save_listed job f d), Htl. unfold all_checks. cbn. setoid_rewrite elem_of_cons.
      split.
      * intros [Hk|(j & [->|Hj] & Hk & Hhj)]; [|congruence|]; eauto.
      * intros (j & [->|Hj] & Hk & Hhj); [by left|right]. eauto.
  - pose proof (checked_err_unhealthy _ _ _ _ e Hjob Hdue) as Hun. cbn in Hun. unfold rescheduled. cbn.
    assert (forall d' key, dm_queue d' = dm_queue d -> (exists j, j ∈ all_checks (mkState d' (if should_retry (checked now job (Err e))
        then Pushing (checked now job (Err e)) else Waiting) now) /\ check_key j = key /\ is_healthy j = true) <->
      exists j, j ∈ dm_queue d /\ check_key j = key /\ is_healthy j = true) as Hleft.
    { intros d' key Hq. unfold all_checks. cbn [ds_manager ds_thread]. rewrite Hq. destruct (should_retry _); cbn [thread_check app]; [|done].
      setoid_rewrite elem_of_cons. split; [intros (j & [->|Hj] & Hk & Hhj); [cbn in Hhj; congruence|eauto]|naive_solver]. }
    replace (match (if should_retry _ then Some _ else None) with Some job' => Pushing job' | None => Waiting end)
      with (if should_retry (checked now job (Err e)) then Pushing (checked now job (Err e)) else Waiting) by (by cbn; destruct (should_retry _)).
    destruct (is_healthy job) eqn:Eh.
    + destruct (remove_listed job d) as (d' & Hr & Hl & Hn).
      { apply Htl. exists job. split; [by left|done]. }
      exists d'. split; [done|]. assert (dm_queue d' = dm_queue d) as Hq.
      { assert (file_result job (Err e) d = (d', Ok tt)) as Hf by (unfold file_result; by rewrite Eh). by apply file_result_frame in Hf as [? _]. }
      split; [|apply Hn, (te_nonempty _ Hte)]. intros addr service. rewrite (Hleft d' (addr, service) Hq). cbn. rewrite Hl, Htl. split.
      * intros ((j & [->|Hj] & Hk & Hhj) & Hne); [congruence|]. eauto.
      * intros (j & Hj & Hk & Hhj). split; [eauto|]. rewrite <- Hk. by apply Hother.
    + exists d. split; [done|]. apply (table_exact_ext s); [done| |done]. intros key. rewrite (Hleft d key eq_refl).
      unfold all_checks. cbn. setoid_rewrite elem_of_cons. split; [naive_solver|].
      intros (j & [->|Hj] & Hk & Hhj); [congruence|eauto].
Qed.
Lemma step_exact our builtin s s' :
  discovery_step s s' -> discovery_inv our builtin s -> NoDup (check_key <$> all_checks s) ->
  table_exact s -> ds_thread s <> Crashed -> table_exact s' /\ ds_thread s' <> Crashed.
Proof.
  intros Hs Hi Hnd Hte Hth. destruct Hs as [d th now now' Hle|d th now dns by_ features|d now He|d now job rest Hp|d now He
    |d now job peers check d' Hck Hf|d now job peers d' Hf|d now job].
  - split; [|done]. by apply (table_exact_ext (mkState d th now)).
  - split; [|done]. apply (table_exact_ext (mkState d th now)); [|intros key|done].
    { cbn. by destruct (add_server_request_cases dns by_ features d) as [->|[-> _]]. }
    unfold all_checks. cbn. destruct (add_server_request_cases dns by_ features d) as [->|[-> _]]; [done|].
    split; [|intros (j & Hj & ?); exists j; set_solver]. cbn. intros (j & Hj & Hk & Hhj). exists j. split; [|done].
    rewrite (assoc app) in Hj. apply elem_of_app in Hj as [Hj|Hj]; [done|].
    apply request_checks_elem in Hj as (_ & _ & Hfr). by rewrite (fresh_unhealthy _ Hfr) in Hhj.
  - split; [|done]. by apply (table_exact_ext (mkState d Waiting now)).
  - split; [|done]. apply (table_exact_ext (mkState d Peeked now)); [done| |done].
    intros key. unfold all_checks. cbn. destruct Hp as [Hp _]. by setoid_rewrite Hp.
  - destruct (inv_thread _ _ _ Hi) as (job & Hj & _). cbn in Hj. rewrite He in Hj. by apply elem_of_nil in Hj.
  - destruct (file_exact our builtin d now job peers) as (d1 & Hf1 & He1); [done..|]. subst check. rewrite Hf in Hf1. injection Hf1 as <-.
    split; [done|]. cbn. by destruct (rescheduled _ _ _).
  - destruct (file_exact our builtin d now job peers) as (d1 & Hf1 & _); [done..|]. congruence.
  - split; [|done]. apply (table_exact_ext (mkState d (Pushing job) now)); [done| |done].
    intros key. unfold all_checks. cbn. setoid_rewrite elem_of_cons. setoid_rewrite elem_of_app. setoid_rewrite list_elem_of_singleton. naive_solver.
Qed.

(** ** From the start *)

Definition builtin_addrs dns (network : Network) : list ServerAddr :=
  omap (fun p : string * list Service => match resolve dns (text_of p.1) with Ok addr => Some addr | _ => None end)
    (default_servers network).
Definition discovery_start dns (network : Network) (features : ServerFeatures) (version : ProtocolVersion)
    (announce : bool) (tor_proxy : option SocketAddr) (now : Z) : DiscoveryState :=
  mkState (discovery_new dns network features version announce tor_proxy) Waiting now.

Lemma add_defaults_spec dns (l : list (string * list Service)) d :
  let d' := foldl (fun d p => (add_default_server dns (text_of p.1) p.2 d).1) d l in
  our_addrs d' = our_addrs d /\ dm_healthy d' = dm_healthy d /\
  exists new, dm_queue d' = dm_queue d ++ new /\ length new <= sum_list (map (fun p => length p.2) l) /\
    forall job, job ∈ new -> fresh job /\ added_by job = None /\ is_default job = true /\
      exists p, p ∈ l /\ resolve dns (text_of p.1) = Ok (hc_addr job).
Proof.
  revert d. induction l as [|p l IH]; intros d; cbn.
  { split; [done|]. split; [done|]. exists []. rewrite app_nil_r. split; [done|]. split; [cbn; lia|]. by intros job Hj%elem_of_nil. }
  destruct (IH (add_default_server dns (text_of p.1) p.2 d).1) as (-> & -> & new & -> & Hlen & Hnew).
  assert (forall job, job ∈ new -> fresh job /\ added_by job = None /\ is_default job = true /\
    exists q, q ∈ p :: l /\ resolve dns (text_of q.1) = Ok (hc_addr job)) as Hnew'.
  { intros job Hj. destruct (Hnew job Hj) as (Hf & Hb & Hd & q & Hq & Hr). repeat split; [apply Hf..|done|done|].
    exists q. split; [by right|done]. }
  unfold add_default_server, mbind, SR_bind, lift. destruct (resolve dns (text_of p.1)) as [addr| | |] eqn:Er; cbn;
    (split; [done|]; split; [done|]).
  2-4: exists new; split; [done|]; split; [lia|exact Hnew'].
  eexists. rewrite <- (assoc app). split; [done|]. rewrite length_app, length_map. split; [lia|].
  intros job [Hj|Hj]%elem_of_app; [|by apply Hnew'].
  apply elem_of_map in Hj as (service & -> & _). repeat split. exists p. split; [by left|done].
Qed.

Section run.
Context (dns0 : Resolver) (network : Network) (features0 : ServerFeatures) (version : ProtocolVersion).
Context (announce0 : bool) (tor0 : option SocketAddr) (now0 : Z).
Let start : DiscoveryState := discovery_start dns0 network features0 version announce0 tor0 now0.
Let our : gset ServerAddr := our_addrs (ds_manager start).
Let builtin : list ServerAddr := builtin_addrs dns0 network.

Lemma start_inv : discovery_inv our builtin start.
Proof.
  unfold start, discovery_start, discovery_new, add_default_servers.
  destruct (add_defaults_spec dns0 (default_servers network) (mkManager [] ∅ version
    (list_to_set (omap (fun p : Text * ServerPorts => match resolve dns0 p.1 with Ok addr => Some addr | _ => None end) (hosts features0)))
    features0 announce0 tor0)) as (Ho & Hh & new & Hq & Hlen & Hnew).
  split; try done; unfold all_checks; cbn [ds_manager ds_thread ds_clock thread_check app].
  - rewrite Hq. cbn [dm_queue app]. apply Forall_forall. intros job Hj. destruct (Hnew job Hj) as (Hf & Hb & Hd & p & Hp & Hr).
    apply fresh_ok; [done| |].
    + split; try (intros; congruence). rewrite Hb, Hd. symmetry. by apply bool_decide_eq_true_2.
    + intros _. apply list_elem_of_omap. exists p. split; [done|]. by rewrite Hr.
  - rewrite Hq. cbn [dm_queue app]. etrans; [exact Hlen|]. destruct network; apply Nat.leb_le; vm_compute; reflexivity.
  - rewrite Hh. cbn. intros addr [? Hx]. by rewrite lookup_empty in Hx.
Qed.
Lemma start_exact : table_exact start.
Proof.
  unfold start, discovery_start, discovery_new, add_default_servers.
  destruct (add_defaults_spec dns0 (default_servers network) (mkManager [] ∅ version
    (list_to_set (omap (fun p : Text * ServerPorts => match resolve dns0 p.1 with Ok addr => Some addr | _ => None end) (hosts features0)))
    features0 announce0 tor0)) as (Ho & Hh & new & Hq & Hlen & Hnew).
  split; unfold listed, all_checks; cbn [ds_manager ds_thread thread_check app]; rewrite ?Hh, ?Hq; cbn [dm_healthy dm_queue app].
  - intros addr service. setoid_rewrite lookup_empty. split; [naive_solver|].
    intros (job & Hj & _ & Hhj). destruct (Hnew job Hj) as (Hf & _). by rewrite (fresh_unhealthy _ Hf) in Hhj.
  - intros addr server Hx. by rewrite lookup_empty in Hx.
Qed.

Lemma reachable_inv s : rtc discovery_step start s -> discovery_inv our builtin s.
Proof. intros Hs. revert s Hs. apply rtc_ind_r; [apply start_inv|]. intros s1 s2 _ Hstep. by apply step_inv. Qed.
End run.

(** A step taken while every check is for a service of its own. *)
Definition distinct_step s s' : Prop := discovery_step s s' /\ NoDup (check_key <$> all_checks s).

(** C30: In every interleaving of requests with the jobs thread, from a manager as [new]
    makes it: there are never more than 501 checks (500 in the queue and the one the
    thread holds); every check that a request added is for a remote address that is not
    ours, an IP address only when the client that asked has it; a peer that fails is
    given up after twenty-four checks in a row, and at once when it was never healthy and
    is not built in; and every address shown to clients is built in, or remote and not
    ours. *)
Theorem discovery_bounded dns network features version announce tor now s :
  let start := discovery_start dns network features version announce tor now in
  let our := our_addrs (ds_manager start) in
  let builtin := builtin_addrs dns network in
  rtc discovery_step start s ->
  length (all_checks s) <= 501 /\
  Forall (check_ok our builtin (ds_clock s)) (all_checks s) /\
  (forall entry, entry ∈ get_servers (ds_manager s) -> peer_ok our builtin entry.1.1).
Proof.
  intros start our builtin Hs. destruct (reachable_inv _ _ _ _ _ _ _ _ Hs) as [_ Hc _ Hn Hl].
  split; [exact Hn|]. split; [done|]. intros entry He. unfold get_servers in He.
  apply elem_of_map in He as ([addr server] & -> & Hm). apply elem_of_map_to_list in Hm. apply Hl. eauto.
Qed.

(** C31: As long as no two health checks are for the same service of the same address, in
    every interleaving of requests with the jobs thread the table of healthy services is
    exactly the checks that passed last, the servers shown to clients are exactly the
    addresses of those checks, and neither the [assert!] nor the [unreachable!] nor the
    [unwrap] of the thread fails. *)
Theorem discovery_table_exact dns network features version announce tor now s :
  rtc distinct_step (discovery_start dns network features version announce tor now) s ->
  table_exact s /\
  (forall addr, addr ∈ (fun e : ServerEntry => e.1.1) <$> get_servers (ds_manager s) <->
     exists job, job ∈ all_checks s /\ hc_addr job = addr /\ is_healthy job = true) /\
  ds_thread s <> Crashed.
Proof.
  set (start := discovery_start _ _ _ _ _ _ _). intros Hs.
  assert (discovery_inv (our_addrs (ds_manager start)) (builtin_addrs dns network) s /\ table_exact s /\ ds_thread s <> Crashed)
    as (_ & Hte & Hth).
  { revert s Hs. apply rtc_ind_r; [|intros s1 s2 _ [Hstep Hnd] (Hi & He & Ht)].
    - split; [apply start_inv|]. split; [apply start_exact|done].
    - split; [by eapply step_inv|]. by eapply step_exact. }
  split; [done|]. split; [|done]. intros addr. unfold get_servers. rewrite list_elem_of_fmap. split.
  - intros (e & -> & He). apply elem_of_map in He as ([a server] & -> & Hm). apply elem_of_map_to_list in Hm.
    destruct (set_choose_L (services server)) as [service Hin]; [by eapply te_nonempty|].
    destruct (proj1 (te_listed _ Hte a service)) as (job & Hj & [= Ha _] & Hh); [by exists server|]. by exists job.
  - intros (job & Hj & <- & Hh). destruct (proj2 (te_listed _ Hte (hc_addr job) (hc_service job))) as (server & Hm & _).
    { by exists job. }
    eexists. split; [|apply elem_of_map; eexists; split; [done|by apply elem_of_map_to_list]]. done.
Qed.

(** ** Two names of one address *)

Lemma run_health_check_eq pop peers now later d job rest :
  too_early now d = false -> pop (dm_queue d) = Some (job, rest) ->
  run_health_check pop peers now later d =
    let d1 := set_queue rest d in
    let check := check_server peers d1 (hc_addr job) (hc_hostname job) (hc_service job) in
    let (d2, r) := file_result job check d1 in
    match r with
    | Ok _ => (match rescheduled later job check with Some j => (push_check j d2).1 | None => d2 end, (fun _ => tt) <$> check)
    | Err e => (d2, Err e) | Panic => (d2, Panic) | Diverge => (d2, Diverge)
    end.
Proof.
  intros He Hp. unfold run_health_check, mbind, SR_bind, gets, modify, lift. rewrite He, Hp. cbn.
  destruct (file_result _ _ _) as [d2 [u| | |]]; try done. by destruct (rescheduled _ _ _).
Qed.

(** A run of the thread alone is a run of the transition system, and it panics exactly when
    the thread does there. *)
Lemma run_health_check_steps pop peers now later d d' r :
  (forall q job rest, pop q = Some (job, rest) -> heap_pop q job rest) -> (forall q, pop q = None -> q = []) ->
  (now <= later)%Z -> run_health_check pop peers now later d = (d', r) ->
  exists th, rtc discovery_step (mkState d Waiting now) (mkState d' th later) /\
    ((th = Waiting /\ r <> Panic) \/ (th = Crashed /\ r = Panic)).
Proof.
  intros Hpop Hnone Hle Hrun. destruct (too_early now d) eqn:He.
  { unfold run_health_check, mbind, SR_bind, gets in Hrun. rewrite He in Hrun. injection Hrun as <- <-.
    exists Waiting. split; [by apply rtc_once, step_tick|naive_solver]. }
  destruct (too_early_false _ _ He) as (j & Hj & _). destruct (pop (dm_queue d)) as [[job rest]|] eqn:Ep.
  2: { rewrite (Hnone _ Ep) in Hj. by apply elem_of_nil in Hj. }
  rewrite (run_health_check_eq _ _ _ _ _ _ _ He Ep) in Hrun. cbn zeta in Hrun.
  assert (rtc discovery_step (mkState d Waiting now) (mkState (set_queue rest d) (Checking job) later)) as Hsteps.
  { eapply rtc_l; [by apply step_peek|]. eapply rtc_l; [by apply step_pop, Hpop|]. by apply rtc_once, step_tick. }
  destruct (file_result job _ (set_queue rest d)) as [d2 r2] eqn:Ef. destruct (check_server_cases peers (set_queue rest d)
    (hc_addr job) (hc_hostname job) (hc_service job)) as [[f Ec]|[e Ec]]; rewrite Ec in Hrun, Ef.
  - cbn in Ef. assert (r2 = Ok tt) as -> by (destruct (is_healthy job); by injection Ef as _ <-). injection Hrun as <- <-.
    exists Waiting. split; [|naive_solver]. eapply rtc_r; [eapply rtc_r; [exact Hsteps|]|apply step_push].
    assert (discovery_step (mkState (set_queue rest d) (Checking job) later) (mkState d2 (match rescheduled later job (Ok f)
      with Some job' => Pushing job' | None => Waiting end) later)) as Hf; [|exact Hf].
    rewrite <- Ec. apply (step_file _ _ _ peers); [done|]. by rewrite Ec.
  - destruct r2 as [[]|e2| |]; simplify_eq.
    + exists Waiting. split; [|naive_solver].
      assert (discovery_step (mkState (set_queue rest d) (Checking job) later) (mkState d2 (match rescheduled later job (Err e)
        with Some job' => Pushing job' | None => Waiting end) later)) as Hf.
      { rewrite <- Ec. apply (step_file _ _ _ peers); [done|]. by rewrite Ec. }
      destruct (rescheduled later job (Err e)); [|by eapply rtc_r].
      eapply rtc_r; [by eapply rtc_r|apply step_push].
    + exfalso. cbn in Ef. destruct (is_healthy job); [|done]. unfold remove_unhealthy_service, transition in Ef.
      destruct (dm_healthy _ !! hc_addr job) as [server|]; [|done]. by destruct (bool_decide (hc_service job ∈ services server)).
    + exists Crashed. split; [|by right]. eapply rtc_r; [exact Hsteps|]. apply (step_file_panic _ _ _ peers). by rewrite Ec.
    + exfalso. cbn in Ef. destruct (is_healthy job); [|done]. unfold remove_unhealthy_service, transition in Ef.
      destruct (dm_healthy _ !! hc_addr job) as [server|]; [|done]. by destruct (bool_decide (hc_service job ∈ services server)).
Qed.

(** A request with two names of its client's address, both with the same port. *)
Definition twin_request (features : ServerFeatures) (host1 host2 : Text) (port : Z) : Prop :=
  hosts features = [(host1, mkPorts (Some port) None); (host2, mkPorts (Some port) None)].
Definition names_address dns (ip : IpAddr) (host : Text) : Prop :=
  (utf8_len (to_lowercase host) <= 100)%Z /\ resolve dns (to_lowercase host) = Ok (Clearnet ip).
Lemma twin_request_added dns d ip features host1 host2 port :
  dm_queue d = [] -> twin_request features host1 host2 port -> verify_compatibility d features = Ok tt ->
  names_address dns ip host1 -> names_address dns ip host2 ->
  is_remote_addr (Clearnet ip) = true -> Clearnet ip ∉ our_addrs d ->
  add_server_request dns ip features d =
    (set_queue [new_check (Clearnet ip) (to_lowercase host1) (Tcp port) (Some ip);
                new_check (Clearnet ip) (to_lowercase host2) (Tcp port) (Some ip)] d, Ok tt).
Proof.
  intros Hq Ht Hv H1 H2 Hr Ho. unfold add_server_request, transition. rewrite Hv, Hq. cbn [mbind result_bind length Nat.ltb Nat.leb negb].
  assert (forall host ports, names_address dns ip host ->
    candidate_host dns (our_addrs d) ip (host, ports) = Some (Clearnet ip, to_lowercase host, ports)) as Hc.
  { intros host ports [Hl Hres]. unfold candidate_host. cbn. rewrite (proj2 (Z.ltb_ge _ _)) by done. rewrite Hres, Hr. cbn.
    rewrite (bool_decide_eq_false_2 (_ ∈ _)), (bool_decide_eq_false_2 (ip <> ip)) by naive_solver. done. }
  assert (request_checks dns d ip features = [new_check (Clearnet ip) (to_lowercase host1) (Tcp port) (Some ip);
    new_check (Clearnet ip) (to_lowercase host2) (Tcp port) (Some ip)]) as ->.
  { unfold request_checks. rewrite Hq, Ht. cbn [take omap list_omap MAX_SERVERS_PER_REQUEST]. by rewrite !Hc. }
  done.
Qed.

(** The life of the two checks: they pass one after the other, and fail one after the
    other. *)
Section twins.
Context (v : ProtocolVersion) (o : gset ServerAddr) (f : ServerFeatures) (a : bool) (tor : option SocketAddr).
Context (addr : ServerAddr) (svc : Service) (name1 name2 : Text) (ip : IpAddr) (up down : Peers) (t1 t2 : Z).
Let mk (q : list HealthCheck) (h : gmap ServerAddr PeerServer) : DiscoveryManager := mkManager q h v o f a tor.
Context (f1 f2 : ServerFeatures) (e1 e2 : ErrorKind).
Context (U1 : check_server up (mk [] ∅) addr name1 svc = Ok f1) (U2 : check_server up (mk [] ∅) addr name2 svc = Ok f2).
Context (D1 : check_server down (mk [] ∅) addr name1 svc = Err e1) (D2 : check_server down (mk [] ∅) addr name2 svc = Err e2).
Context (Hle : (t1 + HEALTH_CHECK_FREQ <= t2)%Z).
Let j1 : HealthCheck := new_check addr name1 svc (Some ip).
Let j2 : HealthCheck := new_check addr name2 svc (Some ip).
Let k1 : HealthCheck := checked t1 j1 (Ok f1).
Let k2 : HealthCheck := checked t1 j2 (Ok f2).
Let p1 : PeerServer := mkPeer ({[svc]} ∪ ∅) name1 f1.
Let p2 : PeerServer := mkPeer ({[svc]} ∪ ({[svc]} ∪ ∅)) name1 f1.

Lemma twin_frame peers q h host :
  check_server peers (mk q h) addr host svc = check_server peers (mk [] ∅) addr host svc.
Proof. done. Qed.
Lemma twin_passes_first : run_health_check pop_max up t1 t1 (mk [j1; j2] ∅) = (mk [j2; k1] {[addr := p1]}, Ok tt).
Proof using U1 U2 D1 D2 Hle.
  erewrite run_health_check_eq by done. cbn zeta. change (set_queue [j2] (mk [j1; j2] ∅)) with (mk [j2] ∅).
  change (hc_addr j1) with addr. change (hc_service j1) with svc. change (hc_hostname j1) with name1.
  by rewrite twin_frame, U1.
Qed.
Lemma twin_passes_second :
  run_health_check pop_max up t1 t1 (mk [j2; k1] {[addr := p1]}) = (mk [k1; k2] {[addr := p2]}, Ok tt).
Proof using U1 U2 D1 D2 Hle.
  erewrite run_health_check_eq by done. cbn zeta.
  change (set_queue [k1] (mk [j2; k1] {[addr := p1]})) with (mk [k1] {[addr := p1]}).
  change (hc_addr j2) with addr. change (hc_service j2) with svc. change (hc_hostname j2) with name2. rewrite twin_frame, U2.
  unfold file_result. change (is_healthy j2) with false. unfold save_healthy_service, modify.
  change (dm_healthy (mk [k1] {[addr := p1]})) with ({[addr := p1]} : gmap ServerAddr PeerServer).
  change (hc_addr j2) with addr. rewrite lookup_singleton_eq. cbn [default from_option id]. by rewrite insert_singleton_eq.
Qed.
Lemma twin_late k q h : last_check k = Some t1 -> pop_max (k :: q) = Some (k, q) -> too_early t2 (mk (k :: q) h) = false.
Proof using U1 U2 D1 D2 Hle.
  intros Hk Hp. unfold too_early. cbn [dm_queue mk]. rewrite Hp, Hk. apply Z.ltb_ge. unfold HEALTH_CHECK_FREQ in *. lia.
Qed.
(** The first failure takes the service and so the server out of the table. *)
Lemma twin_fails_first :
  exists q, run_health_check pop_max down t2 t2 (mk [k1; k2] {[addr := p2]}) = (mk (k2 :: q) ∅, Err e1) /\
    pop_max (k2 :: q) = Some (k2, q).
Proof using U1 U2 D1 D2 Hle.
  assert (pop_max [k1; k2] = Some (k1, [k2])) as Hpop by (cbn; unfold check_cmp; cbn; by rewrite Z.compare_refl).
  erewrite run_health_check_eq; [|by apply twin_late|done]. cbn zeta.
  change (set_queue [k2] (mk [k1; k2] {[addr := p2]})) with (mk [k2] {[addr := p2]}).
  change (hc_addr k1) with addr. change (hc_service k1) with svc. change (hc_hostname k1) with name1.
  rewrite twin_frame, D1. unfold file_result. rewrite (checked_ok_healthy t1 j1 f1 : is_healthy k1 = true).
  unfold remove_unhealthy_service, transition.
  change (dm_healthy (mk [k2] {[addr := p2]})) with ({[addr := p2]} : gmap ServerAddr PeerServer).
  change (hc_addr k1) with addr. rewrite lookup_singleton_eq. change (hc_service k1) with svc.
  rewrite (bool_decide_eq_true_2 (svc ∈ services p2)) by set_solver. cbn [rassert mbind result_bind].
  rewrite (bool_decide_eq_true_2 (services p2 ∖ {[svc]} = ∅)) by set_solver. rewrite delete_singleton_eq.
  exists [checked t2 k1 (Err e1)]. split; [done|]. cbn. unfold check_cmp. cbn.
  rewrite (proj2 (Z.compare_gt_iff t2 t1)) by (unfold HEALTH_CHECK_FREQ in *; lia). done.
Qed.
Lemma twin_fails_second q :
  pop_max (k2 :: q) = Some (k2, q) -> (run_health_check pop_max down t2 t2 (mk (k2 :: q) ∅)).2 = Panic.
Proof using U1 U2 D1 D2 Hle.
  intros Hpop. erewrite run_health_check_eq; [|by apply twin_late|done]. cbn zeta.
  change (set_queue q (mk (k2 :: q) ∅)) with (mk q ∅).
  change (hc_addr k2) with addr. change (hc_service k2) with svc. change (hc_hostname k2) with name2.
  rewrite twin_frame, D2. unfold file_result. by rewrite (checked_ok_healthy t1 j2 f2 : is_healthy k2 = true).
Qed.
End twins.

(** The conditions of the table are not kept by the code.  A peer sends one
    [server.add_peer] with two names of its own address and the same port; both checks
    pass, and when the peer goes away the first failing check removes the service from
    the table and the second one finds it gone and panics (in the release profile the
    process aborts). *)
Lemma duplicate_hosts_crash dns d ip features host1 host2 port up down t1 t2 :
  dm_queue d = [] -> dm_healthy d = ∅ ->
  twin_request features host1 host2 port -> verify_compatibility d features = Ok tt ->
  names_address dns ip host1 -> names_address dns ip host2 ->
  is_remote_addr (Clearnet ip) = true -> Clearnet ip ∉ our_addrs d ->
  (forall host, is_ok (check_server up d (Clearnet ip) host (Tcp port))) ->
  (forall host, exists e, check_server down d (Clearnet ip) host (Tcp port) = Err e) ->
  (t1 + HEALTH_CHECK_FREQ <= t2)%Z ->
  let run peers t d := run_health_check pop_max peers t t d in
  let '(d1, added) := add_server_request dns ip features d in
  let '(d2, first_up) := run up t1 d1 in
  let '(d3, second_up) := run up t1 d2 in
  let '(d4, first_down) := run down t2 d3 in
  let '(_, second_down) := run down t2 d4 in
  added = Ok tt /\ first_up = Ok tt /\ second_up = Ok tt /\ (exists e, first_down = Err e) /\ second_down = Panic.
Proof.
  intros Hq Hh Ht Hv H1 H2 Hr Ho Hup Hdown Hle run.
  rewrite (twin_request_added _ _ _ _ _ _ _ Hq Ht Hv H1 H2 Hr Ho). subst run. cbv beta.
  destruct (Hup (to_lowercase host1)) as [f1 U1]. destruct (Hup (to_lowercase host2)) as [f2 U2].
  destruct (Hdown (to_lowercase host1)) as [e1 D1]. destruct (Hdown (to_lowercase host2)) as [e2 D2].
  destruct d as [q h v o f a tor]. cbn in Hq, Hh. subst q h. cbv beta iota zeta. unfold set_queue at 1.
  cbn [dm_healthy our_version our_addrs our_features announce tor_proxy].
  rewrite (twin_passes_first v o f a tor _ _ _ _ ip up down t1 t2 f1 f2 e1 e2 U1 U2 D1 D2 Hle).
  rewrite (twin_passes_second v o f a tor _ _ _ _ ip up down t1 t2 f1 f2 e1 e2 U1 U2 D1 D2 Hle).
  destruct (twin_fails_first v o f a tor _ _ _ _ ip up down t1 t2 f1 f2 e1 e2 U1 U2 D1 D2 Hle) as (q & -> & Hpop).
  pose proof (twin_fails_second v o f a tor _ _ _ _ ip up down t1 t2 f1 f2 e1 e2 U1 U2 D1 D2 Hle q Hpop) as R4.
  destruct (run_health_check pop_max down t2 t2 _) as [d5 r]. cbn in R4. subst r. eauto 10.
Qed.
End facts.

(** ** Witnesses *)

(** Two names that resolve to 8.8.8.8, on a network without built-in peers. *)
#[local] Instance ex_discovery_lib : DiscoveryLib := {
  ip_from_str _ := None; display_ip _ := []; to_lowercase t := t; features_from_value _ := None }.
Definition ex_ip : IpAddr := V4 134744072.
Definition ex_dns : Resolver := fun _ => Some [ex_ip].
Definition ex_ports : ServerPorts := mkPorts (Some 50001%Z) None.
Definition ex_peer_features (hosts : list (Text * ServerPorts)) : ServerFeatures :=
  mkFeatures hosts null_hash (text_of "1.0") PROTOCOL_VERSION PROTOCOL_VERSION None (text_of "sha256").
Definition ex_request : ServerFeatures := ex_peer_features [(text_of "a", ex_ports); (text_of "b", ex_ports)].
Definition ex_start : DiscoveryState := discovery_start ex_dns Regtest (ex_peer_features []) PROTOCOL_VERSION false None 0.
Definition ex_up : Peers := fun _ _ =>
  inr (mkRes null_hash (text_of "1.0") (text_of "1.4") (text_of "1.4") None (Some (text_of "sha256"))).
Definition ex_down : Peers := fun _ _ => inl (Msg "refused").
(** After the request, and after its first check. *)
Definition ex_added : DiscoveryState :=
  mkState (add_server_request ex_dns ex_ip ex_request (ds_manager ex_start)).1 Waiting 0.
Definition ex_single : DiscoveryState :=
  mkState (add_server_request ex_dns ex_ip (ex_peer_features [(text_of "a", ex_ports)]) (ds_manager ex_start)).1 Waiting 0.

Lemma discovery_bounded_witness :
  length (all_checks ex_added) = 2 /\ length (all_checks ex_added) <= 501 /\ map hc_addr (all_checks ex_added) = [Clearnet ex_ip; Clearnet ex_ip].
Proof.
  split; [vm_compute; reflexivity|]. split; [|vm_compute; reflexivity].
  apply (discovery_bounded ex_dns Regtest (ex_peer_features []) PROTOCOL_VERSION false None 0 ex_added).
  apply rtc_once. apply step_add.
Defined.
Lemma discovery_table_exact_witness : length (all_checks ex_single) = 1 /\ table_exact ex_single.
Proof.
  split; [vm_compute; reflexivity|].
  apply (discovery_table_exact ex_dns Regtest (ex_peer_features []) PROTOCOL_VERSION false None 0 ex_single).
  apply rtc_once. split; [apply step_add|]. vm_compute. constructor.
Defined.
Lemma duplicate_hosts_crash_witness :
  let run peers t d := run_health_check pop_max peers t t d in
  let '(d1, added) := add_server_request ex_dns ex_ip ex_request (ds_manager ex_start) in
  let '(d2, first_up) := run ex_up 0%Z d1 in
  let '(d3, second_up) := run ex_up 0%Z d2 in
  let '(d4, first_down) := run ex_down HEALTH_CHECK_FREQ d3 in
  let '(_, second_down) := run ex_down HEALTH_CHECK_FREQ d4 in
  added = Ok tt /\ first_up = Ok tt /\ second_up = Ok tt /\ (exists e, first_down = Err e) /\ second_down = Panic.
Proof.
  apply (duplicate_hosts_crash ex_dns (ds_manager ex_start) ex_ip ex_request (text_of "a") (text_of "b") 50001
    ex_up ex_down 0 HEALTH_CHECK_FREQ); [reflexivity..| | | | | | |].
  - split; [vm_compute; discriminate|vm_compute; reflexivity].
  - split; [vm_compute; discriminate|vm_compute; reflexivity].
  - vm_compute. reflexivity.
  - apply (bool_decide_unpack _). vm_compute. exact I.
  - intros host. eexists. vm_compute. reflexivity.
  - intros host. eexists. vm_compute. reflexivity.
  - vm_compute. discriminate.
Defined.
