(* ===== verification/Calculator.v ===== *)
(** * [frontend/shared]: amounts ([calculator.rs], [fiat.rs] and [form.rs])

    The clients compute with integers: satoshis in 64 bits, fiat amounts as a numerator of
    128 bits over a power of ten.  Checked operations are [option]s, saturating ones are
    written out.  The fields of the calculator are texts. *)

From S2P Require Import Prelude Text Json Auth.

(** ** Integers *)

Definition u128_mod : Z := 340282366920938463463374607431768211456.
(** The result of a checked operation at a width. *)
Definition checked_at (modulus x : Z) : option Z := if (x <? modulus)%Z then Some x else None.
Definition saturate128 (x : Z) : Z := Z.min x (u128_mod - 1).
(** [char::to_digit(10)] *)
Definition to_digit (c : Z) : option Z := if is_ascii_digit c then Some (c - 48)%Z else None.
(** [n = n.checked_mul(10)?.checked_add(d)?] over the characters. *)
Fixpoint accumulate (modulus n : Z) (digits : Text) : option Z :=
  match digits with
  | [] => Some n
  | c :: digits =>
      d ← to_digit c;
      n ← checked_at modulus (n * 10);
      n ← checked_at modulus (n + d);
      accumulate modulus n digits
  end.
(** [Display] of a [u128] has at most thirty-nine digits. *)
Definition display_u128 (n : Z) : Text := dec_go 39 n [].
(** [{:0width}] *)
Definition pad_zeros (width : nat) (t : Text) : Text := replicate (width - length t) 48%Z ++ t.
(** [trim_start_matches(c)] and [replace(c, with)] for characters. *)
Definition trim_start_char (c : Z) (t : Text) : Text := skip_while (Z.eqb c) t.
Definition replace_char (c : Z) (with_ : Text) (t : Text) : Text := concat (map (fun x => if (x =? c)%Z then with_ else [x]) t).
(** The two sides of the first point. *)
Definition split_point (t : Text) : Text * Text := default (t, []) (split_once 46 t).

(** ** [calculator.rs] *)

Definition SATS_PER_BTC : Z := 100000000.
Definition BTC_SUPPLY_CAP : Z := 21000000.
Record CappedBtc := mkCapped { cb_btc : Text; cb_capped : bool }.
Definition parse_digits (digits : Text) : option Z :=
  if bool_decide (digits = []) then None else accumulate u64_mod 0 digits.
Definition frac_as_sats (frac : Text) : option Z :=
  if negb (forallb is_ascii_digit frac) then None
  else let digits := take 8 frac in parse_digits (digits ++ replicate (8 - length digits) 48%Z).
(** What both readers of a decimal refuse at once. *)
Definition unreadable (t : Text) : bool := bool_decide (t = []) || starts_with t (text_of "+") || starts_with t (text_of "-").
Definition btc_to_sats (btc : Text) : option Z :=
  let btc := trim btc in
  if unreadable btc then None
  else
    let '(whole, frac) := split_point btc in
    if bool_decide (whole = []) && bool_decide (frac = []) then None
    else
      let whole_digits := if bool_decide (whole = []) then text_of "0" else whole in
      whole_n ← parse_digits whole_digits;
      frac_n ← frac_as_sats frac;
      whole_sats ← checked_at u64_mod (whole_n * SATS_PER_BTC);
      checked_at u64_mod (whole_sats + frac_n).
Definition sats_to_btc (sats : Z) : Text :=
  display_usize (sats / SATS_PER_BTC) ++ text_of "." ++ pad_zeros 8 (display_usize (sats mod SATS_PER_BTC)).
Definition truncate_btc_decimals (input : Text) : Text :=
  match split_once 46 input with None => input | Some (whole, frac) => whole ++ text_of "." ++ take 8 frac end.
Definition strip_sats_decimal (input : Text) : Text := filter (fun c => c <> 46%Z) input.
(** The loop from the last digit; [None] is the early return at another character. *)
Fixpoint carry_up (rev_digits : Text) : option Text :=
  match rev_digits with
  | [] => Some [49%Z]
  | digit :: rest =>
      if (digit =? 57)%Z then cons 48%Z <$> carry_up rest
      else if is_ascii_digit digit then Some ((digit + 1)%Z :: rest)
      else None
  end.
Definition strips_decimals_from_satoshis_input (input : Text) : Text :=
  match split_once 46 input with
  | None => input
  | Some (whole, frac) =>
      let whole_digits := if bool_decide (whole = []) then text_of "0" else whole in
      let round_up := match frac with c :: _ => ((53 <=? c) && (c <=? 57))%Z | [] => false end in
      if negb round_up then whole_digits
      else match carry_up (reverse whole_digits) with Some digits => reverse digits | None => whole_digits end
  end.
(** Comparing texts of digits as bytes. *)
Fixpoint bytes_ge (a b : Text) : bool :=
  match a, b with
  | _, [] => true
  | [], _ :: _ => false
  | x :: a, y :: b => if (x =? y)%Z then bytes_ge a b else (y <? x)%Z
  end.
Definition reaches_cap (btc : Text) : bool :=
  let '(whole, frac) := split_point btc in
  if negb (forallb is_ascii_digit whole) || negb (forallb is_ascii_digit frac) then false
  else
    let whole := trim_start_char 48 whole in
    if bool_decide (whole = []) then false
    else if 8 <? length whole then true
    else if length whole <? 8 then false
    else bytes_ge whole (text_of "21000000").
Definition cap_btc_supply (btc : Text) : CappedBtc :=
  if reaches_cap btc then mkCapped (display_usize BTC_SUPPLY_CAP) true else mkCapped btc false.
Record MaxSupplyEntry := mkMaxSupply { ms_warning : Text; ms_bitcoin : Text; ms_satoshis : Text }.
Definition MAX_SUPPLY_WARNING : Text := text_of "Values were capped at the max supply of 21M BTC".
Definition shows_warning_when_entering_21m_btc (typed : Text) : MaxSupplyEntry :=
  let capped := cap_btc_supply typed in
  let sat_cap := Z.min (BTC_SUPPLY_CAP * SATS_PER_BTC) (u64_mod - 1) in
  let sats := Z.min (default 0%Z (btc_to_sats (cb_btc capped))) sat_cap in
  let warning := if cb_capped capped then MAX_SUPPLY_WARNING else [] in
  mkMaxSupply warning (cb_btc capped) (display_usize sats).
Record DesktopCalculator := mkDesktop { dc_bitcoin_visible : bool; dc_value : Text }.
Definition calculator_is_usable_on_desktop (viewport typed : Text) : DesktopCalculator :=
  mkDesktop (bool_decide (viewport = text_of "macbook-16")) typed.
Record MobileCalculator := mkMobile { mc_bitcoin_visible : bool; mc_fiat_visible : bool; mc_satoshis_visible : bool }.
Definition calculator_is_usable_on_mobile (viewport : Text) : MobileCalculator :=
  let shown := bool_decide (viewport = text_of "iphone-6") in mkMobile shown shown shown.

(** ** [fiat.rs] *)

Inductive FiatCode := Usd | Jpy.
(** The yen sign, U+00A5. *)
Definition YEN : Z := 165.
Definition decimal_comma_to_dot (input : Text) : Text := replace_char 44 (text_of ".") input.
Definition normalize_whole (digits : Text) : Text :=
  let trimmed := trim_start_char 48 digits in if bool_decide (trimmed = []) then text_of "0" else trimmed.
Definition split_amount (amount : Text) : Text * Text :=
  let '(whole, frac) := split_point (trim amount) in
  let digits := filter (fun c => is_ascii_digit c = true) in
  (normalize_whole (digits whole), digits frac).
(** Two digits at most: the arithmetic of 32 bits does not wrap. *)
Definition usd_cents (frac : Text) : Z :=
  let digits := take 2 frac in
  if bool_decide (digits = []) then 0
  else
    let digits := if length digits =? 1 then digits ++ [48%Z] else digits in
    fold_left (fun n c => n * 10 + default 0 (to_digit c))%Z digits 0%Z.
Definition format_fiat (code : FiatCode) (amount : Text) : Text :=
  let '(whole, frac) := split_amount amount in
  match code with
  | Usd =>
      let cents := usd_cents frac in
      if (cents =? 0)%Z then text_of "$" ++ whole
      else text_of "$" ++ whole ++ text_of "." ++ pad_zeros 2 (display_usize cents)
  | Jpy => YEN :: whole
  end.
Definition displays_usd_values_with_correct_currency_symbol (amount : Text) (code : FiatCode) : Text := format_fiat code amount.
Definition displays_usd_values_with_proper_decimal_format (amount : Text) (code : FiatCode) : Text :=
  displays_usd_values_with_correct_currency_symbol amount code.
Definition formats_all_jpy_values_correctly_without_decimals : list Text :=
  text_of "JPY" :: map (fun amount => format_fiat Jpy (text_of amount)) ["2"; "15"; "1500"]%string.
Definition switched_fiat_cells (code : FiatCode) : list Text :=
  [match code with Usd => text_of "USD" | Jpy => text_of "JPY" end; format_fiat code (text_of "2")].
Definition correctly_formats_when_switching_from_usd_to_jpy : list (list Text) := [switched_fiat_cells Usd; switched_fiat_cells Jpy].
Definition correctly_formats_when_switching_from_jpy_back_to_usd : list (list Text) := [switched_fiat_cells Jpy; switched_fiat_cells Usd].
Definition displays_usd_fiat_values_with_dollar_symbol : list Text := [format_fiat Usd (text_of "2"); format_fiat Usd (text_of "2")].
Definition displays_jpy_fiat_values_without_decimals : list Text := [format_fiat Jpy (text_of "2"); format_fiat Jpy (text_of "2")].
Definition displays_usd_price_with_dollar_symbol : Text := text_of "$".
Definition switch_usd_jpy_usd (amount : Text) : list Text := [format_fiat Usd amount; format_fiat Jpy amount; format_fiat Usd amount].

Definition FIXTURE_USD_PER_BTC : Z := 123456.
Definition FIXTURE_JPY_PER_BTC : Z := 11057757.
Record BtcQuote := mkQuote { numerator : Z; denominator : Z; quote_sats : Z }.
Definition div_round_half_up (numer denom : Z) : Z :=
  let quotient := (numer / denom)%Z in
  let remainder := (numer mod denom)%Z in
  if (denom <=? saturate128 (remainder * 2))%Z then saturate128 (quotient + 1) else quotient.
Definition parse_u128 (digits : Text) : option Z :=
  if bool_decide (digits = []) then None else accumulate u128_mod 0 digits.
(** The value is the first number over ten to the second. *)
Definition parse_decimal_units (amount : Text) : option (Z * Z) :=
  let amount := trim amount in
  if unreadable amount then None
  else
    let '(whole, frac) := split_point amount in
    if bool_decide (whole = []) && bool_decide (frac = []) then None
    else if negb (forallb is_ascii_digit whole) || negb (forallb is_ascii_digit frac) then None
    else if 18 <? length frac then None
    else
      numer ← if bool_decide (whole = []) then Some 0%Z else parse_u128 whole;
      numer ← accumulate u128_mod numer frac;
      Some (numer, Z.of_nat (length frac)).
Definition checked_pow10 (n : Z) : option Z := checked_at u128_mod (10 ^ n).
(** The body of the two quotes, which differ in the rate. *)
Definition fiat_to_btc_and_sats (per_btc : Z) (amount : Text) : option BtcQuote :=
  '(numerator, frac_len) ← parse_decimal_units amount;
  scale ← checked_pow10 frac_len;
  denominator ← checked_at u128_mod (per_btc * scale);
  sats_numer ← checked_at u128_mod (numerator * SATS_PER_BTC);
  sats ← checked_at u64_mod (div_round_half_up sats_numer denominator);
  Some (mkQuote numerator denominator sats).
Definition usd_to_btc_and_sats (amount : Text) : option BtcQuote := fiat_to_btc_and_sats FIXTURE_USD_PER_BTC amount.
Definition jpy_to_btc_and_sats (amount : Text) : option BtcQuote := fiat_to_btc_and_sats FIXTURE_JPY_PER_BTC amount.
Definition sats_to_usd_cents (sats : Z) : Z := div_round_half_up (sats * FIXTURE_USD_PER_BTC) 1000000.
Definition sats_to_yen (sats : Z) : Z := div_round_half_up (sats * FIXTURE_JPY_PER_BTC) SATS_PER_BTC.
(** The characters from index [i] on, of [len]. *)
Fixpoint group_from (len i : nat) (digits : Text) : Text :=
  match digits with
  | [] => []
  | c :: digits => (if (0 <? i) && ((len - i) mod 3 =? 0) then [44%Z] else []) ++ c :: group_from len (S i) digits
  end.
Definition group_thousands (digits : Text) : Text := group_from (length digits) 0 digits.
Definition format_usd_cents (cents : Z) : Text :=
  text_of "$" ++ group_thousands (display_u128 (cents / 100)) ++ text_of "." ++ pad_zeros 2 (display_u128 (cents mod 100)).
Definition format_jpy_yen (yen : Z) : Text := YEN :: group_thousands (display_u128 yen).
Definition sats_fiat_usd (sats : Z) : Text := format_usd_cents (sats_to_usd_cents sats).
Definition sats_fiat_jpy (sats : Z) : Text := format_jpy_yen (sats_to_yen sats).
Definition btc_fiat_usd (btc : Text) : Text := sats_fiat_usd (default 0%Z (btc_to_sats btc)).
Definition btc_fiat_jpy (btc : Text) : Text := format_jpy_yen (sats_to_yen (default 0%Z (btc_to_sats btc))).
(** Scales are at most thirty-six: [checked_add] of [u32] does not fail. *)
Definition jpy_calculator_fiat_digits (bitcoin fiat_per_btc : Text) : option Text :=
  '(btc_numer, btc_scale) ← parse_decimal_units bitcoin;
  '(rate_numer, rate_scale) ← parse_decimal_units fiat_per_btc;
  numer ← checked_at u128_mod (btc_numer * rate_numer);
  let scale := (btc_scale + rate_scale)%Z in
  '(numer, scale) ← (if (8 <? scale)%Z then
                       drop ← checked_pow10 (scale - 8);
                       Some (div_round_half_up numer drop, 8%Z)
                     else Some (numer, scale));
  unit ← checked_pow10 scale;
  Some (display_u128 (div_round_half_up numer unit)).
Definition displays_jpy_price_without_decimals_after_switching_currency (bitcoin fiat_per_btc : Text) : Text * Text :=
  ([YEN], default (text_of "0") (jpy_calculator_fiat_digits bitcoin fiat_per_btc)).

(** ** [form.rs] *)

(** The fields that the operations read or change; the labels are constants. *)
Record CalculatorForm := mkForm {
  code : FiatCode; fiat : Text; btc : Text; sats : Text; symbol : Text; fiat_text : Text; waiting_for_price : bool }.
Definition inputs_present (form : CalculatorForm) : bool :=
  negb (bool_decide (fiat form = [])) && negb (bool_decide (btc form = [])) && negb (bool_decide (sats form = [])).
Definition with_amounts (form : CalculatorForm) (fiat btc : Text) (sats : Z) : CalculatorForm :=
  let fiat_text := match code form with Usd => sats_fiat_usd sats | Jpy => sats_fiat_jpy sats end in
  mkForm (code form) fiat btc (display_usize sats) (symbol form) fiat_text (waiting_for_price form).
(** [strip_suffix(s).unwrap_or(t)] *)
Definition without_suffix (s t : Text) : Text :=
  if bool_decide (s `suffix_of` t) then take (length t - length s) t else t.
Definition fiat_input_text (code : FiatCode) (sats : Z) : Text :=
  match code with
  | Usd => without_suffix (text_of ".00") (replace_char 44 [] (trim_start_char 36 (sats_fiat_usd sats)))
  | Jpy => replace_char 44 [] (trim_start_char YEN (sats_fiat_jpy sats))
  end.
Definition enter_btc (form : CalculatorForm) (amount : Text) : CalculatorForm :=
  let btc := cb_btc (cap_btc_supply (truncate_btc_decimals amount)) in
  let sats := default 0%Z (btc_to_sats btc) in
  with_amounts form (fiat_input_text (code form) sats) btc sats.
Definition enter_fiat (form : CalculatorForm) (amount : Text) : option CalculatorForm :=
  let amount := decimal_comma_to_dot amount in
  sats ← (match code form with
          | Usd => quote_sats <$> usd_to_btc_and_sats amount
          | Jpy => quote_sats <$> jpy_to_btc_and_sats amount
          end);
  Some (with_amounts form amount (sats_to_btc sats) sats).
Definition loaded_calculator (code : FiatCode) : CalculatorForm :=
  let symbol := match code with Usd => btc_fiat_usd (text_of "1") | Jpy => btc_fiat_jpy (text_of "1") end in
  enter_btc (mkForm code [] [] [] symbol [] false) (text_of "1").
