(* ===== verification/CalculatorFacts.v ===== *)
(** * Amounts are exact

    Reading an amount of bitcoin gives the satoshis below it and printing satoshis is
    undone by reading them; dividing rounds to the nearest, halves up; a fiat amount that
    is entered is the one that is shown; what is typed into the bitcoin field is capped at
    the supply, white space apart. *)

From S2P Require Import Prelude Text Json Auth Calculator.

(** ** The value of digits *)

Definition digits_value (n : Z) (t : Text) : Z := fold_left (fun n c => n * 10 + (c - 48))%Z t n.
Abbreviation all_digits t := (Forall (fun c => is_ascii_digit c = true) t).
Lemma is_ascii_digit_spec c : is_ascii_digit c = true <-> (48 <= c <= 57)%Z.
Proof. unfold is_ascii_digit. lia. Qed.
Lemma forallb_digits t : forallb is_ascii_digit t = true <-> all_digits t.
Proof. rewrite forallb_forall, Forall_forall. by setoid_rewrite list_elem_of_In. Qed.
Lemma forallb_digits_false t : forallb is_ascii_digit t = false <-> ~ all_digits t.
Proof. rewrite <- forallb_digits. by destruct (forallb is_ascii_digit t). Qed.
Lemma digits_value_app n a b : digits_value n (a ++ b) = digits_value (digits_value n a) b.
Proof. unfold digits_value. by rewrite fold_left_app. Qed.
Lemma digits_value_split n t : digits_value n t = (n * 10 ^ Z.of_nat (length t) + digits_value 0 t)%Z.
Proof.
  revert n. induction t as [|c t IH]; intros n; [cbn; lia|]. cbn [digits_value fold_left length]. fold (digits_value (n * 10 + (c - 48)) t).
  fold (digits_value (0 * 10 + (c - 48)) t). rewrite (IH (n * 10 + _)%Z), (IH (0 * 10 + _)%Z), Nat2Z.inj_succ, Z.pow_succ_r by lia. lia.
Qed.
Lemma digits_value_bound t : all_digits t -> (0 <= digits_value 0 t < 10 ^ Z.of_nat (length t))%Z.
Proof.
  induction 1 as [|c t Hc%is_ascii_digit_spec _ IH]; [cbn; lia|]. cbn [digits_value fold_left length]. fold (digits_value (0 * 10 + (c - 48)) t).
  rewrite digits_value_split, Nat2Z.inj_succ, Z.pow_succ_r by lia. nia.
Qed.
Lemma digits_value_ge n t : (0 <= n)%Z -> all_digits t -> (n <= digits_value n t)%Z.
Proof. intros Hn Ht. rewrite digits_value_split. pose proof (digits_value_bound t Ht). nia. Qed.
Lemma digits_value_zeros n k : digits_value n (replicate k 48%Z) = (n * 10 ^ Z.of_nat k)%Z.
Proof.
  revert n. induction k as [|k IH]; intros n; [cbn; lia|]. cbn [replicate digits_value fold_left]. fold (digits_value (n * 10 + (48 - 48)) (replicate k 48%Z)).
  rewrite IH, Nat2Z.inj_succ, Z.pow_succ_r by lia. lia.
Qed.
Lemma checked_fits modulus x : (x < modulus)%Z -> checked_at modulus x = Some x.
Proof. intros H. unfold checked_at. by rewrite (proj2 (Z.ltb_lt _ _) H). Qed.
Lemma checked_over modulus x : (modulus <= x)%Z -> checked_at modulus x = None.
Proof. intros H. unfold checked_at. by rewrite (proj2 (Z.ltb_ge _ _) H). Qed.
Lemma checked_Some modulus x y : checked_at modulus x = Some y <-> x = y /\ (x < modulus)%Z.
Proof. unfold checked_at. destruct (Z.ltb_spec x modulus); split; naive_solver lia. Qed.
(** Reading with checks fails exactly when the value does not fit. *)
Lemma accumulate_exact modulus n t : (0 <= n < modulus)%Z -> all_digits t ->
  accumulate modulus n t = checked_at modulus (digits_value n t).
Proof.
  intros Hn Ht. revert n Hn. induction Ht as [|c t Hc Ht IH]; intros n Hn.
  { cbn. by rewrite checked_fits by lia. }
  cbn [accumulate]. unfold to_digit. rewrite Hc. apply is_ascii_digit_spec in Hc. cbn [mbind option_bind].
  change (digits_value n (c :: t)) with (digits_value (n * 10 + (c - 48)) t).
  pose proof (digits_value_ge (n * 10 + (c - 48)) t ltac:(lia) Ht).
  destruct (Z.lt_ge_cases (n * 10) modulus); [|by rewrite !checked_over by lia]. rewrite checked_fits by done. cbn [mbind option_bind].
  destruct (Z.lt_ge_cases (n * 10 + (c - 48)) modulus); [|by rewrite !checked_over by lia]. rewrite checked_fits by done. apply IH. lia.
Qed.
Lemma accumulate_other modulus n t : ~ all_digits t -> accumulate modulus n t = None.
Proof.
  revert n. induction t as [|c t IH]; intros n Ht; [by destruct Ht|]. cbn [accumulate]. unfold to_digit.
  destruct (is_ascii_digit c) eqn:Ec; [|done]. cbn [mbind option_bind].
  destruct (checked_at modulus (n * 10)) as [m|]; cbn [mbind option_bind]; [|done].
  destruct (checked_at _ _); cbn [mbind option_bind]; [|done]. apply IH. intros Ha. apply Ht. by constructor.
Qed.
Lemma dec_go_value fuel : forall n acc, (0 <= n < 10 ^ Z.of_nat fuel)%Z -> digits_value 0 (dec_go fuel n acc) = digits_value n acc.
Proof.
  induction fuel as [|fuel IH]; intros n acc Hn; [cbn in *; by replace n with 0%Z by lia|].
  rewrite Nat2Z.inj_succ, Z.pow_succ_r in Hn by lia. cbn [dec_go]. pose proof (Z.div_mod n 10 ltac:(lia)). pose proof (Z.mod_pos_bound n 10 ltac:(lia)).
  destruct (Z.ltb_spec n 10).
  - change (digits_value (0 * 10 + (48 + n mod 10 - 48)) acc = digits_value n acc). f_equal. rewrite Z.mod_small; lia.
  - rewrite IH by lia. change (digits_value (n / 10 * 10 + (48 + n mod 10 - 48)) acc = digits_value n acc). f_equal. lia.
Qed.
Lemma display_value n : is_u64 n -> digits_value 0 (display_usize n) = n.
Proof.
  unfold is_u64, u64_mod. intros Hn. unfold display_usize. rewrite dec_go_value; [done|].
  change (10 ^ Z.of_nat 20)%Z with 100000000000000000000%Z. lia.
Qed.
Lemma display_all_digits n : (0 <= n)%Z -> all_digits (display_usize n).
Proof. intros Hn. eapply Forall_impl; [by apply display_usize_digits|]. intros c Hc. by apply is_ascii_digit_spec. Qed.
Lemma pad_value width t : all_digits t -> all_digits (pad_zeros width t) /\ digits_value 0 (pad_zeros width t) = digits_value 0 t.
Proof.
  intros Ht. unfold pad_zeros. split; [apply Forall_app; split; [|done]; by apply Forall_replicate|].
  by rewrite digits_value_app, digits_value_zeros.
Qed.
(** A number below a power of ten has no more digits than it. *)
Lemma dec_go_length fuel : forall n k acc, (n < 10 ^ Z.of_nat k)%Z -> 0 < k -> length (dec_go fuel n acc) <= k + length acc.
Proof.
  induction fuel as [|fuel IH]; intros n k acc Hn Hk; [cbn; lia|]. cbn [dec_go]. destruct (Z.ltb_spec n 10); [cbn; lia|].
  destruct k as [|[|k]]; [lia|cbn in Hn; lia|]. rewrite Nat2Z.inj_succ, Z.pow_succ_r in Hn by lia.
  etransitivity; [apply (IH _ (S k)); [apply Z.div_lt_upper_bound; lia|lia]|cbn; lia].
Qed.

(** ** Division *)

(** The nearest integer, halves up. *)
Lemma div_round_exact a d : (0 <= a < u128_mod)%Z -> (0 < d < u128_mod)%Z ->
  div_round_half_up a d = ((2 * a + d) / (2 * d))%Z.
Proof.
  intros Ha Hd. unfold div_round_half_up, saturate128. pose proof (Z.div_mod a d ltac:(lia)) as Hdm. pose proof (Z.mod_pos_bound a d ltac:(lia)).
  pose proof (Z.div_pos a d ltac:(lia) ltac:(lia)). set (q := (a / d)%Z) in *. set (r := (a mod d)%Z) in *. unfold u128_mod in *.
  destruct (Z.leb_spec d (Z.min (r * 2) (340282366920938463463374607431768211456 - 1))).
  - assert (q + 1 <= a)%Z by nia. rewrite Z.min_l by lia. apply (Z.div_unique _ _ _ (2 * r - d)); lia.
  - apply (Z.div_unique _ _ _ (2 * r + d)); lia.
Qed.
Lemma div_round_near a d : (0 <= a < u128_mod)%Z -> (0 < d < u128_mod)%Z ->
  (2 * d * div_round_half_up a d <= 2 * a + d < 2 * d * div_round_half_up a d + 2 * d)%Z.
Proof.
  intros Ha Hd. rewrite div_round_exact by done. pose proof (Z.div_mod (2 * a + d) (2 * d) ltac:(lia)).
  pose proof (Z.mod_pos_bound (2 * a + d) (2 * d) ltac:(lia)). lia.
Qed.

(** ** Bitcoin *)

Lemma digits_no_space t : all_digits t -> Forall (fun c => is_whitespace c = false) t.
Proof. intros H. eapply Forall_impl; [exact H|]. intros c Hc%is_ascii_digit_spec. unfold is_whitespace. lia. Qed.
Lemma digits_no_point t : all_digits t -> 46%Z ∉ t.
Proof. intros H Hin. rewrite Forall_forall in H. by apply H in Hin. Qed.
(** A decimal: digits, a point, digits. *)
Definition decimal (whole frac : Text) : Text := whole ++ 46%Z :: frac.
Lemma decimal_trim whole frac : all_digits whole -> all_digits frac -> trim (decimal whole frac) = decimal whole frac.
Proof.
  intros Hw Hf. apply trim_no_space. unfold decimal. apply Forall_app. split; [by apply digits_no_space|].
  constructor; [done|by apply digits_no_space].
Qed.
Lemma starts_other (t : Text) c rest x : t = c :: rest -> c <> x -> starts_with t [x] = false.
Proof. intros -> Hne. destruct (starts_with (c :: rest) [x]) eqn:E; [|done]. apply starts_with_spec in E as [r [= -> _]]. done. Qed.
Lemma readable_head c rest : c <> 43%Z -> c <> 45%Z -> unreadable (c :: rest) = false.
Proof.
  intros H1 H2. unfold unreadable. rewrite bool_decide_eq_false_2 by done.
  by rewrite (starts_other _ c rest 43%Z), (starts_other _ c rest 45%Z).
Qed.
Lemma decimal_readable whole frac : all_digits whole -> unreadable (decimal whole frac) = false.
Proof. intros [|c r Hc%is_ascii_digit_spec _]; apply readable_head; lia. Qed.
Lemma split_decimal whole frac : all_digits whole -> split_point (decimal whole frac) = (whole, frac).
Proof. intros Hw. unfold split_point, decimal. by rewrite split_once_at by (by apply digits_no_point). Qed.
(** Satoshis of a fraction: its first eight digits. *)
Lemma frac_as_sats_exact frac : all_digits frac ->
  frac_as_sats frac = Some (digits_value 0 frac * SATS_PER_BTC / 10 ^ Z.of_nat (length frac))%Z.
Proof.
  intros Hf. unfold frac_as_sats. rewrite (proj2 (forallb_digits frac) Hf). cbn [negb]. unfold parse_digits.
  set (pad := take 8 frac ++ _). assert (length pad = 8) as Hlen by (unfold pad; rewrite length_app, length_replicate, length_take; lia).
  assert (all_digits pad) as Hp by (unfold pad; apply Forall_app; split; [by apply Forall_take|by apply Forall_replicate]).
  pose proof (digits_value_bound pad Hp) as Hb. rewrite Hlen in Hb. change (10 ^ Z.of_nat 8)%Z with 100000000%Z in Hb.
  rewrite bool_decide_eq_false_2 by (intros Hn; by rewrite Hn in Hlen). rewrite accumulate_exact by (done || (unfold u64_mod; lia)).
  rewrite checked_fits by (unfold u64_mod; lia). f_equal. unfold pad, SATS_PER_BTC.
  rewrite digits_value_app, digits_value_zeros, length_take. destruct (decide (length frac <= 8)).
  - rewrite take_ge by lia. replace (8 `min` length frac) with (length frac) by lia.
    replace (100000000)%Z with (10 ^ Z.of_nat (8 - length frac) * 10 ^ Z.of_nat (length frac))%Z.
    + rewrite Z.mul_assoc, Z.div_mul; lia.
    + rewrite <- Z.pow_add_r by lia. replace (Z.of_nat (8 - length frac) + Z.of_nat (length frac))%Z with 8%Z by lia. done.
  - replace (8 - 8 `min` length frac) with 0 by lia. cbn [replicate Z.of_nat]. rewrite Z.mul_1_r.
    rewrite <- (take_drop 8 frac) at 2 3. rewrite length_app, length_take, length_drop, digits_value_app, (digits_value_split (digits_value 0 (take 8 frac)) (drop 8 frac)).
    replace (8 `min` length frac + (length frac - 8)) with (8 + length (drop 8 frac)) by (rewrite length_drop; lia).
    pose proof (digits_value_bound (drop 8 frac) ltac:(by apply Forall_drop)). set (k := Z.of_nat (length (drop 8 frac))) in *.
    rewrite Nat2Z.inj_add, Z.pow_add_r by lia. fold k. change (10 ^ Z.of_nat 8)%Z with 100000000%Z.
    rewrite (Z.mul_comm 100000000 (10 ^ k)), Z.div_mul_cancel_r by lia.
    apply (Z.div_unique _ _ _ (digits_value 0 (drop 8 frac))); lia.
Qed.

(** Reading a decimal: the satoshis below its value, when 64 bits hold them. *)
Lemma btc_to_sats_exact whole frac : all_digits whole -> all_digits frac -> (whole <> [] \/ frac <> []) ->
  btc_to_sats (decimal whole frac) =
  checked_at u64_mod (digits_value 0 (whole ++ frac) * SATS_PER_BTC / 10 ^ Z.of_nat (length frac))%Z.
Proof.
  intros Hw Hf Hne. unfold btc_to_sats. rewrite decimal_trim, decimal_readable, split_decimal, frac_as_sats_exact by done.
  assert (bool_decide (whole = []) && bool_decide (frac = []) = false) as ->.
  { destruct Hne; [rewrite bool_decide_eq_false_2|rewrite (bool_decide_eq_false_2 (frac = [])), andb_false_r]; done. }
  set (w := if bool_decide (whole = []) then _ else _).
  assert (all_digits w /\ w <> [] /\ digits_value 0 w = digits_value 0 whole) as (Hwd & Hwn & Hwv).
  { unfold w. case_bool_decide; subst; [|done]. split; [vm_decide|done]. }
  unfold parse_digits. rewrite bool_decide_eq_false_2 by done. rewrite accumulate_exact by (done || (unfold u64_mod; lia)).
  rewrite Hwv, digits_value_app, (digits_value_split (digits_value 0 whole)).
  pose proof (digits_value_bound whole Hw). pose proof (digits_value_bound frac Hf). set (v := digits_value 0 whole) in *. set (f := digits_value 0 frac) in *.
  set (p := (10 ^ Z.of_nat (length frac))%Z) in *. assert (0 < p)%Z by (apply Z.pow_pos_nonneg; lia).
  assert ((v * p + f) * SATS_PER_BTC / p = v * SATS_PER_BTC + f * SATS_PER_BTC / p)%Z as ->.
  { replace ((v * p + f) * SATS_PER_BTC)%Z with (v * SATS_PER_BTC * p + f * SATS_PER_BTC)%Z by lia. by rewrite Z.div_add_l by lia. }
  assert (0 <= f * SATS_PER_BTC / p)%Z by (apply Z.div_pos; unfold SATS_PER_BTC; lia). unfold SATS_PER_BTC in *.
  destruct (Z.lt_ge_cases v u64_mod); [|by rewrite !checked_over by lia]. rewrite checked_fits by done. cbn [mbind option_bind].
  destruct (Z.lt_ge_cases (v * 100000000) u64_mod); [|by rewrite !checked_over by lia]. by rewrite checked_fits by done.
Qed.
Lemma sats_to_btc_decimal s : is_u64 s -> exists whole frac, sats_to_btc s = decimal whole frac /\
  all_digits whole /\ all_digits frac /\ whole <> [] /\ length frac = 8 /\ digits_value 0 (whole ++ frac) = s.
Proof.
  unfold is_u64. intros Hs. pose proof (Z.div_mod s SATS_PER_BTC ltac:(done)) as Hd. pose proof (Z.mod_pos_bound s SATS_PER_BTC ltac:(done)) as Hm.
  assert (0 <= s / SATS_PER_BTC)%Z by (apply Z.div_pos; unfold SATS_PER_BTC; lia).
  assert (s / SATS_PER_BTC < u64_mod)%Z by (unfold SATS_PER_BTC in *; lia).
  assert (s mod SATS_PER_BTC < u64_mod)%Z by (unfold SATS_PER_BTC, u64_mod in *; lia).
  destruct (pad_value 8 (display_usize (s mod SATS_PER_BTC))) as [Hp Hv]; [apply display_all_digits; lia|].
  assert (length (display_usize (s mod SATS_PER_BTC)) <= 8) as Hl.
  { unfold display_usize. etransitivity; [apply (dec_go_length _ _ 8); [exact (proj2 Hm)|lia]|cbn; lia]. }
  assert (length (pad_zeros 8 (display_usize (s mod SATS_PER_BTC))) = 8) as Hl8 by (unfold pad_zeros; rewrite length_app, length_replicate; lia).
  eexists _, _. split; [reflexivity|]. split; [by apply display_all_digits|]. split; [done|]. split; [apply display_usize_ne|]. split; [done|].
  rewrite digits_value_app, (digits_value_split (digits_value 0 _)), Hv, Hl8, !display_value by (unfold is_u64; lia). unfold SATS_PER_BTC in *. lia.
Qed.
Lemma btc_roundtrip s : is_u64 s -> btc_to_sats (sats_to_btc s) = Some s.
Proof.
  intros Hs. destruct (sats_to_btc_decimal s Hs) as (whole & frac & -> & Hw & Hf & Hne & Hl & Hv).
  rewrite btc_to_sats_exact by auto. rewrite Hv, Hl. change (10 ^ Z.of_nat 8)%Z with SATS_PER_BTC. rewrite Z.div_mul by done.
  apply checked_Some. split; [done|]. apply Hs.
Qed.

(** ** Fiat *)

(** Buying at a rate and selling again at a scale finer than the rate comes back: [units] of
    [10^k] a coin cost [per_btc * 10^k], and [scale] of them are one of the units shown. *)
Lemma quote_returns per_btc k scale units shown :
  (0 < per_btc < scale)%Z -> (0 < k)%Z -> (0 <= units)%Z -> (units * SATS_PER_BTC < u128_mod)%Z -> (per_btc * k < u128_mod)%Z -> (scale < u128_mod)%Z ->
  let sats := div_round_half_up (units * SATS_PER_BTC) (per_btc * k) in
  (units * SATS_PER_BTC = shown * scale * k)%Z -> (sats * per_btc < u128_mod)%Z ->
  div_round_half_up (sats * per_btc) scale = shown.
Proof.
  intros Hr Hk Hu Hb Hd Hsc sats Hs Hm. unfold SATS_PER_BTC in *. pose proof (div_round_near (units * 100000000) (per_btc * k) ltac:(lia) ltac:(nia)) as Hn.
  fold sats in Hn. rewrite Hs in Hn.
  assert (2 * per_btc * sats <= 2 * (shown * scale) + per_btc /\ 2 * (shown * scale) + per_btc < 2 * per_btc * sats + 2 * per_btc)%Z by nia.
  assert (0 <= shown)%Z.
  { destruct (Z.lt_ge_cases shown 0); [exfalso|done]. assert (shown * scale < 0)%Z by nia. assert (shown * scale * k < 0)%Z by nia. lia. }
  assert (0 <= shown * scale)%Z by nia. assert (0 <= sats)%Z by nia.
  rewrite div_round_exact by nia. symmetry. apply (Z.div_unique _ _ _ (2 * (sats * per_btc) + scale - 2 * scale * shown)); lia.
Qed.
Lemma accumulate_nonneg m n t v : (0 <= n)%Z -> accumulate m n t = Some v -> (0 <= v)%Z.
Proof.
  revert n. induction t as [|c t IH]; intros n Hn; cbn; [by intros [= <-]|]. unfold to_digit. destruct (is_ascii_digit c) eqn:Ec; [|done].
  apply is_ascii_digit_spec in Ec. cbn. destruct (checked_at m (n * 10)) as [x|] eqn:E1; cbn; [|done]. apply checked_Some in E1 as [<- _].
  destruct (checked_at _ _) as [y|] eqn:E2; cbn; [|done]. apply checked_Some in E2 as [<- _]. apply IH. lia.
Qed.
Lemma parse_units_range amount n k : parse_decimal_units amount = Some (n, k) -> (0 <= n)%Z /\ (0 <= k <= 18)%Z.
Proof.
  unfold parse_decimal_units. destruct (unreadable _); [done|]. destruct (split_point _) as [whole frac].
  destruct (_ && _); [done|]. destruct (_ || _); [done|]. destruct (Nat.ltb_spec 18 (length frac)); [done|].
  destruct (if bool_decide (whole = []) then _ else _) as [m|] eqn:Em; cbn; [|done].
  assert (0 <= m)%Z. { case_bool_decide; [by injection Em as <-|]. unfold parse_u128 in Em. case_bool_decide; [done|]. by apply accumulate_nonneg in Em. }
  destruct (accumulate _ _ _) as [v|] eqn:E; cbn; [|done]. intros [= <- <-]. apply accumulate_nonneg in E; lia.
Qed.
Definition fiat_rate (c : FiatCode) : Z := match c with Usd => FIXTURE_USD_PER_BTC | Jpy => FIXTURE_JPY_PER_BTC end.
(** The digits a currency has after the point. *)
Definition fiat_decimals (c : FiatCode) : Z := match c with Usd => 2 | Jpy => 0 end.
Definition show_fiat (c : FiatCode) (smallest : Z) : Text := match c with Usd => format_usd_cents smallest | Jpy => format_jpy_yen smallest end.
(** A quote of an amount of up to 10^15 units exists. *)
Lemma quote_exists c amount n k : parse_decimal_units amount = Some (n, k) -> (n <= 10 ^ 15)%Z ->
  let s := div_round_half_up (n * SATS_PER_BTC) (fiat_rate c * 10 ^ k) in
  fiat_to_btc_and_sats (fiat_rate c) amount = Some (mkQuote n (fiat_rate c * 10 ^ k) s) /\ (0 <= s < 2 ^ 60)%Z.
Proof.
  intros Hp Hn s. destruct (parse_units_range _ _ _ Hp) as [H0 Hk]. change (10 ^ 15)%Z with 1000000000000000%Z in Hn.
  assert (1 <= 10 ^ k <= 1000000000000000000)%Z as Hk10.
  { split; [apply (Z.pow_le_mono_r 10 0 k); lia|]. change 1000000000000000000%Z with (10 ^ 18)%Z. apply Z.pow_le_mono_r; lia. }
  assert (123456 <= fiat_rate c <= 11057757)%Z as Hr by (by destruct c).
  assert (fiat_rate c * 10 ^ k < u128_mod)%Z by (unfold u128_mod; nia). unfold SATS_PER_BTC in *.
  assert (0 <= s < 2 ^ 60)%Z as Hs.
  { pose proof (div_round_near (n * 100000000) (fiat_rate c * 10 ^ k) ltac:(unfold u128_mod; lia) ltac:(nia)) as Hd. fold s in Hd.
    change (2 ^ 60)%Z with 1152921504606846976%Z. split; nia. }
  split; [|done]. unfold fiat_to_btc_and_sats. rewrite Hp. cbn [mbind option_bind]. unfold checked_pow10.
  rewrite (checked_fits _ (10 ^ k)) by (unfold u128_mod; lia). cbn [mbind option_bind].
  rewrite (checked_fits _ (fiat_rate c * 10 ^ k)) by done. cbn [mbind option_bind]. unfold SATS_PER_BTC.
  rewrite (checked_fits _ (n * 100000000)) by (unfold u128_mod; lia). cbn [mbind option_bind]. fold s.
  change (2 ^ 60)%Z with 1152921504606846976%Z in Hs. by rewrite (checked_fits _ s) by (unfold u64_mod; lia).
Qed.

(** A fiat amount entered into the calculator, of up to 10^15 units with no more digits
    after the point than the currency has, is accepted and is the amount that is shown,
    although it goes through a whole number of satoshis; the bitcoin and satoshi fields
    hold that number, and reading the bitcoin field gives it back. *)
Lemma fiat_amounts_return form amount n k :
  parse_decimal_units (decimal_comma_to_dot amount) = Some (n, k) -> (n <= 10 ^ 15)%Z -> (k <= fiat_decimals (code form))%Z ->
  exists form' s, enter_fiat form amount = Some form' /\
    fiat_text form' = show_fiat (code form) (n * 10 ^ (fiat_decimals (code form) - k)) /\
    sats form' = display_usize s /\ btc form' = sats_to_btc s /\ btc_to_sats (btc form') = Some s.
Proof.
  intros Hp Hn Hk. destruct (parse_units_range _ _ _ Hp) as [H0 Hk0].
  destruct (quote_exists (code form) _ n k Hp Hn) as [Hq Hs]. set (s := div_round_half_up _ _) in *.
  exists (with_amounts form (decimal_comma_to_dot amount) (sats_to_btc s) s), s.
  assert (enter_fiat form amount = Some (with_amounts form (decimal_comma_to_dot amount) (sats_to_btc s) s)) as He.
  { unfold enter_fiat, usd_to_btc_and_sats, jpy_to_btc_and_sats. by destruct (code form); cbn [fiat_rate] in Hq; rewrite Hq. }
  split; [exact He|]. cbn [with_amounts fiat_text sats btc]. change (2 ^ 60)%Z with 1152921504606846976%Z in Hs.
  rewrite btc_roundtrip by (unfold is_u64, u64_mod; lia). split; [|done]. change (10 ^ 15)%Z with 1000000000000000%Z in Hn.
  assert (forall c, code form = c -> match c with Usd => sats_to_usd_cents s | Jpy => sats_to_yen s end = n * 10 ^ (fiat_decimals c - k))%Z as Hc.
  { intros c Ec. rewrite Ec in Hk. assert (s = div_round_half_up (n * SATS_PER_BTC) (fiat_rate c * 10 ^ k)) as Es by (unfold s; by rewrite Ec).
    clearbody s. rewrite Es in Hs |- *. clear Es He Hq. destruct c; cbn [fiat_decimals fiat_rate] in *.
    - assert (k = 0 \/ k = 1 \/ k = 2)%Z as [Ek|[Ek|Ek]] by lia; subst k; unfold sats_to_usd_cents;
        apply quote_returns; unfold FIXTURE_USD_PER_BTC, SATS_PER_BTC, u128_mod in *; lia.
    - assert (k = 0)%Z as Ek by lia. subst k. unfold sats_to_yen.
      apply quote_returns; unfold FIXTURE_JPY_PER_BTC, SATS_PER_BTC, u128_mod in *; lia. }
  specialize (Hc _ eq_refl). destruct (code form); cbn [show_fiat]; unfold sats_fiat_usd, sats_fiat_jpy; f_equal; exact Hc.
Qed.

(** ** The cap *)

Lemma bytes_ge_value a b : all_digits a -> all_digits b -> length a = length b ->
  bytes_ge a b = (digits_value 0 b <=? digits_value 0 a)%Z.
Proof.
  intros Ha. revert b. induction Ha as [|x a Hx%is_ascii_digit_spec Ha IH]; intros b Hb Hl; [by destruct b|].
  destruct Hb as [|y b Hy%is_ascii_digit_spec Hb]; [done|]. cbn [bytes_ge]. injection Hl as Hl.
  change (digits_value 0 (x :: a)) with (digits_value (x - 48) a). change (digits_value 0 (y :: b)) with (digits_value (y - 48) b).
  rewrite (digits_value_split (x - 48)), (digits_value_split (y - 48)), Hl.
  pose proof (digits_value_bound a Ha) as Ba. pose proof (digits_value_bound b Hb) as Bb. rewrite Hl in Ba. set (p := (10 ^ Z.of_nat (length b))%Z) in *.
  destruct (Z.eqb_spec x y) as [->|Hne].
  - rewrite IH by done. destruct (Z.leb_spec (digits_value 0 b) (digits_value 0 a)); lia.
  - destruct (Z.ltb_spec y x); symmetry; [apply Z.leb_le|apply Z.leb_gt]; nia.
Qed.
Lemma trim_zeros_value t : all_digits t -> all_digits (trim_start_char 48 t) /\ digits_value 0 (trim_start_char 48 t) = digits_value 0 t.
Proof.
  unfold trim_start_char. induction 1 as [|c t Hc Ht IH]; [done|]. cbn [skip_while]. destruct (Z.eqb_spec 48 c) as [<-|].
  - done.
  - split; [by constructor|done].
Qed.
Lemma trimmed_low t : all_digits t -> trim_start_char 48 t <> [] ->
  (10 ^ Z.of_nat (length (trim_start_char 48 t) - 1) <= digits_value 0 (trim_start_char 48 t))%Z.
Proof.
  unfold trim_start_char. induction 1 as [|c t Hc%is_ascii_digit_spec Ht IH]; [done|]. cbn [skip_while]. destruct (Z.eqb_spec 48 c) as [<-|Hne]; [done|].
  intros _. change (digits_value 0 (c :: t)) with (digits_value (c - 48) t). rewrite digits_value_split. cbn [length]. rewrite Nat.sub_1_r. cbn [Nat.pred].
  pose proof (digits_value_bound t Ht). nia.
Qed.
(** Digits reach the cap exactly when their value does. *)
Lemma digits_reach_cap btc whole frac : split_point btc = (whole, frac) -> all_digits whole -> all_digits frac ->
  reaches_cap btc = (BTC_SUPPLY_CAP <=? digits_value 0 whole)%Z.
Proof.
  intros Hs Hw Hf. unfold reaches_cap. rewrite Hs, !(proj2 (forallb_digits _)) by done. cbn [negb orb].
  pose proof (trimmed_low whole Hw) as Hlow. destruct (trim_zeros_value whole Hw) as [Ht <-].
  set (w := trim_start_char 48 whole) in *. pose proof (digits_value_bound w Ht) as Hb. unfold BTC_SUPPLY_CAP. case_bool_decide as Hn; [by rewrite Hn|].
  specialize (Hlow Hn). destruct (Nat.ltb_spec 8 (length w)) as [Hl|Hl].
  - symmetry. apply Z.leb_le. etransitivity; [|exact Hlow]. transitivity (10 ^ 8)%Z; [lia|]. apply Z.pow_le_mono_r; lia.
  - destruct (Nat.ltb_spec (length w) 8).
    + symmetry. apply Z.leb_gt. assert (10 ^ Z.of_nat (length w) <= 10 ^ 7)%Z by (apply Z.pow_le_mono_r; lia). lia.
    + rewrite bytes_ge_value; [done|done|vm_decide|]. change (length (text_of "21000000")) with 8. lia.
Qed.
Lemma parse_digits_value t v : parse_digits t = Some v -> all_digits t /\ v = digits_value 0 t.
Proof.
  unfold parse_digits. case_bool_decide; [done|]. destruct (decide (all_digits t)) as [Ht|Ht]; [|by rewrite accumulate_other].
  rewrite accumulate_exact by (done || (unfold u64_mod; lia)). intros [<- _]%checked_Some. done.
Qed.
(** What is read has digits on both sides of its point. *)
Lemma btc_to_sats_shape btc s : trim btc = btc -> btc_to_sats btc = Some s ->
  exists whole frac f, split_point btc = (whole, frac) /\ all_digits whole /\ all_digits frac /\
    s = (digits_value 0 whole * SATS_PER_BTC + f)%Z /\ (0 <= f < SATS_PER_BTC)%Z.
Proof.
  intros Htr. unfold btc_to_sats. rewrite Htr. destruct (unreadable btc); [done|]. destruct (split_point btc) as [whole frac].
  destruct (_ && _); [done|]. destruct (parse_digits _) as [w|] eqn:Ew; cbn [mbind option_bind]; [|done].
  destruct (frac_as_sats frac) as [f|] eqn:Ef; cbn [mbind option_bind]; [|done].
  destruct (checked_at u64_mod (w * _)) as [ws|] eqn:Ec; cbn [mbind option_bind]; [|done]. intros [<- _]%checked_Some.
  apply checked_Some in Ec as [<- _]. apply parse_digits_value in Ew as [Hw ->].
  assert (all_digits whole /\ digits_value 0 (if bool_decide (whole = []) then text_of "0" else whole) = digits_value 0 whole) as [Hwd ->].
  { case_bool_decide as Hn; [|done]. by rewrite Hn. }
  assert (all_digits frac) as Hfd.
  { unfold frac_as_sats in Ef. destruct (forallb _ frac) eqn:E; [by apply forallb_digits|done]. }
  exists whole, frac, f. do 4 (split; [done|]). rewrite frac_as_sats_exact in Ef by done. injection Ef as <-.
  pose proof (digits_value_bound frac Hfd). assert (0 < 10 ^ Z.of_nat (length frac))%Z by (apply Z.pow_pos_nonneg; lia). unfold SATS_PER_BTC.
  split; [apply Z.div_pos; lia|apply Z.div_lt_upper_bound; nia].
Qed.
Lemma truncate_no_space t : Forall (fun c => is_whitespace c = false) t -> Forall (fun c => is_whitespace c = false) (truncate_btc_decimals t).
Proof.
  unfold truncate_btc_decimals. destruct (split_once 46 t) as [[whole frac]|] eqn:E; [|done]. intros Ht.
  assert (t = whole ++ 46%Z :: frac) as ->.
  { clear Ht. revert whole E. induction t as [|x t IH]; intros whole; cbn; [done|]. destruct (Z.eqb_spec x 46) as [->|]; [by intros [= <- <-]|].
    destruct (split_once 46 t) as [[w f]|]; cbn; [|done]. intros [= <- ->]. by rewrite (IH w). }
  apply Forall_app in Ht as [Hw Hf]. apply Forall_app. split; [done|]. inversion Hf; subst. constructor; [done|by apply Forall_take].
Qed.

(** Whatever is typed into the bitcoin field, without white space, the amount in
    satoshis that the calculator goes on with is at most the supply of 21 million bitcoin,
    the satoshi field shows it, and it is the amount that the bitcoin field holds (zero
    when the field is no amount). *)
Lemma btc_field_capped form amount :
  Forall (fun c => is_whitespace c = false) amount ->
  exists s, let form' := enter_btc form amount in
    (0 <= s <= BTC_SUPPLY_CAP * SATS_PER_BTC)%Z /\ sats form' = display_usize s /\
    s = default 0%Z (btc_to_sats (btc form')) /\
    fiat_text form' = match code form with Usd => sats_fiat_usd s | Jpy => sats_fiat_jpy s end.
Proof.
  intros Ha. exists (default 0%Z (btc_to_sats (btc (enter_btc form amount)))). cbv zeta. split; [|done].
  change (btc (enter_btc form amount)) with (cb_btc (cap_btc_supply (truncate_btc_decimals amount))).
  apply truncate_no_space in Ha. set (t := truncate_btc_decimals amount) in *. unfold cap_btc_supply.
  destruct (reaches_cap t) eqn:Er; cbn [cb_btc]; [vm_compute; by split|].
  destruct (btc_to_sats t) as [s|] eqn:Eb; cbn; [|done].
  destruct (btc_to_sats_shape t s (trim_no_space t Ha) Eb) as (whole & frac & f & Hs & Hw & Hf & -> & Hfr).
  rewrite (digits_reach_cap _ _ _ Hs) in Er by done. apply Z.leb_gt in Er. pose proof (digits_value_bound whole Hw).
  unfold SATS_PER_BTC, BTC_SUPPLY_CAP in *. lia.
Qed.
(** With a space before it, an amount evades the cap. *)
Lemma space_evades_cap form : sats (enter_btc form (text_of " 99999999")) = text_of "9999999900000000".
Proof. by destruct form as [[]]; vm_compute. Qed.

(** ** Rounding satoshis *)

(** The value of digits with the last one first. *)
Definition rev_value (t : Text) : Z := foldr (fun c n => c - 48 + 10 * n)%Z 0%Z t.
Lemma rev_value_reverse t : digits_value 0 (reverse t) = rev_value t.
Proof.
  induction t as [|c t IH]; [done|]. rewrite reverse_cons, digits_value_app, IH.
  change (rev_value t * 10 + (c - 48) = c - 48 + 10 * rev_value t)%Z. lia.
Qed.
Lemma carry_up_value t : all_digits t -> exists r, carry_up t = Some r /\ rev_value r = (rev_value t + 1)%Z.
Proof.
  induction 1 as [|c t Hc Ht (r & Hr & Hv)]; [by exists [49%Z]|]. cbn [carry_up]. rewrite Hc. destruct (Z.eqb_spec c 57) as [->|Hne].
  - rewrite Hr. eexists. split; [done|]. cbn. fold (rev_value r) (rev_value t). rewrite Hv. lia.
  - eexists. split; [done|]. cbn. lia.
Qed.
(** The satoshi field is rounded to the nearest whole number, halves up. *)
Lemma satoshis_rounded whole frac (p := (10 ^ Z.of_nat (length frac))%Z) : all_digits whole -> all_digits frac ->
  digits_value 0 (strips_decimals_from_satoshis_input (decimal whole frac)) =
  ((2 * digits_value 0 (whole ++ frac) + p) / (2 * p))%Z.
Proof.
  intros Hw Hf. unfold p, strips_decimals_from_satoshis_input, decimal. rewrite split_once_at by (by apply digits_no_point).
  set (w := if bool_decide (whole = []) then _ else _).
  assert (all_digits w /\ digits_value 0 w = digits_value 0 whole) as [Hwd Hwv]
    by (unfold w; case_bool_decide; subst; [split; [vm_decide|done]|done]).
  assert (all_digits (reverse w)) as Hrw by (by apply Forall_reverse). destruct (carry_up_value _ Hrw) as (r & Hr & Hv).
  assert (digits_value 0 (reverse r) = digits_value 0 whole + 1)%Z as Hup.
  { rewrite rev_value_reverse, Hv, <- rev_value_reverse, reverse_involutive. by rewrite Hwv. }
  rewrite digits_value_app, (digits_value_split (digits_value 0 whole)). set (v := digits_value 0 whole) in *.
  destruct Hf as [|c f Hc%is_ascii_digit_spec Hf].
  - cbn [negb length]. rewrite Hwv. apply (Z.div_unique _ _ _ 1); cbn; lia.
  - change (digits_value 0 (c :: f)) with (digits_value (c - 48) f). rewrite (digits_value_split (c - 48)). pose proof (digits_value_bound f Hf) as Hg.
    cbn [length]. rewrite Nat2Z.inj_succ, Z.pow_succ_r by lia. set (g := digits_value 0 f) in *. set (q := (10 ^ Z.of_nat (length f))%Z) in *.
    rewrite Hr, (proj2 (Z.leb_le c 57)) by lia. destruct (Z.leb_spec 53 c); cbn [andb negb]; rewrite ?Hup, ?Hwv.
    + apply (Z.div_unique _ _ _ (2 * ((c - 48) * q + g) - 10 * q)); [left; nia|ring].
    + apply (Z.div_unique _ _ _ (2 * ((c - 48) * q + g) + 10 * q)); [left; nia|ring].
Qed.

(** ** Separators *)

(** Taking the separators away gives the digits back. *)
Lemma group_from_strip len i digits : all_digits digits -> replace_char 44 [] (group_from len i digits) = digits.
Proof.
  intros Hd. revert i. induction Hd as [|c t Hc%is_ascii_digit_spec Ht IH]; intros i; [done|]. cbn [group_from].
  assert (replace_char 44 [] (c :: group_from len (S i) t) = c :: t) as Hr.
  { unfold replace_char. cbn [map concat]. rewrite (proj2 (Z.eqb_neq c 44)) by lia. cbn [app]. f_equal. apply IH. }
  by destruct (_ && _).
Qed.
Lemma group_thousands_strip digits : all_digits digits -> replace_char 44 [] (group_thousands digits) = digits.
Proof. apply group_from_strip. Qed.

(** ** Witnesses *)

Lemma fiat_amounts_return_witness : exists form',
  enter_fiat (loaded_calculator Usd) (text_of "19,99") = Some form' /\ fiat_text form' = text_of "$19.99" /\
  btc form' = text_of "0.00016192".
Proof.
  destruct (fiat_amounts_return (loaded_calculator Usd) (text_of "19,99") 1999 2) as (form' & s & He & Ht & _ & Hb & _).
  - vm_compute. reflexivity.
  - vm_compute. discriminate.
  - vm_compute. discriminate.
  - exists form'. split; [exact He|]. split; [rewrite Ht; vm_compute; reflexivity|].
    assert (Some form' = enter_fiat (loaded_calculator Usd) (text_of "19,99")) as Hf by (symmetry; exact He).
    vm_compute in Hf. injection Hf as ->. vm_compute. reflexivity.
Defined.
Lemma btc_field_capped_witness : exists s,
  (0 <= s <= BTC_SUPPLY_CAP * SATS_PER_BTC)%Z /\ sats (enter_btc (loaded_calculator Jpy) (text_of "99999999.5")) = display_usize s.
Proof.
  destruct (btc_field_capped (loaded_calculator Jpy) (text_of "99999999.5")) as (s & Hs & Hd & _).
  - vm_decide.
  - exists s. split; [exact Hs|exact Hd].
Defined.
