(* ===== verification/ClientWire.v ===== *)
(** * [frontend/shared/src/wire.rs]: the structs the clients read from the indexer's JSON

    First what [derive(Deserialize)] does with a struct: the fields of an object by name,
    each at most once, others ignored, or the elements of an array in the order of the
    fields; then the structs with the attributes of their fields.  A value that does not
    fit is [None]: which error [serde] reports is not modelled. *)

From S2P Require Import Prelude Fees Query Text Json Auth.

(** ** Structs *)

Definition count_field (name : string) (fields : list (Text * Json)) : nat :=
  length (filter (fun p : Text * Json => p.1 = text_of name) fields).
Definition open_struct (names : list string) (j : Json) : option Json :=
  match j with
  | JObj fields => if existsb (fun name => 1 <? count_field name fields) names then None else Some j
  | JArr items => if length items <=? length names then Some j else None
  | _ => None
  end.
Definition take_field (names : list string) (j : Json) (name : string) : option Json :=
  match j with
  | JArr items => '(i, _) ← list_find (fun n => n = name) names; items !! i
  | _ => json_get j (text_of name)
  end.
(** A field that must be there, one of type [Option], which only an object may leave out, and
    one that has a default as well. *)
Definition required {A} names j name (dec : Json -> option A) : option A := take_field names j name ≫= dec.
Definition option_of {A} (dec : Json -> option A) (j : Json) : option (option A) :=
  match j with JNull => Some None | _ => Some <$> dec j end.
Definition defaulted {A} names j name (dec : Json -> option A) : option (option A) :=
  match take_field names j name with None => Some None | Some v => option_of dec v end.
Definition optional {A} names j name (dec : Json -> option A) : option (option A) :=
  match take_field names j name, j with
  | None, JArr _ => None
  | None, _ => Some None
  | Some v, _ => option_of dec v
  end.

Definition de_u32 (j : Json) : option Z := n ← as_u64 j; if (n <? 4294967296)%Z then Some n else None.
Definition de_i64 (j : Json) : option Z :=
  match j with JInt n => if ((-9223372036854775808 <=? n) && (n <? 9223372036854775808))%Z then Some n else None | _ => None end.
Definition de_f64 (j : Json) : option f64 := match j with JFloat x => Some x | JInt n => Some (f64_of_Z n) | _ => None end.
Definition de_vec {A} (dec : Json -> option A) (j : Json) : option (list A) := as_array j ≫= mapM dec.

(** ** The structs of [wire.rs] *)

Record Block := mkBlock {
  wb_id : Text; wb_height : Z; wb_version : Z; wb_timestamp : Z; wb_tx_count : Z; wb_size : Z; wb_weight : Z;
  wb_merkle_root : Text; wb_previous_block_hash : option Text; wb_median_time : Z; wb_nonce : option Z;
  wb_bits : option Z; wb_difficulty : option f64; wb_ext : option Json; wb_stale : option bool }.
Definition Block_names : list string :=
  ["id"; "height"; "version"; "timestamp"; "tx_count"; "size"; "weight"; "merkle_root"; "previousblockhash"; "mediantime";
   "nonce"; "bits"; "difficulty"; "ext"; "stale"]%string.
Definition de_Block (j : Json) : option Block :=
  j ← open_struct Block_names j;
  let req {A} := @required A Block_names j in
  let dft {A} := @defaulted A Block_names j in
  id ← req "id" as_str; height ← req "height" de_u32; version ← req "version" de_u32; timestamp ← req "timestamp" de_u32;
  tx_count ← req "tx_count" de_u32; size ← req "size" de_u32; weight ← req "weight" de_u32; merkle_root ← req "merkle_root" as_str;
  previous_block_hash ← dft "previousblockhash" as_str; median_time ← req "mediantime" de_u32;
  nonce ← dft "nonce" de_u32; bits ← dft "bits" de_u32; difficulty ← dft "difficulty" de_f64;
  ext ← dft "ext" Some; stale ← dft "stale" as_bool;
  Some (mkBlock id height version timestamp tx_count size weight merkle_root previous_block_hash median_time nonce bits
          difficulty ext stale).
(** [from_str] reads a text; the errors are texts, as they are shown. *)
Definition from_str_as {A} (from_str : Text -> Text + Json) (data_error : Json -> Text) (dec : Json -> option A) (body : Text) : Text + A :=
  j ← from_str body; match dec j with Some a => inr a | None => inl (data_error j) end.
Definition blocks_keeping_valid_elements (from_str : Text -> Text + Json) (data_error : Json -> Text) (body : Text) : Text + list Block :=
  j ← from_str body;
  match j with
  | JArr elements => inr (omap de_Block elements)
  | _ => from_str_as from_str data_error (de_vec de_Block) body
  end.

Record TxStatus := mkStatus {
  ws_confirmed : bool; ws_block_height : option Z; ws_block_hash : option Text; ws_block_time : option Z }.
Definition TxStatus_names : list string := ["confirmed"; "block_height"; "block_hash"; "block_time"]%string.
Definition de_TxStatus (j : Json) : option TxStatus :=
  j ← open_struct TxStatus_names j;
  let dft {A} := @defaulted A TxStatus_names j in
  confirmed ← required TxStatus_names j "confirmed" as_bool; block_height ← dft "block_height" as_u64;
  block_hash ← dft "block_hash" as_str; block_time ← dft "block_time" as_u64;
  Some (mkStatus confirmed block_height block_hash block_time).

Record Issuance := mkIssuance {
  is_asset_id : Text; is_is_reissuance : bool; is_asset_blinding_nonce : option Text; is_contract_hash : option Text;
  is_asset_entropy : Text; is_assetamount : option Z; is_assetamountcommitment : option Text; is_tokenamount : option Z;
  is_tokenamountcommitment : option Text }.
Definition Issuance_names : list string :=
  ["asset_id"; "is_reissuance"; "asset_blinding_nonce"; "contract_hash"; "asset_entropy"; "assetamount";
   "assetamountcommitment"; "tokenamount"; "tokenamountcommitment"]%string.
Definition de_Issuance (j : Json) : option Issuance :=
  j ← open_struct Issuance_names j;
  let req {A} := @required A Issuance_names j in
  let dft {A} := @defaulted A Issuance_names j in
  asset_id ← req "asset_id" as_str; is_reissuance ← req "is_reissuance" as_bool;
  asset_blinding_nonce ← dft "asset_blinding_nonce" as_str; contract_hash ← dft "contract_hash" as_str;
  asset_entropy ← req "asset_entropy" as_str; assetamount ← dft "assetamount" as_u64;
  assetamountcommitment ← dft "assetamountcommitment" as_str; tokenamount ← dft "tokenamount" as_u64;
  tokenamountcommitment ← dft "tokenamountcommitment" as_str;
  Some (mkIssuance asset_id is_reissuance asset_blinding_nonce contract_hash asset_entropy assetamount assetamountcommitment
          tokenamount tokenamountcommitment).

Record Pegout := mkPegout {
  pg_genesis_hash : Text; pg_script_pubkey : Text; pg_script_pubkey_asm : Text; pg_script_pubkey_address : option Text }.
Definition Pegout_names : list string := ["genesis_hash"; "scriptpubkey"; "scriptpubkey_asm"; "scriptpubkey_address"]%string.
Definition de_Pegout (j : Json) : option Pegout :=
  j ← open_struct Pegout_names j;
  let req {A} := @required A Pegout_names j in
  genesis_hash ← req "genesis_hash" as_str; script_pubkey ← req "scriptpubkey" as_str;
  script_pubkey_asm ← req "scriptpubkey_asm" as_str; script_pubkey_address ← defaulted Pegout_names j "scriptpubkey_address" as_str;
  Some (mkPegout genesis_hash script_pubkey script_pubkey_asm script_pubkey_address).

Record TxOutput := mkOutput {
  wo_script_pubkey : Text; wo_script_pubkey_asm : Text; wo_script_pubkey_type : Text; wo_script_pubkey_address : option Text;
  wo_value : option Z; wo_valuecommitment : option Text; wo_asset : option Text; wo_assetcommitment : option Text;
  wo_pegout : option Pegout }.
Definition TxOutput_names : list string :=
  ["scriptpubkey"; "scriptpubkey_asm"; "scriptpubkey_type"; "scriptpubkey_address"; "value"; "valuecommitment"; "asset";
   "assetcommitment"; "pegout"]%string.
Definition de_TxOutput (j : Json) : option TxOutput :=
  j ← open_struct TxOutput_names j;
  let req {A} := @required A TxOutput_names j in
  let dft {A} := @defaulted A TxOutput_names j in
  script_pubkey ← req "scriptpubkey" as_str; script_pubkey_asm ← req "scriptpubkey_asm" as_str;
  script_pubkey_type ← req "scriptpubkey_type" as_str; script_pubkey_address ← dft "scriptpubkey_address" as_str;
  value ← dft "value" as_u64; valuecommitment ← dft "valuecommitment" as_str; asset ← dft "asset" as_str;
  assetcommitment ← dft "assetcommitment" as_str; pegout ← dft "pegout" de_Pegout;
  Some (mkOutput script_pubkey script_pubkey_asm script_pubkey_type script_pubkey_address value valuecommitment asset
          assetcommitment pegout).

Record TxInput := mkInput {
  wi_txid : Text; wi_vout : Z; wi_prevout : option TxOutput; wi_script_sig : Text; wi_script_sig_asm : Text;
  wi_witness : option (list Text); wi_is_coinbase : bool; wi_is_pegin : option bool; wi_issuance : option Issuance;
  wi_sequence : Z; wi_inner_redeem_script_asm : option Text; wi_inner_witness_script_asm : option Text }.
Definition TxInput_names : list string :=
  ["txid"; "vout"; "prevout"; "scriptsig"; "scriptsig_asm"; "witness"; "is_coinbase"; "is_pegin"; "issuance"; "sequence";
   "inner_redeemscript_asm"; "inner_witnessscript_asm"]%string.
Definition de_TxInput (j : Json) : option TxInput :=
  j ← open_struct TxInput_names j;
  let req {A} := @required A TxInput_names j in
  let dft {A} := @defaulted A TxInput_names j in
  txid ← req "txid" as_str; vout ← req "vout" de_u32; prevout ← optional TxInput_names j "prevout" de_TxOutput;
  script_sig ← req "scriptsig" as_str; script_sig_asm ← req "scriptsig_asm" as_str; witness ← dft "witness" (de_vec as_str);
  is_coinbase ← req "is_coinbase" as_bool; is_pegin ← dft "is_pegin" as_bool; issuance ← dft "issuance" de_Issuance;
  sequence ← req "sequence" de_u32; inner_redeem_script_asm ← dft "inner_redeemscript_asm" as_str;
  inner_witness_script_asm ← dft "inner_witnessscript_asm" as_str;
  Some (mkInput txid vout prevout script_sig script_sig_asm witness is_coinbase is_pegin issuance sequence
          inner_redeem_script_asm inner_witness_script_asm).

Record Transaction := mkTransaction {
  wt_txid : Text; wt_version : Z; wt_lock_time : Z; wt_vin : list TxInput; wt_vout : list TxOutput; wt_size : Z;
  wt_weight : Z; wt_sigops : Z; wt_fee : Z; wt_status : option TxStatus }.
Definition Transaction_names : list string :=
  ["txid"; "version"; "locktime"; "vin"; "vout"; "size"; "weight"; "sigops"; "fee"; "status"]%string.
Definition de_Transaction (j : Json) : option Transaction :=
  j ← open_struct Transaction_names j;
  let req {A} := @required A Transaction_names j in
  txid ← req "txid" as_str; version ← req "version" de_u32; lock_time ← req "locktime" de_u32;
  vin ← req "vin" (de_vec de_TxInput); vout ← req "vout" (de_vec de_TxOutput); size ← req "size" de_u32;
  weight ← req "weight" de_u32; sigops ← req "sigops" de_u32; fee ← req "fee" as_u64;
  status ← defaulted Transaction_names j "status" de_TxStatus;
  Some (mkTransaction txid version lock_time vin vout size weight sigops fee status).

Record ScriptStats := mkScriptStats {
  wss_tx_count : Z; wss_funded_txo_count : Z; wss_spent_txo_count : Z; wss_funded_txo_sum : option Z; wss_spent_txo_sum : option Z }.
Definition ScriptStats_names : list string :=
  ["tx_count"; "funded_txo_count"; "spent_txo_count"; "funded_txo_sum"; "spent_txo_sum"]%string.
Definition de_ScriptStats (j : Json) : option ScriptStats :=
  j ← open_struct ScriptStats_names j;
  let req {A} := @required A ScriptStats_names j in
  let dft {A} := @defaulted A ScriptStats_names j in
  tx_count ← req "tx_count" as_u64; funded_txo_count ← req "funded_txo_count" as_u64; spent_txo_count ← req "spent_txo_count" as_u64;
  funded_txo_sum ← dft "funded_txo_sum" as_u64; spent_txo_sum ← dft "spent_txo_sum" as_u64;
  Some (mkScriptStats tx_count funded_txo_count spent_txo_count funded_txo_sum spent_txo_sum).
Record AddressStats := mkAddressStats {
  was_address : option Text; was_scripthash : option Text; was_chain_stats : ScriptStats; was_mempool_stats : ScriptStats }.
Definition AddressStats_names : list string := ["address"; "scripthash"; "chain_stats"; "mempool_stats"]%string.
Definition de_AddressStats (j : Json) : option AddressStats :=
  j ← open_struct AddressStats_names j;
  let req {A} := @required A AddressStats_names j in
  let dft {A} := @defaulted A AddressStats_names j in
  address ← dft "address" as_str; scripthash ← dft "scripthash" as_str;
  chain_stats ← req "chain_stats" de_ScriptStats; mempool_stats ← req "mempool_stats" de_ScriptStats;
  Some (mkAddressStats address scripthash chain_stats mempool_stats).

Record Utxo := mkUtxo {
  wu_txid : Text; wu_vout : Z; wu_status : TxStatus; wu_value : option Z; wu_valuecommitment : option Text;
  wu_asset : option Text; wu_assetcommitment : option Text; wu_nonce : option Text; wu_noncecommitment : option Text;
  wu_surjection_proof : option Text; wu_range_proof : option Text }.
Definition Utxo_names : list string :=
  ["txid"; "vout"; "status"; "value"; "valuecommitment"; "asset"; "assetcommitment"; "nonce"; "noncecommitment";
   "surjection_proof"; "range_proof"]%string.
Definition de_Utxo (j : Json) : option Utxo :=
  j ← open_struct Utxo_names j;
  let req {A} := @required A Utxo_names j in
  let dft {A} := @defaulted A Utxo_names j in
  txid ← req "txid" as_str; vout ← req "vout" de_u32; status ← req "status" de_TxStatus; value ← dft "value" as_u64;
  valuecommitment ← dft "valuecommitment" as_str; asset ← dft "asset" as_str; assetcommitment ← dft "assetcommitment" as_str;
  nonce ← dft "nonce" as_str; noncecommitment ← dft "noncecommitment" as_str; surjection_proof ← dft "surjection_proof" as_str;
  range_proof ← dft "range_proof" as_str;
  Some (mkUtxo txid vout status value valuecommitment asset assetcommitment nonce noncecommitment surjection_proof range_proof).

Record RecentTransaction := mkRecent { wr_txid : Text; wr_fee : Z; wr_vsize : Z; wr_value : option Z }.
Definition RecentTransaction_names : list string := ["txid"; "fee"; "vsize"; "value"]%string.
Definition de_RecentTransaction (j : Json) : option RecentTransaction :=
  j ← open_struct RecentTransaction_names j;
  let req {A} := @required A RecentTransaction_names j in
  txid ← req "txid" as_str; fee ← req "fee" as_u64; vsize ← req "vsize" de_u32;
  value ← defaulted RecentTransaction_names j "value" as_u64;
  Some (mkRecent txid fee vsize value).
Definition recent_value_text (value : option Z) (commitment : Text) : Text :=
  match value with
  | Some amount => display_usize amount
  | None => if bool_decide (commitment = []) then [] else text_of "Confidential"
  end.

Record BlockStatus := mkBlockStatus { wbs_in_best_chain : bool; wbs_height : option Z; wbs_next_best : option Text }.
Definition BlockStatus_names : list string := ["in_best_chain"; "height"; "next_best"]%string.
Definition de_BlockStatus (j : Json) : option BlockStatus :=
  j ← open_struct BlockStatus_names j;
  let opt {A} := @optional A BlockStatus_names j in
  in_best_chain ← required BlockStatus_names j "in_best_chain" as_bool; height ← opt "height" as_u64; next_best ← opt "next_best" as_str;
  Some (mkBlockStatus in_best_chain height next_best).
Record MerkleProof := mkMerkleProof { wm_block_height : Z; wm_merkle : list Text; wm_pos : Z }.
Definition MerkleProof_names : list string := ["block_height"; "merkle"; "pos"]%string.
Definition de_MerkleProof (j : Json) : option MerkleProof :=
  j ← open_struct MerkleProof_names j;
  let req {A} := @required A MerkleProof_names j in
  block_height ← req "block_height" as_u64; merkle ← req "merkle" (de_vec as_str); pos ← req "pos" as_u64;
  Some (mkMerkleProof block_height merkle pos).
Record Outspend := mkOutspend { wos_spent : bool; wos_txid : option Text; wos_vin : option Z; wos_status : option TxStatus }.
Definition Outspend_names : list string := ["spent"; "txid"; "vin"; "status"]%string.
Definition de_Outspend (j : Json) : option Outspend :=
  j ← open_struct Outspend_names j;
  let dft {A} := @defaulted A Outspend_names j in
  spent ← required Outspend_names j "spent" as_bool; txid ← dft "txid" as_str; vin ← dft "vin" de_u32;
  status ← dft "status" de_TxStatus;
  Some (mkOutspend spent txid vin status).
Record TxSummary := mkTxSummary { wsu_txid : Text; wsu_height : Z; wsu_value : Z; wsu_time : Z; wsu_tx_position : Z }.
Definition TxSummary_names : list string := ["txid"; "height"; "value"; "time"; "tx_position"]%string.
Definition de_TxSummary (j : Json) : option TxSummary :=
  j ← open_struct TxSummary_names j;
  let req {A} := @required A TxSummary_names j in
  txid ← req "txid" as_str; height ← req "height" as_u64; value ← req "value" de_i64; time ← req "time" as_u64;
  tx_position ← req "tx_position" as_u64;
  Some (mkTxSummary txid height value time tx_position).

(** *** What bitcoind says of transactions *)

Record TestTxFees := mkTestTxFees { tf_base : f64; tf_effective_feerate : f64; tf_effective_includes : list Text }.
Definition TestTxFees_names : list string := ["base"; "effective-feerate"; "effective-includes"]%string.
Definition de_TestTxFees (j : Json) : option TestTxFees :=
  j ← open_struct TestTxFees_names j;
  let req {A} := @required A TestTxFees_names j in
  base ← req "base" de_f64; effective_feerate ← req "effective-feerate" de_f64;
  effective_includes ← req "effective-includes" (de_vec as_str);
  Some (mkTestTxFees base effective_feerate effective_includes).
Record TestTxResult := mkTestTx {
  tt_txid : Text; tt_wtxid : option Text; tt_allowed : option bool; tt_vsize : option Z; tt_fees : option TestTxFees;
  tt_reject_reason : option Text }.
Definition TestTxResult_names : list string := ["txid"; "wtxid"; "allowed"; "vsize"; "fees"; "reject-reason"]%string.
Definition de_TestTxResult (j : Json) : option TestTxResult :=
  j ← open_struct TestTxResult_names j;
  let dft {A} := @defaulted A TestTxResult_names j in
  txid ← required TestTxResult_names j "txid" as_str; wtxid ← dft "wtxid" as_str; allowed ← dft "allowed" as_bool;
  vsize ← dft "vsize" de_u32; fees ← dft "fees" de_TestTxFees; reject_reason ← dft "reject-reason" as_str;
  Some (mkTestTx txid wtxid allowed vsize fees reject_reason).
