(* ===== verification/ClientParse.v ===== *)
(** * [frontend/shared/src/parse.rs]: the rows the clients show

    The parsers of the indexer's answers into texts.  [from_str] reads JSON, [data_error]
    is the message for JSON of another shape and [float_text] prints a floating-point
    number: all three are [serde_json]'s. *)

From S2P Require Import Prelude Fees Query Text Json Auth Mwck ClientWire.

Section parsers.
Context (from_str : Text -> Text + Json) (data_error : Json -> Text) (float_text : f64 -> Text).
Abbreviation read := (from_str_as from_str data_error).

(** A [ParseError] is its text. *)
Definition error {A} (detail : string) : Text + A := inl (text_of detail).
Definition yes_no (value : bool) : Text := if value then text_of "true" else text_of "false".
(** A text that is trimmed and must not be empty. *)
Definition trimmed (empty : string) (body : Text) : Text + Text :=
  let text := trim body in if bool_decide (text = []) then error empty else inr text.

(** ** Blocks *)

Record Block := mkBlock {
  pb_id : Text; pb_height : Text; pb_tx_count : Text; pb_timestamp : Text; pb_size : Text; pb_weight : Text; pb_previous_hash : Text }.
Record BlockJson := mkBlockJson {
  bj_id : Text; bj_height : Z; bj_tx_count : Z; bj_timestamp : Z; bj_size : Z; bj_weight : Z; bj_previousblockhash : option Text }.
Definition BlockJson_names : list string :=
  ["id"; "height"; "tx_count"; "timestamp"; "size"; "weight"; "previousblockhash"]%string.
Definition de_BlockJson (j : Json) : option BlockJson :=
  j ← open_struct BlockJson_names j;
  let req {A} := @required A BlockJson_names j in
  id ← req "id" as_str; height ← req "height" as_u64; tx_count ← req "tx_count" as_u64; timestamp ← req "timestamp" as_u64;
  size ← req "size" as_u64; weight ← req "weight" as_u64; previousblockhash ← optional BlockJson_names j "previousblockhash" as_str;
  Some (mkBlockJson id height tx_count timestamp size weight previousblockhash).
Definition from_json (raw : BlockJson) : Text + Block :=
  previous_hash ← or_fail (text_of "missing previousblockhash") (bj_previousblockhash raw);
  inr (mkBlock (bj_id raw) (display_usize (bj_height raw)) (display_usize (bj_tx_count raw)) (display_usize (bj_timestamp raw))
         (display_usize (bj_size raw)) (display_usize (bj_weight raw)) previous_hash).
(** [collect] into a [Result]: the first error. *)
Fixpoint collect {A B} (f : A -> Text + B) (l : list A) : Text + list B :=
  match l with [] => inr [] | a :: l => b ← f a; bs ← collect f l; inr (b :: bs) end.
Definition parse_blocks (body : Text) : Text + list Block := raw ← read (de_vec de_BlockJson) body; collect from_json raw.
Definition parse_block (body : Text) : Text + Block := raw ← read de_BlockJson body; from_json raw.
Definition parse_block_txids (body : Text) : Text + list Text := read (de_vec as_str) body.
Definition parse_block_height (body : Text) : Text + Text := trimmed "block height result was empty" body.
Definition parse_block_status (body : Text) : Text + ClientWire.BlockStatus := read de_BlockStatus body.
Definition parse_block_txid (body : Text) : Text + Text := trimmed "block txid was empty" body.
Definition parse_blocks_tip_hash (body : Text) : Text + Text := trimmed "tip hash was empty" body.
Definition parse_blocks_tip_height (body : Text) : Text + Text :=
  text ← trimmed "tip height was empty" body;
  height ← or_fail (text_of "tip height was not an integer") (parse_usize text);
  inr (display_usize height).

(** ** Transactions *)

Record StatusJson := mkStatusJson { sj_confirmed : bool; sj_block_height : option Z }.
Definition StatusJson_names : list string := ["confirmed"; "block_height"]%string.
Definition de_StatusJson (j : Json) : option StatusJson :=
  j ← open_struct StatusJson_names j;
  confirmed ← required StatusJson_names j "confirmed" as_bool; block_height ← defaulted StatusJson_names j "block_height" as_u64;
  Some (mkStatusJson confirmed block_height).
Record Tx := mkTx {
  px_txid : Text; px_confirmed : Text; px_block_height : Text; px_fee : Text; px_size : Text; px_weight : Text }.
Record TxJson := mkTxJson { tj_txid : Text; tj_fee : Z; tj_size : Z; tj_weight : Z; tj_status : StatusJson }.
Definition TxJson_names : list string := ["txid"; "fee"; "size"; "weight"; "status"]%string.
Definition de_TxJson (j : Json) : option TxJson :=
  j ← open_struct TxJson_names j;
  let req {A} := @required A TxJson_names j in
  txid ← req "txid" as_str; fee ← req "fee" as_u64; size ← req "size" as_u64; weight ← req "weight" as_u64;
  status ← req "status" de_StatusJson;
  Some (mkTxJson txid fee size weight status).
Definition block_height_text (height : option Z) : Text := default [] (display_usize <$> height).
Definition Tx_from (raw : TxJson) : Tx :=
  mkTx (tj_txid raw) (yes_no (sj_confirmed (tj_status raw))) (block_height_text (sj_block_height (tj_status raw)))
    (display_usize (tj_fee raw)) (display_usize (tj_size raw)) (display_usize (tj_weight raw)).
Definition parse_block_txs (body : Text) : Text + list Tx := raw ← read (de_vec de_TxJson) body; inr (map Tx_from raw).
Definition parse_tx (body : Text) : Text + Tx := raw ← read de_TxJson body; inr (Tx_from raw).
Definition parse_address_txs (body : Text) : Text + list Tx := parse_block_txs body.
Definition parse_tx_status (body : Text) : Text + ClientWire.TxStatus := read de_TxStatus body.
Definition parse_outspends (body : Text) : Text + list ClientWire.Outspend := read (de_vec de_Outspend) body.
Definition parse_outspend (body : Text) : Text + ClientWire.Outspend := read de_Outspend body.
Definition parse_txs_outspends (body : Text) : Text + list (list ClientWire.Outspend) := read (de_vec (de_vec de_Outspend)) body.
Definition parse_merkle_proof (body : Text) : Text + ClientWire.MerkleProof := read de_MerkleProof body.
Definition parse_tx_hex (body : Text) : Text + Text := trimmed "tx hex was empty" body.
Definition parse_broadcast (body : Text) : Text + Text := trimmed "broadcast result was empty" body.

(** ** Addresses *)

Record ScriptStatsJson := mkScriptStatsJson { ssj_tx_count : Z; ssj_funded_txo_sum : option Z }.
Definition ScriptStatsJson_names : list string := ["tx_count"; "funded_txo_sum"]%string.
Definition de_ScriptStatsJson (j : Json) : option ScriptStatsJson :=
  j ← open_struct ScriptStatsJson_names j;
  tx_count ← required ScriptStatsJson_names j "tx_count" as_u64;
  funded_txo_sum ← defaulted ScriptStatsJson_names j "funded_txo_sum" as_u64;
  Some (mkScriptStatsJson tx_count funded_txo_sum).
Record AddressStats := mkAddressStats {
  as_address : Text; as_chain_tx_count : Text; as_funded_sum : option Text; as_mempool_tx_count : Text }.
(** [AddressJson] and [ScriptHashJson], which differ in the name of their first field. *)
Definition AddressJson_names (key : string) : list string := [key; "chain_stats"; "mempool_stats"]%string.
Definition de_AddressJson (key : string) (j : Json) : option (Text * ScriptStatsJson * ScriptStatsJson) :=
  j ← open_struct (AddressJson_names key) j;
  let req {A} := @required A (AddressJson_names key) j in
  address ← req key as_str; chain_stats ← req "chain_stats" de_ScriptStatsJson; mempool_stats ← req "mempool_stats" de_ScriptStatsJson;
  Some (address, chain_stats, mempool_stats).
Definition stats_of (raw : Text * ScriptStatsJson * ScriptStatsJson) : AddressStats :=
  let '(address, chain_stats, mempool_stats) := raw in
  mkAddressStats address (display_usize (ssj_tx_count chain_stats)) (display_usize <$> ssj_funded_txo_sum chain_stats)
    (display_usize (ssj_tx_count mempool_stats)).
Definition parse_address (body : Text) : Text + AddressStats := raw ← read (de_AddressJson "address") body; inr (stats_of raw).
Definition parse_scripthash (body : Text) : Text + AddressStats := raw ← read (de_AddressJson "scripthash") body; inr (stats_of raw).
Record Utxo := mkUtxo { pu_txid : Text; pu_vout : Text; pu_value : Text; pu_confirmed : Text }.
Record UtxoJson := mkUtxoJson { uj_txid : Text; uj_vout : Z; uj_value : option Z; uj_status : StatusJson }.
Definition UtxoJson_names : list string := ["txid"; "vout"; "value"; "status"]%string.
Definition de_UtxoJson (j : Json) : option UtxoJson :=
  j ← open_struct UtxoJson_names j;
  let req {A} := @required A UtxoJson_names j in
  txid ← req "txid" as_str; vout ← req "vout" as_u64; value ← defaulted UtxoJson_names j "value" as_u64;
  status ← req "status" de_StatusJson;
  Some (mkUtxoJson txid vout value status).
Definition Utxo_from (row : UtxoJson) : Utxo :=
  mkUtxo (uj_txid row) (display_usize (uj_vout row)) (default [] (display_usize <$> uj_value row)) (yes_no (sj_confirmed (uj_status row))).
Definition parse_address_utxos (body : Text) : Text + list Utxo := raw ← read (de_vec de_UtxoJson) body; inr (map Utxo_from raw).
Definition parse_address_txs_summary (body : Text) : Text + list ClientWire.TxSummary := read (de_vec de_TxSummary) body.
Definition parse_address_prefix (body : Text) : Text + list Text := read (de_vec as_str) body.

(** ** The mempool *)

Record RecentTx := mkRecentTx { pr_txid : Text; pr_fee : Text; pr_vsize : Text; pr_value : Text }.
Record RecentJson := mkRecentJson { rj_txid : Text; rj_fee : Z; rj_vsize : Z; rj_value : option Z }.
Definition RecentJson_names : list string := ["txid"; "fee"; "vsize"; "value"]%string.
Definition de_RecentJson (j : Json) : option RecentJson :=
  j ← open_struct RecentJson_names j;
  let req {A} := @required A RecentJson_names j in
  txid ← req "txid" as_str; fee ← req "fee" as_u64; vsize ← req "vsize" as_u64; value ← defaulted RecentJson_names j "value" as_u64;
  Some (mkRecentJson txid fee vsize value).
Definition Recent_from (row : RecentJson) : RecentTx :=
  mkRecentTx (rj_txid row) (display_usize (rj_fee row)) (display_usize (rj_vsize row)) (default [] (display_usize <$> rj_value row)).
Definition parse_mempool_recent (body : Text) : Text + list RecentTx := raw ← read (de_vec de_RecentJson) body; inr (map Recent_from raw).
Definition parse_mempool_txids (body : Text) : Text + list Text := read (de_vec as_str) body.
Definition json_number_text (value : Json) (what : string) : Text + Text :=
  match value with
  | JInt n => inr (display_isize n)
  | JFloat x => inr (float_text x)
  | _ => error (what +:+ " was not a number")
  end.
Record BacklogStats := mkBacklog { pm_count : Text; pm_vsize : Text; pm_total_fee : Text; pm_fee_histogram : list (Text * Text) }.
Record BacklogJson := mkBacklogJson { lj_count : Z; lj_vsize : Z; lj_total_fee : Z; lj_fee_histogram : list (list Json) }.
Definition BacklogJson_names : list string := ["count"; "vsize"; "total_fee"; "fee_histogram"]%string.
Definition de_BacklogJson (j : Json) : option BacklogJson :=
  j ← open_struct BacklogJson_names j;
  let req {A} := @required A BacklogJson_names j in
  count ← req "count" as_u64; vsize ← req "vsize" as_u64; total_fee ← req "total_fee" as_u64;
  fee_histogram ← req "fee_histogram" (de_vec (de_vec Some));
  Some (mkBacklogJson count vsize total_fee fee_histogram).
Definition histogram_pair (bin : list Json) : Text + (Text * Text) :=
  match bin with
  | [rate; vsize] => rate ← json_number_text rate "fee rate"; vsize ← json_number_text vsize "vsize"; inr (rate, vsize)
  | _ => error "fee histogram entry was not a pair"
  end.
Definition parse_mempool (body : Text) : Text + BacklogStats :=
  raw ← read de_BacklogJson body;
  fee_histogram ← collect histogram_pair (lj_fee_histogram raw);
  inr (mkBacklog (display_usize (lj_count raw)) (display_usize (lj_vsize raw)) (display_usize (lj_total_fee raw)) fee_histogram).

(** ** The other routes of the same values *)

Definition parse_address_txs_chain (body : Text) : Text + list Tx := parse_address_txs body.
Definition parse_address_txs_mempool (body : Text) : Text + list Tx := parse_address_txs body.
Definition parse_scripthash_txs (body : Text) : Text + list Tx := parse_address_txs body.
Definition parse_scripthash_txs_chain (body : Text) : Text + list Tx := parse_address_txs body.
Definition parse_scripthash_txs_mempool (body : Text) : Text + list Tx := parse_address_txs body.
Definition parse_addresses_txs (body : Text) : Text + list Tx := parse_address_txs body.
Definition parse_scripthashes_txs (body : Text) : Text + list Tx := parse_address_txs body.
Definition parse_scripthash_utxos (body : Text) : Text + list Utxo := parse_address_utxos body.
Definition parse_scripthash_txs_summary (body : Text) : Text + list ClientWire.TxSummary := parse_address_txs_summary body.
Definition parse_addresses_txs_summary (body : Text) : Text + list ClientWire.TxSummary := parse_address_txs_summary body.
Definition parse_scripthashes_txs_summary (body : Text) : Text + list ClientWire.TxSummary := parse_address_txs_summary body.

(** ** Tests of transactions *)

Record TestTxResult := mkTestTx { pt_txid : Text; pt_allowed : Text; pt_reject_reason : Text }.
Record TestTxJson := mkTestTxJson { tx_txid : Text; tx_allowed : bool; tx_reject_reason : option Text }.
Definition TestTxJson_names : list string := ["txid"; "allowed"; "reject-reason"]%string.
Definition de_TestTxJson (j : Json) : option TestTxJson :=
  j ← open_struct TestTxJson_names j;
  txid ← required TestTxJson_names j "txid" as_str; allowed ← required TestTxJson_names j "allowed" as_bool;
  reject_reason ← optional TestTxJson_names j "reject-reason" as_str;
  Some (mkTestTxJson txid allowed reject_reason).
Definition TestTx_from (row : TestTxJson) : Text + TestTxResult :=
  reject_reason ← (match tx_allowed row, tx_reject_reason row with
                   | _, Some reason => inr reason
                   | true, None => inr []
                   | false, None => error "missing reject-reason"
                   end);
  inr (mkTestTx (tx_txid row) (yes_no (tx_allowed row)) reject_reason).
Definition parse_test_txs (body : Text) : Text + list TestTxResult := raw ← read (de_vec de_TestTxJson) body; collect TestTx_from raw.

(** ** Hexadecimal and bytes *)

Definition hex_nibble (byte : Z) : Text + Z :=
  (if (48 <=? byte) && (byte <=? 57) then inr (byte - 48)
   else if (97 <=? byte) && (byte <=? 102) then inr (byte - 97 + 10)
   else if (65 <=? byte) && (byte <=? 70) then inr (byte - 65 + 10)
   else error "hex was not hexadecimal")%Z.
(** The loop over pairs of bytes; the length is even. *)
Fixpoint decode_pairs (bytes : Bytes) : Text + Bytes :=
  match bytes with
  | high :: low :: rest =>
      high ← hex_nibble high; low ← hex_nibble low; rest ← decode_pairs rest;
      inr (Z.lor (Z.shiftl high 4) low :: rest)
  | _ => inr []
  end.
Definition decode_hex (text : Text) : Text + Bytes :=
  let bytes := utf8_encode text in
  if negb (length bytes mod 2 =? 0) then error "hex length was odd" else decode_pairs bytes.
Definition hex_text (body : Text) (empty_detail : string) : Text + Text :=
  text ← trimmed empty_detail body; _ ← decode_hex text; inr text.
Definition parse_block_header (body : Text) : Text + Text := hex_text body "block header was empty".
Definition parse_block_header_bytes (body : Text) : Text + Bytes := text ← parse_block_header body; decode_hex text.
Definition parse_block_raw (body : Bytes) : Text + Bytes := if bool_decide (body = []) then error "block raw was empty" else inr body.
Definition parse_block_raw_hex (body : Text) : Text + Text := hex_text body "block raw hex was empty".
Definition parse_tx_raw (body : Bytes) : Text + Bytes := if bool_decide (body = []) then error "tx raw was empty" else inr body.
Definition parse_tx_raw_hex (body : Text) : Text + Text := hex_text body "tx raw hex was empty".
Definition parse_merkleblock_proof (body : Text) : Text + Text := hex_text body "merkleblock proof was empty".
Definition parse_merkleblock_proof_bytes (body : Text) : Text + Bytes := text ← parse_merkleblock_proof body; decode_hex text.
End parsers.
