(* ===== verification/ClientWireFacts.v ===== *)
(** * The clients read what the indexer sends

    For the values that [client_reads_replies] lists, within the widths of their fields,
    the JSON the indexer sends is read back by the clients' structs field by field, and by
    their parsers as the rows they show.  The one exception is the first block, which has
    no previous hash.  Fee estimates, the results of testing transactions and the bodies
    that are plain text or bytes, the height of the tip apart, are not among them. *)

From S2P Require Import Prelude Bitcoin HeaderList Fees Query ChainQuery Mempool Text Json Auth Electrum RestValues ClientWire ClientParse.
From S2P Require Import RocksDB DB Rows Indexer ElectrumFacts.

(** ** Objects by name *)

Fixpoint assoc (name : string) (fields : list (string * Json)) : option Json :=
  match fields with
  | [] => None
  | (k, v) :: fields => if String.eqb k name then Some v else assoc name fields
  end.
Lemma json_get_assoc fields name : json_get (jobj fields) (text_of name) = assoc name fields.
Proof.
  induction fields as [|[k v] fields IH]; [done|]. rewrite jobj_get_cons, IH. cbn.
  destruct (String.eqb_spec k name); [by rewrite decide_True|by rewrite decide_False].
Qed.
Section fields.
Context {A : Type} (names : list string) (fields : list (string * Json)) (name : string) (dec : Json -> option A).
Lemma take_jobj : take_field names (jobj fields) name = assoc name fields.
Proof. apply json_get_assoc. Qed.
Lemma required_jobj : required names (jobj fields) name dec = assoc name fields ≫= dec.
Proof. unfold required. by rewrite take_jobj. Qed.
Lemma defaulted_jobj : defaulted names (jobj fields) name dec = match assoc name fields with None => Some None | Some v => option_of dec v end.
Proof. unfold defaulted. by rewrite take_jobj. Qed.
Lemma optional_jobj : optional names (jobj fields) name dec = match assoc name fields with None => Some None | Some v => option_of dec v end.
Proof. unfold optional. by rewrite take_jobj. Qed.
End fields.

(** ** Leaves *)

Create Rewrite HintDb json_fields.
#[local] Hint Rewrite @required_jobj @defaulted_jobj @optional_jobj : json_fields.

Section readers.
Context {BL : BitcoinLib} {EL : ElectrumLib}.

(** ** Status *)


(** ** Transactions *)


(** ** Blocks *)

(** The row of a block, which needs the hash of the previous one. *)
Definition block_row (v : BlockValue) : Text + ClientParse.Block :=
  match bv_previousblockhash v with
  | Some previous => inr (ClientParse.mkBlock (bv_id v) (display_usize (bv_height v)) (display_usize (bv_tx_count v))
      (display_usize (bv_timestamp v)) (display_usize (bv_size v)) (display_usize (bv_weight v)) previous)
  | None => inl (text_of "missing previousblockhash")
  end.

(** ** Outputs and spends *)


(** ** Statistics *)


(** ** The place of a block and of a transaction in it, the mempool *)


(** ** Bodies *)

(** The first block has no row. *)
Lemma first_block_refused blockhm : prev_blockhash (he_header (bhm_header_entry blockhm)) = null_hash ->
  block_row (BlockValue_new blockhm) = inl (text_of "missing previousblockhash").
Proof. intros Hp. unfold block_row, BlockValue_new. cbn [bv_previousblockhash]. by rewrite decide_True. Qed.

Section bodies.
Context (from_str : Text -> Text + Json) (data_error : Json -> Text) (float_text : f64 -> Text).
Abbreviation read := (from_str_as from_str data_error).

(** *** One kind of body at a time *)

Section kinds.
Context (body : Text).
End kinds.

End bodies.
End readers.

(** ** Witness *)

