(* ===== verification/Registry.v ===== *)
(** * [elements/registry.rs]: the asset registry of a Liquid build

    The registry keeps the metadata of assets as it was last read from a directory, lists
    it in pages and searches it by ticker, name and domain.  The order of asset ids and
    lowering the case of a text are those of their libraries; the map is iterated in an
    order of its own ([hash_order]); the directory is what reading it gives. *)

From S2P Require Import Prelude Text Json Auth Rest RestValues.

Definition DIR_PARTITION_LEN : Z := 2.
Definition SEARCH_SORT_CANDIDATE_LIMIT : nat := 2000.
Abbreviation AssetId := FullHash.
Record AssetMeta := mkAssetMeta {
  am_contract : Json; am_entity : Json; am_precision : Z; am_name : Text; am_ticker : option Text }.
Definition domain (m : AssetMeta) : option Text := json_get (am_entity m) (text_of "domain") ≫= as_str.
(** The cache, with the time each file was modified. *)
Record AssetRegistry := mkRegistry { assets_cache : gmap AssetId (Z * AssetMeta) }.
Abbreviation AssetEntry := (AssetId * AssetMeta)%type.

Class RegistryLib := {
  asset_cmp : AssetId -> AssetId -> comparison;
  lowercase : Text -> Text;
  asset_id_from_str : Text -> option AssetId;
  (** [serde_json::from_str::<AssetMeta>] *)
  meta_from_str : Text -> option AssetMeta }.

(** ** Comparing *)

Definition then_with (a b : comparison) : comparison := match a with Eq => b | _ => a end.
Definition str_cmp (a b : Text) : comparison := bcmp (utf8_encode a) (utf8_encode b).
Definition opt_cmp {A} (cmp : A -> A -> comparison) (a b : option A) : comparison :=
  match a, b with None, None => Eq | None, Some _ => Lt | Some _, None => Gt | Some a, Some b => cmp a b end.
(** [sort_by]: stable. *)
Fixpoint insert_by {A} (cmp : A -> A -> comparison) (x : A) (l : list A) : list A :=
  match l with
  | [] => [x]
  | y :: l' => match cmp x y with Gt => y :: insert_by cmp x l' | _ => x :: l end
  end.
Definition sort_by {A} (cmp : A -> A -> comparison) (l : list A) : list A := foldr (insert_by cmp) [] l.

(** [ascii_ci_find]: the first window that is the needle but for the case of its letters. *)
Fixpoint window_position (needle haystack : Bytes) (i : nat) : option nat :=
  if bool_decide (to_ascii_lowercase (take (length needle) haystack) = to_ascii_lowercase needle) then Some i
  else match haystack with [] => None | _ :: rest => window_position needle rest (S i) end.
Definition ascii_ci_find (haystack needle : Text) : option nat :=
  let '(haystack, needle) := (utf8_encode haystack, utf8_encode needle) in
  if bool_decide (needle = []) then Some 0 else window_position needle haystack 0.
Definition ascii_ci_cmp (a b : Text) : comparison :=
  bcmp (to_ascii_lowercase (utf8_encode a)) (to_ascii_lowercase (utf8_encode b)).

(** ** Sorting *)

Inductive AssetSortField := Name | Domain | Ticker.
Inductive AssetSortDir := Descending | Ascending.
Record AssetSorting := mkSorting { as_field : AssetSortField; as_dir : AssetSortDir }.
Definition from_query_params (query : list (Text * Text)) : result AssetSorting :=
  field ← (match query_param query "sort_field" with
           | None => Ok Ticker
           | Some t => if bool_decide (t = text_of "name") then Ok Name
                       else if bool_decide (t = text_of "domain") then Ok Domain
                       else if bool_decide (t = text_of "ticker") then Ok Ticker
                       else Err (Msg "invalid sort field")
           end);
  dir ← (match query_param query "sort_dir" with
         | None => Ok Ascending
         | Some t => if bool_decide (t = text_of "asc") then Ok Ascending
                     else if bool_decide (t = text_of "desc") then Ok Descending
                     else Err (Msg "invalid sort direction")
         end);
  Ok (mkSorting field dir).

(** A match: where the query was found, the field and the entry. *)
Abbreviation Match := (nat * Text * AssetEntry)%type.

Section registry.
Context {L : RegistryLib} (hash_order : gmap AssetId (Z * AssetMeta) -> list (AssetId * (Z * AssetMeta))).

Definition lc_cmp (a b : Text) : comparison := str_cmp (lowercase a) (lowercase b).
Definition lc_cmp_opt (a b : option Text) : comparison := opt_cmp str_cmp (lowercase <$> a) (lowercase <$> b).
Definition as_comparator (sorting : AssetSorting) (a b : AssetEntry) : comparison :=
  let order := match as_field sorting with
               | Name => then_with (lc_cmp (am_name a.2) (am_name b.2)) (asset_cmp a.1 b.1)
               | Domain => opt_cmp str_cmp (domain a.2) (domain b.2)
               | Ticker => lc_cmp_opt (am_ticker a.2) (am_ticker b.2)
               end in
  match as_dir sorting with Ascending => order | Descending => CompOpp order end.

(** ** Reading the registry *)

Definition entries (r : AssetRegistry) : list AssetEntry := map (fun e : AssetId * (Z * AssetMeta) => (e.1, e.2.2)) (hash_order (assets_cache r)).
Definition registry_get (r : AssetRegistry) (asset_id : AssetId) : option AssetMeta := snd <$> assets_cache r !! asset_id.
Definition registry_list (r : AssetRegistry) (start_index limit : nat) (sorting : AssetSorting) : nat * list AssetEntry :=
  let assets := sort_by (as_comparator sorting) (entries r) in
  (length assets, take limit (drop start_index assets)).

Definition match_cmp (a b : Match) : comparison :=
  then_with (Nat.compare a.1.1 b.1.1) (then_with (ascii_ci_cmp a.1.2 b.1.2) (asset_cmp a.2.1 b.2.1)).
Definition find_match (query : Text) (field : AssetMeta -> option Text) (e : AssetEntry) : option Match :=
  f ← field e.2; position ← ascii_ci_find f query; Some (position, f, e).
(** A match beyond the limit of candidates is neither kept nor left to the other fields. *)
Definition search_step (query : Text) (field : AssetMeta -> option Text) (acc : list Match * list AssetEntry) (e : AssetEntry)
    : list Match * list AssetEntry :=
  match find_match query field e with
  | Some m => if SEARCH_SORT_CANDIDATE_LIMIT <=? length acc.1 then acc else (acc.1 ++ [m], acc.2)
  | None => (acc.1, acc.2 ++ [e])
  end.
Definition search_by (candidates : list AssetEntry) (query : Text) (limit : nat) (field : AssetMeta -> option Text)
    : list AssetEntry * list AssetEntry :=
  let '(matches, remaining) := fold_left (search_step query field) candidates ([], []) in
  (map snd (take limit (sort_by match_cmp matches)), remaining).
Definition search (r : AssetRegistry) (query : Text) (limit : nat) : list AssetEntry :=
  let query := trim query in
  if bool_decide (query = []) || (limit =? 0) then []
  else
    let '(results, candidates) := search_by (entries r) query limit am_ticker in
    let results :=
      if length results <? limit then
        let '(name_matches, candidates) := search_by candidates query (limit - length results) (fun m => Some (am_name m)) in
        let results := results ++ name_matches in
        if length results <? limit then results ++ (search_by candidates query (limit - length results) domain).1
        else results
      else results in
    take limit results.

(** ** Following the directory *)

(** A file of a directory: its extension, its stem as text, when it was modified and its
    contents, where they can be read. *)
Record RegistryFile := mkFile { rf_extension : option Text; rf_stem : option Text; rf_modified : option Z; rf_text : option Text }.
Record RegistryDir := mkDir { rd_is_dir : option bool; rd_name_len : Z; rd_files : option (list (option RegistryFile)) }.
Definition or_err {A} (o : option A) (msg : string) : SR AssetRegistry A :=
  lift (match o with Some a => Ok a | None => Err (Msg msg) end).
Definition sync_file (file : option RegistryFile) : SR AssetRegistry unit :=
  file ← or_err file "invalid fh";
  if negb (bool_decide (rf_extension file = Some (text_of "json"))) then mret tt
  else
    stem ← or_err (rf_stem file) "invalid filename";
    asset_id ← or_err (asset_id_from_str stem) "invalid filename";
    modified ← or_err (rf_modified file) "failed reading metadata";
    cached ← gets (fun r => fst <$> assets_cache r !! asset_id);
    if bool_decide (cached = Some modified) then mret tt
    else
      text ← or_err (rf_text file) "failed reading file";
      metadata ← or_err (meta_from_str text) "failed parsing file";
      modify (fun r => mkRegistry (<[asset_id := (modified, metadata)]> (assets_cache r))).
Definition sync_dir (entry : option RegistryDir) : SR AssetRegistry unit :=
  entry ← or_err entry "invalid fh";
  is_dir ← or_err (rd_is_dir entry) "failed getting file type";
  if negb is_dir || negb (rd_name_len entry =? DIR_PARTITION_LEN)%Z then mret tt
  else files ← or_err (rd_files entry) "failed reading asset subdir"; sr_iter sync_file files.
Definition fs_sync (directory : option (list (option RegistryDir))) : SR AssetRegistry unit :=
  listing ← or_err directory "failed reading asset dir"; sr_iter sync_dir listing.

(** ** The requests of [query.rs] and [rest.rs] *)

Definition lookup_registry_asset (asset_db : option AssetRegistry) (asset_id : AssetId) : result (option AssetMeta) :=
  match asset_db with Some db => Ok (registry_get db asset_id) | None => Err (Msg "asset registry unavailable") end.
Definition search_registry_assets {T} (asset_db : option AssetRegistry) (q : Text) (limit : nat) (f : AssetId -> AssetMeta -> T) : result (list T) :=
  match asset_db with
  | Some db => Ok (map (fun e : AssetEntry => f e.1 e.2) (search db q limit))
  | None => Err (Msg "asset registry unavailable")
  end.
Record AssetRegistrySearchResult := mkSearchResult {
  sr_asset_id : AssetId; sr_name : Text; sr_ticker : option Text; sr_domain : option Text }.
Definition AssetRegistrySearchResult_new (asset_id : AssetId) (meta : AssetMeta) : AssetRegistrySearchResult :=
  mkSearchResult asset_id (am_name meta) (am_ticker meta) (domain meta).
Definition ASSETS_SEARCH_DEFAULT_LIMIT : Z := 15.
Definition ASSETS_SEARCH_MAX_LIMIT : Z := 100.
Definition ASSETS_SEARCH_MAX_QUERY_LEN : nat := 64.
(** The assets of an answer; its headers are [no-store] and JSON. *)
Definition assets_search (asset_db : option AssetRegistry) (query_params : list (Text * Text)) : HttpError + list AssetRegistrySearchResult :=
  let q := default [] (trim <$> query_param query_params "q") in
  if bool_decide (q = []) then inr []
  else if ASSETS_SEARCH_MAX_QUERY_LEN <? length q then inl (mkHttpError BAD_REQUEST (text_of "search query too long"))
  else
    let limit := Z.min (default ASSETS_SEARCH_DEFAULT_LIMIT (query_param query_params "limit" ≫= parse_usize)) ASSETS_SEARCH_MAX_LIMIT in
    match search_registry_assets asset_db q (Z.to_nat limit) AssetRegistrySearchResult_new with
    | Ok assets => inr assets
    | Err (Msg m) => inl (mkHttpError SERVICE_UNAVAILABLE (text_of m))
    | _ => inl (mkHttpError SERVICE_UNAVAILABLE [])
    end.
End registry.
