(* ===== verification/RegistryFacts.v ===== *)
(** * What the asset registry answers

    Comparisons are total orders, so that sorting has one result; a search gives the
    matches by ticker, then those by name, then those by domain, each ranked, whatever the
    order in which the map is iterated ([registry_search_ranked]); the default listing is
    not so determined ([ticker_ties_unordered]). *)

From S2P Require Import Prelude Bitcoin Text Json Auth Registry.

(** ** Orders *)

(** A comparison that is a total preorder. *)
Class OrdCmp {A} (cmp : A -> A -> comparison) : Prop := {
  cmp_flip x y : cmp y x = CompOpp (cmp x y);
  cmp_trans x y z : cmp x y <> Gt -> cmp y z <> Gt -> cmp x z <> Gt }.
Lemma cmp_eq_sym {A} cmp `{!@OrdCmp A cmp} x y : cmp x y = Eq -> cmp y x = Eq.
Proof. intros E. by rewrite cmp_flip, E. Qed.
Lemma cmp_gt_le {A} cmp `{!@OrdCmp A cmp} x y : cmp x y = Gt -> cmp y x <> Gt.
Proof. intros E. by rewrite cmp_flip, E. Qed.
(** A step up inside a cycle is no step. *)
Lemma cmp_squeeze {A} cmp `{!@OrdCmp A cmp} x y z : cmp x y <> Gt -> cmp y z <> Gt -> cmp x z = Eq -> cmp x y = Eq /\ cmp y z = Eq.
Proof.
  intros Hxy Hyz Hxz. pose proof (cmp_eq_sym cmp x z Hxz) as Hzx.
  assert (cmp y x <> Gt) as Hyx by (apply (cmp_trans y z x); [done|by rewrite Hzx]).
  assert (cmp z y <> Gt) as Hzy by (apply (cmp_trans z x y); [by rewrite Hzx|done]).
  rewrite cmp_flip in Hyx, Hzy. destruct (cmp x y), (cmp y z); done.
Qed.
#[export] Instance nat_compare_ord : OrdCmp Nat.compare.
Proof. split; intros; [apply Nat.compare_antisym|]. rewrite Nat.compare_ngt_iff in *. lia. Qed.
#[export] Instance then_with_ord {A} (c1 c2 : A -> A -> comparison) : OrdCmp c1 -> OrdCmp c2 -> OrdCmp (fun x y => then_with (c1 x y) (c2 x y)).
Proof.
  intros H1 H2. split.
  - intros x y. rewrite (cmp_flip (cmp := c1) x y), (cmp_flip (cmp := c2) x y). by destruct (c1 x y).
  - intros x y z Hxy Hyz. assert (c1 x y <> Gt) as A1 by (by destruct (c1 x y)). assert (c1 y z <> Gt) as A2 by (by destruct (c1 y z)).
    pose proof (cmp_trans (cmp := c1) x y z A1 A2) as A3. destruct (c1 x z) eqn:E; cbn; [|done|done].
    destruct (cmp_squeeze c1 x y z A1 A2 E) as [E1 E2]. rewrite E1 in Hxy. rewrite E2 in Hyz. cbn in *. by apply (cmp_trans (cmp := c2) x y z).
Qed.
Lemma on_ord {A B} (f : B -> A) (c : A -> A -> comparison) : OrdCmp c -> OrdCmp (fun x y => c (f x) (f y)).
Proof. intros H. split; intros; [apply cmp_flip|by eapply cmp_trans]. Qed.
#[export] Instance bcmp_ord : OrdCmp bcmp.
Proof.
  split; [intros; apply bcmp_antisym|]. intros x y z. fold (bytes_le x y) (bytes_le y z) (bytes_le x z). rewrite !bytes_le_lteq.
  intros [H1| ->] [H2| ->]; [left; by etrans|auto..].
Qed.

(** ** Sorting *)

Definition cmp_le {A} (cmp : A -> A -> comparison) (x y : A) : Prop := cmp x y <> Gt.
Lemma insert_by_perm {A} cmp (x : A) l : insert_by cmp x l ≡ₚ x :: l.
Proof. induction l as [|y l IH]; [done|]. cbn. destruct (cmp x y); [done..|]. rewrite IH. apply Permutation_swap. Qed.
Lemma sort_by_perm {A} cmp (l : list A) : sort_by cmp l ≡ₚ l.
Proof. induction l as [|x l IH]; [done|]. cbn. by rewrite insert_by_perm, IH. Qed.
Lemma insert_by_sorted {A} cmp `{!@OrdCmp A cmp} x l : StronglySorted (cmp_le cmp) l -> StronglySorted (cmp_le cmp) (insert_by cmp x l).
Proof.
  induction 1 as [|y l Hl IH Hy]; cbn; [repeat constructor|]. destruct (cmp x y) eqn:E.
  1, 2: constructor; [by constructor|]; constructor; [unfold cmp_le; by rewrite E|]; eapply Forall_impl; [exact Hy|];
    intros z Hz; apply (cmp_trans (cmp := cmp) x y z); [by rewrite E|done].
  constructor; [done|]. rewrite insert_by_perm. constructor; [by apply cmp_gt_le|done].
Qed.
Lemma sort_by_sorted {A} cmp `{!@OrdCmp A cmp} (l : list A) : StronglySorted (cmp_le cmp) (sort_by cmp l).
Proof. induction l as [|x l IH]; cbn; [constructor|by apply insert_by_sorted]. Qed.
(** Sorting forgets the order of what it is given when equal elements are the same. *)
Lemma sort_by_unique {A} cmp `{!@OrdCmp A cmp} (l l' : list A) :
  (forall x y, x ∈ l -> y ∈ l -> cmp x y = Eq -> x = y) -> l ≡ₚ l' -> sort_by cmp l = sort_by cmp l'.
Proof.
  intros Heq Hp. apply (StronglySorted_unique_strong (cmp_le cmp)); [|apply sort_by_sorted; done..|by rewrite !sort_by_perm].
  intros x y Hx Hy Hxy Hyx. rewrite sort_by_perm in Hx. rewrite sort_by_perm, <- Hp in Hy. apply Heq; [done..|].
  unfold cmp_le in *. rewrite cmp_flip in Hyx. by destruct (cmp x y).
Qed.

(** ** Finding *)

Lemma window_position_spec needle h i : match window_position needle h i with
  | Some k => i <= k /\ to_ascii_lowercase (take (length needle) (drop (k - i) h)) = to_ascii_lowercase needle /\
      (forall j, i <= j < k -> to_ascii_lowercase (take (length needle) (drop (j - i) h)) <> to_ascii_lowercase needle)
  | None => forall j, to_ascii_lowercase (take (length needle) (drop j h)) <> to_ascii_lowercase needle
  end.
Proof.
  revert i. induction h as [|x h IH]; intros i; cbn; case_bool_decide as E.
  1, 3: rewrite Nat.sub_diag; split_and!; [lia|done|lia].
  - intros j. by rewrite drop_nil.
  - specialize (IH (S i)). destruct (window_position needle h (S i)) as [k|].
    + destruct IH as (Hk & Hm & Hf). split_and!; [lia|by replace (k - i) with (S (k - S i)) by lia|].
      intros j Hj. destruct (decide (j = i)) as [->|]; [by rewrite Nat.sub_diag|]. replace (j - i) with (S (j - S i)) by lia. apply Hf. lia.
    + intros [|j]; [done|]. apply IH.
Qed.
(** The offset of a match is that of the first place where the query occurs, letters
    being compared without regard to case; without one there is no such place. *)
Definition occurs_at (haystack needle : Text) (i : nat) : Prop :=
  to_ascii_lowercase (take (length (utf8_encode needle)) (drop i (utf8_encode haystack))) = to_ascii_lowercase (utf8_encode needle).
Lemma ascii_ci_find_spec h needle : match ascii_ci_find h needle with
  | Some k => occurs_at h needle k /\ (forall j, j < k -> ~ occurs_at h needle j)
  | None => forall j, ~ occurs_at h needle j
  end.
Proof.
  unfold ascii_ci_find, occurs_at. case_bool_decide as E; [rewrite E; cbn; split; [done|lia]|].
  pose proof (window_position_spec (utf8_encode needle) (utf8_encode h) 0) as Hs. destruct (window_position _ _ _) as [k|]; [|done].
  rewrite Nat.sub_0_r in Hs. destruct Hs as (_ & Hm & Hf). split; [done|]. intros j Hj. specialize (Hf j). rewrite Nat.sub_0_r in Hf. apply Hf. lia.
Qed.

(** ** Searching *)

Definition missed (q : Text) (field : AssetMeta -> option Text) (l : list AssetEntry) : list AssetEntry :=
  filter (fun e => find_match q field e = None) l.
Lemma search_fold q field l acc : length acc.1 + length l <= SEARCH_SORT_CANDIDATE_LIMIT ->
  fold_left (search_step q field) l acc = (acc.1 ++ omap (find_match q field) l, acc.2 ++ missed q field l).
Proof.
  revert acc. induction l as [|e l IH]; intros [ms rs] Hlen; cbn [fold_left]; [cbn; by rewrite !app_nil_r|].
  cbn [length fst snd] in *. unfold search_step, missed in *. cbn [omap list_omap]. rewrite filter_cons. cbn [fst snd].
  destruct (find_match q field e) as [m|].
  - rewrite (proj2 (Nat.leb_gt _ _)), decide_False by (done || lia). rewrite IH by (cbn; rewrite length_app; cbn; lia). cbn. by rewrite <- app_assoc.
  - rewrite decide_True, IH by (done || (cbn; lia)). cbn. by rewrite <- app_assoc.
Qed.

Section ranking.
Context {L : RegistryLib} {Ho : OrdCmp asset_cmp} (Hid : forall x y, asset_cmp x y = Eq -> x = y).

#[local] Instance match_cmp_ord : OrdCmp match_cmp.
Proof.
  apply (then_with_ord (fun a b : Match => Nat.compare a.1.1 b.1.1)); [apply (on_ord (fun a : Match => a.1.1)), _|].
  apply (then_with_ord (fun a b : Match => ascii_ci_cmp a.1.2 b.1.2)); [|apply (on_ord (fun a : Match => a.2.1)), _].
  apply (on_ord (fun a : Match => to_ascii_lowercase (utf8_encode a.1.2))), _.
Qed.
Definition ranked (q : Text) (field : AssetMeta -> option Text) (l : list AssetEntry) : list AssetEntry :=
  map snd (sort_by match_cmp (omap (find_match q field) l)).
Lemma search_by_ranked l q limit field : length l <= SEARCH_SORT_CANDIDATE_LIMIT ->
  search_by l q limit field = (take limit (ranked q field l), missed q field l).
Proof. intros Hl. unfold search_by. rewrite search_fold by done. cbn. unfold ranked. by rewrite firstn_map. Qed.
Lemma missed_short q field l : length (missed q field l) <= length l.
Proof. apply length_filter. Qed.
Lemma missed_elem q field l e : e ∈ missed q field l <-> e ∈ l /\ find_match q field e = None.
Proof. unfold missed. rewrite list_elem_of_filter. tauto. Qed.
Lemma missed_perm q field l l' : l ≡ₚ l' -> missed q field l ≡ₚ missed q field l'.
Proof. intros H. unfold missed. by rewrite H. Qed.
Lemma find_match_snd q field e m : find_match q field e = Some m -> m.2 = e.
Proof. unfold find_match. intros H. by simplify_option_eq. Qed.
(** An id names one entry. *)
Definition one_entry (l : list AssetEntry) : Prop := forall e e', e ∈ l -> e' ∈ l -> e.1 = e'.1 -> e = e'.
Lemma one_entry_missed q field l : one_entry l -> one_entry (missed q field l).
Proof. intros H e e' [He _]%missed_elem [He' _]%missed_elem. by apply H. Qed.
Lemma match_cmp_id m m' : match_cmp m m' = Eq -> m.2.1 = m'.2.1.
Proof. unfold match_cmp. destruct (m.1.1 ?= m'.1.1), (ascii_ci_cmp m.1.2 m'.1.2); cbn; try done. apply Hid. Qed.
Lemma ranked_perm q field l l' : one_entry l -> l ≡ₚ l' -> ranked q field l = ranked q field l'.
Proof.
  intros H1 Hp. unfold ranked. f_equal. apply (sort_by_unique match_cmp); [|by apply omap_Permutation]. intros m m' Hm Hm' E%match_cmp_id.
  apply list_elem_of_omap in Hm as (e & He & Hm). apply list_elem_of_omap in Hm' as (e' & He' & Hm').
  pose proof (find_match_snd _ _ _ _ Hm) as Em. pose proof (find_match_snd _ _ _ _ Hm') as Em'.
  rewrite Em, Em' in E. rewrite (H1 e e' He He' E) in Hm. congruence.
Qed.

(** What a search finds: in the order of rank, the matches by ticker, those by name of
    the entries that no ticker matched, and those by domain of the rest. *)
Definition found_list (q : Text) (l : list AssetEntry) : list AssetEntry :=
  ranked q am_ticker l ++ ranked q (fun m => Some (am_name m)) (missed q am_ticker l) ++
  ranked q domain (missed q (fun m => Some (am_name m)) (missed q am_ticker l)).
Lemma search_takes h r q limit : length (entries h r) <= SEARCH_SORT_CANDIDATE_LIMIT -> trim q <> [] ->
  search h r q limit = take limit (found_list (trim q) (entries h r)).
Proof.
  intros Hl Hq. unfold search. rewrite bool_decide_false by done. cbn [orb]. destruct (Nat.eqb_spec limit 0) as [->|Hn]; [done|].
  pose proof (missed_short (trim q) am_ticker (entries h r)). pose proof (missed_short (trim q) (fun m => Some (am_name m)) (missed (trim q) am_ticker (entries h r))).
  rewrite !search_by_ranked by lia. unfold found_list. cbn [fst]. generalize (ranked (trim q) am_ticker (entries h r)) as a.
  generalize (ranked (trim q) (fun m => Some (am_name m)) (missed (trim q) am_ticker (entries h r))) as b.
  generalize (ranked (trim q) domain (missed (trim q) (fun m => Some (am_name m)) (missed (trim q) am_ticker (entries h r)))) as c.
  intros c b a. rewrite !length_app, !length_take. repeat case_match; rewrite ?Nat.ltb_lt, ?Nat.ltb_ge in *.
  - rewrite !(take_ge a), !(take_ge b), <- app_assoc, !take_app, take_take by lia. do 3 f_equal. lia.
  - rewrite !(take_ge a), !take_app, take_take by lia. replace (limit - length a - length b) with 0 by lia.
    rewrite take_0, app_nil_r, (take_ge a) by lia. do 2 f_equal. lia.
  - rewrite take_app, take_take, Nat.min_id. by replace (limit - length a) with 0 by lia; rewrite app_nil_r.
Qed.
End ranking.

(** ** What is found *)

(** The text of the match is its entry's, and its offset that of the first occurrence. *)
Definition found (q : Text) (field : AssetMeta -> option Text) (m : Match) : Prop :=
  field m.2.2 = Some m.1.2 /\ occurs_at m.1.2 q m.1.1 /\ (forall j, j < m.1.1 -> ~ occurs_at m.1.2 q j).
Definition unfound (q : Text) (field : AssetMeta -> option Text) (e : AssetEntry) : Prop :=
  forall f j, field e.2 = Some f -> ~ occurs_at f q j.
#[local] Arguments ascii_ci_find : simpl never.
Lemma NoDup_omap {A B} (f : A -> option B) l : (forall x y z, f x = Some z -> f y = Some z -> x = y) -> NoDup l -> NoDup (omap f l).
Proof.
  intros Hf. induction 1 as [|x l Hx Hl IH]; cbn; [constructor|]. destruct (f x) as [z|] eqn:E; [|done]. constructor; [|done].
  intros (y & Hy & Ey)%list_elem_of_omap. by rewrite (Hf x y z E Ey) in Hx.
Qed.
Lemma find_match_found q field e m : find_match q field e = Some m <-> m.2 = e /\ found q field m.
Proof.
  unfold find_match, found. destruct m as [[k f] e']. cbn. split.
  - intros Hf. destruct (field e.2) as [f'|] eqn:Ef; [|done]. cbn [mbind option_bind] in Hf. pose proof (ascii_ci_find_spec f' q) as Hs.
    destruct (ascii_ci_find f' q); cbn in Hf; [|done]. by simplify_eq.
  - intros (-> & Hf & Ho & Hm). rewrite Hf. cbn [mbind option_bind]. pose proof (ascii_ci_find_spec f q) as Hs. destruct (ascii_ci_find f q) as [i|]; [|by destruct (Hs k)].
    cbn. destruct Hs as [Hi Hlt]. assert (i = k) as ->; [|done]. destruct (lt_eq_lt_dec i k) as [[?|?]|?]; [by destruct (Hm i)|done|by destruct (Hlt k)].
Qed.
Lemma find_match_unfound q field e : find_match q field e = None <-> unfound q field e.
Proof.
  unfold find_match, unfound. destruct (field e.2) as [f|]; cbn [mbind option_bind]; [|by split].
  pose proof (ascii_ci_find_spec f q) as Hs. destruct (ascii_ci_find f q) as [i|]; cbn.
  - split; [done|]. intros H. by destruct (H f i eq_refl (proj1 Hs)).
  - split; [|done]. intros _ f' j [= <-]. apply Hs.
Qed.
Definition registered (r : AssetRegistry) (e : AssetEntry) : Prop := registry_get r e.1 = Some e.2.
(** The matches among the entries that satisfy [P], in the order of rank. *)
Definition Ranks {L : RegistryLib} (q : Text) (field : AssetMeta -> option Text) (P : AssetEntry -> Prop) (ms : list Match) : Prop :=
  StronglySorted (cmp_le match_cmp) ms /\ NoDup ms /\ (forall m, m ∈ ms <-> P m.2 /\ found q field m).

Section answers.
Context {L : RegistryLib} {Ho : OrdCmp asset_cmp} (Hid : forall x y, asset_cmp x y = Eq -> x = y).
Context (h : gmap AssetId (Z * AssetMeta) -> list (AssetId * (Z * AssetMeta))) (r : AssetRegistry).
Context (Hh : h (assets_cache r) ≡ₚ map_to_list (assets_cache r)).

Lemma entries_perm : entries h r ≡ₚ entries map_to_list r.
Proof using Hh. unfold entries. by rewrite Hh. Qed.
Lemma entries_registered e : e ∈ entries h r <-> registered r e.
Proof using Hh.
  rewrite entries_perm. unfold entries, registered, registry_get. rewrite list_elem_of_fmap. destruct e as [a m]. cbn. split.
  - intros ([a' [t m']] & [= -> ->] & Hin%elem_of_map_to_list). by rewrite Hin.
  - intros H. destruct (assets_cache r !! a) as [[t m']|] eqn:E; simplify_eq/=. exists (a, (t, m)). by rewrite elem_of_map_to_list.
Qed.
Lemma entries_one : one_entry (entries h r).
Proof using Hh. intros [a m] [a' m'] He He' E. apply entries_registered in He, He'. unfold registered in *. cbn in *. by simplify_eq. Qed.
Lemma entries_nodup : NoDup (entries h r).
Proof using Hh.
  rewrite entries_perm. apply (NoDup_fmap_1 fst). unfold entries. rewrite <- list_fmap_compose. apply (NoDup_fst_map_to_list (assets_cache r)).
Qed.
Lemma ranked_ranks q field l P : NoDup l -> (forall e, e ∈ l <-> P e) ->
  exists ms, ranked q field l = map snd ms /\ Ranks q field P ms.
Proof using Ho.
  intros Hnd HP. exists (sort_by match_cmp (omap (find_match q field) l)). split; [done|]. split_and!.
  - apply sort_by_sorted, match_cmp_ord.
  - rewrite sort_by_perm. apply NoDup_omap; [|done]. intros x y z Hx%find_match_found Hy%find_match_found. destruct Hx, Hy. congruence.
  - intros m. rewrite sort_by_perm, list_elem_of_omap. setoid_rewrite HP. setoid_rewrite find_match_found. naive_solver.
Qed.
End answers.

Lemma missed_registered q field l P : (forall e, e ∈ l <-> P e) -> forall e, e ∈ missed q field l <-> P e /\ unfound q field e.
Proof. intros HP e. by rewrite missed_elem, HP, find_match_unfound. Qed.
Lemma missed_nodup q field l : NoDup l -> NoDup (missed q field l).
Proof. apply NoDup_filter. Qed.
Lemma entries_short h r : h (assets_cache r) ≡ₚ map_to_list (assets_cache r) -> length (entries h r) = size (assets_cache r).
Proof. intros H. unfold entries. by rewrite length_map, H, length_map_to_list. Qed.

(** C34: A search of a registry of at most 2,000 assets gives, up to its limit, the assets
    whose ticker contains the query, then those of the others whose name does, then those
    of the rest whose domain does: each group holds just its matches, once, ordered by the
    offset of the first occurrence, then the text without regard to case, then the asset
    id.  So the answer does not depend on the order in which the hash map is iterated. *)
Theorem registry_search_ranked `{L : RegistryLib} (Ho : OrdCmp asset_cmp) (Hid : forall x y, asset_cmp x y = Eq -> x = y) r q limit :
  size (assets_cache r) <= SEARCH_SORT_CANDIDATE_LIMIT -> trim q <> [] ->
  exists by_ticker by_name by_domain : list Match,
    let name m := Some (am_name m) in
    Ranks (trim q) am_ticker (registered r) by_ticker /\
    Ranks (trim q) name (fun e => registered r e /\ unfound (trim q) am_ticker e) by_name /\
    Ranks (trim q) domain (fun e => (registered r e /\ unfound (trim q) am_ticker e) /\ unfound (trim q) name e) by_domain /\
    forall h, h (assets_cache r) ≡ₚ map_to_list (assets_cache r) ->
      search h r q limit = take limit (map snd (by_ticker ++ by_name ++ by_domain)).
Proof.
  intros Hs Hq. pose proof (entries_registered map_to_list r (reflexivity _)) as H0. pose proof (entries_nodup map_to_list r (reflexivity _)) as N0.
  pose proof (missed_registered (trim q) am_ticker _ _ H0) as H1. pose proof (missed_nodup (trim q) am_ticker _ N0) as N1.
  pose proof (missed_registered (trim q) (fun m => Some (am_name m)) _ _ H1) as H2. pose proof (missed_nodup (trim q) (fun m => Some (am_name m)) _ N1) as N2.
  destruct (ranked_ranks (trim q) am_ticker _ _ N0 H0) as (t & Et & Ht).
  destruct (ranked_ranks (trim q) (fun m => Some (am_name m)) _ _ N1 H1) as (n & En & Hn).
  destruct (ranked_ranks (trim q) domain _ _ N2 H2) as (d & Ed & Hd). exists t, n, d. split_and!; [done..|]. intros h Hh.
  pose proof (entries_perm h r Hh) as Hp. pose proof (entries_one h r Hh) as O0.
  rewrite search_takes by (done || by rewrite entries_short). unfold found_list. rewrite !map_app, <- Et, <- En, <- Ed. do 2 f_equal.
  - by apply (ranked_perm Hid).
  - f_equal; apply (ranked_perm Hid); repeat first [apply one_entry_missed | apply missed_perm | done].
Qed.

(** ** Three assets *)

Definition sample_lib : RegistryLib := {|
  asset_cmp a b := bcmp (as_bytes a) (as_bytes b); lowercase := to_ascii_lowercase;
  asset_id_from_str := fun _ => None; meta_from_str := fun _ => None |}.
Definition sample_asset (name : string) (ticker : option string) : AssetMeta := mkAssetMeta JNull JNull 8 (text_of name) (text_of <$> ticker).
Definition sample_registry : AssetRegistry := mkRegistry (list_to_map
  [(pack_hash 1, (7%Z, sample_asset "Tether USD" None)); (pack_hash 2, (7%Z, sample_asset "Coin" (Some "lUSDt"%string)));
   (pack_hash 3, (9%Z, sample_asset "Coin" None))]).
Lemma registry_search_ranked_witness :
  map (fun e => take 1 (as_bytes e.1)) (@search sample_lib (fun m => reverse (map_to_list m)) sample_registry (text_of " usd ") 10) = [[2]; [1]]%Z.
Proof.
  destruct (registry_search_ranked (L := sample_lib) (on_ord as_bytes bcmp _)
    (fun x y E => as_bytes_inj x y (proj1 (bcmp_eq _ _) E)) sample_registry (text_of " usd ") 10) as (t & n & d & _ & _ & _ & Hall);
    [vm_compute; lia|vm_compute; discriminate|].
  rewrite (Hall (fun m => reverse (map_to_list m)) (reverse_Permutation _)), <- (Hall map_to_list (reflexivity _)). vm_compute. reflexivity.
Defined.
(** The default listing, by ticker, leaves assets without one in the order of the hash map:
    the page a client is given depends on it. *)
Lemma ticker_ties_unordered : let h m := reverse (map_to_list m) in let sorting := mkSorting Ticker Ascending in
  from_query_params [] = Ok sorting /\ h (assets_cache sample_registry) ≡ₚ map_to_list (assets_cache sample_registry) /\
  @registry_list sample_lib h sample_registry 0 1 sorting <> @registry_list sample_lib map_to_list sample_registry 0 1 sorting.
Proof. split_and!; [done|apply reverse_Permutation|]. vm_compute. discriminate. Qed.

(** ** Following the directory *)

Lemma sr_iter_preserves {S A} (R : S -> S -> Prop) `{!PreOrder R} (f : A -> SR S unit) l s :
  (forall x s, R s (f x s).1) -> R s (sr_iter f l s).1.
Proof.
  intros Hf. revert s. induction l as [|x l IH]; intros s; cbn; [reflexivity|]. unfold mbind, SR_bind. pose proof (Hf x s) as Hx.
  destruct (f x s) as [s' []]; cbn in *; [|done..]. etrans; [exact Hx|apply IH].
Qed.
(** Assets are only added or replaced: one whose file is gone from the directory stays. *)
Definition grows (r r' : AssetRegistry) : Prop := dom (assets_cache r) ⊆ dom (assets_cache r').
#[local] Instance grows_preorder : PreOrder grows.
Proof. unfold grows. split; [intros r; done|intros r r' r'' ? ?; by etrans]. Qed.
Lemma fs_sync_grows {L : RegistryLib} directory r : grows r (fs_sync directory r).1.
Proof.
  unfold fs_sync. unfold mbind, SR_bind, or_err, lift. destruct directory as [listing|]; cbn; [|done]. apply (sr_iter_preserves grows). clear. intros entry r.
  unfold sync_dir, mbind, SR_bind, or_err, lift. repeat case_match; simplify_eq/=; try done. apply (sr_iter_preserves grows). clear. intros file r.
  unfold sync_file, mbind, SR_bind, or_err, lift, gets, modify. repeat case_match; simplify_eq/=; try done. unfold grows. cbn. rewrite dom_insert. set_solver.
Qed.
