(* ===== verification/Assets.v ===== *)
(** * [elements/]: the assets of a Liquid build

    What a Liquid transaction does to assets (issuing, burning, pegging in and out), the
    entries of the asset index in the history and in the mempool, and the statistics that
    are answered for an asset, with their cache.  The types and functions of the elements
    crate are an interface ([ElementsLib]), and so is what the chain's store promises about
    the rows written for assets ([AssetChain]); rows are decoded values here. *)

From S2P Require Import Prelude Bitcoin HeaderList Mempool Query Text Json Auth Electrum Registry.

(** ** Liquid transactions *)

Inductive CValue := VNull | VExplicit (value : Z) | VConfidential (commitment : Bytes).
Inductive CAsset := ANull | AExplicit (id : AssetId) | AConfidential (commitment : Bytes).
Record AssetIssuance := mkAssetIssuance {
  asset_blinding_nonce : Bytes; asset_entropy : FullHash; amount : CValue; inflation_keys : CValue }.
Record LTxIn := mkLTxIn { li_previous_output : OutPoint; asset_issuance : AssetIssuance; li_is_pegin : bool; li_pegin_witness : list Bytes }.
Record LTxOut := mkLTxOut { lo_asset : CAsset; lo_value : CValue; lo_script_pubkey : Script }.
Record LTransaction := mkLTransaction { l_input : list LTxIn; l_output : list LTxOut }.
Record PeginData := mkPeginData { pegin_asset_id : AssetId; pegin_value : Z }.
Record PegoutData := mkPegoutData { pegout_asset : CAsset; pegout_value : Z; pegout_genesis_hash : BlockHash; pegout_script_pubkey : Script }.

Inductive LNetwork := Liquid | LiquidTestnet | LiquidRegtest.
Inductive BNetwork := BBitcoin | BTestnet | BTestnet4 | BSignet | BRegtest.

Class ElementsLib := {
  l_txid : LTransaction -> Txid;
  pegin_data : LTxIn -> option PeginData;
  pegout_data : LTxOut -> option PegoutData;
  is_fee : LTxOut -> bool;
  is_provably_unspendable : Script -> bool;
  has_issuance : LTxIn -> bool;
  nonce_is_null : Bytes -> bool;
  from_entropy : FullHash -> AssetId;
  generate_asset_entropy : OutPoint -> FullHash -> FullHash;
  reissuance_token_from_entropy : FullHash -> bool -> AssetId;
  NEW_ISSUANCE : FullHash;
  genesis_block_hash : BNetwork -> BlockHash;
  serialize_issuance : AssetIssuance -> Bytes;
  deserialize_issuance : Bytes -> option AssetIssuance;
  serialize_value : CValue -> Bytes;
  (** [hex::encode] *)
  hex_lower : Bytes -> Text;
  to_asm_string : Script -> Text;
  (** [bitcoin::Address::from_script(..).ok()], printed *)
  address_from_script : Script -> BNetwork -> option Text }.

(** The bytes of [6f0279e9..1c526d], which is printed backwards. *)
Definition native_asset_bytes : Bytes :=
  [109; 82; 28; 56; 236; 30; 161; 87; 52; 174; 34; 183; 196; 96; 100; 65; 40; 41; 192; 208; 87; 159; 10; 113; 61; 28; 4; 237; 233; 121; 2; 111]%Z.
Lemma native_asset_len : length native_asset_bytes = 32.
Proof. done. Qed.
Definition NATIVE_ASSET_ID : AssetId := dexist native_asset_bytes native_asset_len.
Definition pegged_asset (network : LNetwork) : option AssetId :=
  match network with Liquid => Some NATIVE_ASSET_ID | LiquidTestnet | LiquidRegtest => None end.

(** ** [peg.rs] *)

#[export] Instance CAsset_eq_dec : EqDecision CAsset.
Proof. solve_decision. Defined.
#[export] Instance CValue_eq_dec : EqDecision CValue.
Proof. solve_decision. Defined.

Section assets.
Context {EL : ElementsLib}.

Definition bitcoin_genesis_hash (network : LNetwork) : BlockHash :=
  genesis_block_hash (match network with Liquid => BBitcoin | LiquidTestnet => BTestnet | LiquidRegtest => BRegtest end).
Definition get_pegin_data (txin : LTxIn) (network : LNetwork) : option PeginData :=
  pegged_asset_id ← pegged_asset network;
  pegin ← pegin_data txin;
  if bool_decide (pegin_asset_id pegin = pegged_asset_id) then Some pegin else None.
Definition get_pegout_data (txout : LTxOut) (network : LNetwork) (parent_network : BNetwork) : option PegoutData :=
  pegged_asset_id ← pegged_asset network;
  parent ← (match parent_network with
            | BBitcoin => Some Liquid
            | BTestnet | BTestnet4 => Some LiquidTestnet
            | BSignet => None
            | BRegtest => Some LiquidRegtest
            end);
  pegout ← pegout_data txout;
  if bool_decide (pegout_asset pegout = AExplicit pegged_asset_id) && bool_decide (pegout_genesis_hash pegout = bitcoin_genesis_hash parent)
  then Some pegout else None.
Record PegoutValue := mkPegoutValue {
  pv_genesis_hash : Text; pv_scriptpubkey : Script; pv_scriptpubkey_asm : Text; pv_scriptpubkey_address : option Text }.
Definition from_txout (txout : LTxOut) (network : LNetwork) (parent_network : BNetwork) : option PegoutValue :=
  pegoutdata ← get_pegout_data txout network parent_network;
  let scriptpubkey := pegout_script_pubkey pegoutdata in
  Some (mkPegoutValue (hex_lower (as_bytes (pegout_genesis_hash pegoutdata))) scriptpubkey (to_asm_string scriptpubkey)
    (address_from_script scriptpubkey parent_network)).

(** ** Issuances *)

Definition is_reissuance (txin : LTxIn) : bool := negb (nonce_is_null (asset_blinding_nonce (asset_issuance txin))).
Definition get_issuance_entropy (txin : LTxIn) : result FullHash :=
  if negb (has_issuance txin) then Err (Msg "input has no issuance")
  else Ok (if negb (is_reissuance txin) then generate_asset_entropy (li_previous_output txin) (asset_entropy (asset_issuance txin))
           else asset_entropy (asset_issuance txin)).
Definition explicit_amount (v : CValue) : option Z :=
  match v with VExplicit v => Some v | VNull => Some 0%Z | VConfidential _ => None end.
Definition commitment_hex (v : CValue) : option Text :=
  match v with VConfidential _ => Some (hex_lower (serialize_value v)) | _ => None end.
(** [IssuanceValue] of [elements/mod.rs]. *)
Record IssuanceValue := mkIssuanceValue {
  iv_asset_id : Text; iv_is_reissuance : bool; iv_asset_blinding_nonce : option Text; iv_contract_hash : option Text; iv_asset_entropy : Text;
  iv_assetamount : option Z; iv_assetamountcommitment : option Text; iv_tokenamount : option Z; iv_tokenamountcommitment : option Text }.
Definition IssuanceValue_from (txin : LTxIn) : result IssuanceValue :=
  let issuance := asset_issuance txin in
  entropy ← expect (get_issuance_entropy txin);
  Ok (mkIssuanceValue (hex_lower (as_bytes (from_entropy entropy))) (is_reissuance txin)
        (if is_reissuance txin then Some (hex_lower (asset_blinding_nonce issuance)) else None)
        (if negb (is_reissuance txin) then Some (hex_lower (as_bytes (asset_entropy issuance))) else None)
        (hex_lower (as_bytes entropy))
        (explicit_amount (amount issuance)) (commitment_hex (amount issuance))
        (explicit_amount (inflation_keys issuance)) (commitment_hex (inflation_keys issuance))).
End assets.

(** ** The history of assets *)

(** [TxHistoryInfo] with the variants of the feature. *)
Inductive LTxHistoryInfo :=
  | LFunding (txid : Txid) (vout : Z) (value : CValue)
  | LSpending (txid : Txid) (vin : Z) (prev_txid : Txid) (prev_vout : Z) (value : CValue)
  | Issuing (txid : Txid) (vin : Z) (is_reissuance : bool) (issued_amount token_amount : option Z)
  | Burning (txid : Txid) (vout : Z) (value : Z)
  | Pegin (txid : Txid) (vin : Z) (value : Z)
  | Pegout (txid : Txid) (vout : Z) (value : Z).
Definition linfo_txid (info : LTxHistoryInfo) : Txid :=
  match info with
  | LFunding txid _ _ | LSpending txid _ _ _ _ | Issuing txid _ _ _ _ | Burning txid _ _ | Pegin txid _ _ | Pegout txid _ _ => txid
  end.
(** The row kept under [i<asset>] for the issuance of an asset. *)
Record AssetRow := mkAssetRow {
  issuance_txid : Txid; issuance_vin : Z; prev_txid : Txid; prev_vout : Z; issuance : Bytes; reissuance_token : AssetId }.

Section index.
Context {EL : ElementsLib} (network : LNetwork) (parent_network : BNetwork).

Definition output_history (txid : Txid) (p : nat * LTxOut) : result (list (AssetId * LTxHistoryInfo)) :=
  let '(txo_index, txo) := p in
  match get_pegout_data txo network parent_network with
  | Some pegout =>
      id ← unwrap (match pegout_asset pegout with AExplicit id => Some id | _ => None end);
      Ok [(id, Pegout txid (as_u32 (Z.of_nat txo_index)) (pegout_value pegout))]
  | None =>
      Ok (if is_provably_unspendable (lo_script_pubkey txo) && negb (is_fee txo) then
            match lo_asset txo, lo_value txo with
            | AExplicit asset_id, VExplicit value =>
                if (0 <? value)%Z then [(asset_id, Burning txid (as_u32 (Z.of_nat txo_index)) value)] else []
            | _, _ => []
            end
          else [])
  end.
Definition input_history (txid : Txid) (p : nat * LTxIn) : result (list (AssetId * LTxHistoryInfo) * list (AssetId * AssetRow)) :=
  let '(txi_index, txi) := p in
  match get_pegin_data txi network with
  | Some pegin => Ok ([(pegin_asset_id pegin, Pegin txid (as_u32 (Z.of_nat txi_index)) (pegin_value pegin))], [])
  | None =>
      if has_issuance txi then
        entropy ← expect (get_issuance_entropy txi);
        let asset_id := from_entropy entropy in
        let keys := inflation_keys (asset_issuance txi) in
        let info := Issuing txid (as_u32 (Z.of_nat txi_index)) (is_reissuance txi)
                      (explicit_amount (amount (asset_issuance txi))) (explicit_amount keys) in
        let token := reissuance_token_from_entropy entropy (match keys with VConfidential _ => true | _ => false end) in
        Ok ([(asset_id, info)],
            if negb (is_reissuance txi) then
              [(asset_id, mkAssetRow txid (as_u32 (Z.of_nat txi_index)) (op_txid (li_previous_output txi)) (op_vout (li_previous_output txi))
                            (serialize_issuance (asset_issuance txi)) token)]
            else [])
      else Ok ([], [])
  end.
Definition index_tx_assets (tx : LTransaction) : result (list (AssetId * LTxHistoryInfo) * list (AssetId * AssetRow)) :=
  let txid := l_txid tx in
  outs ← rmap (output_history txid) (enumerate (l_output tx));
  ins ← rmap (input_history txid) (enumerate (l_input tx));
  Ok (concat outs ++ concat (map fst ins), concat (map snd ins)).

(** ** Indexing *)

(** A row of the history index; [code] is [I]. *)
Record LHistoryRow := mkLHistoryRow { lr_asset : AssetId; lr_height : Z; lr_position : Z; lr_info : LTxHistoryInfo }.
Definition asset_history_row (asset_id : AssetId) (confirmed_height tx_position : Z) (txinfo : LTxHistoryInfo) : LHistoryRow :=
  mkLHistoryRow asset_id confirmed_height tx_position txinfo.
(** The rows added (or deleted) for a transaction, and with [DeleteBlocksWithHistory]
    the assets whose caches are dropped. *)
Definition index_confirmed_tx_assets (tx : LTransaction) (confirmed_height tx_position : Z) (deleting : bool)
    : result (list LHistoryRow * list (AssetId * AssetRow) * list AssetId) :=
  p ← index_tx_assets tx;
  let rows := map (fun e : AssetId * LTxHistoryInfo => asset_history_row e.1 confirmed_height tx_position e.2) p.1 in
  Ok (rows, p.2, if deleting then map lr_asset rows else []).

(** The two maps the mempool keeps. *)
Record MempoolAssets := mkMempoolAssets {
  asset_history : gmap AssetId (list LTxHistoryInfo); mp_asset_issuance : gmap AssetId AssetRow }.
Definition push_asset (h : gmap AssetId (list LTxHistoryInfo)) (e : AssetId * LTxHistoryInfo) : gmap AssetId (list LTxHistoryInfo) :=
  <[e.1 := default [] (h !! e.1) ++ [e.2]]> h.
Definition index_mempool_tx_assets (tx : LTransaction) (m : MempoolAssets) : result MempoolAssets :=
  p ← index_tx_assets tx;
  Ok (mkMempoolAssets (fold_left push_asset p.1 (asset_history m))
        (fold_left (fun issuances e => <[e.1 := e.2]> issuances) p.2 (mp_asset_issuance m))).
Definition remove_mempool_tx_assets (to_remove : gset Txid) (m : MempoolAssets) : MempoolAssets :=
  mkMempoolAssets
    (omap (fun entries =>
        match filter (fun entry => linfo_txid entry ∉ to_remove) entries with [] => None | entries => Some entries end) (asset_history m))
    (filter (fun p : AssetId * AssetRow => issuance_txid p.2 ∉ to_remove) (mp_asset_issuance m)).
End index.

(** ** Statistics *)

Record IssuedAssetStats := mkIssuedStats {
  is_tx_count : Z; issuance_count : Z; issued_amount_ : Z; burned_amount : Z; has_blinded_issuances : bool;
  reissuance_tokens : option Z; burned_reissuance_tokens : Z }.
Record PeggedAssetStats := mkPeggedStats {
  ps_tx_count : Z; peg_in_count : Z; peg_in_amount : Z; peg_out_count : Z; peg_out_amount : Z; burn_count : Z; ps_burned_amount : Z }.
Definition issued_default : IssuedAssetStats := mkIssuedStats 0 0 0 0 false None 0.
Definition pegged_default : PeggedAssetStats := mkPeggedStats 0 0 0 0 0 0 0.
Definition incr (new : bool) (n : Z) : Z := if new then wrap64 (n + 1) else n.

(** [AssetStatApplyFn]: the statistics and the ids seen, or a panic. *)
Definition apply_issued_asset_stats (info : LTxHistoryInfo) (stats : IssuedAssetStats) (seen : gset Txid) : result (IssuedAssetStats * gset Txid) :=
  let new := bool_decide (linfo_txid info ∉ seen) in
  let seen := {[linfo_txid info]} ∪ seen in
  let '(mkIssuedStats txs issuances issued burned blinded tokens burned_tokens) := stats in
  let txs := incr new txs in
  match info with
  | Issuing _ _ is_re issued_amount token_amount =>
      Ok (mkIssuedStats txs (wrap64 (issuances + 1))
            (match issued_amount with Some a => wrap64 (issued + a) | None => issued end) burned
            (match issued_amount with Some _ => blinded | None => true end)
            (if negb is_re then token_amount else tokens) burned_tokens, seen)
  | Burning _ _ value => Ok (mkIssuedStats txs issuances issued (wrap64 (burned + value)) blinded tokens burned_tokens, seen)
  | LFunding _ _ _ | LSpending _ _ _ _ _ | Pegin _ _ _ | Pegout _ _ _ => Panic
  end.
Definition apply_pegged_asset_stats (info : LTxHistoryInfo) (stats : PeggedAssetStats) (seen : gset Txid) : result (PeggedAssetStats * gset Txid) :=
  let new := bool_decide (linfo_txid info ∉ seen) in
  let seen := {[linfo_txid info]} ∪ seen in
  let '(mkPeggedStats txs ins ins_amount outs outs_amount burns burned) := stats in
  let txs := incr new txs in
  match info with
  | Pegin _ _ value => Ok (mkPeggedStats txs (wrap64 (ins + 1)) (wrap64 (ins_amount + value)) outs outs_amount burns burned, seen)
  | Pegout _ _ value => Ok (mkPeggedStats txs ins ins_amount (wrap64 (outs + 1)) (wrap64 (outs_amount + value)) burns burned, seen)
  | Burning _ _ value => Ok (mkPeggedStats txs ins ins_amount outs outs_amount (wrap64 (burns + 1)) (wrap64 (burned + value)), seen)
  | Issuing _ _ _ _ _ => Ok (mkPeggedStats txs ins ins_amount outs outs_amount burns burned, seen)
  | LFunding _ _ _ | LSpending _ _ _ _ _ => Panic
  end.

(** What the store of the chain gives for assets: the rows of an asset from a height on,
    in the order of their keys, confirmations, heights and the issuance rows. *)
Class AssetChain (C : Type) := {
  asset_history_scan : C -> AssetId -> nat -> list LHistoryRow;
  asset_confirming_block : C -> Txid -> option BlockId;
  asset_height_by_hash : C -> BlockHash -> option nat;
  asset_issuance_row : C -> AssetId -> option AssetRow }.
(** Statistics as the bytes of the cache ([bincode_util]). *)
Class StatsCodec (T : Type) := { enc_stats : T * BlockHash -> Bytes; dec_stats : Bytes -> option (T * BlockHash) }.
Abbreviation AssetCache := (gmap AssetId Bytes).

Section stats.
Context {C : Type} {AC : AssetChain C} {T : Type} {SC : StatsCodec T} (T_default : T).
Context (apply_fn : LTxHistoryInfo -> T -> gset Txid -> result (T * gset Txid)).

(** The loop over the confirmed rows; ids are forgotten when the block changes. *)
Fixpoint delta_loop (stats : T) (seen : gset Txid) (lastblock : option BlockHash) (rows : list (LHistoryRow * BlockId))
    : result (T * option BlockHash) :=
  match rows with
  | [] => Ok (stats, lastblock)
  | (row, blockid) :: rows =>
      let seen := if bool_decide (lastblock <> Some (bid_hash blockid)) then ∅ else seen in
      p ← apply_fn (lr_info row) stats seen;
      delta_loop p.1 p.2 (Some (bid_hash blockid)) rows
  end.
Definition confirmed_asset_rows (chain : C) (asset_id : AssetId) (start_height : nat) : list (LHistoryRow * BlockId) :=
  omap (fun history => pair history <$> asset_confirming_block chain (linfo_txid (lr_info history)))
    (asset_history_scan chain asset_id start_height).
Definition chain_asset_stats_delta (chain : C) (asset_id : AssetId) (init_stats : T) (start_height : nat) : result (T * option BlockHash) :=
  delta_loop init_stats ∅ None (confirmed_asset_rows chain asset_id start_height).
Definition chain_asset_stats (chain : C) (asset_id : AssetId) : SR AssetCache T := fun cache_db =>
  match (c ← (match cache_db !! asset_id with Some c => Some <$> unwrap (dec_stats c) | None => Ok None end);
         match c ≫= (fun p => pair p.1 <$> asset_height_by_hash chain p.2) with
         | None => chain_asset_stats_delta chain asset_id T_default 0
         | Some (oldstats, blockheight) => chain_asset_stats_delta chain asset_id oldstats (blockheight + 1)
         end) with
  | Ok (newstats, lastblock) =>
      (match lastblock with Some lastblock => <[asset_id := enc_stats (newstats, lastblock)]> cache_db | None => cache_db end, Ok newstats)
  | Err e => (cache_db, Err e)
  | Panic => (cache_db, Panic)
  | Diverge => (cache_db, Diverge)
  end.
Fixpoint mempool_loop (stats : T) (seen : gset Txid) (history : list LTxHistoryInfo) : result T :=
  match history with
  | [] => Ok stats
  | info :: history => p ← apply_fn info stats seen; mempool_loop p.1 p.2 history
  end.
Definition mempool_asset_stats (mempool : MempoolAssets) (asset_id : AssetId) : result T :=
  match asset_history mempool !! asset_id with
  | Some history => mempool_loop T_default ∅ history
  | None => Ok T_default
  end.
End stats.

(** ** Looking an asset up *)

Record PeggedAsset := mkPeggedAsset { pa_asset_id : AssetId; pa_chain_stats : PeggedAssetStats; pa_mempool_stats : PeggedAssetStats }.
Record IssuedAsset := mkIssuedAsset {
  ia_asset_id : AssetId; ia_issuance_txin : Txid * Z; ia_issuance_prevout : OutPoint; ia_reissuance_token : AssetId;
  ia_contract_hash : option FullHash; ia_status : TransactionStatus; ia_chain_stats : IssuedAssetStats; ia_mempool_stats : IssuedAssetStats;
  ia_meta : option AssetMeta }.
Inductive LiquidAsset := Issued (a : IssuedAsset) | Native (a : PeggedAsset).
Definition set_burned_tokens (n : Z) (st : IssuedAssetStats) : IssuedAssetStats :=
  mkIssuedStats (is_tx_count st) (issuance_count st) (issued_amount_ st) (burned_amount st) (has_blinded_issuances st) (reissuance_tokens st) n.

Section lookup.
Context {EL : ElementsLib} {C : Type} {AC : AssetChain C} {SCI : StatsCodec IssuedAssetStats} {SCP : StatsCodec PeggedAssetStats}.
Context (network : LNetwork) (chain : C) (mempool : MempoolAssets) (get_tx_status : Txid -> TransactionStatus).

Definition pegged_asset_stats (asset_id : AssetId) : SR AssetCache (PeggedAssetStats * PeggedAssetStats) :=
  chain_stats ← chain_asset_stats pegged_default apply_pegged_asset_stats chain asset_id;
  mempool_stats ← lift (mempool_asset_stats pegged_default apply_pegged_asset_stats mempool asset_id);
  mret (chain_stats, mempool_stats).
Definition issued_asset_stats (asset_id reissuance_token : AssetId) : SR AssetCache (IssuedAssetStats * IssuedAssetStats) :=
  chain_stats ← chain_asset_stats issued_default apply_issued_asset_stats chain asset_id;
  chain_tokens ← chain_asset_stats issued_default apply_issued_asset_stats chain reissuance_token;
  mempool_stats ← lift (mempool_asset_stats issued_default apply_issued_asset_stats mempool asset_id);
  mempool_tokens ← lift (mempool_asset_stats issued_default apply_issued_asset_stats mempool reissuance_token);
  mret (set_burned_tokens (burned_amount chain_tokens) chain_stats, set_burned_tokens (burned_amount mempool_tokens) mempool_stats).
Definition IssuedAsset_new (asset_id : AssetId) (asset : AssetRow) (stats : IssuedAssetStats * IssuedAssetStats) (meta : option AssetMeta)
    (status : TransactionStatus) : result IssuedAsset :=
  i ← unwrap (deserialize_issuance (issuance asset));
  let contract_hash := if bool_decide (asset_entropy i <> NEW_ISSUANCE) then Some (asset_entropy i) else None in
  Ok (mkIssuedAsset asset_id (issuance_txid asset, issuance_vin asset) (mkOutPoint (prev_txid asset) (prev_vout asset)) (reissuance_token asset)
        contract_hash status stats.1 stats.2 meta).
Definition lookup_asset (registry : option AssetRegistry) (asset_id : AssetId) (meta : option AssetMeta) : SR AssetCache (option LiquidAsset) :=
  if bool_decide (pegged_asset network = Some asset_id) then
    stats ← pegged_asset_stats asset_id;
    mret (Some (Native (mkPeggedAsset asset_id stats.1 stats.2)))
  else
    match asset_issuance_row chain asset_id ∪ mp_asset_issuance mempool !! asset_id with
    | Some row =>
        let meta := meta ∪ (registry ≫= fun r => registry_get r asset_id) in
        stats ← issued_asset_stats asset_id (reissuance_token row);
        asset ← lift (IssuedAsset_new asset_id row stats meta (get_tx_status (issuance_txid row)));
        mret (Some (Issued asset))
    | None => mret None
    end.
Definition query_lookup_asset (asset_db : option AssetRegistry) (asset_id : AssetId) : SR AssetCache (option LiquidAsset) :=
  lookup_asset asset_db asset_id None.
Definition list_registry_assets {L : RegistryLib} (hash_order : gmap AssetId (Z * AssetMeta) -> list (AssetId * (Z * AssetMeta)))
    (asset_db : option AssetRegistry) (start_index limit : nat) (sorting : AssetSorting) : SR AssetCache (nat * list LiquidAsset) :=
  match asset_db with
  | None => mret (0, [])
  | Some db =>
      let '(total_num, results) := registry_list hash_order db start_index limit sorting in
      assets ← sr_map (fun e : AssetId * AssetMeta =>
          asset ← lookup_asset (Some db) e.1 (Some e.2);
          lift (ok_or (Msg "missing registered asset") asset)) results;
      mret (total_num, assets)
  end.
End lookup.

(** [u64] arithmetic, left to right. *)
Definition supply (asset : LiquidAsset) : option Z :=
  match asset with
  | Native a =>
      let '(c, m) := (pa_chain_stats a, pa_mempool_stats a) in
      Some (wrap64 (wrap64 (wrap64 (wrap64 (wrap64 (peg_in_amount c - peg_out_amount c) - ps_burned_amount c)
              + peg_in_amount m) - peg_out_amount m) - ps_burned_amount m))
  | Issued a =>
      let '(c, m) := (ia_chain_stats a, ia_mempool_stats a) in
      if has_blinded_issuances c || has_blinded_issuances m then None
      else Some (wrap64 (wrap64 (wrap64 (issued_amount_ c - burned_amount c) + issued_amount_ m) - burned_amount m))
  end.
Definition precision (asset : LiquidAsset) : Z :=
  match asset with Native _ => 8 | Issued a => default 0%Z (am_precision <$> ia_meta a) end.
