(* ===== verification/AssetsFacts.v ===== *)
(** * What the asset index answers

    Indexing a transaction never fails and files pegs under the pegged asset only; the
    mempool's maps and the statistics read from them are those of its transactions,
    whatever is added and removed ([mempool_assets_exact]).  Over a store of the chain that
    keeps the laws of [AssetChainLaws], and as long as no two transactions issue one asset,
    looking an asset up, with any sound cache, gives the numbers of all its confirmed and
    of its unconfirmed entries without reaching an [unreachable!] ([asset_lookup_exact]). *)

From S2P Require Import Prelude RocksDB Bitcoin HeaderList Mempool Query Text Json Auth Electrum Registry Assets.

(** ** Indexing a transaction *)

Section indexing.
Context {EL : ElementsLib} (network : LNetwork) (parent_network : BNetwork).

(** What is filed under an asset for a transaction. *)
Definition entry_ok (txid : Txid) (e : AssetId * LTxHistoryInfo) : Prop :=
  linfo_txid e.2 = txid /\
  match e.2 with
  | Issuing _ _ _ _ _ | Burning _ _ _ => True
  | Pegin _ _ _ | Pegout _ _ _ => pegged_asset network = Some e.1
  | LFunding _ _ _ | LSpending _ _ _ _ _ => False
  end.
Lemma rmap_forall {A B} (f : A -> result B) (P : B -> Prop) l : (forall x, exists y, f x = Ok y /\ P y) -> exists ys, rmap f l = Ok ys /\ Forall P ys.
Proof.
  intros Hf. induction l as [|x l (ys & Hys & HP)]; cbn; [by exists []|]. destruct (Hf x) as (y & -> & Hy). cbn. rewrite Hys. cbn.
  exists (y :: ys). split; [done|]. by constructor.
Qed.
Lemma pegout_asset_ok txo pegout : get_pegout_data txo network parent_network = Some pegout ->
  exists a, pegged_asset network = Some a /\ pegout_asset pegout = AExplicit a.
Proof.
  unfold get_pegout_data. intros Hp. destruct (pegged_asset network) as [a|]; [|done]. cbn [mbind option_bind] in Hp. exists a. split; [done|].
  destruct (match parent_network with BBitcoin => _ | _ => _ end) as [parent|]; [|done]. cbn [mbind option_bind] in Hp.
  destruct (pegout_data txo) as [d|]; [|done]. cbn [mbind option_bind] in Hp. case_bool_decide as Ha; [|done]. cbn in Hp. case_bool_decide; by simplify_eq.
Qed.
Lemma pegin_asset_ok txi pegin : get_pegin_data txi network = Some pegin -> pegged_asset network = Some (pegin_asset_id pegin).
Proof.
  unfold get_pegin_data. intros Hp. destruct (pegged_asset network) as [a|]; [|done]. cbn [mbind option_bind] in Hp.
  destruct (pegin_data txi) as [d|]; [|done]. cbn [mbind option_bind] in Hp. case_bool_decide as Ha; [|done]. by simplify_eq.
Qed.
Lemma output_history_ok txid p : exists l, output_history network parent_network txid p = Ok l /\ Forall (entry_ok txid) l.
Proof.
  destruct p as [i txo]. unfold output_history. destruct (get_pegout_data _ _ _) as [pegout|] eqn:E.
  - destruct (pegout_asset_ok _ _ E) as (a & Ha & ->). eexists. split; [done|]. repeat constructor. done.
  - eexists. split; [done|]. repeat case_match; repeat constructor.
Qed.
Definition row_ok (txid : Txid) (e : AssetId * AssetRow) : Prop :=
  issuance_txid e.2 = txid /\ (exists entropy confidential, reissuance_token e.2 = reissuance_token_from_entropy entropy confidential) /\
  exists i, issuance e.2 = serialize_issuance i.
Lemma input_history_ok txid p : exists l, input_history network txid p = Ok l /\
  Forall (entry_ok txid) l.1 /\ Forall (row_ok txid) l.2.
Proof.
  destruct p as [i txi]. unfold input_history. destruct (get_pegin_data _ _) as [pegin|] eqn:E.
  { eexists. split; [done|]. split; repeat constructor. by apply pegin_asset_ok in E. }
  destruct (has_issuance txi) eqn:Hi; [|eexists; split; [done|by split]]. unfold get_issuance_entropy. rewrite Hi. cbn.
  eexists. split; [done|]. split; [repeat constructor|]. case_match; repeat constructor; cbn; eauto.
Qed.
Lemma index_tx_assets_ok tx : exists h i, index_tx_assets network parent_network tx = Ok (h, i) /\
  Forall (entry_ok (l_txid tx)) h /\ Forall (row_ok (l_txid tx)) i.
Proof.
  unfold index_tx_assets.
  destruct (rmap_forall (output_history network parent_network (l_txid tx)) _ (enumerate (l_output tx)) (output_history_ok (l_txid tx))) as (outs & -> & Ho).
  destruct (rmap_forall (input_history network (l_txid tx)) _ (enumerate (l_input tx)) (input_history_ok (l_txid tx))) as (ins & -> & Hi).
  cbn. do 2 eexists. split; [done|]. rewrite Forall_app, !Forall_concat, !Forall_map. split; [split; [done|]|]; (eapply Forall_impl; [exact Hi|]); by intros x [].
Qed.

(** The entries and the issuance rows of a transaction. *)
Definition tx_history (tx : LTransaction) : list (AssetId * LTxHistoryInfo) :=
  match index_tx_assets network parent_network tx with Ok p => p.1 | _ => [] end.
Definition tx_issuances (tx : LTransaction) : list (AssetId * AssetRow) :=
  match index_tx_assets network parent_network tx with Ok p => p.2 | _ => [] end.
Lemma index_tx_assets_eq tx : index_tx_assets network parent_network tx = Ok (tx_history tx, tx_issuances tx).
Proof. unfold tx_history, tx_issuances. destruct (index_tx_assets_ok tx) as (h & i & -> & _). done. Qed.
Lemma tx_history_ok tx e : e ∈ tx_history tx -> entry_ok (l_txid tx) e.
Proof. unfold tx_history. destruct (index_tx_assets_ok tx) as (h & i & -> & Hh & _). cbn. rewrite Forall_forall in Hh. apply Hh. Qed.
Lemma tx_issuances_ok tx e : e ∈ tx_issuances tx -> row_ok (l_txid tx) e.
Proof. unfold tx_issuances. destruct (index_tx_assets_ok tx) as (h & i & -> & _ & Hi). cbn. rewrite Forall_forall in Hi. apply Hi. Qed.

(** ** The mempool's maps *)

(** Transactions arrive, their issuances being of assets that no other one issues, and
    leave. *)
Inductive assets_reachable : MempoolAssets -> list LTransaction -> Prop :=
  | ar_empty : assets_reachable (mkMempoolAssets ∅ ∅) []
  | ar_add m txs tx m' : assets_reachable m txs -> index_mempool_tx_assets network parent_network tx m = Ok m' ->
      NoDup (map fst (concat (map tx_issuances (txs ++ [tx])))) -> assets_reachable m' (txs ++ [tx])
  | ar_remove m txs (to_remove : gset Txid) : assets_reachable m txs ->
      assets_reachable (remove_mempool_tx_assets to_remove m) (filter (fun tx => l_txid tx ∉ to_remove) txs).

Definition entries_under (a : AssetId) (l : list (AssetId * LTxHistoryInfo)) : list LTxHistoryInfo := map snd (filter (fun e => e.1 = a) l).
Definition mempool_entries (a : AssetId) (txs : list LTransaction) : list LTxHistoryInfo := entries_under a (concat (map tx_history txs)).
Definition nonempty {A} (l : list A) : option (list A) := match l with [] => None | _ => Some l end.
Definition assets_exact (m : MempoolAssets) (txs : list LTransaction) : Prop :=
  (forall a, asset_history m !! a = nonempty (mempool_entries a txs)) /\
  (forall a row, mp_asset_issuance m !! a = Some row <-> (a, row) ∈ concat (map tx_issuances txs)).
Lemma push_assets_lookup l h a : (forall l', h !! a = Some l' -> l' <> []) ->
  fold_left push_asset l h !! a = nonempty (default [] (h !! a) ++ entries_under a l).
Proof.
  revert h. induction l as [|[b x] l IH]; intros h Hh; cbn [fold_left].
  { unfold entries_under. cbn. rewrite app_nil_r. destruct (h !! a) as [l'|]; [|done]. cbn. specialize (Hh l' eq_refl). by destruct l'. }
  unfold push_asset at 2. cbn [fst snd]. unfold entries_under. rewrite filter_cons. cbn [fst]. destruct (decide (b = a)) as [->|Hb].
  - rewrite IH; rewrite lookup_insert_eq.
    + f_equal. cbn. by rewrite <- app_assoc.
    + intros l' [= <-]. by destruct (default [] (h !! a)).
  - rewrite IH; rewrite lookup_insert_ne by done; done.
Qed.
Lemma insert_all_lookup {K V} `{Countable K} (l : list (K * V)) (m : gmap K V) k v : NoDup (map fst l) -> (forall k', k' ∈ map fst l -> m !! k' = None) ->
  fold_left (fun m e => <[e.1 := e.2]> m) l m !! k = Some v <-> m !! k = Some v \/ (k, v) ∈ l.
Proof.
  revert m. induction l as [|[k0 v0] l IH]; intros m Hnd Hm; cbn [fold_left fst snd]; [set_solver|].
  cbn in Hnd. apply NoDup_cons in Hnd as [Hk Hnd]. rewrite IH; [|done|].
  - rewrite lookup_insert_Some, elem_of_cons. pose proof (Hm k0 ltac:(by left)) as H0. split; [|intros [?|[[= -> ->]|?]]]; naive_solver.
  - intros k' Hk'. rewrite lookup_insert_ne by (by intros ->). apply Hm. by right.
Qed.
Lemma entries_under_remove (to_remove : gset Txid) a txs :
  filter (fun entry => linfo_txid entry ∉ to_remove) (mempool_entries a txs) = mempool_entries a (filter (fun tx => l_txid tx ∉ to_remove) txs).
Proof.
  unfold mempool_entries, entries_under. induction txs as [|tx txs IH]; [done|]. rewrite filter_cons. cbn [map concat].
  rewrite filter_app, map_app, filter_app, IH. clear IH.
  assert (forall e, e ∈ filter (fun e => e.1 = a) (tx_history tx) -> linfo_txid e.2 = l_txid tx) as Hid.
  { intros e [_ He]%list_elem_of_filter. by apply tx_history_ok in He as [-> _]. }
  case_decide as Hd.
  - cbn [map concat]. rewrite filter_app, map_app. f_equal. apply filter_all. intros x (e & -> & He)%elem_of_map. by rewrite (Hid e He).
  - rewrite filter_none; [done|]. intros x (e & -> & He)%elem_of_map. rewrite (Hid e He). tauto.
Qed.
Lemma issuances_remove (to_remove : gset Txid) txs a row :
  (a, row) ∈ concat (map tx_issuances (filter (fun tx => l_txid tx ∉ to_remove) txs)) <->
  (a, row) ∈ concat (map tx_issuances txs) /\ issuance_txid row ∉ to_remove.
Proof.
  rewrite !elem_of_concat. setoid_rewrite elem_of_map. setoid_rewrite list_elem_of_filter. split.
  - intros (l & (tx & -> & Hd & Htx) & Hin). rewrite (proj1 (tx_issuances_ok tx _ Hin) : issuance_txid row = _). eauto 6.
  - intros ((l & (tx & -> & Htx) & Hin) & Hd). rewrite (proj1 (tx_issuances_ok tx _ Hin) : issuance_txid row = _) in Hd. eauto 8.
Qed.
(** The history map, when a transaction arrives and when some leave. *)
Definition history_exact (m : MempoolAssets) (txs : list LTransaction) : Prop :=
  forall a, asset_history m !! a = nonempty (mempool_entries a txs).
Lemma history_add m txs tx m' : history_exact m txs -> index_mempool_tx_assets network parent_network tx m = Ok m' -> history_exact m' (txs ++ [tx]).
Proof.
  intros Hh Hadd. unfold index_mempool_tx_assets in Hadd. rewrite index_tx_assets_eq in Hadd. injection Hadd as <-. intros a. cbn [asset_history fst snd].
  rewrite push_assets_lookup, Hh by (rewrite Hh; intros l'; unfold nonempty; by case_match; intros [= <-]).
  unfold mempool_entries, entries_under. rewrite map_app, concat_app, filter_app, map_app. cbn [map concat]. rewrite app_nil_r.
  f_equal. f_equal. by destruct (map snd _).
Qed.
Lemma history_remove m txs (to_remove : gset Txid) :
  history_exact m txs -> history_exact (remove_mempool_tx_assets to_remove m) (filter (fun tx => l_txid tx ∉ to_remove) txs).
Proof.
  intros Hh a. cbn. rewrite lookup_omap, Hh, <- entries_under_remove. unfold nonempty. destruct (mempool_entries a txs); [done|].
  cbn [mbind option_bind]. by case_match.
Qed.
Lemma assets_reachable_exact m txs : assets_reachable m txs -> assets_exact m txs.
Proof.
  induction 1 as [|m txs tx m' _ [Hh Hi] Hadd Hnd|m txs to_remove _ [Hh Hi]].
  - split; [done|]. intros a row. cbn. set_solver.
  - split; [exact (history_add m txs tx m' Hh Hadd)|].
    unfold index_mempool_tx_assets in Hadd. rewrite index_tx_assets_eq in Hadd. injection Hadd as <-. cbn [mp_asset_issuance fst snd].
    rewrite map_app, concat_app, map_app in Hnd. cbn [map concat] in Hnd. rewrite app_nil_r in Hnd. apply NoDup_app in Hnd as (_ & Hd & Hn).
    intros a row. rewrite insert_all_lookup; [|done|].
    + rewrite Hi, map_app, concat_app, elem_of_app. cbn [map concat]. by rewrite app_nil_r.
    + intros k Hk. apply eq_None_not_Some. intros [v Hv%Hi]. apply (Hd k); [|done]. apply elem_of_map. by exists (k, v).
  - split; [exact (history_remove m txs to_remove Hh)|]. intros a row. cbn. rewrite map_lookup_filter_Some, Hi, issuances_remove. done.
Qed.

(** ** The mempool's maps after any arrivals and departures *)

Inductive AssetEvent := Arrives (tx : LTransaction) | Leave (to_remove : gset Txid).
Definition asset_event (m : result MempoolAssets) (e : AssetEvent) : result MempoolAssets :=
  m ← m;
  match e with
  | Arrives tx => index_mempool_tx_assets network parent_network tx m
  | Leave to_remove => Ok (remove_mempool_tx_assets to_remove m)
  end.
Definition assets_after (events : list AssetEvent) : result MempoolAssets := fold_left asset_event events (Ok (mkMempoolAssets ∅ ∅)).
Fixpoint departed (events : list AssetEvent) : gset Txid :=
  match events with [] => ∅ | Arrives _ :: events => departed events | Leave to_remove :: events => to_remove ∪ departed events end.
(** The transactions that are there, in the order in which they came. *)
Fixpoint present (events : list AssetEvent) : list LTransaction :=
  match events with
  | [] => []
  | Arrives tx :: events => if decide (l_txid tx ∈ departed events) then present events else tx :: present events
  | Leave _ :: events => present events
  end.
(** The row a transaction issues an asset with: of its last input that does. *)
Definition issues (tx : LTransaction) (a : AssetId) : option AssetRow := last (map snd (filter (fun e => e.1 = a) (tx_issuances tx))).
(** [row] is of the transaction that was the last to arrive of those that issue [a], and
    it has not left since. *)
Definition last_issued (events : list AssetEvent) (a : AssetId) (row : AssetRow) : Prop :=
  exists before tx after, events = before ++ Arrives tx :: after /\ issues tx a = Some row /\ l_txid tx ∉ departed after /\
    forall tx', Arrives tx' ∈ after -> issues tx' a = None.
Lemma departed_app l l' : departed (l ++ l') = departed l ∪ departed l'.
Proof. induction l as [|[] l IH]; cbn; [set_solver|done|]. rewrite IH. set_solver. Qed.
Lemma present_arrives events tx : present (events ++ [Arrives tx]) = present events ++ [tx].
Proof.
  induction events as [|[tx'|r] events IH]; cbn; [by rewrite decide_False by set_solver| |done].
  rewrite departed_app. cbn. rewrite IH. case_decide; case_decide; set_solver.
Qed.
Lemma present_leave events r : present (events ++ [Leave r]) = filter (fun tx => l_txid tx ∉ r) (present events).
Proof.
  induction events as [|[tx'|r'] events IH]; cbn; [done| |done]. rewrite departed_app. cbn. rewrite IH.
  case_decide; case_decide; rewrite ?filter_cons; try case_decide; set_solver.
Qed.
Lemma last_issued_arrives events tx a row :
  last_issued (events ++ [Arrives tx]) a row <-> issues tx a = Some row \/ issues tx a = None /\ last_issued events a row.
Proof.
  split.
  - intros (before & tx0 & after & He & Hr & Hd & Hn). destruct after as [|e after _] using rev_ind.
    + apply app_inj_tail in He as [_ [= <-]]. by left.
    + change (before ++ Arrives tx0 :: after ++ [e]) with (before ++ (Arrives tx0 :: after) ++ [e]) in He. rewrite app_assoc in He.
      apply app_inj_tail in He as [-> <-]. right. split; [apply Hn; set_solver|]. exists before, tx0, after.
      rewrite departed_app in Hd. split_and!; [done|done|set_solver|]. intros tx' Ht. apply Hn. set_solver.
  - intros [Hr|(Hn & before & tx0 & after & -> & Hr & Hd & Ha)].
    + exists events, tx, []. split_and!; [done|done|set_solver|]. intros tx' []%elem_of_nil.
    + exists before, tx0, (after ++ [Arrives tx]). rewrite <- app_assoc. cbn. rewrite departed_app. split_and!; [done|done|set_solver|].
      intros tx' [Ht|[= ->]%list_elem_of_singleton]%elem_of_app; auto.
Qed.
Lemma issues_txid tx a row : issues tx a = Some row -> issuance_txid row = l_txid tx.
Proof.
  unfold issues. intros Hl%last_Some_elem_of. apply elem_of_map in Hl as ([b r] & -> & [_ Hin]%list_elem_of_filter). by apply tx_issuances_ok in Hin as [].
Qed.
Lemma last_issued_leave events r a row : last_issued (events ++ [Leave r]) a row <-> last_issued events a row /\ issuance_txid row ∉ r.
Proof.
  split.
  - intros (before & tx0 & after & He & Hr & Hd & Hn). destruct after as [|e after _] using rev_ind; [by apply app_inj_tail in He as [_ [=]]|].
    change (before ++ Arrives tx0 :: after ++ [e]) with (before ++ (Arrives tx0 :: after) ++ [e]) in He. rewrite app_assoc in He.
    apply app_inj_tail in He as [-> <-]. rewrite departed_app in Hd. cbn in Hd. rewrite (issues_txid _ _ _ Hr). split; [|set_solver].
    exists before, tx0, after. split_and!; [done|done|set_solver|]. intros tx' Ht. apply Hn. set_solver.
  - intros ((before & tx0 & after & -> & Hr & Hd & Ha) & Hx). rewrite (issues_txid _ _ _ Hr) in Hx.
    exists before, tx0, (after ++ [Leave r]). rewrite <- app_assoc, departed_app. cbn. split_and!; [done|done|set_solver|].
    intros tx' [Ht|[=]%list_elem_of_singleton]%elem_of_app; auto.
Qed.
Lemma insert_all_last {K V} `{Countable K} (l : list (K * V)) (m : gmap K V) k :
  fold_left (fun m e => <[e.1 := e.2]> m) l m !! k = match last (map snd (filter (fun e => e.1 = k) l)) with Some v => Some v | None => m !! k end.
Proof.
  revert m. induction l as [|[k0 v0] l IH]; intros m; cbn [fold_left fst snd]; [done|]. rewrite IH, filter_cons. cbn [fst].
  destruct (decide (k0 = k)) as [->|Hk].
  - cbn [map]. rewrite last_cons. destruct (last _); [done|]. by rewrite lookup_insert_eq.
  - by rewrite lookup_insert_ne.
Qed.
Lemma assets_after_ok events : exists m, assets_after events = Ok m /\ history_exact m (present events) /\
  forall a row, mp_asset_issuance m !! a = Some row <-> last_issued events a row.
Proof.
  induction events as [|e events (m & Hm & Hh & Hi)] using rev_ind.
  { eexists. split; [done|]. split; [done|]. intros a row. split; [done|]. intros (before & tx & after & He & _). by destruct before. }
  unfold assets_after in *. rewrite fold_left_app, Hm. cbn [fold_left asset_event mbind result_bind]. destruct e as [tx|r].
  - destruct (index_mempool_tx_assets network parent_network tx m) as [m'| | |] eqn:E;
      [|by unfold index_mempool_tx_assets in E; rewrite index_tx_assets_eq in E..].
    exists m'. split; [done|]. rewrite present_arrives. split; [exact (history_add _ _ _ _ Hh E)|]. intros a row. rewrite last_issued_arrives, <- Hi.
    unfold index_mempool_tx_assets in E. rewrite index_tx_assets_eq in E. injection E as <-. cbn [mp_asset_issuance fst snd].
    rewrite insert_all_last. fold (issues tx a). destruct (issues tx a); naive_solver.
  - exists (remove_mempool_tx_assets r m). split; [done|]. rewrite present_leave. split; [by apply history_remove|].
    intros a row. rewrite last_issued_leave, <- Hi. cbn. by rewrite map_lookup_filter_Some.
Qed.
End indexing.

(** ** Statistics as functions of the entries *)

(** What an entry adds when it is the first of its transaction ([new]). *)
Definition issued_bump (st : IssuedAssetStats) (p : bool * LTxHistoryInfo) : IssuedAssetStats :=
  let '(mkIssuedStats txs issuances issued burned blinded tokens burned_tokens) := st in
  match p.2 with
  | Issuing _ _ is_re issued_amount token_amount =>
      mkIssuedStats (incr p.1 txs) (wrap64 (issuances + 1)) (match issued_amount with Some a => wrap64 (issued + a) | None => issued end) burned
        (match issued_amount with Some _ => blinded | None => true end) (if negb is_re then token_amount else tokens) burned_tokens
  | Burning _ _ value => mkIssuedStats (incr p.1 txs) issuances issued (wrap64 (burned + value)) blinded tokens burned_tokens
  | _ => st
  end.
Definition pegged_bump (st : PeggedAssetStats) (p : bool * LTxHistoryInfo) : PeggedAssetStats :=
  let '(mkPeggedStats txs ins ins_amount outs outs_amount burns burned) := st in
  let txs := incr p.1 txs in
  match p.2 with
  | Pegin _ _ value => mkPeggedStats txs (wrap64 (ins + 1)) (wrap64 (ins_amount + value)) outs outs_amount burns burned
  | Pegout _ _ value => mkPeggedStats txs ins ins_amount (wrap64 (outs + 1)) (wrap64 (outs_amount + value)) burns burned
  | Burning _ _ value => mkPeggedStats txs ins ins_amount outs outs_amount (wrap64 (burns + 1)) (wrap64 (burned + value))
  | _ => mkPeggedStats txs ins ins_amount outs outs_amount burns burned
  end.
Definition issued_kind (info : LTxHistoryInfo) : Prop := match info with Issuing _ _ _ _ _ | Burning _ _ _ => True | _ => False end.
Definition pegged_kind (info : LTxHistoryInfo) : Prop := match info with LFunding _ _ _ | LSpending _ _ _ _ _ => False | _ => True end.

(** Which entries are the first of their transaction. *)
Fixpoint news (seen : gset Txid) (l : list LTxHistoryInfo) : list (bool * LTxHistoryInfo) :=
  match l with
  | [] => []
  | info :: l => (bool_decide (linfo_txid info ∉ seen), info) :: news ({[linfo_txid info]} ∪ seen) l
  end.
Abbreviation BlockRows := (list (LHistoryRow * BlockId)).
Abbreviation row_txid p := (linfo_txid (lr_info p)).
Fixpoint chain_news (seen : gset Txid) (lastblock : option BlockHash) (rows : BlockRows) : list (bool * LTxHistoryInfo) :=
  match rows with
  | [] => []
  | (row, b) :: rows =>
      let seen := if bool_decide (lastblock <> Some (bid_hash b)) then ∅ else seen in
      (bool_decide (row_txid row ∉ seen), lr_info row) :: chain_news ({[row_txid row]} ∪ seen) (Some (bid_hash b)) rows
  end.

(** A statistic that looks at an entry and whether it is the first of its transaction. *)
Class StatFn {T} (apply_fn : LTxHistoryInfo -> T -> gset Txid -> result (T * gset Txid)) (bump : T -> bool * LTxHistoryInfo -> T)
    (kind : LTxHistoryInfo -> Prop) : Prop :=
  stat_fn info st seen : kind info -> apply_fn info st seen = Ok (bump st (bool_decide (linfo_txid info ∉ seen), info), {[linfo_txid info]} ∪ seen).
#[export] Instance issued_stat_fn : StatFn apply_issued_asset_stats issued_bump issued_kind.
Proof. intros [] [] seen; cbn; done. Qed.
#[export] Instance pegged_stat_fn : StatFn apply_pegged_asset_stats pegged_bump pegged_kind.
Proof. intros [] [] seen; cbn; done. Qed.

Section folds.
Context {T : Type} {apply_fn : LTxHistoryInfo -> T -> gset Txid -> result (T * gset Txid)} {bump : T -> bool * LTxHistoryInfo -> T}.
Context {kind : LTxHistoryInfo -> Prop} {SF : StatFn apply_fn bump kind}.

Lemma mempool_loop_news l st seen : Forall kind l -> mempool_loop apply_fn st seen l = Ok (fold_left bump (news seen l) st).
Proof. intros Hl. revert st seen. induction Hl as [|info l Hi _ IH]; intros st seen; [done|]. cbn. rewrite stat_fn by done. cbn. apply IH. Qed.
Definition last_hash (lb : option BlockHash) (rows : BlockRows) : option BlockHash :=
  match last rows with None => lb | Some p => Some (bid_hash p.2) end.
Lemma delta_loop_news rows st seen lb : Forall (fun p => kind (lr_info p.1)) rows ->
  delta_loop apply_fn st seen lb rows = Ok (fold_left bump (chain_news seen lb rows) st, last_hash lb rows).
Proof.
  intros Hl. revert st seen lb. induction Hl as [|[row b] rows Hi _ IH]; intros st seen lb; [done|]. cbn [delta_loop chain_news fold_left].
  rewrite stat_fn by done. cbn [mbind result_bind fst snd]. rewrite IH. unfold last_hash. rewrite last_cons. by destruct (last rows).
Qed.
End folds.
Lemma chain_news_app rows rows' seen lb : (forall p, head rows' = Some p -> last_hash lb rows <> Some (bid_hash p.2)) ->
  chain_news seen lb (rows ++ rows') = chain_news seen lb rows ++ chain_news ∅ None rows'.
Proof.
  revert seen lb. induction rows as [|[row b] rows IH]; intros seen lb Hne; cbn [app chain_news].
  - destruct rows' as [|[row b] rows']; [done|]. cbn [chain_news]. specialize (Hne _ eq_refl). cbn in Hne. by rewrite (bool_decide_true (lb <> _)), (bool_decide_true (None <> _)) by done.
  - f_equal. apply IH. intros p Hp. specialize (Hne p Hp). unfold last_hash in *. rewrite last_cons in Hne. by destruct (last rows).
Qed.

(** ** What the numbers count *)

Definition txids_in (l : list LTxHistoryInfo) : gset Txid := list_to_set (map linfo_txid l).
Definition is_issuing (i : LTxHistoryInfo) : bool := match i with Issuing _ _ _ _ _ => true | _ => false end.
Definition is_burning (i : LTxHistoryInfo) : bool := match i with Burning _ _ _ => true | _ => false end.
Definition is_pegin_ (i : LTxHistoryInfo) : bool := match i with Pegin _ _ _ => true | _ => false end.
Definition is_pegout (i : LTxHistoryInfo) : bool := match i with Pegout _ _ _ => true | _ => false end.
Definition is_blinded (i : LTxHistoryInfo) : bool := match i with Issuing _ _ _ None _ => true | _ => false end.
Definition info_amount (i : LTxHistoryInfo) : Z :=
  match i with Issuing _ _ _ amount _ => default 0%Z amount | Burning _ _ v | Pegin _ _ v | Pegout _ _ v => v | _ => 0%Z end.
Definition number (p : LTxHistoryInfo -> bool) (l : list LTxHistoryInfo) : Z := Z.of_nat (length (filter (fun i => p i = true) l)).
Definition total (p : LTxHistoryInfo -> bool) (l : list LTxHistoryInfo) : Z := sum_Z (map info_amount (filter (fun i => p i = true) l)).
(** The tokens of the initial issuance. *)
Definition token_amounts (l : list LTxHistoryInfo) : option Z :=
  fold_left (fun acc i => match i with Issuing _ _ false _ tokens => tokens | _ => acc end) l None.
Definition issued_counts (l : list LTxHistoryInfo) : IssuedAssetStats :=
  mkIssuedStats (wrap64 (Z.of_nat (size (txids_in l)))) (wrap64 (number is_issuing l)) (wrap64 (total is_issuing l)) (wrap64 (total is_burning l))
    (existsb is_blinded l) (token_amounts l) 0.
Definition pegged_counts (l : list LTxHistoryInfo) : PeggedAssetStats :=
  mkPeggedStats (wrap64 (Z.of_nat (size (txids_in l)))) (wrap64 (number is_pegin_ l)) (wrap64 (total is_pegin_ l))
    (wrap64 (number is_pegout l)) (wrap64 (total is_pegout l)) (wrap64 (number is_burning l)) (wrap64 (total is_burning l)).

Lemma number_snoc p l i : number p (l ++ [i]) = if p i then (number p l + 1)%Z else number p l.
Proof. unfold number. rewrite filter_app, length_app, filter_cons. destruct (p i); [rewrite decide_True by done|rewrite decide_False by done]; cbn; lia. Qed.
Lemma total_snoc p l i : total p (l ++ [i]) = if p i then (total p l + info_amount i)%Z else total p l.
Proof. unfold total. rewrite filter_app, map_app, sum_Z_app, filter_cons. destruct (p i); [rewrite decide_True by done|rewrite decide_False by done]; cbn; lia. Qed.
Lemma txids_snoc l i : size (txids_in (l ++ [i])) = size (txids_in l) + if bool_decide (linfo_txid i ∉ txids_in l) then 1 else 0.
Proof.
  unfold txids_in. rewrite map_app, list_to_set_app_L. cbn. rewrite union_empty_r_L, (comm_L (∪)).
  case_bool_decide; [rewrite size_union, size_singleton by set_solver; lia|]. rewrite subseteq_union_1_L by set_solver. lia.
Qed.
Lemma tokens_snoc l i : token_amounts (l ++ [i]) = match i with Issuing _ _ false _ tokens => tokens | _ => token_amounts l end.
Proof. unfold token_amounts. by rewrite fold_left_app. Qed.
Lemma wrap64_step a b : wrap64 (wrap64 a + b) = wrap64 (a + b).
Proof. unfold wrap64. by rewrite Zplus_mod_idemp_l. Qed.
(** Each flag says whether the entry's transaction is new among the ones before. *)
Inductive flagged : list (bool * LTxHistoryInfo) -> list LTxHistoryInfo -> Prop :=
  | fl_nil : flagged [] []
  | fl_snoc ms l i : flagged ms l -> flagged (ms ++ [(bool_decide (linfo_txid i ∉ txids_in l), i)]) (l ++ [i]).
Lemma incr_step l i : incr (bool_decide (linfo_txid i ∉ txids_in l)) (wrap64 (Z.of_nat (size (txids_in l)))) = wrap64 (Z.of_nat (size (txids_in (l ++ [i])))).
Proof. rewrite txids_snoc. unfold incr. case_bool_decide; [rewrite wrap64_step; f_equal; lia|f_equal; lia]. Qed.
Lemma issued_flagged ms l : flagged ms l -> Forall issued_kind l -> fold_left issued_bump ms issued_default = issued_counts l.
Proof.
  induction 1 as [|ms l i _ IH]; [done|]. rewrite Forall_app, Forall_singleton. intros [Hl Hi]. rewrite fold_left_app, (IH Hl). cbn [fold_left].
  unfold issued_counts, issued_bump. cbn [fst snd]. rewrite incr_step, !number_snoc, !total_snoc, existsb_app, tokens_snoc.
  destruct i as [| |? ? [] [] ?|? ? v| |]; try done; cbn; rewrite ?wrap64_step, ?orb_false_r, ?orb_true_r, ?Z.add_0_r; done.
Qed.
Lemma pegged_flagged ms l : flagged ms l -> Forall pegged_kind l -> fold_left pegged_bump ms pegged_default = pegged_counts l.
Proof.
  induction 1 as [|ms l i _ IH]; [done|]. rewrite Forall_app, Forall_singleton. intros [Hl Hi]. rewrite fold_left_app, (IH Hl). cbn [fold_left].
  unfold pegged_counts, pegged_bump. cbn [fst snd]. rewrite incr_step, !number_snoc, !total_snoc. destruct i; try done; cbn; by rewrite ?wrap64_step.
Qed.
Lemma txids_in_snoc l i : txids_in (l ++ [i]) = {[linfo_txid i]} ∪ txids_in l.
Proof. unfold txids_in. rewrite map_app, list_to_set_app_L. cbn. set_solver. Qed.
Lemma news_flagged l : flagged (news ∅ l) l.
Proof.
  assert (forall pre ms, flagged ms pre -> flagged (ms ++ news (txids_in pre) l) (pre ++ l)) as Hg; [|by apply (Hg [] []); constructor].
  induction l as [|i l IH]; intros pre ms Hf; cbn [news]; [by rewrite !app_nil_r|].
  rewrite (cons_middle i), (cons_middle (_, i)), !app_assoc, <- txids_in_snoc. apply IH. by constructor.
Qed.

Definition infos (rows : BlockRows) : list LTxHistoryInfo := map (fun p => lr_info p.1) rows.
(** Rows are ordered by block, and a transaction's are of one block. *)
Record by_block (rows : BlockRows) : Prop := {
  bb_sorted : StronglySorted (fun p p' => bid_height p.2 <= bid_height p'.2) rows;
  bb_height p p' : p ∈ rows -> p' ∈ rows -> bid_height p.2 = bid_height p'.2 -> p.2 = p'.2;
  bb_hash p p' : p ∈ rows -> p' ∈ rows -> bid_hash p.2 = bid_hash p'.2 -> p.2 = p'.2;
  bb_tx p p' : p ∈ rows -> p' ∈ rows -> row_txid p.1 = row_txid p'.1 -> p.2 = p'.2 }.
(** A block that was met before is that of the last row. *)
Lemma block_in_last pre p rows p1 : by_block (pre ++ p :: rows) -> p1 ∈ pre -> p1.2 = p.2 -> last_hash None pre = Some (bid_hash p.2).
Proof.
  intros Hb H1 E.
  destruct (last pre) as [pl|] eqn:El; [|by apply last_None in El as ->; apply elem_of_nil in H1].
  unfold last_hash. rewrite El. do 2 f_equal. pose proof (last_Some_elem_of _ _ El) as Hpl.
  apply (bb_height _ Hb); [set_solver|set_solver|]. pose proof (bb_sorted _ Hb) as Hs. apply StronglySorted_app in Hs as (Hlt & Hs & _).
  apply Nat.le_antisymm; [by apply Hlt; [|left]|]. rewrite <- E. apply last_Some in El as [l ->]. apply StronglySorted_app in Hs as (Hlt' & _ & _).
  apply elem_of_app in H1 as [H1|H1%list_elem_of_singleton]; [by apply Hlt'; [|left]|by subst].
Qed.
Lemma elem_of_txids_in x rows : x ∈ txids_in (infos rows) <-> exists p, p ∈ rows /\ row_txid p.1 = x.
Proof. unfold txids_in, infos. rewrite elem_of_list_to_set, elem_of_map. setoid_rewrite elem_of_map. naive_solver. Qed.
Lemma chain_news_flagged rows : by_block rows -> flagged (chain_news ∅ None rows) (infos rows).
Proof.
  assert (forall pre ms seen, by_block (pre ++ rows) -> flagged ms (infos pre) ->
    (forall x, x ∈ seen <-> exists p, p ∈ pre /\ last_hash None pre = Some (bid_hash p.2) /\ row_txid p.1 = x) ->
    flagged (ms ++ chain_news seen (last_hash None pre) rows) (infos (pre ++ rows))) as Hg.
  2: { intros Hb. apply (Hg [] [] ∅); [done|constructor|]. set_solver. }
  induction rows as [|[r b] rows IH]; intros pre ms seen Hb Hf Hseen; cbn [chain_news]; [by rewrite !app_nil_r|].
  assert (forall x, x ∈ (if bool_decide (last_hash None pre <> Some (bid_hash b)) then ∅ else seen) <->
    exists p, p ∈ pre /\ last_hash None pre = Some (bid_hash b) /\ bid_hash p.2 = bid_hash b /\ row_txid p.1 = x) as Hs.
  { intros x. case_bool_decide as E; [set_solver|]. rewrite Hseen, E. split; [intros (p & Hp & [= Hh] & Hx)|intros (p & Hp & _ & Hh & Hx)]; exists p; rewrite Hh; auto. }
  assert (row_txid r ∉ (if bool_decide (last_hash None pre <> Some (bid_hash b)) then ∅ else seen) <-> linfo_txid (lr_info r) ∉ txids_in (infos pre)) as Hnew.
  { rewrite Hs, elem_of_txids_in. split; intros Hn (p & Hp & Hx); apply Hn; exists p; [|tauto].
    assert (p.2 = b) as E by (apply (bb_tx _ Hb p (r, b)); [set_solver|set_solver|done]). rewrite E. split_and!; [done| |done..].
    by apply (block_in_last pre (r, b) rows p). }
  rewrite (bool_decide_ext _ _ Hnew), (cons_middle (r, b)), (cons_middle (_, lr_info r)), !app_assoc.
  set (seen' := if bool_decide (last_hash None pre <> Some (bid_hash b)) then ∅ else seen) in *.
  assert (last_hash None (pre ++ [(r, b)]) = Some (bid_hash b)) as Hlast by (unfold last_hash; by rewrite last_snoc).
  rewrite <- Hlast. apply IH; [by rewrite <- app_assoc| |].
  - unfold infos. rewrite map_app. by constructor.
  - intros x. rewrite elem_of_union, elem_of_singleton, Hs, Hlast. setoid_rewrite elem_of_app. setoid_rewrite list_elem_of_singleton. split.
    + intros [->|(p & Hp & _ & Hh & Hx)]; [by exists (r, b); auto|]. exists p. rewrite Hh. auto.
    + intros (p & [Hp|Hp] & Hh & Hx); [|subst p; by left]. injection Hh as Hh. right. exists p. split_and!; [done| |done..].
      apply (block_in_last pre (r, b) rows p Hb Hp). apply (bb_hash _ Hb p (r, b)); [set_solver|set_solver|done].
Qed.

(** ** The chain's promises *)

Section chain.
Context {EL : ElementsLib} (network : LNetwork) (parent_network : BNetwork).

(** The rows of an asset are in the order of their heights, and scanning from a height
    leaves out those below; each was indexed for a transaction, whose block, on the best
    chain, has the height of the row; there is one block at a height. *)
Class AssetChainLaws {C} {AC : AssetChain C} (c : C) : Prop := {
  acl_scan a n : asset_history_scan c a n = filter (fun r => (Z.of_nat n <= lr_height r)%Z) (asset_history_scan c a 0);
  acl_sorted a : StronglySorted (fun r r' => (lr_height r <= lr_height r')%Z) (asset_history_scan c a 0);
  acl_indexed a r : r ∈ asset_history_scan c a 0 -> exists tx, (a, lr_info r) ∈ tx_history network parent_network tx;
  acl_confirmed a r : r ∈ asset_history_scan c a 0 -> exists b, asset_confirming_block c (row_txid r) = Some b /\
    lr_height r = Z.of_nat (bid_height b) /\ asset_height_by_hash c (bid_hash b) = Some (bid_height b);
  acl_block txid txid' b b' : asset_confirming_block c txid = Some b -> asset_confirming_block c txid' = Some b' -> bid_height b = bid_height b' -> b = b';
  acl_issuance a row : asset_issuance_row c a = Some row -> exists tx, (a, row) ∈ tx_issuances network parent_network tx }.
Class StatsCodecLaws T {SC : StatsCodec T} : Prop := dec_enc (p : T * BlockHash) : dec_stats (enc_stats p) = Some p.

Context {C : Type} {AC : AssetChain C} (c : C) {ACL : AssetChainLaws c}.

Definition asset_rows (a : AssetId) : BlockRows := confirmed_asset_rows c a 0.
Definition asset_infos (a : AssetId) : list LTxHistoryInfo := map lr_info (asset_history_scan c a 0).
Lemma confirmed_all rows : (forall r, r ∈ rows -> exists b, asset_confirming_block c (row_txid r) = Some b /\ lr_height r = Z.of_nat (bid_height b)) ->
  exists ps : BlockRows, rows = map fst ps /\
    (forall n, omap (fun r => pair r <$> asset_confirming_block c (row_txid r)) (filter (fun r => (Z.of_nat n <= lr_height r)%Z) rows) =
      filter (fun p => n <= bid_height p.2) ps) /\
    Forall (fun p => asset_confirming_block c (row_txid p.1) = Some p.2 /\ lr_height p.1 = Z.of_nat (bid_height p.2)) ps.
Proof.
  induction rows as [|r rows IH]; intros Hr; [by exists []|]. destruct (Hr r ltac:(by left)) as (b & Hb & Hh).
  destruct IH as (ps & -> & Hps & Hf); [intros; apply Hr; by right|]. exists ((r, b) :: ps). split; [done|]. split; [|by constructor].
  intros n. rewrite !filter_cons. cbn [snd]. destruct (decide (n <= bid_height b)).
  - rewrite decide_True by lia. cbn [omap list_omap]. rewrite Hb. cbn. f_equal. apply Hps.
  - rewrite decide_False by lia. apply Hps.
Qed.
Lemma asset_rows_spec a : map fst (asset_rows a) = asset_history_scan c a 0 /\
  (forall n, confirmed_asset_rows c a n = filter (fun p => n <= bid_height p.2) (asset_rows a)) /\
  Forall (fun p => asset_confirming_block c (row_txid p.1) = Some p.2 /\ lr_height p.1 = Z.of_nat (bid_height p.2)) (asset_rows a).
Proof using ACL.
  destruct (confirmed_all (asset_history_scan c a 0)) as (ps & Hps & Hn & Hf); [intros r (b & ? & ? & _)%acl_confirmed; eauto|].
  assert (asset_rows a = ps) as ->; [|by rewrite Hps; split_and!; [| |]; [done| |done]; intros n; unfold confirmed_asset_rows; rewrite acl_scan; apply Hn].
  unfold asset_rows, confirmed_asset_rows. rewrite acl_scan, Hn. apply filter_all. lia.
Qed.
Lemma asset_rows_infos a : infos (asset_rows a) = asset_infos a.
Proof using ACL. unfold infos, asset_infos. destruct (asset_rows_spec a) as [<- _]. by rewrite map_map. Qed.
Lemma asset_row_facts a p : p ∈ asset_rows a -> p.1 ∈ asset_history_scan c a 0 /\ asset_confirming_block c (row_txid p.1) = Some p.2 /\
  lr_height p.1 = Z.of_nat (bid_height p.2) /\ asset_height_by_hash c (bid_hash p.2) = Some (bid_height p.2).
Proof using ACL.
  intros Hp. destruct (asset_rows_spec a) as (Hm & _ & Hf). rewrite Forall_forall in Hf. destruct (Hf p Hp) as [H1 H2].
  assert (p.1 ∈ asset_history_scan c a 0) as Hin by (rewrite <- Hm; apply elem_of_map; eauto). split_and!; try done.
  destruct (acl_confirmed a _ Hin) as (b & Hb & _ & Hh). rewrite H1 in Hb. by injection Hb as <-.
Qed.
Lemma asset_rows_by_block a : by_block (asset_rows a).
Proof using ACL.
  split.
  - pose proof (acl_sorted a) as Hs. destruct (asset_rows_spec a) as (Hm & _ & Hf). rewrite <- Hm in Hs. clear Hm.
    revert Hf Hs. generalize (asset_rows a) as ps. induction ps as [|p ps IH]; intros Hf Hs; [constructor|].
    apply Forall_cons in Hf as [[_ Hp] Hf]. cbn in Hs. apply StronglySorted_cons in Hs as [Hall Hs]. constructor; [by apply IH|].
    apply Forall_forall. intros p' Hp'. pose proof (proj1 (Forall_forall _ _) Hf p' Hp') as [_ Hh].
    pose proof (proj1 (Forall_forall _ _) Hall p'.1 ltac:(apply elem_of_map; eauto)) as Hle. cbn in Hle. lia.
  - intros p p' (_ & H1 & _)%asset_row_facts (_ & H2 & _)%asset_row_facts. by apply (acl_block _ _ _ _ H1 H2).
  - intros p p' (_ & H1 & _ & H3)%asset_row_facts (_ & H2 & _ & H4)%asset_row_facts Hh. apply (acl_block _ _ _ _ H1 H2). rewrite Hh in H3. congruence.
  - intros p p' (_ & H1 & _)%asset_row_facts (_ & H2 & _)%asset_row_facts Ht. rewrite Ht in H1. congruence.
Qed.

(** ** The cache *)

Definition upto (h : nat) (rows : BlockRows) : BlockRows := filter (fun p => bid_height p.2 <= h) rows.
Lemma split_at h rows : StronglySorted (fun p p' => bid_height p.2 <= bid_height p'.2) rows ->
  rows = upto h rows ++ filter (fun p => h + 1 <= bid_height p.2) rows.
Proof.
  induction 1 as [|p rows Hs IH Hf]; [done|]. unfold upto in *. rewrite !filter_cons. destruct (decide (bid_height p.2 <= h)).
  - rewrite decide_False by lia. cbn. by f_equal.
  - rewrite (decide_True (P := h + 1 <= _)) by lia. rewrite filter_none, (filter_all (fun p => h + 1 <= _)); [done|..];
      intros x Hx; pose proof (proj1 (Forall_forall _ _) Hf x Hx) as Hle; cbn in Hle; lia.
Qed.
Lemma by_block_upto h rows : by_block rows -> by_block (upto h rows).
Proof.
  intros [H1 H2 H3 H4]. unfold upto. split; [by apply StronglySorted_filter|..]; intros p p' [_ Hp]%list_elem_of_filter [_ Hp']%list_elem_of_filter; auto.
Qed.
Lemma last_height p rows : StronglySorted (fun p p' => bid_height p.2 <= bid_height p'.2) rows -> last rows = Some p -> upto (bid_height p.2) rows = rows.
Proof.
  intros Hs Hl. apply filter_all. intros x Hx. apply last_Some in Hl as [l ->]. apply StronglySorted_app in Hs as (Hlt & _ & _).
  apply elem_of_app in Hx as [Hx|Hx%list_elem_of_singleton]; [by apply Hlt; [|left]|by subst].
Qed.

Section cache.
Context {T : Type} {SC : StatsCodec T} {SCL : StatsCodecLaws T} (T_default : T).
Context {apply_fn : LTxHistoryInfo -> T -> gset Txid -> result (T * gset Txid)} {bump : T -> bool * LTxHistoryInfo -> T}.
Context {kind : LTxHistoryInfo -> Prop} {SF : StatFn apply_fn bump kind} (counts : list LTxHistoryInfo -> T).
Context (Hcounts : forall ms l, flagged ms l -> Forall kind l -> fold_left bump ms T_default = counts l).

(** A cached statistic counts the rows up to its block, if that is still on the chain. *)
Definition cached_ok (cache : AssetCache) (a : AssetId) : Prop := forall bytes, cache !! a = Some bytes ->
  exists st bh, dec_stats bytes = Some (st, bh) /\ forall h, asset_height_by_hash c bh = Some h -> st = counts (infos (upto h (asset_rows a))).
Lemma counts_rows rows : by_block rows -> Forall kind (infos rows) -> counts (infos rows) = fold_left bump (chain_news ∅ None rows) T_default.
Proof using Hcounts. intros Hb Hk. symmetry. apply Hcounts; [by apply chain_news_flagged|done]. Qed.
Lemma infos_app l l' : infos (l ++ l') = infos l ++ infos l'.
Proof. apply map_app. Qed.
Lemma delta_from a h : Forall kind (asset_infos a) ->
  chain_asset_stats_delta apply_fn c a (counts (infos (upto h (asset_rows a)))) (h + 1) =
    Ok (counts (asset_infos a), last_hash None (filter (fun p => h + 1 <= bid_height p.2) (asset_rows a))).
Proof using ACL Hcounts SF.
  intros Hk. pose proof (asset_rows_by_block a) as Hb. rewrite <- asset_rows_infos in Hk |- *. unfold chain_asset_stats_delta.
  destruct (asset_rows_spec a) as (_ & -> & _). pose proof (split_at h _ (bb_sorted _ Hb)) as Hsplit. set (above := filter _ _) in *.
  assert (Forall kind (infos (upto h (asset_rows a))) /\ Forall kind (infos above)) as [Hk1 Hk2] by (rewrite Hsplit, infos_app in Hk; by apply Forall_app).
  rewrite (delta_loop_news (bump := bump) (kind := kind)) by (exact (proj1 (Forall_map _ _ _) Hk2)). do 2 f_equal.
  rewrite counts_rows by (done || by apply by_block_upto). rewrite counts_rows by done. rewrite Hsplit at 2.
  rewrite chain_news_app, fold_left_app; [done|]. intros p Hp. unfold last_hash. destruct (last (upto h _)) as [p'|] eqn:El; [|done]. intros [= Hh].
  apply last_Some_elem_of in El. apply list_elem_of_filter in El as [Hle Hp']. apply head_Some_elem_of in Hp. apply list_elem_of_filter in Hp as [Hge Hp].
  pose proof (bb_hash _ Hb p' p Hp' Hp Hh) as E. rewrite E in Hle. lia.
Qed.
Lemma delta_all a : Forall kind (asset_infos a) ->
  chain_asset_stats_delta apply_fn c a T_default 0 = Ok (counts (asset_infos a), last_hash None (asset_rows a)).
Proof using ACL Hcounts SF.
  intros Hk. pose proof (asset_rows_by_block a) as Hb. rewrite <- asset_rows_infos in Hk |- *. unfold chain_asset_stats_delta. fold (asset_rows a).
  rewrite (delta_loop_news (bump := bump) (kind := kind)) by (exact (proj1 (Forall_map _ _ _) Hk)). by rewrite counts_rows.
Qed.
Lemma chain_asset_stats_exact a cache : Forall kind (asset_infos a) -> cached_ok cache a ->
  exists cache', chain_asset_stats T_default apply_fn c a cache = (cache', Ok (counts (asset_infos a))) /\ cached_ok cache' a /\
    forall a', a' <> a -> cache' !! a' = cache !! a'.
Proof using ACL Hcounts SF SCL.
  intros Hk Hc. unfold chain_asset_stats.
  assert (exists p, (c0 ← (match cache !! a with Some c => Some <$> unwrap (dec_stats c) | None => Ok None end);
         match c0 ≫= (fun p => pair p.1 <$> asset_height_by_hash c p.2) with
         | None => chain_asset_stats_delta apply_fn c a T_default 0
         | Some (oldstats, blockheight) => chain_asset_stats_delta apply_fn c a oldstats (blockheight + 1)
         end) = Ok (counts (asset_infos a), last_hash None p) /\ forall x, last p = Some x -> last (asset_rows a) = Some x) as (p & -> & Hp).
  { destruct (cache !! a) as [bytes|] eqn:E; [|cbn; rewrite (delta_all a Hk); eauto]. destruct (Hc bytes E) as (st & bh & -> & Hst). cbn.
    destruct (asset_height_by_hash c bh) as [h|] eqn:Eh; cbn; [|rewrite (delta_all a Hk); eauto]. rewrite (Hst h eq_refl), (delta_from a h Hk).
    eexists. split; [done|]. intros x Hx. by rewrite (split_at h _ (bb_sorted _ (asset_rows_by_block a))), last_app, Hx. }
  eexists. split; [done|]. unfold last_hash. destruct (last p) as [x|]; [|done]. split; [|intros; by apply lookup_insert_ne].
  intros bytes. rewrite lookup_insert_eq. intros [= <-]. rewrite dec_enc. do 2 eexists. split; [done|]. intros h Hh.
  specialize (Hp x eq_refl). destruct (asset_row_facts a x (last_Some_elem_of _ _ Hp)) as (_ & _ & _ & Hx). assert (h = bid_height x.2) as -> by congruence.
  by rewrite (last_height x _ (bb_sorted _ (asset_rows_by_block a)) Hp), asset_rows_infos.
Qed.
End cache.
End chain.

(** ** Looking up *)

Section lookups.
Context {EL : ElementsLib} (network : LNetwork) (parent_network : BNetwork).
Lemma entry_kinds tx a info : (a, info) ∈ tx_history network parent_network tx -> pegged_kind info /\ (pegged_asset network <> Some a -> issued_kind info).
Proof. intros [_ Hok]%tx_history_ok. by destruct info. Qed.
Lemma mempool_kinds a txs : Forall pegged_kind (mempool_entries network parent_network a txs) /\
  (pegged_asset network <> Some a -> Forall issued_kind (mempool_entries network parent_network a txs)).
Proof.
  assert (forall info, info ∈ mempool_entries network parent_network a txs -> exists tx, (a, info) ∈ tx_history network parent_network tx) as Hin.
  { unfold mempool_entries, entries_under. intros info (e & -> & [<- He]%list_elem_of_filter)%elem_of_map. apply elem_of_concat in He as (l & Hl & He).
    apply elem_of_map in Hl as (tx & -> & _). exists tx. by destruct e. }
  split; [|intros Ha]; apply Forall_forall; intros info (tx & Hx)%Hin; by apply (entry_kinds tx a).
Qed.
Lemma mempool_stats_exact {T} (T_default : T) {apply_fn bump kind} `{!StatFn apply_fn bump kind} (counts : list LTxHistoryInfo -> T) m txs a :
  (forall ms l, flagged ms l -> Forall kind l -> fold_left bump ms T_default = counts l) ->
  history_exact network parent_network m txs -> Forall kind (mempool_entries network parent_network a txs) ->
  mempool_asset_stats T_default apply_fn m a = Ok (counts (mempool_entries network parent_network a txs)).
Proof.
  intros Hc Hh Hk. unfold mempool_asset_stats. rewrite Hh. rewrite <- (Hc (news ∅ (mempool_entries network parent_network a txs))) by (done || apply news_flagged).
  destruct (mempool_entries _ _ a txs) as [|i l]; [done|]. cbn [nonempty]. by apply mempool_loop_news.
Qed.

Context {C : Type} {AC : AssetChain C} (c : C) {ACL : AssetChainLaws network parent_network c}.
Context {SCI : StatsCodec IssuedAssetStats} {SCIL : StatsCodecLaws IssuedAssetStats} {SCP : StatsCodec PeggedAssetStats} {SCPL : StatsCodecLaws PeggedAssetStats}.
Lemma chain_kinds a : Forall pegged_kind (asset_infos c a) /\ (pegged_asset network <> Some a -> Forall issued_kind (asset_infos c a)).
Proof using ACL.
  split; [|intros Ha]; apply Forall_forall; intros info (r & -> & Hr)%elem_of_map; destruct (acl_indexed network parent_network a r Hr) as [tx Hx]; by apply (entry_kinds tx a).
Qed.
(** Every cached entry is sound: the pegged asset's of its statistics, the others' of theirs. *)
Definition cache_sound (cache : AssetCache) : Prop := forall a,
  if decide (pegged_asset network = Some a) then cached_ok c pegged_counts cache a else cached_ok c issued_counts cache a.
Lemma cache_sound_update cache cache' a : cache_sound cache ->
  (if decide (pegged_asset network = Some a) then cached_ok c pegged_counts cache' a else cached_ok c issued_counts cache' a) ->
  (forall a', a' <> a -> cache' !! a' = cache !! a') -> cache_sound cache'.
Proof.
  intros Hs Ha Hne a'. destruct (decide (a' = a)) as [->|Hd]; [done|]. specialize (Hs a'). unfold cached_ok in *. rewrite (Hne a' Hd). done.
Qed.
Lemma chain_issued a cache : pegged_asset network <> Some a -> cache_sound cache ->
  exists cache', chain_asset_stats issued_default apply_issued_asset_stats c a cache = (cache', Ok (issued_counts (asset_infos c a))) /\ cache_sound cache'.
Proof using ACL SCIL.
  intros Ha Hs. pose proof (Hs a) as Hc. rewrite decide_False in Hc by done.
  destruct (chain_asset_stats_exact network parent_network c issued_default issued_counts issued_flagged a cache (proj2 (chain_kinds a) Ha) Hc) as (cache' & -> & Hc' & Hne).
  eexists. split; [done|]. apply (cache_sound_update cache cache' a); [done| |done]. by rewrite decide_False.
Qed.
Lemma chain_pegged a cache : pegged_asset network = Some a -> cache_sound cache ->
  exists cache', chain_asset_stats pegged_default apply_pegged_asset_stats c a cache = (cache', Ok (pegged_counts (asset_infos c a))) /\ cache_sound cache'.
Proof using ACL SCPL.
  intros Ha Hs. pose proof (Hs a) as Hc. rewrite decide_True in Hc by done.
  destruct (chain_asset_stats_exact network parent_network c pegged_default pegged_counts pegged_flagged a cache (proj1 (chain_kinds a)) Hc) as (cache' & -> & Hc' & Hne).
  eexists. split; [done|]. apply (cache_sound_update cache cache' a); [done| |done]. by rewrite decide_True.
Qed.
End lookups.

(** What an answer says of an asset. *)
Definition answer_exact `{ElementsLib} {C} `{AssetChain C} network parent_network (c : C) txs (get_tx_status : Txid -> TransactionStatus)
    (registry : option AssetRegistry) (a : AssetId) (meta : option AssetMeta) (answer : option LiquidAsset) : Prop :=
  let unconfirmed := mempool_entries network parent_network in
  match answer with
  | None => pegged_asset network <> Some a /\ asset_issuance_row c a = None /\ (forall row, (a, row) ∉ concat (map (tx_issuances network parent_network) txs))
  | Some (Native p) => pegged_asset network = Some a /\
      p = mkPeggedAsset a (pegged_counts (asset_infos c a)) (pegged_counts (unconfirmed a txs))
  | Some (Issued i) => pegged_asset network <> Some a /\ exists row contract_hash,
      (asset_issuance_row c a = Some row \/ asset_issuance_row c a = None /\ (a, row) ∈ concat (map (tx_issuances network parent_network) txs)) /\
      let token := reissuance_token row in
      i = mkIssuedAsset a (issuance_txid row, issuance_vin row) (mkOutPoint (prev_txid row) (prev_vout row)) token contract_hash
            (get_tx_status (issuance_txid row))
            (set_burned_tokens (wrap64 (total is_burning (asset_infos c token))) (issued_counts (asset_infos c a)))
            (set_burned_tokens (wrap64 (total is_burning (unconfirmed token txs))) (issued_counts (unconfirmed a txs)))
            (meta ∪ (registry ≫= fun r => registry_get r a))
  end.
Lemma issued_stats_exact {EL : ElementsLib} network parent_network {C} {AC : AssetChain C} (c : C) `{!AssetChainLaws network parent_network c}
    `{StatsCodecLaws IssuedAssetStats} `{StatsCodecLaws PeggedAssetStats} m txs a token cache :
  assets_exact network parent_network m txs -> cache_sound network c cache -> pegged_asset network <> Some a -> pegged_asset network <> Some token ->
  exists cache', issued_asset_stats c m a token cache = (cache', Ok
      (set_burned_tokens (wrap64 (total is_burning (asset_infos c token))) (issued_counts (asset_infos c a)),
       set_burned_tokens (wrap64 (total is_burning (mempool_entries network parent_network token txs))) (issued_counts (mempool_entries network parent_network a txs)))) /\
    cache_sound network c cache'.
Proof.
  intros He Hs Ha Ht. unfold issued_asset_stats, mbind, SR_bind, lift.
  destruct (chain_issued network parent_network c a cache Ha Hs) as (c1 & -> & Hs1).
  destruct (chain_issued network parent_network c token c1 Ht Hs1) as (c2 & -> & Hs2).
  rewrite (mempool_stats_exact network parent_network issued_default issued_counts m txs a issued_flagged (proj1 He)) by (by apply mempool_kinds).
  rewrite (mempool_stats_exact network parent_network issued_default issued_counts m txs token issued_flagged (proj1 He)) by (by apply mempool_kinds).
  by exists c2.
Qed.

(** C35: Whatever transactions arrive and leave, in any order and whatever they issue,
    indexing never fails, and of the mempool's two maps the history lists for an asset, and
    only when there are any, the issuances, burns and pegs of the transactions that are
    there, in the order in which they came; the issuance map holds for an asset the row of
    the transaction that was the last to arrive of those that issue it, until that one
    leaves.  The statistics read from the mempool are then the counts and sums of those
    entries, the pegged asset's of pegs and burns and any other's of issuances and burns,
    each transaction counted once, without reaching an [unreachable!]. *)
Theorem mempool_assets_exact {EL : ElementsLib} network parent_network events a :
  let entries := mempool_entries network parent_network a (present events) in
  exists m, assets_after network parent_network events = Ok m /\
    asset_history m !! a = nonempty entries /\
    (forall row, mp_asset_issuance m !! a = Some row <-> last_issued network parent_network events a row) /\
    if decide (pegged_asset network = Some a)
    then mempool_asset_stats pegged_default apply_pegged_asset_stats m a = Ok (pegged_counts entries)
    else mempool_asset_stats issued_default apply_issued_asset_stats m a = Ok (issued_counts entries).
Proof.
  destruct (assets_after_ok network parent_network events) as (m & Hm & Hh & Hi). exists m. split_and!; [done|apply Hh|apply Hi|].
  destruct (mempool_kinds network parent_network a (present events)) as [Hp Hk]. case_decide.
  - exact (mempool_stats_exact network parent_network pegged_default pegged_counts m _ a pegged_flagged Hh Hp).
  - apply (mempool_stats_exact network parent_network issued_default issued_counts m _ a issued_flagged Hh). by apply Hk.
Qed.

(** Looking an asset up.  With a store of the chain that keeps [AssetChainLaws], no two
    transactions of the mempool that issue one asset, and any sound cache, a lookup succeeds
    without reaching an [unreachable!]; the pegged
    asset is answered with the pegs and burns of all its confirmed rows and of its
    unconfirmed entries, an issued one with its issuance row and the issuances and burns
    of the asset and of its reissuance token, counted once each, and an asset that was
    never issued with nothing.  The cache stays sound. *)
Lemma asset_lookup_exact {EL : ElementsLib} network parent_network {C} {AC : AssetChain C} (c : C) `{!AssetChainLaws network parent_network c}
    `{StatsCodecLaws IssuedAssetStats} `{StatsCodecLaws PeggedAssetStats} m txs get_tx_status registry a meta cache :
  (forall i, deserialize_issuance (serialize_issuance i) = Some i) ->
  (forall entropy confidential, pegged_asset network <> Some (reissuance_token_from_entropy entropy confidential)) ->
  assets_reachable network parent_network m txs -> cache_sound network c cache ->
  exists cache' answer, lookup_asset network c m get_tx_status registry a meta cache = (cache', Ok answer) /\ cache_sound network c cache' /\
    answer_exact network parent_network c txs get_tx_status registry a meta answer.
Proof.
  intros Hser Htok Hm Hs. apply assets_reachable_exact in Hm as He. unfold lookup_asset. case_bool_decide as Ha.
  { unfold pegged_asset_stats, mbind, SR_bind, lift, mret, SR_ret.
    destruct (chain_pegged network parent_network c a cache Ha Hs) as (c1 & -> & Hs1).
    rewrite (mempool_stats_exact network parent_network pegged_default pegged_counts m txs a pegged_flagged (proj1 He)) by apply mempool_kinds.
    do 2 eexists. split; [done|]. by split. }
  assert (forall row, asset_issuance_row c a ∪ mp_asset_issuance m !! a = Some row ->
    (exists tx, (a, row) ∈ tx_issuances network parent_network tx) /\
    (asset_issuance_row c a = Some row \/ asset_issuance_row c a = None /\ (a, row) ∈ concat (map (tx_issuances network parent_network) txs))) as Hrow.
  { intros row Hr. destruct (asset_issuance_row c a) as [r|] eqn:E.
    - assert (r = row) as -> by (destruct (mp_asset_issuance m !! a); by injection Hr). split; [by apply (acl_issuance network parent_network a row)|by left].
    - assert (mp_asset_issuance m !! a = Some row) as Hr' by (by destruct (mp_asset_issuance m !! a)). apply He in Hr' as Hin. split; [|by right].
      apply elem_of_concat in Hin as (l & Hl & Hin). apply elem_of_map in Hl as (tx & -> & _). eauto. }
  destruct (asset_issuance_row c a ∪ mp_asset_issuance m !! a) as [row|] eqn:Er.
  - destruct (Hrow row eq_refl) as [(tx & Hok) Hin]. apply tx_issuances_ok in Hok as (_ & (entropy & conf & Ht) & i & Hi). cbn in Ht, Hi.
    destruct (issued_stats_exact network parent_network c m txs a (reissuance_token row) cache He Hs Ha) as (c1 & Hst & Hs1); [by rewrite Ht|].
    unfold mbind, SR_bind, lift, mret, SR_ret. rewrite Hst. unfold IssuedAsset_new. rewrite Hi, Hser. cbn.
    do 2 eexists. split; [done|]. split; [done|]. split; [done|]. by exists row, (if bool_decide (asset_entropy i <> NEW_ISSUANCE) then Some (asset_entropy i) else None).
  - exists cache, None. split; [done|]. split; [done|]. split; [done|]. destruct (asset_issuance_row c a); [by destruct (mp_asset_issuance m !! a)|].
    split; [done|]. intros row Hin%He. by rewrite Hin in Er.
Qed.

(** ** An asset issued, burned and burned again *)

#[export] Instance CValue_countable : Countable CValue.
Proof.
  apply (inj_countable' (fun v => match v with VNull => None | VExplicit v => Some (inl v) | VConfidential c => Some (inr c) end)
    (fun o : option (Z + Bytes) => match o with None => VNull | Some (inl v) => VExplicit v | Some (inr c) => VConfidential c end)). by intros [].
Defined.
#[export] Instance AssetIssuance_eq_dec : EqDecision AssetIssuance.
Proof. solve_decision. Defined.
#[export] Instance AssetIssuance_countable : Countable AssetIssuance.
Proof.
  apply (inj_countable' (fun i => (asset_blinding_nonce i, asset_entropy i, amount i, inflation_keys i))
    (fun '(n, e, a, k) => mkAssetIssuance n e a k)). by intros [].
Defined.
#[export] Instance IssuedAssetStats_eq_dec : EqDecision IssuedAssetStats.
Proof. solve_decision. Defined.
#[export] Instance IssuedAssetStats_countable : Countable IssuedAssetStats.
Proof.
  apply (inj_countable' (fun '(mkIssuedStats a b c d e f g) => (a, b, c, d, e, f, g)) (fun '(a, b, c, d, e, f, g) => mkIssuedStats a b c d e f g)). by intros [].
Defined.
#[export] Instance PeggedAssetStats_eq_dec : EqDecision PeggedAssetStats.
Proof. solve_decision. Defined.
#[export] Instance PeggedAssetStats_countable : Countable PeggedAssetStats.
Proof.
  apply (inj_countable' (fun '(mkPeggedStats a b c d e f g) => (a, b, c, d, e, f, g)) (fun '(a, b, c, d, e, f, g) => mkPeggedStats a b c d e f g)). by intros [].
Defined.
Definition sample_codec T `{Countable T} : StatsCodec T := {| enc_stats := code_of; dec_stats := of_code |}.
Lemma of_code_code {A} `{Countable A} (a : A) : of_code (code_of a) = Some a.
Proof. unfold of_code, code_of. apply decode_encode. Qed.
Lemma sample_codec_laws T `{Countable T} : @StatsCodecLaws T (sample_codec T).
Proof. intros p. apply of_code_code. Qed.
Definition sample_elements : ElementsLib := {|
  l_txid tx := pack_hash (10 + Z.of_nat (length (l_output tx))); pegin_data _ := None; pegout_data _ := None; is_fee _ := false;
  is_provably_unspendable s := bool_decide (s = [106%Z]); has_issuance txi := bool_decide (amount (asset_issuance txi) <> VNull);
  nonce_is_null n := bool_decide (n = []); from_entropy e := e; generate_asset_entropy _ h := h; reissuance_token_from_entropy _ _ := pack_hash 77;
  NEW_ISSUANCE := pack_hash 0; genesis_block_hash _ := pack_hash 0; serialize_issuance := code_of; deserialize_issuance := of_code;
  serialize_value := code_of; hex_lower b := b; to_asm_string s := s; address_from_script _ _ := None |}.
Definition sample_asset_id : AssetId := pack_hash 5.
Definition burn (value : Z) : LTxOut := mkLTxOut (AExplicit sample_asset_id) (VExplicit value) [106%Z].
Definition issuing_tx : LTransaction := mkLTransaction [mkLTxIn (mkOutPoint (pack_hash 1) 0) (mkAssetIssuance [] sample_asset_id (VExplicit 100) VNull) false []] [].
Definition burning_tx : LTransaction := mkLTransaction [] [burn 30].
Definition unconfirmed_tx : LTransaction := mkLTransaction [] [burn 2; burn 3].
Definition sample_rows : list LHistoryRow :=
  [mkLHistoryRow sample_asset_id 3 0 (Issuing (pack_hash 10) 0 false (Some 100%Z) (Some 0%Z)); mkLHistoryRow sample_asset_id 4 0 (Burning (pack_hash 11) 0 30)].
Definition sample_blocks : list (Txid * BlockId) := [(pack_hash 10, mkBlockId 3 (pack_hash 33) 0); (pack_hash 11, mkBlockId 4 (pack_hash 34) 0)].
Definition sample_chain : AssetChain unit := {|
  asset_history_scan _ a n := if decide (a = sample_asset_id) then filter (fun r => (Z.of_nat n <= lr_height r)%Z) sample_rows else [];
  asset_confirming_block _ txid := (fun p => p.2.2) <$> list_find (fun p : Txid * BlockId => p.1 = txid) sample_blocks;
  asset_height_by_hash _ h := (fun p => bid_height p.2.2) <$> list_find (fun p : Txid * BlockId => bid_hash p.2 = h) sample_blocks;
  asset_issuance_row _ a := if decide (a = sample_asset_id) then head (map snd (@tx_issuances sample_elements Liquid BBitcoin issuing_tx)) else None |}.
Lemma sample_scan a n : @asset_history_scan _ sample_chain tt a n = filter (fun r => (Z.of_nat n <= lr_height r)%Z) (@asset_history_scan _ sample_chain tt a 0).
Proof. cbn [asset_history_scan sample_chain]. case_decide; [|done]. f_equal. Qed.
Lemma sample_row a r : r ∈ @asset_history_scan _ sample_chain tt a 0 -> a = sample_asset_id /\ r ∈ sample_rows.
Proof. cbn [asset_history_scan sample_chain]. case_decide; [|by intros ?%elem_of_nil]. intros [_ Hr]%list_elem_of_filter. done. Qed.
Lemma sample_chain_laws : @AssetChainLaws sample_elements Liquid BBitcoin _ sample_chain tt.
Proof.
  split.
  - apply sample_scan.
  - intros a. cbn [asset_history_scan sample_chain]. case_decide; [|constructor]. vm_compute. repeat constructor; by intros [=].
  - intros a r (-> & Hr)%sample_row. unfold sample_rows in Hr. rewrite !elem_of_cons, elem_of_nil in Hr. destruct Hr as [->|[->|[]]].
    + exists issuing_tx. apply list_elem_of_singleton. reflexivity.
    + exists burning_tx. apply list_elem_of_singleton. reflexivity.
  - intros a r (-> & Hr)%sample_row. unfold sample_rows in Hr. rewrite !elem_of_cons, elem_of_nil in Hr. destruct Hr as [->|[->|[]]]; eexists; split; vm_compute; reflexivity || by split.
  - intros txid txid' b b' Hb Hb' Hh. cbn [asset_confirming_block sample_chain] in *.
    destruct (list_find _ _) as [[i p]|] eqn:E in Hb; [|done]. destruct (list_find _ _) as [[i' p']|] eqn:E' in Hb'; [|done]. cbn in Hb, Hb'. simplify_eq.
    apply list_find_Some in E as (Hp & _). apply list_find_Some in E' as (Hp' & _). apply list_elem_of_lookup_2 in Hp, Hp'.
    unfold sample_blocks in *. rewrite !elem_of_cons, elem_of_nil in Hp, Hp'. destruct Hp as [->|[->|[]]], Hp' as [->|[->|[]]]; done.
  - intros a row. cbn [asset_issuance_row sample_chain]. case_decide; [|done]. subst. intros [= <-]. exists issuing_tx. apply list_elem_of_singleton. reflexivity.
Qed.
Lemma sample_mempool : exists m, @assets_reachable sample_elements Liquid BBitcoin m [unconfirmed_tx].
Proof. eexists. apply (ar_add Liquid BBitcoin _ [] unconfirmed_tx _ (ar_empty _ _)); [reflexivity|constructor]. Qed.
Lemma asset_lookup_exact_witness : exists m answer,
  (@lookup_asset sample_elements unit sample_chain (sample_codec _) (sample_codec _) Liquid tt m (fun _ => mkTxStatus true None None None) None sample_asset_id None ∅).2
    = Ok (Some answer) /\ supply answer = Some 65%Z.
Proof.
  destruct sample_mempool as [m Hm]. exists m.
  destruct (@asset_lookup_exact sample_elements Liquid BBitcoin unit sample_chain tt sample_chain_laws (sample_codec _) (sample_codec_laws _) (sample_codec _) (sample_codec_laws _)
    m [unconfirmed_tx] (fun _ => mkTxStatus true None None None) None sample_asset_id None ∅) as (cache' & answer & -> & _ & Hex).
  - apply of_code_code.
  - intros e conf. vm_compute. discriminate.
  - exact Hm.
  - intros a. by case_decide.
  - destruct answer as [[i|p]|].
    + destruct Hex as (_ & row & contract_hash & Hrow & ->). eexists. split; [done|]. vm_compute; reflexivity.
    + destruct Hex as [[=] _].
    + by destruct Hex as (_ & [=] & _).
Defined.
