(* ===== verification/SharedPaths.v ===== *)
(** * [frontend/shared]: the indexer's paths and requests as the clients build them

    The path builders and the table of routes of [paths.rs], and the calls of
    [request.rs] with the request each of them becomes.  Printing a JSON array of strings
    is the library's ([json_strings]). *)

From S2P Require Import Prelude Text Json Auth.

(** ** [paths.rs] *)

(** [ROUTES]: method and pattern of every route of the indexer, in the order of the crate. *)
Definition ROUTES : list (string * string) :=
  [ ("GET", "/blocks"); ("GET", "/mempool/recent"); ("GET", "/block/:hash"); ("GET", "/block/:hash/txs");
    ("GET", "/block-height/:height"); ("GET", "/tx/:txid"); ("GET", "/address/:script");
    ("GET", "/address/:script/txs"); ("GET", "/address/:script/utxo"); ("POST", "/tx"); ("POST", "/txs/test");
    ("GET", "/blocks/tip/hash"); ("GET", "/blocks/tip/height"); ("GET", "/blocks/:start_height");
    ("GET", "/block/:hash/txids"); ("GET", "/block/:hash/txs/:start_index"); ("GET", "/mempool");
    ("GET", "/fee-estimates"); ("GET", "/block/:hash/status"); ("GET", "/tx/:txid/outspends");
    ("GET", "/tx/:txid/outspend/:index"); ("GET", "/tx/:txid/merkle-proof"); ("GET", "/tx/:txid/hex");
    ("GET", "/address/:script/txs/chain"); ("GET", "/address/:script/txs/chain/:last_seen_txid");
    ("GET", "/address/:script/txs/mempool"); ("GET", "/address/:script/txs/summary");
    ("GET", "/address/:script/txs/summary/:last_seen_txid"); ("GET", "/mempool/txids");
    ("GET", "/mempool/txids/page/:last_seen_txid"); ("GET", "/address-prefix/:prefix");
    ("GET", "/scripthash/:hash"); ("GET", "/scripthash/:hash/txs"); ("GET", "/scripthash/:hash/txs/chain");
    ("GET", "/scripthash/:hash/txs/chain/:last_seen_txid"); ("GET", "/scripthash/:hash/txs/mempool");
    ("GET", "/scripthash/:hash/utxo"); ("POST", "/txs/package"); ("GET", "/scripthash/:hash/txs/summary");
    ("GET", "/scripthash/:hash/txs/summary/:last_seen_txid"); ("POST", "/addresses/txs");
    ("POST", "/scripthashes/txs"); ("POST", "/addresses/txs/summary");
    ("POST", "/addresses/txs/summary/:last_seen_txid"); ("POST", "/scripthashes/txs/summary");
    ("POST", "/scripthashes/txs/summary/:last_seen_txid"); ("GET", "/txs/outspends");
    ("GET", "/tx/:txid/status"); ("GET", "/block/:hash/txid/:index"); ("GET", "/block/:hash/header");
    ("GET", "/block/:hash/raw"); ("GET", "/tx/:txid/raw"); ("GET", "/tx/:txid/merkleblock-proof") ]%string.

Definition blocks_path : Text := text_of "/blocks".
Definition blocks_start_height_path (start_height : Z) : Text := text_of "/blocks/" ++ display_usize start_height.
Definition blocks_tip_hash_path : Text := text_of "/blocks/tip/hash".
Definition blocks_tip_height_path : Text := text_of "/blocks/tip/height".
Definition mempool_recent_path : Text := text_of "/mempool/recent".
Definition mempool_path : Text := text_of "/mempool".
Definition fee_estimates_path : Text := text_of "/fee-estimates".
Definition block_path (hash : Text) : Text := text_of "/block/" ++ hash.
Definition block_txs_path (hash : Text) : Text := text_of "/block/" ++ hash ++ text_of "/txs".
Definition block_txs_start_index_path (hash : Text) (start_index : Z) : Text :=
  text_of "/block/" ++ hash ++ text_of "/txs/" ++ display_usize start_index.
Definition block_txids_path (hash : Text) : Text := text_of "/block/" ++ hash ++ text_of "/txids".
Definition block_height_path (height : Z) : Text := text_of "/block-height/" ++ display_usize height.
Definition tx_path (txid : Text) : Text := text_of "/tx/" ++ txid.
Definition address_path (script : Text) : Text := text_of "/address/" ++ script.
Definition address_txs_path (script : Text) : Text := text_of "/address/" ++ script ++ text_of "/txs".
Definition address_utxo_path (script : Text) : Text := text_of "/address/" ++ script ++ text_of "/utxo".
Definition broadcast_path : Text := text_of "/tx".
Definition test_txs_path : Text := text_of "/txs/test".
Definition block_status_path (hash : Text) : Text := text_of "/block/" ++ hash ++ text_of "/status".
Definition tx_outspends_path (txid : Text) : Text := text_of "/tx/" ++ txid ++ text_of "/outspends".
Definition tx_outspend_path (txid : Text) (index : Z) : Text :=
  text_of "/tx/" ++ txid ++ text_of "/outspend/" ++ display_usize index.
Definition tx_merkle_proof_path (txid : Text) : Text := text_of "/tx/" ++ txid ++ text_of "/merkle-proof".
Definition tx_hex_path (txid : Text) : Text := text_of "/tx/" ++ txid ++ text_of "/hex".
Definition address_txs_chain_path (script : Text) : Text := text_of "/address/" ++ script ++ text_of "/txs/chain".
Definition address_txs_chain_page_path (script : Text) (last_seen_txid : Text) : Text :=
  text_of "/address/" ++ script ++ text_of "/txs/chain/" ++ last_seen_txid.
Definition address_txs_mempool_path (script : Text) : Text := text_of "/address/" ++ script ++ text_of "/txs/mempool".
Definition address_txs_summary_path (script : Text) : Text := text_of "/address/" ++ script ++ text_of "/txs/summary".
Definition address_txs_summary_page_path (script : Text) (last_seen_txid : Text) : Text :=
  text_of "/address/" ++ script ++ text_of "/txs/summary/" ++ last_seen_txid.
Definition mempool_txids_path : Text := text_of "/mempool/txids".
Definition mempool_txids_page_path (last_seen_txid : Text) : Text := text_of "/mempool/txids/page/" ++ last_seen_txid.
Definition address_prefix_path (prefix : Text) : Text := text_of "/address-prefix/" ++ prefix.
Definition scripthash_path (hash : Text) : Text := text_of "/scripthash/" ++ hash.
Definition scripthash_txs_path (hash : Text) : Text := text_of "/scripthash/" ++ hash ++ text_of "/txs".
Definition scripthash_txs_chain_path (hash : Text) : Text := text_of "/scripthash/" ++ hash ++ text_of "/txs/chain".
Definition scripthash_txs_chain_page_path (hash : Text) (last_seen_txid : Text) : Text :=
  text_of "/scripthash/" ++ hash ++ text_of "/txs/chain/" ++ last_seen_txid.
Definition scripthash_txs_mempool_path (hash : Text) : Text :=
  text_of "/scripthash/" ++ hash ++ text_of "/txs/mempool".
Definition scripthash_utxo_path (hash : Text) : Text := text_of "/scripthash/" ++ hash ++ text_of "/utxo".
Definition package_path : Text := text_of "/txs/package".
Definition asset_page_path (asset_id : Text) : Text := text_of "/assets/asset/" ++ asset_id.
Definition asset_path (asset : Text) : Text := text_of "/asset/" ++ asset.
Definition asset_txs_path (asset : Text) : Text := text_of "/asset/" ++ asset ++ text_of "/txs".
Definition asset_registry_path (asset : Text) : Text := text_of "/assets/registry/" ++ asset.
Definition scripthash_txs_summary_path (hash : Text) : Text :=
  text_of "/scripthash/" ++ hash ++ text_of "/txs/summary".
Definition scripthash_txs_summary_page_path (hash : Text) (last_seen_txid : Text) : Text :=
  text_of "/scripthash/" ++ hash ++ text_of "/txs/summary/" ++ last_seen_txid.
Definition addresses_txs_path : Text := text_of "/addresses/txs".
Definition scripthashes_txs_path : Text := text_of "/scripthashes/txs".
Definition addresses_txs_summary_path : Text := text_of "/addresses/txs/summary".
Definition addresses_txs_summary_page_path (last_seen_txid : Text) : Text :=
  text_of "/addresses/txs/summary/" ++ last_seen_txid.
Definition scripthashes_txs_summary_path : Text := text_of "/scripthashes/txs/summary".
Definition scripthashes_txs_summary_page_path (last_seen_txid : Text) : Text :=
  text_of "/scripthashes/txs/summary/" ++ last_seen_txid.
Definition tx_status_path (txid : Text) : Text := text_of "/tx/" ++ txid ++ text_of "/status".
Definition block_txid_path (hash : Text) (index : Z) : Text :=
  text_of "/block/" ++ hash ++ text_of "/txid/" ++ display_usize index.
Definition block_header_path (hash : Text) : Text := text_of "/block/" ++ hash ++ text_of "/header".
Definition block_raw_path (hash : Text) : Text := text_of "/block/" ++ hash ++ text_of "/raw".
Definition tx_raw_path (txid : Text) : Text := text_of "/tx/" ++ txid ++ text_of "/raw".
Definition tx_merkleblock_proof_path (txid : Text) : Text := text_of "/tx/" ++ txid ++ text_of "/merkleblock-proof".
Definition assets_registry_path : Text := text_of "/assets/registry".
Definition asset_txs_chain_path (asset : Text) : Text := text_of "/asset/" ++ asset ++ text_of "/txs/chain".
Definition asset_txs_chain_page_path (asset : Text) (last_seen_txid : Text) : Text :=
  text_of "/asset/" ++ asset ++ text_of "/txs/chain/" ++ last_seen_txid.
Definition asset_txs_mempool_path (asset : Text) : Text := text_of "/asset/" ++ asset ++ text_of "/txs/mempool".
Definition asset_supply_path (asset : Text) : Text := text_of "/asset/" ++ asset ++ text_of "/supply".
Definition asset_supply_decimal_path (asset : Text) : Text := text_of "/asset/" ++ asset ++ text_of "/supply/decimal".

Definition broadcast_body (hex : Text) : Text := trim hex.
Definition TXS_OUTSPENDS_MAX : nat := 50.
(** [join(c)] *)
Fixpoint join_with (c : Z) (l : list Text) : Text :=
  match l with
  | [] => []
  | [t] => t
  | t :: l => t ++ c :: join_with c l
  end.
Definition txs_outspends_path (txids : list Text) : string + Text :=
  if bool_decide (txids = []) then inl "txids query was empty"%string
  else if TXS_OUTSPENDS_MAX <? length txids then inl "txids query is limited to 50"%string
  else if existsb (fun txid => bool_decide (txid = []) || bool_decide (44%Z ∈ txid) || bool_decide (38%Z ∈ txid)) txids
  then inl "txid was empty or contained a separator"%string
  else inr (text_of "/txs/outspends?txids=" ++ join_with 44 txids).

(** *** Queries of the asset registry *)

(** [format!("{byte:02X}")] and the digits of [HEX]. *)
Definition hex_digit_upper (n : Z) : Z := if (n <? 10)%Z then (48 + n)%Z else (55 + n)%Z.
Definition hex_byte_upper (b : Z) : Text := [hex_digit_upper (b / 16); hex_digit_upper (b mod 16)].
Definition is_unreserved (b : Z) : bool :=
  (((65 <=? b) && (b <=? 90)) || ((97 <=? b) && (b <=? 122)) || ((48 <=? b) && (b <=? 57)) ||
   (b =? 45) || (b =? 95) || (b =? 46) || (b =? 126))%Z.
Definition encode_query (value : Text) : Text :=
  concat (map (fun byte => if is_unreserved byte then [byte] else 37%Z :: hex_byte_upper byte) (utf8_encode value)).
Definition append_query (query : Text) (key : string) (value : option Text) : Text :=
  match value with
  | None => query
  | Some value => query ++ (if bool_decide (query = []) then [] else [38%Z]) ++ text_of key ++ [61%Z] ++ encode_query value
  end.
Definition assets_registry_page_path (start_index limit sort_field sort_dir : option Text) : Text :=
  let query := append_query [] "start_index" start_index in
  let query := append_query query "limit" limit in
  let query := append_query query "sort_field" sort_field in
  let query := append_query query "sort_dir" sort_dir in
  if bool_decide (query = []) then assets_registry_path else assets_registry_path ++ [63%Z] ++ query.
Definition assets_registry_search_path (query : Text) : Text := text_of "/assets/registry/search?q=" ++ encode_query query.

(** ** [request.rs] *)

Record IndexerRequest := mkIndexerRequest { ir_method : string; ir_path : Text; ir_body : option Text }.
Module Calls.
Inductive IndexerCall :=
  | Blocks
  | BlocksFromHeight (height : Z)
  | BlocksTipHash
  | BlocksTipHeight
  | MempoolRecent
  | Mempool
  | FeeEstimates
  | Block (hash : Text)
  | BlockTxs (hash : Text)
  | BlockTxsFromIndex (hash : Text) (start_index : Z)
  | BlockTxids (hash : Text)
  | BlockHeight (height : Z)
  | Tx (txid : Text)
  | Address (script : Text)
  | AddressTxs (script : Text)
  | AddressUtxo (script : Text)
  | Broadcast (hex : Text)
  | TestTxs (hexes : list Text)
  | BlockStatus (hash : Text)
  | TxOutspends (txid : Text)
  | TxOutspend (txid : Text) (index : Z)
  | TxMerkleProof (txid : Text)
  | TxHex (txid : Text)
  | AddressTxsChain (script : Text)
  | AddressTxsChainPage (script : Text) (last_seen_txid : Text)
  | AddressTxsMempool (script : Text)
  | AddressTxsSummary (script : Text)
  | AddressTxsSummaryPage (script : Text) (last_seen_txid : Text)
  | MempoolTxids
  | MempoolTxidsPage (last_seen_txid : Text)
  | AddressPrefix (prefix : Text)
  | ScriptHash (hash : Text)
  | ScriptHashTxs (hash : Text)
  | ScriptHashTxsChain (hash : Text)
  | ScriptHashTxsChainPage (hash : Text) (last_seen_txid : Text)
  | ScriptHashTxsMempool (hash : Text)
  | ScriptHashUtxo (hash : Text)
  | Package (hexes : list Text)
  | Asset (asset : Text)
  | ScriptHashTxsSummary (hash : Text)
  | ScriptHashTxsSummaryPage (hash : Text) (last_seen_txid : Text)
  | AddressesTxs (scripts : list Text)
  | ScriptHashesTxs (hashes : list Text)
  | AddressesTxsSummary (scripts : list Text)
  | AddressesTxsSummaryPage (scripts : list Text) (last_seen_txid : Text)
  | ScriptHashesTxsSummary (hashes : list Text)
  | ScriptHashesTxsSummaryPage (hashes : list Text) (last_seen_txid : Text)
  | TxStatus (txid : Text)
  | BlockTxid (hash : Text) (index : Z)
  | BlockHeader (hash : Text)
  | BlockRaw (hash : Text)
  | TxRaw (txid : Text)
  | TxMerkleBlockProof (txid : Text)
  | AssetsRegistry
  | AssetsRegistrySearch (query : Text)
  | AssetRegistry (asset : Text)
  | AssetTxsChain (asset : Text)
  | AssetTxsChainPage (asset : Text) (last_seen_txid : Text)
  | AssetTxsMempool (asset : Text)
  | AssetSupply (asset : Text)
  | AssetSupplyDecimal (asset : Text).
End Calls.
Import Calls.

Section requests.
Context (json_strings : list Text -> Text).
Definition test_txs_body (hexes : list Text) : Text := json_strings hexes.
Definition package_body (hexes : list Text) : Text := test_txs_body hexes.
Definition addresses_txs_body (scripts : list Text) : Text := json_strings scripts.
Definition scripthashes_txs_body (hashes : list Text) : Text := addresses_txs_body hashes.
Definition post (path body : Text) : IndexerRequest := mkIndexerRequest "POST" path (Some body).
Definition get (path : Text) : IndexerRequest := mkIndexerRequest "GET" path None.

Definition indexer_request (call : IndexerCall) : IndexerRequest :=
  match call with
  | Blocks => get blocks_path
  | BlocksFromHeight height => get (blocks_start_height_path height)
  | BlocksTipHash => get blocks_tip_hash_path
  | BlocksTipHeight => get blocks_tip_height_path
  | MempoolRecent => get mempool_recent_path
  | Mempool => get mempool_path
  | FeeEstimates => get fee_estimates_path
  | Block hash => get (block_path hash)
  | BlockTxs hash => get (block_txs_path hash)
  | BlockTxsFromIndex hash start_index => get (block_txs_start_index_path hash start_index)
  | BlockTxids hash => get (block_txids_path hash)
  | BlockHeight height => get (block_height_path height)
  | Tx txid => get (tx_path txid)
  | Address script => get (address_path script)
  | AddressTxs script => get (address_txs_path script)
  | AddressUtxo script => get (address_utxo_path script)
  | Broadcast hex => mkIndexerRequest "POST" broadcast_path (Some (broadcast_body hex))
  | TestTxs hexes => mkIndexerRequest "POST" test_txs_path (Some (test_txs_body hexes))
  | BlockStatus hash => get (block_status_path hash)
  | TxOutspends txid => get (tx_outspends_path txid)
  | TxOutspend txid index => get (tx_outspend_path txid index)
  | TxMerkleProof txid => get (tx_merkle_proof_path txid)
  | TxHex txid => get (tx_hex_path txid)
  | AddressTxsChain script => get (address_txs_chain_path script)
  | AddressTxsChainPage script last_seen_txid => get (address_txs_chain_page_path script last_seen_txid)
  | AddressTxsMempool script => get (address_txs_mempool_path script)
  | AddressTxsSummary script => get (address_txs_summary_path script)
  | AddressTxsSummaryPage script last_seen_txid => get (address_txs_summary_page_path script last_seen_txid)
  | MempoolTxids => get mempool_txids_path
  | MempoolTxidsPage last_seen_txid => get (mempool_txids_page_path last_seen_txid)
  | AddressPrefix prefix => get (address_prefix_path prefix)
  | ScriptHash hash => get (scripthash_path hash)
  | ScriptHashTxs hash => get (scripthash_txs_path hash)
  | ScriptHashTxsChain hash => get (scripthash_txs_chain_path hash)
  | ScriptHashTxsChainPage hash last_seen_txid => get (scripthash_txs_chain_page_path hash last_seen_txid)
  | ScriptHashTxsMempool hash => get (scripthash_txs_mempool_path hash)
  | ScriptHashUtxo hash => get (scripthash_utxo_path hash)
  | Package hexes => mkIndexerRequest "POST" package_path (Some (package_body hexes))
  | Asset asset => get (asset_path asset)
  | ScriptHashTxsSummary hash => get (scripthash_txs_summary_path hash)
  | ScriptHashTxsSummaryPage hash last_seen_txid => get (scripthash_txs_summary_page_path hash last_seen_txid)
  | AddressesTxs scripts => post addresses_txs_path (addresses_txs_body scripts)
  | ScriptHashesTxs hashes => post scripthashes_txs_path (scripthashes_txs_body hashes)
  | AddressesTxsSummary scripts => post addresses_txs_summary_path (addresses_txs_body scripts)
  | AddressesTxsSummaryPage scripts last_seen_txid => post (addresses_txs_summary_page_path last_seen_txid) (addresses_txs_body scripts)
  | ScriptHashesTxsSummary hashes => post scripthashes_txs_summary_path (scripthashes_txs_body hashes)
  | ScriptHashesTxsSummaryPage hashes last_seen_txid => post (scripthashes_txs_summary_page_path last_seen_txid) (scripthashes_txs_body hashes)
  | TxStatus txid => get (tx_status_path txid)
  | BlockTxid hash index => get (block_txid_path hash index)
  | BlockHeader hash => get (block_header_path hash)
  | BlockRaw hash => get (block_raw_path hash)
  | TxRaw txid => get (tx_raw_path txid)
  | TxMerkleBlockProof txid => get (tx_merkleblock_proof_path txid)
  | AssetsRegistry => get assets_registry_path
  | AssetsRegistrySearch query => get (assets_registry_search_path query)
  | AssetRegistry asset => get (asset_registry_path asset)
  | AssetTxsChain asset => get (asset_txs_chain_path asset)
  | AssetTxsChainPage asset last_seen_txid => get (asset_txs_chain_page_path asset last_seen_txid)
  | AssetTxsMempool asset => get (asset_txs_mempool_path asset)
  | AssetSupply asset => get (asset_supply_path asset)
  | AssetSupplyDecimal asset => get (asset_supply_decimal_path asset)
  end.
Definition broadcast_route_request (route raw_tx : Text) : option IndexerRequest :=
  if bool_decide (route = text_of "/tx/push") || bool_decide (route = text_of "/pushtx")
  then Some (indexer_request (Broadcast raw_tx))
  else if bool_decide (route = text_of "/tx/test") then Some (indexer_request (TestTxs [raw_tx]))
  else None.
End requests.
