(* ===== verification/WebPaths.v ===== *)
(** * [frontend/web/src/paths.rs] and [search.rs]

    What the web client requests: the paths of its screens, the list of addresses of the
    wallet screen with its percent encoding, and the plan of a search.  [percent_decode]
    works on bytes and slices the text, so it is a [result].  The markup of the search
    screen is modelled where it is made from texts; the rows of an indexer's answer
    ([rows.rs]) are not. *)

From S2P Require Import Prelude Text Json Auth Mwck SharedPaths.

(** ** The Standard Library *)

(** [String::from_utf8_lossy]: every maximal part of an invalid sequence becomes U+FFFD. *)
Definition REPLACEMENT : Z := 65533.
Definition second_of_three (b0 b1 : Z) : bool :=
  (((b0 =? 224) && (160 <=? b1) && (b1 <? 192)) || ((225 <=? b0) && (b0 <=? 236) && is_cont b1) ||
   ((b0 =? 237) && (128 <=? b1) && (b1 <? 160)) || ((238 <=? b0) && (b0 <=? 239) && is_cont b1))%Z.
Definition second_of_four (b0 b1 : Z) : bool :=
  (((b0 =? 240) && (144 <=? b1) && (b1 <? 192)) || ((241 <=? b0) && (b0 <=? 243) && is_cont b1) ||
   ((b0 =? 244) && (128 <=? b1) && (b1 <? 144)))%Z.
Fixpoint from_utf8_lossy (b : Bytes) : Text :=
  match b with
  | [] => []
  | b0 :: r =>
      if (b0 <? 128)%Z then b0 :: from_utf8_lossy r
      else match r with
      | [] => [REPLACEMENT]
      | b1 :: r1 =>
          if ((194 <=? b0) && (b0 <=? 223))%Z then
            if is_cont b1 then ((b0 - 192) * 64 + (b1 - 128))%Z :: from_utf8_lossy r1 else REPLACEMENT :: from_utf8_lossy r
          else if second_of_three b0 b1 then
            match r1 with
            | [] => [REPLACEMENT]
            | b2 :: r2 =>
                if is_cont b2 then ((b0 - 224) * 4096 + (b1 - 128) * 64 + (b2 - 128))%Z :: from_utf8_lossy r2
                else REPLACEMENT :: from_utf8_lossy r1
            end
          else if second_of_four b0 b1 then
            match r1 with
            | [] => [REPLACEMENT]
            | b2 :: r2 =>
                if negb (is_cont b2) then REPLACEMENT :: from_utf8_lossy r1
                else match r2 with
                | [] => [REPLACEMENT]
                | b3 :: r3 =>
                    if is_cont b3
                    then ((b0 - 240) * 262144 + (b1 - 128) * 4096 + (b2 - 128) * 64 + (b3 - 128))%Z :: from_utf8_lossy r3
                    else REPLACEMENT :: from_utf8_lossy r2
                end
            end
          else REPLACEMENT :: from_utf8_lossy r
      end
  end.
(** [u8::from_str_radix(s, 16)] for a text of two bytes: a plus sign is allowed before a digit. *)
Definition hex_val (c : Z) : option Z :=
  (if (48 <=? c) && (c <=? 57) then Some (c - 48)
   else if (65 <=? c) && (c <=? 70) then Some (c - 55)
   else if (97 <=? c) && (c <=? 102) then Some (c - 87) else None)%Z.
Definition radix16 (h1 h2 : Z) : option Z :=
  if (h1 =? 43)%Z then hex_val h2
  else a ← hex_val h1; b ← hex_val h2; Some (16 * a + b)%Z.

(** ** [paths.rs] *)

Record IndexerRequest := mkWebRequest { wr_method : string; wr_path : Text }.
Definition dashboard_paths : list Text :=
  [blocks_tip_hash_path; blocks_tip_height_path; blocks_path; fee_estimates_path; mempool_path].
(** [start] is a [u32]. *)
Definition block_txs_path (hash : Text) (start : Z) : string + Text :=
  if negb (start mod 25 =? 0)%Z then inl "page start must be a multiple of 25"%string
  else inr (block_txs_start_index_path hash start).
Definition mempool_paths : list Text := [mempool_path; mempool_recent_path].
Definition screen_routes : list string :=
  ["/"; "/blocks"; "/block/:hash"; "/widget/wallet"; "/tx/push"; "/pushtx"; "/tx/test"; "/tx/:txid"; "/address/:addr";
   "/mempool"; "/terms-of-service"; "/privacy-policy"; "/trademark-policy"; "/docs"; "/docs/faq"; "/docs/api/rest";
   "/docs/api/:type"]%string.
Definition broadcast_request : IndexerRequest := mkWebRequest "POST" broadcast_path.
Definition test_transactions_request : IndexerRequest := mkWebRequest "POST" test_txs_path.
Definition static_page_routes : list string :=
  ["/terms-of-service"; "/privacy-policy"; "/trademark-policy"; "/docs"; "/docs/faq"; "/docs/api/rest"; "/docs/api/:type"]%string.
Definition is_ascii_alphanumeric (c : Z) : bool :=
  (((65 <=? c) && (c <=? 90)) || ((97 <=? c) && (c <=? 122)) || ((48 <=? c) && (c <=? 57)))%Z.
Definition is_one_doc_segment (segment : Text) : bool :=
  match segment with
  | first :: rest =>
      is_ascii_alphanumeric first && forallb (fun ch => is_ascii_alphanumeric ch || (ch =? 45)%Z || (ch =? 95)%Z) rest
  | [] => false
  end.
Definition docs_api_type_page (type_segment : Text) : option Text :=
  if negb (is_one_doc_segment type_segment) then None else Some (text_of "/docs/api/" ++ type_segment).
(** Static pages ask for nothing. *)
Definition static_page_requests (route : Text) : list IndexerRequest :=
  if existsb (fun known => bool_decide (text_of known = route)) static_page_routes then []
  else match strip_prefix route (text_of "/docs/api/") with
  | Some segment => if is_one_doc_segment segment then [] else []
  | None => []
  end.

Definition encode_query_component (value : Text) : Text :=
  concat (map (fun byte => if is_unreserved byte || (byte =? 44)%Z then [byte] else 37%Z :: hex_byte_upper byte) (utf8_encode value)).
(** The loop over the bytes of the text; the slice of two bytes after a percent sign must end
    at a character boundary. *)
Definition at_boundary (rest : Bytes) : bool := match rest with c :: _ => negb (is_cont c) | [] => true end.
Fixpoint percent_bytes (bytes : Bytes) : result Bytes :=
  match bytes with
  | [] => Ok []
  | b :: tail =>
      let push := if (b =? 43)%Z then 32%Z else b in
      if (b =? 37)%Z then
        match tail with
        | h1 :: h2 :: rest =>
            if negb (at_boundary rest) then Panic
            else match radix16 h1 h2 with
            | Some value => cons value <$> percent_bytes rest
            | None => cons push <$> percent_bytes tail
            end
        | _ => cons push <$> percent_bytes tail
        end
      else cons push <$> percent_bytes tail
  end.
Definition percent_decode (input : Text) : result Text := from_utf8_lossy <$> percent_bytes (utf8_encode input).

(** The scripts of one pair of the query. *)
Definition pair_addresses (pair : Text) : result (list Text) :=
  if bool_decide (pair = []) then Ok []
  else
    let '(key, value) := default (pair, []) (split_once 61 pair) in
    key ← percent_decode key;
    if negb (bool_decide (key = text_of "addresses")) then Ok []
    else
      value ← percent_decode value;
      Ok (filter (fun script => script <> []) (map trim (split_on 44 value))).
Definition addresses_from_query (query : Text) : result (list Text) :=
  let query := skip_while (Z.eqb 63) (trim query) in
  if bool_decide (query = []) then Ok []
  else (fun l => concat l) <$> rmap pair_addresses (split_on 38 query).
Definition multi_address_requests (query : Text) : result (list IndexerRequest) :=
  map (fun script => mkWebRequest "GET" (address_path script)) <$> addresses_from_query query.
Definition multi_address_requests_from_values (values : list Text) : result (list IndexerRequest) :=
  if bool_decide (values = []) then Ok []
  else multi_address_requests (join_with 38 (map (fun value => text_of "addresses=" ++ encode_query_component value) values)).
Definition v1_client_requests : result (list IndexerRequest) :=
  let gets := map (mkWebRequest "GET") in
  wallet ← multi_address_requests (text_of "addresses=one,two");
  Ok (gets dashboard_paths ++
      gets [block_path (text_of "00"); block_txids_path (text_of "00");
            match block_txs_path (text_of "00") 0 with inr p => p | inl _ => [] end;
            tx_path (text_of "00"); address_path (text_of "addr"); address_txs_path (text_of "addr");
            address_utxo_path (text_of "addr"); block_height_path 0; SharedPaths.block_txs_path (text_of "00")] ++
      gets mempool_paths ++ wallet ++ [broadcast_request; test_transactions_request] ++
      concat (map (fun route => static_page_requests (text_of route)) static_page_routes)).

(** ** [search.rs] *)

Record SearchPlan := mkPlan { hrefs : list Text; requests : list IndexerRequest }.
Definition ADDRESS_STARTS : list Text := map text_of ["bc1"; "tb1"; "bcrt1"; "lq1"; "ex1"; "ert1"]%string.
Definition BECH32M_ADDRESS_LEN : nat := 62.
Definition BECH32_ADDRESS_LEN : nat := 42.
Definition BASE58 : Text := text_of "123456789ABCDEFGHJKLMNPQRSTUVWXYZabcdefghijkmnopqrstuvwxyz".
(** [char::is_control]: the category Cc. *)
Definition is_control (c : Z) : bool := ((c <? 32) || ((127 <=? c) && (c <=? 159)))%Z.
Definition is_forbidden_in_prefix (ch : Z) : bool := ((ch =? 47) || (ch =? 63) || (ch =? 35) || (ch =? 32))%Z || is_control ch.
Definition is_prefix (query : Text) : bool :=
  let len := length query in (1 <=? len) && (len <=? 64) && negb (existsb is_forbidden_in_prefix query).
Definition is_base58 (ch : Z) : bool := bool_decide (ch ∈ BASE58).
Definition is_base58_address (query : Text) : bool :=
  let len := length query in
  if negb ((26 <=? len) && (len <=? 90)) then false
  else match query with
  | c :: _ => ((c =? 49) || (c =? 51) || (c =? 109) || (c =? 110) || (c =? 50))%Z && forallb is_base58 query
  | [] => false
  end.
Definition is_address (query : Text) : bool :=
  let lower := to_ascii_lowercase query in
  if existsb (starts_with lower) ADDRESS_STARTS then
    if starts_with lower (text_of "bc1p") && (length query <? BECH32M_ADDRESS_LEN) && is_prefix query then false
    else if starts_with lower (text_of "bc1q") && (length query <? BECH32_ADDRESS_LEN) && is_prefix query then false
    else true
  else is_base58_address query.
Definition is_hex_64 (query : Text) : bool :=
  (utf8_len query =? 64)%Z && forallb is_hexdigit query.
Definition is_ascii_digits (query : Text) : bool := negb (bool_decide (query = [])) && forallb is_ascii_digit query.
Definition get (path : Text) : IndexerRequest := mkWebRequest "GET" path.
Definition prefix_plan (prefix : Text) : SearchPlan :=
  let folded := to_ascii_lowercase prefix in
  let requested := if starts_with folded (text_of "bc1") then folded else prefix in
  mkPlan [] [get (address_prefix_path requested)].
Definition address_plan (address : Text) : SearchPlan :=
  let href := address_path address in mkPlan [href] [get href].
Definition hex_plan (hex : Text) (liquid : bool) : SearchPlan :=
  let hex := to_ascii_lowercase hex in
  mkPlan [tx_path hex; block_path hex]
    ([get (scripthash_path hex); get (scripthash_txs_path hex); get (scripthash_utxo_path hex);
      get (scripthash_txs_mempool_path hex)] ++
     if liquid then [get (asset_path hex); get (asset_txs_path hex)] else []).
Definition height_plan (height : Text) : SearchPlan :=
  let href := match parse_usize height with
              | Some value => block_height_path value
              | None => text_of "/block-height/" ++ height
              end in
  mkPlan [href] [get href].
Definition plan_search_on (raw : Text) (liquid : bool) : option SearchPlan :=
  let query := trim raw in
  if bool_decide (query = []) then None
  else if is_ascii_digits query then Some (height_plan query)
  else if is_hex_64 query then Some (hex_plan query liquid)
  else if is_address query then Some (address_plan query)
  else if is_prefix query then Some (prefix_plan query)
  else None.
Definition plan_search (raw : Text) : option SearchPlan := plan_search_on raw false.

(** *** Markup; 34 is the quotation mark *)

Definition html_escape_char (ch : Z) : Text :=
  (if ch =? 38 then text_of "&amp;" else if ch =? 60 then text_of "&lt;" else if ch =? 62 then text_of "&gt;"
   else if ch =? 34 then text_of "&quot;" else if ch =? 39 then text_of "&#39;" else [ch])%Z.
Definition html_escape (text : Text) : Text := concat (map html_escape_char text).
Definition quoted (t : Text) : Text := [34%Z] ++ t ++ [34%Z].
Definition paragraph (class text : Text) : Text :=
  text_of "<p class=" ++ quoted class ++ text_of ">" ++ html_escape text ++ text_of "</p>".
Definition notice (sentence : Text) : Text := paragraph (text_of "notice") sentence.
Definition address_anchor (address : Text) : Text :=
  let escaped := html_escape address in
  text_of "<a class=" ++ quoted (text_of "address") ++ text_of " href=" ++ quoted (text_of "/address/" ++ escaped) ++
  text_of ">" ++ escaped ++ text_of "</a>".
Definition indexer_lines_markup (body : Text) : option Text :=
  let trimmed := trim body in
  if bool_decide (trimmed = []) || starts_with trimmed (text_of "{") || starts_with trimmed (text_of "[") then None
  else if negb (existsb (fun line => starts_with line (text_of "indexer error ")) (lines trimmed)) then None
  else Some (concat (map notice (filter (fun line => line <> []) (map trim (lines trimmed))))).
Definition search_links_markup (raw : Text) : Text :=
  match plan_search raw with
  | None => []
  | Some plan => concat (map (fun href => let escaped := html_escape href in
      text_of "<a href=" ++ quoted escaped ++ text_of ">" ++ escaped ++ text_of "</a>") (hrefs plan))
  end.
(** [parse] reads a JSON array of addresses, [is_json] tells whether a text is JSON. *)
Definition single_non_json_line (is_json : Text -> bool) (body : Text) : bool :=
  negb (bool_decide (10%Z ∈ body)) && negb (bool_decide (13%Z ∈ body)) && negb (is_json body).
Definition address_prefix_markup (parse : Text -> option (list Text)) (is_json : Text -> bool) (body : Text) : Text :=
  let trimmed := trim body in
  if bool_decide (trimmed = []) then []
  else match indexer_lines_markup trimmed with
  | Some html => html
  | None =>
      if bool_decide (trimmed = text_of "address search disabled") then notice trimmed
      else match parse trimmed with
      | Some [] => paragraph (text_of "empty") (text_of "There are no addresses.")
      | Some addresses => concat (map address_anchor (filter (fun address => address <> []) addresses))
      | None => if single_non_json_line is_json trimmed then notice trimmed else []
      end
  end.
