(* ===== verification/ClientFacts.v ===== *)
(** * What the clients' requests reach

    Every call of the shared library is routed by the indexer to the handler it is named
    after, through the front of its network ([client_calls_routed]); the searches and the
    wallet screen of the web client only make such calls ([search_plan_calls],
    [wallet_requests_exact]); what is put into a page is escaped. *)

From S2P Require Import Prelude Text Json Bitcoin Rows RocksDB Electrum Sigops Auth RestValues Rest.
From S2P Require Import Indexer Query ElectrumFacts RestFacts Mwck MwckFacts RestServer RestServerFacts Front FrontFacts SharedPaths WebPaths.
Import Calls.

(** ** Paths as segments *)

(** ["/a/b"] from its segments. *)
Fixpoint path_of (segments : list Text) : Text :=
  match segments with
  | [] => []
  | [s] => 47%Z :: s
  | s :: rest => 47%Z :: s ++ path_of rest
  end.
Definition is_segment (t : Text) : Prop := 47%Z ∉ t.
Lemma path_of_split segments :
  segments <> [] -> Forall is_segment segments -> split_on 47 (path_of segments) = [] :: segments.
Proof.
  intros Hne Hs. induction Hs as [|s segments Hs Hr IH]; [done|]. destruct segments as [|s' rest].
  { cbn. by rewrite split_on_none. }
  change (path_of (s :: s' :: rest)) with (47%Z :: s ++ path_of (s' :: rest)). specialize (IH ltac:(done)).
  assert (exists t, path_of (s' :: rest) = 47%Z :: t) as [t Ht] by (destruct rest; by eexists).
  rewrite Ht in IH |- *. change (split_on 47 (47%Z :: s ++ 47%Z :: t)) with ([] :: split_on 47 (s ++ 47%Z :: t)).
  rewrite split_on_joined by done. change (split_on 47 (47%Z :: t)) with ([] :: split_on 47 t) in IH. by injection IH as ->.
Qed.

(** ** The calls of the shared library *)

(** The texts a call puts into its path, and the numbers. *)
Definition call_texts (c : IndexerCall) : list Text :=
  match c with
  | Block x | BlockTxs x | BlockTxsFromIndex x _ | BlockTxids x | Tx x | Address x | AddressTxs x | AddressUtxo x
  | BlockStatus x | TxOutspends x | TxOutspend x _ | TxMerkleProof x | TxHex x | AddressTxsChain x | AddressTxsMempool x
  | AddressTxsSummary x | MempoolTxidsPage x | AddressPrefix x | ScriptHash x | ScriptHashTxs x | ScriptHashTxsChain x
  | ScriptHashTxsMempool x | ScriptHashUtxo x | Asset x | ScriptHashTxsSummary x | AddressesTxsSummaryPage _ x
  | ScriptHashesTxsSummaryPage _ x | TxStatus x | BlockTxid x _ | BlockHeader x | BlockRaw x | TxRaw x
  | TxMerkleBlockProof x | AssetRegistry x | AssetTxsChain x | AssetTxsMempool x | AssetSupply x | AssetSupplyDecimal x => [x]
  | AddressTxsChainPage x y | AddressTxsSummaryPage x y | ScriptHashTxsChainPage x y | ScriptHashTxsSummaryPage x y
  | AssetTxsChainPage x y => [x; y]
  | _ => []
  end.
Definition call_numbers (c : IndexerCall) : list Z :=
  match c with
  | BlocksFromHeight n | BlockTxsFromIndex _ n | BlockHeight n | TxOutspend _ n | BlockTxid _ n => [n]
  | _ => []
  end.
(** A text that stays one segment of a path: no ['/'], ['?'] or ['#']. *)
Definition plain_text (t : Text) : Prop := 47%Z ∉ t /\ 63%Z ∉ t /\ 35%Z ∉ t.
Definition plain_call (c : IndexerCall) : Prop :=
  Forall plain_text (call_texts c) /\ Forall (fun n => (0 <= n)%Z) (call_numbers c).
(** A URL's path and query, as a server reads them. *)
Definition uri_of (u : Text) : Text * option Text :=
  let u := match split_once 35 u with Some (before, _) => before | None => u end in
  match split_once 63 u with Some (path, query) => (path, Some query) | None => (u, None) end.
(** The segments of a call's path. *)
Definition call_segments (c : IndexerCall) : list Text :=
  match c with
  | Blocks => [text_of "blocks"]
  | BlocksFromHeight height => [text_of "blocks"; display_usize height]
  | BlocksTipHash => [text_of "blocks"; text_of "tip"; text_of "hash"]
  | BlocksTipHeight => [text_of "blocks"; text_of "tip"; text_of "height"]
  | MempoolRecent => [text_of "mempool"; text_of "recent"]
  | Mempool => [text_of "mempool"]
  | FeeEstimates => [text_of "fee-estimates"]
  | Block hash => [text_of "block"; hash]
  | BlockTxs hash => [text_of "block"; hash; text_of "txs"]
  | BlockTxsFromIndex hash start_index => [text_of "block"; hash; text_of "txs"; display_usize start_index]
  | BlockTxids hash => [text_of "block"; hash; text_of "txids"]
  | BlockHeight height => [text_of "block-height"; display_usize height]
  | Tx txid => [text_of "tx"; txid]
  | Address script => [text_of "address"; script]
  | AddressTxs script => [text_of "address"; script; text_of "txs"]
  | AddressUtxo script => [text_of "address"; script; text_of "utxo"]
  | Broadcast _ => [text_of "tx"]
  | TestTxs _ => [text_of "txs"; text_of "test"]
  | BlockStatus hash => [text_of "block"; hash; text_of "status"]
  | TxOutspends txid => [text_of "tx"; txid; text_of "outspends"]
  | TxOutspend txid index => [text_of "tx"; txid; text_of "outspend"; display_usize index]
  | TxMerkleProof txid => [text_of "tx"; txid; text_of "merkle-proof"]
  | TxHex txid => [text_of "tx"; txid; text_of "hex"]
  | AddressTxsChain script => [text_of "address"; script; text_of "txs"; text_of "chain"]
  | AddressTxsChainPage script last_seen_txid => [text_of "address"; script; text_of "txs"; text_of "chain"; last_seen_txid]
  | AddressTxsMempool script => [text_of "address"; script; text_of "txs"; text_of "mempool"]
  | AddressTxsSummary script => [text_of "address"; script; text_of "txs"; text_of "summary"]
  | AddressTxsSummaryPage script last_seen_txid => [text_of "address"; script; text_of "txs"; text_of "summary"; last_seen_txid]
  | MempoolTxids => [text_of "mempool"; text_of "txids"]
  | MempoolTxidsPage last_seen_txid => [text_of "mempool"; text_of "txids"; text_of "page"; last_seen_txid]
  | AddressPrefix prefix => [text_of "address-prefix"; prefix]
  | ScriptHash hash => [text_of "scripthash"; hash]
  | ScriptHashTxs hash => [text_of "scripthash"; hash; text_of "txs"]
  | ScriptHashTxsChain hash => [text_of "scripthash"; hash; text_of "txs"; text_of "chain"]
  | ScriptHashTxsChainPage hash last_seen_txid => [text_of "scripthash"; hash; text_of "txs"; text_of "chain"; last_seen_txid]
  | ScriptHashTxsMempool hash => [text_of "scripthash"; hash; text_of "txs"; text_of "mempool"]
  | ScriptHashUtxo hash => [text_of "scripthash"; hash; text_of "utxo"]
  | Package _ => [text_of "txs"; text_of "package"]
  | Asset asset => [text_of "asset"; asset]
  | ScriptHashTxsSummary hash => [text_of "scripthash"; hash; text_of "txs"; text_of "summary"]
  | ScriptHashTxsSummaryPage hash last_seen_txid => [text_of "scripthash"; hash; text_of "txs"; text_of "summary"; last_seen_txid]
  | AddressesTxs _ => [text_of "addresses"; text_of "txs"]
  | ScriptHashesTxs _ => [text_of "scripthashes"; text_of "txs"]
  | AddressesTxsSummary _ => [text_of "addresses"; text_of "txs"; text_of "summary"]
  | AddressesTxsSummaryPage _ last_seen_txid => [text_of "addresses"; text_of "txs"; text_of "summary"; last_seen_txid]
  | ScriptHashesTxsSummary _ => [text_of "scripthashes"; text_of "txs"; text_of "summary"]
  | ScriptHashesTxsSummaryPage _ last_seen_txid => [text_of "scripthashes"; text_of "txs"; text_of "summary"; last_seen_txid]
  | TxStatus txid => [text_of "tx"; txid; text_of "status"]
  | BlockTxid hash index => [text_of "block"; hash; text_of "txid"; display_usize index]
  | BlockHeader hash => [text_of "block"; hash; text_of "header"]
  | BlockRaw hash => [text_of "block"; hash; text_of "raw"]
  | TxRaw txid => [text_of "tx"; txid; text_of "raw"]
  | TxMerkleBlockProof txid => [text_of "tx"; txid; text_of "merkleblock-proof"]
  | AssetsRegistry => [text_of "assets"; text_of "registry"]
  | AssetsRegistrySearch _ => map text_of ["assets"; "registry"; "search"]%string
  | AssetRegistry asset => [text_of "assets"; text_of "registry"; asset]
  | AssetTxsChain asset => [text_of "asset"; asset; text_of "txs"; text_of "chain"]
  | AssetTxsChainPage asset last_seen_txid => [text_of "asset"; asset; text_of "txs"; text_of "chain"; last_seen_txid]
  | AssetTxsMempool asset => [text_of "asset"; asset; text_of "txs"; text_of "mempool"]
  | AssetSupply asset => [text_of "asset"; asset; text_of "supply"]
  | AssetSupplyDecimal asset => [text_of "asset"; asset; text_of "supply"; text_of "decimal"]
  end.

(** ** URLs *)

Lemma path_of_elem c segments : c ∈ path_of segments -> c = 47%Z \/ exists s, s ∈ segments /\ c ∈ s.
Proof.
  induction segments as [|s rest IH]; [by intros ?%elem_of_nil|].
  assert (c = 47%Z \/ c ∈ s \/ c ∈ path_of rest -> c = 47%Z \/ exists s', s' ∈ s :: rest /\ c ∈ s') as Hw.
  { intros [->|[Hc|[->|(s' & Hs & Hc)]%IH]]; [by left| |by left|]; right; [exists s|exists s']; set_solver. }
  intros Hc. apply Hw. destruct rest; cbn [path_of] in Hc; set_solver.
Qed.
Lemma uri_of_path segments : Forall plain_text segments -> uri_of (path_of segments) = (path_of segments, None).
Proof.
  intros Hp. rewrite Forall_forall in Hp. unfold uri_of.
  assert (35%Z ∉ path_of segments /\ 63%Z ∉ path_of segments) as [H35 H63].
  { split; intros [|(s & (H1 & H2 & H3)%Hp & ?)]%path_of_elem; done. }
  by rewrite (split_once_none 35), (split_once_none 63).
Qed.
Lemma digits_plain t : Forall is_digit t -> plain_text t.
Proof. rewrite Forall_forall. intros H. repeat split; intros Hc%H; unfold is_digit in Hc; lia. Qed.
Lemma call_segments_plain c : plain_call c -> Forall plain_text (call_segments c).
Proof.
  intros [Ht Hn]. destruct c; cbn [call_texts call_numbers call_segments map] in *;
    repeat match goal with H : Forall _ (_ :: _) |- _ => apply Forall_cons in H as [? H] end;
    repeat apply Forall_cons_2; try assumption; try apply Forall_nil_2;
    lazymatch goal with
    | |- context [text_of] => repeat split; vm_decide
    | |- _ => by apply digits_plain, display_usize_digits
    end.
Qed.
Lemma uri_of_query (path query : Text) : 35%Z ∉ path -> 63%Z ∉ path -> exists q, uri_of (path ++ 63%Z :: query) = (path, Some q).
Proof.
  intros H1 H2. destruct (decide (35%Z ∈ query)) as [(q & rest & -> & Hq)%list_elem_of_split_l|Hq].
  - exists q. unfold uri_of. change (63%Z :: q ++ 35%Z :: rest) with ((63%Z :: q) ++ 35%Z :: rest).
    rewrite (app_assoc path), (split_once_at 35) by (apply not_elem_of_app; split; [|apply not_elem_of_cons]; done). by rewrite split_once_at.
  - exists query. unfold uri_of. rewrite (split_once_none 35) by (apply not_elem_of_app; split; [|apply not_elem_of_cons]; done). by rewrite split_once_at.
Qed.
(** The URL of a call: only the search for assets has a query. *)
Lemma uri_of_call js c : plain_call c -> exists query,
  uri_of (ir_path (indexer_request js c)) = (path_of (call_segments c), query) /\
  ((forall q, c <> AssetsRegistrySearch q) -> query = None).
Proof.
  intros Hp%call_segments_plain. destruct c;
    try (exists None; split; [by rewrite <- uri_of_path by exact Hp|done]).
  destruct (uri_of_query (text_of "/assets/registry/search") (text_of "q=" ++ encode_query query)) as [q Hq];
    [vm_decide..|]. exists (Some q). split; [exact Hq|]. intros Hne. by destruct (Hne query).
Qed.
(** A call's path is none of the websockets'. *)
Lemma call_rest_path c : rest_path (path_of (call_segments c)).
Proof. split; [|split]; destruct c; try discriminate; try reflexivity; by eexists. Qed.

(** *** Plain texts of a search *)

Lemma lowercase_plain t : plain_text t -> plain_text (to_ascii_lowercase t).
Proof.
  unfold plain_text, to_ascii_lowercase. intros (H1 & H2 & H3).
  repeat split; intros (x & Hx & Hin)%list_elem_of_fmap; repeat case_match; try lia; congruence.
Qed.
Lemma forallb_plain (f : Z -> bool) t : f 47%Z = false -> f 63%Z = false -> f 35%Z = false -> forallb f t = true -> plain_text t.
Proof.
  intros H1 H2 H3 Hf. rewrite forallb_forall in Hf. repeat split; intros Hin%list_elem_of_In%Hf; congruence.
Qed.
Lemma digits_query_plain q : is_ascii_digits q = true -> plain_text q.
Proof. unfold is_ascii_digits. intros [_ H]%andb_true_iff. by apply (forallb_plain is_ascii_digit). Qed.
Lemma parse_digits_nonneg t : forall acc n, (0 <= acc)%Z -> parse_digits acc t = Some n -> (0 <= n)%Z.
Proof.
  induction t as [|c t IH]; cbn; intros acc n Ha; [by intros [= <-]|]. repeat case_match; try done. intros Hp. eapply IH; [|exact Hp]. lia.
Qed.
Lemma parse_usize_nonneg t n : parse_usize t = Some n -> (0 <= n)%Z.
Proof. destruct t as [|c r]; cbn [parse_usize]; [done|]. repeat case_match; try done; intros Hp; by apply parse_digits_nonneg in Hp. Qed.
Lemma hex_query_plain q : is_hex_64 q = true -> plain_text q.
Proof. unfold is_hex_64. intros [_ H]%andb_true_iff. by apply (forallb_plain is_hexdigit). Qed.
Lemma prefix_query_plain q : is_prefix q = true -> plain_text q.
Proof.
  unfold is_prefix. intros [_ H]%andb_true_iff. apply (forallb_plain (fun c => negb (is_forbidden_in_prefix c))); [done..|].
  apply forallb_forall. intros c Hc. apply negb_true_iff. destruct (is_forbidden_in_prefix c) eqn:E; [|done].
  apply negb_true_iff in H. rewrite <- H. symmetry. apply existsb_exists. eauto.
Qed.

(** ** Finding a route *)

Section routing.
Context {D : Type} {RDB : RocksDB D} {BL : BitcoinLib} {W : Wincode}.
Context {EL : ElectrumLib} {SL : ScriptLib} {TS : TxSize} {RL : RestLib}.
Context (cfg : RestConfig) (rpc : RestRpc) (sha256d : Bytes -> FullHash) (now later : Z).
Context (par_order : list PageItem -> list PageItem) (js : list Text -> Text).
Let handle := handle_request cfg rpc sha256d now later par_order.

(** The methods and patterns of the routes, which depend on nothing. *)
Definition route_table : list (string * list Pat) :=
  ltac:(let t := eval cbv [map routes rt_method rt_path Rest.route script_kinds group_kinds]
          in (map (fun r => (rt_method r, rt_path r)) (routes cfg rpc sha256d now later par_order [] [])) in exact t).
Definition table_matches (method : Text) (path : list Text) (r : string * list Pat) : bool :=
  bool_decide (method = text_of r.1) && path_matches r.2 path.
(** The first element with a property, by its index. *)
Fixpoint index_of {A} (f : A -> bool) (l : list A) : option nat :=
  match l with [] => None | x :: l => if f x then Some 0 else S <$> index_of f l end.

Lemma list_find_index {A} (P : A -> Prop) `{!forall x, Decision (P x)} l :
  match index_of (fun x => bool_decide (P x)) l with
  | Some i => exists x, l !! i = Some x /\ list_find P l = Some (i, x)
  | None => list_find P l = None
  end.
Proof.
  induction l as [|x l IH]; [done|]. cbn. case_decide as Hp.
  - rewrite bool_decide_eq_true_2 by done. by exists x.
  - rewrite bool_decide_eq_false_2 by done. destruct (index_of _ l) as [i|]; cbn.
    + destruct IH as (y & Hy & ->). by exists y.
    + by rewrite IH.
Qed.
Lemma index_of_map {A B} (f : B -> bool) (g : A -> B) l : index_of f (map g l) = index_of (fun x => f (g x)) l.
Proof. induction l as [|x l IH]; [done|]. cbn. by rewrite IH. Qed.
Lemma index_of_ext {A} (f g : A -> bool) l : (forall x, f x = g x) -> index_of f l = index_of g l.
Proof. intros Hfg. induction l as [|x l IH]; [done|]. cbn. by rewrite Hfg, IH. Qed.
Lemma route_index method path query_params body :
  index_of (fun r => bool_decide (route_matches method path r)) (routes cfg rpc sha256d now later par_order query_params body) =
  index_of (table_matches method path) route_table.
Proof.
  change route_table with (map (fun r => (rt_method r, rt_path r)) (routes cfg rpc sha256d now later par_order query_params body)).
  rewrite index_of_map. apply index_of_ext. intros r.
  destruct (table_matches method path (rt_method r, rt_path r)) eqn:E.
  - apply bool_decide_eq_true_2. exact E.
  - apply bool_decide_eq_false_2. intros Hr. change (table_matches method path (rt_method r, rt_path r) = true) in Hr. congruence.
Qed.
Definition params_of (uri_query : option Text) : list (Text * Text) :=
  match uri_query with Some value => parse_query value | None => [] end.
(** The table decides which handler runs, with the segments of the path. *)
Lemma handle_at method segments uri_query body :
  segments <> [] -> Forall is_segment segments ->
  handle method (path_of segments) uri_query body =
  match index_of (table_matches method segments) route_table with
  | Some i =>
      match routes cfg rpc sha256d now later par_order (params_of uri_query) body !! i with
      | Some r => rt_handler r (fun i => segments !! i)
      | None => fail (not_found "")
      end
  | None => fail (mkHttpError NOT_FOUND (text_of "endpoint does not exist " ++ debug_str (path_of segments)))
  end.
Proof.
  intros Hne Hs. unfold handle, handle_request. rewrite path_of_split by done. cbv zeta. change (drop 1 ([] :: segments)) with segments. fold (params_of uri_query).
  rewrite <- (route_index method segments (params_of uri_query) body).
  pose proof (list_find_index (route_matches method segments) (routes cfg rpc sha256d now later par_order (params_of uri_query) body)) as Hf.
  destruct (index_of _ _) as [i|]; [|by rewrite Hf]. destruct Hf as (r & -> & ->). done.
Qed.
(** The handler a call means; the assets are those of a Liquid build. *)
Definition call_handler (c : IndexerCall) (body : Bytes) : option (H D HttpResponse) :=
  match c with
  | Blocks => Some (get_blocks cfg None)
  | BlocksFromHeight height => Some (get_blocks cfg (Some (display_usize height)))
  | BlocksTipHash => Some (tip_hash_)
  | BlocksTipHeight => Some (tip_height)
  | MempoolRecent => Some (mempool_recent)
  | Mempool => Some (mempool_stats)
  | FeeEstimates => Some (fee_estimates rpc now later)
  | Block hash => Some (get_block hash)
  | BlockTxs hash => Some (block_txs cfg hash None)
  | BlockTxsFromIndex hash start_index => Some (block_txs cfg hash (Some (display_usize start_index)))
  | BlockTxids hash => Some (block_txids hash)
  | BlockHeight height => Some (block_height (display_usize height))
  | Tx txid => Some (get_tx cfg txid)
  | Address script => Some (script_stats cfg (text_of "address") script)
  | AddressTxs script => Some (script_txs cfg par_order [] (text_of "address") script)
  | AddressUtxo script => Some (script_utxo cfg (text_of "address") script)
  | Broadcast _ => Some (broadcast cfg rpc true [] body)
  | TestTxs _ => Some (txs_test rpc [] body)
  | BlockStatus hash => Some (block_status hash)
  | TxOutspends txid => Some (tx_outspends txid)
  | TxOutspend txid index => Some (tx_outspend txid (display_usize index))
  | TxMerkleProof txid => Some (tx_merkle_proof sha256d txid)
  | TxHex txid => Some (tx_raw txid (text_of "hex"))
  | AddressTxsChain script => Some (script_txs_chain cfg par_order [] (text_of "address") script None)
  | AddressTxsChainPage script last_seen_txid => Some (script_txs_chain cfg par_order [] (text_of "address") script (Some last_seen_txid))
  | AddressTxsMempool script => Some (script_txs_mempool cfg [] (text_of "address") script)
  | AddressTxsSummary script => Some (script_summary cfg [] (text_of "address") script None)
  | AddressTxsSummaryPage script last_seen_txid => Some (script_summary cfg [] (text_of "address") script (Some last_seen_txid))
  | MempoolTxids => Some (mempool_txids)
  | MempoolTxidsPage last_seen_txid => Some (mempool_txids_page cfg [] (Some last_seen_txid))
  | AddressPrefix prefix => Some (address_prefix cfg prefix)
  | ScriptHash hash => Some (script_stats cfg (text_of "scripthash") hash)
  | ScriptHashTxs hash => Some (script_txs cfg par_order [] (text_of "scripthash") hash)
  | ScriptHashTxsChain hash => Some (script_txs_chain cfg par_order [] (text_of "scripthash") hash None)
  | ScriptHashTxsChainPage hash last_seen_txid => Some (script_txs_chain cfg par_order [] (text_of "scripthash") hash (Some last_seen_txid))
  | ScriptHashTxsMempool hash => Some (script_txs_mempool cfg [] (text_of "scripthash") hash)
  | ScriptHashUtxo hash => Some (script_utxo cfg (text_of "scripthash") hash)
  | Package _ => Some (txs_package rpc [] body)
  | ScriptHashTxsSummary hash => Some (script_summary cfg [] (text_of "scripthash") hash None)
  | ScriptHashTxsSummaryPage hash last_seen_txid => Some (script_summary cfg [] (text_of "scripthash") hash (Some last_seen_txid))
  | AddressesTxs _ => Some (group_txs cfg par_order [] body (text_of "addresses"))
  | ScriptHashesTxs _ => Some (group_txs cfg par_order [] body (text_of "scripthashes"))
  | AddressesTxsSummary _ => Some (group_summary cfg [] body (text_of "addresses") None)
  | AddressesTxsSummaryPage _ last_seen_txid => Some (group_summary cfg [] body (text_of "addresses") (Some last_seen_txid))
  | ScriptHashesTxsSummary _ => Some (group_summary cfg [] body (text_of "scripthashes") None)
  | ScriptHashesTxsSummaryPage _ last_seen_txid => Some (group_summary cfg [] body (text_of "scripthashes") (Some last_seen_txid))
  | TxStatus txid => Some (tx_status txid)
  | BlockTxid hash index => Some (block_txid hash (display_usize index))
  | BlockHeader hash => Some (block_header_ hash)
  | BlockRaw hash => Some (block_raw hash)
  | TxRaw txid => Some (tx_raw txid (text_of "raw"))
  | TxMerkleBlockProof txid => Some (tx_merkleblock_proof txid)
  | _ => None
  end.

Lemma start_height_index t : index_of (table_matches (text_of "GET") [text_of "blocks"; t]) route_table = Some 4.
Proof.
  assert (forall last, path_matches [Lit "blocks"; Lit "tip"; Lit last; End_; End_] [text_of "blocks"; t] = false) as Htip.
  { intros last. unfold path_matches. cbn -[bool_decide text_of]. by rewrite !andb_false_r. }
  unfold route_table. cbn [index_of]. unfold table_matches at 1 2. cbn [fst snd]. rewrite !Htip, !andb_false_r. vm_compute. reflexivity.
Qed.
(** Found in the table, a call runs its handler. *)
Lemma call_at c query body : plain_call c -> ((forall q, c <> AssetsRegistrySearch q) -> query = None) ->
  handle (text_of (ir_method (indexer_request js c))) (path_of (call_segments c)) query body =
  match call_handler c body with
  | Some h => h
  | None => fail (mkHttpError NOT_FOUND (text_of "endpoint does not exist " ++ debug_str (path_of (call_segments c))))
  end.
Proof.
  intros Hp%call_segments_plain Hq. rewrite handle_at.
  2: { by destruct c. }
  2: { eapply Forall_impl; [exact Hp|]. by intros t []. }
  clear Hp. destruct c; try rewrite Hq by done; clear Hq; [|cbn [call_segments ir_method indexer_request SharedPaths.get]; by rewrite start_height_index|..]; cbn [call_segments call_handler ir_method indexer_request SharedPaths.get post];
    repeat (match goal with |- context [display_usize ?n] => generalize (display_usize n); intros ? end);
    lazymatch goal with |- context [index_of ?f ?t] =>
      let i := eval vm_compute in (index_of f t) in replace (index_of f t) with i by (vm_compute; reflexivity) end;
    reflexivity.
Qed.

(** C32: every call of the shared library whose texts are segments of a path becomes a
    request that the public front proxies to the indexer of its network with the path
    unchanged, and the indexer answers it with the handler the call is named after; the
    calls for assets, which only a Liquid build serves, find no endpoint. *)
Theorem client_calls_routed c n body :
  plain_call c ->
  let r := indexer_request js c in
  let '(path, query) := uri_of (ir_path r) in
  Front.route (Api.api_prefix n ++ path) = Proxy (network_id n) path /\
  handle (text_of (ir_method r)) path query body =
  match call_handler c body with
  | Some h => h
  | None => fail (mkHttpError NOT_FOUND (text_of "endpoint does not exist " ++ debug_str path))
  end.
Proof.
  intros Hc. cbv zeta. destruct (uri_of_call js c Hc) as (query & -> & Hq). split.
  - rewrite api_prefix_front, <- app_assoc, route_proxy, backend_path_rest; [done|apply call_rest_path|].
    apply is_api_spec. eexists. split; [done|]. right. by destruct c; eexists.
  - by apply call_at.
Qed.

(** ** Searches *)

(** What answers a search, by the kind of its text. *)
Definition search_handlers (query : Text) : list (H D HttpResponse) :=
  if is_ascii_digits query then [block_height (match parse_usize query with Some h => display_usize h | None => query end)]
  else if is_hex_64 query then
    let hex := to_ascii_lowercase query in
    let scripthash := text_of "scripthash" in
    [script_stats cfg scripthash hex; script_txs cfg par_order [] scripthash hex; script_utxo cfg scripthash hex;
     script_txs_mempool cfg [] scripthash hex]
  else if is_address query then [script_stats cfg (text_of "address") query]
  else
    let folded := to_ascii_lowercase query in
    [address_prefix cfg (if starts_with folded (text_of "bc1") then folded else query)].
Definition answered_by (r : WebPaths.IndexerRequest) (h : H D HttpResponse) : Prop :=
  handle (text_of (wr_method r)) (wr_path r) None [] = h.
Lemma call_answered c h :
  ir_method (indexer_request js c) = "GET"%string -> call_handler c [] = Some h -> plain_call c ->
  answered_by (WebPaths.get (path_of (call_segments c))) h.
Proof.
  intros Hm Hh Hc. unfold answered_by. cbn [wr_method wr_path WebPaths.get].
  pose proof (call_at c None [] Hc (fun _ => eq_refl)) as Ha. by rewrite Hm, Hh in Ha.
Qed.
Lemma block_height_answered t : plain_text t -> answered_by (WebPaths.get (path_of [text_of "block-height"; t])) (block_height t).
Proof.
  intros [Ht _]. unfold answered_by. cbn [wr_method wr_path WebPaths.get]. rewrite handle_at; [|done|].
  2: { repeat apply Forall_cons_2; [vm_decide|done|constructor]. }
  replace (index_of _ route_table) with (Some 5) by (vm_compute; reflexivity). reflexivity.
Qed.

(** What the search of the web client asks for is answered by the handlers its text
    calls for: a number by the block at that height, 64 hexadecimal digits by the
    statistics, transactions, coins and mempool of that script hash, an address by its
    statistics and a part of an address by the search for addresses; an address has to be
    free of the separators of URLs for that. *)
Lemma search_answered raw plan :
  plan_search raw = Some plan -> (is_address (trim raw) = true -> plain_text (trim raw)) ->
  Forall2 answered_by (requests plan) (search_handlers (trim raw)).
Proof.
  unfold plan_search, plan_search_on, search_handlers. generalize (trim raw). intros q. case_bool_decide as Hne; [done|].
  destruct (is_ascii_digits q) eqn:Hd; [|destruct (is_hex_64 q) eqn:Hh; [|destruct (is_address q) eqn:Ha; [|destruct (is_prefix q) eqn:Hp; [|done]]]];
    intros [= <-] Hpl; cbn [requests height_plan hex_plan address_plan prefix_plan app].
  - apply digits_query_plain in Hd. constructor; [|constructor].
    destruct (parse_usize q) as [h|] eqn:E; [|by apply block_height_answered].
    apply block_height_answered, digits_plain, display_usize_digits. by apply (parse_usize_nonneg q).
  - apply hex_query_plain, lowercase_plain in Hh. set (hex := to_ascii_lowercase q) in *.
    assert (forall c, call_texts c = [hex] -> call_numbers c = [] -> plain_call c) as Hc.
    { intros c Ht Hn. unfold plain_call. rewrite Ht, Hn. split; [by apply Forall_singleton|constructor]. }
    repeat apply Forall2_cons_2; [..|constructor].
    + by apply (call_answered (ScriptHash hex)), Hc.
    + by apply (call_answered (ScriptHashTxs hex)), Hc.
    + by apply (call_answered (ScriptHashUtxo hex)), Hc.
    + by apply (call_answered (ScriptHashTxsMempool hex)), Hc.
  - constructor; [|constructor]. apply (call_answered (Address q)); [done..|]. split; [apply Forall_singleton; auto|constructor].
  - apply prefix_query_plain in Hp. constructor; [|constructor].
    set (t := if starts_with _ _ then _ else _). assert (plain_text t) by (unfold t; case_match; auto using lowercase_plain).
    apply (call_answered (AddressPrefix t)); [done..|]. split; [by apply Forall_singleton|constructor].
Qed.
End routing.

(** ** Percent encoding *)

(** What an encoded text is made of. *)
Definition is_encoded (c : Z) : Prop := is_unreserved c = true \/ c = 44%Z \/ c = 37%Z.
Lemma encoded_range c : is_encoded c -> (37 <= c < 127 /\ c <> 38 /\ c <> 61 /\ c <> 63)%Z.
Proof. unfold is_encoded, is_unreserved. intros H. repeat split; lia. Qed.
Lemma hex_digit_unreserved n : (0 <= n < 16)%Z -> is_unreserved (hex_digit_upper n) = true.
Proof. intros Hn. unfold hex_digit_upper, is_unreserved. destruct (Z.ltb_spec n 10); lia. Qed.
Lemma hex_byte_roundtrip b : is_byte b ->
  radix16 (hex_digit_upper (b / 16)) (hex_digit_upper (b mod 16)) = Some b.
Proof.
  unfold is_byte. intros Hb. pose proof (Z.mod_pos_bound b 16 ltac:(lia)). pose proof (Z.div_mod b 16 ltac:(lia)).
  assert (0 <= b / 16 < 16)%Z by lia.
  assert (forall n, (0 <= n < 16)%Z -> hex_val (hex_digit_upper n) = Some n /\ (hex_digit_upper n =? 43)%Z = false) as Hd.
  { intros n Hn. unfold hex_val, hex_digit_upper. destruct (Z.ltb_spec n 10); (split; [|lia]); ztest; f_equal; lia. }
  unfold radix16. destruct (Hd (b / 16)%Z) as [-> ->]; [done|]. destruct (Hd (b mod 16)%Z) as [-> _]; [done|]. cbn. f_equal. lia.
Qed.
Definition encode_byte (byte : Z) : Text :=
  if is_unreserved byte || (byte =? 44)%Z then [byte] else 37%Z :: hex_byte_upper byte.
Lemma encode_byte_encoded b : is_byte b -> Forall is_encoded (encode_byte b).
Proof.
  unfold is_byte, encode_byte. intros Hb. destruct (is_unreserved b || (b =? 44)%Z) eqn:E.
  - apply Forall_singleton. apply orb_true_iff in E as [E|E%Z.eqb_eq]; [by left|by right; left].
  - pose proof (Z.mod_pos_bound b 16 ltac:(lia)). pose proof (Z.div_mod b 16 ltac:(lia)).
    unfold hex_byte_upper. repeat apply Forall_cons_2; [by right; right|left; apply hex_digit_unreserved; lia..|constructor].
Qed.
Lemma encode_bytes_encoded bytes : Forall is_byte bytes -> Forall is_encoded (concat (map encode_byte bytes)).
Proof. induction 1 as [|b bytes Hb _ IH]; cbn; [done|]. apply Forall_app. split; [by apply encode_byte_encoded|done]. Qed.
Lemma encoded_boundary t : Forall is_encoded t -> at_boundary t = true.
Proof. intros [|c r Hc%encoded_range _]; cbn; [done|]. unfold is_cont. by ztest. Qed.
Lemma percent_bytes_encode bytes : Forall is_byte bytes -> percent_bytes (concat (map encode_byte bytes)) = Ok bytes.
Proof.
  induction 1 as [|b bytes Hb Hbs IH]; [done|]. cbn [map concat].
  unfold encode_byte at 1. destruct (is_unreserved b || (b =? 44)%Z) eqn:E.
  - assert ((b =? 37)%Z = false /\ (b =? 43)%Z = false) as [H1 H2] by (unfold is_unreserved in E; lia).
    cbn [app percent_bytes]. rewrite H1, H2, IH. done.
  - cbn [app percent_bytes hex_byte_upper]. change (37 =? 37)%Z with true. cbn iota.
    rewrite encoded_boundary by (by apply encode_bytes_encoded). cbn [negb]. rewrite hex_byte_roundtrip by done. by rewrite IH.
Qed.
Lemma utf8_encode_ascii t : Forall (fun c => (c < 128)%Z) t -> utf8_encode t = t.
Proof. unfold utf8_encode. induction 1 as [|c t Hc _ IH]; cbn; [done|]. rewrite IH. unfold utf8_char. by ztest. Qed.
Lemma from_utf8_lossy_char c r : is_char c -> from_utf8_lossy (utf8_char c ++ r) = c :: from_utf8_lossy r.
Proof.
  intros Hc. unfold is_char in Hc. unfold utf8_char.
  pose proof (Z.mod_pos_bound c 64 ltac:(lia)). pose proof (Z.mod_pos_bound (c / 64) 64 ltac:(lia)).
  pose proof (Z.mod_pos_bound (c / 4096) 64 ltac:(lia)).
  pose proof (Z.div_mod c 64 ltac:(lia)) as Hd1.
  pose proof (Z.div_mod (c / 64) 64 ltac:(lia)) as Hd2. rewrite Z.div_div in Hd2 by lia. change (64 * 64)%Z with 4096%Z in Hd2.
  pose proof (Z.div_mod (c / 4096) 64 ltac:(lia)) as Hd3. rewrite Z.div_div in Hd3 by lia. change (4096 * 64)%Z with 262144%Z in Hd3.
  destruct (Z.ltb_spec c 128); [cbn; by ztest|].
  destruct (Z.ltb_spec c 2048); [|destruct (Z.ltb_spec c 65536)]; cbn [app from_utf8_lossy].
  - ztest. rewrite is_cont_low. f_equal. lia.
  - assert (second_of_three (224 + c / 4096) (128 + (c / 64) mod 64) = true) as ->
      by (unfold second_of_three, is_cont; lia).
    ztest. rewrite is_cont_low. f_equal. lia.
  - assert (second_of_three (240 + c / 262144) (128 + (c / 4096) mod 64) = false) as -> by (unfold second_of_three; lia).
    assert (second_of_four (240 + c / 262144) (128 + (c / 4096) mod 64) = true) as -> by (unfold second_of_four, is_cont; lia).
    ztest. rewrite !is_cont_low. cbn [negb]. f_equal. lia.
Qed.
Lemma from_utf8_lossy_encode t : Forall is_char t -> from_utf8_lossy (utf8_encode t) = t.
Proof.
  unfold utf8_encode. induction 1 as [|c t Hc _ IH]; [done|]. cbn [map concat]. by rewrite from_utf8_lossy_char, IH.
Qed.

(** ** The wallet screen *)

Lemma split_on_join c l : l <> [] -> Forall (fun t => c ∉ t) l -> split_on c (join_with c l) = l.
Proof.
  intros Hne Hl. induction Hl as [|t l Ht Hl IH]; [done|]. destruct l as [|t' l]; [by apply split_on_none|].
  change (join_with c (t :: t' :: l)) with (t ++ c :: join_with c (t' :: l)). by rewrite split_on_joined, IH.
Qed.
Lemma join_with_Forall (P : Z -> Prop) c l : P c -> Forall (Forall P) l -> Forall P (join_with c l).
Proof.
  intros Hc Hl. induction Hl as [|t l Ht Hl IH]; [done|]. destruct l as [|t' l]; [done|].
  change (join_with c (t :: t' :: l)) with (t ++ c :: join_with c (t' :: l)). apply Forall_app. auto using Forall_cons_2.
Qed.
(** The scripts of one value: its parts between commas, trimmed, without the empty ones. *)
Definition wallet_scripts (value : Text) : list Text := filter (fun script => script <> []) (map trim (split_on 44 value)).
Definition wallet_pair (value : Text) : Text := text_of "addresses=" ++ encode_query_component value.
Lemma percent_roundtrip value : Forall is_char value -> percent_decode (encode_query_component value) = Ok value.
Proof.
  intros Hv. change (encode_query_component value) with (concat (map encode_byte (utf8_encode value))). unfold percent_decode.
  pose proof (utf8_bytes value Hv) as Hb. rewrite utf8_encode_ascii.
  - rewrite percent_bytes_encode by done. cbn. by rewrite from_utf8_lossy_encode.
  - eapply Forall_impl; [by apply encode_bytes_encoded|]. intros c Hc%encoded_range. lia.
Qed.
Lemma wallet_pair_scripts value : Forall is_char value -> pair_addresses (wallet_pair value) = Ok (wallet_scripts value).
Proof.
  intros Hv. unfold pair_addresses. rewrite bool_decide_eq_false_2 by done.
  change (wallet_pair value) with (text_of "addresses" ++ 61%Z :: encode_query_component value).
  rewrite split_once_at by vm_decide. unfold default, from_option, id.
  assert (percent_decode (text_of "addresses") = Ok (text_of "addresses")) as -> by (vm_compute; reflexivity).
  cbn [mbind result_bind]. rewrite bool_decide_eq_true_2 by done. cbn [negb]. by rewrite percent_roundtrip.
Qed.
(** A character of the query that the values make. *)
Lemma wallet_pair_chars value : Forall is_char value -> Forall (fun c => 36 < c < 127 /\ c <> 38)%Z (wallet_pair value).
Proof.
  intros Hv. apply Forall_app. split; [vm_decide|]. eapply Forall_impl; [apply encode_bytes_encoded, (utf8_bytes value Hv)|].
  intros c Hc%encoded_range. lia.
Qed.

(** The wallet screen turns whatever lists of addresses it is given, in any
    characters, into one request per address: encoding the values into a query and decoding
    the query again gives the values back, so that the requests are those of their parts
    between commas, trimmed and not empty, in their order; nothing panics on the way. *)
Lemma wallet_requests_exact values :
  Forall (Forall is_char) values ->
  multi_address_requests_from_values values =
  Ok (map (fun script => mkWebRequest "GET" (address_path script)) (concat (map wallet_scripts values))).
Proof.
  intros Hv. unfold multi_address_requests_from_values. case_bool_decide as Hne; [by subst|].
  change (fun value : Text => text_of "addresses=" ++ encode_query_component value) with wallet_pair. unfold multi_address_requests, addresses_from_query.
  assert (Forall (fun c => 36 < c < 127)%Z (join_with 38 (map wallet_pair values))) as Hc.
  { apply join_with_Forall; [lia|]. apply Forall_fmap. eapply Forall_impl; [exact Hv|]. intros v Hvc.
    eapply Forall_impl; [by apply wallet_pair_chars|]. intros c; cbn; lia. }
  rewrite trim_no_space.
  2: { eapply Forall_impl; [exact Hc|]. intros c Hr. cbn in Hr. unfold is_whitespace. lia. }
  assert (exists rest, join_with 38 (map wallet_pair values) = 97%Z :: rest) as [rest Hr].
  { destruct values as [|v [|v' vs]]; [done|by eexists..]. }
  replace (skip_while (Z.eqb 63) (join_with 38 (map wallet_pair values))) with (join_with 38 (map wallet_pair values)) by (by rewrite Hr).
  rewrite bool_decide_eq_false_2 by (by rewrite Hr). rewrite split_on_join.
  - rewrite (rmap_Ok pair_addresses (fun p => default [] (match pair_addresses p with Ok l => Some l | _ => None end))).
    + cbn. do 3 f_equal. rewrite map_map. apply map_ext_in. intros v Hin%list_elem_of_In.
      rewrite wallet_pair_scripts; [done|]. by eapply Forall_forall in Hv.
    + intros p (v & -> & Hin)%list_elem_of_fmap. rewrite wallet_pair_scripts; [done|]. by eapply Forall_forall in Hv.
  - by destruct values.
  - apply Forall_fmap. eapply Forall_impl; [exact Hv|]. intros v Hvc Hin. cbn in Hin.
    pose proof (wallet_pair_chars v Hvc) as Hp. rewrite Forall_forall in Hp. destruct (Hp 38%Z Hin). lia.
Qed.

(** ** Where the client goes wrong *)

(** An address may hold a separator: the search for this text asks for the transactions of
    another address instead of its statistics. *)
Lemma search_leaves_address : exists plan,
  plan_search (text_of "tb1a/txs") = Some plan /\ requests plan = [WebPaths.get (address_txs_path (text_of "tb1a"))].
Proof. eexists. split; vm_compute; reflexivity. Qed.
(** A percent sign, one byte and a character of two bytes: the slice ends inside it. *)
Lemma percent_decode_panics : multi_address_requests (text_of "addresses=%a" ++ [233%Z]) = Panic.
Proof. vm_compute. reflexivity. Qed.

(** ** The query for many outspends *)

(** A query the client accepts names its transactions: at most fifty, read back by the
    indexer's split at commas. *)
Lemma txs_outspends_roundtrip txids path : txs_outspends_path txids = inr path ->
  exists query, path = text_of "/txs/outspends?txids=" ++ query /\ split_on 44 query = txids /\ length txids <= 50.
Proof.
  unfold txs_outspends_path. case_bool_decide as Hne; [done|]. destruct (Nat.ltb_spec TXS_OUTSPENDS_MAX (length txids)) as [|Hl]; [done|].
  destruct (existsb _ txids) eqn:E; [done|]. intros [= <-]. eexists. split; [done|]. split; [|exact Hl].
  apply split_on_join; [done|]. apply Forall_forall. intros t Ht%list_elem_of_In Hc.
  enough (existsb (fun txid => bool_decide (txid = []) || bool_decide (44%Z ∈ txid) || bool_decide (38%Z ∈ txid)) txids = true) by congruence.
  apply existsb_exists. exists t. split; [done|]. by rewrite (bool_decide_eq_true_2 (44%Z ∈ t)), orb_true_r.
Qed.

(** ** Markup *)

(** Nothing of a text that is put into a page ends the attribute or the element it is in. *)
Lemma html_escape_safe t : Forall (fun c => c <> 60 /\ c <> 62 /\ c <> 34 /\ c <> 39)%Z (html_escape t).
Proof.
  unfold html_escape. induction t as [|c t IH]; [constructor|]. cbn [map concat]. apply Forall_app. split; [|done].
  unfold html_escape_char. repeat case_match; try vm_decide. apply Forall_singleton. cbn. lia.
Qed.
Lemma html_escape_inj a b : html_escape a = html_escape b -> a = b.
Proof.
  revert b. induction a as [|x a IH]; intros [|y b]; [done| | |].
  - unfold html_escape at 2. cbn. intros He. symmetry in He. apply app_eq_nil in He as [He _]. unfold html_escape_char in He. by repeat case_match.
  - unfold html_escape at 1. cbn. intros [He _]%app_eq_nil. unfold html_escape_char in He. by repeat case_match.
  - change (html_escape_char x ++ html_escape a = html_escape_char y ++ html_escape b -> x :: a = y :: b).
    unfold html_escape_char.
    destruct (Z.eqb_spec x 38), (Z.eqb_spec x 60), (Z.eqb_spec x 62), (Z.eqb_spec x 34), (Z.eqb_spec x 39),
      (Z.eqb_spec y 38), (Z.eqb_spec y 60), (Z.eqb_spec y 62), (Z.eqb_spec y 34), (Z.eqb_spec y 39); subst; try lia;
      cbn [app text_of]; intros He; simplify_eq/=; by rewrite (IH b).
Qed.

(** ** Witnesses *)

Lemma client_calls_routed_witness :
  @handle_request KvMap _ ExampleLib FixintWincode ExampleElectrum ExampleScripts ex_size ExampleRest ex_rcfg ex_rest_rpc
    (fun _ => pack_hash 0) 0 0 reverse (text_of "GET") (text_of "/block/00ff/txs/25") None [] =
  @block_txs KvMap _ ExampleLib FixintWincode ExampleElectrum ExampleScripts ex_size ExampleRest ex_rcfg (text_of "00ff") (Some (text_of "25")) /\
  Front.route (text_of "/testnet4/api/block/00ff/txs/25") = Proxy Testnet4 (text_of "/block/00ff/txs/25").
Proof.
  destruct (@client_calls_routed KvMap _ ExampleLib FixintWincode ExampleElectrum ExampleScripts ex_size ExampleRest
    ex_rcfg ex_rest_rpc (fun _ => pack_hash 0) 0 0 reverse (fun _ => []) (BlockTxsFromIndex (text_of "00ff") 25) Api.Testnet4 [])
    as [Hf Hh].
  - split; [|by repeat constructor]. apply Forall_singleton. repeat split; vm_decide.
  - split; [exact Hh|exact Hf].
Defined.
Lemma wallet_requests_exact_witness :
  multi_address_requests_from_values [text_of "bc1qa, 1b+c"; [233%Z]] =
  Ok (map (fun script => mkWebRequest "GET" (address_path script)) [text_of "bc1qa"; text_of "1b+c"; [233%Z]]).
Proof.
  rewrite (wallet_requests_exact [text_of "bc1qa, 1b+c"; [233%Z]]); [vm_compute; reflexivity|].
  repeat apply Forall_cons_2; try apply Forall_nil_2; unfold is_char; vm_decide.
Defined.
Lemma search_answered_witness : exists plan h,
  plan_search (text_of " 840000 ") = Some plan /\
  requests plan = [WebPaths.get (text_of "/block-height/840000")] /\
  @handle_request KvMap _ ExampleLib FixintWincode ExampleElectrum ExampleScripts ex_size ExampleRest ex_rcfg ex_rest_rpc
    (fun _ => pack_hash 0) 0 0 reverse (text_of "GET") (text_of "/block-height/840000") None [] = h /\
  h = @block_height KvMap ExampleElectrum (text_of "840000").
Proof.
  pose proof (@search_answered KvMap _ ExampleLib FixintWincode ExampleElectrum ExampleScripts ex_size ExampleRest
    ex_rcfg ex_rest_rpc (fun _ => pack_hash 0) 0 0 reverse (fun _ => []) (text_of " 840000 ")
    (height_plan (text_of "840000")) ltac:(vm_compute; reflexivity) ltac:(vm_compute; discriminate)) as Hs.
  eexists. eexists. split; [vm_compute; reflexivity|]. split; [vm_compute; reflexivity|]. split; [|reflexivity].
  inversion Hs as [|r h rs hs Hr _]; subst. exact Hr.
Defined.
